(* ===== verification/_CoqProject ===== *)
-Q . S2P
Prelude.v
Wire.v
WireLoop.v
Text.v
TextFacts.v
Glob.v
Base64.v
ChannelMsg.v
Channel.v
ChannelFacts.v
ChannelFlow.v
Crypto.v
Cipher.v
Compress.v
Packet.v
PacketFacts.v
PacketSafe.v
KexInit.v
KexFacts.v
KexHash.v
KexMethods.v
KexMethodFacts.v
KexKeys.v
HostKey.v
Cert.v
CertFacts.v
CertParse.v
SignKey.v
CertIssue.v
AuthMsg.v
AuthMsgFacts.v
AuthServer.v
AuthFacts.v
AuthRun.v
AuthLimits.v
AuthClient.v
AuthSession.v
AuthClientFacts.v
AuthLogin.v
AuthDemo.v
KnownHosts.v
KnownHostsFacts.v
KnownHostsTrust.v
Krl.v
KrlFacts.v
Runner.v
RunnerFacts.v
RunnerSafe.v
Advert.v
Driver.v
DriverFacts.v
DriverRun.v
Strict.v
Handshake.v
PacketDemo.v
HandshakeDemo.v
Scp.v
ScpFacts.v
ScpCopy.v
ScpTree.v
SftpPacket.v
SftpPacketFacts.v
SftpPath.v
SftpServer.v
SftpServerFacts.v
SftpReplies.v
SftpClient.v
SftpDownload.v
TransferDemo.v
HostTrust.v
HostTrustFacts.v
HostTrustDemo.v
KnockWire.v
KnockState.v
KnockFacts.v
KnockRun.v
KnockClient.v
KnockLive.v
KnockDemo.v
