(* ===== verification/Prelude.v ===== *)
(** * Verification of puressh

    puressh (src/src) is an SSH implementation in Rust: a library with client,
    server, agent and file transfer, and the command-line programs around it.
    This library models its protocol core, the client's trust in host keys and
    the file transfer protocols, and proves them correct.  Code is
    translated by hand into executable definitions that keep the source's
    names (with a prefix where Rust has the same method name on two types);
    each file names the sources it follows.

    ** The program's parts and the files that model them

    - Wire encoding ([src/hazmat/format]): [Wire] ([Reader], [Writer], mpint,
      name-list), [WireLoop] (loops over a reader), [Text] ([str::from_utf8], the
      other methods of [str], paths) and [TextFacts].
    - Packet layer ([src/hazmat/cipher], [mac], [compress], [transport/packet.rs],
      [transport/rekey.rs]): [Cipher] (suites, their tables and states),
      [Compress] (none, zlib, delayed zlib), [Packet] ([PacketCodec], the four
      framings, the re-key policy, the drivers' inbox loop); theorems in
      [PacketFacts] and [PacketSafe]; concrete runs in [PacketDemo].
    - Key exchange ([transport/kexinit.rs], [kex.rs], [ext_info.rs], [ping.rs],
      [version.rs], [transport/runner.rs], [src/hazmat/kex]): [KexInit]
      (KEXINIT, negotiation, EXT_INFO, PING, identification line), [KexFacts],
      [KexHash] (the exchange hash), [KexMethods] and [KexMethodFacts] (both
      sides of every method), [KexKeys] (key derivation and install), [Runner]
      ([KexRunner] and its phases), [RunnerFacts], [RunnerSafe];
      concrete runs in [PacketDemo].
    - Drivers ([src/driver], the KEXINIT builders of [client.rs] and
      [server.rs]): [Advert] (what each end offers), [Driver], [DriverFacts],
      [DriverRun], [Strict] (strict key exchange), [Handshake] (a client and a
      server driver), [HandshakeDemo].
    - Keys and certificates ([src/hostkey], [src/cert], [key/base64.rs]):
      [HostKey] (a Module per key type), [Cert] (certificates, the dispatch by
      name, the builder), [CertFacts], [CertParse], [CertIssue], [SignKey] (the
      trait [HostKey] and its implementations), [Base64].
    - User authentication ([src/auth], the options of [key/mod.rs]): [AuthMsg]
      (messages), [AuthMsgFacts], [AuthServer] (restrictions, [ServerAuth]),
      [AuthFacts], [AuthRun] (connections), [AuthLimits], [AuthClient]
      ([ClientAuth]), [AuthSession] (the loop of [client.rs] around it),
      [AuthClientFacts], [AuthLogin] (a client and a server), [AuthDemo].
    - Trust in host keys ([src/known_hosts], [src/krl], [build_verifier] of
      [client.rs]): [KnownHosts] (hashed names, lines, the store),
      [KnownHostsFacts] (a store and its file), [KnownHostsTrust] (lookups),
      [Krl] and [KrlFacts] (revocation lists), [HostTrust] (the decision),
      [HostTrustFacts], [HostTrustDemo].
    - File transfer ([src/scp], [src/sftp]): [Scp] (lines, receiver, sender),
      [ScpFacts] (the receiver against any sender), [ScpCopy] and [ScpTree] (a
      sender and a receiver); [SftpPacket] and [SftpPacketFacts] (packets),
      [SftpPath] (resolution and the jail), [SftpServer] (the session),
      [SftpServerFacts] (its calls of the system), [SftpReplies] (its answers),
      [SftpClient], [SftpDownload] (downloads from any server and from the
      modelled one); [TransferDemo].
    - Host patterns ([config/glob.rs]): [Glob], which certificates use for the
      principals of hosts and [known_hosts] for its lines.
    - Connection layer ([src/hazmat/channel]): [ChannelMsg] (messages),
      [Channel] ([ConnectionState] with every operation), [ChannelFacts]
      (invariants, the abstract contract, refinement), [ChannelFlow] (two
      multiplexers connected by queues: flow control and the open handshake).
    - Port knocking ([src/knock]): [KnockWire] (KNOCK and ACCEPT datagrams),
      [KnockState] (the server's filter), [KnockFacts], [KnockRun] (runs of the
      server), [KnockClient], [KnockLive], [KnockDemo].
    - [Prelude] (this file) has the notations, tactics, hint databases and the
      lemmas on bytes, lengths and fixed-width integers; [Crypto] the
      operations of the cryptography crate.

    A packet passes through the parts in this order: the drivers append
    received bytes to an inbox and call [Packet.decode] in a loop
    ([Packet.handle_input]); [Driver.route_packet] hands payloads to the key
    exchange ([Runner]) or surfaces them for user authentication
    ([AuthServer.on_packet], [AuthClient.client_on_packet]) and the connection
    layer ([Channel.on_packet]), whose answers are payloads for
    [Packet.encode].  Authentication verifies signatures over the session
    identifier the exchange produced, with the verifiers of [Cert].  A client's
    driver takes its verifier from [HostTrust.build_verifier], which asks the
    store of known hosts and the revocation lists.  SCP and SFTP run over the
    byte stream of a channel and share only the wire encoding with the rest; so
    does the knock filter, which stands in front of the server's sockets.

    ** Conventions

    Bytes are [list Byte.byte]; text is the list of its UTF-8 bytes.  Integers
    are [Z]; a width is a predicate ([is_u32], ...) and arithmetic that wraps,
    saturates or is checked in the source is written so ([wrap32], [sat_sub],
    [sat_add64], a test against the maximum).  Fallible code returns [result]
    with the source's [Error]; a method on [&mut self] returns the result
    paired with the new state, also on the error path ([let! x := m at s in k]).
    Maps are [gmap]s.  Iteration over a Rust [HashMap] goes through the class
    [HashOrder], so that nothing depends on an order.

    Code outside the repository is a class of operations with a second class of
    laws that state its documented behaviour: [PureCrypto] and [HostKeyVerify]
    (hashes, HKDF, X25519, signatures), [CipherPrims] (AES, 3DES, ChaCha20,
    Poly1305, HMAC, UMAC), [KexHash], [KexPrims] (key agreement), [SigPrims]
    (signature schemes), [CompCol] (DEFLATE), [HostHash] (SHA-1 and HMAC-SHA1
    of known hosts).  The file system is one too: [ScpFs] has the calls of SCP,
    [SftpOs] executes the calls of an SFTP session, and [FileLaws] says what
    reading an open file returns.  A trait of the repository is a
    class too: [Authenticator] (the server's policy) and [HostKeyTrait] (keys
    that sign).  Closures and responders answer from the history of the calls
    made to them.  Instances named
    [demo_...] have the right shapes and satisfy the laws; the witnesses
    evaluate the definitions with them.  Randomness and time are arguments.

    ** What the theorems show

    - Connection layer: between two multiplexers no data packet or window
      credit is refused, the bytes received are a prefix of those sent, and
      the window cannot deadlock ([flow_control_sound], [flow_control_live]);
      opening a channel leaves both ends in agreement ([open_handshake]);
      whatever a peer sends, the state stays well formed and follows an
      abstract contract ([conn_reachable_wf], [on_packets_refine],
      [peer_cannot_confirm], [on_packets_cap], [open_fresh]).
    - Packet layer: everything sent arrives, in order and however the bytes
      are cut ([packets_delivered]); encoding fails only for the stated reasons
      ([encode_succeeds_iff]); no payload without a valid tag
      ([decode_authentic]); CBC errors do not reveal the length
      ([cbc_no_length_oracle]); the inbox loop ends ([inbox_loop_ends]); nonces
      are unique within a key epoch and the re-key policy is exact
      ([nonces_unique], [should_rekey_exact]); padding, catalogues, inflation
      ([padding_minimal], [suites_constructible], [inflate_capped]).
    - Key exchange: negotiation as RFC 4253 prescribes and equal at both ends
      ([negotiate_spec], [kexinit_agreement]); derivation ([derive_rfc4253]);
      after NEWKEYS the two codecs are in step, which is the starting point of
      [packets_delivered] ([newkeys_in_step]); EXT_INFO
      ([ext_info_roundtrip]).
    - Drivers: a client and a server finish the first exchange in step
      ([handshake_completes]); a client that reports it done, or surfaces data,
      has had the host key's signature over its session accepted
      ([client_session_attested]); strict key exchange accounts for every
      packet ([strict_kex_accounts]).
    - Keys and certificates: what a key signs its verifier accepts, alone or
      with its certificate ([sign_verifies], [cert_key_verifies]); a verifier
      accepts no other algorithm ([no_algorithm_confusion]); a certificate that
      parses is well formed, its signature covers every field, and one that is
      issued parses back and verifies ([certificate_parse_wf],
      [signature_covers_fields], [issued_certificate_verifies]).
    - Authentication: a session is granted only on the policy's word and on
      proofs for this session, and the policy is only asked about sound
      attempts ([grant_sound], [policy_view_sound]); failures are bounded
      ([auth_failures_bounded]); the signed data determines the login
      ([signed_data_injective]); every packet of the client has a reason and
      their number is bounded ([client_sends], [client_requests_bounded]); a
      public-key login completes ([publickey_login]).
    - Trust in host keys: whatever arrives, a client that reports the handshake
      done is under a host key its policy gives a reason to trust, through every
      re-key ([client_host_trusted]); over a changed key that was let through,
      no password is sent ([no_secret_after_mismatch]); a lookup answers as the
      lines of the file say ([lookup_spec]); a store and a revocation list
      survive their files ([reload_same_answers], [krl_roundtrip]).
      [revocation_lost_off_port] and [hashing_loses_revocation] show two ways in
      which a revocation stops working.
    - File transfer: whatever bytes arrive, an SCP receiver stays where it was
      put ([scp_confined]), and a sender and a receiver copy a tree
      ([scp_copies]).  Whatever a client sends, a read-only SFTP session changes
      nothing, a jailed one stays in its jail and every request gets one answer
      under its id ([sftp_read_only], [sftp_jailed], [sftp_answers]); packets
      are read back as they were written ([sftp_roundtrip]).  A download is
      complete in whatever order and however short the answers are
      ([sftp_download]), and so is one from the modelled server ([sftp_get]).
      [realpath_refused] shows that a jailed session refuses the names it gives
      out.
    - Host patterns and base64: the matcher decides the pattern's language
      ([glob_match_spec]); encoding is decoded back ([base64_roundtrip]).
      [local_policy_bypassed], [webauthn_cert_refused], [glob_star_literal] and
      [base64_trailing_ignored] show four places where the code does not do
      what it says.
    - Knock: accepted knocks are authentic, never replayed, answered without
      amplification, within the verification budget and the configured memory
      ([accepted_authentic], [no_replay], [no_amplification], [verify_budget],
      [knock_state_bounded]); client and server derive the same token
      ([knock_handshake]); a good knock is accepted ([first_knock_accepted]);
      datagrams parse and build exactly ([knock_parse_exact] and others).
      [knock_build_unlucky] and [verify_rate_exceeded] show two places where
      the code does less than its comments say.
    - Wire encoding: values written are read back ([read_items_write_items]),
      mpints are canonical ([write_mpint_canonical]).

    ** Bounds and fuel

    Loops whose recursion is not structural take fuel: [alloc_loop] (channel
    ids; [open_fresh] shows that one more than the number of channels is
    enough), [pad_to_min] (two turns are enough, [pad_to_min_spec]),
    [drain_inbox] (one more than the inbox length, [inbox_loop_ends]),
    [inflate_loop] (input length plus output cap, [inflate_capped]),
    [deflate_push] and [deflate_flush] (bounds of the encoder, [deflate_total]),
    [derive_loop] (the requested length, [derive_rfc4253]), [glob_loop]
    ([glob_fuel] is enough, [glob_loop_total]), [while_fuel] (the bytes left,
    [while_fuel_enough]), [show_digits] (twenty digits hold a 64-bit number),
    [recv_run] (the input left, [recv_run_total]), [serve_loop] (the input left,
    [serve_loop_ends]), [alloc_handle_loop] (one more than the number of open
    handles, [alloc_finds]), [copy_loop] (the bytes left to copy: every turn but
    the last copies one), [read_loop] and [write_loop] of the SFTP client (the
    input left: every turn receives a packet; [sftp_download] shows that a
    download returns), [read_fill] and [write_fill] (the depth, which bounds the
    requests in flight), [read_flush] (the pieces held).  The recursion of
    [host_key_verify_by_name] has depth two ([host_key_verify_by_name_eq]).
    Lengths of byte strings are assumed below [2^64] where the source adds them
    to a [usize].

    ** Not modelled

    Sockets, threads, files and the command-line programs; the arithmetic of
    cryptographic primitives; the zeroing of secrets in memory.  Of the drivers
    the observer callbacks, of the key exchange the moduli file; of
    [key/mod.rs] the parser of the options field and the key files.  What calls
    [ServerAuth] in [server.rs] (which methods it advertises, delays, logging)
    is not modelled: [AuthRun] lets it call the operations in any order.
    Messages to the user, and poisoned mutexes, are left out of the client's
    trust decision.  What a file system does is a parameter; only the in-memory
    one of [ScpCopy] and the system of [TransferDemo] are definite.  Agent, key
    files, the parsers of the configuration files, connection sharing, file
    signatures and the forwarding parsers have no file. *)
From stdpp Require Export base gmap list strings numbers.
From Stdlib Require Export Strings.Byte ZArith Lia.
#[export] Set Default Goal Selector "!".
Open Scope Z_scope.

(** ** Hint databases and notations of the development

    [wire] rewrites a reader that stands in front of an encoded value into the
    decoded value; [lens] computes lengths of byte strings in [Z]. *)

Create Rewrite HintDb wire.
Create Rewrite HintDb lens.
Create HintDb width.

Declare Scope puressh_scope.
Delimit Scope puressh_scope with puressh.
Open Scope puressh_scope.

(** ** Bytes

    A [u8] is a [Byte.byte]; a [Vec<u8>], a [&[u8]] and a [str] are lists of
    them.  Integers of a fixed width are [Z] with the width stated by the
    predicates below. *)

Abbreviation byte := Byte.byte.
Abbreviation bytes := (list Byte.byte).

#[export] Instance byte_eq_dec : EqDecision byte := Byte.byte_eq_dec.

#[export] Instance byte_countable : Countable byte.
Proof. exact (inj_countable Byte.to_N Byte.of_N Byte.of_to_N). Defined.

(** Byte-string literal, [b"..."] in the source. *)
Definition bs (s : string) : bytes := String.list_byte_of_string s.

(** The unsigned value of a [u8]. *)
Definition u8 (b : byte) : Z := Z.of_N (Byte.to_N b).

(** [z as u8]: truncation to eight bits. *)
Definition byte_of_Z (z : Z) : byte :=
  default Byte.x00 (Byte.of_N (Z.to_N (z mod 256))).

Lemma u8_range b : 0 ≤ u8 b < 256.
Proof. unfold u8. pose proof (Byte.to_N_bounded b). lia. Qed.

Lemma u8_inj b c : u8 b = u8 c → b = c.
Proof.
  unfold u8. intros H%N2Z.inj.
  pose proof (Byte.of_to_N b). pose proof (Byte.of_to_N c). congruence.
Qed.

Lemma u8_byte_of_Z z : u8 (byte_of_Z z) = z mod 256.
Proof.
  unfold byte_of_Z. pose proof (Z.mod_pos_bound z 256 ltac:(lia)).
  destruct (Byte.of_N (Z.to_N (z mod 256))) as [b|] eqn:E; simpl.
  - apply Byte.to_of_N in E. unfold u8. rewrite E. lia.
  - apply Byte.of_N_None_iff in E. lia.
Qed.

Lemma byte_of_Z_u8 b : byte_of_Z (u8 b) = b.
Proof. apply u8_inj. rewrite u8_byte_of_Z. apply Z.mod_small, u8_range. Qed.

Lemma u8_byte_of_Z_small z : 0 ≤ z < 256 → u8 (byte_of_Z z) = z.
Proof. intros. rewrite u8_byte_of_Z. by apply Z.mod_small. Qed.

(** Byte-string equality as a boolean that computes on literals. *)
Fixpoint bytes_eqb (a b : bytes) : bool :=
  match a, b with
  | [], [] => true
  | x :: a', y :: b' => Byte.eqb x y && bytes_eqb a' b'
  | _, _ => false
  end.

Lemma bytes_eqb_true a b : bytes_eqb a b = true ↔ a = b.
Proof.
  revert b; induction a as [|x a IH]; intros [|y b]; simpl; [done..|].
  rewrite andb_true_iff, IH. split.
  - intros [->%Byte.byte_dec_bl ->]. done.
  - intros [= -> ->]. split; [by apply Byte.byte_dec_lb | done].
Qed.

Lemma bytes_eqb_refl a : bytes_eqb a a = true.
Proof. by apply bytes_eqb_true. Qed.

Lemma bytes_eqb_false a b : bytes_eqb a b = false ↔ a ≠ b.
Proof. rewrite <- bytes_eqb_true. destruct (bytes_eqb a b); naive_solver. Qed.

Lemma bytes_eqb_spec a b : BoolSpec (a = b) (a ≠ b) (bytes_eqb a b).
Proof.
  destruct (bytes_eqb a b) eqn:E; constructor.
  - by apply bytes_eqb_true.
  - by apply bytes_eqb_false.
Qed.

(** ** Lengths *)

(** [.len()] of a slice or vector, in [Z]. *)
Definition len {A} (l : list A) : Z := Z.of_nat (length l).

Lemma len_nil {A} : len (@nil A) = 0.
Proof. done. Qed.
Lemma len_cons {A} (x : A) l : len (x :: l) = 1 + len l.
Proof. unfold len. simpl. lia. Qed.
Lemma len_app {A} (l k : list A) : len (l ++ k) = len l + len k.
Proof. unfold len. rewrite length_app. lia. Qed.
Lemma len_nonneg {A} (l : list A) : 0 ≤ len l.
Proof. unfold len. lia. Qed.
Lemma len_replicate {A} n (x : A) : len (replicate n x) = Z.of_nat n.
Proof. unfold len. by rewrite length_replicate. Qed.
Lemma len_take {A} n (l : list A) :
  0 ≤ n ≤ len l → len (take (Z.to_nat n) l) = n.
Proof. unfold len. intros. rewrite length_take. lia. Qed.
Lemma len_drop {A} n (l : list A) :
  0 ≤ n ≤ len l → len (drop (Z.to_nat n) l) = len l - n.
Proof. unfold len. intros. rewrite length_drop. lia. Qed.
Lemma len_0_nil {A} (l : list A) : len l = 0 → l = [].
Proof. unfold len. destruct l; simpl; [done|lia]. Qed.
Lemma len_insert {A} i (x : A) l : len (<[i:=x]> l) = len l.
Proof. unfold len. by rewrite length_insert. Qed.

#[export] Hint Rewrite @len_nil @len_cons @len_app @len_replicate @len_insert : lens.

(** ** Fixed-width integers *)

Abbreviation U16_MAX := 65535.
Abbreviation U32_MAX := 4294967295.
Abbreviation U64_MAX := 18446744073709551615.

Definition is_u8 (z : Z) : Prop := 0 ≤ z < 256.
Definition is_u16 (z : Z) : Prop := 0 ≤ z ≤ U16_MAX.
Definition is_u32 (z : Z) : Prop := 0 ≤ z ≤ U32_MAX.
Definition is_u64 (z : Z) : Prop := 0 ≤ z ≤ U64_MAX.
#[export] Hint Unfold is_u8 is_u16 is_u32 is_u64 : width.

(** [as u32], [as u64] and [wrapping_*]: reduction modulo the width. *)
Definition wrap16 (z : Z) : Z := z mod 65536.
Definition wrap32 (z : Z) : Z := z mod 4294967296.
Definition wrap64 (z : Z) : Z := z mod 18446744073709551616.

(** [saturating_add] and [saturating_sub] on unsigned integers. *)
Definition sat_add32 (a b : Z) : Z := Z.min (a + b) U32_MAX.
Definition sat_add64 (a b : Z) : Z := Z.min (a + b) U64_MAX.
Definition sat_mul32 (a b : Z) : Z := Z.min (a * b) U32_MAX.
Definition sat_sub (a b : Z) : Z := Z.max (a - b) 0.

(** [abs_diff]. *)
Definition abs_diff (a b : Z) : Z := Z.abs (a - b).

(** Solves a goal about widths by unfolding them. *)
Ltac width_lia := unfold wrap16, wrap32, wrap64, sat_add32, sat_add64, sat_mul32, sat_sub, abs_diff,
  is_u8, is_u16, is_u32, is_u64 in *; lia.

Lemma wrap32_small z : is_u32 z → wrap32 z = z.
Proof. intros. apply Z.mod_small. width_lia. Qed.
Lemma wrap32_range z : is_u32 (wrap32 z).
Proof. unfold wrap32. pose proof (Z.mod_pos_bound z 4294967296). width_lia. Qed.
Lemma sat_sub_u32 a b : is_u32 a → is_u32 b → is_u32 (sat_sub a b).
Proof. width_lia. Qed.
Lemma wrap64_small z : is_u64 z → wrap64 z = z.
Proof. intros. apply Z.mod_small. width_lia. Qed.
Lemma wrap64_range z : is_u64 (wrap64 z).
Proof. unfold wrap64. pose proof (Z.mod_pos_bound z 18446744073709551616). width_lia. Qed.
Lemma wrap16_small z : is_u16 z → wrap16 z = z.
Proof. intros. apply Z.mod_small. width_lia. Qed.

(** ** Big-endian integers: [to_be_bytes] and [from_be_bytes] *)

Fixpoint be_bytes (n : nat) (z : Z) : bytes :=
  match n with
  | O => []
  | S m => byte_of_Z (z / 256 ^ Z.of_nat m) :: be_bytes m z
  end.

Definition be_value (l : bytes) : Z :=
  fold_left (λ acc b, acc * 256 + u8 b) l 0.

Lemma length_be_bytes n z : length (be_bytes n z) = n.
Proof. induction n; simpl; congruence. Qed.
Lemma len_be_bytes n z : len (be_bytes n z) = Z.of_nat n.
Proof. unfold len. by rewrite length_be_bytes. Qed.
#[export] Hint Rewrite len_be_bytes : lens.

Lemma be_value_app_acc l acc :
  fold_left (λ acc b, acc * 256 + u8 b) l acc = acc * 256 ^ len l + be_value l.
Proof.
  unfold be_value. revert acc; induction l as [|b l IH]; intros acc; cbn [fold_left].
  - rewrite len_nil. lia.
  - rewrite IH, (IH (0 * 256 + u8 b)), len_cons, Z.pow_add_r by (pose proof (len_nonneg l); lia). lia.
Qed.

Lemma be_value_cons b l : be_value (b :: l) = u8 b * 256 ^ len l + be_value l.
Proof. unfold be_value at 1. cbn [fold_left]. rewrite be_value_app_acc. lia. Qed.

Lemma be_value_range l : 0 ≤ be_value l < 256 ^ len l.
Proof.
  induction l as [|b l IH].
  - vm_compute. split; congruence.
  - rewrite be_value_cons, len_cons, Z.pow_add_r by (pose proof (len_nonneg l); lia).
    pose proof (u8_range b). nia.
Qed.

Lemma be_value_be_bytes n z : be_value (be_bytes n z) = z mod 256 ^ Z.of_nat n.
Proof.
  induction n as [|n IH]; cbn [be_bytes].
  - rewrite Z.mod_1_r. done.
  - rewrite be_value_cons, len_be_bytes, u8_byte_of_Z, IH.
    replace (Z.of_nat (S n)) with (Z.of_nat n + 1) by lia.
    rewrite Z.pow_add_r by lia. change (256 ^ 1) with 256.
    pose proof (Z.pow_pos_nonneg 256 (Z.of_nat n)).
    rewrite Z.rem_mul_r by lia. lia.
Qed.

Lemma be_value_be_bytes_small n z :
  0 ≤ z < 256 ^ Z.of_nat n → be_value (be_bytes n z) = z.
Proof. intros. rewrite be_value_be_bytes. by apply Z.mod_small. Qed.

Lemma be_bytes_mod n z k :
  (n ≤ k)%nat → be_bytes n (z mod 256 ^ Z.of_nat k) = be_bytes n z.
Proof.
  induction n as [|n IH]; intros Hk; cbn [be_bytes]; [done|]. f_equal; [|apply IH; lia].
  apply u8_inj. rewrite !u8_byte_of_Z.
  replace (Z.of_nat k) with (Z.of_nat n + 1 + (Z.of_nat k - Z.of_nat n - 1)) by lia.
  rewrite Z.pow_add_r, (Z.pow_add_r _ (Z.of_nat n)) by lia.
  pose proof (Z.pow_pos_nonneg 256 (Z.of_nat n) ltac:(lia) ltac:(lia)).
  pose proof (Z.pow_pos_nonneg 256 (Z.of_nat k - Z.of_nat n - 1) ltac:(lia) ltac:(lia)).
  rewrite <- Z.mul_assoc, Z.rem_mul_r by lia.
  rewrite (Z.mul_comm (256 ^ Z.of_nat n) (_ mod _)), Z.div_add by lia.
  rewrite (Z.div_small (z mod _)) by (apply Z.mod_pos_bound; lia). rewrite Z.add_0_l.
  change (256 ^ 1) with 256. rewrite (Z.mul_comm 256), Z.mul_comm.
  rewrite (Z.mul_comm 256), Z.mod_mod_divide; [done|].
  by exists (256 ^ (Z.of_nat k - Z.of_nat n - 1)); lia.
Qed.

Lemma be_bytes_value l : be_bytes (length l) (be_value l) = l.
Proof.
  induction l as [|b l IH]; cbn [be_bytes length]; [done|].
  rewrite be_value_cons. fold (len l).
  pose proof (be_value_range l). f_equal.
  - change (Z.of_nat (length l)) with (len l).
    rewrite Z.add_comm, Z.div_add by lia. rewrite Z.div_small by lia.
    by rewrite Z.add_0_l, byte_of_Z_u8.
  - rewrite <- (be_bytes_mod _ _ (length l)) by lia. change (Z.of_nat (length l)) with (len l).
    rewrite Z.add_comm, Z.mod_add, Z.mod_small by lia. done.
Qed.

Lemma be_bytes_value_len l n : length l = n → be_bytes n (be_value l) = l.
Proof. intros <-. apply be_bytes_value. Qed.

#[global] Arguments be_bytes : simpl never.

(** Case-analysis hypotheses on boolean comparisons become propositions. *)
Ltac zbool :=
  repeat match goal with
  | H : _ && _ = true |- _ => apply andb_true_iff in H as [? ?]
  | H : _ && _ = false |- _ => apply andb_false_iff in H
  | H : _ || _ = false |- _ => apply orb_false_iff in H as [? ?]
  | H : _ || _ = true |- _ => apply orb_true_iff in H
  | H : negb _ = true |- _ => apply negb_true_iff in H
  | H : negb _ = false |- _ => apply negb_false_iff in H
  | H : (_ <? _) = true |- _ => apply Z.ltb_lt in H
  | H : (_ <? _) = false |- _ => apply Z.ltb_ge in H
  | H : (_ <=? _) = true |- _ => apply Z.leb_le in H
  | H : (_ <=? _) = false |- _ => apply Z.leb_gt in H
  | H : (_ =? _) = true |- _ => apply Z.eqb_eq in H
  | H : (_ =? _) = false |- _ => apply Z.eqb_neq in H
  | H : bytes_eqb _ _ = true |- _ => apply bytes_eqb_true in H
  | H : bytes_eqb _ _ = false |- _ => apply bytes_eqb_false in H
  end.

(** ** Errors and fallible results *)

(** [crate::error::Error].  The payloads of [Io], [SecurityKey] and [Pkcs11]
    (types of the standard library, a FIDO provider and a PKCS#11 module) are
    carried as their message text. *)
Inductive Error :=
  | Format (s : string)
  | NoCommonAlgorithm (s : string)
  | Protocol (s : string)
  | BadMac
  | BadTag
  | BadPadding
  | BadSignature
  | HostKeyRejected
  | AuthFailed
  | BadChannelState
  | Unsupported (s : string)
  | Io (e : string)
  | Crypto (s : string)
  | Config (s : string)
  | CertExpired
  | CertNotYetValid
  | CertPrincipalMismatch
  | CertTypeMismatch
  | CertUnknownCriticalOption
  | CertBadCaSignature
  | NoMatch (category : string) (client server : bytes)
  | SecurityKey (e : string)
  | Pkcs11 (e : string)
  | Disconnected (reason : Z) (description : bytes).

Inductive result (A : Type) : Type :=
  | Ok (a : A)
  | Err (e : Error).
Arguments Ok {A} a.
Arguments Err {A} e.

Definition is_ok {A} (r : result A) : bool :=
  match r with Ok _ => true | Err _ => false end.

(** The [?] operator. *)
Notation "'let?' p ':=' m 'in' k" :=
  (match m with Ok p => k | Err e => Err e end)
  (at level 10, p pattern, m at level 200, k at level 200,
   format "'[v' 'let?'  p  ':='  m  'in' '/' k ']'") : puressh_scope.

(** The [?] operator inside an operation on [&mut self]: the error leaves with
    the state [s] reached so far. *)
Notation "'let!' p ':=' m 'at' s 'in' k" :=
  (match m with Ok p => k | Err e => (Err e, s) end)
  (at level 10, p pattern, m at level 200, s at level 200, k at level 200,
   format "'[v' 'let!'  p  ':='  m  'at'  s  'in' '/' k ']'") : puressh_scope.

Definition ok_or {A} (o : option A) (e : Error) : result A :=
  match o with Some a => Ok a | None => Err e end.

Definition is_some {A} (o : option A) : bool := match o with Some _ => true | None => false end.

Definition map_err {A} (r : result A) (e : Error) : result A :=
  match r with Ok a => Ok a | Err _ => Err e end.

(** ** Record update

    [r <| f := v |>] is [r] with field [f] replaced. A record opts in with an
    [Etable] instance, its constructor applied to its projections. *)

Class Etable (R : Type) := eta_of : R → R.
Class Setter {R E : Type} (proj : R → E) := set_field : E → R → R.
#[global] Arguments set_field : simpl never.

Ltac build_setter R E proj :=
  let inst := constr:(ltac:(typeclasses eauto) : Etable R) in
  let ex := eval hnf in inst in
  exact (fun (v : E) (r : R) =>
    ltac:(let t := eval cbv beta in (ex r) in
          let t := eval pattern (proj r) in t in
          lazymatch t with
          | (fun _ => ?body) _ => fail 0 "no such field in the record's constructor"
          | ?f _ => let u := eval cbv beta in (f v) in exact u
          end)).
#[export] Hint Extern 1 (@Setter ?R ?E ?proj) => build_setter R E proj : typeclass_instances.

Notation "r '<|' f := v '|>'" := (set_field (proj := f) v r)
  (at level 1, left associativity, f at level 9, v at level 200,
   format "r '<|' f  :=  v '|>'") : puressh_scope.

(** Computes projections of updated records. *)
Ltac proj_simpl := unfold set_field in *; cbn in *.

(** Postfix application, for writers threaded through calls. *)
Notation "w '|>>' f" := (f w) (at level 50, left associativity, only parsing) : puressh_scope.

(** ** Case analysis of fallible code *)

Lemma Ok_inj {A} (a b : A) : Ok a = Ok b → a = b.
Proof. congruence. Qed.

(** Takes the cases of a chain of reads and tests in hypothesis [H]. *)
Ltac chain H :=
  repeat (let E := fresh "E" in
    match type of H with
    | (let (_, _) := ?p in _) = _ => destruct p
    | (match ?m with Ok _ => _ | Err _ => _ end) = Ok _ =>
        lazymatch type of m with
        | result (_ * _) => destruct m as [[? ?]|] eqn:E; [|discriminate H]
        | _ => destruct m as [?|] eqn:E; [|discriminate H]
        end
    | (if ?c then Err _ else _) = Ok _ => destruct c eqn:E; [discriminate H|]
    | (if ?c then _ else Err _) = Ok _ => destruct c eqn:E; [|discriminate H]
    end); zbool.

(** Evaluates the comparisons of literal names. *)
Ltac eval_names :=
  repeat match goal with
  | |- context [bytes_eqb ?a ?b] =>
      let t := eval vm_compute in (bytes_eqb a b) in
      lazymatch t with true => idtac | false => idtac end; change (bytes_eqb a b) with t
  end; cbn [orb andb negb].
