(* ===== verification/Wire.v ===== *)
(** * SSH wire format (src/hazmat/format)

    The cursor [Reader] and the encoder [Writer] of RFC 4251 values, [mpint]
    and [name-list].  Every decoder of the development is built from these
    operations, so the lemmas here are the interface the codecs are proved
    against: a reader standing in front of an encoded value returns that value
    and stands behind it ([wire] rewrite database). *)
From S2P Require Import Prelude.

(** ** Reader (reader.rs) *)

Record Reader := { r_buf : bytes; r_pos : Z }.

#[export] Instance Reader_eta : Etable Reader :=
  fun r => {| r_buf := r_buf r; r_pos := r_pos r |}.

Definition reader_new (buf : bytes) : Reader := {| r_buf := buf; r_pos := 0 |}.

Definition remaining (r : Reader) : Z := sat_sub (len (r_buf r)) (r_pos r).

Definition reader_is_empty (r : Reader) : bool := remaining r =? 0.

(** [&buf[from..to]] with [from <= to <= buf.len()]. *)
Definition slice (l : bytes) (from to : Z) : bytes :=
  take (Z.to_nat (to - from)) (drop (Z.to_nat from) l).

Definition read_take (n : Z) (r : Reader) : result (bytes * Reader) :=
  let e := r_pos r + n in
  if U64_MAX <? e then Err (Format "overflow")
  else if len (r_buf r) <? e then Err (Format "short read")
  else Ok (slice (r_buf r) (r_pos r) e, r <| r_pos := e |>).

Definition read_u8 (r : Reader) : result (Z * Reader) :=
  let? (b, r) := read_take 1 r in Ok (u8 (hd Byte.x00 b), r).

Definition read_bool (r : Reader) : result (bool * Reader) :=
  let? (b, r) := read_u8 r in Ok (negb (b =? 0), r).

Definition read_u32 (r : Reader) : result (Z * Reader) :=
  let? (b, r) := read_take 4 r in Ok (be_value b, r).

Definition read_u64 (r : Reader) : result (Z * Reader) :=
  let? (b, r) := read_take 8 r in Ok (be_value b, r).

Definition read_string (r : Reader) : result (bytes * Reader) :=
  let? (n, r) := read_u32 r in read_take n r.

(** ** Writer (writer.rs) *)

Record Writer := { w_buf : bytes }.

Definition writer_new : Writer := {| w_buf := [] |}.
Definition write_raw (b : bytes) (w : Writer) : Writer := {| w_buf := w_buf w ++ b |}.
Definition write_u8 (v : Z) (w : Writer) : Writer := {| w_buf := w_buf w ++ [byte_of_Z v] |}.
Definition write_bool (v : bool) (w : Writer) : Writer :=
  {| w_buf := w_buf w ++ [byte_of_Z (if v then 1 else 0)] |}.
Definition write_u32 (v : Z) (w : Writer) : Writer := {| w_buf := w_buf w ++ be_bytes 4 v |}.
Definition write_u64 (v : Z) (w : Writer) : Writer := {| w_buf := w_buf w ++ be_bytes 8 v |}.

(** The length prefix is [s.len() as u32]: it wraps for a string of 4 GiB or
    more (the [debug_assert!] of the source is not compiled into a release
    build). *)
Definition write_string (s : bytes) (w : Writer) : Writer :=
  {| w_buf := w_buf (write_u32 (wrap32 (len s)) w) ++ s |}.

Definition into_vec (w : Writer) : bytes := w_buf w.

(** ** mpint (mpint.rs) *)

Definition read_mpint (r : Reader) : result (bytes * Reader) := read_string r.

(** The [while] loop that skips leading zero bytes. *)
Fixpoint strip_zeros (m : bytes) : bytes :=
  match m with
  | b :: m' => if u8 b =? 0 then strip_zeros m' else m
  | [] => []
  end.

Definition write_mpint (magnitude : bytes) (w : Writer) : Writer :=
  match strip_zeros magnitude with
  | [] => write_u32 0 w
  | (b :: _) as m =>
      if negb (Z.land (u8 b) 128 =? 0)
      then w |>> write_u32 (wrap32 (len m + 1)) |>> write_u8 0 |>> write_raw m
      else w |>> write_u32 (wrap32 (len m)) |>> write_raw m
  end.

(** ** name-list (name_list.rs) *)

(** [slice.split(|b| b == sep)]: the maximal runs between separators. *)
Fixpoint split_on (sep : byte) (l : bytes) : list bytes :=
  match l with
  | [] => [[]]
  | b :: l' =>
      if Byte.eqb b sep then [] :: split_on sep l'
      else match split_on sep l' with
           | s :: ss => (b :: s) :: ss
           | [] => [[b]]
           end
  end.

Definition comma : byte := Byte.x2c.

Definition name_list_read (r : Reader) : result (bytes * Reader) := read_string r.

Definition is_nil {A} (l : list A) : bool := match l with [] => true | _ => false end.

Definition name_list_iter (nl : bytes) : list bytes :=
  List.filter (λ s, negb (is_nil s)) (split_on comma nl).

Definition name_list_negotiate (ours : list bytes) (theirs : bytes) : option bytes :=
  List.find (λ name, List.existsb (λ t, bytes_eqb t name) (name_list_iter theirs)) ours.

(** ** The cursor in front of encoded data *)

(** A cursor over [pre ++ post] that has consumed [pre]. *)
Definition reader_at (pre post : bytes) : Reader :=
  {| r_buf := pre ++ post; r_pos := len pre |}.

Lemma reader_new_at buf : reader_new buf = reader_at [] buf.
Proof. done. Qed.

Lemma reader_new_end buf : reader_new buf = reader_at [] (buf ++ []).
Proof. by rewrite app_nil_r. Qed.

Lemma remaining_at pre post : remaining (reader_at pre post) = len post.
Proof.
  unfold remaining, reader_at; simpl. autorewrite with lens.
  pose proof (len_nonneg post). width_lia.
Qed.

Lemma slice_at pre x post :
  slice (pre ++ x ++ post) (len pre) (len pre + len x) = x.
Proof.
  unfold slice, len.
  replace (Z.to_nat (Z.of_nat (length pre))) with (length pre) by lia.
  rewrite drop_app_length.
  replace (Z.to_nat (Z.of_nat (length pre) + Z.of_nat (length x) - Z.of_nat (length pre)))
    with (length x) by lia.
  by rewrite take_app_length.
Qed.

(** What fits in memory: a slice is shorter than [2^64] bytes. *)
Definition fits_mem (l : bytes) : Prop := len l ≤ U64_MAX.

(** Discharges [fits_mem] of a regrouping of the buffer at hand. *)
Ltac solve_mem :=
  unfold fits_mem in *; autorewrite with lens in *; first [assumption | lia].

Lemma read_take_at pre x post n :
  fits_mem (pre ++ x ++ post) → n = len x →
  read_take n (reader_at pre (x ++ post)) = Ok (x, reader_at (pre ++ x) post).
Proof.
  intros Hm ->. unfold read_take, reader_at; cbn [r_pos r_buf].
  pose proof (len_nonneg post). pose proof (len_nonneg pre). pose proof (len_nonneg x).
  rewrite (proj2 (Z.ltb_ge _ _)) by solve_mem.
  rewrite (proj2 (Z.ltb_ge _ _)) by (autorewrite with lens; lia).
  rewrite slice_at. unfold set_field; cbn [r_pos r_buf].
  by rewrite <- app_assoc, len_app.
Qed.

Lemma read_u8_at pre v post :
  fits_mem (pre ++ byte_of_Z v :: post) → is_u8 v →
  read_u8 (reader_at pre (byte_of_Z v :: post)) =
    Ok (v, reader_at (pre ++ [byte_of_Z v]) post).
Proof.
  intros Hm Hv. unfold read_u8. rewrite (read_take_at pre [byte_of_Z v] post) by done. cbn [hd].
  by rewrite u8_byte_of_Z_small.
Qed.

Lemma read_bool_at pre (v : bool) post :
  fits_mem (pre ++ byte_of_Z (if v then 1 else 0) :: post) →
  read_bool (reader_at pre (byte_of_Z (if v then 1 else 0) :: post)) =
    Ok (v, reader_at (pre ++ [byte_of_Z (if v then 1 else 0)]) post).
Proof.
  intros Hm. unfold read_bool. rewrite read_u8_at; [by destruct v|done|].
  destruct v; width_lia.
Qed.

Lemma read_u32_at pre v post :
  fits_mem (pre ++ be_bytes 4 v ++ post) → is_u32 v →
  read_u32 (reader_at pre (be_bytes 4 v ++ post)) = Ok (v, reader_at (pre ++ be_bytes 4 v) post).
Proof.
  intros Hm Hv. unfold read_u32. rewrite read_take_at by done.
  rewrite be_value_be_bytes_small; [done|]. change (256 ^ Z.of_nat 4) with 4294967296. width_lia.
Qed.

Lemma read_u64_at pre v post :
  fits_mem (pre ++ be_bytes 8 v ++ post) → is_u64 v →
  read_u64 (reader_at pre (be_bytes 8 v ++ post)) = Ok (v, reader_at (pre ++ be_bytes 8 v) post).
Proof.
  intros Hm Hv. unfold read_u64. rewrite read_take_at by done.
  rewrite be_value_be_bytes_small; [done|].
  change (256 ^ Z.of_nat 8) with 18446744073709551616. width_lia.
Qed.

Lemma read_string_at pre s post :
  fits_mem (pre ++ be_bytes 4 (wrap32 (len s)) ++ s ++ post) → is_u32 (len s) →
  read_string (reader_at pre (be_bytes 4 (wrap32 (len s)) ++ s ++ post)) =
    Ok (s, reader_at (pre ++ be_bytes 4 (wrap32 (len s)) ++ s) post).
Proof.
  intros Hm Hs. unfold read_string. rewrite read_u32_at; [|done|apply wrap32_range].
  rewrite read_take_at; [by rewrite <- app_assoc|solve_mem|by apply wrap32_small].
Qed.

Lemma read_string_nil_at pre post :
  fits_mem (pre ++ be_bytes 4 (wrap32 (@len byte [])) ++ post) →
  read_string (reader_at pre (be_bytes 4 (wrap32 (@len byte [])) ++ post)) =
    Ok ([], reader_at (pre ++ be_bytes 4 (wrap32 (@len byte []))) post).
Proof.
  intros Hm. pose proof (read_string_at pre [] post) as H. cbn [app] in H.
  rewrite app_nil_r in H. apply H; [done|by vm_compute].
Qed.

(** ** What a successful read consumed *)

Lemma slice_length l from to :
  0 ≤ from ≤ to → to ≤ len l → len (slice l from to) = to - from.
Proof.
  intros. unfold slice. rewrite len_take; [done|]. rewrite len_drop by lia. lia.
Qed.

Lemma read_take_inv n pre post x r' :
  0 ≤ n → read_take n (reader_at pre post) = Ok (x, r') →
  ∃ post', post = x ++ post' ∧ len x = n ∧ r' = reader_at (pre ++ x) post'.
Proof.
  intros Hn. unfold read_take, reader_at; cbn [r_pos r_buf].
  destruct (Z.ltb_spec U64_MAX (len pre + n)) as [|Hm]; [done|].
  destruct (Z.ltb_spec (len (pre ++ post)) (len pre + n)) as [|Hl]; [done|].
  autorewrite with lens in Hl. intros [= <- <-].
  exists (drop (Z.to_nat n) post).
  assert (slice (pre ++ post) (len pre) (len pre + n) = take (Z.to_nat n) post) as ->.
  { unfold slice. replace (Z.to_nat (len pre)) with (length pre) by (unfold len; lia).
    rewrite drop_app_length. f_equal. lia. }
  rewrite take_drop, len_take by lia. split_and!; [done..|].
  unfold set_field; cbn [r_pos r_buf]. by rewrite <- app_assoc, take_drop, len_app, len_take by lia.
Qed.

Lemma read_u8_inv pre post v r' :
  read_u8 (reader_at pre post) = Ok (v, r') →
  ∃ post', post = byte_of_Z v :: post' ∧ is_u8 v ∧
    r' = reader_at (pre ++ [byte_of_Z v]) post'.
Proof.
  unfold read_u8. destruct (read_take 1 _) as [[x r]|] eqn:E; [|done]. intros [= <- <-].
  apply read_take_inv in E as (post' & -> & Hl & ->); [|lia].
  destruct x as [|b [|c x]]; autorewrite with lens in Hl; try (pose proof (len_nonneg x)); try lia.
  cbn [hd]. rewrite byte_of_Z_u8. exists post'. split; [done|]. split; [apply u8_range|done].
Qed.

Lemma read_u32_inv pre post v r' :
  read_u32 (reader_at pre post) = Ok (v, r') →
  ∃ post', post = be_bytes 4 v ++ post' ∧ is_u32 v ∧ r' = reader_at (pre ++ be_bytes 4 v) post'.
Proof.
  unfold read_u32. destruct (read_take 4 _) as [[x r]|] eqn:E; [|done]. intros [= <- <-].
  apply read_take_inv in E as (post' & -> & Hl & ->); [|lia].
  exists post'. pose proof (be_value_range x) as Hr. rewrite Hl in Hr.
  change (256 ^ 4) with 4294967296 in Hr.
  rewrite be_bytes_value_len by (unfold len in Hl; lia). split_and!; [done|width_lia..|done].
Qed.

Lemma read_u64_inv pre post v r' :
  read_u64 (reader_at pre post) = Ok (v, r') →
  ∃ post', post = be_bytes 8 v ++ post' ∧ is_u64 v ∧ r' = reader_at (pre ++ be_bytes 8 v) post'.
Proof.
  unfold read_u64. destruct (read_take 8 _) as [[x r]|] eqn:E; [|done]. intros [= <- <-].
  apply read_take_inv in E as (post' & -> & Hl & ->); [|lia].
  exists post'. pose proof (be_value_range x) as Hr. rewrite Hl in Hr.
  change (256 ^ 8) with 18446744073709551616 in Hr.
  rewrite be_bytes_value_len by (unfold len in Hl; lia). split_and!; [done|width_lia..|done].
Qed.

Lemma read_string_inv pre post s r' :
  read_string (reader_at pre post) = Ok (s, r') →
  ∃ post', post = be_bytes 4 (len s) ++ s ++ post' ∧ is_u32 (len s) ∧
    r' = reader_at (pre ++ be_bytes 4 (len s) ++ s) post'.
Proof.
  unfold read_string. destruct (read_u32 _) as [[n r]|] eqn:E; [|done].
  apply read_u32_inv in E as (post1 & -> & Hn & ->). intros E.
  apply read_take_inv in E as (post2 & -> & <- & ->); [|width_lia].
  exists post2. by rewrite <- app_assoc.
Qed.

(** ** Encoding and decoding are inverse *)

Ltac app_norm := repeat (progress (rewrite <- ?app_assoc; cbn [app])).

(** Normal form of an encoded buffer: one right-nested concatenation. *)
Ltac writer_norm :=
  unfold into_vec, write_string, write_u32, write_u64, write_bool, write_u8, write_raw,
    writer_new; cbn [w_buf]; app_norm.

#[export] Hint Rewrite read_u8_at read_bool_at read_u32_at read_u64_at read_string_at
  using (first [solve_mem | assumption | width_lia]) : wire.

(** Reading back what the primitive writers wrote, in any sequence. *)
Inductive item := IU8 (v : Z) | IBool (v : bool) | IU32 (v : Z) | IU64 (v : Z) | IStr (s : bytes).

Definition item_ok (i : item) : Prop :=
  match i with
  | IU8 v => is_u8 v | IBool _ => True | IU32 v => is_u32 v | IU64 v => is_u64 v
  | IStr s => is_u32 (len s)
  end.

Definition write_item (i : item) (w : Writer) : Writer :=
  match i with
  | IU8 v => write_u8 v w | IBool v => write_bool v w | IU32 v => write_u32 v w
  | IU64 v => write_u64 v w | IStr s => write_string s w
  end.

(** Reads one value of the same kind as [i]. *)
Definition read_item (i : item) (r : Reader) : result (item * Reader) :=
  match i with
  | IU8 _ => let? (v, r) := read_u8 r in Ok (IU8 v, r)
  | IBool _ => let? (v, r) := read_bool r in Ok (IBool v, r)
  | IU32 _ => let? (v, r) := read_u32 r in Ok (IU32 v, r)
  | IU64 _ => let? (v, r) := read_u64 r in Ok (IU64 v, r)
  | IStr _ => let? (v, r) := read_string r in Ok (IStr v, r)
  end.

Fixpoint read_items (its : list item) (r : Reader) : result (list item * Reader) :=
  match its with
  | [] => Ok ([], r)
  | i :: its' =>
      let? (v, r) := read_item i r in
      let? (vs, r) := read_items its' r in Ok (v :: vs, r)
  end.

Definition write_items (its : list item) (w : Writer) : Writer :=
  fold_left (λ w i, write_item i w) its w.

Definition item_bytes (i : item) : bytes := w_buf (write_item i writer_new).

Lemma write_item_buf i w : w_buf (write_item i w) = w_buf w ++ item_bytes i.
Proof. unfold item_bytes. destruct i; simpl; by rewrite <- ?app_assoc. Qed.

Lemma write_items_buf its w : w_buf (write_items its w) = w_buf w ++ concat (item_bytes <$> its).
Proof.
  unfold write_items. revert w; induction its as [|i its IH]; intros w; cbn.
  - by rewrite app_nil_r.
  - by rewrite IH, write_item_buf, <- app_assoc.
Qed.

Lemma read_item_at i pre post :
  item_ok i → fits_mem (pre ++ item_bytes i ++ post) →
  read_item i (reader_at pre (item_bytes i ++ post)) = Ok (i, reader_at (pre ++ item_bytes i) post).
Proof.
  destruct i; unfold item_bytes, read_item, item_ok, write_item; writer_norm; intros Hi Hm.
  - by rewrite read_u8_at.
  - by rewrite read_bool_at.
  - by rewrite read_u32_at.
  - by rewrite read_u64_at.
  - by rewrite read_string_at by (first [done | by rewrite <- app_assoc in Hm]).
Qed.

Lemma read_items_at its pre post :
  Forall item_ok its → fits_mem (pre ++ concat (item_bytes <$> its) ++ post) →
  read_items its (reader_at pre (concat (item_bytes <$> its) ++ post)) =
    Ok (its, reader_at (pre ++ concat (item_bytes <$> its)) post).
Proof.
  intros Hok. revert pre. induction Hok as [|i its Hi _ IH]; intros pre Hm; cbn in *.
  - by rewrite app_nil_r.
  - rewrite <- app_assoc in Hm |- *. rewrite read_item_at by done.
    rewrite IH by (by rewrite <- app_assoc). by rewrite <- app_assoc.
Qed.

(** Whatever sequence of [byte], [boolean], [uint32], [uint64] and
    [string] values a [Writer] emits, a [Reader] over the bytes decodes the
    same sequence and is left empty. *)
Theorem read_items_write_items its :
  Forall item_ok its → fits_mem (into_vec (write_items its writer_new)) →
  ∃ r, read_items its (reader_new (into_vec (write_items its writer_new))) = Ok (its, r) ∧
       reader_is_empty r = true.
Proof.
  intros Hok. unfold into_vec. rewrite write_items_buf; cbn [w_buf writer_new app]. intros Hm.
  pose proof (read_items_at its [] [] Hok) as H. rewrite app_nil_r in H.
  rewrite reader_new_at, H by done. eexists; split; [done|].
  unfold reader_is_empty. by rewrite remaining_at.
Qed.

Lemma read_items_write_items_witness :
  ∃ r, read_items [IU8 80; IStr (bs "keepalive@openssh.com"); IBool true; IU32 7; IU64 9]
         (reader_new (into_vec (write_items
           [IU8 80; IStr (bs "keepalive@openssh.com"); IBool true; IU32 7; IU64 9] writer_new)))
       = Ok ([IU8 80; IStr (bs "keepalive@openssh.com"); IBool true; IU32 7; IU64 9], r)
       ∧ reader_is_empty r = true.
Proof.
  apply read_items_write_items.
  - repeat constructor; vm_compute; congruence.
  - vm_compute. congruence.
Defined.

Lemma strip_zeros_value m : be_value (strip_zeros m) = be_value m.
Proof.
  induction m as [|b m IH]; cbn [strip_zeros]; [done|].
  destruct (Z.eqb_spec (u8 b) 0) as [E|]; [|done].
  rewrite be_value_cons, E, IH. lia.
Qed.

Lemma strip_zeros_len m : len (strip_zeros m) ≤ len m.
Proof.
  induction m as [|b m IH]; cbn [strip_zeros]; [done|].
  destruct (u8 b =? 0); autorewrite with lens; lia.
Qed.

Lemma strip_zeros_head m b m' : strip_zeros m = b :: m' → u8 b ≠ 0.
Proof.
  induction m as [|c m IH]; cbn [strip_zeros]; [done|].
  destruct (Z.eqb_spec (u8 c) 0); [done|]. by intros [= -> ->].
Qed.

Lemma high_bit_clear b : Z.land (u8 b) 128 = 0 ↔ u8 b < 128.
Proof. destruct b; vm_compute; split; congruence. Qed.

(** Canonical non-negative [mpint] body: empty for zero, otherwise the sign
    bit is clear and the first byte is needed. *)
Definition mpint_canonical (m : bytes) : Prop :=
  match m with
  | [] => True
  | b :: m' => u8 b < 128 ∧ (u8 b = 0 → ∃ c m'', m' = c :: m'' ∧ 128 ≤ u8 c)
  end.

(** An [mpint] written from a big-endian magnitude decodes to the
    canonical (minimal, non-negative) representation of the same integer. *)
Theorem write_mpint_canonical magnitude :
  len magnitude < U32_MAX →
  ∃ m r, read_mpint (reader_new (into_vec (write_mpint magnitude writer_new))) = Ok (m, r) ∧
    reader_is_empty r = true ∧ mpint_canonical m ∧ be_value m = be_value magnitude.
Proof.
  intros Hl. unfold write_mpint, read_mpint.
  pose proof (strip_zeros_len magnitude) as Hs. pose proof (strip_zeros_value magnitude) as Hv.
  destruct (strip_zeros magnitude) as [|b m'] eqn:E.
  { exists [], (reader_at (be_bytes 4 0) []). split; [vm_compute; done|].
    split; [done|]. split; [done|]. by rewrite <- Hv. }
  pose proof (len_nonneg m') as Hm'. set (m := b :: m') in *.
  assert (Hread : ∀ s, len s ≤ len m + 1 → ∃ r,
    read_string (reader_new (be_bytes 4 (wrap32 (len s)) ++ s)) = Ok (s, r) ∧
    reader_is_empty r = true).
  { intros s Hsl. rewrite reader_new_at. pose proof (len_nonneg s).
    rewrite <- (app_nil_r (_ ++ _)), <- app_assoc.
    rewrite read_string_at by (unfold fits_mem; autorewrite with lens; width_lia).
    eexists; split; [done|]. unfold reader_is_empty. by rewrite remaining_at. }
  destruct (Z.eqb_spec (Z.land (u8 b) 128) 0) as [Eb|Eb]; cbn [negb].
  - destruct (Hread m ltac:(lia)) as (r & Hr & He).
    exists m, r. writer_norm. rewrite Hr. do 2 (split; [done|]). split; [split|done].
    + by apply high_bit_clear.
    + intros Hz. by apply strip_zeros_head in E.
  - destruct (Hread (Byte.x00 :: m)) as (r & Hr & He); [autorewrite with lens; lia|].
    exists (Byte.x00 :: m), r. writer_norm.
    change (byte_of_Z 0) with Byte.x00. rewrite len_cons, Z.add_comm in Hr. rewrite Hr. do 2 (split; [done|]). split; [split; [done|]|].
    + intros _. exists b, m'. split; [done|]. rewrite high_bit_clear in Eb. lia.
    + rewrite be_value_cons. change (u8 Byte.x00) with 0. lia.
Qed.

Lemma write_mpint_canonical_witness :
  ∃ m r, read_mpint (reader_new (into_vec (write_mpint [Byte.x00; Byte.x80; Byte.x01] writer_new)))
      = Ok (m, r) ∧
    reader_is_empty r = true ∧ mpint_canonical m ∧ be_value m = be_value [Byte.x00; Byte.x80; Byte.x01].
Proof. apply write_mpint_canonical. vm_compute. done. Defined.

(** ** Name lists *)

Lemma name_list_negotiate_in ours theirs :
  ∀ x, name_list_negotiate ours theirs = Some x → In x ours ∧ In x (name_list_iter theirs).
Proof.
  intros x [Hin Hex]%List.find_some. split; [done|].
  apply List.existsb_exists in Hex as (t & Ht & ->%bytes_eqb_true). done.
Qed.

(** Negotiation returns the first of our names the peer also lists, and
    [None] exactly when the lists have no name in common. *)
Theorem name_list_negotiate_first ours theirs :
  match name_list_negotiate ours theirs with
  | Some x => ∃ before after, ours = before ++ x :: after ∧ In x (name_list_iter theirs) ∧
                ∀ y, In y before → ¬ In y (name_list_iter theirs)
  | None => ∀ y, In y ours → ¬ In y (name_list_iter theirs)
  end.
Proof.
  unfold name_list_negotiate.
  assert (Hiff : ∀ y, List.existsb (λ t, bytes_eqb t y) (name_list_iter theirs) = true ↔
    In y (name_list_iter theirs)).
  { intros y. rewrite List.existsb_exists. split.
    - by intros (t & Ht & ->%bytes_eqb_true).
    - intros Hy. exists y. by rewrite bytes_eqb_refl. }
  induction ours as [|x ours IH]; cbn [List.find]; [done|].
  destruct (List.existsb _ _) eqn:E.
  - exists [], ours. split; [done|]. split; [by apply Hiff|]. by intros y [].
  - assert (¬ In x (name_list_iter theirs)) by (rewrite <- Hiff; congruence).
    destruct (List.find _ ours) as [z|] eqn:Ef.
    + destruct IH as (be & af & -> & Hz & Hbe). exists (x :: be), af. split; [done|].
      split; [done|]. intros y [<-|Hy]; [done|by apply Hbe].
    + intros y [<-|Hy]; [done|by apply IH].
Qed.
