(* ===== verification/WireLoop.v ===== *)
(** * Loops over a reader

    [while !r.is_empty()]: the loop most decoders are built from.  The number
    of bytes left bounds its turns, because every turn reads at least one byte;
    [while_unfold] is the loop's equation without that bound, and [while_at]
    runs it over the encodings of a list of items. *)
From S2P Require Import Prelude Wire.

Fixpoint while_fuel {S} (fuel : nat) (step : Reader → S → result (Reader * S)) (r : Reader) (s : S) : result S :=
  if reader_is_empty r then Ok s else
  match fuel with
  | O => Err (Protocol "loop bound")
  | Datatypes.S fuel => let? (r, s) := step r s in while_fuel fuel step r s
  end.

Definition while_nonempty {S} (step : Reader → S → result (Reader * S)) (r : Reader) (s : S) : result S :=
  while_fuel (Z.to_nat (remaining r)) step r s.

(** A turn reads at least one byte. *)
Definition progress {S} (step : Reader → S → result (Reader * S)) : Prop :=
  ∀ r s r' s', step r s = Ok (r', s') → r_buf r' = r_buf r ∧ r_pos r < r_pos r'.

Lemma while_fuel_enough {S} (step : Reader → S → result (Reader * S)) fuel r s :
  progress step → (Z.to_nat (remaining r) ≤ fuel)%nat →
  while_fuel fuel step r s = while_nonempty step r s.
Proof.
  intros Hp. unfold while_nonempty.
  assert (H : ∀ k f r s, (Z.to_nat (remaining r) ≤ k)%nat → (k ≤ f)%nat → while_fuel f step r s = while_fuel k step r s).
  { clear fuel r s. induction k as [|k IH]; intros f r s Hr Hk.
    - assert (E : reader_is_empty r = true).
      { unfold reader_is_empty. apply Z.eqb_eq. unfold remaining in *. width_lia. }
      destruct f; cbn [while_fuel]; by rewrite E.
    - destruct f as [|f]; [lia|]. cbn [while_fuel]. destruct (reader_is_empty r) eqn:E; [done|].
      destruct (step r s) as [[r' s']|e] eqn:Es; [|done]. apply Hp in Es as [Hb Hpos].
      apply IH; [|lia]. unfold reader_is_empty, remaining in *. rewrite Hb. zbool. width_lia. }
  intros Hf. apply H; lia.
Qed.

(** The loop's equation. *)
Lemma while_unfold {S} (step : Reader → S → result (Reader * S)) r s :
  progress step →
  while_nonempty step r s =
    if reader_is_empty r then Ok s else let? (r', s') := step r s in while_nonempty step r' s'.
Proof.
  intros Hp. unfold while_nonempty at 1. destruct (Z.to_nat (remaining r)) as [|n] eqn:En; cbn [while_fuel].
  - assert (E : reader_is_empty r = true).
    { unfold reader_is_empty. apply Z.eqb_eq. unfold remaining in *. width_lia. }
    by rewrite E.
  - destruct (reader_is_empty r) eqn:E; [done|]. destruct (step r s) as [[r' s']|e] eqn:Es; [|done].
    apply Hp in Es as [Hb Hpos]. apply while_fuel_enough; [done|]. unfold remaining, reader_is_empty in *.
    rewrite Hb. zbool. width_lia.
Qed.

(** ** Reads advance *)

(** [f] succeeds only by moving forward in the same buffer. *)
Definition advances {A} (f : Reader → result (A * Reader)) : Prop :=
  ∀ r a r', f r = Ok (a, r') → r_buf r' = r_buf r ∧ r_pos r < r_pos r'.

Lemma read_take_advances n r x r' : read_take n r = Ok (x, r') → r_buf r' = r_buf r ∧ r_pos r' = r_pos r + n.
Proof.
  unfold read_take. destruct (U64_MAX <? r_pos r + n); [done|]. destruct (len (r_buf r) <? r_pos r + n); [done|].
  intros [= _ <-]. done.
Qed.

Lemma read_u8_advances : advances read_u8.
Proof.
  intros r v r'. unfold read_u8. destruct (read_take 1 r) as [[x r1]|] eqn:E; [|done]. intros [= _ <-].
  apply read_take_advances in E as [-> ->]. split; [done|lia].
Qed.
Lemma read_u32_advances : advances read_u32.
Proof.
  intros r v r'. unfold read_u32. destruct (read_take 4 r) as [[x r1]|] eqn:E; [|done]. intros [= _ <-].
  apply read_take_advances in E as [-> ->]. split; [done|lia].
Qed.
Lemma read_u64_advances : advances read_u64.
Proof.
  intros r v r'. unfold read_u64. destruct (read_take 8 r) as [[x r1]|] eqn:E; [|done]. intros [= _ <-].
  apply read_take_advances in E as [-> ->]. split; [done|lia].
Qed.
Lemma read_u32_nonneg r n r' : read_u32 r = Ok (n, r') → 0 ≤ n.
Proof.
  unfold read_u32. destruct (read_take 4 r) as [[x r1]|]; [|done]. intros [= <- _]. apply be_value_range.
Qed.
Lemma read_string_advances : advances read_string.
Proof.
  intros r v r'. unfold read_string. destruct (read_u32 r) as [[n r1]|] eqn:E; [|done]. intros E2.
  pose proof (read_u32_nonneg _ _ _ E). apply read_u32_advances in E as [Hb Hp]. apply read_take_advances in E2 as [Hb2 Hp2].
  split; [congruence|lia].
Qed.
#[export] Hint Resolve read_u8_advances read_u32_advances read_u64_advances read_string_advances : core.

(** ** Running over encoded items *)

Section Items.
Context {S A : Type} (step : Reader → S → result (Reader * S)) (enc : A → bytes) (upd : S → A → S) (good : A → Prop).
Context (Hprog : progress step).
Context (Henc : ∀ a, good a → enc a ≠ []).
Context (Hstep : ∀ a pre post s, good a → fits_mem (pre ++ enc a ++ post) →
  step (reader_at pre (enc a ++ post)) s = Ok (reader_at (pre ++ enc a) post, upd s a)).

Lemma while_at pre l s :
  Forall good l → fits_mem (pre ++ concat (enc <$> l)) →
  while_nonempty step (reader_at pre (concat (enc <$> l))) s = Ok (fold_left upd l s).
Proof.
  intros Hl. revert pre s. induction Hl as [|a l Ha _ IH]; intros pre s Hm; rewrite while_unfold by done;
    unfold reader_is_empty; rewrite remaining_at; cbn [fmap list_fmap concat].
  - done.
  - rewrite (proj2 (Z.eqb_neq _ _)).
    + rewrite Hstep by done. cbn [fold_left]. apply IH. by rewrite <- app_assoc.
    + rewrite len_app. pose proof (len_nonneg (concat (enc <$> l))). pose proof (len_nonneg (enc a)).
      intros E. apply (Henc a Ha), len_0_nil. lia.
Qed.
End Items.

(** [out.push(f(&mut r)?)], the commonest body. *)
Definition push_step {A} (f : Reader → result (A * Reader)) (r : Reader) (acc : list A) : result (Reader * list A) :=
  let? (a, r) := f r in Ok (r, acc ++ [a]).

Definition read_list {A} (f : Reader → result (A * Reader)) (r : Reader) (acc : list A) : result (list A) :=
  while_nonempty (push_step f) r acc.

Lemma push_step_progress {A} (f : Reader → result (A * Reader)) : advances f → progress (push_step f).
Proof.
  intros Hf r s r' s'. unfold push_step. destruct (f r) as [[a r1]|] eqn:E; [|done]. intros [= <- _]. by apply Hf in E.
Qed.

Lemma fold_push {A} (l acc : list A) : fold_left (λ s a, s ++ [a]) l acc = acc ++ l.
Proof.
  revert acc. induction l as [|a l IH]; intros acc; cbn [fold_left]; [by rewrite app_nil_r|].
  by rewrite IH, <- app_assoc.
Qed.

Lemma read_list_at {A} (f : Reader → result (A * Reader)) (enc : A → bytes) (good : A → Prop) pre l acc :
  advances f → (∀ a, good a → enc a ≠ []) →
  (∀ a pre post, good a → fits_mem (pre ++ enc a ++ post) →
     f (reader_at pre (enc a ++ post)) = Ok (a, reader_at (pre ++ enc a) post)) →
  Forall good l → fits_mem (pre ++ concat (enc <$> l)) →
  read_list f (reader_at pre (concat (enc <$> l))) acc = Ok (acc ++ l).
Proof.
  intros Hf He Hs Hl Hm. unfold read_list.
  rewrite (while_at (push_step f) enc (λ s a, s ++ [a]) good); [by rewrite fold_push|by apply push_step_progress|done| |done|done].
  intros a pre' post s Ha Hm'. unfold push_step. by rewrite Hs.
Qed.

(** [if cond { Some(f(&mut r)?) } else { None }] *)
Definition read_if {A} (cond : bool) (f : Reader → result (A * Reader)) (r : Reader) : result (option A * Reader) :=
  if cond then let? (a, r) := f r in Ok (Some a, r) else Ok (None, r).

(** [for _ in 0..n { out.push(f(&mut r)?) }] *)
Fixpoint read_n {A} (f : Reader → result (A * Reader)) (n : nat) (r : Reader) : result (list A * Reader) :=
  match n with
  | O => Ok ([], r)
  | Datatypes.S n =>
      let? (a, r) := f r in
      let? (l, r) := read_n f n r in
      Ok (a :: l, r)
  end.

Lemma read_n_at {A} (f : Reader → result (A * Reader)) (enc : A → bytes) (good : A → Prop) pre l post :
  (∀ a pre post, good a → fits_mem (pre ++ enc a ++ post) →
     f (reader_at pre (enc a ++ post)) = Ok (a, reader_at (pre ++ enc a) post)) →
  Forall good l → fits_mem (pre ++ concat (enc <$> l) ++ post) →
  read_n f (length l) (reader_at pre (concat (enc <$> l) ++ post)) = Ok (l, reader_at (pre ++ concat (enc <$> l)) post).
Proof.
  intros Hs Hl. revert pre. induction Hl as [|a l Ha _ IH]; intros pre Hm; cbn [fmap list_fmap concat length read_n].
  - by rewrite app_nil_r.
  - cbn [fmap list_fmap concat] in Hm. rewrite <- app_assoc in *. rewrite Hs, IH by (first [done|by rewrite <- app_assoc]).
    by rewrite <- app_assoc.
Qed.

(** ** Encoded values in sequence *)

(** What [write_string] appends. *)
Definition str_enc (s : bytes) : bytes := be_bytes 4 (wrap32 (len s)) ++ s.

Lemma str_enc_nonempty s : str_enc s ≠ [].
Proof. intros H%(f_equal len). unfold str_enc in H. autorewrite with lens in H. pose proof (len_nonneg s). lia. Qed.

Lemma len_str_enc s : len (str_enc s) = 4 + len s.
Proof. unfold str_enc. autorewrite with lens. lia. Qed.
#[export] Hint Rewrite len_str_enc : lens.

Lemma read_string_enc pre s post :
  is_u32 (len s) → fits_mem (pre ++ str_enc s ++ post) →
  read_string (reader_at pre (str_enc s ++ post)) = Ok (s, reader_at (pre ++ str_enc s) post).
Proof.
  intros Hs Hm. unfold str_enc in *. rewrite <- !app_assoc in *. apply read_string_at; [|done]. done.
Qed.

(** What each write appends. *)
Lemma write_u8_buf v w : w_buf (write_u8 v w) = w_buf w ++ [byte_of_Z v].
Proof. done. Qed.
Lemma write_u32_buf v w : w_buf (write_u32 v w) = w_buf w ++ be_bytes 4 v.
Proof. done. Qed.
Lemma write_u64_buf v w : w_buf (write_u64 v w) = w_buf w ++ be_bytes 8 v.
Proof. done. Qed.
Lemma write_raw_buf b w : w_buf (write_raw b w) = w_buf w ++ b.
Proof. done. Qed.
Lemma write_string_buf s w : w_buf (write_string s w) = w_buf w ++ str_enc s.
Proof. unfold write_string, write_u32, str_enc. cbn [w_buf]. by rewrite app_assoc. Qed.

(** [for x in l { f(&mut w, x) }] *)
Definition write_each {A} (f : A → Writer → Writer) (l : list A) (w : Writer) : Writer := fold_left (λ w x, f x w) l w.

Lemma write_each_buf {A} (f : A → Writer → Writer) (enc : A → bytes) l w :
  (∀ x w, w_buf (f x w) = w_buf w ++ enc x) → w_buf (write_each f l w) = w_buf w ++ concat (enc <$> l).
Proof.
  intros Hf. unfold write_each. revert w. induction l as [|x l IH]; intros w; cbn [fold_left fmap list_fmap concat];
    [by rewrite app_nil_r|]. by rewrite IH, Hf, <- app_assoc.
Qed.

(** *** A string as [mpint] *)

(** The body [write_mpint] writes. *)
Definition mpint_body (m : bytes) : bytes :=
  match strip_zeros m with
  | [] => []
  | b :: m' => if negb (Z.land (u8 b) 128 =? 0) then Byte.x00 :: b :: m' else b :: m'
  end.

Lemma write_mpint_buf m w : len m < U32_MAX → w_buf (write_mpint m w) = w_buf w ++ str_enc (mpint_body m).
Proof.
  intros Hm. unfold write_mpint, mpint_body, str_enc. pose proof (strip_zeros_len m).
  destruct (strip_zeros m) as [|b m'] eqn:E; [done|].
  destruct (negb (Z.land (u8 b) 128 =? 0)); writer_norm; [|done]. rewrite (len_cons Byte.x00), (Z.add_comm 1).
  by change (byte_of_Z 0) with Byte.x00.
Qed.

Lemma mpint_body_value m : be_value (mpint_body m) = be_value m.
Proof.
  rewrite <- (strip_zeros_value m). unfold mpint_body. destruct (strip_zeros m) as [|b m']; [done|].
  destruct (negb _); [|done]. rewrite be_value_cons. change (u8 Byte.x00) with 0. lia.
Qed.

Lemma mpint_body_len m : len (mpint_body m) ≤ len m + 1.
Proof.
  pose proof (strip_zeros_len m). unfold mpint_body. destruct (strip_zeros m) as [|b m'] eqn:E.
  { pose proof (len_nonneg m). cbn. lia. }
  destruct (negb _); autorewrite with lens in *; lia.
Qed.
