(* ===== verification/Text.v ===== *)
(** * Text: the parts of the Rust standard library the sources use on strings

    A Rust [String] or [str] is the list of its UTF-8 bytes.  [from_utf8] is
    the check every decoder of a text field runs.  At the end, paths and their
    components. *)
From S2P Require Import Prelude Wire.

(** ** UTF-8 validity ([core::str::from_utf8]) *)

Definition in_range (lo x hi : Z) : bool := (lo <=? x) && (x <=? hi).

(** A continuation byte. *)
Definition utf8_cont (b : byte) : bool := in_range 128 (u8 b) 191.

(** The second byte of a three-byte sequence excludes overlong forms
    ([E0 80..9F]) and surrogates ([ED A0..BF]). *)
Definition utf8_second3 (x : Z) (b : byte) : bool :=
  if x =? 224 then in_range 160 (u8 b) 191
  else if x =? 237 then in_range 128 (u8 b) 159
  else utf8_cont b.

(** The second byte of a four-byte sequence excludes overlong forms
    ([F0 80..8F]) and code points above [10FFFF] ([F4 90..BF]). *)
Definition utf8_second4 (x : Z) (b : byte) : bool :=
  if x =? 240 then in_range 144 (u8 b) 191
  else if x =? 244 then in_range 128 (u8 b) 143
  else utf8_cont b.

Fixpoint utf8_valid (l : bytes) : bool :=
  match l with
  | [] => true
  | b0 :: l1 =>
      let x := u8 b0 in
      if x <? 128 then utf8_valid l1
      else if in_range 194 x 223 then
        match l1 with
        | b1 :: l2 => utf8_cont b1 && utf8_valid l2
        | _ => false
        end
      else if in_range 224 x 239 then
        match l1 with
        | b1 :: b2 :: l3 => utf8_second3 x b1 && utf8_cont b2 && utf8_valid l3
        | _ => false
        end
      else if in_range 240 x 244 then
        match l1 with
        | b1 :: b2 :: b3 :: l4 =>
            utf8_second4 x b1 && utf8_cont b2 && utf8_cont b3 && utf8_valid l4
        | _ => false
        end
      else false
  end.

(** [from_utf8(b).map_err(|_| e)]. *)
Definition from_utf8 (e : Error) (l : bytes) : result bytes :=
  if utf8_valid l then Ok l else Err e.

Lemma from_utf8_ok e l : utf8_valid l = true → from_utf8 e l = Ok l.
Proof. unfold from_utf8. by intros ->. Qed.

Lemma from_utf8_inv e l s : from_utf8 e l = Ok s → s = l ∧ utf8_valid l = true.
Proof. unfold from_utf8. destruct (utf8_valid l); naive_solver. Qed.

Lemma utf8_valid_ascii l : Forall (λ b, u8 b < 128) l → utf8_valid l = true.
Proof.
  induction 1 as [|b l Hb _ IH]; [done|]. cbn [utf8_valid].
  by rewrite (proj2 (Z.ltb_lt _ _)) by done.
Qed.

#[export] Hint Rewrite from_utf8_ok using assumption : wire.

(** ** [String::from_utf8_lossy]

    The text as its characters, each the list of its bytes; a maximal invalid
    part is one replacement character (Rust's [Utf8Chunks]). *)

Definition REPLACEMENT : bytes := [Byte.xef; Byte.xbf; Byte.xbd].

Fixpoint lossy_chars (l : bytes) : list bytes :=
  match l with
  | [] => []
  | b0 :: l1 =>
      let x := u8 b0 in
      if x <? 128 then [b0] :: lossy_chars l1
      else if in_range 194 x 223 then
        match l1 with
        | b1 :: l2 => if utf8_cont b1 then [b0; b1] :: lossy_chars l2 else REPLACEMENT :: lossy_chars l1
        | [] => REPLACEMENT :: lossy_chars l1
        end
      else if in_range 224 x 239 then
        match l1 with
        | b1 :: l2 =>
            if utf8_second3 x b1 then
              match l2 with
              | b2 :: l3 => if utf8_cont b2 then [b0; b1; b2] :: lossy_chars l3 else REPLACEMENT :: lossy_chars l2
              | [] => [REPLACEMENT]
              end
            else REPLACEMENT :: lossy_chars l1
        | [] => REPLACEMENT :: lossy_chars l1
        end
      else if in_range 240 x 244 then
        match l1 with
        | b1 :: l2 =>
            if utf8_second4 x b1 then
              match l2 with
              | b2 :: l3 =>
                  if utf8_cont b2 then
                    match l3 with
                    | b3 :: l4 =>
                        if utf8_cont b3 then [b0; b1; b2; b3] :: lossy_chars l4 else REPLACEMENT :: lossy_chars l3
                    | [] => [REPLACEMENT]
                    end
                  else REPLACEMENT :: lossy_chars l2
              | [] => [REPLACEMENT]
              end
            else REPLACEMENT :: lossy_chars l1
        | [] => REPLACEMENT :: lossy_chars l1
        end
      else REPLACEMENT :: lossy_chars l1
  end.

(** [char::is_control]: the category Cc, [U+0000..1F] and [U+007F..9F]. *)
Definition char_is_control (c : bytes) : bool :=
  match c with
  | [b] => (u8 b <? 32) || (u8 b =? 127)
  | [b0; b1] => (u8 b0 =? 194) && in_range 128 (u8 b1) 159
  | _ => false
  end.

(** A text of valid UTF-8 is its characters. *)
Lemma lossy_chars_valid l : utf8_valid l = true → concat (lossy_chars l) = l.
Proof.
  induction l as [l IH] using (induction_ltof1 _ (@length byte)). unfold ltof in IH.
  destruct l as [|b0 l1]; [done|]. cbn [utf8_valid lossy_chars].
  destruct (u8 b0 <? 128). { intros. cbn [concat app]. rewrite IH; [done|cbn; lia|done]. }
  destruct (in_range 194 (u8 b0) 223).
  { destruct l1 as [|b1 l2]; [done|]. intros [-> ?]%andb_prop. cbn [concat app].
    rewrite IH; [done|cbn; lia|done]. }
  destruct (in_range 224 (u8 b0) 239).
  { destruct l1 as [|b1 [|b2 l3]]; [done..|]. intros [[-> ->]%andb_prop ?]%andb_prop. cbn [concat app].
    rewrite IH; [done|cbn; lia|done]. }
  destruct (in_range 240 (u8 b0) 244); [|done].
  destruct l1 as [|b1 [|b2 [|b3 l4]]]; [done..|].
  intros [[[-> ->]%andb_prop ->]%andb_prop ?]%andb_prop. cbn [concat app]. rewrite IH; [done|cbn; lia|done].
Qed.

(** ** [str::trim] *)

(** [char::is_whitespace]: the Unicode property White_Space. *)
Definition char_is_whitespace (c : bytes) : bool :=
  match c with
  | [b] => in_range 9 (u8 b) 13 || (u8 b =? 32)
  | [b0; b1] => (u8 b0 =? 194) && ((u8 b1 =? 133) || (u8 b1 =? 160))
  | [b0; b1; b2] =>
      ((u8 b0 =? 225) && (u8 b1 =? 154) && (u8 b2 =? 128))
      || ((u8 b0 =? 226) && (u8 b1 =? 128)
          && (in_range 128 (u8 b2) 138 || (u8 b2 =? 168) || (u8 b2 =? 169) || (u8 b2 =? 175)))
      || ((u8 b0 =? 226) && (u8 b1 =? 129) && (u8 b2 =? 159))
      || ((u8 b0 =? 227) && (u8 b1 =? 128) && (u8 b2 =? 128))
  | _ => false
  end.

Fixpoint drop_while {A} (f : A → bool) (l : list A) : list A :=
  match l with
  | x :: l' => if f x then drop_while f l' else l
  | [] => []
  end.

(** [s.trim()] of a text in valid UTF-8. *)
Definition str_trim (s : bytes) : bytes :=
  concat (rev (drop_while char_is_whitespace (rev (drop_while char_is_whitespace (lossy_chars s))))).

(** [s.starts_with(p)] and [s.ends_with(p)]. *)
Fixpoint starts_with (p s : bytes) : bool :=
  match p, s with
  | [], _ => true
  | x :: p', y :: s' => Byte.eqb x y && starts_with p' s'
  | _ :: _, [] => false
  end.

Definition ends_with (p s : bytes) : bool := starts_with (rev p) (rev s).

Lemma starts_with_spec p s : starts_with p s = true ↔ ∃ t, s = p ++ t.
Proof.
  revert s. induction p as [|x p IH]; intros s; cbn [starts_with app].
  { split; [intros _; by exists s|done]. }
  destruct s as [|y s]; [split; [done|by intros [t ?]]|].
  rewrite andb_true_iff, IH. split.
  - intros [->%Byte.byte_dec_bl [t ->]]. by exists t.
  - intros [t [= -> ->]]. split; [by apply Byte.byte_dec_lb|by exists t].
Qed.

(** [str::to_ascii_lowercase], byte by byte. *)
Definition ascii_lower (b : byte) : byte := if in_range 65 (u8 b) 90 then byte_of_Z (u8 b + 32) else b.
Definition to_ascii_lowercase (s : bytes) : bytes := ascii_lower <$> s.

(** [str::split_whitespace]: the maximal runs of characters between white space. *)
Fixpoint words (cs : list bytes) (word : bytes) : list bytes :=
  match cs with
  | [] => if bytes_eqb word [] then [] else [word]
  | c :: cs =>
      if char_is_whitespace c then (if bytes_eqb word [] then words cs [] else word :: words cs [])
      else words cs (word ++ c)
  end.
Definition split_whitespace (s : bytes) : list bytes := words (lossy_chars s) [].

(** ** Splitting and joining *)

(** [str::split_once(sep)] and [rsplit_once(sep)] for a one-byte separator. *)
Fixpoint split_once (sep : byte) (s : bytes) : option (bytes * bytes) :=
  match s with
  | [] => None
  | b :: s' =>
      if Byte.eqb b sep then Some ([], s')
      else match split_once sep s' with Some (l, r) => Some (b :: l, r) | None => None end
  end.
Definition rsplit_once (sep : byte) (s : bytes) : option (bytes * bytes) :=
  match split_once sep (rev s) with Some (r, l) => Some (rev l, rev r) | None => None end.

(** The order of [str]: byte by byte. *)
Fixpoint bytes_ltb (a b : bytes) : bool :=
  match a, b with
  | _, [] => false
  | [], _ :: _ => true
  | x :: a', y :: b' => (u8 x <? u8 y) || (u8 x =? u8 y) && bytes_ltb a' b'
  end.

(** [s.starts_with(c)] for a one-byte character. *)
Definition first_is (c : byte) (s : bytes) : bool := match s with x :: _ => Byte.eqb x c | [] => false end.

(** [s.strip_prefix(p)]. *)
Definition strip_prefix (p s : bytes) : option bytes :=
  if starts_with p s then Some (drop (length p) s) else None.

(** [l.join(sep)]. *)
Fixpoint join (sep : bytes) (l : list bytes) : bytes :=
  match l with
  | [] => []
  | [x] => x
  | x :: l' => x ++ sep ++ join sep l'
  end.

(** ** Decimal integers *)

(** [str::parse] to an unsigned integer not above [max]: an optional [+], at
    least one digit, and no overflow. *)
Fixpoint parse_digits (max acc : Z) (s : bytes) : option Z :=
  match s with
  | [] => Some acc
  | b :: s' =>
      if in_range 48 (u8 b) 57 then
        let v := acc * 10 + (u8 b - 48) in
        if max <? v then None else parse_digits max v s'
      else None
  end.
Definition parse_uint (max : Z) (s : bytes) : option Z :=
  let digits := match s with Byte.x2b :: s' => s' | _ => s end in
  match digits with [] => None | _ => parse_digits max 0 digits end.

(** The decimal digits of an integer below [10 ^ fuel], in front of [acc]. *)
Fixpoint show_digits (fuel : nat) (z : Z) (acc : bytes) : bytes :=
  match fuel with
  | O => acc
  | S fuel =>
      let acc := byte_of_Z (48 + z mod 10) :: acc in
      if z <? 10 then acc else show_digits fuel (z / 10) acc
  end.
(** [Display] of an unsigned integer of at most 64 bits. *)
Definition show_uint (z : Z) : bytes := show_digits 20 z [].

Lemma parse_digits_app max acc a b :
  parse_digits max acc (a ++ b) =
  match parse_digits max acc a with Some v => parse_digits max v b | None => None end.
Proof.
  revert acc. induction a as [|x a IH]; intros acc; cbn [app parse_digits]; [done|].
  destruct (in_range 48 (u8 x) 57); [|done]. by destruct (max <? _).
Qed.

Lemma show_digits_app fuel z acc : show_digits fuel z acc = show_digits fuel z [] ++ acc.
Proof.
  revert z acc. induction fuel as [|fuel IH]; intros z acc; cbn [show_digits]; [done|].
  destruct (z <? 10); [done|]. rewrite IH, (IH _ [_]), <- app_assoc. done.
Qed.

Lemma digit_value z : 0 ≤ z < 10 → u8 (byte_of_Z (48 + z)) = 48 + z.
Proof. intros. apply u8_byte_of_Z_small. lia. Qed.

Lemma parse_show_digits fuel max z :
  0 ≤ z ≤ max → z < 10 ^ Z.of_nat fuel → parse_digits max 0 (show_digits fuel z []) = Some z.
Proof.
  revert z. induction fuel as [|fuel IH]; intros z Hz Hf; [cbn in Hf; assert (z = 0) as -> by lia; done|].
  cbn [show_digits]. pose proof (Z.mod_pos_bound z 10). pose proof (Z.div_mod z 10).
  assert (Hd : ∀ acc, acc * 10 + z mod 10 ≤ max →
    parse_digits max acc [byte_of_Z (48 + z mod 10)] = Some (acc * 10 + z mod 10)).
  { intros acc Ha. cbn [parse_digits]. rewrite digit_value by lia. unfold in_range.
    rewrite !(proj2 (Z.leb_le _ _)) by lia. cbn [andb].
    replace (48 + z mod 10 - 48) with (z mod 10) by lia. by rewrite (proj2 (Z.ltb_ge _ _)) by lia. }
  destruct (z <? 10) eqn:E; zbool.
  - rewrite Hd by lia. f_equal. lia.
  - rewrite show_digits_app, parse_digits_app, IH.
    + rewrite Hd by lia. f_equal. lia.
    + split; [apply Z.div_pos; lia|]. pose proof (Z.div_le_upper_bound z 10 max). lia.
    + rewrite Nat2Z.inj_succ, Z.pow_succ_r in Hf by lia. apply Z.div_lt_upper_bound; lia.
Qed.

Definition is_digit (b : byte) : Prop := 48 ≤ u8 b ≤ 57.

Lemma show_digits_digits fuel z : 0 ≤ z → Forall is_digit (show_digits fuel z []).
Proof.
  revert z. induction fuel as [|fuel IH]; intros z Hz; cbn [show_digits]; [done|].
  assert (is_digit (byte_of_Z (48 + z mod 10))).
  { pose proof (Z.mod_pos_bound z 10). unfold is_digit. rewrite digit_value by lia. lia. }
  destruct (z <? 10); [by apply list.Forall_singleton|]. rewrite show_digits_app. apply Forall_app.
  split; [apply IH, Z.div_pos; lia|by apply list.Forall_singleton].
Qed.

Lemma show_uint_digits z : 0 ≤ z → Forall is_digit (show_uint z).
Proof. apply show_digits_digits. Qed.

Lemma show_digits_nonempty fuel z : show_digits (S fuel) z [] ≠ [].
Proof. cbn [show_digits]. destruct (z <? 10); [done|]. rewrite show_digits_app. by destruct (show_digits fuel _ []). Qed.

Lemma plus_absent (b : byte) (l : bytes) :
  b ≠ Byte.x2b → (match b :: l with Byte.x2b :: l' => l' | _ => b :: l end) = b :: l.
Proof. by destruct b. Qed.

(** What is printed is parsed back. *)
Lemma parse_show_uint max z : 0 ≤ z ≤ max → z ≤ U64_MAX → parse_uint max (show_uint z) = Some z.
Proof.
  intros Hz Hu. unfold parse_uint.
  pose proof (parse_show_digits 20 max z Hz ltac:(cbn; lia)) as Hp. pose proof (show_uint_digits z ltac:(lia)) as Hd.
  unfold show_uint in *. destruct (show_digits 20 z []) as [|b l] eqn:E; [by destruct (show_digits_nonempty 19 z)|].
  rewrite plus_absent; [done|]. intros ->. inversion Hd as [|? ? Hb _]; subst. by destruct Hb.
Qed.

(** * Paths (std::path on Unix)

    A path is its bytes, or the list of the components that iterating over them
    gives; the comparison of two paths is that of their components. *)

Definition SLASH : byte := Byte.x2f.

Inductive Component := RootDir | CurDir | ParentDir | Normal (n : bytes).
#[export] Instance Component_eq_dec : EqDecision Component.
Proof. solve_decision. Defined.
Definition path : Type := list Component.

(** [p.parent()]. *)
Definition parent (p : path) : option path :=
  match rev p with [] | RootDir :: _ => None | _ :: up => Some (rev up) end.

(** [p.file_name()]. *)
Definition file_name (p : path) : option bytes := match rev p with Normal n :: _ => Some n | _ => None end.

(** [p.starts_with(base)]. *)
Definition path_starts_with (base p : path) : bool := bool_decide (take (length base) p = base).

(** ** Paths as bytes *)

Definition DOT : bytes := bs ".".
Definition DOTDOT : bytes := bs "..".

(** A part between two separators; empty ones and [.] are skipped. *)
Definition segment (s : bytes) : option Component :=
  if is_nil s || bytes_eqb s DOT then None
  else if bytes_eqb s DOTDOT then Some ParentDir
  else Some (Normal s).

(** [p.is_absolute()]. *)
Definition is_absolute (s : bytes) : bool := first_is SLASH s.

(** [Path::new(s).components()]; only a leading [.] is a component. *)
Definition components (s : bytes) : path :=
  if is_absolute s then RootDir :: omap segment (split_on SLASH s)
  else match split_on SLASH s with
       | [] => []
       | first :: rest => (if bytes_eqb first DOT then [CurDir] else match segment first with Some c => [c] | None => [] end) ++ omap segment rest
       end.

(** [a.join(b)]. *)
Definition path_join (a b : bytes) : bytes :=
  if is_absolute b then b
  else if is_nil a || ends_with [SLASH] a then a ++ b
  else a ++ SLASH :: b.

(** ** Absolute paths without [.] and [..], by their names *)

Definition Abs : Type := list bytes.
Definition abs_bytes (p : Abs) : bytes := SLASH :: join [SLASH] p.
