(* ===== verification/TextFacts.v ===== *)
(** * Characters, words and lines

    What the string operations of [Text] do to text that is put together from
    parts: decoding a concatenation, the words of a line of tokens, trimming,
    and splitting at a separator. *)
From S2P Require Import Prelude Wire Text.

(** ** Characters *)

(** What [lossy_chars] yields: one ASCII byte, or bytes outside ASCII, and
    decoded as itself in front of any text. *)
Record is_char (c : bytes) : Prop := {
  char_front l : lossy_chars (c ++ l) = c :: lossy_chars l;
  char_valid l : utf8_valid (c ++ l) = utf8_valid l;
  char_shape : (∃ b, c = [b] ∧ u8 b < 128) ∨ Forall (λ b, 128 ≤ u8 b) c;
}.

Lemma char_ascii b : u8 b < 128 → is_char [b].
Proof. intros Hb%Z.ltb_lt. split; [intros l; cbn [app lossy_chars utf8_valid]; by rewrite Hb..|]. left. exists b. split; [done|lia]. Qed.

Lemma in_range_spec lo x hi : in_range lo x hi = true ↔ lo ≤ x ≤ hi.
Proof. unfold in_range. rewrite andb_true_iff, !Z.leb_le. done. Qed.

Ltac ranges :=
  repeat match goal with
  | H : in_range _ _ _ = true |- _ => apply in_range_spec in H
  | H : _ && _ = true |- _ => apply andb_true_iff in H as [? ?]
  | H : (_ <? _) = true |- _ => apply Z.ltb_lt in H
  | H : (_ <? _) = false |- _ => apply Z.ltb_ge in H
  end.

Lemma cont_high b : utf8_cont b = true → 128 ≤ u8 b.
Proof. unfold utf8_cont. intros. ranges. lia. Qed.
Lemma second3_high x b : utf8_second3 x b = true → 128 ≤ u8 b.
Proof.
  unfold utf8_second3. destruct (x =? 224); [intros; ranges; lia|].
  destruct (x =? 237); [intros; ranges; lia|apply cont_high].
Qed.
Lemma second4_high x b : utf8_second4 x b = true → 128 ≤ u8 b.
Proof.
  unfold utf8_second4. destruct (x =? 240); [intros; ranges; lia|].
  destruct (x =? 244); [intros; ranges; lia|apply cont_high].
Qed.

Lemma char_two b0 b1 : (u8 b0 <? 128) = false → in_range 194 (u8 b0) 223 = true → utf8_cont b1 = true → is_char [b0; b1].
Proof.
  intros E1 E2 E3. split; [intros l; cbn [app lossy_chars utf8_valid]; by rewrite E1, E2, E3..|].
  right. pose proof (cont_high _ E3). ranges. repeat constructor; lia.
Qed.

Lemma char_three b0 b1 b2 :
  (u8 b0 <? 128) = false → in_range 194 (u8 b0) 223 = false → in_range 224 (u8 b0) 239 = true →
  utf8_second3 (u8 b0) b1 = true → utf8_cont b2 = true → is_char [b0; b1; b2].
Proof.
  intros E1 E2 E3 E4 E5. split; [intros l; cbn [app lossy_chars utf8_valid]; by rewrite E1, E2, E3, E4, E5..|].
  right. pose proof (second3_high _ _ E4). pose proof (cont_high _ E5). ranges. repeat constructor; lia.
Qed.

Lemma char_four b0 b1 b2 b3 :
  (u8 b0 <? 128) = false → in_range 194 (u8 b0) 223 = false → in_range 224 (u8 b0) 239 = false →
  in_range 240 (u8 b0) 244 = true → utf8_second4 (u8 b0) b1 = true → utf8_cont b2 = true → utf8_cont b3 = true →
  is_char [b0; b1; b2; b3].
Proof.
  intros E1 E2 E3 E4 E5 E6 E7.
  split; [intros l; cbn [app lossy_chars utf8_valid]; by rewrite E1, E2, E3, E4, E5, E6, E7..|].
  right. pose proof (second4_high _ _ E5). pose proof (cont_high _ E6). pose proof (cont_high _ E7). ranges.
  repeat constructor; lia.
Qed.

Lemma char_replacement : is_char REPLACEMENT.
Proof. by apply char_three. Qed.

#[local] Hint Resolve char_replacement char_two char_three char_four : core.

Lemma lossy_chars_are_chars l : Forall is_char (lossy_chars l).
Proof.
  induction l as [l IH] using (induction_ltof1 _ (@length byte)). unfold ltof in IH.
  destruct l as [|b0 l1]; cbn [lossy_chars]; [constructor|].
  assert (H1 : Forall is_char (lossy_chars l1)) by (apply IH; cbn; lia).
  destruct (u8 b0 <? 128) eqn:E1; [constructor; [apply char_ascii; lia|done]|].
  destruct (in_range 194 (u8 b0) 223) eqn:E2.
  { destruct l1 as [|b1 l2]; [by constructor|]. destruct (utf8_cont b1) eqn:E; [|by constructor].
    constructor; [auto|apply IH; cbn; lia]. }
  destruct (in_range 224 (u8 b0) 239) eqn:E3.
  { destruct l1 as [|b1 l2]; [by constructor|]. destruct (utf8_second3 (u8 b0) b1) eqn:E; [|by constructor].
    destruct l2 as [|b2 l3]; [by constructor|].
    destruct (utf8_cont b2) eqn:E'; constructor; auto; apply IH; cbn; lia. }
  destruct (in_range 240 (u8 b0) 244) eqn:E4; [|by constructor].
  destruct l1 as [|b1 l2]; [by constructor|]. destruct (utf8_second4 (u8 b0) b1) eqn:E; [|by constructor].
  destruct l2 as [|b2 l3]; [by constructor|]. destruct (utf8_cont b2) eqn:E'; [|constructor; auto; apply IH; cbn; lia].
  destruct l3 as [|b3 l4]; [by constructor|].
  destruct (utf8_cont b3) eqn:E''; constructor; auto; apply IH; cbn; lia.
Qed.

(** Text put together from characters is decoded into them. *)
Lemma lossy_chars_concat cs l : Forall is_char cs → lossy_chars (concat cs ++ l) = cs ++ lossy_chars l.
Proof.
  induction 1 as [|c cs Hc _ IH]; cbn [concat app]; [done|]. by rewrite <- app_assoc, (char_front _ Hc), IH.
Qed.
Lemma utf8_valid_concat cs l : Forall is_char cs → utf8_valid (concat cs ++ l) = utf8_valid l.
Proof.
  induction 1 as [|c cs Hc _ IH]; cbn [concat app]; [done|]. by rewrite <- app_assoc, (char_valid _ Hc), IH.
Qed.

Lemma lossy_chars_app a l : utf8_valid a = true → lossy_chars (a ++ l) = lossy_chars a ++ lossy_chars l.
Proof.
  intros Ha%lossy_chars_valid. rewrite <- Ha at 1. apply lossy_chars_concat, lossy_chars_are_chars.
Qed.
Lemma utf8_valid_app a l : utf8_valid a = true → utf8_valid (a ++ l) = utf8_valid l.
Proof.
  intros Ha%lossy_chars_valid. rewrite <- Ha. apply utf8_valid_concat, lossy_chars_are_chars.
Qed.

Lemma concat_chars_valid cs : Forall is_char cs → utf8_valid (concat cs) = true.
Proof. intros H. by rewrite <- (app_nil_r (concat cs)), utf8_valid_concat. Qed.
Lemma concat_chars cs : Forall is_char cs → lossy_chars (concat cs) = cs.
Proof. intros H. by rewrite <- (app_nil_r (concat cs)), lossy_chars_concat, app_nil_r. Qed.

Lemma char_nonempty c : is_char c → c ≠ [].
Proof. intros H ->. pose proof (char_front _ H []). done. Qed.

(** An ASCII byte of a text is one of its characters. *)
Lemma ascii_in_chars b l : u8 b < 128 → b ∈ concat (lossy_chars l) → [b] ∈ lossy_chars l.
Proof.
  intros Hb Hin. apply list_elem_of_In, in_concat in Hin as (c & Hc%list_elem_of_In & Hbc%list_elem_of_In).
  pose proof (proj1 (list.Forall_forall _ _) (lossy_chars_are_chars l) _ Hc) as [_ _ [(b' & -> & _)|Hh]].
  - apply list_elem_of_singleton in Hbc as ->. done.
  - apply (proj1 (list.Forall_forall _ _) Hh) in Hbc. lia.
Qed.

(** ** Words *)

(** A token of a line: characters, none of them white space. *)
Record token (w : bytes) : Prop := {
  token_nonempty : w ≠ [];
  token_valid : utf8_valid w = true;
  token_solid : Forall (λ c, char_is_whitespace c = false) (lossy_chars w);
}.

Lemma words_solid cs acc rest :
  Forall (λ c, char_is_whitespace c = false) cs → words (cs ++ rest) acc = words rest (acc ++ concat cs).
Proof.
  intros H. revert acc. induction H as [|c cs Hc _ IH]; intros acc; cbn [app words concat]; [by rewrite app_nil_r|].
  by rewrite Hc, IH, <- app_assoc.
Qed.

(** The words of tokens joined by single spaces are the tokens. *)
Lemma split_join_tokens ws : Forall token ws → split_whitespace (join (bs " ") ws) = ws.
Proof.
  intros H. unfold split_whitespace.
  assert (Hw : ∀ w rest, token w → words (lossy_chars w ++ rest) [] = words rest w).
  { intros w rest [_ Hv Hs]. rewrite words_solid by done. cbn [app]. by rewrite lossy_chars_valid. }
  induction H as [|w ws Hwt Hws IH]; [done|]. destruct ws as [|w' ws].
  { cbn [join]. rewrite <- (app_nil_r (lossy_chars w)), Hw by done. cbn [words].
    rewrite (proj2 (bytes_eqb_false w [])); [done|apply Hwt]. }
  change (join (bs " ") (w :: w' :: ws)) with (w ++ bs " " ++ join (bs " ") (w' :: ws)).
  rewrite lossy_chars_app by apply Hwt. rewrite Hw by done.
  change (bs " " ++ ?l) with (Byte.x20 :: l). cbn [lossy_chars words].
  change (u8 Byte.x20 <? 128) with true. cbn iota. cbn [words]. change (char_is_whitespace [Byte.x20]) with true. cbn iota.
  rewrite (proj2 (bytes_eqb_false w [])) by apply Hwt. by rewrite IH.
Qed.

Lemma words_tokens cs acc :
  Forall is_char cs →
  utf8_valid acc = true → Forall (λ c, char_is_whitespace c = false) (lossy_chars acc) →
  Forall token (words cs acc).
Proof.
  intros H. revert acc. induction H as [|c cs Hc _ IH]; intros acc Hv Hs; cbn [words].
  { destruct (bytes_eqb_spec acc []); [constructor|]. by repeat constructor. }
  destruct (char_is_whitespace c) eqn:E.
  { destruct (bytes_eqb_spec acc []); [by apply IH|]. constructor; [done|by apply IH]. }
  pose proof (char_valid _ Hc []) as Hcv. pose proof (char_front _ Hc []) as Hcf. rewrite app_nil_r in Hcv, Hcf.
  apply IH; [by rewrite utf8_valid_app|].
  rewrite lossy_chars_app, Hcf by done. apply Forall_app. split; [done|by repeat constructor].
Qed.

(** Every word of a text is a token. *)
Lemma split_whitespace_tokens s : Forall token (split_whitespace s).
Proof. apply words_tokens; [apply lossy_chars_are_chars|done|constructor]. Qed.

Lemma words_nil_skip cs : words (drop_while char_is_whitespace cs) [] = words cs [].
Proof.
  induction cs as [|c cs IH]; [done|]. cbn [drop_while words].
  destruct (char_is_whitespace c) eqn:E; [done|]. cbn [words]. by rewrite E.
Qed.

Lemma words_blank_end cs bl acc : Forall (λ c, char_is_whitespace c = true) bl → words (cs ++ bl) acc = words cs acc.
Proof.
  intros H. revert acc. induction cs as [|c cs IH]; intros acc; cbn [app words]; [|by rewrite !IH].
  revert acc. induction H as [|b bl Hb _ IH]; intros acc; cbn [words]; [done|]. rewrite Hb, IH. by destruct (bytes_eqb acc []).
Qed.

Lemma drop_while_split {A} (f : A → bool) l :
  ∃ pre, l = pre ++ drop_while f l ∧ Forall (λ x, f x = true) pre ∧
         match drop_while f l with x :: _ => f x = false | [] => True end.
Proof.
  induction l as [|x l (pre & IH1 & IH2 & IH3)]; [by exists []|]. cbn [drop_while].
  destruct (f x) eqn:E; [|by exists []]. exists (x :: pre). cbn [app]. rewrite <- IH1. by repeat constructor.
Qed.

(** The characters [str_trim] leaves: none, or a text whose ends are not blank. *)
Lemma str_trim_chars s :
  ∃ pre mid post, lossy_chars s = pre ++ mid ++ post ∧ Forall (λ c, char_is_whitespace c = true) pre ∧
    Forall (λ c, char_is_whitespace c = true) post ∧ str_trim s = concat mid ∧ Forall is_char mid ∧
    match mid with c :: _ => char_is_whitespace c = false | [] => True end.
Proof.
  destruct (drop_while_split char_is_whitespace (lossy_chars s)) as (pre & E1 & H1 & H2).
  set (cs := drop_while char_is_whitespace (lossy_chars s)) in *.
  destruct (drop_while_split char_is_whitespace (rev cs)) as (post & E2 & H3 & H4).
  exists pre, (rev (drop_while char_is_whitespace (rev cs))), (rev post).
  assert (Ecs : cs = rev (drop_while char_is_whitespace (rev cs)) ++ rev post).
  { rewrite <- rev_app_distr, <- E2, rev_involutive. done. }
  pose proof (lossy_chars_are_chars s) as Hc. rewrite E1, Ecs in Hc. rewrite !Forall_app in Hc.
  split_and!; [by rewrite <- Ecs|done|by apply Forall_rev|done|apply Hc|].
  destruct (rev (drop_while char_is_whitespace (rev cs))) as [|c r] eqn:E; [done|].
  rewrite Ecs in H2. exact H2.
Qed.

(** Trimming does not change the words. *)
Lemma split_whitespace_trim s : split_whitespace (str_trim s) = split_whitespace s.
Proof.
  destruct (str_trim_chars s) as (pre & mid & post & E & H1 & H2 & -> & H3 & _).
  unfold split_whitespace. rewrite concat_chars, E by done. rewrite app_assoc, words_blank_end by done. clear E.
  induction H1 as [|b bl Hb _ IH]; [done|]. cbn [app words]. rewrite Hb. exact IH.
Qed.

Lemma words_acc cs acc : acc ≠ [] → ∃ w ws, words cs acc = (acc ++ w) :: ws.
Proof.
  revert acc. induction cs as [|d cs IH]; intros acc Ha; cbn [words].
  { rewrite (proj2 (bytes_eqb_false _ _) Ha). exists [], []. by rewrite app_nil_r. }
  destruct (char_is_whitespace d).
  { rewrite (proj2 (bytes_eqb_false _ _) Ha). exists []. rewrite app_nil_r. eauto. }
  destruct (IH (acc ++ d)) as (w & ws & ->); [by destruct acc|]. exists (d ++ w), ws. by rewrite app_assoc.
Qed.

(** The trimmed text is empty when there are no words; else it begins as the first word does. *)
Lemma str_trim_words s :
  match split_whitespace s with
  | [] => str_trim s = []
  | w :: _ => ∃ x y r t, str_trim s = x :: t ∧ w = y :: r ∧ x = y
  end.
Proof.
  rewrite <- split_whitespace_trim.
  destruct (str_trim_chars s) as (pre & mid & post & _ & _ & _ & -> & H3 & H4).
  unfold split_whitespace. rewrite concat_chars by done. destruct mid as [|c mid]; [done|].
  inversion H3 as [|? ? Hc _]; subst. pose proof (char_nonempty _ Hc) as Hn.
  cbn [words]. rewrite H4. cbn [app]. destruct (words_acc mid c Hn) as (w & ws & ->). cbn [concat].
  destruct c as [|x c]; [done|]. cbn [app]. eauto 10.
Qed.

(** ** Splitting at a separator *)

Lemma split_on_nonempty sep l : split_on sep l ≠ [].
Proof. destruct l as [|b l]; [done|]. cbn [split_on]. destruct (Byte.eqb b sep); [done|]. by destruct (split_on sep l). Qed.

Lemma byte_eqb_neq (a b : byte) : a ≠ b → Byte.eqb a b = false.
Proof. intros H. apply not_true_is_false. by intros ->%Byte.byte_dec_bl. Qed.
Lemma byte_eqb_refl (a : byte) : Byte.eqb a a = true.
Proof. by apply Byte.byte_dec_lb. Qed.

Lemma split_on_app sep a l : sep ∉ a → split_on sep (a ++ sep :: l) = a :: split_on sep l.
Proof.
  induction a as [|x a IH]; intros Ha; cbn [app split_on]; [by rewrite byte_eqb_refl|].
  apply not_elem_of_cons in Ha as [Hx Ha]. rewrite byte_eqb_neq by done. by rewrite IH.
Qed.
Lemma split_on_none sep a : sep ∉ a → split_on sep a = [a].
Proof.
  induction a as [|x a IH]; intros Ha; cbn [split_on]; [done|].
  apply not_elem_of_cons in Ha as [Hx Ha]. rewrite byte_eqb_neq by done. by rewrite IH.
Qed.

(** The parts hold no separator, and joined they are the text. *)
Lemma split_on_parts sep l : Forall (λ p, sep ∉ p) (split_on sep l).
Proof.
  induction l as [|b l IH]; cbn [split_on]; [repeat constructor; apply not_elem_of_nil|].
  destruct (Byte.eqb b sep) eqn:E; [constructor; [apply not_elem_of_nil|done]|].
  destruct (split_on sep l) as [|p ps]; inversion IH; subst; repeat constructor; try done.
  all: apply not_elem_of_cons; split; [|done || apply not_elem_of_nil].
  all: intros ->; by rewrite byte_eqb_refl in E.
Qed.

Lemma join_split_on sep l : join [sep] (split_on sep l) = l.
Proof.
  induction l as [|b l IH]; [done|]. cbn [split_on].
  destruct (Byte.eqb b sep) eqn:E.
  { apply Byte.byte_dec_bl in E as ->. pose proof (split_on_nonempty sep l).
    destruct (split_on sep l) as [|p ps]; [done|]. cbn [join app] in *. by rewrite IH. }
  pose proof (split_on_nonempty sep l). destruct (split_on sep l) as [|p ps]; [done|].
  cbn [join] in *. destruct ps; [by subst|]. by rewrite <- IH.
Qed.

Lemma split_on_join sep ps : ps ≠ [] → Forall (λ p, sep ∉ p) ps → split_on sep (join [sep] ps) = ps.
Proof.
  intros Hn H. induction H as [|p ps Hp Hps IH]; [done|]. destruct ps as [|q ps]; [by apply split_on_none|].
  change (join [sep] (p :: q :: ps)) with (p ++ sep :: join [sep] (q :: ps)).
  rewrite split_on_app by done. by rewrite IH.
Qed.

Lemma split_on_lines sep ls :
  Forall (λ p, sep ∉ p) ls → split_on sep (concat ((λ l, l ++ [sep]) <$> ls)) = ls ++ [[]].
Proof.
  induction 1 as [|l ls Hl _ IH]; [done|]. cbn [fmap list_fmap concat]. rewrite <- app_assoc. cbn [app].
  by rewrite split_on_app, IH.
Qed.

Lemma split_once_app sep a b : sep ∉ a → split_once sep (a ++ sep :: b) = Some (a, b).
Proof.
  induction a as [|x a IH]; intros Ha; cbn [app split_once]; [by rewrite byte_eqb_refl|].
  apply not_elem_of_cons in Ha as [Hx Ha]. rewrite byte_eqb_neq by done. by rewrite IH.
Qed.

Lemma rsplit_once_app sep a b : sep ∉ b → rsplit_once sep (a ++ sep :: b) = Some (a, b).
Proof.
  intros Hb. unfold rsplit_once. rewrite rev_app_distr. cbn [rev]. rewrite <- app_assoc. cbn [app].
  rewrite split_once_app; [by rewrite !rev_involutive|]. by rewrite list_elem_of_In, <- in_rev, <- list_elem_of_In.
Qed.

Lemma strip_prefix_app p s : strip_prefix p (p ++ s) = Some s.
Proof.
  unfold strip_prefix. rewrite (proj2 (starts_with_spec p (p ++ s))) by (by exists s). by rewrite drop_app_length.
Qed.
Lemma strip_prefix_inv p s t : strip_prefix p s = Some t → s = p ++ t.
Proof.
  unfold strip_prefix. destruct (starts_with p s) eqn:E; [|done]. intros [= <-].
  apply starts_with_spec in E as [t ->]. by rewrite drop_app_length.
Qed.
