(* ===== verification/Glob.v ===== *)
(** * Pattern matching of host names (src/config/glob.rs)

    The iterative [*] / [?] matcher and the [Host] pattern lists.  The loop's
    indices into the two strings are the remaining suffixes; it is compared
    with the declarative meaning of a pattern. *)
From S2P Require Import Prelude Text.

Definition STAR : byte := Byte.x2a.
Definition QUESTION : byte := Byte.x3f.

(** The tail test after the loop: only [*] is left. *)
Fixpoint all_stars (p : bytes) : bool :=
  match p with
  | [] => true
  | c :: p' => Byte.eqb c STAR && all_stars p'
  end.

(** One turn of the [while] loop.  [p] and [n] are [&p[pi..]] and [&n[ni..]];
    [star] is [&p[star_pi + 1..]] with [&n[star_ni..]].  [None] is an
    exhausted [fuel]. *)
Fixpoint glob_loop (fuel : nat) (p n : bytes) (star : option (bytes * bytes)) : option bool :=
  match fuel with
  | O => None
  | S fuel =>
      let back :=
        match star with
        | Some (sp, sn) => glob_loop fuel sp (tail sn) (Some (sp, tail sn))
        | None => Some false
        end in
      match n with
      | [] => Some (all_stars p)
      | d :: n' =>
          match p with
          | c :: p' =>
              if Byte.eqb c QUESTION || Byte.eqb c d then glob_loop fuel p' n' star
              else if Byte.eqb c STAR then glob_loop fuel p' n (Some (p', n))
              else back
          | [] => back
          end
      end
  end.

Definition glob_fuel (p n : bytes) : nat := (length n + 2) * (length p + length n + 1) + 1.

Definition glob_match (pattern name : bytes) : bool :=
  default false (glob_loop (glob_fuel pattern name) pattern name None).

Inductive HostPattern :=
  | Any
  | Positive (g : bytes)
  | Negative (g : bytes).

Definition host_pattern_parse (token : bytes) : HostPattern :=
  match token with
  | c :: rest =>
      if Byte.eqb c Byte.x21 then Negative rest
      else if bytes_eqb token [STAR] then Any else Positive token
  | [] => Positive token
  end.

Fixpoint host_matches_loop (patterns : list HostPattern) (host : bytes) (any_positive positive_hit : bool) : bool :=
  match patterns with
  | [] => any_positive && positive_hit
  | Any :: ps => host_matches_loop ps host true true
  | Positive g :: ps => host_matches_loop ps host true (positive_hit || glob_match g host)
  | Negative g :: ps => if glob_match g host then false else host_matches_loop ps host any_positive positive_hit
  end.

Definition host_matches (patterns : list HostPattern) (host : bytes) : bool :=
  match patterns with [] => false | _ => host_matches_loop patterns host false false end.

(** ** The loop ends *)

Definition star_size (star : option (bytes * bytes)) (n0 : bytes) : nat :=
  match star with Some (_, sn) => length sn | None => S (length n0) end.

(** The remaining suffixes never grow past the strings, and past the last [*]. *)
Definition within (p0 n0 p n : bytes) (star : option (bytes * bytes)) : Prop :=
  (length p ≤ length p0)%nat ∧ (length n ≤ length n0)%nat ∧
  match star with
  | Some (sp, sn) => (length sp ≤ length p0)%nat ∧ (length sn ≤ length n0)%nat ∧ (length n ≤ length sn)%nat
  | None => True
  end.

Lemma glob_loop_total p0 n0 fuel p n star :
  within p0 n0 p n star →
  (star_size star n0 * (length p0 + length n0 + 1) + length p + length n < fuel)%nat →
  is_Some (glob_loop fuel p n star).
Proof.
  revert p n star. induction fuel as [|fuel IH]; intros p n star (Hp & Hn & Hs) Hf; [lia|].
  cbn [glob_loop]. destruct n as [|d n']; [by eexists|].
  assert (Hback : is_Some (match star with
                           | Some (sp, sn) => glob_loop fuel sp (tail sn) (Some (sp, tail sn))
                           | None => Some false end)).
  { destruct star as [[sp sn]|]; [|by eexists]. destruct Hs as (H1 & H2 & H3). cbn [length] in *.
    destruct sn as [|x sn]; cbn [length tail] in *; [lia|]. apply IH.
    - repeat split; lia.
    - cbn [star_size length] in *. nia. }
  destruct p as [|c p']; [done|]. cbn [length] in *.
  destruct (Byte.eqb c QUESTION || Byte.eqb c d).
  { apply IH; [|destruct star as [[]|]; cbn [star_size length] in *; lia].
    repeat split; [lia..|]. destruct star as [[]|]; cbn [length] in *; lia. }
  destruct (Byte.eqb c STAR); [|done].
  apply IH; [repeat split; cbn [length]; lia|]. cbn [star_size length] in *.
  pose proof (Nat.mul_le_mono_r (S (length n')) (star_size star n0) (length p0 + length n0 + 1)).
  destruct star as [[sp sn]|]; cbn [star_size length] in *; lia.
Qed.

Lemma glob_match_loop p n : glob_loop (glob_fuel p n) p n None = Some (glob_match p n).
Proof.
  unfold glob_match. destruct (glob_loop_total p n (glob_fuel p n) p n None) as [b ->]; [|unfold glob_fuel; cbn; lia|done].
  done.
Qed.

(** ** What a pattern means *)

Inductive matches : bytes → bytes → Prop :=
  | match_nil : matches [] []
  | match_char c p n : c ≠ STAR → matches p n → matches (c :: p) (c :: n)
  | match_one d p n : matches p n → matches (QUESTION :: p) (d :: n)
  | match_skip p n : matches p n → matches (STAR :: p) n
  | match_eat d p n : matches (STAR :: p) n → matches (STAR :: p) (d :: n).

#[export] Hint Constructors matches : core.

Definition no_star (l : bytes) : Prop := Forall (λ c, c ≠ STAR) l.

Lemma byte_eqb_spec (a b : byte) : BoolSpec (a = b) (a ≠ b) (Byte.eqb a b).
Proof.
  destruct (Byte.eqb a b) eqn:E; constructor; [by apply Byte.byte_dec_bl|].
  intros ->. by rewrite (Byte.byte_dec_lb eq_refl) in E.
Qed.

Lemma all_stars_matches p : all_stars p = true ↔ matches p [].
Proof.
  induction p as [|c p IH]; cbn [all_stars]; [split; auto|].
  destruct (byte_eqb_spec c STAR) as [->|Hc]; cbn [andb].
  - rewrite IH. split; [auto|]. by inversion 1.
  - split; [done|]. by inversion 1.
Qed.

(** A [*] takes any prefix. *)
Lemma matches_star p n : matches (STAR :: p) n ↔ ∃ y m, n = y ++ m ∧ matches p m.
Proof.
  split.
  - intros H. remember (STAR :: p) as q eqn:E.
    induction H as [| | |p' n H IH|d p' n H IH]; simplify_eq.
    + by exists [], n.
    + destruct (IH eq_refl) as (y & m & -> & Hm). by exists (d :: y), m.
  - intros (y & m & -> & Hm). induction y as [|d y IH]; cbn [app]; auto.
Qed.

Lemma matches_star_inv p n : matches (STAR :: p) n → matches p n ∨ matches (STAR :: p) (tail n).
Proof. inversion 1; subst; auto. Qed.

(** A segment without [*] takes as many bytes as it has. *)
Lemma matches_segment x p n :
  no_star x → matches (x ++ p) n → ∃ y m, n = y ++ m ∧ length y = length x ∧ matches p m.
Proof.
  intros Hx. revert n. induction Hx as [|c x Hc _ IH]; intros n H; [by exists [], n|].
  cbn [app] in H. inversion H as [|? ? n' ? H'|d ? n' H'| |]; subst; try done;
    destruct (IH _ H') as (y & m & -> & Hl & Hm); eexists (_ :: y), m; cbn; split_and!; auto.
Qed.

Lemma matches_cons c p d n : c ≠ STAR → d ≠ STAR →
  matches (c :: p) (d :: n) ↔ (Byte.eqb c QUESTION || Byte.eqb c d = true) ∧ matches p n.
Proof.
  intros Hc Hd. split.
  - inversion 1; subst; try congruence; (split; [|assumption]); [|done].
    by rewrite (Byte.byte_dec_lb (x:=d) eq_refl), orb_true_r.
  - intros [E H]. apply orb_prop in E as [->%Byte.byte_dec_bl| ->%Byte.byte_dec_bl]; auto.
Qed.

(** ** The loop decides the meaning *)

(** What the last [*] has recorded: since then a segment without [*] has taken
    as many bytes as it has. *)
Definition recorded (p n : bytes) (star : option (bytes * bytes)) : Prop :=
  match star with
  | Some (sp, sn) => no_star sn ∧ ∃ x y, sp = x ++ p ∧ sn = y ++ n ∧ length x = length y ∧ no_star x
  | None => True
  end.

(** What can still match: here, or with the last [*] taking one byte more. *)
Definition can_match (p n : bytes) (star : option (bytes * bytes)) : Prop :=
  matches p n ∨ match star with Some (sp, sn) => matches (STAR :: sp) (tail sn) | None => False end.

Lemma recorded_self p n : no_star n → recorded p n (Some (p, n)).
Proof. split; [done|]. exists [], []. split_and!; [done..|constructor]. Qed.

Lemma later_star p' n sp sn x y :
  sp = x ++ STAR :: p' → sn = y ++ n → length x = length y → no_star x →
  matches (STAR :: sp) (tail sn) → matches (STAR :: p') n.
Proof.
  intros -> -> Hl Hx (z & m & Ht & Hm)%matches_star.
  apply matches_segment in Hm as (y' & m' & -> & Hl' & Hm); [|done].
  apply matches_star in Hm as (w & v & -> & Hv). apply matches_star.
  assert (E : ∃ u, n = u ++ w ++ v).
  { destruct y as [|d y]; cbn [app tail] in Ht.
    - destruct x; [|done]. destruct y'; [|done]. destruct n as [|d n]; cbn [tail] in Ht.
      + exists []. by destruct z, w.
      + exists (d :: z). cbn. by rewrite Ht.
    - cbn [length] in Hl. exists (drop (length y) (z ++ y')).
      assert (L : (length y ≤ length (z ++ y'))%nat) by (rewrite length_app; lia).
      rewrite <- (drop_app_length y n), Ht, (assoc_L (++) z), drop_app_le by done. done. }
  destruct E as [u ->]. exists (u ++ w), v. by rewrite <- app_assoc.
Qed.

(** At the end of the name the last [*] cannot take one byte more. *)
Lemma no_later_star p star :
  recorded p [] star → can_match p [] star → matches p [].
Proof.
  intros Hr [H|H]; [done|]. destruct star as [[sp sn]|]; [|done].
  destruct Hr as (_ & x & y & -> & -> & Hl & Hx). rewrite app_nil_r in H.
  apply matches_star in H as (z & m & Ht & Hm).
  apply matches_segment in Hm as (y' & m' & -> & Hl' & Hm); [|done].
  apply (f_equal length) in Ht. rewrite !length_app in Ht.
  destruct y as [|e y]; cbn in Ht, Hl; [|lia].
  assert (m' = []) as -> by (destruct m'; [done|cbn in Ht; lia]). done.
Qed.

Lemma glob_loop_spec fuel p n star b :
  no_star n → recorded p n star → glob_loop fuel p n star = Some b → b = true ↔ can_match p n star.
Proof.
  revert p n star. induction fuel as [|fuel IH]; intros p n star Hn Hr; [done|].
  cbn [glob_loop]. destruct n as [|d n'].
  { intros [= <-]. rewrite all_stars_matches. split; [by left|by apply no_later_star]. }
  assert (Hd : d ≠ STAR ∧ no_star n') by (by inversion Hn). destruct Hd as [Hd Hn'].
  assert (Hback : ¬ matches p (d :: n') →
    match star with Some (sp, sn) => glob_loop fuel sp (tail sn) (Some (sp, tail sn)) | None => Some false end = Some b →
    b = true ↔ can_match p (d :: n') star).
  { intros Hno. destruct star as [[sp sn]|]; [|intros [= <-]; split; [done|by intros [?|?]]].
    destruct Hr as (Hsn & _). assert (Ht : no_star (tail sn)) by (destruct sn; [done|by inversion Hsn]).
    intros E. apply IH in E; [|done|by apply recorded_self].
    rewrite E. unfold can_match. split.
    - intros [H|H]; right; [by apply match_skip|].
      apply matches_star in H as (z & m & Hz & Hm). apply matches_star.
      destruct (tail sn) as [|e t]; cbn [tail] in Hz; [by exists z, m|]. exists (e :: z), m. by rewrite Hz.
    - intros [?|H]; [done|]. by apply matches_star_inv. }
  destruct p as [|c p']; [apply Hback; by inversion 1|].
  destruct (byte_eqb_spec c STAR) as [->|Hc].
  - replace (Byte.eqb STAR QUESTION || Byte.eqb STAR d) with false
      by (destruct (byte_eqb_spec STAR d); done). intros E.
    apply IH in E; [|by constructor|by apply recorded_self; constructor].
    rewrite E. unfold can_match. cbn [tail]. split.
    + intros [H|H]; left; auto.
    + intros [H|H]; [by apply matches_star_inv in H|].
      destruct star as [[sp sn]|]; [|done]. destruct Hr as (_ & x & y & Ex & Ey & Hl & Hx).
      pose proof (later_star p' (d :: n') sp sn x y Ex Ey Hl Hx H) as H'.
      by apply matches_star_inv in H'.
  - destruct (Byte.eqb c QUESTION || Byte.eqb c d) eqn:Eq.
    + intros E. apply IH in E; [|done|].
      * rewrite E. unfold can_match. rewrite matches_cons by done. rewrite Eq. clear. tauto.
      * destruct star as [[sp sn]|]; [|done]. destruct Hr as (Hsn & x & y & -> & -> & Hl & Hx).
        split; [done|]. exists (x ++ [c]), (y ++ [d]). rewrite <- !app_assoc, !length_app.
        split_and!; [done..|cbn; lia|]. apply Forall_app; split; [done|by constructor].
    + apply Hback. rewrite matches_cons by done. rewrite Eq. by intros [? _].
Qed.

(** For every pattern and every name without a literal [*], the iterative
    matcher answers exactly as the meaning of the pattern prescribes: [?] takes
    one byte, [*] any number, every other byte itself.  The loop always ends
    within its fuel. *)
Theorem glob_match_spec p n : no_star n → glob_match p n = true ↔ matches p n.
Proof.
  intros Hn. rewrite (glob_loop_spec _ p n None _ Hn I (glob_match_loop p n)). unfold can_match. tauto.
Qed.

Lemma glob_match_spec_witness :
  glob_match (bs "*.ex?mple.*") (bs "git.example.com") = true ↔ matches (bs "*.ex?mple.*") (bs "git.example.com").
Proof. apply glob_match_spec. repeat (constructor; [done|]). constructor. Defined.

(** A name that begins with [*] and goes on is not matched by the pattern
    [*], which matches every name: the loop compares the two bytes as literals
    before it looks for a wildcard. *)
Theorem glob_star_literal d n :
  glob_match [STAR] (STAR :: d :: n) = false ∧ matches [STAR] (STAR :: d :: n).
Proof.
  split; [|apply matches_star; exists (STAR :: d :: n), []; rewrite app_nil_r; auto].
  unfold glob_match, glob_fuel. cbn [length Nat.add Nat.mul glob_loop]. done.
Qed.

(** ** Pattern lists *)

Definition positive_match (h : bytes) (p : HostPattern) : Prop :=
  match p with Any => True | Positive g => glob_match g h = true | Negative _ => False end.
Definition negative_match (h : bytes) (p : HostPattern) : Prop :=
  match p with Negative g => glob_match g h = true | _ => False end.

Lemma host_matches_loop_spec ps h a hit :
  (hit = true → a = true) →
  host_matches_loop ps h a hit = true ↔
    (hit = true ∨ Exists (positive_match h) ps) ∧ ¬ Exists (negative_match h) ps.
Proof.
  revert a hit. induction ps as [|q ps IH]; intros a hit Ha; cbn [host_matches_loop].
  { rewrite andb_true_iff, !Exists_nil. naive_solver. }
  rewrite !Exists_cons. destruct q as [|g|g]; cbn [positive_match negative_match].
  - rewrite IH by done. naive_solver.
  - rewrite IH by done. rewrite orb_true_iff. naive_solver.
  - destruct (glob_match g h) eqn:E; [naive_solver|]. rewrite IH by done. naive_solver.
Qed.

(** A list matches a host when some positive pattern does and no negated one does. *)
Lemma host_matches_spec ps h :
  host_matches ps h = true ↔ Exists (positive_match h) ps ∧ ¬ Exists (negative_match h) ps.
Proof.
  unfold host_matches. destruct ps as [|q ps]; [rewrite Exists_nil; naive_solver|].
  rewrite host_matches_loop_spec by done. naive_solver.
Qed.
