(* ===== verification/Base64.v ===== *)
(** * Base64 (src/key/base64.rs)

    The decoder of key files and the encoder of key lines. *)
From S2P Require Import Prelude.

Definition ALPHABET : bytes := bs "ABCDEFGHIJKLMNOPQRSTUVWXYZabcdefghijklmnopqrstuvwxyz0123456789+/".
Definition INVALID : Z := 255.
Definition PADDING : Z := 254.
Definition PAD : byte := Byte.x3d.

(** The position of [c] in [l], counted from [i]. *)
Fixpoint index_from (c : byte) (l : bytes) (i : Z) : option Z :=
  match l with
  | [] => None
  | x :: l' => if Byte.eqb x c then Some i else index_from c l' (i + 1)
  end.

(** [TABLE[c]], as [build_table] fills it. *)
Definition TABLE (c : byte) : Z :=
  if Byte.eqb c PAD then PADDING else default INVALID (index_from c ALPHABET 0).

(** [b' ' | b'\r' | b'\n' | b'\t'] *)
Definition skipped (c : byte) : bool :=
  match c with Byte.x20 | Byte.x0d | Byte.x0a | Byte.x09 => true | _ => false end.

Definition byte0 (b0 b1 : Z) : byte := byte_of_Z (Z.lor (Z.shiftl b0 2) (Z.shiftr b1 4)).
Definition byte1 (b1 b2 : Z) : byte := byte_of_Z (Z.lor (Z.shiftl b1 4) (Z.shiftr b2 2)).
Definition byte2 (b2 b3 : Z) : byte := byte_of_Z (Z.lor (Z.shiftl b2 6) b3).

(** The final [match n]: [buf] holds the [n] values of the last group. *)
Definition decode_tail (buf : list Z) (out : bytes) : result bytes :=
  match buf with
  | [] => Ok out
  | [b0; b1] => Ok (out ++ [byte0 b0 b1])
  | [b0; b1; b2] => Ok (out ++ [byte0 b0 b1; byte1 b1 b2])
  | _ => Err (Format "base64: truncated group")
  end.

Fixpoint decode_loop (input : bytes) (buf : list Z) (padding : Z) (out : bytes) : result bytes :=
  match input with
  | [] => decode_tail buf out
  | c :: input =>
      if skipped c then decode_loop input buf padding out else
      let v := TABLE c in
      if v =? INVALID then Err (Format "base64: invalid character") else
      let? (padding, v) :=
        (if v =? PADDING then
           if 2 <? padding + 1 then Err (Format "base64: too much padding") else Ok (padding + 1, 0)
         else if negb (padding =? 0) then Err (Format "base64: data after padding") else Ok (padding, v)) in
      match buf ++ [v] with
      | [b0; b1; b2; b3] =>
          let out := out ++ [byte0 b0 b1] ++ (if padding <? 2 then [byte1 b1 b2] else [])
                         ++ (if padding <? 1 then [byte2 b2 b3] else []) in
          if negb (padding =? 0) then decode_tail [] out else decode_loop input [] padding out
      | buf => decode_loop input buf padding out
      end
  end.

Definition base64_decode (input : bytes) : result bytes := decode_loop input [] 0 [].

(** [ALPHABET[((n >> shift) & 0x3f) as usize]] *)
Definition sextet (n shift : Z) : byte := nth (Z.to_nat (Z.land (Z.shiftr n shift) 63)) ALPHABET Byte.x00.

Fixpoint base64_encode (input : bytes) : bytes :=
  match input with
  | [] => []
  | [a] => let n := Z.shiftl (u8 a) 16 in [sextet n 18; sextet n 12; PAD; PAD]
  | [a; b] =>
      let n := Z.lor (Z.shiftl (u8 a) 16) (Z.shiftl (u8 b) 8) in
      [sextet n 18; sextet n 12; sextet n 6; PAD]
  | a :: b :: c :: rest =>
      let n := Z.lor (Z.lor (Z.shiftl (u8 a) 16) (Z.shiftl (u8 b) 8)) (u8 c) in
      sextet n 18 :: sextet n 12 :: sextet n 6 :: sextet n 0 :: base64_encode rest
  end.

(** ** Encoding and decoding are inverse *)

Lemma lor_shiftl_add x k y : 0 ≤ k → 0 ≤ y < 2 ^ k → Z.lor (Z.shiftl x k) y = x * 2 ^ k + y.
Proof.
  intros Hk Hy.
  assert (D : Z.land (Z.shiftl x k) y = 0).
  { apply Z.bits_inj'; intros i Hi. rewrite Z.land_spec, Z.bits_0.
    destruct (Z.ltb_spec i k); [by rewrite Z.shiftl_spec_low|].
    destruct (Z.eq_dec y 0) as [->|]; [by rewrite Z.bits_0, andb_false_r|].
    rewrite (Z.bits_above_log2 y i), andb_false_r; [done|lia|].
    pose proof (proj1 (Z.log2_lt_pow2 y k ltac:(lia)) ltac:(lia)). lia. }
  rewrite <- Z.lxor_lor, <- Z.add_nocarry_lxor, Z.shiftl_mul_pow2 by done. done.
Qed.

Lemma sextet_table n shift : TABLE (sextet n shift) = Z.land (Z.shiftr n shift) 63 ∧ skipped (sextet n shift) = false.
Proof.
  unfold sextet. change 63 with (Z.ones 6). rewrite Z.land_ones by done.
  pose proof (Z.mod_pos_bound (Z.shiftr n shift) (2 ^ 6) ltac:(done)) as H.
  generalize dependent (Z.shiftr n shift mod 2 ^ 6). intros v H. change (2 ^ 6) with 64 in H.
  assert (E : forallb (λ i : nat, (TABLE (nth i ALPHABET Byte.x00) =? Z.of_nat i) && negb (skipped (nth i ALPHABET Byte.x00)))
                (seq 0 64) = true) by (by vm_compute).
  rewrite forallb_forall in E. specialize (E (Z.to_nat v)).
  assert (Hin : In (Z.to_nat v) (seq 0 64)) by (apply in_seq; lia).
  specialize (E Hin). zbool. split; [lia|done].
Qed.

(** The six-bit group of [n] at [shift]. *)
Definition six (n shift : Z) : Z := (n / 2 ^ shift) mod 64.

Lemma land_six n shift : 0 ≤ shift → Z.land (Z.shiftr n shift) 63 = six n shift.
Proof. intros. change 63 with (Z.ones 6). by rewrite Z.land_ones, Z.shiftr_div_pow2. Qed.

(** One character of the alphabet in front of the loop. *)
Lemma decode_sextet n shift input buf out :
  0 ≤ shift → (length buf < 3)%nat →
  decode_loop (sextet n shift :: input) buf 0 out = decode_loop input (buf ++ [six n shift]) 0 out.
Proof.
  intros Hs Hb. destruct (sextet_table n shift) as [Ht Hk]. cbn [decode_loop].
  rewrite Hk, Ht, land_six by done.
  pose proof (Z.mod_pos_bound (n / 2 ^ shift) 64 ltac:(done)) as Hr. fold (six n shift) in Hr.
  rewrite !(proj2 (Z.eqb_neq _ _)) by (unfold INVALID, PADDING; lia). cbn [negb Z.eqb].
  destruct buf as [|x [|y [|z [|]]]]; cbn [app length] in *; done || lia.
Qed.

Lemma decode_group n rest out :
  decode_loop (sextet n 18 :: sextet n 12 :: sextet n 6 :: sextet n 0 :: rest) [] 0 out =
  decode_loop rest [] 0
    (out ++ [byte0 (six n 18) (six n 12); byte1 (six n 12) (six n 6); byte2 (six n 6) (six n 0)]).
Proof.
  rewrite !decode_sextet by (cbn; lia). cbn [app].
  destruct (sextet_table n 0) as [Ht Hk]. cbn [decode_loop]. rewrite Hk, Ht, land_six by done.
  pose proof (Z.mod_pos_bound (n / 2 ^ 0) 64 ltac:(done)) as Hr. fold (six n 0) in Hr.
  by rewrite !(proj2 (Z.eqb_neq _ _)) by (unfold INVALID, PADDING; lia).
Qed.

Lemma byte_of_Z_eq z b : z mod 256 = u8 b → byte_of_Z z = b.
Proof. intros E. apply u8_inj. by rewrite u8_byte_of_Z. Qed.

Lemma join_bytes (a b c : byte) n :
  n = u8 a * 65536 + u8 b * 256 + u8 c →
  byte0 (six n 18) (six n 12) = a ∧ byte1 (six n 12) (six n 6) = b ∧ byte2 (six n 6) (six n 0) = c.
Proof.
  intros ->. pose proof (u8_range a). pose proof (u8_range b). pose proof (u8_range c).
  unfold byte0, byte1, byte2, six. rewrite !Z.shiftr_div_pow2 by done.
  change (2 ^ 18) with 262144. change (2 ^ 12) with 4096. change (2 ^ 6) with 64. change (2 ^ 0) with 1.
  change (2 ^ 4) with 16. change (2 ^ 2) with 4.
  rewrite !lor_shiftl_add; [|lia|..]; change (2 ^ 2) with 4; change (2 ^ 4) with 16; change (2 ^ 6) with 64.
  all: repeat split.
  all: try (apply byte_of_Z_eq); Z.to_euclidean_division_equations; lia.
Qed.

Lemma encode_three a b c rest out :
  decode_loop (base64_encode (a :: b :: c :: rest)) [] 0 out = decode_loop (base64_encode rest) [] 0 (out ++ [a; b; c]).
Proof.
  cbn [base64_encode]. set (n := Z.lor _ _). rewrite decode_group.
  destruct (join_bytes a b c n) as (-> & -> & ->); [|done]. subst n.
  pose proof (u8_range b). pose proof (u8_range c).
  rewrite <- Z.lor_assoc, (lor_shiftl_add (u8 b) 8), lor_shiftl_add by lia. lia.
Qed.

Lemma decode_encode input out : decode_loop (base64_encode input) [] 0 out = Ok (out ++ input).
Proof.
  revert out. induction input as [input IH] using (induction_ltof1 _ (@length byte)). unfold ltof in IH. intros out.
  destruct input as [|a [|b [|c rest]]].
  - by rewrite app_nil_r.
  - cbn [base64_encode]. rewrite !decode_sextet by (cbn; lia). cbn [app].
    destruct (join_bytes a Byte.x00 Byte.x00 (Z.shiftl (u8 a) 16)) as (E & _ & _).
    { rewrite Z.shiftl_mul_pow2 by done. change (u8 Byte.x00) with 0. lia. }
    change (decode_loop _ _ _ _) with (Ok (out ++ [byte0 (six (Z.shiftl (u8 a) 16) 18) (six (Z.shiftl (u8 a) 16) 12)])).
    by rewrite E.
  - cbn [base64_encode]. rewrite !decode_sextet by (cbn; lia). cbn [app]. set (n := Z.lor _ _).
    destruct (join_bytes a b Byte.x00 n) as (E0 & E1 & _).
    { subst n. pose proof (u8_range b). rewrite lor_shiftl_add by (rewrite ?Z.shiftl_mul_pow2; lia).
      rewrite Z.shiftl_mul_pow2 by done. change (u8 Byte.x00) with 0. lia. }
    change (decode_loop _ _ _ _) with (Ok (out ++ [byte0 (six n 18) (six n 12); byte1 (six n 12) (six n 6)])).
    by rewrite E0, E1.
  - rewrite encode_three, IH by (cbn; lia). by rewrite <- app_assoc.
Qed.

(** What is encoded decodes to itself. *)
Lemma base64_roundtrip input : base64_decode (base64_encode input) = Ok input.
Proof. apply (decode_encode input []). Qed.

(** After a complete padded group the decoder stops: whatever follows is
    neither decoded nor rejected, although data after padding is an error. *)
Theorem base64_trailing_ignored a b t : base64_decode (base64_encode [a; b] ++ t) = Ok [a; b].
Proof.
  pose proof (base64_roundtrip [a; b]) as H. unfold base64_decode in *. revert H.
  cbn [base64_encode app]. rewrite !decode_sextet by (cbn; lia). cbn [app]. intros <-. done.
Qed.
