(* ===== verification/ChannelMsg.v ===== *)
(** * Connection-protocol messages (src/hazmat/channel: msg.rs, global.rs,
    request.rs and the [ChannelOpen] codec of state.rs)

    Each request family is a Module with its enum [t], the wire name of a
    variant, the encoder of its type-specific tail and the decoder; [wf]
    collects what Rust's types guarantee of the fields. *)
From S2P Require Import Prelude Wire Text.

(** ** Message numbers (msg.rs) *)

Definition MSG_GLOBAL_REQUEST := 80.
Definition MSG_REQUEST_SUCCESS := 81.
Definition MSG_REQUEST_FAILURE := 82.
Definition MSG_CHANNEL_OPEN := 90.
Definition MSG_CHANNEL_OPEN_CONFIRMATION := 91.
Definition MSG_CHANNEL_OPEN_FAILURE := 92.
Definition MSG_CHANNEL_WINDOW_ADJUST := 93.
Definition MSG_CHANNEL_DATA := 94.
Definition MSG_CHANNEL_EXTENDED_DATA := 95.
Definition MSG_CHANNEL_EOF := 96.
Definition MSG_CHANNEL_CLOSE := 97.
Definition MSG_CHANNEL_REQUEST := 98.
Definition MSG_CHANNEL_SUCCESS := 99.
Definition MSG_CHANNEL_FAILURE := 100.
Definition SSH_OPEN_RESOURCE_SHORTAGE := 4.

(** The [read_utf8] helpers: a [string] that must be UTF-8. *)
Definition read_utf8_or (e : Error) (r : Reader) : result (bytes * Reader) :=
  let? (b, r) := read_string r in
  let? s := from_utf8 e b in
  Ok (s, r).

(** A Rust [String] short enough for a [string] field. *)
Definition is_str (s : bytes) : Prop := utf8_valid s = true ∧ is_u32 (len s).

Lemma read_utf8_at e pre s post :
  fits_mem (pre ++ be_bytes 4 (wrap32 (len s)) ++ s ++ post) → is_str s →
  read_utf8_or e (reader_at pre (be_bytes 4 (wrap32 (len s)) ++ s ++ post)) =
    Ok (s, reader_at (pre ++ be_bytes 4 (wrap32 (len s)) ++ s) post).
Proof.
  intros Hm [Hu Hl]. unfold read_utf8_or. rewrite read_string_at by done.
  by rewrite from_utf8_ok.
Qed.
#[export] Hint Rewrite read_utf8_at using (first [solve_mem | assumption]) : wire.

Lemma read_utf8_inv e pre post s r' :
  read_utf8_or e (reader_at pre post) = Ok (s, r') →
  ∃ post', post = be_bytes 4 (len s) ++ s ++ post' ∧ is_str s ∧
    r' = reader_at (pre ++ be_bytes 4 (len s) ++ s) post'.
Proof.
  unfold read_utf8_or. destruct (read_string _) as [[b r]|] eqn:E; [|done].
  apply read_string_inv in E as (post' & -> & Hl & ->).
  destruct (from_utf8 e b) as [s'|] eqn:Eu; [|done].
  apply from_utf8_inv in Eu as [-> Hu]. intros [= <- <-].
  exists post'. split; [done|]. split; [by split|done].
Qed.

(** Evaluates comparisons between literals. *)
Ltac eqb_literals :=
  repeat match goal with
  | |- context [bytes_eqb (bs ?a) (bs ?b)] =>
      let v := eval vm_compute in (bytes_eqb (bs a) (bs b)) in
      change (bytes_eqb (bs a) (bs b)) with v; cbn match
  end.

(** [nm] is none of the names the decoder compares it with. *)
Ltac unknown_name nm :=
  repeat match goal with
  | |- context [bytes_eqb nm ?x] => destruct (bytes_eqb_spec nm x) as [->|_]; [set_solver|]
  end.

(** Reads an encoded buffer back, field by field. *)
Ltac read_back :=
  rewrite reader_new_end; app_norm;
  repeat (first
    [ rewrite read_u32_at by (first [solve_mem | assumption | width_lia])
    | rewrite read_string_nil_at by solve_mem
    | rewrite read_bool_at by solve_mem
    | rewrite read_utf8_at by (first [solve_mem | assumption])
    | rewrite read_string_at by (first [solve_mem | assumption]) ];
    cbn beta iota).

(** ** Global requests (global.rs) *)

Module GlobalRequest.

Inductive t :=
  | TcpipForward (bind_address : bytes) (bind_port : Z)
  | CancelTcpipForward (bind_address : bytes) (bind_port : Z)
  | StreamlocalForward (socket_path : bytes)
  | CancelStreamlocalForward (socket_path : bytes)
  | Keepalive
  | Other (name raw : bytes)
  | NoMoreSessions.

Definition name (g : t) : bytes :=
  match g with
  | TcpipForward _ _ => bs "tcpip-forward"
  | CancelTcpipForward _ _ => bs "cancel-tcpip-forward"
  | StreamlocalForward _ => bs "streamlocal-forward@openssh.com"
  | CancelStreamlocalForward _ => bs "cancel-streamlocal-forward@openssh.com"
  | Keepalive => bs "keepalive@openssh.com"
  | NoMoreSessions => bs "no-more-sessions@openssh.com"
  | Other name _ => name
  end.

Definition encode (g : t) (w : Writer) : Writer :=
  match g with
  | TcpipForward bind_address bind_port
  | CancelTcpipForward bind_address bind_port =>
      w |>> write_string bind_address |>> write_u32 bind_port
  | StreamlocalForward socket_path
  | CancelStreamlocalForward socket_path => w |>> write_string socket_path
  | Keepalive | NoMoreSessions => w
  | Other _ raw => w |>> write_raw raw
  end.

Definition read_utf8 := read_utf8_or (Format "invalid utf-8 in global request").

Definition decode (nm body : bytes) : result t :=
  let r := reader_new body in
  if bytes_eqb nm (bs "tcpip-forward") then
    let? (bind_address, r) := read_utf8 r in
    let? (bind_port, _) := read_u32 r in
    Ok (TcpipForward bind_address bind_port)
  else if bytes_eqb nm (bs "cancel-tcpip-forward") then
    let? (bind_address, r) := read_utf8 r in
    let? (bind_port, _) := read_u32 r in
    Ok (CancelTcpipForward bind_address bind_port)
  else if bytes_eqb nm (bs "streamlocal-forward@openssh.com") then
    let? (socket_path, _) := read_utf8 r in
    Ok (StreamlocalForward socket_path)
  else if bytes_eqb nm (bs "cancel-streamlocal-forward@openssh.com") then
    let? (socket_path, _) := read_utf8 r in
    Ok (CancelStreamlocalForward socket_path)
  else if bytes_eqb nm (bs "keepalive@openssh.com") then Ok Keepalive
  else if bytes_eqb nm (bs "no-more-sessions@openssh.com") then Ok NoMoreSessions
  else Ok (Other nm body).

Definition known_names : list bytes :=
  [bs "tcpip-forward"; bs "cancel-tcpip-forward"; bs "streamlocal-forward@openssh.com";
   bs "cancel-streamlocal-forward@openssh.com"; bs "keepalive@openssh.com";
   bs "no-more-sessions@openssh.com"].

(** The types of the fields, and that [Other] is only used for a name of its
    own. *)
Definition wf (g : t) : Prop :=
  match g with
  | TcpipForward a p | CancelTcpipForward a p => is_str a ∧ is_u32 p
  | StreamlocalForward s | CancelStreamlocalForward s => is_str s
  | Keepalive | NoMoreSessions => True
  | Other nm _ => is_str nm ∧ nm ∉ known_names
  end.

Lemma global_decode_encode g :
  wf g → fits_mem (into_vec (encode g writer_new)) →
  decode (name g) (into_vec (encode g writer_new)) = Ok g.
Proof.
  unfold decode, read_utf8.
  destruct g as [a p|a p|s|s| |nm raw|]; cbn [name encode wf]; intros Hwf Hm;
    eqb_literals; try done.
  - destruct Hwf as [Ha Hp]. revert Hm. writer_norm. intros Hm. read_back. done.
  - destruct Hwf as [Ha Hp]. revert Hm. writer_norm. intros Hm. read_back. done.
  - revert Hm. writer_norm. intros Hm. read_back. done.
  - revert Hm. writer_norm. intros Hm. read_back. done.
  - destruct Hwf as [_ Hn]. unfold known_names in Hn.
    unknown_name nm. writer_norm. done.
Qed.

End GlobalRequest.

(** ** Channel requests (request.rs) *)

Module ChannelRequest.

Inductive t :=
  | PtyReq (term : bytes) (cols rows px_w px_h : Z) (modes : bytes)
  | Shell
  | Exec (command : bytes)
  | Subsystem (name : bytes)
  | Env (name value : bytes)
  | WindowChange (cols rows px_w px_h : Z)
  | Signal (name : bytes)
  | ExitStatus (code : Z)
  | ExitSignal (name : bytes) (core_dumped : bool) (message language : bytes)
  | AuthAgentReq
  | X11Req (single_connection : bool) (auth_protocol auth_cookie : bytes) (screen : Z)
  | Other (name raw : bytes).

Definition name (c : t) : bytes :=
  match c with
  | PtyReq _ _ _ _ _ _ => bs "pty-req"
  | Shell => bs "shell"
  | Exec _ => bs "exec"
  | Subsystem _ => bs "subsystem"
  | Env _ _ => bs "env"
  | WindowChange _ _ _ _ => bs "window-change"
  | Signal _ => bs "signal"
  | ExitStatus _ => bs "exit-status"
  | ExitSignal _ _ _ _ => bs "exit-signal"
  | AuthAgentReq => bs "auth-agent-req@openssh.com"
  | X11Req _ _ _ _ => bs "x11-req"
  | Other name _ => name
  end.

Definition encode (c : t) (w : Writer) : Writer :=
  match c with
  | PtyReq term cols rows px_w px_h modes =>
      w |>> write_string term |>> write_u32 cols |>> write_u32 rows
        |>> write_u32 px_w |>> write_u32 px_h |>> write_string modes
  | Shell => w
  | Exec command => w |>> write_string command
  | Subsystem name => w |>> write_string name
  | Env name value => w |>> write_string name |>> write_string value
  | WindowChange cols rows px_w px_h =>
      w |>> write_u32 cols |>> write_u32 rows |>> write_u32 px_w |>> write_u32 px_h
  | Signal name => w |>> write_string name
  | ExitStatus code => w |>> write_u32 code
  | ExitSignal name core_dumped message language =>
      w |>> write_string name |>> write_bool core_dumped
        |>> write_string message |>> write_string language
  | AuthAgentReq => w
  | X11Req single_connection auth_protocol auth_cookie screen =>
      w |>> write_bool single_connection |>> write_string auth_protocol
        |>> write_string auth_cookie |>> write_u32 screen
  | Other _ raw => w |>> write_raw raw
  end.

Definition read_utf8 := read_utf8_or (Format "invalid utf-8 in channel request").

Definition decode (nm body : bytes) : result t :=
  let r := reader_new body in
  if bytes_eqb nm (bs "pty-req") then
    let? (term, r) := read_utf8 r in
    let? (cols, r) := read_u32 r in
    let? (rows, r) := read_u32 r in
    let? (px_w, r) := read_u32 r in
    let? (px_h, r) := read_u32 r in
    let? (modes, _) := read_string r in
    Ok (PtyReq term cols rows px_w px_h modes)
  else if bytes_eqb nm (bs "shell") then Ok Shell
  else if bytes_eqb nm (bs "exec") then
    let? (command, _) := read_utf8 r in Ok (Exec command)
  else if bytes_eqb nm (bs "subsystem") then
    let? (name, _) := read_utf8 r in Ok (Subsystem name)
  else if bytes_eqb nm (bs "env") then
    let? (name, r) := read_utf8 r in
    let? (value, _) := read_utf8 r in
    Ok (Env name value)
  else if bytes_eqb nm (bs "window-change") then
    let? (cols, r) := read_u32 r in
    let? (rows, r) := read_u32 r in
    let? (px_w, r) := read_u32 r in
    let? (px_h, _) := read_u32 r in
    Ok (WindowChange cols rows px_w px_h)
  else if bytes_eqb nm (bs "signal") then
    let? (name, _) := read_utf8 r in Ok (Signal name)
  else if bytes_eqb nm (bs "exit-status") then
    let? (code, _) := read_u32 r in Ok (ExitStatus code)
  else if bytes_eqb nm (bs "exit-signal") then
    let? (name, r) := read_utf8 r in
    let? (core_dumped, r) := read_bool r in
    let? (message, r) := read_utf8 r in
    let? (language, _) := read_utf8 r in
    Ok (ExitSignal name core_dumped message language)
  else if bytes_eqb nm (bs "auth-agent-req@openssh.com") then Ok AuthAgentReq
  else if bytes_eqb nm (bs "x11-req") then
    let? (single_connection, r) := read_bool r in
    let? (auth_protocol, r) := read_utf8 r in
    let? (auth_cookie, r) := read_utf8 r in
    let? (screen, _) := read_u32 r in
    Ok (X11Req single_connection auth_protocol auth_cookie screen)
  else Ok (Other nm body).

Definition known_names : list bytes :=
  [bs "pty-req"; bs "shell"; bs "exec"; bs "subsystem"; bs "env"; bs "window-change";
   bs "signal"; bs "exit-status"; bs "exit-signal"; bs "auth-agent-req@openssh.com";
   bs "x11-req"].

Definition wf (c : t) : Prop :=
  match c with
  | PtyReq term cols rows px_w px_h modes =>
      is_str term ∧ is_u32 cols ∧ is_u32 rows ∧ is_u32 px_w ∧ is_u32 px_h ∧ is_u32 (len modes)
  | Shell | AuthAgentReq => True
  | Exec s | Subsystem s | Signal s => is_str s
  | Env n v => is_str n ∧ is_str v
  | WindowChange a b c d => is_u32 a ∧ is_u32 b ∧ is_u32 c ∧ is_u32 d
  | ExitStatus c => is_u32 c
  | ExitSignal n _ m l => is_str n ∧ is_str m ∧ is_str l
  | X11Req _ p c s => is_str p ∧ is_str c ∧ is_u32 s
  | Other nm _ => is_str nm ∧ nm ∉ known_names
  end.

Lemma request_decode_encode c :
  wf c → fits_mem (into_vec (encode c writer_new)) →
  decode (name c) (into_vec (encode c writer_new)) = Ok c.
Proof.
  unfold decode, read_utf8. destruct c; cbn [name encode wf]; intros Hwf Hm;
    eqb_literals; try done; destruct_and?;
    try (revert Hm; writer_norm; intros Hm; read_back; done).
  unfold known_names in *. unknown_name name0. writer_norm. done.
Qed.

End ChannelRequest.

(** ** Channel-open kinds ([ChannelOpen], state.rs) *)

Module ChannelOpen.

Inductive t :=
  | Session
  | DirectTcpip (dest_host : bytes) (dest_port : Z) (orig_host : bytes) (orig_port : Z)
  | ForwardedTcpip (dest_host : bytes) (dest_port : Z) (orig_host : bytes) (orig_port : Z)
  | DirectStreamlocal (socket_path : bytes)
  | ForwardedStreamlocal (socket_path : bytes)
  | Tun (mode unit : Z)
  | AuthAgent
  | X11 (orig_host : bytes) (orig_port : Z)
  | Other (kind raw : bytes).

Definition kind (o : t) : bytes :=
  match o with
  | Session => bs "session"
  | DirectTcpip _ _ _ _ => bs "direct-tcpip"
  | ForwardedTcpip _ _ _ _ => bs "forwarded-tcpip"
  | DirectStreamlocal _ => bs "direct-streamlocal@openssh.com"
  | ForwardedStreamlocal _ => bs "forwarded-streamlocal@openssh.com"
  | Tun _ _ => bs "tun@openssh.com"
  | AuthAgent => bs "auth-agent@openssh.com"
  | X11 _ _ => bs "x11"
  | Other kind _ => kind
  end.

Definition encode_tail (o : t) (w : Writer) : Writer :=
  match o with
  | Session => w
  | DirectTcpip dest_host dest_port orig_host orig_port
  | ForwardedTcpip dest_host dest_port orig_host orig_port =>
      w |>> write_string dest_host |>> write_u32 dest_port
        |>> write_string orig_host |>> write_u32 orig_port
  | DirectStreamlocal socket_path =>
      w |>> write_string socket_path |>> write_string [] |>> write_u32 0
  | ForwardedStreamlocal socket_path =>
      w |>> write_string socket_path |>> write_string []
  | Tun mode unit => w |>> write_u32 mode |>> write_u32 unit
  | AuthAgent => w
  | X11 orig_host orig_port => w |>> write_string orig_host |>> write_u32 orig_port
  | Other _ raw => w |>> write_raw raw
  end.

Definition read_utf8 := read_utf8_or (Format "invalid utf-8").

Definition decode (knd body : bytes) : result t :=
  let r := reader_new body in
  if bytes_eqb knd (bs "session") then Ok Session
  else if bytes_eqb knd (bs "direct-tcpip") then
    let? (dest_host, r) := read_utf8 r in
    let? (dest_port, r) := read_u32 r in
    let? (orig_host, r) := read_utf8 r in
    let? (orig_port, _) := read_u32 r in
    Ok (DirectTcpip dest_host dest_port orig_host orig_port)
  else if bytes_eqb knd (bs "forwarded-tcpip") then
    let? (dest_host, r) := read_utf8 r in
    let? (dest_port, r) := read_u32 r in
    let? (orig_host, r) := read_utf8 r in
    let? (orig_port, _) := read_u32 r in
    Ok (ForwardedTcpip dest_host dest_port orig_host orig_port)
  else if bytes_eqb knd (bs "direct-streamlocal@openssh.com") then
    let? (socket_path, r) := read_utf8 r in
    let? (_, r) := read_string r in
    let? (_, _) := read_u32 r in
    Ok (DirectStreamlocal socket_path)
  else if bytes_eqb knd (bs "forwarded-streamlocal@openssh.com") then
    let? (socket_path, r) := read_utf8 r in
    let? (_, _) := read_string r in
    Ok (ForwardedStreamlocal socket_path)
  else if bytes_eqb knd (bs "tun@openssh.com") then
    let? (mode, r) := read_u32 r in
    let? (unit, _) := read_u32 r in
    Ok (Tun mode unit)
  else if bytes_eqb knd (bs "auth-agent@openssh.com") then Ok AuthAgent
  else if bytes_eqb knd (bs "x11") then
    let? (orig_host, r) := read_utf8 r in
    let? (orig_port, _) := read_u32 r in
    Ok (X11 orig_host orig_port)
  else Ok (Other knd body).

Definition known_kinds : list bytes :=
  [bs "session"; bs "direct-tcpip"; bs "forwarded-tcpip"; bs "direct-streamlocal@openssh.com";
   bs "forwarded-streamlocal@openssh.com"; bs "tun@openssh.com"; bs "auth-agent@openssh.com";
   bs "x11"].

Definition wf (o : t) : Prop :=
  match o with
  | Session | AuthAgent => True
  | DirectTcpip d p h q | ForwardedTcpip d p h q => is_str d ∧ is_u32 p ∧ is_str h ∧ is_u32 q
  | DirectStreamlocal s | ForwardedStreamlocal s => is_str s
  | Tun m u => is_u32 m ∧ is_u32 u
  | X11 h p => is_str h ∧ is_u32 p
  | Other k _ => is_str k ∧ k ∉ known_kinds
  end.

Lemma kind_is_str o : wf o → is_str (kind o).
Proof. destruct o; cbn [wf kind]; [split; vm_compute; done..|by intros []]. Qed.

Lemma open_decode_encode o :
  wf o → fits_mem (into_vec (encode_tail o writer_new)) →
  decode (kind o) (into_vec (encode_tail o writer_new)) = Ok o.
Proof.
  unfold decode, read_utf8. destruct o; cbn [kind encode_tail wf]; intros Hwf Hm;
    eqb_literals; try done; destruct_and?;
    try (revert Hm; writer_norm; intros Hm; read_back; done).
  unfold known_kinds in *. unknown_name kind0. writer_norm. done.
Qed.

End ChannelOpen.
