(* ===== verification/Channel.v ===== *)
(** * The channel multiplexer (src/hazmat/channel/state.rs)

    [ConnectionState] tracks every open channel of one peer.  Each operation
    of the source is a function from the state to the returned [Result] and
    the state left behind ([&mut self]).  [allocate_local_id] is a loop that
    does not end when all [2^32] ids are taken; operations that call it
    return [None] in that case, and [on_packet_total] and
    [allocate_local_id_total] show when it cannot happen. *)
From S2P Require Import Prelude Wire Text ChannelMsg.

Definition DEFAULT_MAX_CHANNELS_PER_CONNECTION := 256.
Definition DEFAULT_WINDOW := 2 * 1024 * 1024.
Definition DEFAULT_MAX_PACKET := 32 * 1024.

(** ** State *)

Record ChannelState := {
  local_id : Z;
  remote_id : Z;
  local_window : Z;
  remote_window : Z;
  local_max_packet : Z;
  remote_max_packet : Z;
  ch_kind : bytes;
  local_eof : bool;
  remote_eof : bool;
  local_closed : bool;
  remote_closed : bool;
  activity : Z;
  xtype : option bytes;
  initial_local_window : Z;
  pending_replenish : Z;
  open_confirmed : bool;
  initiated_by_us : bool
}.

#[export] Instance ChannelState_eta : Etable ChannelState := fun c =>
  {| local_id := local_id c; remote_id := remote_id c; local_window := local_window c;
     remote_window := remote_window c; local_max_packet := local_max_packet c;
     remote_max_packet := remote_max_packet c; ch_kind := ch_kind c; local_eof := local_eof c;
     remote_eof := remote_eof c; local_closed := local_closed c;
     remote_closed := remote_closed c; activity := activity c; xtype := xtype c;
     initial_local_window := initial_local_window c; pending_replenish := pending_replenish c;
     open_confirmed := open_confirmed c; initiated_by_us := initiated_by_us c |}.

Definition is_fully_closed (c : ChannelState) : bool := local_closed c && remote_closed c.

Definition is_open (c : ChannelState) : bool :=
  open_confirmed c && negb (local_closed c) && negb (remote_closed c).

Inductive ChannelEvent :=
  | OpenRequest (channel : Z) (kind : ChannelOpen.t)
  | OpenConfirmed (channel : Z)
  | OpenFailed (channel reason : Z) (description : bytes)
  | OpenRejected (payload : bytes) (reason : Z)
  | Data (channel : Z) (data : bytes)
  | ExtendedData (channel code : Z) (data : bytes)
  | WindowAdjust (channel added : Z)
  | Eof (channel : Z)
  | Close (channel : Z)
  | Request (channel : Z) (request : ChannelRequest.t) (want_reply : bool)
  | Success (channel : Z)
  | Failure (channel : Z)
  | GlobalRequestEv (request : GlobalRequest.t) (want_reply : bool)
  | GlobalSuccess (data : bytes)
  | GlobalFailure.

Record ConnectionState := {
  channels : gmap Z ChannelState;
  next_local_id : Z;
  default_window : Z;
  default_max_packet : Z;
  max_channels : Z
}.

#[export] Instance ConnectionState_eta : Etable ConnectionState := fun s =>
  {| channels := channels s; next_local_id := next_local_id s;
     default_window := default_window s; default_max_packet := default_max_packet s;
     max_channels := max_channels s |}.

Definition conn_new : ConnectionState :=
  {| channels := ∅; next_local_id := 0; default_window := DEFAULT_WINDOW;
     default_max_packet := DEFAULT_MAX_PACKET;
     max_channels := DEFAULT_MAX_CHANNELS_PER_CONNECTION |}.

(** Replaces the entry of one channel. *)
Definition put_channel (id : Z) (c : ChannelState) (s : ConnectionState) : ConnectionState :=
  s <| channels := <[id := c]> (channels s) |>.

Definition drop_channel (id : Z) (s : ConnectionState) : ConnectionState :=
  s <| channels := delete id (channels s) |>.

(** ** Local ids *)

(** [loop] of [allocate_local_id], at most [fuel] iterations. *)
Fixpoint alloc_loop (fuel : nat) (m : gmap Z ChannelState) (next : Z) : option (Z * Z) :=
  match fuel with
  | O => None
  | S f =>
      let id := next in
      let next := wrap32 (next + 1) in
      match m !! id with
      | None => Some (id, next)
      | Some _ => alloc_loop f m next
      end
  end.

(** One more iteration than there are entries: enough to meet a free id
    whenever there is one ([alloc_loop_total]). *)
Definition allocate_local_id (s : ConnectionState) : option (Z * ConnectionState) :=
  match alloc_loop (S (size (channels s))) (channels s) (next_local_id s) with
  | Some (id, next) => Some (id, s <| next_local_id := next |>)
  | None => None
  end.

Definition get_mut (s : ConnectionState) (id : Z) : result ChannelState :=
  ok_or (channels s !! id) BadChannelState.

Definition ensure_sendable (c : ChannelState) : result unit :=
  if local_closed c || remote_closed c then Err BadChannelState else Ok tt.

(** ** Capacity of one data message *)

Definition data_capacity (c : ChannelState) : Z :=
  if remote_max_packet c <? 9 then 0
  else Z.min (remote_max_packet c - 9) (remote_window c).

Definition extended_data_capacity (c : ChannelState) : Z :=
  if remote_max_packet c <? 13 then 0
  else Z.min (remote_max_packet c - 13) (remote_window c).

(** ** Outbound operations *)

Definition open (k : ChannelOpen.t) (s : ConnectionState)
    : option (result (Z * bytes) * ConnectionState) :=
  match allocate_local_id s with
  | None => None
  | Some (id, s) =>
      let lw := default_window s in
      let lmp := default_max_packet s in
      let c :=
        {| local_id := id; remote_id := 0; local_window := lw; remote_window := 0;
           local_max_packet := lmp; remote_max_packet := 0; ch_kind := ChannelOpen.kind k;
           local_eof := false; remote_eof := false; local_closed := false;
           remote_closed := false; activity := 0; xtype := None;
           initial_local_window := lw; pending_replenish := 0; open_confirmed := false;
           initiated_by_us := true |} in
      let w := writer_new |>> write_u8 MSG_CHANNEL_OPEN
        |>> write_string (ChannelOpen.kind k) |>> write_u32 id |>> write_u32 lw
        |>> write_u32 lmp |>> ChannelOpen.encode_tail k in
      Some (Ok (id, into_vec w), put_channel id c s)
  end.

Definition accept_open (id : Z) (s : ConnectionState) : result bytes * ConnectionState :=
  let! c := get_mut s id at s in
  if open_confirmed c then (Err BadChannelState, s)
  else
    let w := writer_new |>> write_u8 MSG_CHANNEL_OPEN_CONFIRMATION
      |>> write_u32 (remote_id c) |>> write_u32 id |>> write_u32 (local_window c)
      |>> write_u32 (local_max_packet c) in
    (Ok (into_vec w), put_channel id (c <| open_confirmed := true |>) s).

Definition reject_open (id reason : Z) (description language : bytes) (s : ConnectionState)
    : result bytes * ConnectionState :=
  match channels s !! id with
  | None => (Err BadChannelState, s)
  | Some c =>
      let s' := drop_channel id s in
      if open_confirmed c then (Err BadChannelState, put_channel id c s')
      else
        let w := writer_new |>> write_u8 MSG_CHANNEL_OPEN_FAILURE
          |>> write_u32 (remote_id c) |>> write_u32 reason
          |>> write_string description |>> write_string language in
        (Ok (into_vec w), s')
  end.

Definition send_request (id : Z) (req : ChannelRequest.t) (want_reply : bool)
    (s : ConnectionState) : result bytes * ConnectionState :=
  let! c := get_mut s id at s in
  let! _ := ensure_sendable c at s in
  let w := writer_new |>> write_u8 MSG_CHANNEL_REQUEST |>> write_u32 (remote_id c)
    |>> write_string (ChannelRequest.name req) |>> write_bool want_reply
    |>> ChannelRequest.encode req in
  (Ok (into_vec w), s).

Definition send_request_success (id : Z) (s : ConnectionState)
    : result bytes * ConnectionState :=
  let! c := get_mut s id at s in
  (Ok (into_vec (writer_new |>> write_u8 MSG_CHANNEL_SUCCESS |>> write_u32 (remote_id c))), s).

Definition send_request_failure (id : Z) (s : ConnectionState)
    : result bytes * ConnectionState :=
  let! c := get_mut s id at s in
  (Ok (into_vec (writer_new |>> write_u8 MSG_CHANNEL_FAILURE |>> write_u32 (remote_id c))), s).

Definition set_xtype (id : Z) (x : bytes) (s : ConnectionState) : ConnectionState :=
  match channels s !! id with
  | Some c => put_channel id (c <| xtype := Some x |>) s
  | None => s
  end.

(** The entry after [n] data bytes were handed to the transport. *)
Definition charge_sent (n : Z) (c : ChannelState) : ChannelState :=
  c <| remote_window := sat_sub (remote_window c) (wrap32 n) |>
    <| activity := wrap64 (activity c + n) |>.

Definition send_data (id : Z) (data : bytes) (s : ConnectionState)
    : result (bytes * Z) * ConnectionState :=
  let! c := get_mut s id at s in
  let! _ := ensure_sendable c at s in
  if local_eof c then (Err BadChannelState, s)
  else
    let n := Z.min (len data) (data_capacity c) in
    let chunk := take (Z.to_nat n) data in
    let w := writer_new |>> write_u8 MSG_CHANNEL_DATA |>> write_u32 (remote_id c)
      |>> write_string chunk in
    (Ok (into_vec w, n), put_channel id (charge_sent n c) s).

Definition send_datagram (id : Z) (data : bytes) (s : ConnectionState)
    : result (option bytes) * ConnectionState :=
  let! c := get_mut s id at s in
  let! _ := ensure_sendable c at s in
  if local_eof c then (Err BadChannelState, s)
  else if data_capacity c <? len data then (Ok None, s)
  else
    match send_data id data s with
    | (Ok (payload, _), s') => (Ok (Some payload), s')
    | (Err e, s') => (Err e, s')
    end.

Definition send_extended_data (id code : Z) (data : bytes) (s : ConnectionState)
    : result (bytes * Z) * ConnectionState :=
  let! c := get_mut s id at s in
  let! _ := ensure_sendable c at s in
  if local_eof c then (Err BadChannelState, s)
  else
    let n := Z.min (len data) (extended_data_capacity c) in
    let chunk := take (Z.to_nat n) data in
    let w := writer_new |>> write_u8 MSG_CHANNEL_EXTENDED_DATA |>> write_u32 (remote_id c)
      |>> write_u32 code |>> write_string chunk in
    (Ok (into_vec w, n), put_channel id (charge_sent n c) s).

Definition send_eof (id : Z) (s : ConnectionState) : result bytes * ConnectionState :=
  let! c := get_mut s id at s in
  if local_closed c then (Err BadChannelState, s)
  else
    (Ok (into_vec (writer_new |>> write_u8 MSG_CHANNEL_EOF |>> write_u32 (remote_id c))),
     put_channel id (c <| local_eof := true |>) s).

Definition send_close (id : Z) (s : ConnectionState) : result bytes * ConnectionState :=
  let! c := get_mut s id at s in
  if local_closed c then (Err BadChannelState, s)
  else
    let c := c <| local_closed := true |> in
    let w := writer_new |>> write_u8 MSG_CHANNEL_CLOSE |>> write_u32 (remote_id c) in
    let s := put_channel id c s in
    (Ok (into_vec w), if is_fully_closed c then drop_channel id s else s).

Definition send_global_request (req : GlobalRequest.t) (want_reply : bool) : bytes :=
  into_vec (writer_new |>> write_u8 MSG_GLOBAL_REQUEST |>> write_string (GlobalRequest.name req)
    |>> write_bool want_reply |>> GlobalRequest.encode req).

Definition send_global_success (data : bytes) : bytes :=
  into_vec (writer_new |>> write_u8 MSG_REQUEST_SUCCESS |>> write_raw data).

Definition send_global_failure : bytes :=
  into_vec (writer_new |>> write_u8 MSG_REQUEST_FAILURE).

Definition replenish_threshold (c : ChannelState) : Z :=
  Z.max (Z.min (initial_local_window c / 2) (sat_mul32 (local_max_packet c) 3)) 1.

Definition replenish_window (id by_ : Z) (s : ConnectionState)
    : result (option bytes) * ConnectionState :=
  let! c := get_mut s id at s in
  if local_closed c then (Ok None, s)
  else if by_ =? 0 then (Ok None, s)
  else
    let c := c <| pending_replenish := sat_add32 (pending_replenish c) by_ |> in
    if pending_replenish c <? replenish_threshold c then (Ok None, put_channel id c s)
    else
      let added := pending_replenish c in
      let c := c <| pending_replenish := 0 |>
                 <| local_window := sat_add32 (local_window c) added |> in
      let w := writer_new |>> write_u8 MSG_CHANNEL_WINDOW_ADJUST
        |>> write_u32 (remote_id c) |>> write_u32 added in
      (Ok (Some (into_vec w)), put_channel id c s).

(** ** Inbound messages *)

(** [let n = r.remaining(); r.take(n)?]. *)
Definition read_rest (r : Reader) : result (bytes * Reader) := read_take (remaining r) r.

Definition read_utf8_borrowed := read_utf8_or (Format "invalid utf-8").

Definition on_global_request (r : Reader) (s : ConnectionState)
    : result ChannelEvent * ConnectionState :=
  let! (name, r) := read_utf8_borrowed r at s in
  let! (want_reply, r) := read_bool r at s in
  let! (tail, _) := read_rest r at s in
  let! request := GlobalRequest.decode name tail at s in
  (Ok (GlobalRequestEv request want_reply), s).

Definition on_channel_open (r : Reader) (s : ConnectionState)
    : option (result ChannelEvent * ConnectionState) :=
  match
    (let? (kind_name, r) := read_utf8_borrowed r in
     let? (rid, r) := read_u32 r in
     let? (initial_window, r) := read_u32 r in
     let? (max_packet, r) := read_u32 r in
     let? (tail, _) := read_rest r in
     let? k := ChannelOpen.decode kind_name tail in
     Ok (kind_name, rid, initial_window, max_packet, k))
  with
  | Err e => Some (Err e, s)
  | Ok (kind_name, rid, initial_window, max_packet, k) =>
      if max_channels s <=? Z.of_nat (size (channels s)) then
        let w := writer_new |>> write_u8 MSG_CHANNEL_OPEN_FAILURE |>> write_u32 rid
          |>> write_u32 SSH_OPEN_RESOURCE_SHORTAGE
          |>> write_string (bs "channel limit reached") |>> write_string (bs "") in
        Some (Ok (OpenRejected (into_vec w) SSH_OPEN_RESOURCE_SHORTAGE), s)
      else
        match allocate_local_id s with
        | None => None
        | Some (id, s) =>
            let lw := default_window s in
            let lmp := default_max_packet s in
            let c :=
              {| local_id := id; remote_id := rid; local_window := lw;
                 remote_window := initial_window; local_max_packet := lmp;
                 remote_max_packet := max_packet; ch_kind := kind_name;
                 local_eof := false; remote_eof := false; local_closed := false;
                 remote_closed := false; activity := 0; xtype := None;
                 initial_local_window := lw; pending_replenish := 0;
                 open_confirmed := false; initiated_by_us := false |} in
            Some (Ok (OpenRequest id k), put_channel id c s)
        end
  end.

Definition on_open_confirmation (r : Reader) (s : ConnectionState)
    : result ChannelEvent * ConnectionState :=
  let! (id, r) := read_u32 r at s in
  let! (rid, r) := read_u32 r at s in
  let! (initial_window, r) := read_u32 r at s in
  let! (max_packet, _) := read_u32 r at s in
  let! c := ok_or (channels s !! id) (Protocol "open-confirm for unknown channel") at s in
  if open_confirmed c then (Err (Protocol "double open-confirm"), s)
  else if negb (initiated_by_us c) then
    (Err (Protocol "open-confirm for channel not initiated by us"), s)
  else
    let c := c <| remote_id := rid |> <| remote_window := initial_window |>
               <| remote_max_packet := max_packet |> <| open_confirmed := true |> in
    (Ok (OpenConfirmed id), put_channel id c s).

Definition on_open_failure (r : Reader) (s : ConnectionState)
    : result ChannelEvent * ConnectionState :=
  let! (id, r) := read_u32 r at s in
  let! (reason, r) := read_u32 r at s in
  let! (description_bytes, r) := read_string r at s in
  let! description :=
    from_utf8 (Format "invalid utf-8 in open-failure description") description_bytes at s in
  let! (_, _) := read_string r at s in
  let! c := ok_or (channels s !! id) (Protocol "open-failure for unknown channel") at s in
  if negb (initiated_by_us c) || open_confirmed c then
    (Err (Protocol "open-failure for channel not pending our open"), s)
  else (Ok (OpenFailed id reason description), drop_channel id s).

Definition on_window_adjust (r : Reader) (s : ConnectionState)
    : result ChannelEvent * ConnectionState :=
  let! (id, r) := read_u32 r at s in
  let! (added, _) := read_u32 r at s in
  let! c := get_mut s id at s in
  (Ok (WindowAdjust id added),
   put_channel id (c <| remote_window := sat_add32 (remote_window c) added |>) s).

(** The checks data and extended data share: the state of the channel, then
    the window and packet limits, then the accounting. *)
Definition admit_data (after_eof : string) (data : bytes) (c : ChannelState)
    : result ChannelState :=
  if negb (open_confirmed c) then Err (Protocol "channel not yet open")
  else if remote_eof c || remote_closed c then Err (Protocol after_eof)
  else
    let n := wrap32 (len data) in
    if local_window c <? n then Err (Protocol "peer exceeded advertised window")
    else if local_max_packet c <? n then Err (Protocol "peer exceeded max packet")
    else Ok (c <| local_window := local_window c - n |>
               <| activity := wrap64 (activity c + n) |>).

Definition on_channel_data (r : Reader) (s : ConnectionState)
    : result ChannelEvent * ConnectionState :=
  let! (id, r) := read_u32 r at s in
  let! (data, _) := read_string r at s in
  let! c := get_mut s id at s in
  let! c := admit_data "data after EOF/close" data c at s in
  (Ok (Data id data), put_channel id c s).

Definition on_extended_data (r : Reader) (s : ConnectionState)
    : result ChannelEvent * ConnectionState :=
  let! (id, r) := read_u32 r at s in
  let! (code, r) := read_u32 r at s in
  let! (data, _) := read_string r at s in
  let! c := get_mut s id at s in
  let! c := admit_data "extended data after EOF/close" data c at s in
  (Ok (ExtendedData id code data), put_channel id c s).

Definition on_channel_eof (r : Reader) (s : ConnectionState)
    : result ChannelEvent * ConnectionState :=
  let! (id, _) := read_u32 r at s in
  let! c := get_mut s id at s in
  if negb (open_confirmed c) then (Err (Protocol "channel not yet open"), s)
  else (Ok (Eof id), put_channel id (c <| remote_eof := true |>) s).

Definition on_channel_close (r : Reader) (s : ConnectionState)
    : result ChannelEvent * ConnectionState :=
  let! (id, _) := read_u32 r at s in
  let! c := get_mut s id at s in
  if negb (open_confirmed c) then (Err (Protocol "channel not yet open"), s)
  else
    let c := c <| remote_closed := true |> in
    let s := put_channel id c s in
    (Ok (Close id), if is_fully_closed c then drop_channel id s else s).

Definition on_channel_request (r : Reader) (s : ConnectionState)
    : result ChannelEvent * ConnectionState :=
  let! (id, r) := read_u32 r at s in
  let! (name, r) := read_utf8_borrowed r at s in
  let! (want_reply, r) := read_bool r at s in
  let! (tail, _) := read_rest r at s in
  let! request := ChannelRequest.decode name tail at s in
  let! c := ok_or (channels s !! id) BadChannelState at s in
  if negb (open_confirmed c) then (Err (Protocol "channel not yet open"), s)
  else (Ok (Request id request want_reply), s).

Definition on_channel_success (r : Reader) (s : ConnectionState)
    : result ChannelEvent * ConnectionState :=
  let! (id, _) := read_u32 r at s in
  let! _ := ok_or (channels s !! id) BadChannelState at s in
  (Ok (Success id), s).

Definition on_channel_failure (r : Reader) (s : ConnectionState)
    : result ChannelEvent * ConnectionState :=
  let! (id, _) := read_u32 r at s in
  let! _ := ok_or (channels s !! id) BadChannelState at s in
  (Ok (Failure id), s).

Definition on_packet (payload : bytes) (s : ConnectionState)
    : option (result ChannelEvent * ConnectionState) :=
  match read_u8 (reader_new payload) with
  | Err e => Some (Err e, s)
  | Ok (msg, r) =>
      if msg =? MSG_GLOBAL_REQUEST then Some (on_global_request r s)
      else if msg =? MSG_REQUEST_SUCCESS then
        Some (let! (data, _) := read_rest r at s in (Ok (GlobalSuccess data), s))
      else if msg =? MSG_REQUEST_FAILURE then Some (Ok GlobalFailure, s)
      else if msg =? MSG_CHANNEL_OPEN then on_channel_open r s
      else if msg =? MSG_CHANNEL_OPEN_CONFIRMATION then Some (on_open_confirmation r s)
      else if msg =? MSG_CHANNEL_OPEN_FAILURE then Some (on_open_failure r s)
      else if msg =? MSG_CHANNEL_WINDOW_ADJUST then Some (on_window_adjust r s)
      else if msg =? MSG_CHANNEL_DATA then Some (on_channel_data r s)
      else if msg =? MSG_CHANNEL_EXTENDED_DATA then Some (on_extended_data r s)
      else if msg =? MSG_CHANNEL_EOF then Some (on_channel_eof r s)
      else if msg =? MSG_CHANNEL_CLOSE then Some (on_channel_close r s)
      else if msg =? MSG_CHANNEL_REQUEST then Some (on_channel_request r s)
      else if msg =? MSG_CHANNEL_SUCCESS then Some (on_channel_success r s)
      else if msg =? MSG_CHANNEL_FAILURE then Some (on_channel_failure r s)
      else Some (Err (Protocol "unexpected message for channel layer"), s)
  end.

#[global] Arguments put_channel : simpl never.
#[global] Arguments drop_channel : simpl never.
#[global] Arguments charge_sent : simpl never.
#[global] Arguments data_capacity : simpl never.
#[global] Arguments extended_data_capacity : simpl never.
