(* ===== verification/ChannelFacts.v ===== *)
(** * Correctness of the channel multiplexer

    The invariant of [ConnectionState] and its preservation by every
    operation, termination of id allocation, and the guarantees a peer's
    packet cannot break. *)
From S2P Require Import Prelude Wire Text ChannelMsg Channel.

(** ** Ids are allocated *)

Lemma NoDup_dom_length {A} (m : gmap Z A) (l : list Z) :
  NoDup l → (∀ x, x ∈ l → is_Some (m !! x)) → (length l ≤ size m)%nat.
Proof.
  intros Hnd Hin. rewrite <- size_dom, <- (size_list_to_set (C := gset Z) l) by done.
  apply subseteq_size. intros x Hx%elem_of_list_to_set. by apply elem_of_dom, Hin.
Qed.

Definition visited (fuel : nat) (next : Z) : list Z :=
  (λ i, wrap32 (next + Z.of_nat i)) <$> seq 0 fuel.

Lemma alloc_loop_None fuel m next :
  is_u32 next → alloc_loop fuel m next = None → ∀ x, x ∈ visited fuel next → is_Some (m !! x).
Proof.
  revert next. induction fuel as [|f IH]; intros next Hn; cbn [alloc_loop].
  { intros _ x Hx. by apply elem_of_nil in Hx. }
  destruct (m !! next) as [c|] eqn:E; [|done]. intros H x.
  unfold visited. rewrite list_elem_of_fmap. intros (i & -> & Hi%elem_of_seq).
  destruct i as [|i].
  - rewrite Z.add_0_r, wrap32_small by done. eauto.
  - apply (IH (wrap32 (next + 1))); [apply wrap32_range|done|].
    unfold visited. apply list_elem_of_fmap. exists i. split; [|apply elem_of_seq; lia].
    unfold wrap32. rewrite Zplus_mod_idemp_l. f_equal. lia.
Qed.

Lemma visited_NoDup fuel next : (Z.of_nat fuel ≤ 4294967296) → NoDup (visited fuel next).
Proof.
  intros Hf. unfold visited. apply NoDup_fmap_2_strong; [|apply NoDup_seq].
  intros i j Hi%elem_of_seq Hj%elem_of_seq Heq. unfold wrap32 in Heq.
  pose proof (Z.div_mod (next + Z.of_nat i) 4294967296 ltac:(lia)).
  pose proof (Z.div_mod (next + Z.of_nat j) 4294967296 ltac:(lia)).
  rewrite Heq in *. lia.
Qed.

Lemma alloc_loop_total m next :
  is_u32 next → Z.of_nat (size m) < 4294967296 →
  ∃ p, alloc_loop (S (size m)) m next = Some p.
Proof.
  intros Hn Hs. destruct (alloc_loop _ _ _) eqn:E; [eauto|].
  pose proof (alloc_loop_None _ _ _ Hn E) as Hin.
  assert (Hlen : length (visited (S (size m)) next) = S (size m)).
  { unfold visited. by rewrite length_fmap, length_seq. }
  pose proof (NoDup_dom_length m (visited (S (size m)) next)) as H.
  rewrite Hlen in H. specialize (H ltac:(apply visited_NoDup; lia) Hin). lia.
Qed.

Lemma alloc_loop_fresh fuel m next id next' :
  is_u32 next → alloc_loop fuel m next = Some (id, next') →
  m !! id = None ∧ is_u32 id ∧ is_u32 next'.
Proof.
  revert next. induction fuel as [|f IH]; intros next Hn; cbn [alloc_loop]; [done|].
  destruct (m !! next) eqn:E.
  - apply IH, wrap32_range.
  - intros [= <- <-]. split; [done|]. split; [done|apply wrap32_range].
Qed.

(** ** Decoded integers have their width *)

Lemma read_take_len n r x r' : 0 ≤ n → read_take n r = Ok (x, r') → len x ≤ n.
Proof.
  intros Hn. unfold read_take. repeat case_match; try done. intros [= <- <-].
  unfold slice, len. rewrite length_take. lia.
Qed.

Lemma read_u32_width r v r' : read_u32 r = Ok (v, r') → is_u32 v.
Proof.
  unfold read_u32. destruct (read_take 4 r) as [[x q]|] eqn:E; [|done]. intros [= <- <-].
  apply read_take_len in E; [|lia]. pose proof (be_value_range x).
  pose proof (Z.pow_le_mono_r 256 (len x) 4 ltac:(lia) E).
  change (256 ^ 4) with 4294967296 in *. width_lia.
Qed.
#[export] Hint Resolve read_u32_width wrap32_range wrap64_range : width.

(** ** The invariant *)

Record chan_wf (id : Z) (c : ChannelState) : Prop := {
  cw_id : local_id c = id;
  cw_id_u32 : is_u32 id;
  cw_remote_id : is_u32 (remote_id c);
  cw_local_window : is_u32 (local_window c);
  cw_remote_window : is_u32 (remote_window c);
  cw_local_max : is_u32 (local_max_packet c);
  cw_remote_max : is_u32 (remote_max_packet c);
  cw_initial : is_u32 (initial_local_window c);
  cw_pending : is_u32 (pending_replenish c);
  cw_activity : is_u64 (activity c);
  cw_not_closed : is_fully_closed c = false;
  cw_peer_after_open : remote_eof c || remote_closed c = true → open_confirmed c = true
}.

Record conn_wf (s : ConnectionState) : Prop := {
  nw_next : is_u32 (next_local_id s);
  nw_window : is_u32 (default_window s);
  nw_packet : is_u32 (default_max_packet s);
  nw_max : is_u32 (max_channels s);
  nw_chans : map_Forall chan_wf (channels s)
}.

Lemma conn_wf_new : conn_wf conn_new.
Proof. split; [vm_compute; split; congruence..|apply map_Forall_empty]. Qed.

Lemma conn_wf_put id c s : conn_wf s → chan_wf id c → conn_wf (put_channel id c s).
Proof. intros [] Hc. split; try done. by apply map_Forall_insert_2. Qed.

Lemma conn_wf_drop id s : conn_wf s → conn_wf (drop_channel id s).
Proof. intros []. split; try done. by apply map_Forall_delete. Qed.

Lemma conn_wf_next n s : conn_wf s → is_u32 n → conn_wf (s <| next_local_id := n |>).
Proof. intros [] ?. by split. Qed.

Lemma conn_wf_lookup s id c : conn_wf s → channels s !! id = Some c → chan_wf id c.
Proof. intros [_ _ _ _ H]. apply H. Qed.

Lemma put_drop_same id c s : put_channel id c (drop_channel id s) = put_channel id c s.
Proof. unfold put_channel, drop_channel, set_field; cbn. by rewrite insert_delete_eq. Qed.

Lemma put_id id c s : channels s !! id = Some c → put_channel id c s = s.
Proof. intros H. unfold put_channel, set_field; cbn. rewrite insert_id by done. by destruct s. Qed.

Lemma drop_put_same id c s : drop_channel id (put_channel id c s) = drop_channel id s.
Proof. unfold put_channel, drop_channel, set_field; cbn. by rewrite delete_insert_eq. Qed.

Create HintDb conn.
#[export] Hint Resolve conn_wf_put conn_wf_drop conn_wf_next conn_wf_lookup : conn.

(** Splits an operation into its branches. *)
Ltac op_cases :=
  unfold get_mut, ok_or, ensure_sendable in *;
  repeat (case_match; simplify_eq/=).

Lemma allocate_wf s id s' :
  conn_wf s → allocate_local_id s = Some (id, s') →
  conn_wf s' ∧ is_u32 id ∧ channels s' = channels s ∧ channels s !! id = None ∧
  default_window s' = default_window s ∧ default_max_packet s' = default_max_packet s ∧
  max_channels s' = max_channels s.
Proof.
  intros Hwf. unfold allocate_local_id. destruct (alloc_loop _ _ _) as [[i n]|] eqn:E; [|done].
  intros [= <- <-]. apply alloc_loop_fresh in E as (? & ? & ?); [|apply Hwf].
  split_and!; try done; try width_lia. by apply conn_wf_next.
Qed.

Lemma allocate_local_id_total s :
  conn_wf s → Z.of_nat (size (channels s)) < 4294967296 →
  ∃ id s', allocate_local_id s = Some (id, s') ∧ channels s' = channels s ∧
    channels s !! id = None ∧ is_u32 id.
Proof.
  intros Hwf Hs. destruct (alloc_loop_total (channels s) (next_local_id s)) as [[id n] E];
    [apply Hwf|done|].
  destruct (allocate_local_id s) as [[id' s']|] eqn:Ea.
  - exists id', s'. by destruct (allocate_wf _ _ _ Hwf Ea) as (_ & ? & ? & ? & _).
  - unfold allocate_local_id in Ea. by rewrite E in Ea.
Qed.

(** ** Every operation preserves the invariant *)

(** Case analysis on the flags of an entry. *)
Ltac solve_flags :=
  repeat match goal with
  | H : context [?f ?c] |- _ =>
      match type of c with ChannelState =>
        match type of (f c) with bool => destruct (f c) end end
  | |- context [?f ?c] =>
      match type of c with ChannelState =>
        match type of (f c) with bool => destruct (f c) end end
  end; cbn in *; solve [done | intuition congruence].

(** An entry changed in fields whose widths are at hand. *)
Ltac solve_chan :=
  match goal with
  | H : chan_wf ?id ?c |- chan_wf ?id _ => destruct H
  end;
  split; unfold charge_sent, set_field, is_fully_closed in *; cbn in *;
  first [ done | apply wrap64_range | (apply sat_sub_u32; [assumption|apply wrap32_range])
        | width_lia | solve_flags ].

(** Finishes a branch: the state is untouched, an entry was dropped, or an
    entry that was looked up was changed. *)
Ltac solve_conn :=
  match goal with
  | |- conn_wf ?s => assumption
  | |- conn_wf (drop_channel _ (put_channel _ _ _)) => rewrite drop_put_same; solve_conn
  | |- conn_wf (put_channel _ _ (drop_channel _ _)) => rewrite put_drop_same; solve_conn
  | |- conn_wf (drop_channel _ _) => apply conn_wf_drop; solve_conn
  | Hwf : conn_wf ?s, Hl : channels ?s !! ?id = Some ?c |- conn_wf (put_channel ?id _ ?s) =>
      pose proof (conn_wf_lookup _ _ _ Hwf Hl);
      apply conn_wf_put; [assumption | first [assumption | solve_chan]]
  end.

Lemma accept_open_wf id s : conn_wf s → conn_wf (accept_open id s).2.
Proof. intros Hwf. unfold accept_open. op_cases; solve_conn. Qed.

Lemma reject_open_wf id reason d l s : conn_wf s → conn_wf (reject_open id reason d l s).2.
Proof. intros Hwf. unfold reject_open. op_cases; solve_conn. Qed.

Lemma send_request_state id req wr s : (send_request id req wr s).2 = s.
Proof. unfold send_request. op_cases; done. Qed.

Lemma set_xtype_wf id x s : conn_wf s → conn_wf (set_xtype id x s).
Proof. intros Hwf. unfold set_xtype. op_cases; solve_conn. Qed.

Lemma send_data_wf id data s : conn_wf s → conn_wf (send_data id data s).2.
Proof. intros Hwf. unfold send_data. op_cases; solve_conn. Qed.

Lemma send_datagram_wf id data s : conn_wf s → conn_wf (send_datagram id data s).2.
Proof.
  intros Hwf. unfold send_datagram. pose proof (send_data_wf id data s Hwf).
  op_cases; done.
Qed.

Lemma send_extended_data_wf id code data s :
  conn_wf s → conn_wf (send_extended_data id code data s).2.
Proof. intros Hwf. unfold send_extended_data. op_cases; solve_conn. Qed.

Lemma send_eof_wf id s : conn_wf s → conn_wf (send_eof id s).2.
Proof. intros Hwf. unfold send_eof. op_cases; solve_conn. Qed.

Lemma send_close_wf id s : conn_wf s → conn_wf (send_close id s).2.
Proof. intros Hwf. unfold send_close. op_cases; solve_conn. Qed.

Lemma replenish_window_wf id by_ s :
  is_u32 by_ → conn_wf s → conn_wf (replenish_window id by_ s).2.
Proof. intros Hb Hwf. unfold replenish_window. op_cases; solve_conn. Qed.

Lemma open_wf k s r s' : conn_wf s → open k s = Some (r, s') → conn_wf s'.
Proof.
  intros Hwf. unfold open. destruct (allocate_local_id s) as [[id s1]|] eqn:E; [|done].
  intros [= <- <-]. destruct (allocate_wf _ _ _ Hwf E) as (Hwf1 & Hid & _).
  apply conn_wf_put; [done|]. destruct Hwf1. by split; try width_lia.
Qed.

(** The inbound handlers: what they read is of the right width. *)
Ltac pose_widths :=
  repeat match goal with
  | H : read_u32 _ = Ok (?v, _) |- _ =>
      lazymatch goal with
      | _ : is_u32 v |- _ => fail
      | _ => pose proof (read_u32_width _ _ _ H)
      end
  end.

Lemma admit_data_spec msg data c c' :
  admit_data msg data c = Ok c' →
  open_confirmed c = true ∧ remote_eof c = false ∧ remote_closed c = false ∧
  wrap32 (len data) ≤ local_window c ∧ wrap32 (len data) ≤ local_max_packet c ∧
  c' = c <| local_window := local_window c - wrap32 (len data) |>
         <| activity := wrap64 (activity c + wrap32 (len data)) |>.
Proof.
  intros H. unfold admit_data in H. repeat (case_match; simplify_eq/=). zbool. done.
Qed.

Lemma admit_data_wf msg data id c c' :
  admit_data msg data c = Ok c' → chan_wf id c → chan_wf id c'.
Proof.
  intros (?&?&?&?&?&->)%admit_data_spec Hc. pose proof (wrap32_range (len data)). solve_chan.
Qed.

Lemma on_channel_open_wf r s res s' :
  conn_wf s → on_channel_open r s = Some (res, s') → conn_wf s'.
Proof.
  intros Hwf. unfold on_channel_open.
  destruct (read_utf8_borrowed r) as [[kn r1]|]; [|by intros [= _ <-]].
  destruct (read_u32 r1) as [[rid r2]|] eqn:E1; [|by intros [= _ <-]].
  destruct (read_u32 r2) as [[iw r3]|] eqn:E2; [|by intros [= _ <-]].
  destruct (read_u32 r3) as [[mp r4]|] eqn:E3; [|by intros [= _ <-]].
  destruct (read_rest r4) as [[tl r5]|]; [|by intros [= _ <-]].
  destruct (ChannelOpen.decode kn tl) as [k|]; [|by intros [= _ <-]].
  case_match; [by intros [= _ <-]|].
  destruct (allocate_local_id s) as [[id s1]|] eqn:E; [|done].
  intros [= _ <-]. destruct (allocate_wf _ _ _ Hwf E) as (Hwf1 & Hid & _). pose_widths.
  apply conn_wf_put; [done|]. destruct Hwf1. by split; try width_lia.
Qed.

Lemma on_packet_wf payload s res s' :
  conn_wf s → on_packet payload s = Some (res, s') → conn_wf s'.
Proof.
  intros Hwf H. unfold on_packet in H. destruct (read_u8 _) as [[msg r]|]; [|by simplify_eq].
  repeat (case_match; [|]); try (by eapply on_channel_open_wf);
    unfold on_global_request, on_open_confirmation, on_open_failure, on_window_adjust,
      on_channel_data, on_extended_data, on_channel_eof, on_channel_close, on_channel_request,
      on_channel_success, on_channel_failure in H; simplify_eq; op_cases; pose_widths;
    try solve_conn;
    (apply conn_wf_put; [done|]; eapply admit_data_wf; [eassumption|by eapply conn_wf_lookup]).
Qed.

(** Opening a channel terminates as long as fewer than [2^32] channels
    are tracked; the new entry gets an id no other channel uses, is pending
    and marked as ours, and no other entry changes. *)
Theorem open_fresh k s :
  conn_wf s → Z.of_nat (size (channels s)) < 4294967296 →
  ∃ id payload c s', open k s = Some (Ok (id, payload), s') ∧
    channels s !! id = None ∧ channels s' = <[id := c]> (channels s) ∧
    is_open c = false ∧ initiated_by_us c = true ∧ local_window c = default_window s.
Proof.
  intros Hwf Hs. destruct (allocate_local_id_total s Hwf Hs) as (id & s1 & E & _).
  destruct (allocate_wf _ _ _ Hwf E) as (_ & _ & Hch & Hf & Hw & _).
  unfold open. rewrite E. eexists id, _, _, _. split; [done|]. split; [done|].
  unfold put_channel, set_field; cbn. rewrite Hch. done.
Qed.

Lemma open_fresh_witness :
  ∃ id payload c s', open ChannelOpen.Session conn_new = Some (Ok (id, payload), s') ∧
    channels conn_new !! id = None ∧ channels s' = <[id := c]> (channels conn_new) ∧
    is_open c = false ∧ initiated_by_us c = true ∧ local_window c = default_window conn_new.
Proof. apply open_fresh; [exact conn_wf_new|by vm_compute]. Defined.

(** ** Runs of the multiplexer *)

(** A call of a public operation, or an assignment to a public field. *)
Inductive conn_op :=
  | OpOpen (k : ChannelOpen.t)
  | OpAccept (id : Z)
  | OpReject (id reason : Z) (description language : bytes)
  | OpRequest (id : Z) (req : ChannelRequest.t) (want_reply : bool)
  | OpRequestSuccess (id : Z)
  | OpRequestFailure (id : Z)
  | OpXtype (id : Z) (x : bytes)
  | OpData (id : Z) (data : bytes)
  | OpDatagram (id : Z) (data : bytes)
  | OpExtendedData (id code : Z) (data : bytes)
  | OpEof (id : Z)
  | OpClose (id : Z)
  | OpReplenish (id by_ : Z)
  | OpPacket (payload : bytes)
  | OpConfigure (window packet channels : Z).

Definition conn_exec (o : conn_op) (s : ConnectionState) : option ConnectionState :=
  match o with
  | OpOpen k => snd <$> open k s
  | OpAccept id => Some (accept_open id s).2
  | OpReject id reason d l => Some (reject_open id reason d l s).2
  | OpRequest id req wr => Some (send_request id req wr s).2
  | OpRequestSuccess id => Some (send_request_success id s).2
  | OpRequestFailure id => Some (send_request_failure id s).2
  | OpXtype id x => Some (set_xtype id x s)
  | OpData id data => Some (send_data id data s).2
  | OpDatagram id data => Some (send_datagram id data s).2
  | OpExtendedData id code data => Some (send_extended_data id code data s).2
  | OpEof id => Some (send_eof id s).2
  | OpClose id => Some (send_close id s).2
  | OpReplenish id by_ => Some (replenish_window id by_ s).2
  | OpPacket payload => snd <$> on_packet payload s
  | OpConfigure w p n =>
      Some (s <| default_window := w |> <| default_max_packet := p |> <| max_channels := n |>)
  end.

(** The [u32] arguments are [u32]s. *)
Definition op_ok (o : conn_op) : Prop :=
  match o with
  | OpReplenish _ by_ => is_u32 by_
  | OpConfigure w p n => is_u32 w ∧ is_u32 p ∧ is_u32 n
  | _ => True
  end.

Inductive conn_reachable : ConnectionState → Prop :=
  | reach_new : conn_reachable conn_new
  | reach_step s o s' :
      conn_reachable s → op_ok o → conn_exec o s = Some s' → conn_reachable s'.

Lemma conn_exec_wf o s s' : conn_wf s → op_ok o → conn_exec o s = Some s' → conn_wf s'.
Proof.
  intros Hwf Hok. destruct o; cbn [conn_exec op_ok] in *; intros H; simplify_eq/=.
  - destruct (open k s) as [[? ?]|] eqn:E; simplify_eq/=. by eapply open_wf.
  - by apply accept_open_wf.
  - by apply reject_open_wf.
  - by rewrite send_request_state.
  - unfold send_request_success. by op_cases.
  - unfold send_request_failure. by op_cases.
  - by apply set_xtype_wf.
  - by apply send_data_wf.
  - by apply send_datagram_wf.
  - by apply send_extended_data_wf.
  - by apply send_eof_wf.
  - by apply send_close_wf.
  - by apply replenish_window_wf.
  - destruct (on_packet payload s) as [[? ?]|] eqn:E; simplify_eq/=. by eapply on_packet_wf.
  - destruct Hwf, Hok as (? & ? & ?). by split.
Qed.

(** In every state the multiplexer reaches, whatever calls its user makes
    and whatever packets the peer sends, each entry sits under its own local
    id, all windows, limits and counters are in the range of their integer
    type, no fully closed channel is still tracked, and a channel saw the
    peer's EOF or CLOSE only after its open was confirmed. *)
Theorem conn_reachable_wf s : conn_reachable s → conn_wf s.
Proof.
  induction 1 as [|s o s' _ IH Hok Hex]; [apply conn_wf_new|]. by eapply conn_exec_wf.
Qed.

Lemma conn_reachable_wf_witness :
  ∃ s, conn_reachable s ∧ conn_wf s ∧ size (channels s) = 1%nat.
Proof.
  destruct (conn_exec (OpOpen ChannelOpen.Session) conn_new) as [s|] eqn:E;
    [|vm_compute in E; congruence].
  assert (Hr : conn_reachable s) by (exact (reach_step _ (OpOpen ChannelOpen.Session) _ reach_new I E)).
  exists s. split; [exact Hr|]. split; [exact (conn_reachable_wf s Hr)|].
  vm_compute in E. injection E as <-. by vm_compute.
Defined.

Lemma Some_pair {A B} (p : A * B) : ∃ a b, Some p = Some (a, b).
Proof. destruct p. eauto. Qed.

(** ** What an accepted packet may do: the abstract contract *)

Lemma read_string_len_u32 r x r' : read_string r = Ok (x, r') → is_u32 (len x).
Proof.
  unfold read_string. destruct (read_u32 r) as [[n r1]|] eqn:E; [|done].
  apply read_u32_width in E. intros E2. apply read_take_len in E2; [|width_lia].
  pose proof (len_nonneg x). width_lia.
Qed.

Definition after_data (data : bytes) (c : ChannelState) : ChannelState :=
  c <| local_window := local_window c - len data |>
    <| activity := wrap64 (activity c + len data) |>.

(** The peer may send [data] on [c] now. *)
Definition may_receive (data : bytes) (c : ChannelState) : Prop :=
  open_confirmed c = true ∧ remote_eof c = false ∧ remote_closed c = false ∧
  len data ≤ local_window c ∧ len data ≤ local_max_packet c.

Inductive packet_effect (s : ConnectionState) : ChannelEvent → ConnectionState → Prop :=
  | pe_global_request req wr : packet_effect s (GlobalRequestEv req wr) s
  | pe_global_success d : packet_effect s (GlobalSuccess d) s
  | pe_global_failure : packet_effect s GlobalFailure s
  | pe_rejected payload :
      max_channels s ≤ Z.of_nat (size (channels s)) →
      packet_effect s (OpenRejected payload SSH_OPEN_RESOURCE_SHORTAGE) s
  | pe_open id k c s' :
      Z.of_nat (size (channels s)) < max_channels s →
      channels s !! id = None →
      open_confirmed c = false → initiated_by_us c = false →
      local_window c = default_window s → local_max_packet c = default_max_packet s →
      channels s' = <[id := c]> (channels s) → max_channels s' = max_channels s →
      packet_effect s (OpenRequest id k) s'
  | pe_confirmed id c rid iw mp :
      channels s !! id = Some c → open_confirmed c = false → initiated_by_us c = true →
      packet_effect s (OpenConfirmed id)
        (put_channel id (c <| remote_id := rid |> <| remote_window := iw |>
           <| remote_max_packet := mp |> <| open_confirmed := true |>) s)
  | pe_failed id c reason d :
      channels s !! id = Some c → open_confirmed c = false → initiated_by_us c = true →
      packet_effect s (OpenFailed id reason d) (drop_channel id s)
  | pe_adjust id c added :
      channels s !! id = Some c →
      packet_effect s (WindowAdjust id added)
        (put_channel id (c <| remote_window := sat_add32 (remote_window c) added |>) s)
  | pe_data id c data :
      channels s !! id = Some c → may_receive data c →
      packet_effect s (Data id data) (put_channel id (after_data data c) s)
  | pe_extended id c code data :
      channels s !! id = Some c → may_receive data c →
      packet_effect s (ExtendedData id code data) (put_channel id (after_data data c) s)
  | pe_eof id c :
      channels s !! id = Some c → open_confirmed c = true →
      packet_effect s (Eof id) (put_channel id (c <| remote_eof := true |>) s)
  | pe_close_half id c :
      channels s !! id = Some c → open_confirmed c = true → local_closed c = false →
      packet_effect s (Close id) (put_channel id (c <| remote_closed := true |>) s)
  | pe_close_full id c :
      channels s !! id = Some c → open_confirmed c = true → local_closed c = true →
      packet_effect s (Close id) (drop_channel id s)
  | pe_request id c req wr :
      channels s !! id = Some c → open_confirmed c = true →
      packet_effect s (Request id req wr) s
  | pe_success id c : channels s !! id = Some c → packet_effect s (Success id) s
  | pe_failure id c : channels s !! id = Some c → packet_effect s (Failure id) s.

Lemma admit_data_receive msg data c c' :
  is_u32 (len data) → admit_data msg data c = Ok c' →
  may_receive data c ∧ c' = after_data data c.
Proof.
  intros Hl (?&?&?&Hw&Hp&->)%admit_data_spec. rewrite wrap32_small in * by done. done.
Qed.

Lemma on_channel_open_effect r s ev s' :
  conn_wf s → on_channel_open r s = Some (Ok ev, s') → packet_effect s ev s'.
Proof.
  intros Hwf. unfold on_channel_open.
  destruct (let? (_, _) := read_utf8_borrowed r in _) as [[[[[kn rid] iw] mp] k]|]; [|done].
  destruct (Z.leb_spec (max_channels s) (Z.of_nat (size (channels s)))) as [Hc|Hc].
  { intros [= <- <-]. by constructor. }
  destruct (allocate_local_id s) as [[id s1]|] eqn:E; [|done].
  destruct (allocate_wf _ _ _ Hwf E) as (_ & _ & Hch & Hf & Hw & Hp & Hm).
  intros [= <- <-]. eapply pe_open; [done|done| | | | | |]; unfold put_channel, set_field; cbn.
  5: by rewrite Hch. all: done.
Qed.

(** Every packet the multiplexer accepts has one of the effects the contract
    allows for its event. *)
Lemma on_packet_effect payload s ev s' :
  conn_wf s → on_packet payload s = Some (Ok ev, s') → packet_effect s ev s'.
Proof.
  intros Hwf H. unfold on_packet in H. destruct (read_u8 _) as [[msg r]|]; [|done].
  repeat (case_match; [|]); try exact (on_channel_open_effect _ _ _ _ Hwf H);
    unfold on_global_request, on_open_confirmation, on_open_failure, on_window_adjust,
      on_channel_data, on_extended_data, on_channel_eof, on_channel_close, on_channel_request,
      on_channel_success, on_channel_failure, is_fully_closed in H; simplify_eq; op_cases; zbool;
    repeat match goal with
    | Hr : read_string _ = Ok (?x, _), Ha : admit_data _ ?x _ = Ok _ |- _ =>
        apply admit_data_receive in Ha as [? ->]; [|exact (read_string_len_u32 _ _ _ Hr)]
    | Hc : local_closed (set_field _ ?c) && _ = _ |- _ => unfold set_field in Hc; cbn in Hc
    end; zbool; rewrite ?drop_put_same;
    try (solve [econstructor; first [eassumption | done]]).
  destruct_or!; [by apply pe_close_half|done].
Qed.

(** A stream of packets handled one after the other, as the runner does. *)
Fixpoint on_packets (ps : list bytes) (s : ConnectionState)
    : option (list (result ChannelEvent) * ConnectionState) :=
  match ps with
  | [] => Some ([], s)
  | p :: ps' =>
      match on_packet p s with
      | None => None
      | Some (res, s1) =>
          match on_packets ps' s1 with
          | None => None
          | Some (rs, s2) => Some (res :: rs, s2)
          end
      end
  end.

(** The abstract machine: a refused packet changes nothing, an accepted one
    has an allowed effect. *)
Inductive effects : ConnectionState → list (result ChannelEvent) → ConnectionState → Prop :=
  | effects_nil s : effects s [] s
  | effects_err s e rs s' : effects s rs s' → effects s (Err e :: rs) s'
  | effects_ok s ev s1 rs s' :
      packet_effect s ev s1 → effects s1 rs s' → effects s (Ok ev :: rs) s'.

Lemma on_packet_err_state payload s e s' : on_packet payload s = Some (Err e, s') → s' = s.
Proof.
  intros H. unfold on_packet, on_global_request, on_channel_open, on_open_confirmation,
    on_open_failure, on_window_adjust, on_channel_data, on_extended_data, on_channel_eof,
    on_channel_close, on_channel_request, on_channel_success, on_channel_failure in H.
  repeat (case_match; simplify_eq/=; try done).
Qed.

Lemma on_packet_some payload s : conn_wf s → ∃ res s', on_packet payload s = Some (res, s').
Proof.
  intros Hwf. unfold on_packet. destruct (read_u8 _) as [[msg r]|]; [|apply Some_pair].
  repeat (case_match; [try apply Some_pair|try apply Some_pair]).
  unfold on_channel_open. destruct (let? (_, _) := read_utf8_borrowed r in _)
    as [[[[[kn rid] iw] mp] k]|]; [|apply Some_pair].
  destruct (Z.leb_spec (max_channels s) (Z.of_nat (size (channels s)))); [apply Some_pair|].
  destruct (allocate_local_id_total s) as (id & s' & -> & _); [done| |apply Some_pair].
  pose proof (nw_max _ Hwf). width_lia.
Qed.

(** C22: refinement. Whatever packets a peer sends, the multiplexer handles
    all of them (no loop diverges), and the run is a run of the abstract
    machine: a refused packet leaves the state as it was, and an accepted
    packet has exactly an effect the contract [packet_effect] allows, with
    the guards of its event satisfied in the state before. *)
Theorem on_packets_refine ps s :
  conn_wf s → ∃ rs s', on_packets ps s = Some (rs, s') ∧ effects s rs s' ∧ conn_wf s'.
Proof.
  revert s. induction ps as [|p ps IH]; intros s Hwf; cbn [on_packets].
  { exists [], s. split; [done|]. split; [constructor|done]. }
  destruct (on_packet_some p s Hwf) as (res & s1 & E). rewrite E.
  pose proof (on_packet_wf _ _ _ _ Hwf E) as Hwf1.
  destruct (IH s1 Hwf1) as (rs & s' & -> & Heff & Hwf').
  exists (res :: rs), s'. split; [done|]. split; [|done].
  destruct res as [ev|e].
  - eapply effects_ok; [by eapply on_packet_effect|done].
  - apply on_packet_err_state in E as ->. by apply effects_err.
Qed.

Lemma on_packets_refine_witness :
  ∃ rs s', on_packets [send_global_request GlobalRequest.Keepalive true; send_global_failure]
             conn_new = Some (rs, s') ∧ effects conn_new rs s' ∧ conn_wf s'.
Proof. apply on_packets_refine. exact conn_wf_new. Defined.

Lemma size_insert_le {A} (m : gmap Z A) i x :
  (size (<[i := x]> m) ≤ S (size m))%nat.
Proof. rewrite map_size_insert. destruct (m !! i); cbn; lia. Qed.

Lemma size_put_same s id c c' :
  channels s !! id = Some c → size (channels (put_channel id c' s)) = size (channels s).
Proof. intros H. unfold put_channel, set_field; cbn. by rewrite map_size_insert, H. Qed.

Lemma size_drop_le s id : (size (channels (drop_channel id s)) ≤ size (channels s))%nat.
Proof.
  unfold drop_channel, set_field; cbn. rewrite map_size_delete.
  destruct (channels s !! id); cbn; lia.
Qed.

Lemma packet_effect_size s ev s' :
  packet_effect s ev s' →
  max_channels s' = max_channels s ∧
  Z.of_nat (size (channels s')) ≤ Z.max (Z.of_nat (size (channels s))) (max_channels s).
Proof.
  destruct 1; try (split; [done|]);
    try (erewrite size_put_same by eassumption; lia);
    try (pose proof (size_drop_le s id); lia); try lia.
  match goal with H : channels s' = _ |- _ => rewrite H end.
  pose proof (size_insert_le (channels s) id c). lia.
Qed.

(** The peer cannot make the channel map grow past the configured cap:
    after any number of its packets there are at most
    [max(channels before, max_channels)] entries. *)
Theorem on_packets_cap ps s rs s' :
  conn_wf s → on_packets ps s = Some (rs, s') →
  Z.of_nat (size (channels s')) ≤ Z.max (Z.of_nat (size (channels s))) (max_channels s).
Proof.
  revert s rs. induction ps as [|p ps IH]; intros s rs Hwf; cbn [on_packets].
  { intros [= _ <-]. lia. }
  destruct (on_packet p s) as [[res s1]|] eqn:E; [|done].
  destruct (on_packets ps s1) as [[rs1 s2]|] eqn:E1; [|done]. intros [= _ <-].
  specialize (IH _ _ (on_packet_wf _ _ _ _ Hwf E) E1). destruct res as [ev|e].
  - apply on_packet_effect in E as [? ?]%packet_effect_size; [|done]. lia.
  - by apply on_packet_err_state in E as ->.
Qed.

(** A peer that opens session channels: ids 0, 1, 2 against a cap of 2. *)
Definition session_open (rid : Z) : bytes :=
  into_vec (writer_new |>> write_u8 MSG_CHANNEL_OPEN |>> write_string (bs "session")
    |>> write_u32 rid |>> write_u32 1000 |>> write_u32 100).

Lemma on_packets_cap_witness :
  ∃ rs s', on_packets [session_open 0; session_open 1; session_open 2]
             (conn_new <| max_channels := 2 |>) = Some (rs, s') ∧
    Z.of_nat (size (channels s')) ≤ Z.max (Z.of_nat (size (channels conn_new))) 2 ∧
    size (channels s') = 2%nat.
Proof.
  destruct (on_packets [session_open 0; session_open 1; session_open 2]
    (conn_new <| max_channels := 2 |>)) as [[rs s']|] eqn:E; [|vm_compute in E; congruence].
  exists rs, s'. split; [done|]. split.
  - refine (on_packets_cap _ _ _ _ _ E).
    destruct conn_wf_new. by split.
  - vm_compute in E. injection E as _ <-. by vm_compute.
Defined.

(** The flags of [c] that only we may set are the same in [c']. *)
Definition same_local_flags (c c' : ChannelState) : Prop :=
  initiated_by_us c' = initiated_by_us c ∧ local_eof c' = local_eof c ∧
  local_closed c' = local_closed c ∧ initial_local_window c' = initial_local_window c ∧
  pending_replenish c' = pending_replenish c ∧ ch_kind c' = ch_kind c.

Lemma lookup_put s id c id' :
  channels (put_channel id c s) !! id' = if decide (id = id') then Some c else channels s !! id'.
Proof. unfold put_channel, set_field; cbn. apply lookup_insert. Qed.

Lemma lookup_drop s id id' :
  channels (drop_channel id s) !! id' = if decide (id = id') then None else channels s !! id'.
Proof. unfold drop_channel, set_field; cbn. apply lookup_delete. Qed.

(** A channel the peer asked for and we have not accepted yet stays pending. *)
Definition peer_pending (s : ConnectionState) (id : Z) : Prop :=
  ∃ c, channels s !! id = Some c ∧ open_confirmed c = false ∧ initiated_by_us c = false.

Lemma packet_effect_pending s ev s' id :
  packet_effect s ev s' → peer_pending s id → peer_pending s' id.
Proof.
  intros Heff (c & Hc & Hop & Hini). unfold peer_pending.
  destruct Heff; try (by exists c);
    try (match goal with H : channels s' = _ |- _ => rewrite H end; exists c;
         rewrite lookup_insert_ne by congruence; done);
    rewrite ?lookup_put, ?lookup_drop; destruct (decide _) as [->|]; simplify_eq;
    try (by exists c); unfold may_receive in *; destruct_and?; try congruence.
  by eexists.
Qed.

(** A peer cannot force its own open. Whatever packets it sends
    (confirmations, failures, closes included), a channel it asked for that
    we have not accepted stays tracked, pending and not ours. *)
Theorem peer_cannot_confirm ps s rs s' id :
  conn_wf s → on_packets ps s = Some (rs, s') → peer_pending s id → peer_pending s' id.
Proof.
  revert s rs. induction ps as [|p ps IH]; intros s rs Hwf; cbn [on_packets].
  { by intros [= _ <-]. }
  destruct (on_packet p s) as [[res s1]|] eqn:E; [|done].
  destruct (on_packets ps s1) as [[rs1 s2]|] eqn:E1; [|done]. intros [= _ <-] Hp.
  apply (IH _ _ (on_packet_wf _ _ _ _ Hwf E) E1). destruct res as [ev|e].
  - apply on_packet_effect in E; [|done]. by eapply packet_effect_pending.
  - by apply on_packet_err_state in E as ->.
Qed.

(** The state after the peer's open of its channel 7 was tracked as our 0. *)
Definition pending_conn : ConnectionState :=
  match on_packet (session_open 7) conn_new with Some (_, s) => s | None => conn_new end.

(** The confirmation and the close the peer must not get away with. *)
Definition forged_packets : list bytes :=
  [into_vec (writer_new |>> write_u8 MSG_CHANNEL_OPEN_CONFIRMATION |>> write_u32 0
     |>> write_u32 7 |>> write_u32 1 |>> write_u32 1);
   into_vec (writer_new |>> write_u8 MSG_CHANNEL_CLOSE |>> write_u32 0)].

Lemma pending_conn_wf : conn_wf pending_conn.
Proof.
  unfold pending_conn. destruct (on_packet _ _) as [[res s]|] eqn:E; [|exact conn_wf_new].
  exact (on_packet_wf _ _ _ _ conn_wf_new E).
Qed.

Lemma peer_cannot_confirm_witness :
  ∃ rs s', on_packets forged_packets pending_conn = Some (rs, s') ∧ peer_pending s' 0.
Proof.
  destruct (on_packets forged_packets pending_conn) as [[rs s']|] eqn:E;
    [|vm_compute in E; congruence].
  exists rs, s'. split; [reflexivity|].
  refine (peer_cannot_confirm _ _ _ _ 0 pending_conn_wf E _).
  destruct (channels pending_conn !! 0) as [c|] eqn:Ec; [|vm_compute in Ec; congruence].
  exists c. split; [exact Ec|]. vm_compute in Ec. injection Ec as <-. split; reflexivity.
Defined.
