(* ===== verification/ChannelFlow.v ===== *)
(** * Two multiplexers talking to each other

    The messages one [ConnectionState] emits, handled by another: the open
    handshake agrees on ids, windows and packet limits, and on an open channel
    an honest sender is never refused by the receiver's window or packet
    checks, whatever the interleaving of sends, deliveries, window credits and
    activity of other channels.  Per channel the transport is a FIFO, so the
    packets in flight are two queues. *)
From S2P Require Import Prelude Wire Text ChannelMsg Channel ChannelFacts.

(** ** Handling a message a peer built *)

Lemma read_rest_at pre post :
  fits_mem (pre ++ post) →
  read_rest (reader_at pre post) = Ok (post, reader_at (pre ++ post) []).
Proof.
  intros Hm. unfold read_rest. rewrite remaining_at.
  pose proof (read_take_at pre post [] (len post)) as H. rewrite app_nil_r in H.
  by apply H.
Qed.

(** Decides the dispatch on the message number. *)
Ltac dispatch :=
  repeat match goal with
  | |- context [?a =? ?b] =>
      let v := eval vm_compute in (a =? b) in
      lazymatch v with true => idtac | false => idtac end;
      change (a =? b) with v; cbn match
  end.

Definition data_payload (rid : Z) (chunk : bytes) : bytes :=
  into_vec (writer_new |>> write_u8 MSG_CHANNEL_DATA |>> write_u32 rid |>> write_string chunk).

Definition adjust_payload (rid added : Z) : bytes :=
  into_vec (writer_new |>> write_u8 MSG_CHANNEL_WINDOW_ADJUST |>> write_u32 rid
    |>> write_u32 added).

Lemma on_packet_data_payload id chunk s :
  is_u32 id → is_u32 (len chunk) →
  on_packet (data_payload id chunk) s =
    Some (let! c := get_mut s id at s in
          let! c := admit_data "data after EOF/close" chunk c at s in
          (Ok (Data id chunk), put_channel id c s)).
Proof.
  intros Hid Hc.
  assert (Hm : fits_mem (data_payload id chunk)).
  { unfold data_payload; writer_norm. unfold fits_mem. autorewrite with lens. width_lia. }
  revert Hm. unfold data_payload; writer_norm; intros Hm. unfold on_packet.
  rewrite reader_new_end. app_norm.
  rewrite read_u8_at by (first [solve_mem | by vm_compute]). dispatch.
  unfold on_channel_data. rewrite read_u32_at by (first [solve_mem | done]).
  by rewrite read_string_at by (first [solve_mem | done]).
Qed.

Lemma on_packet_adjust_payload id added s :
  is_u32 id → is_u32 added →
  on_packet (adjust_payload id added) s =
    Some (let! c := get_mut s id at s in
          (Ok (WindowAdjust id added),
           put_channel id (c <| remote_window := sat_add32 (remote_window c) added |>) s)).
Proof.
  intros Hid Hc.
  assert (Hm : fits_mem (adjust_payload id added)).
  { unfold adjust_payload; writer_norm. unfold fits_mem. autorewrite with lens. width_lia. }
  revert Hm. unfold adjust_payload; writer_norm; intros Hm. unfold on_packet.
  rewrite reader_new_end. app_norm.
  rewrite read_u8_at by (first [solve_mem | by vm_compute]). dispatch.
  unfold on_window_adjust. rewrite read_u32_at by (first [solve_mem | done]).
  by rewrite read_u32_at by (first [solve_mem | done]).
Qed.

Definition open_payload (k : ChannelOpen.t) (id lw lmp : Z) : bytes :=
  into_vec (writer_new |>> write_u8 MSG_CHANNEL_OPEN |>> write_string (ChannelOpen.kind k)
    |>> write_u32 id |>> write_u32 lw |>> write_u32 lmp |>> ChannelOpen.encode_tail k).

Lemma encode_tail_app k w :
  w_buf (ChannelOpen.encode_tail k w) = w_buf w ++ into_vec (ChannelOpen.encode_tail k writer_new).
Proof.
  destruct k; cbn [ChannelOpen.encode_tail]; unfold into_vec; writer_norm;
    by rewrite ?app_nil_r.
Qed.

Lemma open_payload_bytes k id lw lmp :
  open_payload k id lw lmp =
    byte_of_Z MSG_CHANNEL_OPEN :: be_bytes 4 (wrap32 (len (ChannelOpen.kind k))) ++
    ChannelOpen.kind k ++ be_bytes 4 id ++ be_bytes 4 lw ++ be_bytes 4 lmp ++
    into_vec (ChannelOpen.encode_tail k writer_new).
Proof.
  unfold open_payload. unfold into_vec at 1. rewrite encode_tail_app.
  unfold write_u32 at 1 2 3. unfold write_string, write_u32, write_u8, writer_new.
  cbn [w_buf]. app_norm. done.
Qed.

(** Reading back the fixed part of a CHANNEL_OPEN. *)
Lemma on_packet_open_payload k id lw lmp s :
  ChannelOpen.wf k → is_u32 id → is_u32 lw → is_u32 lmp →
  fits_mem (open_payload k id lw lmp) →
  on_packet (open_payload k id lw lmp) s =
    (if max_channels s <=? Z.of_nat (size (channels s)) then
       Some (Ok (OpenRejected (into_vec (writer_new |>> write_u8 MSG_CHANNEL_OPEN_FAILURE
         |>> write_u32 id |>> write_u32 SSH_OPEN_RESOURCE_SHORTAGE
         |>> write_string (bs "channel limit reached") |>> write_string (bs "")))
         SSH_OPEN_RESOURCE_SHORTAGE), s)
     else
       match allocate_local_id s with
       | None => None
       | Some (lid, s) =>
           Some (Ok (OpenRequest lid k), put_channel lid
             {| local_id := lid; remote_id := id; local_window := default_window s;
                remote_window := lw; local_max_packet := default_max_packet s;
                remote_max_packet := lmp; ch_kind := ChannelOpen.kind k;
                local_eof := false; remote_eof := false; local_closed := false;
                remote_closed := false; activity := 0; xtype := None;
                initial_local_window := default_window s; pending_replenish := 0;
                open_confirmed := false; initiated_by_us := false |} s)
       end).
Proof.
  intros Hk Hid Hlw Hlmp Hm. pose proof (ChannelOpen.kind_is_str k Hk) as Hks.
  rewrite open_payload_bytes in Hm |- *.
  set (tl := into_vec (ChannelOpen.encode_tail k writer_new)) in *.
  assert (fits_mem tl) as Htl.
  { pose proof (len_nonneg (ChannelOpen.kind k)). solve_mem. }
  unfold on_packet. rewrite reader_new_at.
  rewrite read_u8_at by (first [solve_mem | by vm_compute]). dispatch.
  unfold on_channel_open, read_utf8_borrowed.
  rewrite read_utf8_at by (first [solve_mem | done]).
  do 3 (rewrite read_u32_at by (first [solve_mem | done])).
  rewrite read_rest_at by solve_mem.
  unfold tl. rewrite ChannelOpen.open_decode_encode by done. done.
Qed.

Definition confirm_payload (rid id lw lmp : Z) : bytes :=
  into_vec (writer_new |>> write_u8 MSG_CHANNEL_OPEN_CONFIRMATION |>> write_u32 rid
    |>> write_u32 id |>> write_u32 lw |>> write_u32 lmp).

Lemma on_packet_confirm_payload id rid lw lmp s c :
  is_u32 id → is_u32 rid → is_u32 lw → is_u32 lmp →
  channels s !! id = Some c → open_confirmed c = false → initiated_by_us c = true →
  on_packet (confirm_payload id rid lw lmp) s =
    Some (Ok (OpenConfirmed id),
      put_channel id (c <| remote_id := rid |> <| remote_window := lw |>
        <| remote_max_packet := lmp |> <| open_confirmed := true |>) s).
Proof.
  intros Hid Hrid Hlw Hlmp Hc Hop Hini.
  assert (Hm : fits_mem (confirm_payload id rid lw lmp)).
  { unfold confirm_payload; writer_norm. unfold fits_mem. autorewrite with lens. width_lia. }
  revert Hm. unfold confirm_payload; writer_norm; intros Hm. unfold on_packet.
  rewrite reader_new_end. app_norm.
  rewrite read_u8_at by (first [solve_mem | by vm_compute]). dispatch.
  unfold on_open_confirmation. do 4 (rewrite read_u32_at by (first [solve_mem | done])).
  unfold ok_or. by rewrite Hc, Hop, Hini.
Qed.

(** ** The open handshake *)

(** [ca] at one end and [cb] at the other describe the same open channel. *)
Record paired (ca cb : ChannelState) : Prop := {
  pr_ids : remote_id ca = local_id cb ∧ remote_id cb = local_id ca;
  pr_open : is_open ca = true ∧ is_open cb = true;
  pr_win_ab : remote_window ca = local_window cb;
  pr_win_ba : remote_window cb = local_window ca;
  pr_max_ab : remote_max_packet ca = local_max_packet cb;
  pr_max_ba : remote_max_packet cb = local_max_packet ca
}.

(** The open handshake. [open] at one end, the peer handling the
    CHANNEL_OPEN and accepting it, and the confirmation handled back, leave
    both ends with an open channel that agrees on ids, windows and packet
    limits; the peer sees exactly the kind that was asked for. *)
Theorem open_handshake k a b :
  conn_wf a → conn_wf b → ChannelOpen.wf k →
  Z.of_nat (size (channels a)) < 4294967296 →
  Z.of_nat (size (channels b)) < max_channels b →
  (∀ id, is_u32 id → fits_mem (open_payload k id (default_window a) (default_max_packet a))) →
  ∃ ia p1 a1 ib b1 p2 b2 a2 ca cb,
    open k a = Some (Ok (ia, p1), a1) ∧
    on_packet p1 b = Some (Ok (OpenRequest ib k), b1) ∧
    accept_open ib b1 = (Ok p2, b2) ∧
    on_packet p2 a1 = Some (Ok (OpenConfirmed ia), a2) ∧
    channels a2 = <[ia := ca]> (channels a) ∧ channels b2 = <[ib := cb]> (channels b) ∧
    paired ca cb.
Proof.
  intros Ha Hb Hk Hsa Hsb Hmem.
  destruct (allocate_local_id_total a Ha Hsa) as (ia & a0 & Ea & _).
  destruct (allocate_wf _ _ _ Ha Ea) as (Hwa & Hia & Hcha & Hfa & Hda & Hpa & _).
  destruct (allocate_local_id_total b Hb) as (ib & b0 & Eb & _);
    [pose proof (nw_max _ Hb); width_lia|].
  destruct (allocate_wf _ _ _ Hb Eb) as (Hwb & Hib & Hchb & Hfb & Hdb & Hpb & _).
  destruct Hwa as [_ Hwin Hpkt _ _]. destruct Hwb as [_ Hwinb Hpktb _ _].
  specialize (Hmem ia Hia). rewrite <- Hda, <- Hpa in Hmem.
  pose proof (on_packet_open_payload k ia _ _ b Hk Hia Hwin Hpkt Hmem) as Hopen.
  rewrite (proj2 (Z.leb_gt _ _)), Eb in Hopen by done.
  eexists ia, _, _, ib, _, _, _, _, _, _.
  split. { unfold open. rewrite Ea. reflexivity. }
  split. { exact Hopen. }
  split. { unfold accept_open, get_mut, ok_or. rewrite lookup_put, decide_True by done.
           cbn [open_confirmed]. reflexivity. }
  split. { eapply on_packet_confirm_payload; try done.
           - rewrite lookup_put, decide_True by done. reflexivity.
           - done.
           - done. }
  split. { unfold put_channel, set_field; cbn. rewrite insert_insert_eq, Hcha. reflexivity. }
  split. { unfold put_channel, set_field; cbn. rewrite insert_insert_eq, Hchb. reflexivity. }
  by split.
Qed.

Lemma open_handshake_witness :
  ∃ ia p1 a1 ib b1 p2 b2 a2 ca cb,
    open ChannelOpen.Session conn_new = Some (Ok (ia, p1), a1) ∧
    on_packet p1 conn_new = Some (Ok (OpenRequest ib ChannelOpen.Session), b1) ∧
    accept_open ib b1 = (Ok p2, b2) ∧
    on_packet p2 a1 = Some (Ok (OpenConfirmed ia), a2) ∧
    channels a2 = <[ia := ca]> (channels conn_new) ∧
    channels b2 = <[ib := cb]> (channels conn_new) ∧ paired ca cb.
Proof.
  apply open_handshake; first [exact conn_wf_new | done].
Defined.

(** ** Flow control on one channel *)

Definition sum_Z (l : list Z) : Z := foldr Z.add 0 l.

Lemma sum_Z_app l k : sum_Z (l ++ k) = sum_Z l + sum_Z k.
Proof. unfold sum_Z. induction l as [|x l IH]; cbn; lia. Qed.
Lemma sum_Z_cons x l : sum_Z (x :: l) = x + sum_Z l.
Proof. done. Qed.
Lemma sum_Z_single x : sum_Z [x] = x.
Proof. unfold sum_Z. cbn. lia. Qed.

(** One direction of an open channel: the sending end [lk_a] with its data
    packets in flight, the receiving end [lk_b] with its window credits in
    flight, the bytes the receiver's application holds and has not credited
    back yet, and, as ghost state, the byte streams sent and received. *)
Record Link := {
  lk_a : ConnectionState;
  lk_b : ConnectionState;
  lk_data : list bytes;
  lk_credit : list bytes;
  lk_held : Z;
  lk_sent : bytes;
  lk_received : bytes
}.

#[export] Instance Link_eta : Etable Link := fun l =>
  {| lk_a := lk_a l; lk_b := lk_b l; lk_data := lk_data l; lk_credit := lk_credit l;
     lk_held := lk_held l; lk_sent := lk_sent l; lk_received := lk_received l |}.

Section Flow.
Context (ia ib : Z).

Inductive link_step : Link → Link → Prop :=
  (** the sender's application writes: [send_data] *)
  | ls_send l data payload n a' :
      send_data ia data (lk_a l) = (Ok (payload, n), a') →
      link_step l (l <| lk_a := a' |> <| lk_data := lk_data l ++ [payload] |>
        <| lk_sent := lk_sent l ++ take (Z.to_nat n) data |>)
  (** the oldest data packet reaches the receiver *)
  | ls_deliver l p rest chunk b' :
      lk_data l = p :: rest →
      on_packet p (lk_b l) = Some (Ok (Data ib chunk), b') →
      link_step l (l <| lk_b := b' |> <| lk_data := rest |>
        <| lk_held := lk_held l + len chunk |> <| lk_received := lk_received l ++ chunk |>)
  (** the receiver's application consumed [n] of the bytes it holds *)
  | ls_consume l n out b' :
      0 ≤ n ≤ lk_held l →
      replenish_window ib n (lk_b l) = (Ok out, b') →
      link_step l (l <| lk_b := b' |> <| lk_held := lk_held l - n |>
        <| lk_credit := lk_credit l ++ option_list out |>)
  (** the oldest window credit reaches the sender *)
  | ls_credit l p rest ev a' :
      lk_credit l = p :: rest →
      on_packet p (lk_a l) = Some (Ok ev, a') →
      link_step l (l <| lk_a := a' |> <| lk_credit := rest |>)
  (** anything that does not touch this channel's entry, at either end *)
  | ls_other_a l a' :
      conn_wf a' → channels a' !! ia = channels (lk_a l) !! ia → link_step l (l <| lk_a := a' |>)
  | ls_other_b l b' :
      conn_wf b' → channels b' !! ib = channels (lk_b l) !! ib → link_step l (l <| lk_b := b' |>).

(** Nothing is in flight, nothing was sent, both ends hold [ca] and [cb]. *)
Definition link_start (a b : ConnectionState) : Link :=
  {| lk_a := a; lk_b := b; lk_data := []; lk_credit := []; lk_held := 0;
     lk_sent := []; lk_received := [] |}.

Inductive link_reachable (a b : ConnectionState) : Link → Prop :=
  | lr_start : link_reachable a b (link_start a b)
  | lr_step l l' : link_reachable a b l → link_step l l' → link_reachable a b l'.

(** The receiver's window is exactly what the sender may still send, plus
    what is in flight, plus the credits in flight; and crediting back can
    never saturate it. [win] and [pkt] are the window and packet limit the
    receiver opened the channel with. *)
Context (win pkt : Z).

Record link_inv (l : Link) : Prop := {
  li_wf_a : conn_wf (lk_a l);
  li_wf_b : conn_wf (lk_b l);
  li_held : 0 ≤ lk_held l;
  li_entries : ∃ ca cb chunks credits,
    channels (lk_a l) !! ia = Some ca ∧ channels (lk_b l) !! ib = Some cb ∧
    remote_id ca = ib ∧ remote_id cb = ia ∧
    local_closed ca = false ∧ remote_closed ca = false ∧ local_eof ca = false ∧
    local_closed cb = false ∧ open_confirmed cb = true ∧ remote_eof cb = false ∧ remote_closed cb = false ∧
    remote_max_packet ca = local_max_packet cb ∧
    lk_data l = data_payload ib <$> chunks ∧ lk_credit l = adjust_payload ia <$> credits ∧
    Forall (λ c, len c ≤ local_max_packet cb) chunks ∧ Forall is_u32 credits ∧
    remote_window ca + sum_Z (len <$> chunks) + sum_Z credits = local_window cb ∧
    local_window cb + lk_held l + pending_replenish cb = initial_local_window cb ∧
    initial_local_window cb = win ∧ local_max_packet cb = pkt ∧
    pending_replenish cb < replenish_threshold cb ∧
    lk_sent l = lk_received l ++ concat chunks
}.

Lemma sum_len_nonneg (cs : list bytes) : 0 ≤ sum_Z (len <$> cs).
Proof.
  unfold sum_Z. induction cs as [|c cs IH]; cbn; [lia|]. pose proof (len_nonneg c). lia.
Qed.

Lemma sum_u32_nonneg l : Forall is_u32 l → 0 ≤ sum_Z l.
Proof. unfold sum_Z. induction 1; cbn; width_lia. Qed.

Lemma data_capacity_bounds id c :
  chan_wf id c → 0 ≤ data_capacity c ≤ remote_window c ∧ data_capacity c ≤ remote_max_packet c.
Proof. intros []. unfold data_capacity. case_match; zbool; width_lia. Qed.

(** What a successful [send_data] did. *)
Lemma send_data_inv id data s payload n s' :
  conn_wf s → send_data id data s = (Ok (payload, n), s') →
  ∃ c, channels s !! id = Some c ∧ payload = data_payload (remote_id c) (take (Z.to_nat n) data) ∧
    n = Z.min (len data) (data_capacity c) ∧ len (take (Z.to_nat n) data) = n ∧
    s' = put_channel id (c <| remote_window := remote_window c - n |>
      <| activity := wrap64 (activity c + n) |>) s.
Proof.
  intros Hwf. unfold send_data, get_mut, ok_or, ensure_sendable.
  destruct (channels s !! id) as [c|] eqn:Ec; [|done].
  destruct (local_closed c || remote_closed c); [done|].
  destruct (local_eof c); [done|]. intros [= <- <- <-].
  pose proof (conn_wf_lookup _ _ _ Hwf Ec) as Hc. pose proof (data_capacity_bounds _ _ Hc).
  pose proof (len_nonneg data). destruct Hc.
  exists c. split_and!; [done..|by rewrite len_take by lia|].
  unfold charge_sent. rewrite wrap32_small by width_lia.
  by replace (sat_sub _ _) with (remote_window c - len data `min` data_capacity c) by width_lia.
Qed.

Lemma link_inv_send l data payload n a' :
  link_inv l → send_data ia data (lk_a l) = (Ok (payload, n), a') →
  link_inv (l <| lk_a := a' |> <| lk_data := lk_data l ++ [payload] |>
    <| lk_sent := lk_sent l ++ take (Z.to_nat n) data |>).
Proof.
  intros [Hwa Hwb Hh (ca & cb & chunks & credits & Ha & Hb & Hra & Hrb & Hlca & Hrca &
    Hlea & Hlcb & Hop & He & Hcl & Hmp & Hd & Hcr & Hfc & Hfr & Hw & Hs & Hwin & Hpkt &
    Hpt & Hst)] Hsend.
  pose proof (send_data_wf ia data _ Hwa) as Hwa'. rewrite Hsend in Hwa'; cbn in Hwa'.
  destruct (send_data_inv _ _ _ _ _ _ Hwa Hsend) as (c & Hc & -> & Hn & Hl & ->). simplify_eq.
  pose proof (data_capacity_bounds _ _ (conn_wf_lookup _ _ _ Hwa Ha)).
  set (n := len data `min` data_capacity ca) in *. set (ch := take (Z.to_nat n) data) in *.
  split; [done..|]. unfold set_field; cbn.
  eexists _, cb, (chunks ++ [ch]), credits. rewrite lookup_put, decide_True by done.
  split_and!; try done; cbn.
  - by rewrite Hd, fmap_app, Hra.
  - apply Forall_app. split; [done|]. apply Forall_singleton. lia.
  - rewrite fmap_app, sum_Z_app, fmap_cons, fmap_nil, sum_Z_single. lia.
  - rewrite Hst, concat_app. cbn. by rewrite app_nil_r, app_assoc.
Qed.

(** The oldest data packet in flight is accepted, and is the next chunk. *)
Lemma link_inv_data l p rest :
  link_inv l → lk_data l = p :: rest →
  ∃ chunk b', on_packet p (lk_b l) = Some (Ok (Data ib chunk), b') ∧
    link_inv (l <| lk_b := b' |> <| lk_data := rest |>
      <| lk_held := lk_held l + len chunk |> <| lk_received := lk_received l ++ chunk |>).
Proof.
  intros [Hwa Hwb Hh (ca & cb & chunks & credits & Ha & Hb & Hra & Hrb & Hlca & Hrca &
    Hlea & Hlcb & Hop & He & Hcl & Hmp & Hd & Hcr & Hfc & Hfr & Hw & Hs & Hwin & Hpkt &
    Hpt & Hst)] Hp.
  destruct chunks as [|ch chunks]; rewrite Hd in Hp; [done|]. cbn in Hp. injection Hp as <- <-.
  apply Forall_cons_1 in Hfc as [Hch Hfc]. rewrite fmap_cons, sum_Z_cons in Hw.
  pose proof (sum_len_nonneg chunks). pose proof (sum_u32_nonneg _ Hfr).
  pose proof (conn_wf_lookup _ _ _ Hwb Hb) as Hcb. pose proof (conn_wf_lookup _ _ _ Hwa Ha) as Hca.
  assert (0 ≤ remote_window ca) by (destruct Hca; width_lia). pose proof (len_nonneg ch).
  assert (Hlu : is_u32 (len ch)) by (destruct Hcb; width_lia).
  assert (Hon : on_packet (data_payload ib ch) (lk_b l) =
    Some (Ok (Data ib ch), put_channel ib (after_data ch cb) (lk_b l))).
  { rewrite on_packet_data_payload by (by destruct Hcb).
    unfold get_mut, ok_or, admit_data. rewrite Hb, Hop, He, Hcl. cbn.
    rewrite wrap32_small by done. rewrite (proj2 (Z.ltb_ge _ _)) by lia.
    by rewrite (proj2 (Z.ltb_ge _ _)) by lia. }
  exists ch, (put_channel ib (after_data ch cb) (lk_b l)). split; [exact Hon|].
  pose proof (on_packet_wf _ _ _ _ Hwb Hon). split; [done|done|unfold set_field; cbn; lia|].
  unfold after_data, set_field; cbn. eexists ca, _, chunks, credits.
  rewrite lookup_put, decide_True by done. split_and!; try done; cbn; try lia.
  by rewrite Hst, <- app_assoc.
Qed.

Lemma link_inv_consume l n out b' :
  link_inv l → 0 ≤ n ≤ lk_held l → replenish_window ib n (lk_b l) = (Ok out, b') →
  link_inv (l <| lk_b := b' |> <| lk_held := lk_held l - n |>
    <| lk_credit := lk_credit l ++ option_list out |>).
Proof.
  intros [Hwa Hwb Hh (ca & cb & chunks & credits & Ha & Hb & Hra & Hrb & Hlca & Hrca &
    Hlea & Hlcb & Hop & He & Hcl & Hmp & Hd & Hcr & Hfc & Hfr & Hw & Hs & Hwin & Hpkt &
    Hpt & Hst)] Hn Hre.
  pose proof (conn_wf_lookup _ _ _ Hwb Hb) as Hcb.
  assert (is_u32 n) as Hnu by (destruct Hcb; width_lia).
  pose proof (replenish_window_wf ib n _ Hnu Hwb) as Hwb'. rewrite Hre in Hwb'; cbn in Hwb'.
  unfold replenish_window, get_mut, ok_or in Hre. rewrite Hb in Hre.
  assert (Hadd : sat_add32 (pending_replenish cb) n = pending_replenish cb + n)
    by (destruct Hcb; width_lia).
  rewrite Hlcb in Hre. destruct (Z.eqb_spec n 0) as [->|Hn0].
  { injection Hre as <- <-. split; [done|done|unfold set_field; cbn; lia|].
    unfold set_field; cbn. exists ca, cb, chunks, credits.
    rewrite app_nil_r, Z.sub_0_r. split_and!; done. }
  unfold set_field in Hre; cbn in Hre. rewrite Hadd in Hre.
  change (replenish_threshold _) with (replenish_threshold cb) in Hre.
  destruct (Z.ltb_spec (pending_replenish cb + n) (replenish_threshold cb)).
  { injection Hre as <- <-. split; [done|done|unfold set_field; cbn; lia|].
    unfold set_field; cbn. eexists ca, _, chunks, credits.
    rewrite app_nil_r, lookup_put, decide_True by done. split_and!; try done; cbn; lia. }
  injection Hre as <- <-. set (added := pending_replenish cb + n) in *.
  assert (Hlw : sat_add32 (local_window cb) added = local_window cb + added)
    by (destruct Hcb; width_lia).
  split; [done|done|unfold set_field; cbn; lia|]. unfold set_field; cbn.
  eexists ca, _, chunks, (credits ++ [added]).
  rewrite lookup_put, decide_True by done. split_and!; try done; cbn; rewrite ?Hlw; try lia.
  - rewrite Hcr, fmap_app, Hrb. done.
  - apply Forall_app. split; [done|]. apply Forall_singleton. destruct Hcb; width_lia.
  - rewrite sum_Z_app, sum_Z_single. lia.
  - unfold replenish_threshold; cbn. lia.
Qed.

(** The oldest credit in flight is accepted by the sender. *)
Lemma link_inv_credit l p rest :
  link_inv l → lk_credit l = p :: rest →
  ∃ added a', on_packet p (lk_a l) = Some (Ok (WindowAdjust ia added), a') ∧
    link_inv (l <| lk_a := a' |> <| lk_credit := rest |>).
Proof.
  intros [Hwa Hwb Hh (ca & cb & chunks & credits & Ha & Hb & Hra & Hrb & Hlca & Hrca &
    Hlea & Hlcb & Hop & He & Hcl & Hmp & Hd & Hcr & Hfc & Hfr & Hw & Hs & Hwin & Hpkt &
    Hpt & Hst)] Hp.
  destruct credits as [|cr credits]; rewrite Hcr in Hp; [done|]. cbn in Hp. injection Hp as <- <-.
  apply Forall_cons_1 in Hfr as [Hcu Hfr]. rewrite sum_Z_cons in Hw.
  pose proof (sum_len_nonneg chunks). pose proof (sum_u32_nonneg _ Hfr).
  pose proof (conn_wf_lookup _ _ _ Hwb Hb) as Hcb. pose proof (conn_wf_lookup _ _ _ Hwa Ha) as Hca.
  assert (Hon : on_packet (adjust_payload ia cr) (lk_a l) = Some (Ok (WindowAdjust ia cr),
    put_channel ia (ca <| remote_window := sat_add32 (remote_window ca) cr |>) (lk_a l))).
  { rewrite on_packet_adjust_payload by (by destruct Hca).
    unfold get_mut, ok_or. by rewrite Ha. }
  eexists cr, _. split; [exact Hon|].
  pose proof (on_packet_wf _ _ _ _ Hwa Hon). split; [done..|].
  assert (sat_add32 (remote_window ca) cr = remote_window ca + cr) as Hsat
    by (destruct Hcb, Hca; width_lia).
  unfold set_field; cbn. eexists _, cb, chunks, credits.
  rewrite lookup_put, decide_True by done. split_and!; try done; cbn. lia.
Qed.

(** A channel as the open handshake leaves it, seen from its two ends. *)
Definition fresh_pair (ca cb : ChannelState) : Prop :=
  paired ca cb ∧ local_eof ca = false ∧ remote_eof cb = false ∧
  pending_replenish cb = 0 ∧ local_window cb = initial_local_window cb.

Lemma link_start_inv a b ca cb :
  conn_wf a → conn_wf b → channels a !! ia = Some ca → channels b !! ib = Some cb →
  fresh_pair ca cb → initial_local_window cb = win → local_max_packet cb = pkt →
  link_inv (link_start a b).
Proof.
  intros Ha Hb Hca Hcb ([[Hr1 Hr2] [Ho1 Ho2] Hw _ Hm _] & Hle & Hre & Hp & Hi) Hwin Hpkt.
  destruct (conn_wf_lookup _ _ _ Ha Hca). destruct (conn_wf_lookup _ _ _ Hb Hcb).
  unfold is_open in Ho1, Ho2. zbool. split; [done..|]. cbn.
  exists ca, cb, [], []. split_and!; try done; try congruence; try (cbn; lia).
  unfold replenish_threshold. lia.
Qed.

Lemma link_step_inv l l' : link_inv l → link_step l l' → link_inv l'.
Proof.
  intros Hi Hs. destruct Hs as [l data payload n a' H|l p rest chunk b' Hp H|l n out b' Hn H
    |l p rest ev a' Hp H|l a' Hwf H|l b' Hwf H].
  - by eapply link_inv_send.
  - destruct (link_inv_data _ _ _ Hi Hp) as (ch & b2 & H2 & Hi2). rewrite H in H2.
    by injection H2 as -> ->.
  - by eapply link_inv_consume.
  - destruct (link_inv_credit _ _ _ Hi Hp) as (ch & b2 & H2 & Hi2). rewrite H in H2.
    by injection H2 as -> ->.
  - destruct Hi as [? ? ? He]. split; try done. unfold set_field; cbn. by rewrite H.
  - destruct Hi as [? ? ? He]. split; try done. unfold set_field; cbn. by rewrite H.
Qed.

Lemma link_reachable_inv a b ca cb l :
  conn_wf a → conn_wf b → channels a !! ia = Some ca → channels b !! ib = Some cb →
  fresh_pair ca cb → initial_local_window cb = win → local_max_packet cb = pkt →
  link_reachable a b l → link_inv l.
Proof.
  intros Ha Hb Hca Hcb Hf Hwin Hpkt. induction 1 as [|l l' _ IH Hs].
  - by eapply link_start_inv.
  - by eapply link_step_inv.
Qed.

End Flow.

(** C6: flow control is sound. Start from a channel two ends agree on and
    interleave sends, deliveries, window credits and other channels' activity
    in any order: no data packet in flight is ever refused (window, packet
    limit or channel state), it is delivered on this channel, no credit in
    flight is refused, and the bytes delivered so far are a prefix of the
    bytes sent, all of them once nothing is in flight. *)
Theorem flow_control_sound ia ib a b ca cb l :
  conn_wf a → conn_wf b → channels a !! ia = Some ca → channels b !! ib = Some cb →
  fresh_pair ca cb → link_reachable ia ib a b l →
  (∀ p rest, lk_data l = p :: rest →
     ∃ chunk b', on_packet p (lk_b l) = Some (Ok (Data ib chunk), b') ∧
       ∃ later, lk_sent l = lk_received l ++ chunk ++ later) ∧
  (∀ p rest, lk_credit l = p :: rest →
     ∃ added a', on_packet p (lk_a l) = Some (Ok (WindowAdjust ia added), a')) ∧
  (lk_data l = [] → lk_sent l = lk_received l).
Proof.
  intros Ha Hb Hca Hcb Hf Hr. pose proof (link_reachable_inv ia ib _ _ _ _ _ _ _ Ha Hb Hca Hcb Hf eq_refl eq_refl Hr) as Hi.
  split_and!.
  - intros p rest Hp. destruct (link_inv_data _ _ _ _ _ _ _ Hi Hp) as (ch & b' & Hon & Hi').
    exists ch, b'. split; [done|]. destruct Hi' as [_ _ _ (?&?&chunks&?&Hrest)].
    destruct_and!. exists (concat chunks). unfold set_field in *; cbn in *.
    by rewrite app_assoc.
  - intros p rest Hp. destruct (link_inv_credit _ _ _ _ _ _ _ Hi Hp) as (n & a' & Hon & _). eauto.
  - intros Hd. destruct Hi as [_ _ _ (?&?&chunks&?&Hrest)]. destruct_and!.
    destruct chunks as [|ch chunks].
    + cbn in *. by rewrite app_nil_r in *.
    + match goal with H : lk_data l = _ <$> _ |- _ => by rewrite Hd in H end.
Qed.

(** C27: no window deadlock. Once everything in flight has arrived and the
    receiving application has consumed what it holds, the sender can send at
    least one more byte, if the channel was opened with a non-empty window
    and a packet limit that leaves room for data. *)
Theorem flow_control_live ia ib a b ca cb l b0 data :
  conn_wf a → conn_wf b → channels a !! ia = Some ca → channels b !! ib = Some cb →
  fresh_pair ca cb → link_reachable ia ib a b l →
  lk_data l = [] → lk_credit l = [] → lk_held l = 0 →
  1 ≤ initial_local_window cb → 10 ≤ local_max_packet cb →
  ∃ payload n a', send_data ia (b0 :: data) (lk_a l) = (Ok (payload, n), a') ∧ 1 ≤ n.
Proof.
  intros Ha Hb Hca Hcb Hf Hr Hd Hcr Hh Hlim1 Hlim2.
  pose proof (link_reachable_inv ia ib _ _ _ _ _ _ _ Ha Hb Hca Hcb Hf eq_refl eq_refl Hr) as Hi.
  destruct Hi as [_ _ _ (ca' & cb' & chunks & credits & Hca' & Hcb' & Hrest)]. destruct_and!.
  match goal with H : lk_data l = _ <$> _ |- _ => rewrite Hd in H end.
  match goal with H : lk_credit l = _ <$> _ |- _ => rewrite Hcr in H end.
  destruct chunks; [|done]. destruct credits; [|done].
  unfold send_data, get_mut, ok_or, ensure_sendable. rewrite Hca'.
  repeat match goal with H : _ ca' = false |- _ => rewrite H; clear H end. cbn [orb].
  eexists _, _, _. split; [reflexivity|]. rewrite len_cons. pose proof (len_nonneg data).
  unfold replenish_threshold in *. unfold data_capacity, sum_Z in *. cbn [fmap list_fmap foldr] in *.
  rewrite (proj2 (Z.ltb_ge _ _)) by lia.
  pose proof (Z.mul_div_le (initial_local_window cb') 2). lia.
Qed.

(** The two ends of the channel of [open_handshake], between fresh states. *)
Definition demo_a : ConnectionState :=
  match open ChannelOpen.Session conn_new with
  | Some (_, a1) =>
      match on_packet (confirm_payload 0 0 DEFAULT_WINDOW DEFAULT_MAX_PACKET) a1 with
      | Some (_, a2) => a2 | None => a1 end
  | None => conn_new
  end.

Definition demo_b : ConnectionState :=
  match on_packet (open_payload ChannelOpen.Session 0 DEFAULT_WINDOW DEFAULT_MAX_PACKET) conn_new with
  | Some (_, b1) => (accept_open 0 b1).2
  | None => conn_new
  end.

Lemma demo_a_wf : conn_wf demo_a.
Proof.
  unfold demo_a. destruct (open _ _) as [[r a1]|] eqn:E; [|exact conn_wf_new].
  pose proof (open_wf _ _ _ _ conn_wf_new E) as H1.
  destruct (on_packet _ a1) as [[r' a2]|] eqn:E2; [|done]. by eapply on_packet_wf.
Qed.

Lemma demo_b_wf : conn_wf demo_b.
Proof.
  unfold demo_b. destruct (on_packet _ _) as [[r b1]|] eqn:E; [|exact conn_wf_new].
  by apply accept_open_wf, (on_packet_wf _ _ _ _ conn_wf_new E).
Qed.

Definition demo_chan (s : ConnectionState) : ChannelState :=
  default (charge_sent 0 (Build_ChannelState 0 0 0 0 0 0 [] false false false false 0 None 0 0
    false false)) (channels s !! 0).

Lemma demo_fresh :
  channels demo_a !! 0 = Some (demo_chan demo_a) ∧ channels demo_b !! 0 = Some (demo_chan demo_b) ∧
  fresh_pair (demo_chan demo_a) (demo_chan demo_b) ∧
  initial_local_window (demo_chan demo_b) = DEFAULT_WINDOW ∧
  local_max_packet (demo_chan demo_b) = DEFAULT_MAX_PACKET.
Proof.
  split; [by vm_compute|]. split; [by vm_compute|]. split; [|split; by vm_compute].
  split; [|split_and!; by vm_compute]. split; by vm_compute.
Qed.

(** One write of the sender in flight. *)
Definition demo_link : Link :=
  match send_data 0 (bs "hello") demo_a with
  | (Ok (p, n), a') =>
      (link_start demo_a demo_b) <| lk_a := a' |> <| lk_data := [] ++ [p] |>
        <| lk_sent := [] ++ take (Z.to_nat n) (bs "hello") |>
  | _ => link_start demo_a demo_b
  end.

Lemma demo_link_reachable : link_reachable 0 0 demo_a demo_b demo_link.
Proof.
  unfold demo_link. destruct (send_data 0 (bs "hello") demo_a) as [[[p n]|] a'] eqn:E;
    [|constructor].
  eapply lr_step; [apply lr_start|]. by eapply (ls_send 0 0 (link_start demo_a demo_b)).
Qed.

Lemma flow_control_sound_witness :
  (∀ p rest, lk_data demo_link = p :: rest →
     ∃ chunk b', on_packet p (lk_b demo_link) = Some (Ok (Data 0 chunk), b') ∧
       ∃ later, lk_sent demo_link = lk_received demo_link ++ chunk ++ later) ∧
  (∀ p rest, lk_credit demo_link = p :: rest →
     ∃ added a', on_packet p (lk_a demo_link) = Some (Ok (WindowAdjust 0 added), a')) ∧
  (lk_data demo_link = [] → lk_sent demo_link = lk_received demo_link).
Proof.
  destruct demo_fresh as (Ha & Hb & Hf & _).
  exact (flow_control_sound 0 0 demo_a demo_b _ _ demo_link demo_a_wf demo_b_wf Ha Hb Hf
    demo_link_reachable).
Defined.

Lemma flow_control_live_witness :
  ∃ payload n a', send_data 0 (bs "x") (lk_a (link_start demo_a demo_b)) = (Ok (payload, n), a')
    ∧ 1 ≤ n.
Proof.
  destruct demo_fresh as (Ha & Hb & Hf & Hw & Hp).
  apply (flow_control_live 0 0 demo_a demo_b _ _ (link_start demo_a demo_b) _ [] demo_a_wf
    demo_b_wf Ha Hb Hf (lr_start 0 0 demo_a demo_b) eq_refl eq_refl eq_refl);
    rewrite ?Hw, ?Hp; vm_compute; congruence.
Defined.
