(* ===== verification/Crypto.v ===== *)
(** * Cryptography the program calls (the [purecrypto] crate)

    The sources use hash functions, HKDF, X25519 and signatures through a
    crate that is not part of the repository.  Here they are the operations
    of a class, an argument of every definition that uses them; what the
    sources rely on (output lengths, key agreement) is a second class, so that a theorem
    says whether it needs it.  [demo_crypto] is an instance with the right
    lengths, for evaluating definitions on concrete inputs; nothing is proved
    from it but that the laws can hold. *)
From S2P Require Import Prelude.

Class PureCrypto := {
  sha256_digest : bytes → bytes;
  sha512_digest : bytes → bytes;
  hkdf_extract_sha256 : (* salt *) bytes → (* ikm *) bytes → bytes;
  hkdf_expand_sha256 : (* prk *) bytes → (* info *) bytes → (* length *) Z → bytes;
  (** X25519, a private key being its bytes; [None] for a small-order peer
      key. *)
  x25519_public_key : bytes → bytes;
  x25519_diffie_hellman : bytes → bytes → option bytes;
}.

Class PureCryptoLaws {C : PureCrypto} := {
  sha256_len m : len (sha256_digest m) = 32;
  sha512_len m : len (sha512_digest m) = 64;
  x25519_public_len k : len (x25519_public_key k) = 32;
  x25519_agree a b :
    x25519_diffie_hellman a (x25519_public_key b) = x25519_diffie_hellman b (x25519_public_key a);
}.
Arguments PureCryptoLaws : clear implicits.
#[export] Hint Rewrite @sha256_len @sha512_len @x25519_public_len using (typeclasses eauto) : lens.

(** The trait [HostKey] (src/hostkey/mod.rs): a key that signs.  [hk_sign i]
    is the answer to the [i]-th call, because a signer (an agent, a token, a
    randomised scheme) need not answer the same data the same way twice. *)
Record HostKey := {
  public_blob : bytes;
  hk_sign : nat → bytes → result bytes;
}.

(** [host_key_verify_by_name(alg, key_blob)?.verify(data, sig_blob)]
    (src/hostkey): the signature check of the algorithm [alg]. *)
Class HostKeyVerify := {
  host_key_verify : (* alg *) bytes → (* key_blob *) bytes → (* data *) bytes →
                    (* sig_blob *) bytes → result unit
}.

(** ** An instance with the right lengths *)

(** The last [n] bytes of [m], padded with zeros. *)
Definition pad_to (n : nat) (m : bytes) : bytes :=
  take n (rev m ++ replicate n Byte.x00).

Lemma len_pad_to n m : len (pad_to n m) = Z.of_nat n.
Proof. unfold pad_to, len. rewrite length_take, length_app, length_replicate. lia. Qed.

Definition xor_bytes (a b : bytes) : bytes :=
  zip_with (λ x y, byte_of_Z (Z.lxor (u8 x) (u8 y))) a b.

Lemma xor_bytes_comm a b : xor_bytes a b = xor_bytes b a.
Proof.
  unfold xor_bytes. revert b. induction a as [|x a IH]; intros [|y b]; cbn; [done..|].
  by rewrite Z.lxor_comm, IH.
Qed.

Definition demo_crypto : PureCrypto := {|
  sha256_digest := pad_to 32;
  sha512_digest := pad_to 64;
  hkdf_extract_sha256 salt ikm := pad_to 32 (salt ++ ikm);
  hkdf_expand_sha256 prk info n := pad_to (Z.to_nat n) (prk ++ info);
  x25519_public_key := pad_to 32;
  x25519_diffie_hellman k p := Some (xor_bytes (pad_to 32 k) p);
|}.

Lemma demo_crypto_laws : PureCryptoLaws demo_crypto.
Proof.
  split; intros; try apply len_pad_to. cbn [x25519_diffie_hellman x25519_public_key demo_crypto].
  by rewrite xor_bytes_comm.
Qed.
