(* ===== verification/Cipher.v ===== *)
(** * Ciphers and MACs of the packet layer (src/hazmat/cipher, src/hazmat/mac)

    The suites' tables, the state of each suite ([SshCipher], [SshMac]) and the
    operations the packet codec drives.  The primitives (AES in CTR, CBC and
    GCM mode, ChaCha20, Poly1305, HMAC, UMAC) belong to the [purecrypto] crate:
    they are the operations of the class [CipherPrims], and [CipherLaws] says
    what the codec relies on.  [demo_prims] is an instance for evaluation. *)
From S2P Require Import Prelude Wire Crypto.

(** ** The primitives *)

Inductive BlockCipher := Aes128 | Aes192 | Aes256 | TdesEde3.
Inductive Digest := Md5 | Sha1 | Sha256 | Sha512.

Definition block_len (B : BlockCipher) : Z :=
  match B with TdesEde3 => 8 | _ => 16 end.
Definition digest_len (D : Digest) : Z :=
  match D with Md5 => 16 | Sha1 => 20 | Sha256 => 32 | Sha512 => 64 end.

Class CipherPrims := {
  Ctr : BlockCipher → Type;
  ctr_new B : (* key *) bytes → (* iv *) bytes → Ctr B;
  ctr_apply_keystream {B} : Ctr B → bytes → bytes * Ctr B;
  Cbc : BlockCipher → Type;
  cbc_prim_new B : (* key *) bytes → (* iv *) bytes → Cbc B;
  (** [None]: the input is not a whole number of blocks. *)
  cbc_prim_encrypt {B} : Cbc B → bytes → option bytes * Cbc B;
  cbc_prim_decrypt {B} : Cbc B → bytes → option bytes * Cbc B;
  Gcm : BlockCipher → Type;
  gcm_prim_new B : (* key *) bytes → Gcm B;
  gcm_prim_encrypt {B} : Gcm B → (* nonce *) bytes → (* aad *) bytes → bytes → bytes * bytes;
  (** [None]: the tag does not match ([TagMismatch]). *)
  gcm_prim_decrypt {B} : Gcm B → (* nonce *) bytes → (* aad *) bytes → bytes → (* tag *) bytes → option bytes;
  ChaCha20 : Type;
  chacha20_new : (* key *) bytes → ChaCha20;
  chacha20_apply_keystream : ChaCha20 → (* nonce *) bytes → (* counter *) Z → bytes → bytes;
  chacha20_block : ChaCha20 → (* nonce *) bytes → (* counter *) Z → bytes;
  (** One-shot form of [new], [update]* and [finish] / [finalize]. *)
  poly1305 : (* key *) bytes → bytes → bytes;
  hmac (D : Digest) : (* key *) bytes → bytes → bytes;
  umac64 : (* key *) bytes → (* nonce *) bytes → bytes → bytes;
  umac128 : (* key *) bytes → (* nonce *) bytes → bytes → bytes;
}.

(** What the codec relies on: CTR and ChaCha20 XOR a keystream that depends
    on the position only, CBC and GCM decryption invert encryption, CBC can be
    decrypted block by block, tags and digests have their fixed length. *)
Class CipherLaws {P : CipherPrims} := {
  ctr_len {B} (s : Ctr B) b : len (ctr_apply_keystream s b).1 = len b;
  ctr_involutive {B} (s : Ctr B) b :
    (ctr_apply_keystream s (ctr_apply_keystream s b).1).1 = b;
  ctr_position {B} (s : Ctr B) a b :
    len a = len b → (ctr_apply_keystream s a).2 = (ctr_apply_keystream s b).2;
  ctr_app {B} (s : Ctr B) a b :
    ctr_apply_keystream s (a ++ b) =
    ((ctr_apply_keystream s a).1 ++ (ctr_apply_keystream (ctr_apply_keystream s a).2 b).1,
     (ctr_apply_keystream (ctr_apply_keystream s a).2 b).2);
  cbc_encrypt_aligned {B} (s : Cbc B) b :
    (block_len B | len b) → ∃ c s', cbc_prim_encrypt s b = (Some c, s') ∧ len c = len b;
  cbc_decrypt_aligned {B} (s : Cbc B) c :
    (block_len B | len c) → ∃ b s', cbc_prim_decrypt s c = (Some b, s') ∧ len b = len c;
  cbc_decrypt_encrypt {B} (s : Cbc B) b c s' :
    cbc_prim_encrypt s b = (Some c, s') → cbc_prim_decrypt s c = (Some b, s');
  cbc_decrypt_app {B} (s : Cbc B) a b p s2 :
    (block_len B | len a) → cbc_prim_decrypt s (a ++ b) = (Some p, s2) →
    ∃ a' b' s1, cbc_prim_decrypt s a = (Some a', s1) ∧ cbc_prim_decrypt s1 b = (Some b', s2) ∧
      p = a' ++ b' ∧ len a' = len a;
  gcm_encrypt_len {B} (g : Gcm B) n aad m :
    len (gcm_prim_encrypt g n aad m).1 = len m ∧ len (gcm_prim_encrypt g n aad m).2 = 16;
  gcm_decrypt_encrypt {B} (g : Gcm B) n aad m :
    gcm_prim_decrypt g n aad (gcm_prim_encrypt g n aad m).1 (gcm_prim_encrypt g n aad m).2 = Some m;
  chacha20_len k n c b : len (chacha20_apply_keystream k n c b) = len b;
  chacha20_involutive k n c b :
    chacha20_apply_keystream k n c (chacha20_apply_keystream k n c b) = b;
  poly1305_len k m : len (poly1305 k m) = 16;
  hmac_len D k m : len (hmac D k m) = digest_len D;
  umac64_len k n m : len (umac64 k n m) = 8;
  umac128_len k n m : len (umac128 k n m) = 16;
}.
Arguments CipherLaws : clear implicits.

(** ** Suite tables *)

Record CipherSpec := {
  cs_name : bytes; cs_key_len : Z; cs_iv_len : Z; cs_block_size : Z; cs_aead : bool; cs_tag_len : Z
}.

Definition cipher_spec (name : string) (k iv bs' : Z) (aead : bool) (tag : Z) : CipherSpec :=
  {| cs_name := bs name; cs_key_len := k; cs_iv_len := iv; cs_block_size := bs';
     cs_aead := aead; cs_tag_len := tag |}.

Definition CIPHERS_ALL : list CipherSpec := [
  cipher_spec "chacha20-poly1305@openssh.com" 64 0 8 true 16;
  cipher_spec "aes256-gcm@openssh.com" 32 12 16 true 16;
  cipher_spec "aes128-gcm@openssh.com" 16 12 16 true 16;
  cipher_spec "aes256-ctr" 32 16 16 false 0;
  cipher_spec "aes192-ctr" 24 16 16 false 0;
  cipher_spec "aes128-ctr" 16 16 16 false 0;
  cipher_spec "aes128-cbc" 16 16 16 false 0;
  cipher_spec "aes192-cbc" 24 16 16 false 0;
  cipher_spec "aes256-cbc" 32 16 16 false 0;
  cipher_spec "3des-cbc" 24 8 8 false 0
].

Definition cipher_spec_by_name (name : bytes) : option CipherSpec :=
  List.find (λ c, bytes_eqb (cs_name c) name) CIPHERS_ALL.

Record MacSpec := { ms_name : bytes; ms_key_len : Z; ms_tag_len : Z; ms_etm : bool }.

Definition mac_spec (name : string) (key_len tag_len : Z) (etm : bool) : MacSpec :=
  {| ms_name := bs name; ms_key_len := key_len; ms_tag_len := tag_len; ms_etm := etm |}.

Definition MACS_ALL : list MacSpec := [
  mac_spec "umac-64-etm@openssh.com" 16 8 true;
  mac_spec "umac-128-etm@openssh.com" 16 16 true;
  mac_spec "hmac-sha2-256-etm@openssh.com" 32 32 true;
  mac_spec "hmac-sha2-512-etm@openssh.com" 64 64 true;
  mac_spec "hmac-sha1-etm@openssh.com" 20 20 true;
  mac_spec "umac-64@openssh.com" 16 8 false;
  mac_spec "umac-128@openssh.com" 16 16 false;
  mac_spec "hmac-sha2-256" 32 32 false;
  mac_spec "hmac-sha2-512" 64 64 false;
  mac_spec "hmac-sha1" 20 20 false;
  mac_spec "hmac-sha1-96-etm@openssh.com" 20 12 true;
  mac_spec "hmac-md5-etm@openssh.com" 16 16 true;
  mac_spec "hmac-md5-96-etm@openssh.com" 16 12 true;
  mac_spec "hmac-sha1-96" 20 12 false;
  mac_spec "hmac-md5" 16 16 false;
  mac_spec "hmac-md5-96" 16 12 false
].

Definition mac_spec_by_name (name : bytes) : option MacSpec :=
  List.find (λ m, bytes_eqb (ms_name m) name) MACS_ALL.

(** ** Cipher states *)

Section Ciphers.
Context `{P : CipherPrims}.

(** [<&[u8; N]>::try_from]. *)
Definition try_into (n : Z) (b : bytes) (e : Error) : result bytes :=
  if len b =? n then Ok b else Err e.

Inductive AesCtr :=
  | Ctr128 (c : Ctr Aes128) | Ctr192 (c : Ctr Aes192) | Ctr256 (c : Ctr Aes256).

Definition ctr_new_128 (key iv : bytes) : result AesCtr :=
  let? k := try_into 16 key (Format "aes128-ctr key len") in
  let? i := try_into 16 iv (Format "aes-ctr iv len") in
  Ok (Ctr128 (ctr_new Aes128 k i)).
Definition ctr_new_192 (key iv : bytes) : result AesCtr :=
  let? k := try_into 24 key (Format "aes192-ctr key len") in
  let? i := try_into 16 iv (Format "aes-ctr iv len") in
  Ok (Ctr192 (ctr_new Aes192 k i)).
Definition ctr_new_256 (key iv : bytes) : result AesCtr :=
  let? k := try_into 32 key (Format "aes256-ctr key len") in
  let? i := try_into 16 iv (Format "aes-ctr iv len") in
  Ok (Ctr256 (ctr_new Aes256 k i)).

Definition aes_ctr_apply (c : AesCtr) (buf : bytes) : bytes * AesCtr :=
  match c with
  | Ctr128 c => let (b, c) := ctr_apply_keystream c buf in (b, Ctr128 c)
  | Ctr192 c => let (b, c) := ctr_apply_keystream c buf in (b, Ctr192 c)
  | Ctr256 c => let (b, c) := ctr_apply_keystream c buf in (b, Ctr256 c)
  end.

Inductive CbcState :=
  | Cbc128 (c : Cbc Aes128) | Cbc192 (c : Cbc Aes192) | Cbc256 (c : Cbc Aes256)
  | CbcTdes (c : Cbc TdesEde3).

Definition cbc_new (name key iv : bytes) : result CbcState :=
  if bytes_eqb name (bs "aes128-cbc") then
    let? k := try_into 16 key (Format "aes128-cbc key len") in
    let? i := try_into 16 iv (Format "aes-cbc iv len") in
    Ok (Cbc128 (cbc_prim_new Aes128 k i))
  else if bytes_eqb name (bs "aes192-cbc") then
    let? k := try_into 24 key (Format "aes192-cbc key len") in
    let? i := try_into 16 iv (Format "aes-cbc iv len") in
    Ok (Cbc192 (cbc_prim_new Aes192 k i))
  else if bytes_eqb name (bs "aes256-cbc") then
    let? k := try_into 32 key (Format "aes256-cbc key len") in
    let? i := try_into 16 iv (Format "aes-cbc iv len") in
    Ok (Cbc256 (cbc_prim_new Aes256 k i))
  else if bytes_eqb name (bs "3des-cbc") then
    let? k := try_into 24 key (Format "3des-cbc key len") in
    let? i := try_into 8 iv (Format "3des-cbc iv len") in
    Ok (CbcTdes (cbc_prim_new TdesEde3 k i))
  else Err (Unsupported "cipher").

Definition cbc_block_size (c : CbcState) : Z :=
  match c with CbcTdes _ => 8 | _ => 16 end.

Definition cbc_encrypt (c : CbcState) (buf : bytes) : result bytes * CbcState :=
  let (r, c) := match c with
    | Cbc128 c => let (r, c) := cbc_prim_encrypt c buf in (r, Cbc128 c)
    | Cbc192 c => let (r, c) := cbc_prim_encrypt c buf in (r, Cbc192 c)
    | Cbc256 c => let (r, c) := cbc_prim_encrypt c buf in (r, Cbc256 c)
    | CbcTdes c => let (r, c) := cbc_prim_encrypt c buf in (r, CbcTdes c)
    end in
  (ok_or r (Protocol "CBC input not block-aligned"), c).

Definition cbc_decrypt (c : CbcState) (buf : bytes) : result bytes * CbcState :=
  let (r, c) := match c with
    | Cbc128 c => let (r, c) := cbc_prim_decrypt c buf in (r, Cbc128 c)
    | Cbc192 c => let (r, c) := cbc_prim_decrypt c buf in (r, Cbc192 c)
    | Cbc256 c => let (r, c) := cbc_prim_decrypt c buf in (r, Cbc256 c)
    | CbcTdes c => let (r, c) := cbc_prim_decrypt c buf in (r, CbcTdes c)
    end in
  (ok_or r (Protocol "CBC input not block-aligned"), c).

Inductive AesGcm := Gcm128 (g : Gcm Aes128) | Gcm256 (g : Gcm Aes256).

Record GcmState := { g_cipher : AesGcm; g_fixed : bytes; g_invocation : Z }.
#[local] Instance eta_GcmState : Etable GcmState :=
  λ r, Build_GcmState (g_cipher r) (g_fixed r) (g_invocation r).

Definition split_iv (iv : bytes) : result (bytes * Z) :=
  if negb (len iv =? 12) then Err (Format "aes-gcm iv len")
  else Ok (take 4 iv, be_value (drop 4 iv)).

Definition gcm_new_128 (key iv : bytes) : result GcmState :=
  let? k := try_into 16 key (Format "aes128-gcm key len") in
  let? (fixed, invocation) := split_iv iv in
  Ok {| g_cipher := Gcm128 (gcm_prim_new Aes128 k); g_fixed := fixed; g_invocation := invocation |}.
Definition gcm_new_256 (key iv : bytes) : result GcmState :=
  let? k := try_into 32 key (Format "aes256-gcm key len") in
  let? (fixed, invocation) := split_iv iv in
  Ok {| g_cipher := Gcm256 (gcm_prim_new Aes256 k); g_fixed := fixed; g_invocation := invocation |}.

Definition gcm_nonce (g : GcmState) : bytes := g_fixed g ++ be_bytes 8 (g_invocation g).

(** [invocation.checked_add(1)]: fails instead of wrapping. *)
Definition gcm_step (g : GcmState) : result GcmState :=
  if g_invocation g =? U64_MAX then Err (Crypto "aes-gcm invocation counter exhausted")
  else Ok (g <| g_invocation := g_invocation g + 1 |>).

Definition gcm_seal (g : GcmState) (aad payload : bytes) : result (bytes * bytes) * GcmState :=
  let nonce := gcm_nonce g in
  let (c, tag) := match g_cipher g with
    | Gcm128 k => gcm_prim_encrypt k nonce aad payload
    | Gcm256 k => gcm_prim_encrypt k nonce aad payload
    end in
  let! g := gcm_step g at g in
  (Ok (c, tag), g).

Definition gcm_open (g : GcmState) (aad payload tag : bytes) : result bytes * GcmState :=
  let! t := try_into 16 tag (Format "aes-gcm tag len") at g in
  let nonce := gcm_nonce g in
  let r := match g_cipher g with
    | Gcm128 k => gcm_prim_decrypt k nonce aad payload t
    | Gcm256 k => gcm_prim_decrypt k nonce aad payload t
    end in
  match r with
  | Some m => let! g := gcm_step g at g in (Ok m, g)
  | None => (Err BadTag, g)
  end.

Record ChaChaPoly := { cp_payload_key : ChaCha20; cp_length_key : ChaCha20 }.

Definition chachapoly_new (key : bytes) : result ChaChaPoly :=
  if negb (len key =? 64) then Err (Format "chacha20-poly1305 key len")
  else Ok {| cp_payload_key := chacha20_new (take 32 key);
             cp_length_key := chacha20_new (drop 32 key) |}.

Definition chachapoly_nonce (seq : Z) : bytes := replicate 4 Byte.x00 ++ be_bytes 8 seq.
Definition xor_length (c : ChaChaPoly) (seq : Z) (buf : bytes) : bytes :=
  chacha20_apply_keystream (cp_length_key c) (chachapoly_nonce seq) 0 buf.
Definition xor_payload (c : ChaChaPoly) (seq : Z) (buf : bytes) : bytes :=
  chacha20_apply_keystream (cp_payload_key c) (chachapoly_nonce seq) 1 buf.
Definition chachapoly_tag (c : ChaChaPoly) (seq : Z) (enc_len enc_payload : bytes) : bytes :=
  let block0 := chacha20_block (cp_payload_key c) (chachapoly_nonce seq) 0 in
  poly1305 (take 32 block0) (enc_len ++ enc_payload).

(** [purecrypto::ct::ConstantTimeEq] on byte strings decides equality. *)
Definition chachapoly_verify_tag (c : ChaChaPoly) (seq : Z) (enc_len enc_payload tag : bytes)
    : result unit :=
  if negb (len tag =? 16) then Err (Format "chacha20-poly1305 tag len")
  else if bytes_eqb (chachapoly_tag c seq enc_len enc_payload) tag then Ok ()
  else Err BadTag.

Inductive SshCipher :=
  | CipherCtr (c : AesCtr)
  | CipherGcm (g : GcmState)
  | CipherCbc (c : CbcState)
  | CipherChaChaPoly (c : ChaChaPoly).

Definition ssh_cipher_new (name key iv : bytes) : result SshCipher :=
  if bytes_eqb name (bs "aes128-ctr") then let? c := ctr_new_128 key iv in Ok (CipherCtr c)
  else if bytes_eqb name (bs "aes192-ctr") then let? c := ctr_new_192 key iv in Ok (CipherCtr c)
  else if bytes_eqb name (bs "aes256-ctr") then let? c := ctr_new_256 key iv in Ok (CipherCtr c)
  else if bytes_eqb name (bs "aes128-gcm@openssh.com") then
    let? g := gcm_new_128 key iv in Ok (CipherGcm g)
  else if bytes_eqb name (bs "aes256-gcm@openssh.com") then
    let? g := gcm_new_256 key iv in Ok (CipherGcm g)
  else if bytes_eqb name (bs "chacha20-poly1305@openssh.com") then
    let? c := chachapoly_new key in Ok (CipherChaChaPoly c)
  else if bytes_eqb name (bs "aes128-cbc") || bytes_eqb name (bs "aes192-cbc") ||
          bytes_eqb name (bs "aes256-cbc") || bytes_eqb name (bs "3des-cbc") then
    let? c := cbc_new name key iv in Ok (CipherCbc c)
  else Err (Unsupported "cipher").

Definition is_aead (c : SshCipher) : bool :=
  match c with CipherCtr _ | CipherCbc _ => false | _ => true end.
Definition block_size (c : SshCipher) : Z :=
  match c with CipherCbc c => cbc_block_size c | _ => 16 end.
Definition encrypts_length (c : SshCipher) : bool :=
  match c with CipherGcm _ => false | _ => true end.

Definition stream (c : SshCipher) (buf : bytes) : result bytes * SshCipher :=
  match c with
  | CipherCtr c => let (b, c) := aes_ctr_apply c buf in (Ok b, CipherCtr c)
  | _ => (Err (Unsupported "stream op on AEAD cipher"), c)
  end.

Definition encrypt_blocks (c : SshCipher) (buf : bytes) : result bytes * SshCipher :=
  match c with
  | CipherCbc c => let (r, c) := cbc_encrypt c buf in (r, CipherCbc c)
  | _ => stream c buf
  end.
Definition decrypt_blocks (c : SshCipher) (buf : bytes) : result bytes * SshCipher :=
  match c with
  | CipherCbc c => let (r, c) := cbc_decrypt c buf in (r, CipherCbc c)
  | _ => stream c buf
  end.

Definition aead_seal_len_aad (c : SshCipher) (length payload : bytes)
    : result (bytes * bytes) * SshCipher :=
  match c with
  | CipherGcm g => let (r, g) := gcm_seal g length payload in (r, CipherGcm g)
  | _ => (Err (Unsupported "GCM seal on non-GCM cipher"), c)
  end.
Definition aead_open_len_aad (c : SshCipher) (length payload tag : bytes)
    : result bytes * SshCipher :=
  match c with
  | CipherGcm g => let (r, g) := gcm_open g length payload tag in (r, CipherGcm g)
  | _ => (Err (Unsupported "GCM open on non-GCM cipher"), c)
  end.

Definition cp_xor_length (c : SshCipher) (seq : Z) (buf : bytes) : result bytes :=
  match c with
  | CipherChaChaPoly c => Ok (xor_length c seq buf)
  | _ => Err (Unsupported "chacha20-poly1305 op on other cipher")
  end.
Definition cp_xor_payload (c : SshCipher) (seq : Z) (buf : bytes) : result bytes :=
  match c with
  | CipherChaChaPoly c => Ok (xor_payload c seq buf)
  | _ => Err (Unsupported "chacha20-poly1305 op on other cipher")
  end.
Definition cp_tag (c : SshCipher) (seq : Z) (enc_len enc_payload : bytes) : result bytes :=
  match c with
  | CipherChaChaPoly c => Ok (chachapoly_tag c seq enc_len enc_payload)
  | _ => Err (Unsupported "chacha20-poly1305 op on other cipher")
  end.
Definition cp_verify_tag (c : SshCipher) (seq : Z) (enc_len enc_payload tag : bytes) : result unit :=
  match c with
  | CipherChaChaPoly c => chachapoly_verify_tag c seq enc_len enc_payload tag
  | _ => Err (Unsupported "chacha20-poly1305 op on other cipher")
  end.

Definition cipher_by_name (name key iv : bytes) : option (result SshCipher) :=
  match cipher_spec_by_name name with
  | Some _ => Some (ssh_cipher_new name key iv)
  | None => None
  end.

(** ** MACs: the trait [SshMac] and its two implementations *)

Definition ct_eq (a b : bytes) : bool :=
  (len a =? len b) &&
  (fold_left (λ acc xy, Z.lor acc (Z.lxor (u8 xy.1) (u8 xy.2))) (zip a b) 0 =? 0).

Inductive Umac := U64 (key : bytes) | U128 (key : bytes).

Inductive SshMac :=
  | HmacMac (D : Digest) (keyed : bytes) (tag_len : Z) (etm : bool)
  | UmacMac (keyed : Umac) (etm : bool).

Definition hmac_tag (D : Digest) (keyed : bytes) (seq : Z) (msg : bytes) : bytes :=
  hmac D keyed (be_bytes 4 seq ++ msg).
Definition umac_tag (keyed : Umac) (seq : Z) (msg : bytes) : bytes :=
  let nonce := be_bytes 8 seq in
  match keyed with
  | U64 k => umac64 k nonce msg
  | U128 k => umac128 k nonce msg
  end.
Definition umac_tag_len (keyed : Umac) : Z := match keyed with U64 _ => 8 | U128 _ => 16 end.

Definition mac_tag_len (m : SshMac) : Z :=
  match m with HmacMac _ _ t _ => t | UmacMac k _ => umac_tag_len k end.
Definition mac_etm (m : SshMac) : bool :=
  match m with HmacMac _ _ _ e => e | UmacMac _ e => e end.

(** [compute(seq, msg, out)]: the bytes written to [out], a buffer of
    [out_len] bytes. *)
Definition mac_compute (m : SshMac) (seq : Z) (msg : bytes) (out_len : Z) : result bytes :=
  match m with
  | HmacMac D k t _ =>
      if negb (out_len =? t) then Err (Crypto "hmac: tag buffer has the wrong length")
      else Ok (take (Z.to_nat t) (hmac_tag D k seq msg))
  | UmacMac k _ =>
      if negb (out_len =? umac_tag_len k) then Err (Crypto "umac: tag buffer has the wrong length")
      else Ok (umac_tag k seq msg)
  end.
Definition mac_verify (m : SshMac) (seq : Z) (msg tag : bytes) : result unit :=
  match m with
  | HmacMac D k t _ =>
      if (len tag =? t) && ct_eq (take (Z.to_nat t) (hmac_tag D k seq msg)) tag then Ok ()
      else Err BadMac
  | UmacMac k _ => if ct_eq (umac_tag k seq msg) tag then Ok () else Err BadMac
  end.

(** [name.strip_suffix(suffix).unwrap_or(name)]. *)
Definition strip_suffix_or (suffix name : bytes) : bytes :=
  let n := (length name - length suffix)%nat in
  if bytes_eqb (drop n name) suffix then take n name else name.

Definition mac_by_name (name key : bytes) : option SshMac :=
  match mac_spec_by_name name with
  | None => None
  | Some spec =>
      if negb (len key =? ms_key_len spec) then None else
      let tag_len := ms_tag_len spec in
      let etm := ms_etm spec in
      let base := strip_suffix_or (bs "-etm@openssh.com") name in
      if bytes_eqb base (bs "hmac-sha2-256") then Some (HmacMac Sha256 key tag_len etm)
      else if bytes_eqb base (bs "hmac-sha2-512") then Some (HmacMac Sha512 key tag_len etm)
      else if bytes_eqb base (bs "hmac-sha1") || bytes_eqb base (bs "hmac-sha1-96") then
        Some (HmacMac Sha1 key tag_len etm)
      else if bytes_eqb base (bs "hmac-md5") || bytes_eqb base (bs "hmac-md5-96") then
        Some (HmacMac Md5 key tag_len etm)
      else if bytes_eqb base (bs "umac-64") || bytes_eqb base (bs "umac-64@openssh.com") ||
              bytes_eqb base (bs "umac-128") || bytes_eqb base (bs "umac-128@openssh.com") then
        if len key =? 16 then
          Some (UmacMac (if bytes_eqb (take 7 base) (bs "umac-64") then U64 key else U128 key) etm)
        else None
      else None
  end.
End Ciphers.
#[export] Existing Instance eta_GcmState.

(** ** Facts *)

Section CipherFacts.
Context {P : CipherPrims} {L : CipherLaws P}.

Lemma lor_fold_zero l acc :
  0 ≤ acc →
  fold_left (λ acc xy, Z.lor acc (Z.lxor (u8 xy.1) (u8 xy.2))) l acc = 0 ↔
  acc = 0 ∧ Forall (λ xy : byte * byte, xy.1 = xy.2) l.
Proof.
  revert acc. induction l as [|[x y] l IH]; intros acc Hacc; cbn [fold_left fst snd].
  - split; [intros ->; split; [done|constructor] | intros [? _]; done].
  - pose proof (u8_range x) as Hx. pose proof (u8_range y) as Hy.
    rewrite IH, Z.lor_eq_0_iff, Z.lxor_eq_0_iff, list.Forall_cons; cbn.
    + split; [intros [[-> ->%u8_inj] ?]; done | intros [-> [-> ?]]; done].
    + apply Z.lor_nonneg. split; [lia|]. apply Z.lxor_nonneg. lia.
Qed.

Lemma ct_eq_true a b : ct_eq a b = true ↔ a = b.
Proof.
  unfold ct_eq. rewrite andb_true_iff, !Z.eqb_eq, lor_fold_zero by lia. split.
  - intros (Hl & _ & H). unfold len in Hl. apply Nat2Z.inj in Hl.
    revert b Hl H. induction a as [|x a IH]; intros [|y b] Hl H; [done..|].
    cbn in H. apply list.Forall_cons in H as [Hxy H]. cbn in Hxy, Hl. subst y. f_equal.
    apply IH; [congruence|done].
  - intros ->. split; [done|]. split; [done|]. induction b; constructor; done.
Qed.

(** A MAC as [mac_by_name] builds it: the tag is no longer than the digest. *)
Definition mac_wf (m : SshMac) : Prop :=
  match m with HmacMac D _ t _ => 0 ≤ t ≤ digest_len D | UmacMac _ _ => True end.

(** The tag of a message. *)
Definition mac_tag (m : SshMac) (seq : Z) (msg : bytes) : bytes :=
  match m with
  | HmacMac D k t _ => take (Z.to_nat t) (hmac_tag D k seq msg)
  | UmacMac k _ => umac_tag k seq msg
  end.

Lemma mac_compute_tag m seq msg : mac_compute m seq msg (mac_tag_len m) = Ok (mac_tag m seq msg).
Proof. destruct m; cbn; rewrite Z.eqb_refl; done. Qed.

Lemma mac_tag_length m seq msg : mac_wf m → len (mac_tag m seq msg) = mac_tag_len m.
Proof.
  destruct m as [D k t e|[k|k] e]; cbn; intros Hwf.
  - apply len_take. unfold hmac_tag. rewrite hmac_len. lia.
  - apply umac64_len.
  - apply umac128_len.
Qed.

Lemma mac_verify_iff m seq msg tag :
  mac_wf m → mac_verify m seq msg tag = Ok () ↔ tag = mac_tag m seq msg.
Proof.
  intros Hwf. pose proof (mac_tag_length m seq msg Hwf) as Hl.
  destruct m as [D k t e|k e]; cbn [mac_verify mac_tag mac_tag_len] in *.
  - destruct ((len tag =? t) && _) eqn:E.
    + apply andb_true_iff in E as [_ E%ct_eq_true]. done.
    + split; [done|]. intros ->. rewrite Hl, Z.eqb_refl in E. cbn in E.
      by rewrite (proj2 (ct_eq_true _ _) eq_refl) in E.
  - destruct (ct_eq _ _) eqn:E.
    + apply ct_eq_true in E. done.
    + split; [done|]. intros ->. by rewrite (proj2 (ct_eq_true _ _) eq_refl) in E.
Qed.

Lemma mac_tag_len_nonneg m : mac_wf m → 0 ≤ mac_tag_len m.
Proof. destruct m as [D k t e|[k|k] e]; cbn; lia. Qed.

(** The block size of a CTR or CBC suite. *)
Lemma block_size_pos c : 8 ≤ block_size c ∧ block_size c ≤ 16.
Proof. destruct c as [| |[]|]; cbn; lia. Qed.
Lemma block_size_cases c : block_size c = 8 ∨ block_size c = 16.
Proof. destruct c as [| |[]|]; cbn; lia. Qed.

Lemma cbc_encrypt_ok c b :
  (cbc_block_size c | len b) → ∃ e c', cbc_encrypt c b = (Ok e, c') ∧ len e = len b ∧
    cbc_block_size c' = cbc_block_size c ∧ cbc_decrypt c e = (Ok b, c').
Proof.
  destruct c as [c|c|c|c]; cbn [cbc_block_size]; intros Hb;
  destruct (cbc_encrypt_aligned c b Hb) as (e & c' & E & Hl);
  pose proof (cbc_decrypt_encrypt _ _ _ _ E) as D;
  unfold cbc_encrypt, cbc_decrypt; rewrite E; cbn;
  eexists _, _; rewrite D; done.
Qed.

Lemma cbc_decrypt_ok c b :
  (cbc_block_size c | len b) → ∃ p c', cbc_decrypt c b = (Ok p, c') ∧ len p = len b ∧
    cbc_block_size c' = cbc_block_size c.
Proof.
  destruct c as [c|c|c|c]; cbn [cbc_block_size]; intros Hb;
  destruct (cbc_decrypt_aligned c b Hb) as (p & c' & E & Hl);
  unfold cbc_decrypt; rewrite E; cbn; eexists _, _; done.
Qed.

Lemma cbc_decrypt_split c a b p c2 :
  (cbc_block_size c | len a) → cbc_decrypt c (a ++ b) = (Ok p, c2) →
  ∃ a' b' c1, cbc_decrypt c a = (Ok a', c1) ∧ cbc_decrypt c1 b = (Ok b', c2) ∧
    p = a' ++ b' ∧ len a' = len a ∧ cbc_block_size c1 = cbc_block_size c.
Proof.
  destruct c as [c|c|c|c]; cbn [cbc_block_size]; intros Ha; unfold cbc_decrypt;
  destruct (cbc_prim_decrypt c (a ++ b)) as [[q|] s2] eqn:E; cbn; intros [= <- <-];
  destruct (cbc_decrypt_app c a b q s2 Ha E) as (a' & b' & s1 & E1 & E2 & -> & Hl);
  rewrite E1; cbn; eexists _, _, _; (split; [done|]); cbn; rewrite E2; done.
Qed.

Lemma aes_ctr_apply_facts c b :
  let r := aes_ctr_apply c b in
  len r.1 = len b ∧ (aes_ctr_apply c r.1) = (b, r.2).
Proof.
  destruct c as [c|c|c]; cbn;
  pose proof (ctr_len c b) as H1; pose proof (ctr_involutive c b) as H2;
  pose proof (ctr_position c _ _ H1) as H3;
  destruct (ctr_apply_keystream c b) as [e c']; cbn in *; (split; [done|]);
  destruct (ctr_apply_keystream c e) as [b2 c2]; cbn in *; congruence.
Qed.

Lemma aes_ctr_apply_app c a b :
  aes_ctr_apply c (a ++ b) =
  ((aes_ctr_apply c a).1 ++ (aes_ctr_apply (aes_ctr_apply c a).2 b).1,
   (aes_ctr_apply (aes_ctr_apply c a).2 b).2).
Proof.
  destruct c as [c|c|c]; cbn; rewrite ctr_app;
  destruct (ctr_apply_keystream c a) as [e c']; cbn;
  by destruct (ctr_apply_keystream c' b).
Qed.

(** What the codec needs of a CTR or CBC suite. *)
Lemma encrypt_blocks_ok c b :
  is_aead c = false → (block_size c | len b) →
  ∃ e c', encrypt_blocks c b = (Ok e, c') ∧ len e = len b ∧ is_aead c' = false ∧
    block_size c' = block_size c ∧ decrypt_blocks c e = (Ok b, c').
Proof.
  destruct c as [c|g|c|c]; cbn [is_aead]; try done; intros _ Hb.
  - cbn. pose proof (aes_ctr_apply_facts c b) as [H1 H2].
    destruct (aes_ctr_apply c b) as [e c'] eqn:E. cbn in *.
    exists e, (CipherCtr c'). by rewrite H2.
  - cbn in Hb. destruct (cbc_encrypt_ok c b Hb) as (e & c' & E & Hl & Hbs & D).
    cbn. rewrite E. exists e, (CipherCbc c'). by rewrite D.
Qed.

Lemma decrypt_blocks_split c a b p c2 :
  (block_size c | len a) → decrypt_blocks c (a ++ b) = (Ok p, c2) →
  ∃ a' b' c1, decrypt_blocks c a = (Ok a', c1) ∧ decrypt_blocks c1 b = (Ok b', c2) ∧
    p = a' ++ b' ∧ len a' = len a ∧ block_size c1 = block_size c.
Proof.
  destruct c as [c|g|c|c]; intros Ha H; cbn in H; try done.
  - cbn. rewrite aes_ctr_apply_app in H. pose proof (aes_ctr_apply_facts c a) as [H1 _].
    destruct (aes_ctr_apply c a) as [a' c1] eqn:E1. cbn in *.
    destruct (aes_ctr_apply c1 b) as [b' c1'] eqn:E2. cbn in *.
    injection H as <- <-. eexists a', b', (CipherCtr c1). cbn. rewrite E2. done.
  - cbn in Ha. destruct (cbc_decrypt c (a ++ b)) as [r c'] eqn:E. injection H as -> <-.
    destruct (cbc_decrypt_split _ _ _ _ _ Ha E) as (a' & b' & c1 & E1 & E2 & -> & Hl & Hbs).
    cbn. rewrite E1. eexists a', b', (CipherCbc c1). cbn. rewrite E2. done.
Qed.

(** ChaCha20-Poly1305 and GCM: opening inverts sealing. *)
Lemma xor_length_involutive c seq b : xor_length c seq (xor_length c seq b) = b.
Proof. apply chacha20_involutive. Qed.
Lemma xor_payload_involutive c seq b : xor_payload c seq (xor_payload c seq b) = b.
Proof. apply chacha20_involutive. Qed.

Lemma chachapoly_verify_iff c seq l p tag :
  chachapoly_verify_tag c seq l p tag = Ok () ↔ tag = chachapoly_tag c seq l p.
Proof.
  unfold chachapoly_verify_tag.
  assert (Hl : len (chachapoly_tag c seq l p) = 16) by apply poly1305_len.
  destruct (len tag =? 16) eqn:E; zbool; cbn.
  - destruct (bytes_eqb _ tag) eqn:E2; zbool; split; congruence.
  - split; [done|]. intros ->. congruence.
Qed.

Definition gcm_sealed (g : GcmState) (aad payload : bytes) : bytes * bytes :=
  match g_cipher g with
  | Gcm128 k => gcm_prim_encrypt k (gcm_nonce g) aad payload
  | Gcm256 k => gcm_prim_encrypt k (gcm_nonce g) aad payload
  end.

Lemma gcm_seal_open g aad payload :
  let r := gcm_sealed g aad payload in
  len r.1 = len payload ∧ len r.2 = 16 ∧
  gcm_seal g aad payload = match gcm_step g with Ok g' => (Ok r, g') | Err e => (Err e, g) end ∧
  gcm_open g aad r.1 r.2 = match gcm_step g with Ok g' => (Ok payload, g') | Err e => (Err e, g) end.
Proof.
  unfold gcm_sealed, gcm_seal, gcm_open, try_into. cbn zeta.
  destruct (g_cipher g) as [k|k];
  destruct (gcm_encrypt_len k (gcm_nonce g) aad payload) as [H1 H2];
  pose proof (gcm_decrypt_encrypt k (gcm_nonce g) aad payload) as H3;
  destruct (gcm_prim_encrypt k (gcm_nonce g) aad payload) as [c t]; cbn in *;
  rewrite H2; cbn; rewrite H3; (split; [done|]); (split; [done|]); split; done.
Qed.
End CipherFacts.

(** ** The catalogues and the constructors agree *)

Definition cipher_agrees {P : CipherPrims} (s : CipherSpec) : Prop :=
  ∀ key iv, len key = cs_key_len s → len iv = cs_iv_len s →
  ∃ c, cipher_by_name (cs_name s) key iv = Some (Ok c) ∧ is_aead c = cs_aead s ∧
    (is_aead c = false → block_size c = cs_block_size s).

Definition mac_agrees {P : CipherPrims} (s : MacSpec) : Prop :=
  ∀ key, len key = ms_key_len s →
  ∃ m, mac_by_name (ms_name s) key = Some m ∧ mac_tag_len m = ms_tag_len s ∧
    mac_etm m = ms_etm s ∧ mac_wf m.

Lemma ciphers_agree {P : CipherPrims} : Forall cipher_agrees CIPHERS_ALL.
Proof.
  repeat apply Forall_cons_2; try apply Forall_nil_2; intros key iv Hk Hi; cbn in Hk, Hi;
  unfold cipher_by_name, ssh_cipher_new, ctr_new_128, ctr_new_192, ctr_new_256, gcm_new_128,
    gcm_new_256, chachapoly_new, cbc_new, try_into, split_iv;
  rewrite Hk, ?Hi; cbn; eexists; (split; [reflexivity|]); done.
Qed.

Lemma macs_agree {P : CipherPrims} : Forall mac_agrees MACS_ALL.
Proof.
  repeat apply Forall_cons_2; try apply Forall_nil_2; intros key Hk; cbn in Hk;
  unfold mac_by_name; cbn; rewrite Hk; cbn; eexists; (split; [reflexivity|]); cbn;
  (split; [done|]); (split; [done|]); try done; lia.
Qed.

(** Every suite of the two catalogues can be built: with a key and an IV of
    the lengths its table row gives, [cipher_by_name] and [mac_by_name] return
    a state whose kind (AEAD or not), block size, tag length and
    encrypt-then-MAC flag are the row's, and no MAC's tag is longer than its
    digest. *)
Theorem suites_constructible {P : CipherPrims} :
  (∀ s, s ∈ CIPHERS_ALL → cipher_agrees s) ∧ (∀ s, s ∈ MACS_ALL → mac_agrees s).
Proof.
  split; apply list.Forall_forall; [apply ciphers_agree | apply macs_agree].
Qed.

(** ** An instance of the primitives *)

Definition byte_xor (x y : byte) : byte := byte_of_Z (Z.lxor (u8 x) (u8 y)).

Lemma byte_xor_involutive k x : byte_xor (byte_xor x k) k = x.
Proof.
  unfold byte_xor. pose proof (u8_range x). pose proof (u8_range k). apply u8_inj.
  assert (Hr : 0 ≤ Z.lxor (u8 x) (u8 k) < 256).
  { split; [apply Z.lxor_nonneg; lia|]. apply (Z.log2_lt_cancel _ 256).
    assert (Hlog : ∀ z, 0 ≤ z < 256 → Z.log2 z < 8).
    { intros z Hz. destruct (Z.eq_dec z 0) as [->|]; [done|]. apply Z.log2_lt_pow2; lia. }
    pose proof (Z.log2_lxor (u8 x) (u8 k) ltac:(lia) ltac:(lia)).
    pose proof (Hlog (u8 x)). pose proof (Hlog (u8 k)). change (Z.log2 256) with 8. lia. }
  rewrite (u8_byte_of_Z_small (Z.lxor (u8 x) (u8 k))) by done.
  rewrite Z.lxor_assoc, Z.lxor_nilpotent, Z.lxor_0_r. apply u8_byte_of_Z_small, u8_range.
Qed.

(** Keystream of a position: the position itself. *)
Definition demo_stream (s : Z) (b : bytes) : bytes :=
  imap (λ i x, byte_xor x (byte_of_Z (s + Z.of_nat i))) b.

Lemma demo_stream_len s b : len (demo_stream s b) = len b.
Proof. unfold len, demo_stream. by rewrite length_imap. Qed.
Lemma demo_stream_involutive s b : demo_stream s (demo_stream s b) = b.
Proof.
  unfold demo_stream. apply list_eq. intros i. rewrite !list_lookup_imap.
  destruct (b !! i); cbn; [by rewrite byte_xor_involutive | done].
Qed.
Lemma demo_stream_app s a b : demo_stream s (a ++ b) = demo_stream s a ++ demo_stream (s + len a) b.
Proof.
  unfold demo_stream. rewrite imap_app. f_equal. apply imap_ext. intros i x _.
  cbn. do 2 f_equal. unfold len. lia.
Qed.

(** CBC with the identity as block cipher keeps only the alignment rule. *)
Definition demo_cbc (B : BlockCipher) (s : Z) (b : bytes) : option bytes * Z :=
  if len b mod block_len B =? 0 then (Some (demo_stream s b), s + len b) else (None, s).

Lemma demo_cbc_aligned B s b :
  (block_len B | len b) → ∃ c s', demo_cbc B s b = (Some c, s') ∧ len c = len b.
Proof.
  intros Hb. unfold demo_cbc. rewrite (proj2 (Z.eqb_eq _ 0)).
  - eexists _, _. split; [done|]. apply demo_stream_len.
  - apply Z.mod_divide; [destruct B; done | done].
Qed.

Definition demo_prims : CipherPrims := {|
  Ctr _ := Z; ctr_new _ key iv := be_value (key ++ iv);
  ctr_apply_keystream _ s b := (demo_stream s b, s + len b);
  Cbc _ := Z; cbc_prim_new _ key iv := be_value (key ++ iv);
  cbc_prim_encrypt := demo_cbc; cbc_prim_decrypt := demo_cbc;
  Gcm _ := bytes; gcm_prim_new _ key := key;
  gcm_prim_encrypt _ k n aad m :=
    (demo_stream (be_value n) m, pad_to 16 (k ++ n ++ aad ++ m));
  gcm_prim_decrypt _ k n aad c t :=
    if bytes_eqb t (pad_to 16 (k ++ n ++ aad ++ demo_stream (be_value n) c))
    then Some (demo_stream (be_value n) c) else None;
  ChaCha20 := bytes; chacha20_new key := key;
  chacha20_apply_keystream k n c b := demo_stream (be_value k + be_value n + c) b;
  chacha20_block k n c := pad_to 64 (k ++ n);
  poly1305 k m := pad_to 16 (k ++ m);
  hmac D k m := pad_to (Z.to_nat (digest_len D)) (k ++ m);
  umac64 k n m := pad_to 8 (k ++ n ++ m);
  umac128 k n m := pad_to 16 (k ++ n ++ m);
|}.

Lemma demo_prims_laws : CipherLaws demo_prims.
Proof.
  split; cbn; intros; try apply len_pad_to; try apply demo_stream_len; try apply demo_stream_involutive.
  - congruence.
  - rewrite demo_stream_app, len_app. f_equal. lia.
  - by apply demo_cbc_aligned.
  - by apply demo_cbc_aligned.
  - unfold demo_cbc in *. destruct (_ =? 0) eqn:E; [|done]. injection H as <- <-.
    by rewrite demo_stream_len, E, demo_stream_involutive.
  - unfold demo_cbc in *. destruct (len (a ++ b) mod _ =? 0) eqn:E; [|done]. injection H0 as <- <-.
    apply Z.eqb_eq in E. rewrite len_app in E.
    assert (Ha : len a mod block_len B = 0) by (apply Z.mod_divide; [by destruct B | done]).
    assert (Hb : len b mod block_len B = 0).
    { rewrite Z.add_mod, Ha, Z.add_0_l, Z.mod_mod in E by (by destruct B). done. }
    rewrite Ha. cbn. eexists _, _, _. split; [done|]. rewrite Hb. cbn.
    rewrite demo_stream_app, demo_stream_len, len_app. split; [f_equal; lia|]. done.
  - split; [apply demo_stream_len | apply len_pad_to].
  - fold (demo_stream (be_value n) (demo_stream (be_value n) m)).
    by rewrite demo_stream_involutive, bytes_eqb_refl.
  - rewrite len_pad_to. by destruct D.
Qed.
