(* ===== verification/Compress.v ===== *)
(** * Packet compression (src/hazmat/compress)

    The traits [Compress] and [Decompress] with their implementations
    ["none"], ["zlib"] and ["zlib@openssh.com"].  DEFLATE itself is the
    [compcol] crate: the class [CompCol] has the calls the sources make, one
    output chunk at a time, and [CompColLaws] what their documentation says of
    one call. *)
From S2P Require Import Prelude Wire.

Inductive Status := InputEmpty | OutputFull | StreamEnd.

(** A call returns the bytes of input consumed, the bytes written to the
    chunk, and the status; [None] is the crate's error. *)
Class CompCol := {
  CcEncoder : Type;
  cc_encoder_new : CcEncoder;
  cc_encode : CcEncoder → (* input *) bytes → (* chunk size *) Z →
              option (Z * bytes * Status) * CcEncoder;
  cc_flush_sync : CcEncoder → (* chunk size *) Z → option (bytes * Status) * CcEncoder;
  (** How many more calls the encoder can answer with output before it has
      nothing left to write for [input]: bounds the loops below. *)
  cc_encode_calls : CcEncoder → bytes → nat;
  cc_flush_calls : CcEncoder → nat;
  CcDecoder : Type;
  cc_decoder_new : CcDecoder;
  cc_decode : CcDecoder → (* input *) bytes → (* chunk size *) Z →
              option (Z * bytes * Status) * CcDecoder;
}.

Class CompColLaws {C : CompCol} := {
  cc_encode_progress e e' input n consumed written :
    cc_encode e input n = (Some (consumed, written, OutputFull), e') →
    (consumed ≠ 0 ∨ written ≠ []) →
    (cc_encode_calls e' (drop (Z.to_nat consumed) input) < cc_encode_calls e input)%nat;
  cc_flush_progress e e' n written st :
    cc_flush_sync e n = (Some (written, st), e') → written ≠ [] →
    (cc_flush_calls e' < cc_flush_calls e)%nat;
  cc_decode_bounds d d' input n consumed written st :
    0 ≤ n → cc_decode d input n = (Some (consumed, written, st), d') →
    0 ≤ consumed ≤ len input ∧ len written ≤ n;
}.
Arguments CompColLaws : clear implicits.

Section Compression.
Context `{C : CompCol}.

Definition CHUNK : Z := 8 * 1024.
(** [MAX_PACKET_LEN * 8]. *)
Definition DEFAULT_MAX_INFLATE_OUTPUT : Z := 256 * 1024 * 8.

(** ** Deflate *)

Record ZlibDeflate := { zd_enc : CcEncoder }.
Definition zlib_deflate_new : ZlibDeflate := {| zd_enc := cc_encoder_new |}.

(** Push the input, at most [fuel] calls. *)
Fixpoint deflate_push (fuel : nat) (e : CcEncoder) (input out : bytes)
    : option (result bytes * CcEncoder) :=
  match fuel with
  | O => None
  | S fuel =>
      if is_nil input then Some (Ok out, e) else
      match cc_encode e input CHUNK with
      | (None, e) => Some (Err (Crypto "zlib compress failed"), e)
      | (Some (consumed, written, status), e) =>
          let input := drop (Z.to_nat consumed) input in
          let out := out ++ written in
          match status with
          | InputEmpty => Some (Ok out, e)
          | OutputFull =>
              if (consumed =? 0) && (len written =? 0) then
                Some (Err (Crypto "zlib compress stalled"), e)
              else deflate_push fuel e input out
          | StreamEnd => Some (Err (Crypto "zlib compress closed"), e)
          end
      end
  end.

(** The sync flush, at most [fuel] calls. *)
Fixpoint deflate_flush (fuel : nat) (e : CcEncoder) (out : bytes)
    : option (result bytes * CcEncoder) :=
  match fuel with
  | O => None
  | S fuel =>
      match cc_flush_sync e CHUNK with
      | (None, e) => Some (Err (Crypto "zlib compress failed"), e)
      | (Some (written, status), e) =>
          let out := out ++ written in
          match status with
          | InputEmpty =>
              if len written =? CHUNK then deflate_flush fuel e out else Some (Ok out, e)
          | OutputFull =>
              if len written =? 0 then Some (Err (Crypto "zlib compress stalled"), e)
              else deflate_flush fuel e out
          | StreamEnd => Some (Err (Crypto "zlib compress closed"), e)
          end
      end
  end.

(** [ZlibDeflate::step], [None] if a loop does not end within its bound (which
    [deflate_total] excludes). *)
Definition deflate_run (e : CcEncoder) (input : bytes) : option (result bytes * CcEncoder) :=
  match deflate_push (S (cc_encode_calls e input)) e input [] with
  | Some (Ok out, e) => deflate_flush (S (cc_flush_calls e)) e out
  | r => r
  end.

Definition zlib_deflate_step (z : ZlibDeflate) (input : bytes) : result bytes * ZlibDeflate :=
  match deflate_run (zd_enc z) input with
  | Some (r, e) => (r, {| zd_enc := e |})
  | None => (Err (Crypto "zlib compress stalled"), z)
  end.

(** ** Inflate *)

Record ZlibInflate := { zi_dec : CcDecoder; zi_max_output_size : Z }.
#[local] Instance eta_ZlibInflate : Etable ZlibInflate :=
  λ r, Build_ZlibInflate (zi_dec r) (zi_max_output_size r).
Definition zlib_inflate_new : ZlibInflate :=
  {| zi_dec := cc_decoder_new; zi_max_output_size := DEFAULT_MAX_INFLATE_OUTPUT |}.
Definition inflate_set_max_output_size (n : Z) (z : ZlibInflate) : ZlibInflate :=
  z <| zi_max_output_size := n |>.

Fixpoint inflate_loop (fuel : nat) (max : Z) (d : CcDecoder) (input out : bytes)
    : option (result bytes * CcDecoder) :=
  match fuel with
  | O => None
  | S fuel =>
      match cc_decode d input CHUNK with
      | (None, d) => Some (Err (Format "zlib decompress failed"), d)
      | (Some (consumed, written, status), d) =>
          let input := drop (Z.to_nat consumed) input in
          if Z.min (len out + len written) U64_MAX >? max then
            Some (Err (Format "zlib decompressed too large"), d)
          else
          let out := out ++ written in
          match status with
          | InputEmpty =>
              if len written =? CHUNK then inflate_loop fuel max d input out else Some (Ok out, d)
          | OutputFull =>
              if (consumed =? 0) && (len written =? 0) then
                Some (Err (Format "zlib decompress stalled"), d)
              else inflate_loop fuel max d input out
          | StreamEnd => Some (Err (Format "zlib decompress closed"), d)
          end
      end
  end.

(** Every iteration that continues consumes input or produces output below
    the cap, which bounds their number. *)
Definition inflate_fuel (max : Z) (input : bytes) : nat := S (length input + Z.to_nat max).

Definition zlib_inflate_step (z : ZlibInflate) (input : bytes) : result bytes * ZlibInflate :=
  match inflate_loop (inflate_fuel (zi_max_output_size z) input) (zi_max_output_size z)
          (zi_dec z) input [] with
  | Some (r, d) => (r, z <| zi_dec := d |>)
  | None => (Err (Format "zlib decompress stalled"), z)
  end.

(** ** The traits' implementations *)

Inductive Compress :=
  | NoneCompress
  | ZlibCompress (inner : ZlibDeflate)
  | ZlibOpenSshCompress (inner : option ZlibDeflate).

Definition zlib_compress_new : Compress := ZlibCompress zlib_deflate_new.
Definition zlib_openssh_compress_new : Compress := ZlibOpenSshCompress None.

Definition compress_name (c : Compress) : bytes :=
  match c with
  | NoneCompress => bs "none" | ZlibCompress _ => bs "zlib"
  | ZlibOpenSshCompress _ => bs "zlib@openssh.com"
  end.
Definition compress (c : Compress) (input : bytes) : result bytes * Compress :=
  match c with
  | NoneCompress => (Ok input, NoneCompress)
  | ZlibCompress z => let (r, z) := zlib_deflate_step z input in (r, ZlibCompress z)
  | ZlibOpenSshCompress None => (Ok input, ZlibOpenSshCompress None)
  | ZlibOpenSshCompress (Some z) =>
      let (r, z) := zlib_deflate_step z input in (r, ZlibOpenSshCompress (Some z))
  end.
Definition compress_active (c : Compress) : bool :=
  match c with ZlibOpenSshCompress i => bool_decide (is_Some i) | _ => true end.
Definition compress_activate (c : Compress) : Compress :=
  match c with ZlibOpenSshCompress None => ZlibOpenSshCompress (Some zlib_deflate_new) | _ => c end.

Inductive Decompress :=
  | NoneDecompress
  | ZlibDecompress (inner : ZlibInflate)
  | ZlibOpenSshDecompress (inner : option ZlibInflate) (max_output_size : Z).

Definition zlib_decompress_new : Decompress := ZlibDecompress zlib_inflate_new.
Definition zlib_openssh_decompress_new : Decompress :=
  ZlibOpenSshDecompress None DEFAULT_MAX_INFLATE_OUTPUT.
Definition set_max_output_size (n : Z) (d : Decompress) : Decompress :=
  match d with
  | NoneDecompress => NoneDecompress
  | ZlibDecompress z => ZlibDecompress (inflate_set_max_output_size n z)
  | ZlibOpenSshDecompress inner _ =>
      ZlibOpenSshDecompress (option_map (inflate_set_max_output_size n) inner) n
  end.

Definition decompress_name (d : Decompress) : bytes :=
  match d with
  | NoneDecompress => bs "none" | ZlibDecompress _ => bs "zlib"
  | ZlibOpenSshDecompress _ _ => bs "zlib@openssh.com"
  end.
Definition decompress (d : Decompress) (input : bytes) : result bytes * Decompress :=
  match d with
  | NoneDecompress => (Ok input, NoneDecompress)
  | ZlibDecompress z => let (r, z) := zlib_inflate_step z input in (r, ZlibDecompress z)
  | ZlibOpenSshDecompress None m => (Ok input, ZlibOpenSshDecompress None m)
  | ZlibOpenSshDecompress (Some z) m =>
      let (r, z) := zlib_inflate_step z input in (r, ZlibOpenSshDecompress (Some z) m)
  end.
Definition decompress_active (d : Decompress) : bool :=
  match d with ZlibOpenSshDecompress i _ => bool_decide (is_Some i) | _ => true end.
Definition decompress_activate (d : Decompress) : Decompress :=
  match d with
  | ZlibOpenSshDecompress None m =>
      ZlibOpenSshDecompress (Some (inflate_set_max_output_size m zlib_inflate_new)) m
  | _ => d
  end.

Definition compress_by_name (name : bytes) : option Compress :=
  if bytes_eqb name (bs "none") then Some NoneCompress
  else if bytes_eqb name (bs "zlib") then Some zlib_compress_new
  else if bytes_eqb name (bs "zlib@openssh.com") then Some zlib_openssh_compress_new
  else None.
Definition decompress_by_name (name : bytes) : option Decompress :=
  if bytes_eqb name (bs "none") then Some NoneDecompress
  else if bytes_eqb name (bs "zlib") then Some zlib_decompress_new
  else if bytes_eqb name (bs "zlib@openssh.com") then Some zlib_openssh_decompress_new
  else None.
End Compression.
#[export] Existing Instance eta_ZlibInflate.

(** ** The loops end, and inflation is capped *)

Section CompressFacts.
Context {C : CompCol} {L : CompColLaws C}.

Lemma is_nil_false {A} (l : list A) : len l ≠ 0 → l ≠ [].
Proof. intros H ->. done. Qed.

Lemma deflate_push_total fuel e input out :
  (cc_encode_calls e input < fuel)%nat → is_Some (deflate_push fuel e input out).
Proof.
  revert e input out. induction fuel as [|fuel IH]; intros e input out Hf; [lia|]. cbn.
  destruct (is_nil input); [done|].
  destruct (cc_encode e input CHUNK) as [[[[consumed written] []]|] e'] eqn:E; try done.
  destruct ((consumed =? 0) && _) eqn:Ep; [done|]. zbool. apply IH.
  assert (consumed ≠ 0 ∨ written ≠ []) as Hp.
  { destruct Ep; zbool; [by left | right; by apply is_nil_false]. }
  pose proof (cc_encode_progress _ _ _ _ _ _ E Hp). lia.
Qed.

Lemma deflate_flush_total fuel e out :
  (cc_flush_calls e < fuel)%nat → is_Some (deflate_flush fuel e out).
Proof.
  revert e out. induction fuel as [|fuel IH]; intros e out Hf; [lia|]. cbn.
  destruct (cc_flush_sync e CHUNK) as [[[written []]|] e'] eqn:E; try done.
  - destruct (len written =? CHUNK) eqn:Ec; [|done]. zbool. apply IH.
    pose proof (cc_flush_progress _ _ _ _ _ E). destruct written; [done|].
    specialize (H ltac:(done)). lia.
  - destruct (len written =? 0) eqn:Ec; [done|]. zbool. apply IH.
    pose proof (cc_flush_progress _ _ _ _ _ E (is_nil_false _ Ec)). lia.
Qed.

Lemma deflate_total e input : is_Some (deflate_run e input).
Proof.
  unfold deflate_run.
  destruct (deflate_push_total (S (cc_encode_calls e input)) e input []) as [[[out|err] e'] ->];
    [lia|..]; [apply deflate_flush_total; lia | done].
Qed.

Lemma inflate_loop_total fuel max d input out :
  0 ≤ max < U64_MAX → len out ≤ max → len input + (max - len out) < Z.of_nat fuel →
  ∃ r d', inflate_loop fuel max d input out = Some (r, d') ∧
    (∀ o, r = Ok o → len out ≤ len o ≤ max).
Proof.
  intros Hmax. revert d input out. induction fuel as [|fuel IH]; intros d input out Ho Hf.
  { pose proof (len_nonneg input). lia. }
  cbn. destruct (cc_decode d input CHUNK) as [[[[consumed written] st]|] d'] eqn:E.
  2:{ eexists _, _. split; [done|]. congruence. }
  pose proof (cc_decode_bounds d d' input CHUNK _ _ _ ltac:(done) E) as [Hc Hw]. pose proof (len_nonneg written).
  destruct (_ >? max) eqn:Em.
  { eexists _, _. split; [done|]. congruence. }
  assert (Hlen : len out + len written ≤ max) by (rewrite Z.gtb_ltb in Em; zbool; lia).
  assert (Hnext : consumed ≠ 0 ∨ len written ≠ 0 →
    ∃ r d2, inflate_loop fuel max d' (drop (Z.to_nat consumed) input) (out ++ written) = Some (r, d2) ∧
      (∀ o, r = Ok o → len out ≤ len o ≤ max)).
  { intros Hp. destruct (IH d' (drop (Z.to_nat consumed) input) (out ++ written)) as (r & d2 & Hr & Hb).
    - rewrite len_app. lia.
    - rewrite len_drop, len_app by lia. lia.
    - eexists _, _. split; [done|]. intros o Eo. specialize (Hb o Eo). rewrite len_app in Hb. lia. }
  destruct st.
  - destruct (len written =? CHUNK) eqn:Ew.
    + apply Hnext. right. apply Z.eqb_eq in Ew. rewrite Ew. done.
    + eexists _, _. split; [done|]. intros o [= <-]. rewrite len_app. lia.
  - destruct ((consumed =? 0) && (len written =? 0)) eqn:Ep.
    + eexists _, _. split; [done|]. congruence.
    + apply Hnext. zbool. destruct Ep; zbool; lia.
  - eexists _, _. split; [done|]. congruence.
Qed.
End CompressFacts.

(** Decompression-bomb resistance: whatever the decoder answers within its chunk, inflating
    one packet ends within the model's bound on the number of decoder calls
    (the input's length plus the cap), and what it returns is never longer
    than [max_output_size]. *)
Theorem inflate_capped {C : CompCol} {L : CompColLaws C} z input :
  0 ≤ zi_max_output_size z < U64_MAX →
  is_Some (inflate_loop (inflate_fuel (zi_max_output_size z) input) (zi_max_output_size z)
             (zi_dec z) input []) ∧
  (∀ out z', zlib_inflate_step z input = (Ok out, z') →
     len out ≤ zi_max_output_size z ∧ zi_max_output_size z' = zi_max_output_size z).
Proof.
  intros Hmax. unfold zlib_inflate_step.
  destruct (inflate_loop_total (inflate_fuel (zi_max_output_size z) input) (zi_max_output_size z)
              (zi_dec z) input []) as (r & d' & -> & Hb);
    [done | rewrite (len_nil (A := byte)); lia | ..].
  { rewrite (len_nil (A := byte)). unfold inflate_fuel, len. lia. }
  split; [done|]. intros out z' [= Hr <-]. split; [|done]. specialize (Hb out Hr). lia.
Qed.

(** A decoder that repeats every input byte eight thousand times, one chunk
    per byte, and an encoder that copies. *)
Definition demo_compcol : CompCol := {|
  CcEncoder := bytes;
  cc_encoder_new := [];
  cc_encode e input n := (Some (len input, [], InputEmpty), e ++ input);
  cc_flush_sync e n :=
    (Some (take (Z.to_nat n) e, InputEmpty), drop (Z.to_nat n) e);
  cc_encode_calls _ _ := O;
  cc_flush_calls e := length e;
  CcDecoder := unit;
  cc_decoder_new := ();
  cc_decode d input n :=
    match input with
    | [] => (Some (0, [], InputEmpty), d)
    | b :: _ => (Some (1, replicate (Z.to_nat n) b, OutputFull), d)
    end
|}.

Lemma demo_compcol_laws : CompColLaws demo_compcol.
Proof.
  split; cbn.
  - congruence.
  - intros e e' n written st [= <- <- <-] Hne. rewrite length_drop.
    destruct (Z.to_nat n), e; cbn in *; try done; lia.
  - intros [] [] [|b input] n consumed written st Hn [= <- <- <-].
    + rewrite !(len_nil (A := byte)). lia.
    + rewrite len_cons, len_replicate. pose proof (len_nonneg input). lia.
Qed.

Definition demo_inflate : @ZlibInflate demo_compcol :=
  @Build_ZlibInflate demo_compcol () 10000.

Lemma inflate_capped_witness :
  (zlib_inflate_step (C := demo_compcol) demo_inflate [Byte.x61; Byte.x62]).1 =
    Err (Format "zlib decompressed too large") ∧
  ∃ out z', zlib_inflate_step (C := demo_compcol) demo_inflate [Byte.x61] = (Ok out, z') ∧
    len out ≤ 10000.
Proof.
  split; [vm_compute; reflexivity|].
  destruct (zlib_inflate_step (C := demo_compcol) demo_inflate [Byte.x61]) as [[out|e] z'] eqn:E;
    [|vm_compute in E; discriminate E].
  exists out, z'. split; [reflexivity|].
  exact (proj1 (proj2 (@inflate_capped demo_compcol demo_compcol_laws demo_inflate [Byte.x61]
    ltac:(cbn; lia)) out z' E)).
Defined.
