(* ===== verification/Packet.v ===== *)
(** * The binary packet protocol (src/hazmat/transport/packet.rs, rekey.rs)

    [PacketCodec] with its four framings (cleartext, encrypt-and-MAC or
    encrypt-then-MAC over CTR and CBC, AES-GCM, ChaCha20-Poly1305), the
    sequence numbers and traffic counters, key and compression installs, the
    re-key policy and the inbox loop of the drivers. *)
From S2P Require Import Prelude Wire Cipher Compress.

(** [RngCore]: the bytes the generator yields next. *)
Definition Rng := nat → byte.
Definition fill_bytes (rng : Rng) (n : Z) : bytes := rng <$> seq 0 (Z.to_nat n).
(** The generator after [n] bytes were drawn. *)
Definition rng_skip (n : nat) (r : Rng) : Rng := λ i, r (n + i)%nat.

(** [l[i]] on bytes whose index the code has checked. *)
Definition byte_at (l : bytes) (i : nat) : Z := u8 (nth i l Byte.x00).

Definition BLOCK_SIZE_DEFAULT : Z := 8.
Definition MAX_PACKET_LEN : Z := 256 * 1024.
Definition MIN_TOTAL_LEN : Z := 16.
Definition MAX_ENCODABLE_PAYLOAD : Z := sat_sub MAX_PACKET_LEN 256.
Definition payload_within_limit (payload_len : Z) : bool := payload_len <? MAX_ENCODABLE_PAYLOAD.

(** The loop of [padding_for]; every turn adds [bs >= 8], so two suffice. *)
Fixpoint pad_to_min (fuel : nat) (payload_len bs pad : Z) : Z :=
  match fuel with
  | O => pad
  | S fuel =>
      if 4 + 1 + payload_len + pad <? MIN_TOTAL_LEN then pad_to_min fuel payload_len bs (pad + bs)
      else pad
  end.

Definition padding_for (payload_len block_size : Z) (encrypts_length : bool) : Z :=
  let bs := Z.max block_size 8 in
  let unit := if encrypts_length then 4 + 1 + payload_len else 1 + payload_len in
  let rem := unit mod bs in
  let pad := bs - rem in
  let pad := if pad <? 4 then pad + bs else pad in
  if encrypts_length then pad_to_min 16 payload_len bs pad else pad.

(** Length field, padding length, payload, padding: the part of a frame
    before encryption and authentication. *)
Definition plain_frame (packet_length pad : Z) (payload : bytes) (rng : Rng) : bytes :=
  be_bytes 4 packet_length ++ [byte_of_Z pad] ++ payload ++ fill_bytes rng pad.

Definition encode_cleartext (payload : bytes) (rng : Rng) : result bytes :=
  if negb (payload_within_limit (len payload)) then Err (Protocol "payload exceeds encoder limit") else
  let pad := padding_for (len payload) BLOCK_SIZE_DEFAULT true in
  let packet_length := 1 + len payload + pad in
  if packet_length + 4 <? MIN_TOTAL_LEN then Err (Protocol "packet too short") else
  Ok (plain_frame packet_length pad payload rng).

Definition decode_cleartext (buf : bytes) : result (option (bytes * Z)) :=
  if len buf <? 5 then Ok None else
  let packet_length := be_value (take 4 buf) in
  if packet_length >? MAX_PACKET_LEN then Err (Protocol "packet length exceeds limit") else
  let total := 4 + packet_length in
  if total <? MIN_TOTAL_LEN then Err (Protocol "packet too short") else
  if negb ((packet_length + 4) mod BLOCK_SIZE_DEFAULT =? 0) then
    Err (Protocol "packet length not block-aligned") else
  if len buf <? total then Ok None else
  let pad_len := byte_at buf 4 in
  if negb ((4 <=? pad_len) && (pad_len <=? 255)) then Err BadPadding else
  if pad_len + 1 >? packet_length then Err BadPadding else
  let payload_end := 4 + packet_length - pad_len in
  if payload_end <? 5 then Err BadPadding else
  Ok (Some (slice buf 5 payload_end, total)).

Section Codec.
Context `{P : CipherPrims} `{CC : CompCol}.

(** ** CTR and CBC with a MAC *)

Definition encode_stream (seq : Z) (payload : bytes) (rng : Rng) (cipher : SshCipher) (mac : SshMac)
    : result bytes * SshCipher :=
  if negb (payload_within_limit (len payload)) then
    (Err (Protocol "payload exceeds encoder limit"), cipher) else
  let etm := mac_etm mac in
  let pad := padding_for (len payload) (block_size cipher) (negb etm) in
  let packet_length := 1 + len payload + pad in
  if negb etm && (packet_length + 4 <? MIN_TOTAL_LEN) then (Err (Protocol "packet too short"), cipher) else
  let frame := plain_frame packet_length pad payload rng in
  let tag_len := mac_tag_len mac in
  if etm then
    let (r, cipher) := encrypt_blocks cipher (drop 4 frame) in
    let! body := r at cipher in
    let frame := take 4 frame ++ body in
    let! tag := mac_compute mac seq frame tag_len at cipher in
    (Ok (frame ++ tag), cipher)
  else
    let! tag := mac_compute mac seq frame tag_len at cipher in
    let (r, cipher) := encrypt_blocks cipher frame in
    let! frame := r at cipher in
    (Ok (frame ++ tag), cipher).

(** Padding length and payload of a decrypted body (the length field already
    removed). *)
Definition unpad (body : bytes) : result bytes :=
  let pad_len := byte_at body 0 in
  if negb ((4 <=? pad_len) && (pad_len <=? 255)) then Err BadPadding else
  if pad_len + 1 >? len body then Err BadPadding else
  Ok (slice body 1 (len body - pad_len)).

Definition decode_stream_etm (seq : Z) (buf : bytes) (cipher : SshCipher) (mac : SshMac)
    : result (option (bytes * Z)) * SshCipher :=
  let tag_len := mac_tag_len mac in
  if len buf <? 4 then (Ok None, cipher) else
  let packet_length := be_value (take 4 buf) in
  if packet_length >? MAX_PACKET_LEN then (Err (Protocol "packet length exceeds limit"), cipher) else
  let body_len := packet_length in
  if negb (body_len mod block_size cipher =? 0) then
    (Err (Protocol "packet body not block-aligned"), cipher) else
  let total := 4 + body_len + tag_len in
  if body_len <? block_size cipher then (Err (Protocol "packet too short"), cipher) else
  if len buf <? total then (Ok None, cipher) else
  let mac_input := slice buf 0 (4 + body_len) in
  let tag := slice buf (4 + body_len) total in
  let! _ := mac_verify mac seq mac_input tag at cipher in
  let (r, cipher) := decrypt_blocks cipher (slice buf 4 (4 + body_len)) in
  let! body := r at cipher in
  let! payload := unpad body at cipher in
  (Ok (Some (payload, total)), cipher).

(** Why a decrypted length field is refused. *)
Definition length_error (packet_length block_size : Z) : option string :=
  if packet_length >? MAX_PACKET_LEN then Some "packet length exceeds limit"%string
  else if negb ((4 + packet_length) mod block_size =? 0) then Some "packet not block-aligned"%string
  else if 4 + packet_length <? MIN_TOTAL_LEN then Some "packet too short"%string
  else None.

Definition is_cbc (c : SshCipher) : bool := match c with CipherCbc _ => true | _ => false end.

(** Encrypt-and-MAC after the first block is in the clear: [first_block] has
    left [pending] ([pending.take()]), which is set again when the packet is
    not complete. *)
Definition decode_stream_rest (seq : Z) (buf first_block : bytes) (cipher : SshCipher) (mac : SshMac)
    : result (option (bytes * Z)) * (SshCipher * option bytes) :=
  let packet_length := be_value (take 4 first_block) in
  let body_len := packet_length in
  match length_error packet_length (block_size cipher) with
  | Some msg =>
      if is_cbc cipher then
        if len buf <? MAX_PACKET_LEN then (Ok None, (cipher, Some first_block))
        else (Err BadMac, (cipher, None))
      else (Err (Protocol msg), (cipher, None))
  | None =>
      let total := 4 + body_len + mac_tag_len mac in
      if len buf <? total then (Ok None, (cipher, Some first_block)) else
      let (r, cipher) :=
        if 4 + body_len >? block_size cipher then
          let (r, cipher') := decrypt_blocks cipher (slice buf (block_size cipher) (4 + body_len)) in
          (match r with Ok rest => Ok (first_block ++ rest) | Err e => Err e end, cipher')
        else (Ok first_block, cipher) in
      let! plain := r at (cipher, None) in
      let tag := slice buf (4 + body_len) total in
      let! _ := mac_verify mac seq plain tag at (cipher, None) in
      let pad_len := byte_at plain 4 in
      if negb ((4 <=? pad_len) && (pad_len <=? 255)) then (Err BadPadding, (cipher, None)) else
      if 5 + pad_len >? len plain then (Err BadPadding, (cipher, None)) else
      (Ok (Some (slice plain 5 (len plain - pad_len), total)), (cipher, None))
  end.

Definition decode_stream (seq : Z) (buf : bytes) (cipher : SshCipher) (mac : SshMac)
    (pending : option bytes) : result (option (bytes * Z)) * (SshCipher * option bytes) :=
  if mac_etm mac then
    let (r, cipher) := decode_stream_etm seq buf cipher mac in (r, (cipher, pending))
  else
  if len buf <? block_size cipher then (Ok None, (cipher, pending)) else
  match pending with
  | Some first_block => decode_stream_rest seq buf first_block cipher mac
  | None =>
      let (r, cipher) := decrypt_blocks cipher (slice buf 0 (block_size cipher)) in
      let! first_block := r at (cipher, None) in
      decode_stream_rest seq buf first_block cipher mac
  end.

(** ** AES-GCM *)

Definition encode_gcm (payload : bytes) (rng : Rng) (cipher : SshCipher) : result bytes * SshCipher :=
  if negb (payload_within_limit (len payload)) then
    (Err (Protocol "payload exceeds encoder limit"), cipher) else
  let pad := padding_for (len payload) 16 false in
  let packet_length := 1 + len payload + pad in
  let frame := plain_frame packet_length pad payload rng in
  let length_field := take 4 frame in
  let (r, cipher) := aead_seal_len_aad cipher length_field (drop 4 frame) in
  let! (body, tag) := r at cipher in
  (Ok (take 4 frame ++ body ++ tag), cipher).

Definition decode_gcm (buf : bytes) (cipher : SshCipher) : result (option (bytes * Z)) * SshCipher :=
  if len buf <? 4 then (Ok None, cipher) else
  let packet_length := be_value (take 4 buf) in
  if packet_length >? MAX_PACKET_LEN then (Err (Protocol "packet length exceeds limit"), cipher) else
  let body_len := packet_length in
  if negb (body_len mod 16 =? 0) then (Err (Protocol "packet body not block-aligned"), cipher) else
  if body_len <? 16 then (Err (Protocol "packet too short"), cipher) else
  let total := 4 + body_len + 16 in
  if len buf <? total then (Ok None, cipher) else
  let length_field := take 4 buf in
  let tag := slice buf (4 + body_len) total in
  let (r, cipher) := aead_open_len_aad cipher length_field (slice buf 4 (4 + body_len)) tag in
  let! body := r at cipher in
  let! payload := unpad body at cipher in
  (Ok (Some (payload, total)), cipher).

(** ** ChaCha20-Poly1305: the cipher state does not change *)

Definition encode_chachapoly (seq : Z) (payload : bytes) (rng : Rng) (cipher : SshCipher) : result bytes :=
  if negb (payload_within_limit (len payload)) then Err (Protocol "payload exceeds encoder limit") else
  let pad := padding_for (len payload) 8 false in
  let packet_length := 1 + len payload + pad in
  let frame := plain_frame packet_length pad payload rng in
  let? len_part := cp_xor_length cipher seq (take 4 frame) in
  let? body_part := cp_xor_payload cipher seq (drop 4 frame) in
  let? tag := cp_tag cipher seq len_part body_part in
  Ok (len_part ++ body_part ++ tag).

Definition decode_chachapoly (seq : Z) (buf : bytes) (cipher : SshCipher) : result (option (bytes * Z)) :=
  if len buf <? 4 then Ok None else
  let? enc_len := cp_xor_length cipher seq (take 4 buf) in
  let packet_length := be_value enc_len in
  if packet_length >? MAX_PACKET_LEN then Err (Protocol "packet length exceeds limit") else
  let body_len := packet_length in
  if negb (body_len mod 8 =? 0) then Err (Protocol "packet body not block-aligned") else
  if body_len <? 8 then Err (Protocol "packet too short") else
  let total := 4 + body_len + 16 in
  if len buf <? total then Ok None else
  let enc_len_wire := slice buf 0 4 in
  let enc_payload := slice buf 4 (4 + body_len) in
  let tag := slice buf (4 + body_len) total in
  let? _ := cp_verify_tag cipher seq enc_len_wire enc_payload tag in
  let? body := cp_xor_payload cipher seq enc_payload in
  let? payload := unpad body in
  Ok (Some (payload, total)).

(** ** The codec *)

Inductive CipherSlot :=
  | SlotNone
  | SlotStream (cipher : SshCipher) (mac : SshMac)
  | SlotGcm (cipher : SshCipher)
  | SlotChaChaPoly (cipher : SshCipher).

Definition classify (cipher : SshCipher) (mac : option SshMac) : result CipherSlot :=
  match cipher with
  | CipherCtr _ | CipherCbc _ =>
      let? m := ok_or mac (Protocol "MAC required for non-AEAD cipher") in
      Ok (SlotStream cipher m)
  | CipherGcm _ => Ok (SlotGcm cipher)
  | CipherChaChaPoly _ => Ok (SlotChaChaPoly cipher)
  end.

Record TrafficStats := {
  packets_in : Z; packets_out : Z; t_bytes_in : Z; t_bytes_out : Z;
  compressed_in : Z; raw_in : Z; raw_out : Z; compressed_out : Z
}.
#[local] Instance eta_TrafficStats : Etable TrafficStats :=
  λ r, Build_TrafficStats (packets_in r) (packets_out r) (t_bytes_in r) (t_bytes_out r)
         (compressed_in r) (raw_in r) (raw_out r) (compressed_out r).
Definition traffic_default : TrafficStats := Build_TrafficStats 0 0 0 0 0 0 0 0.

Record PacketCodec := {
  seq_in : Z; seq_out : Z; bytes_out : Z; bytes_in : Z; seq_in_base : Z; seq_out_base : Z;
  outbound : CipherSlot; inbound : CipherSlot; pending_first_block : option bytes;
  outbound_compress : Compress; inbound_decompress : Decompress; traffic : TrafficStats
}.
#[local] Instance eta_PacketCodec : Etable PacketCodec :=
  λ r, Build_PacketCodec (seq_in r) (seq_out r) (bytes_out r) (bytes_in r) (seq_in_base r)
         (seq_out_base r) (outbound r) (inbound r) (pending_first_block r)
         (outbound_compress r) (inbound_decompress r) (traffic r).

Definition packet_codec_new : PacketCodec := {|
  seq_in := 0; seq_out := 0; bytes_out := 0; bytes_in := 0; seq_in_base := 0; seq_out_base := 0;
  outbound := SlotNone; inbound := SlotNone; pending_first_block := None;
  outbound_compress := NoneCompress; traffic := traffic_default;
  inbound_decompress := NoneDecompress
|}.

Definition install_outbound (cipher : SshCipher) (mac : option SshMac) (c : PacketCodec)
    : result unit * PacketCodec :=
  let! slot := classify cipher mac at c in
  (Ok (), c <| outbound := slot |>).
Definition install_inbound (cipher : SshCipher) (mac : option SshMac) (c : PacketCodec)
    : result unit * PacketCodec :=
  let! slot := classify cipher mac at c in
  (Ok (), c <| inbound := slot |> <| pending_first_block := None |>).

Definition reset_rekey_epoch (c : PacketCodec) : PacketCodec :=
  c <| bytes_in := 0 |> <| bytes_out := 0 |>
    <| seq_in_base := seq_in c |> <| seq_out_base := seq_out c |>.
Definition reset_outbound_sequence (c : PacketCodec) : PacketCodec := c <| seq_out := 0 |>.
Definition reset_inbound_sequence (c : PacketCodec) : PacketCodec := c <| seq_in := 0 |>.
Definition reset_sequence_numbers (c : PacketCodec) : PacketCodec :=
  c <| seq_in := 0 |> <| seq_out := 0 |>.

Definition install_outbound_compress (n : Compress) (c : PacketCodec) : PacketCodec :=
  let n := if negb (bytes_eqb (compress_name (outbound_compress c)) (bs "none")) &&
              compress_active (outbound_compress c) then compress_activate n else n in
  c <| outbound_compress := n |>.
Definition install_inbound_decompress (n : Decompress) (c : PacketCodec) : PacketCodec :=
  let n := if negb (bytes_eqb (decompress_name (inbound_decompress c)) (bs "none")) &&
              decompress_active (inbound_decompress c) then decompress_activate n else n in
  c <| inbound_decompress := n |>.
Definition activate_compress (c : PacketCodec) : PacketCodec :=
  c <| outbound_compress := compress_activate (outbound_compress c) |>
    <| inbound_decompress := decompress_activate (inbound_decompress c) |>.

(** Compression ahead of framing: what is framed, and the codec with the new
    compressor state and totals. *)
Definition encode_compress (c : PacketCodec) (payload : bytes) : result bytes * PacketCodec :=
  if compress_active (outbound_compress c) &&
     negb (bytes_eqb (compress_name (outbound_compress c)) (bs "none")) then
    let (r, oc) := compress (outbound_compress c) payload in
    let c := c <| outbound_compress := oc |> in
    let! compressed := r at c in
    let t := traffic c in
    (Ok compressed,
     c <| traffic := t <| raw_out := wrap64 (raw_out t + len payload) |>
                       <| compressed_out := wrap64 (compressed_out t + len compressed) |> |>)
  else (Ok payload, c).

Definition encode_slot (seq : Z) (to_frame : bytes) (rng : Rng) (slot : CipherSlot)
    : result bytes * CipherSlot :=
  match slot with
  | SlotNone => (encode_cleartext to_frame rng, SlotNone)
  | SlotStream cipher mac =>
      let (r, cipher) := encode_stream seq to_frame rng cipher mac in (r, SlotStream cipher mac)
  | SlotGcm cipher => let (r, cipher) := encode_gcm to_frame rng cipher in (r, SlotGcm cipher)
  | SlotChaChaPoly cipher => (encode_chachapoly seq to_frame rng cipher, SlotChaChaPoly cipher)
  end.

Definition encode (c : PacketCodec) (payload : bytes) (rng : Rng) : result bytes * PacketCodec :=
  let (r, c) := encode_compress c payload in
  let! to_frame := r at c in
  let (r, slot) := encode_slot (seq_out c) to_frame rng (outbound c) in
  let c := c <| outbound := slot |> in
  let! frame := r at c in
  let t := traffic c in
  (Ok frame,
   c <| seq_out := wrap32 (seq_out c + 1) |>
     <| bytes_out := sat_add64 (bytes_out c) (len frame) |>
     <| traffic := t <| packets_out := wrap64 (packets_out t + 1) |>
                     <| t_bytes_out := wrap64 (t_bytes_out t + len frame) |> |>).

Definition decode_slot (seq : Z) (buf : bytes) (slot : CipherSlot) (pending : option bytes)
    : result (option (bytes * Z)) * (CipherSlot * option bytes) :=
  match slot with
  | SlotNone => (decode_cleartext buf, (SlotNone, pending))
  | SlotStream cipher mac =>
      let '(r, (cipher, pending)) := decode_stream seq buf cipher mac pending in
      (r, (SlotStream cipher mac, pending))
  | SlotGcm cipher => let (r, cipher) := decode_gcm buf cipher in (r, (SlotGcm cipher, pending))
  | SlotChaChaPoly cipher => (decode_chachapoly seq buf cipher, (SlotChaChaPoly cipher, pending))
  end.

Definition decode_decompress (c : PacketCodec) (payload : bytes) : result bytes * PacketCodec :=
  if decompress_active (inbound_decompress c) &&
     negb (bytes_eqb (decompress_name (inbound_decompress c)) (bs "none")) then
    let (r, d) := decompress (inbound_decompress c) payload in
    let c := c <| inbound_decompress := d |> in
    let! raw := r at c in
    let t := traffic c in
    (Ok raw,
     c <| traffic := t <| compressed_in := wrap64 (compressed_in t + len payload) |>
                       <| raw_in := wrap64 (raw_in t + len raw) |> |>)
  else (Ok payload, c).

Definition decode (c : PacketCodec) (buf : bytes) : result (option (bytes * Z)) * PacketCodec :=
  let '(r, (slot, pending)) := decode_slot (seq_in c) buf (inbound c) (pending_first_block c) in
  let c := c <| inbound := slot |> <| pending_first_block := pending |> in
  let! r := r at c in
  match r with
  | Some (payload, consumed) =>
      let t := traffic c in
      let c := c <| seq_in := wrap32 (seq_in c + 1) |>
                 <| bytes_in := sat_add64 (bytes_in c) consumed |>
                 <| traffic := t <| packets_in := wrap64 (packets_in t + 1) |>
                                 <| t_bytes_in := wrap64 (t_bytes_in t + consumed) |> |> in
      let (r, c) := decode_decompress c payload in
      let! payload := r at c in
      (Ok (Some (payload, consumed)), c)
  | None => (Ok None, c)
  end.

(** ** Re-key policy (src/hazmat/transport/rekey.rs); times in nanoseconds *)

Record RekeyPolicy := { max_bytes : Z; max_duration : Z; max_seq : Z }.

Definition rekey_policy_default : RekeyPolicy :=
  {| max_bytes := Z.shiftl 1 30; max_duration := 60 * 60 * 1000000000; max_seq := Z.shiftl 1 31 |}.

Definition bytes_exceeded (p : RekeyPolicy) (c : PacketCodec) : bool :=
  (bytes_in c >=? max_bytes p) || (bytes_out c >=? max_bytes p).

Definition seq_exceeded (p : RekeyPolicy) (c : PacketCodec) : bool :=
  let in_epoch := wrap32 (seq_in c - seq_in_base c) in
  let out_epoch := wrap32 (seq_out c - seq_out_base c) in
  (in_epoch >=? max_seq p) || (out_epoch >=? max_seq p).

Definition should_rekey (p : RekeyPolicy) (c : PacketCodec) (last_kex now : Z) : bool :=
  if bytes_exceeded p c then true
  else if seq_exceeded p c then true
  else sat_sub now last_kex >=? max_duration p.

(** ** The drivers' inbox loop (src/driver/client.rs, server.rs: [handle_input])

    [route] stands for [route_packet]: what the connection does with one
    payload, on the codec and the rest [S] of the connection. *)

Definition MAX_INBOX_BYTES : Z := 8 * 1024 * 1024.

Section Inbox.
Context {S : Type} (route : PacketCodec * S → bytes → result unit * (PacketCodec * S)).

(** Decode from the unread part of the inbox until it has no whole packet;
    returns the bytes left. *)
Fixpoint drain_inbox (fuel : nat) (cs : PacketCodec * S) (unread : bytes)
    : option (result unit * (PacketCodec * S) * bytes) :=
  match fuel with
  | O => None
  | Datatypes.S fuel =>
      let (r, c) := decode cs.1 unread in
      let cs := (c, cs.2) in
      match r with
      | Ok (Some (payload, consumed)) =>
          let unread := drop (Z.to_nat consumed) unread in
          let (r, cs) := route cs payload in
          match r with
          | Err e => Some (Err e, cs, unread)
          | Ok _ => drain_inbox fuel cs unread
          end
      | Ok None => Some (Ok (), cs, unread)
      | Err e => Some (Err e, cs, unread)
      end
  end.

(** [handle_input] after the version exchange. *)
Definition handle_input (cs : PacketCodec * S) (inbox data : bytes)
    : option (result unit * (PacketCodec * S) * bytes) :=
  let inbox := inbox ++ data in
  if len inbox >? MAX_INBOX_BYTES then Some (Err (Protocol "inbound buffer too large"), cs, inbox)
  else drain_inbox (Datatypes.S (length inbox)) cs inbox.
End Inbox.
End Codec.
#[export] Existing Instances eta_TrafficStats eta_PacketCodec.

(** Message bytes and the key exchange. *)
Definition is_kex_msg (b : Z) : bool :=
  (b =? 20) || (b =? 21) || ((30 <=? b) && (b <=? 49)).
Definition may_send_during_kex (b : Z) : bool := (1 <=? b) && (b <=? 49).
