(* ===== verification/PacketFacts.v ===== *)
(** * Correctness of the packet codec

    Padding meets the protocol's rules and is minimal; the four framings are
    inverted by their decoders, whole or arriving in pieces; the codec's
    counters; what a returned payload guarantees; nonce and re-key facts. *)
From S2P Require Import Prelude Wire Cipher Compress Packet.

(** ** Padding *)

(** The bytes the block alignment applies to, without the padding. *)
Definition pad_unit (payload_len : Z) (encrypts_length : bool) : Z :=
  if encrypts_length then 4 + 1 + payload_len else 1 + payload_len.

(** What RFC 4253 section 6 asks of a padding length. *)
Definition padding_ok (payload_len bs : Z) (encrypts_length : bool) (pad : Z) : Prop :=
  4 ≤ pad ≤ 255 ∧ (pad_unit payload_len encrypts_length + pad) mod bs = 0 ∧
  (encrypts_length = true → MIN_TOTAL_LEN ≤ 4 + 1 + payload_len + pad).

Lemma pad_to_min_spec n bs pad fuel :
  8 ≤ bs → 4 ≤ pad → 0 ≤ n → (2 ≤ fuel)%nat →
  pad_to_min fuel n bs pad =
    if 4 + 1 + n + pad <? MIN_TOTAL_LEN then pad + bs else pad.
Proof.
  intros. destruct fuel as [|[|fuel]]; [lia..|]. unfold pad_to_min, MIN_TOTAL_LEN; fold pad_to_min.
  destruct (4 + 1 + n + pad <? 16) eqn:E; [|done].
  replace (4 + 1 + n + (pad + bs) <? 16) with false by (symmetry; apply Z.ltb_ge; lia). done.
Qed.

Lemma padding_for_cases n bs el :
  0 ≤ n → bs = 8 ∨ bs = 16 → padding_ok n bs el (padding_for n bs el) ∧ padding_for n bs el ≤ 19.
Proof.
  intros Hn Hbs. unfold padding_ok, padding_for, pad_unit.
  rewrite Z.max_l by lia. cbv zeta.
  set (u := if el then 4 + 1 + n else 1 + n).
  assert (Hm : 0 ≤ u mod bs < bs) by (apply Z.mod_pos_bound; lia).
  assert (Hdm := Z.div_mod u bs ltac:(lia)).
  assert (Hal : ∀ k, (u + (bs * k - u mod bs)) mod bs = 0).
  { intros k. replace (u + (bs * k - u mod bs)) with ((u / bs + k) * bs) by lia. apply Z.mod_mul. lia. }
  pose proof (Hal 1) as H1. pose proof (Hal 2) as H2. pose proof (Hal 3) as H3.
  rewrite Z.mul_1_r in H1.
  destruct el.
  - rewrite pad_to_min_spec by (repeat case_match; zbool; lia). unfold MIN_TOTAL_LEN.
    destruct (bs - u mod bs <? 4) eqn:E; zbool.
    + replace (bs - u mod bs + bs) with (bs * 2 - u mod bs) by lia.
      destruct (_ <? 16) eqn:E2; zbool; [|repeat split; try done; lia].
      replace (bs * 2 - u mod bs + bs) with (bs * 3 - u mod bs) by lia.
      repeat split; try done; try lia; destruct Hbs; subst bs u; nia.
    + destruct (_ <? 16) eqn:E2; zbool; [|repeat split; try done; lia].
      replace (bs - u mod bs + bs) with (bs * 2 - u mod bs) by lia.
      repeat split; try done; try lia; destruct Hbs; subst bs u; nia.
  - destruct (bs - u mod bs <? 4) eqn:E; zbool.
    + replace (bs - u mod bs + bs) with (bs * 2 - u mod bs) by lia. repeat split; try done; lia.
    + repeat split; try done; lia.
Qed.

Lemma mod_zero_gap u p q bs :
  0 < bs → (u + p) mod bs = 0 → (u + q) mod bs = 0 → p < q → p + bs ≤ q.
Proof.
  intros Hbs Hp%Z.mod_divide Hq%Z.mod_divide Hlt; [|lia..].
  destruct Hp as [i Hi], Hq as [j Hj]. assert (i < j) by nia. nia.
Qed.

(** For every payload and both block sizes the padding the encoder chooses
    satisfies the protocol (at least 4 and at most 255 bytes, the aligned part
    a multiple of the block size, at least 16 bytes in all when the length is
    part of it), and no shorter padding does. *)
Theorem padding_minimal payload_len bs el :
  0 ≤ payload_len → bs = 8 ∨ bs = 16 →
  padding_ok payload_len bs el (padding_for payload_len bs el) ∧
  ∀ p, padding_ok payload_len bs el p → padding_for payload_len bs el ≤ p.
Proof.
  intros Hn Hbs. destruct (padding_for_cases payload_len bs el Hn Hbs) as [Hok _].
  split; [done|]. intros p (Hp & Hpm & Hpt).
  destruct (Z.le_gt_cases (padding_for payload_len bs el) p) as [|Hlt]; [done|]. exfalso.
  destruct Hok as (_ & Hm & _).
  pose proof (mod_zero_gap _ _ _ bs ltac:(lia) Hpm Hm Hlt) as Hgap. revert Hgap Hpm.
  unfold padding_for, pad_unit in *. rewrite Z.max_l by lia. cbv zeta.
  set (u := if el then 4 + 1 + payload_len else 1 + payload_len) in *. intros Hgap Hpm.
  assert (Hmu : 0 ≤ u mod bs < bs) by (apply Z.mod_pos_bound; lia).
  destruct el.
  - specialize (Hpt eq_refl). unfold MIN_TOTAL_LEN in Hpt.
    rewrite pad_to_min_spec in Hgap by (repeat case_match; zbool; lia).
    unfold MIN_TOTAL_LEN in Hgap.
    destruct (bs - u mod bs <? 4) eqn:E; destruct (_ <? 16) eqn:E2; zbool; lia.
  - destruct (bs - u mod bs <? 4) eqn:E; zbool; lia.
Qed.

Lemma padding_minimal_witness :
  padding_ok 1 8 true 10 ∧ padding_for 1 8 true = 10.
Proof.
  assert (E : padding_for 1 8 true = 10) by (vm_compute; reflexivity).
  split; [|exact E]. rewrite <- E.
  exact (proj1 (padding_minimal 1 8 true ltac:(lia) (or_introl eq_refl))).
Defined.

(** ** The plain frame *)

Lemma len_fill_bytes rng n : 0 ≤ n → len (fill_bytes rng n) = n.
Proof. intros. unfold len, fill_bytes. rewrite length_fmap, length_seq. lia. Qed.

Lemma slice_mid (a b c : bytes) i j : len a = i → len b = j - i → slice (a ++ b ++ c) i j = b.
Proof. intros <- Hb. replace j with (len a + len b) by lia. apply slice_at. Qed.

Lemma slice_front (b c : bytes) j : len b = j → slice (b ++ c) 0 j = b.
Proof. intros. apply (slice_mid [] b c); [done|lia]. Qed.

Lemma take_len (a b : bytes) n : length a = n → take n (a ++ b) = a.
Proof. intros <-. apply take_app_length. Qed.
Lemma drop_len (a b : bytes) n : length a = n → drop n (a ++ b) = b.
Proof. intros <-. apply drop_app_length. Qed.

(** The part of the frame after the length field. *)
Definition plain_body (pad : Z) (payload : bytes) (rng : Rng) : bytes :=
  [byte_of_Z pad] ++ payload ++ fill_bytes rng pad.

Lemma plain_frame_eq pl pad payload rng :
  plain_frame pl pad payload rng = be_bytes 4 pl ++ plain_body pad payload rng.
Proof. done. Qed.

Lemma plain_frame_take pl pad payload rng : take 4 (plain_frame pl pad payload rng) = be_bytes 4 pl.
Proof. apply take_len, length_be_bytes. Qed.
Lemma plain_frame_drop pl pad payload rng :
  drop 4 (plain_frame pl pad payload rng) = plain_body pad payload rng.
Proof. apply drop_len, length_be_bytes. Qed.

Lemma len_plain_body pad payload rng :
  0 ≤ pad → len (plain_body pad payload rng) = 1 + len payload + pad.
Proof.
  intros. unfold plain_body. rewrite !len_app, len_cons, len_fill_bytes, (len_nil (A := byte)) by done.
  lia.
Qed.

Lemma unpad_plain_body pad payload rng :
  4 ≤ pad ≤ 255 → unpad (plain_body pad payload rng) = Ok payload.
Proof.
  intros Hp. unfold unpad. rewrite len_plain_body by lia.
  assert (Hb : byte_at (plain_body pad payload rng) 0 = pad).
  { unfold byte_at, plain_body. cbn. apply u8_byte_of_Z_small. lia. }
  rewrite Hb. pose proof (len_nonneg payload).
  replace (4 <=? pad) with true by lia. replace (pad <=? 255) with true by lia. cbn [negb andb].
  replace (pad + 1 >? 1 + len payload + pad) with false by lia.
  f_equal. unfold plain_body. apply slice_mid; [done|lia].
Qed.

(** The length field of any frame the encoders make. *)
Lemma be_value_length pl : 0 ≤ pl ≤ MAX_PACKET_LEN → be_value (be_bytes 4 pl) = pl.
Proof. unfold MAX_PACKET_LEN. intros. apply be_value_be_bytes_small. lia. Qed.

Lemma within_limit (payload : bytes) :
  payload_within_limit (len payload) = true → 0 ≤ len payload < MAX_PACKET_LEN - 256.
Proof.
  unfold payload_within_limit, MAX_ENCODABLE_PAYLOAD, MAX_PACKET_LEN, sat_sub.
  intros H%Z.ltb_lt. pose proof (len_nonneg payload). lia.
Qed.

(** What [padding_for] gives the encoders, in the form they use it. *)
Lemma padding_facts (payload : bytes) bs el :
  payload_within_limit (len payload) = true → bs = 8 ∨ bs = 16 →
  let pad := padding_for (len payload) bs el in
  4 ≤ pad ≤ 19 ∧ 0 ≤ len payload ∧ 1 + len payload + pad < MAX_PACKET_LEN - 236 ∧
  ((if el then 4 else 0) + (1 + len payload + pad)) mod bs = 0 ∧
  (el = true → 16 ≤ 4 + (1 + len payload + pad)).
Proof.
  intros Hl%within_limit Hbs pad.
  destruct (padding_for_cases (len payload) bs el ltac:(lia) Hbs) as [(Hp & Hm & Ht) Hle].
  fold pad in Hp, Hm, Ht, Hle. unfold pad_unit, MIN_TOTAL_LEN in *.
  split; [lia|]. split; [lia|]. split; [lia|]. split.
  - rewrite <- Hm. f_equal. destruct el; lia.
  - intros ->. specialize (Ht eq_refl). lia.
Qed.

(** ** Frames that decode

    [full]: with the whole frame at the front of the buffer, decoding from
    state [st] returns the payload, consumes exactly the frame and leaves
    [slot'].  [stable]: moreover a proper prefix of the frame asks for more
    bytes and changes nothing.  [waiting]: a proper prefix asks for more bytes
    and leaves a state from which the frame still decodes (encrypt-and-MAC
    decrypts the first block early and keeps it). *)

Definition strict_prefix (pre frame : bytes) : Prop := ∃ suf, frame = pre ++ suf ∧ suf ≠ [].

Lemma strict_prefix_len pre frame : strict_prefix pre frame → len pre < len frame.
Proof.
  intros (suf & -> & Hs). rewrite len_app. destruct suf; [done|]. rewrite len_cons.
  pose proof (len_nonneg suf). lia.
Qed.

Lemma strict_prefix_take pre frame n :
  strict_prefix pre frame → (n ≤ length pre)%nat → take n pre = take n frame.
Proof. intros (suf & -> & Hs) Hn. by rewrite take_app_le. Qed.

(** Decides the next test of a chain of guards. *)
Ltac guard_false :=
  match goal with |- context [if ?b then _ else _] =>
    let E := fresh "E" in destruct b eqn:E; [exfalso; lia | clear E] end.
Ltac guard_true :=
  match goal with |- context [if ?b then _ else _] =>
    let E := fresh "E" in destruct b eqn:E; [clear E | exfalso; lia] end.

(** ** Progress: a packet takes at least its length field and at most the
    buffer *)

Section Consumed.
Context {P : CipherPrims} {CC : CompCol}.

(** A tag length is a [usize]. *)
Definition tag_sane (slot : CipherSlot) : Prop :=
  match slot with SlotStream _ m => 0 ≤ mac_tag_len m | _ => True end.

(** Takes every test of the goal apart, closing the branches that do not
    return a packet. *)
Ltac each_guard :=
  repeat match goal with
  | |- context [match ?x with _ => _ end] => destruct x eqn:?; try done
  end.

Lemma decode_cleartext_consumes buf payload n :
  decode_cleartext buf = Ok (Some (payload, n)) → 4 ≤ n ≤ len buf.
Proof. unfold decode_cleartext, MIN_TOTAL_LEN. each_guard. intros [= _ <-]. lia. Qed.

Lemma decode_gcm_consumes buf c payload n c' :
  decode_gcm buf c = (Ok (Some (payload, n)), c') → 4 ≤ n ≤ len buf.
Proof.
  unfold decode_gcm. cbv zeta. pose proof (be_value_range (take 4 buf)).
  each_guard. intros [= _ <- _]. lia.
Qed.

Lemma decode_chachapoly_consumes seq buf c payload n :
  decode_chachapoly seq buf c = Ok (Some (payload, n)) → 4 ≤ n ≤ len buf.
Proof.
  unfold decode_chachapoly. cbv zeta. destruct (len buf <? 4); [done|].
  destruct (cp_xor_length c seq (take 4 buf)) as [l|]; [|done]. pose proof (be_value_range l).
  each_guard. intros [= _ <-]. lia.
Qed.

Lemma decode_stream_rest_consumes seq buf a c m payload n st :
  0 ≤ mac_tag_len m → decode_stream_rest seq buf a c m = (Ok (Some (payload, n)), st) → 4 ≤ n ≤ len buf.
Proof.
  intros Hm. unfold decode_stream_rest. cbv zeta. pose proof (be_value_range (take 4 a)).
  destruct (length_error _ _); [each_guard|].
  destruct (len buf <? _) eqn:El; [done|].
  destruct (if _ >? _ then _ else _) as [[plain|] c1]; [|done].
  each_guard. intros [= _ <- _]. lia.
Qed.

Lemma decode_stream_etm_consumes seq buf c m payload n c' :
  0 ≤ mac_tag_len m → decode_stream_etm seq buf c m = (Ok (Some (payload, n)), c') → 4 ≤ n ≤ len buf.
Proof.
  intros Hm. unfold decode_stream_etm. cbv zeta. pose proof (be_value_range (take 4 buf)).
  each_guard. intros [= _ <- _]. lia.
Qed.

Lemma decode_slot_consumes seq buf slot pending payload n st :
  tag_sane slot → decode_slot seq buf slot pending = (Ok (Some (payload, n)), st) → 4 ≤ n ≤ len buf.
Proof.
  destruct slot as [|c m|c|c]; cbn [decode_slot tag_sane]; intros Ht.
  - intros [= E _]. by apply decode_cleartext_consumes in E.
  - unfold decode_stream. destruct (mac_etm m).
    + destruct (decode_stream_etm seq buf c m) as [r c'] eqn:E. intros [= -> _].
      by apply decode_stream_etm_consumes in E.
    + destruct (len buf <? block_size c); [done|].
      destruct pending as [a|].
      * destruct (decode_stream_rest seq buf a c m) as [r [c' p']] eqn:E. intros [= -> _].
        by apply decode_stream_rest_consumes in E.
      * destruct (decrypt_blocks c _) as [[a|] c1]; [|done].
        destruct (decode_stream_rest seq buf a c1 m) as [r [c' p']] eqn:E. intros [= -> _].
        by apply decode_stream_rest_consumes in E.
  - destruct (decode_gcm buf c) as [r c'] eqn:E. intros [= -> _]. by apply decode_gcm_consumes in E.
  - intros [= E _]. by apply decode_chachapoly_consumes in E.
Qed.

Lemma decode_consumes c buf payload n c' :
  tag_sane (inbound c) → decode c buf = (Ok (Some (payload, n)), c') → 4 ≤ n ≤ len buf.
Proof.
  intros Ht. unfold decode.
  destruct (decode_slot _ _ _ _) as [[[[z k]|]|] [slot pend]] eqn:E; [|done..].
  apply decode_slot_consumes in E; [|done].
  destruct (decode_decompress _ z) as [[y|] c2]; [|done]. by intros [= _ <- _].
Qed.
End Consumed.

Section Frames.
Context {P : CipherPrims} {L : CipherLaws P} {CC : CompCol}.

Abbreviation dstate := (CipherSlot * option bytes)%type.

Definition full (seq : Z) (frame payload : bytes) (slot' : CipherSlot) (st : dstate) : Prop :=
  ∀ rest, decode_slot seq (frame ++ rest) st.1 st.2 = (Ok (Some (payload, len frame)), (slot', None)).
Definition stable (seq : Z) (frame payload : bytes) (slot' : CipherSlot) (st : dstate) : Prop :=
  full seq frame payload slot' st ∧
  ∀ pre, strict_prefix pre frame → decode_slot seq pre st.1 st.2 = (Ok None, st).
Definition waiting (seq : Z) (frame payload : bytes) (slot' : CipherSlot) (st : dstate) : Prop :=
  full seq frame payload slot' st ∧
  ∀ pre, strict_prefix pre frame →
    ∃ st', decode_slot seq pre st.1 st.2 = (Ok None, st') ∧
      (st' = st ∨ stable seq frame payload slot' st').

Lemma stable_waiting seq frame payload slot' st :
  stable seq frame payload slot' st → waiting seq frame payload slot' st.
Proof. intros [Hf Hs]. split; [done|]. intros pre Hp. exists st. split; [by apply Hs | by left]. Qed.

Lemma waiting_prefix seq frame payload slot' st pre :
  waiting seq frame payload slot' st → strict_prefix pre frame →
  ∃ st', decode_slot seq pre st.1 st.2 = (Ok None, st') ∧ waiting seq frame payload slot' st'.
Proof.
  intros Hw Hp. destruct (proj2 Hw pre Hp) as (st' & E & [->|Hs]).
  - by exists st.
  - exists st'. split; [done|]. by apply stable_waiting.
Qed.

(** A slot as [classify] builds it. *)
Definition slot_wf (s : CipherSlot) : Prop :=
  match s with
  | SlotNone => True
  | SlotStream c m => is_aead c = false ∧ mac_wf m
  | SlotGcm c => match c with CipherGcm _ => True | _ => False end
  | SlotChaChaPoly c => match c with CipherChaChaPoly _ => True | _ => False end
  end.

Lemma ok_pair_inj {A B} (a a' : A) (b b' : B) : (Ok a, b) = (Ok a', b') → a' = a ∧ b' = b.
Proof. by intros [= -> ->]. Qed.

Lemma multiple_ge n m : 0 < n → 0 < m → n mod m = 0 → m ≤ n.
Proof. intros Hn Hm [k Hk]%Z.mod_divide; [|lia]. assert (0 < k) by nia. nia. Qed.

(** The length a decoder reads off a proper prefix with a whole length field. *)
Lemma prefix_length_field pre frame l4 :
  strict_prefix pre frame → take 4 frame = l4 → 4 ≤ len pre → take 4 pre = l4.
Proof. intros Hp <- Hl. apply strict_prefix_take; [done|]. unfold len in Hl. lia. Qed.

Lemma cleartext_stable seq payload rng frame :
  encode_cleartext payload rng = Ok frame →
  stable seq frame payload SlotNone (SlotNone, None) ∧ 0 < len frame < MAX_PACKET_LEN.
Proof.
  unfold encode_cleartext. destruct (payload_within_limit (len payload)) eqn:Hl; [|done]. cbn [negb].
  destruct (padding_facts payload 8 true Hl ltac:(lia)) as (Hp & Hn & Hmax & Hmod & Hmin).
  unfold BLOCK_SIZE_DEFAULT, MIN_TOTAL_LEN. set (pad := padding_for (len payload) 8 true) in *.
  specialize (Hmin eq_refl). cbv iota in Hmod.
  set (pl := 1 + len payload + pad) in *. guard_false. intros [= <-].
  assert (Hlen : len (plain_frame pl pad payload rng) = 4 + pl).
  { rewrite plain_frame_eq, len_app, len_be_bytes, len_plain_body by lia. lia. }
  assert (Hpl : be_value (be_bytes 4 pl) = pl) by (apply be_value_length; lia).
  unfold MAX_PACKET_LEN in *. split; [|lia]. split.
  - intros rest. cbn [fst snd decode_slot]. unfold decode_cleartext, MIN_TOTAL_LEN, BLOCK_SIZE_DEFAULT.
    rewrite len_app, Hlen, (plain_frame_eq pl pad), <- app_assoc.
    rewrite (take_len (be_bytes 4 pl)), Hpl by apply length_be_bytes.
    pose proof (len_nonneg rest). replace (pl + 4) with (4 + pl) by lia. unfold MAX_PACKET_LEN.
    assert (Hb : byte_at (be_bytes 4 pl ++ plain_body pad payload rng ++ rest) 4 = pad).
    { unfold byte_at. rewrite app_nth2; rewrite length_be_bytes; [|lia].
      apply u8_byte_of_Z_small. lia. }
    rewrite Hb. do 8 guard_false.
    unfold plain_body.
    rewrite <- !app_assoc, (app_assoc (be_bytes 4 pl)), slice_mid; [done|..].
    + rewrite len_app, len_be_bytes. done.
    + lia.
  - intros pre Hpre. cbn [fst snd decode_slot]. pose proof (strict_prefix_len _ _ Hpre).
    unfold decode_cleartext, MIN_TOTAL_LEN, BLOCK_SIZE_DEFAULT, MAX_PACKET_LEN.
    destruct (len pre <? 5) eqn:E; [done|].
    rewrite (prefix_length_field pre _ _ Hpre (plain_frame_take _ _ _ _)), Hpl by lia.
    replace (pl + 4) with (4 + pl) by lia. do 3 guard_false. by guard_true.
Qed.

Lemma gcm_stable seq payload rng g frame c' :
  encode_gcm payload rng (CipherGcm g) = (Ok frame, c') →
  stable seq frame payload (SlotGcm c') (SlotGcm (CipherGcm g), None) ∧
  slot_wf (SlotGcm c') ∧ 0 < len frame < MAX_PACKET_LEN.
Proof.
  unfold encode_gcm. destruct (payload_within_limit (len payload)) eqn:Hl; [|done]. cbn [negb].
  destruct (padding_facts payload 16 false Hl ltac:(lia)) as (Hp & Hn & Hmax & Hmod & _).
  set (pad := padding_for (len payload) 16 false) in *. cbv iota in Hmod. rewrite Z.add_0_l in Hmod.
  set (pl := 1 + len payload + pad) in *.
  rewrite plain_frame_take, plain_frame_drop. cbn [aead_seal_len_aad].
  destruct (gcm_seal_open g (be_bytes 4 pl) (plain_body pad payload rng)) as (Hb & Ht & Hs & Ho).
  rewrite len_plain_body in Hb by lia. fold pl in Hb. rewrite Hs.
  destruct (gcm_sealed g (be_bytes 4 pl) (plain_body pad payload rng)) as [body tag]. cbn [fst snd] in *.
  destruct (gcm_step g) as [g'|e]; [|done]. intros [-> ->]%ok_pair_inj.
  assert (Hlen : len (be_bytes 4 pl ++ body ++ tag) = 4 + pl + 16).
  { rewrite !len_app, len_be_bytes. lia. }
  assert (Hpl : be_value (be_bytes 4 pl) = pl) by (apply be_value_length; lia).
  assert (H16 : 16 ≤ pl) by (apply multiple_ge; [unfold pl|..]; lia).
  unfold MAX_PACKET_LEN in *. split; [|split; [done|lia]]. split.
  - intros rest. cbn [fst snd decode_slot]. unfold decode_gcm, MAX_PACKET_LEN.
    rewrite len_app, Hlen. pose proof (len_nonneg rest).
    rewrite <- !app_assoc, (take_len (be_bytes 4 pl)), Hpl by apply length_be_bytes.
    do 5 guard_false. cbn [aead_open_len_aad].
    rewrite (slice_mid (be_bytes 4 pl) body) by (rewrite ?len_be_bytes; lia).
    rewrite (app_assoc _ body), (slice_mid _ tag) by (rewrite ?len_app, ?len_be_bytes; lia).
    rewrite Ho, unpad_plain_body by lia. done.
  - intros pre Hpre. cbn [fst snd decode_slot]. pose proof (strict_prefix_len _ _ Hpre).
    unfold decode_gcm, MAX_PACKET_LEN. destruct (len pre <? 4) eqn:E; [done|].
    rewrite (prefix_length_field pre _ (be_bytes 4 pl) Hpre), Hpl by
      (try lia; apply take_len, length_be_bytes).
    do 3 guard_false. by guard_true.
Qed.

Lemma chachapoly_stable seq payload rng k frame :
  encode_chachapoly seq payload rng (CipherChaChaPoly k) = Ok frame →
  stable seq frame payload (SlotChaChaPoly (CipherChaChaPoly k)) (SlotChaChaPoly (CipherChaChaPoly k), None) ∧
  0 < len frame < MAX_PACKET_LEN.
Proof.
  unfold encode_chachapoly. destruct (payload_within_limit (len payload)) eqn:Hl; [|done]. cbn [negb].
  destruct (padding_facts payload 8 false Hl ltac:(lia)) as (Hp & Hn & Hmax & Hmod & _).
  set (pad := padding_for (len payload) 8 false) in *. cbv iota in Hmod. rewrite Z.add_0_l in Hmod.
  set (pl := 1 + len payload + pad) in *.
  rewrite plain_frame_take, plain_frame_drop. cbn [cp_xor_length cp_xor_payload cp_tag].
  set (el := xor_length k seq (be_bytes 4 pl)).
  set (body := xor_payload k seq (plain_body pad payload rng)).
  set (tag := chachapoly_tag k seq el body). intros [= <-].
  assert (Hel : len el = 4) by (unfold el, xor_length; rewrite chacha20_len, len_be_bytes; done).
  assert (Hb : len body = pl).
  { unfold body, xor_payload. rewrite chacha20_len, len_plain_body; lia. }
  assert (Ht : len tag = 16) by apply poly1305_len.
  assert (Hlen : len (el ++ body ++ tag) = 4 + pl + 16) by (rewrite !len_app; lia).
  assert (Hl4 : length el = 4%nat) by (unfold len in Hel; lia).
  assert (Hpl : be_value (xor_length k seq el) = pl).
  { unfold el. rewrite xor_length_involutive. apply be_value_length; lia. }
  assert (H8 : 8 ≤ pl) by (apply multiple_ge; [unfold pl|..]; lia).
  unfold MAX_PACKET_LEN in *. split; [|lia]. split.
  - intros rest. cbn [fst snd decode_slot]. unfold decode_chachapoly, MAX_PACKET_LEN.
    rewrite len_app, Hlen. pose proof (len_nonneg rest).
    rewrite <- !app_assoc, (take_len el) by done. cbn [cp_xor_length]. rewrite Hpl.
    guard_false. do 4 guard_false. cbn [cp_verify_tag cp_xor_payload].
    rewrite (slice_front el), (slice_mid el body) by lia.
    rewrite (app_assoc el body), (slice_mid _ tag) by (rewrite ?len_app; lia).
    rewrite (proj2 (chachapoly_verify_iff k seq el body tag) eq_refl).
    unfold body. rewrite xor_payload_involutive, unpad_plain_body by lia. done.
  - intros pre Hpre. cbn [fst snd decode_slot]. pose proof (strict_prefix_len _ _ Hpre).
    unfold decode_chachapoly, MAX_PACKET_LEN. destruct (len pre <? 4) eqn:E; [done|].
    rewrite (prefix_length_field pre _ el Hpre) by (try lia; by apply take_len).
    cbn [cp_xor_length]. rewrite Hpl. do 3 guard_false. by guard_true.
Qed.

Lemma etm_stable seq payload rng c m frame c' :
  is_aead c = false → mac_wf m → mac_etm m = true → mac_tag_len m ≤ 64 →
  encode_stream seq payload rng c m = (Ok frame, c') →
  stable seq frame payload (SlotStream c' m) (SlotStream c m, None) ∧
  is_aead c' = false ∧ 0 < len frame < MAX_PACKET_LEN.
Proof.
  intros Ha Hm Hetm Htl. unfold encode_stream. rewrite Hetm. cbn [negb andb].
  destruct (payload_within_limit (len payload)) eqn:Hl; [|done]. cbn [negb].
  pose proof (block_size_cases c) as Hbs.
  destruct (padding_facts payload (block_size c) false Hl Hbs) as (Hp & Hn & Hmax & Hmod & _).
  set (pad := padding_for (len payload) (block_size c) false) in *.
  cbv iota in Hmod. rewrite Z.add_0_l in Hmod. set (pl := 1 + len payload + pad) in *.
  rewrite plain_frame_take, plain_frame_drop.
  destruct (encrypt_blocks_ok c (plain_body pad payload rng)) as (body & c2 & E & Hb & Ha' & Hbs' & D); [done|..].
  { rewrite len_plain_body by lia. apply Z.mod_divide; [lia|done]. }
  rewrite len_plain_body in Hb by lia. fold pl in Hb. rewrite E, mac_compute_tag.
  set (tag := mac_tag m seq (be_bytes 4 pl ++ body)).
  assert (Ht : len tag = mac_tag_len m) by (by apply mac_tag_length).
  intros [-> ->]%ok_pair_inj. rewrite <- app_assoc.
  assert (Hlen : len (be_bytes 4 pl ++ body ++ tag) = 4 + pl + mac_tag_len m).
  { rewrite !len_app, len_be_bytes. lia. }
  assert (Hpl : be_value (be_bytes 4 pl) = pl) by (apply be_value_length; lia).
  assert (Hge : block_size c ≤ pl) by (apply multiple_ge; [unfold pl|..]; lia).
  pose proof (mac_tag_len_nonneg m Hm).
  unfold MAX_PACKET_LEN in *. split; [|split; [done|lia]]. split.
  - intros rest. cbn [fst snd decode_slot]. unfold decode_stream. rewrite Hetm.
    unfold decode_stream_etm, MAX_PACKET_LEN. rewrite len_app, Hlen. pose proof (len_nonneg rest).
    rewrite <- !app_assoc, (take_len (be_bytes 4 pl)), Hpl by apply length_be_bytes.
    do 5 guard_false.
    rewrite (slice_mid (be_bytes 4 pl) body (tag ++ rest) 4 (4 + pl)) by (rewrite ?len_be_bytes; lia).
    rewrite (app_assoc _ body), slice_front by (rewrite len_app, len_be_bytes; lia).
    rewrite (slice_mid _ tag) by (rewrite ?len_app, ?len_be_bytes; lia).
    rewrite (proj2 (mac_verify_iff m seq _ tag Hm) eq_refl), D, unpad_plain_body by lia. done.
  - intros pre Hpre. cbn [fst snd decode_slot]. pose proof (strict_prefix_len _ _ Hpre).
    unfold decode_stream. rewrite Hetm. unfold decode_stream_etm, MAX_PACKET_LEN.
    destruct (len pre <? 4) eqn:E4; [done|].
    rewrite (prefix_length_field pre _ (be_bytes 4 pl) Hpre), Hpl by
      (try lia; apply take_len, length_be_bytes).
    do 3 guard_false. by guard_true.
Qed.

(** The numbers of an encrypt-and-MAC packet. *)
Definition eam_params (bs pl pad : Z) (payload : bytes) : Prop :=
  (bs = 8 ∨ bs = 16) ∧ 4 ≤ pad ≤ 255 ∧ pl = 1 + len payload + pad ∧ 0 ≤ len payload ∧
  pl < MAX_PACKET_LEN - 236 ∧ (4 + pl) mod bs = 0 ∧ 16 ≤ 4 + pl.

(** The first block [a] of the encrypted plain frame [enc] has been decrypted,
    which took the cipher to [c1]; decrypting the rest takes it to [c2]. *)
Definition peeked (bs pl pad : Z) (payload : bytes) (rng : Rng) (enc a : bytes) (c1 c2 : SshCipher)
    : Prop :=
  len enc = 4 + pl ∧ block_size c1 = bs ∧ len a = bs ∧ take 4 a = be_bytes 4 pl ∧
  (if 4 + pl >? bs then
     ∃ b, decrypt_blocks c1 (slice enc bs (4 + pl)) = (Ok b, c2) ∧
       a ++ b = plain_frame pl pad payload rng
   else c1 = c2 ∧ a = plain_frame pl pad payload rng).

Lemma len_eam_frame bs pl pad payload rng :
  eam_params bs pl pad payload → len (plain_frame pl pad payload rng) = 4 + pl.
Proof.
  intros (? & ? & ? & _). rewrite plain_frame_eq, len_app, len_be_bytes, len_plain_body by lia. lia.
Qed.

(** The payload is cut out of the decrypted frame. *)
Lemma eam_cut bs pl pad payload rng :
  eam_params bs pl pad payload →
  byte_at (plain_frame pl pad payload rng) 4 = pad ∧
  slice (plain_frame pl pad payload rng) 5 (4 + pl - pad) = payload.
Proof.
  intros (_ & ? & ? & _). rewrite plain_frame_eq. split.
  - unfold byte_at. rewrite app_nth2; rewrite length_be_bytes; [|lia].
    apply u8_byte_of_Z_small. lia.
  - unfold plain_body. rewrite app_assoc.
    apply slice_mid; [rewrite len_app, len_be_bytes; done | lia].
Qed.

Lemma eam_length_ok bs pl pad payload :
  eam_params bs pl pad payload → length_error pl bs = None.
Proof.
  unfold eam_params, length_error, MIN_TOTAL_LEN. intros (? & ? & ? & ? & ? & ? & ?).
  by do 3 guard_false.
Qed.

Lemma eam_rest_full seq m bs pl pad payload rng enc rest a c1 c2 :
  mac_wf m → eam_params bs pl pad payload → peeked bs pl pad payload rng enc a c1 c2 →
  decode_stream_rest seq ((enc ++ mac_tag m seq (plain_frame pl pad payload rng)) ++ rest) a c1 m =
    (Ok (Some (payload, 4 + pl + mac_tag_len m)), (c2, None)).
Proof.
  intros Hm Hpar (Henc & Hbs1 & Ha & H4 & Hdec). unfold decode_stream_rest.
  pose proof (len_eam_frame _ _ _ _ rng Hpar) as Hlf. destruct (eam_cut _ _ _ _ rng Hpar) as [Hfin Hpay].
  pose proof (eam_length_ok _ _ _ _ Hpar) as Hle. destruct Hpar as (Hbs & Hpad & Hpl & Hn & Hmax & Hmod & Hmin).
  rewrite H4, be_value_length, Hbs1, Hle by lia. set (F := plain_frame pl pad payload rng) in *.
  pose proof (mac_tag_len_nonneg m Hm). pose proof (len_nonneg rest).
  pose proof (mac_tag_length m seq F Hm) as Ht.
  rewrite !len_app, Henc, Ht. guard_false.
  assert (Hsl : slice ((enc ++ mac_tag m seq F) ++ rest) bs (4 + pl) = slice enc bs (4 + pl)).
  { unfold slice. rewrite <- app_assoc, drop_app_le by (unfold len in Henc; lia).
    apply take_app_le. rewrite length_drop. unfold len in Henc. lia. }
  rewrite <- app_assoc in Hsl |- *. rewrite Hsl, (slice_mid enc (mac_tag m seq F)) by lia.
  destruct (4 + pl >? bs) eqn:E.
  - destruct Hdec as (b & -> & ->). rewrite (proj2 (mac_verify_iff m seq _ _ Hm) eq_refl).
    rewrite Hfin, Hlf, Hpay. by do 2 guard_false.
  - destruct Hdec as [-> ->]. rewrite (proj2 (mac_verify_iff m seq _ _ Hm) eq_refl).
    rewrite Hfin, Hlf, Hpay. by do 2 guard_false.
Qed.

(** With the first block decrypted and kept, an incomplete packet changes
    nothing. *)
Lemma eam_rest_partial seq m bs pl pad payload rng enc a c1 c2 pre :
  eam_params bs pl pad payload → peeked bs pl pad payload rng enc a c1 c2 →
  len pre < 4 + pl + mac_tag_len m →
  decode_stream_rest seq pre a c1 m = (Ok None, (c1, Some a)).
Proof.
  intros Hpar (Henc & Hbs1 & Ha & H4 & _) Hpre. unfold decode_stream_rest.
  pose proof (eam_length_ok _ _ _ _ Hpar) as Hle. destruct Hpar as (Hbs & Hpad & Hpl & Hn & Hmax & _).
  rewrite H4, be_value_length, Hbs1, Hle by lia. by guard_true.
Qed.

Lemma eam_peeked_stable seq m bs pl pad payload rng enc a c1 c2 :
  mac_wf m → mac_etm m = false → eam_params bs pl pad payload →
  peeked bs pl pad payload rng enc a c1 c2 →
  stable seq (enc ++ mac_tag m seq (plain_frame pl pad payload rng)) payload
    (SlotStream c2 m) (SlotStream c1 m, Some a).
Proof.
  intros Hm Hetm Hpar Hpk. set (tag := mac_tag m seq _).
  assert (Hlen : len (enc ++ tag) = 4 + pl + mac_tag_len m).
  { unfold tag. rewrite len_app, (mac_tag_length m) by done. destruct Hpk. lia. }
  pose proof Hpk as (_ & Hbs1 & _). pose proof Hpar as (Hbs & Hpad & Hpl & Hn & _ & _ & Hmin).
  pose proof (mac_tag_len_nonneg m Hm). split.
  - intros rest. cbn [fst snd decode_slot]. unfold decode_stream. rewrite Hetm, Hbs1, len_app, Hlen.
    pose proof (len_nonneg rest). guard_false. unfold tag.
    by rewrite (eam_rest_full seq m bs pl pad payload rng enc rest a c1 c2).
  - intros pre Hpre%strict_prefix_len. cbn [fst snd decode_slot]. unfold decode_stream. rewrite Hetm, Hbs1.
    destruct (len pre <? bs); [done|].
    rewrite (eam_rest_partial seq m bs pl pad payload rng enc a c1 c2); [done|done|done|lia].
Qed.

(** The first block of an encrypted plain frame decrypts on its own. *)
Lemma eam_split c enc pl pad payload rng c2 :
  eam_params (block_size c) pl pad payload → len enc = 4 + pl →
  decrypt_blocks c enc = (Ok (plain_frame pl pad payload rng), c2) →
  ∃ a c1, decrypt_blocks c (slice enc 0 (block_size c)) = (Ok a, c1) ∧
    peeked (block_size c) pl pad payload rng enc a c1 c2.
Proof.
  intros (Hbs & Hpad & Hpl & Hn & _ & Hmod & Hmin) Henc D. unfold peeked.
  set (bs := block_size c) in *. set (e1 := slice enc 0 bs). set (e2 := slice enc bs (4 + pl)).
  assert (He1 : len e1 = bs).
  { unfold e1, slice. rewrite Z.sub_0_r. apply len_take. cbn. rewrite drop_0. lia. }
  assert (Hee : enc = e1 ++ e2).
  { unfold e1, e2, slice. rewrite Z.sub_0_r. cbn [Z.to_nat]. rewrite drop_0.
    rewrite (take_ge (drop _ _)) by (rewrite length_drop; unfold len in Henc; lia).
    by rewrite take_drop. }
  rewrite Hee in D. pose proof D as D'.
  apply decrypt_blocks_split in D as (a & b & c1 & E1 & E2 & HF & Hla & Hbs1).
  2:{ fold bs. rewrite He1. apply Z.divide_refl. }
  exists a, c1. fold bs in Hbs1. split; [done|]. split; [done|]. split; [done|]. split; [lia|]. split.
  { rewrite <- (plain_frame_take pl pad payload rng), HF, take_app_le; [done|]. unfold len in *. lia. }
  destruct (4 + pl >? bs) eqn:E.
  - exists b. by rewrite HF.
  - assert (e2 = []) as He2.
    { apply len_0_nil. rewrite Hee, len_app in Henc. pose proof (len_nonneg e2). lia. }
    rewrite He2, app_nil_r, E1 in D'. injection D' as -> ->. done.
Qed.

Lemma slice_0_app (a b : bytes) n : 0 ≤ n ≤ len a → slice (a ++ b) 0 n = slice a 0 n.
Proof.
  intros. unfold slice. cbn [Z.to_nat]. rewrite !drop_0, Z.sub_0_r. apply take_app_le.
  unfold len in *. lia.
Qed.

(** What the encoder made: a frame, its encryption and the tag of the frame. *)
Lemma eam_encoded seq payload rng c m frame c' :
  is_aead c = false → mac_etm m = false → encode_stream seq payload rng c m = (Ok frame, c') →
  ∃ pl pad enc, eam_params (block_size c) pl pad payload ∧ len enc = 4 + pl ∧ pad ≤ 19 ∧
    decrypt_blocks c enc = (Ok (plain_frame pl pad payload rng), c') ∧ is_aead c' = false ∧
    frame = enc ++ mac_tag m seq (plain_frame pl pad payload rng).
Proof.
  intros Ha Hetm. unfold encode_stream. rewrite Hetm. cbn [negb andb].
  destruct (payload_within_limit (len payload)) eqn:Hl; [|done]. cbn [negb].
  pose proof (block_size_cases c) as Hbs.
  destruct (padding_facts payload (block_size c) true Hl Hbs) as (Hp & Hn & Hmax & Hmod & Hmin).
  specialize (Hmin eq_refl). cbv iota in Hmod.
  set (pad := padding_for (len payload) (block_size c) true) in *.
  set (pl := 1 + len payload + pad) in *. unfold MIN_TOTAL_LEN. guard_false.
  assert (Hpar : eam_params (block_size c) pl pad payload) by (unfold eam_params; lia).
  pose proof (len_eam_frame _ _ _ _ rng Hpar) as HlF.
  destruct (encrypt_blocks_ok c (plain_frame pl pad payload rng))
    as (enc & c2 & E & Henc & Ha' & Hbs' & D); [done|..].
  { rewrite HlF. apply Z.mod_divide; [lia|done]. }
  rewrite mac_compute_tag, E. intros [-> ->]%ok_pair_inj. exists pl, pad, enc.
  split; [done|]. split; [lia|]. split; [lia|]. done.
Qed.

Lemma eam_waiting seq payload rng c m frame c' :
  is_aead c = false → mac_wf m → mac_etm m = false → mac_tag_len m ≤ 64 →
  encode_stream seq payload rng c m = (Ok frame, c') →
  waiting seq frame payload (SlotStream c' m) (SlotStream c m, None) ∧
  is_aead c' = false ∧ 0 < len frame < MAX_PACKET_LEN.
Proof.
  intros Ha Hm Hetm Htl (pl & pad & enc & Hpar & Henc & Hpad & D & Ha' & ->)%eam_encoded; [|done..].
  destruct (eam_split c enc pl pad payload rng c' Hpar Henc D) as (a & c1 & D1 & Hpk).
  pose proof (eam_peeked_stable seq m _ pl pad payload rng enc a c1 c' Hm Hetm Hpar Hpk) as Hstable.
  pose proof (mac_tag_len_nonneg m Hm). set (tag := mac_tag m seq _) in *.
  assert (Hlen : len (enc ++ tag) = 4 + pl + mac_tag_len m).
  { unfold tag. rewrite len_app, (mac_tag_length m) by done. lia. }
  pose proof Hpar as (Hbs & _ & Hpl & Hn & Hmax & Hmod & Hmin).
  split; [|split; [done|unfold MAX_PACKET_LEN in *; lia]]. split.
  - intros rest. cbn [fst snd decode_slot]. unfold decode_stream. rewrite Hetm, len_app, Hlen.
    pose proof (len_nonneg rest). guard_false.
    rewrite <- app_assoc, slice_0_app, D1 by lia. rewrite app_assoc.
    unfold tag. by rewrite (eam_rest_full seq m (block_size c) pl pad payload rng enc rest a c1 c').
  - intros pre Hpre. cbn [fst snd decode_slot]. unfold decode_stream. rewrite Hetm.
    destruct (len pre <? block_size c) eqn:Eb; [exists (SlotStream c m, None); split; [done|by left]|].
    pose proof (strict_prefix_len _ _ Hpre).
    replace (slice pre 0 (block_size c)) with (slice enc 0 (block_size c)).
    + rewrite D1, (eam_rest_partial seq m (block_size c) pl pad payload rng enc a c1 c'); [|done|done|lia].
      exists (SlotStream c1 m, Some a). split; [done|by right].
    + destruct Hpre as (suf & Hsuf & _). rewrite <- (slice_0_app pre suf), <- Hsuf by lia.
      symmetry. apply slice_0_app. lia.
Qed.

Lemma mac_tag_len_le m : mac_wf m → mac_tag_len m ≤ 64.
Proof. destruct m as [[] k t e|[k|k] e]; cbn; lia. Qed.

(** Every framing: what the encoder returns, the decoder inverts. *)
Lemma encode_slot_waiting seq payload rng slot frame slot' :
  slot_wf slot → encode_slot seq payload rng slot = (Ok frame, slot') →
  waiting seq frame payload slot' (slot, None) ∧ slot_wf slot' ∧ 0 < len frame < MAX_PACKET_LEN.
Proof.
  destruct slot as [|c m|c|c]; cbn [encode_slot slot_wf].
  - intros _ [= E <-]. destruct (cleartext_stable seq _ _ _ E) as [Hs Hl].
    split; [by apply stable_waiting|done].
  - intros [Ha Hm]. destruct (encode_stream seq payload rng c m) as [r c'] eqn:E. intros [= -> <-].
    pose proof (mac_tag_len_le m Hm) as Htl. destruct (mac_etm m) eqn:Hetm.
    + destruct (etm_stable _ _ _ _ _ _ _ Ha Hm Hetm Htl E) as (Hs & Ha' & Hl).
      split; [by apply stable_waiting|done].
    + destruct (eam_waiting _ _ _ _ _ _ _ Ha Hm Hetm Htl E) as (Hs & Ha' & Hl). done.
  - destruct c as [|g| |]; try done. intros _.
    destruct (encode_gcm payload rng (CipherGcm g)) as [r c'] eqn:E. intros [= -> <-].
    destruct (gcm_stable seq _ _ _ _ _ E) as (Hs & Hw & Hl). split; [by apply stable_waiting|done].
  - destruct c as [| | |k]; try done. intros _ [= E <-].
    destruct (chachapoly_stable _ _ _ _ _ E) as (Hs & Hl). split; [by apply stable_waiting|done].
Qed.

Lemma decode_slot_nil seq slot : slot_wf slot → decode_slot seq [] slot None = (Ok None, (slot, None)).
Proof.
  destruct slot as [|c m|c|c]; intros Hw; try done.
  cbn [decode_slot]. unfold decode_stream. pose proof (block_size_pos c). destruct (mac_etm m); [done|].
  rewrite (len_nil (A := byte)). by guard_true.
Qed.
End Frames.

(** ** Sender and receiver in step *)

Section Link.
Context {P : CipherPrims} {L : CipherLaws P} {CC : CompCol}.

Definition compressing (c : Compress) : bool :=
  compress_active c && negb (bytes_eqb (compress_name c) (bs "none")).
Definition decompressing (d : Decompress) : bool :=
  decompress_active d && negb (bytes_eqb (decompress_name d) (bs "none")).

(** [R] relates a compressor to the decompressor that undoes it: they are on
    or off together, and the decompressor returns each packet the compressor
    was given. *)
Record compression_sync (R : Compress → Decompress → Prop) : Prop := {
  sync_on c d : R c d → compressing c = decompressing d;
  sync_packet c d x y c' : R c d → compress c x = (Ok y, c') →
    ∃ d', decompress d y = (Ok x, d') ∧ R c' d';
}.

Context (R : Compress → Decompress → Prop) (HR : compression_sync R).

(** Between packets. *)
Record paired (tx rx : PacketCodec) : Prop := {
  pair_seq : seq_in rx = seq_out tx;
  pair_slot : inbound rx = outbound tx;
  pair_wf : slot_wf (outbound tx);
  pair_pending : pending_first_block rx = None;
  pair_compress : R (outbound_compress tx) (inbound_decompress rx);
}.

(** While the bytes of [frame] arrive; [tx'] is the sender after it. *)
Definition expects (rx : PacketCodec) (frame payload : bytes) (tx' : PacketCodec) : Prop :=
  ∃ z, waiting (seq_in rx) frame z (outbound tx') (inbound rx, pending_first_block rx) ∧
    slot_wf (outbound tx') ∧ seq_out tx' = wrap32 (seq_in rx + 1) ∧ 0 < len frame < MAX_PACKET_LEN ∧
    (if decompressing (inbound_decompress rx) then
       ∃ d', decompress (inbound_decompress rx) z = (Ok payload, d') ∧ R (outbound_compress tx') d'
     else z = payload ∧ R (outbound_compress tx') (inbound_decompress rx)).

Lemma encode_compress_fields tx payload z tx1 :
  encode_compress tx payload = (Ok z, tx1) →
  seq_out tx1 = seq_out tx ∧ outbound tx1 = outbound tx ∧
  (if compressing (outbound_compress tx)
   then compress (outbound_compress tx) payload = (Ok z, outbound_compress tx1)
   else z = payload ∧ outbound_compress tx1 = outbound_compress tx).
Proof.
  unfold encode_compress. fold (compressing (outbound_compress tx)).
  destruct (compressing _).
  - destruct (compress (outbound_compress tx) payload) as [[y|e] oc]; [|done].
    intros [= <- <-]. done.
  - intros [= <- <-]. done.
Qed.

Lemma encode_fields tx payload rng frame tx' :
  encode tx payload rng = (Ok frame, tx') →
  ∃ z tx1, encode_compress tx payload = (Ok z, tx1) ∧
    encode_slot (seq_out tx) z rng (outbound tx) = (Ok frame, outbound tx') ∧
    seq_out tx' = wrap32 (seq_out tx + 1) ∧ outbound_compress tx' = outbound_compress tx1.
Proof.
  unfold encode. destruct (encode_compress tx payload) as [[z|e] tx1] eqn:Ec; [|done].
  destruct (encode_compress_fields _ _ _ _ Ec) as (Hs & Ho & _). rewrite Hs, Ho.
  destruct (encode_slot (seq_out tx) z rng (outbound tx)) as [[f|e] slot] eqn:E; [|done].
  intros [= <- <-]. exists z, tx1. cbn. by rewrite Hs.
Qed.

Lemma paired_expects tx rx payload rng frame tx' :
  paired tx rx → encode tx payload rng = (Ok frame, tx') → expects rx frame payload tx'.
Proof.
  intros [Hseq Hslot Hwf Hpend HRc] (z & tx1 & Ec & Es & Hs' & Hoc)%encode_fields.
  apply encode_compress_fields in Ec as (_ & _ & Hz).
  destruct (encode_slot_waiting _ _ _ _ _ _ Hwf Es) as (Hw & Hwf' & Hl).
  exists z. rewrite Hseq, Hslot, Hpend. repeat (split; [done|]).
  rewrite <- (sync_on R HR _ _ HRc), Hoc. destruct (compressing _).
  - exact (sync_packet R HR _ _ _ _ _ HRc Hz).
  - by destruct Hz as [-> ->].
Qed.

Lemma expects_partial rx frame payload tx' pre :
  expects rx frame payload tx' → strict_prefix pre frame →
  ∃ rx', decode rx pre = (Ok None, rx') ∧ expects rx' frame payload tx'.
Proof.
  intros (z & Hw & Hrest) Hp.
  destruct (waiting_prefix _ _ _ _ _ _ Hw Hp) as ([slot pend] & E & Hw').
  unfold decode. cbn in E. rewrite E. cbn. eexists. split; [done|].
  exists z. split; [exact Hw'|]. exact Hrest.
Qed.

Lemma decode_decompress_fields c z payload (Q : Decompress → Prop) :
  (if decompressing (inbound_decompress c) then
     ∃ d', decompress (inbound_decompress c) z = (Ok payload, d') ∧ Q d'
   else z = payload ∧ Q (inbound_decompress c)) →
  ∃ c', decode_decompress c z = (Ok payload, c') ∧ Q (inbound_decompress c') ∧
    seq_in c' = seq_in c ∧ inbound c' = inbound c ∧ pending_first_block c' = pending_first_block c.
Proof.
  unfold decode_decompress. fold (decompressing (inbound_decompress c)). destruct (decompressing _).
  - intros (d' & -> & HQ). eexists. split; [done|]. done.
  - intros [-> HQ]. by exists c.
Qed.

Lemma expects_full rx frame payload tx' rest :
  expects rx frame payload tx' →
  ∃ rx', decode rx (frame ++ rest) = (Ok (Some (payload, len frame)), rx') ∧ paired tx' rx'.
Proof.
  intros (z & [Hf _] & Hwf & Hseq & _ & Hd). unfold decode. pose proof (Hf rest) as E. cbn in E. rewrite E.
  match goal with |- context [decode_decompress ?c z] => set (rx1 := c) end.
  destruct (decode_decompress_fields rx1 z payload (R (outbound_compress tx')) Hd)
    as (c' & Ec & HRd & Hs & Hi & Hp).
  rewrite Ec. exists c'. split; [done|]. split; try done; rewrite ?Hs, ?Hi, ?Hp; done.
Qed.

Lemma paired_idle tx rx : paired tx rx → ∃ rx', decode rx [] = (Ok None, rx') ∧ paired tx rx'.
Proof.
  intros [Hseq Hslot Hwf Hpend HRc]. unfold decode.
  rewrite Hslot, Hpend, decode_slot_nil by done. eexists. split; [done|]. by split.
Qed.

(** Packets sent one after the other: payloads with their frames. *)
Inductive sent : PacketCodec → list (bytes * bytes) → PacketCodec → Prop :=
  | sent_nil tx : sent tx [] tx
  | sent_cons tx payload rng frame tx1 l tx2 :
      encode tx payload rng = (Ok frame, tx1) → sent tx1 l tx2 →
      sent tx ((payload, frame) :: l) tx2.

(** The receiver with the packets [l] still to come. *)
Definition mid (rx : PacketCodec) (l : list (bytes * bytes)) (txe : PacketCodec) : Prop :=
  match l with
  | [] => paired txe rx
  | (payload, frame) :: l => ∃ tx1, expects rx frame payload tx1 ∧ sent tx1 l txe
  end.

Lemma paired_mid tx rx l txe : paired tx rx → sent tx l txe → mid rx l txe.
Proof.
  intros Hp Hs. destruct Hs as [tx|tx payload rng frame tx1 l tx2 E Hs]; [done|].
  exists tx1. split; [by eapply paired_expects|done].
Qed.

(** A router that keeps the payloads, for observing what arrives. *)
Definition collect (cs : PacketCodec * list bytes) (payload : bytes)
    : result unit * (PacketCodec * list bytes) := (Ok (), (cs.1, cs.2 ++ [payload])).

Lemma collect_eq c acc payload : collect (c, acc) payload = (Ok (), (c, acc ++ [payload])).
Proof. done. Qed.

Definition frames (l : list (bytes * bytes)) : bytes := concat (snd <$> l).

(** What is left in the inbox is less than a frame. *)
Definition partial (unread : bytes) (l : list (bytes * bytes)) : Prop :=
  match l with [] => unread = [] | (_, frame) :: _ => strict_prefix unread frame end.

Lemma mid_frame_len rx l txe unread : mid rx l txe → partial unread l → len unread < MAX_PACKET_LEN.
Proof.
  destruct l as [|[p f] l]; cbn.
  - intros _ ->. done.
  - intros (tx1 & (z & _ & _ & _ & Hl & _) & _) Hu%strict_prefix_len. lia.
Qed.

Lemma app_split_strict (frame rest unread future : bytes) :
  frame ++ rest = unread ++ future → ¬ strict_prefix unread frame →
  ∃ more, unread = frame ++ more ∧ rest = more ++ future.
Proof.
  intros H Hn. apply app_eq_inv in H as [(k & -> & ->)|(k & -> & ->)].
  - destruct k as [|x k].
    + exists []. by rewrite !app_nil_r.
    + exfalso. apply Hn. by exists (x :: k).
  - by exists k.
Qed.

Lemma strict_prefix_dec unread frame : strict_prefix unread frame ∨ ¬ strict_prefix unread frame.
Proof.
  destruct (decide (take (length unread) frame = unread ∧ (length unread < length frame)%nat)) as [[H1 H2]|Hn].
  - left. exists (drop (length unread) frame). split.
    + rewrite <- H1 at 1. by rewrite take_drop.
    + intros Hd. apply (f_equal length) in Hd. rewrite length_drop in Hd. cbn in Hd. lia.
  - right. intros (suf & -> & Hs). apply Hn. rewrite take_app_length. split; [done|].
    rewrite length_app. destruct suf; cbn; [done|lia].
Qed.

Lemma drain_spec fuel rx l txe acc unread future :
  mid rx l txe → frames l = unread ++ future → (length unread < fuel)%nat →
  ∃ rx' l1 l2 unread',
    drain_inbox collect fuel (rx, acc) unread = Some (Ok (), (rx', acc ++ (fst <$> l1)), unread') ∧
    l = l1 ++ l2 ∧ mid rx' l2 txe ∧ frames l2 = unread' ++ future ∧ partial unread' l2.
Proof.
  revert rx l acc unread. induction fuel as [|fuel IH]; intros rx l acc unread Hm Hf Hfu; [lia|].
  destruct l as [|[payload frame] l].
  { cbn in Hf. symmetry in Hf. apply app_eq_nil in Hf as [-> ->].
    destruct (paired_idle txe rx Hm) as (rx' & E & Hp). exists rx', [], [], [].
    cbn [drain_inbox fst snd]. rewrite E. cbn. by rewrite app_nil_r. }
  destruct Hm as (tx1 & He & Hs). cbn in Hf.
  destruct (strict_prefix_dec unread frame) as [Hsp|Hsp].
  - destruct (expects_partial _ _ _ _ _ He Hsp) as (rx' & E & He').
    exists rx', [], ((payload, frame) :: l), unread. cbn [drain_inbox fst snd]. rewrite E. cbn.
    rewrite app_nil_r. split; [done|]. split; [done|]. split; [by exists tx1|]. done.
  - destruct (app_split_strict _ _ _ _ Hf Hsp) as (more & -> & Hrest).
    destruct (expects_full _ _ _ _ more He) as (rx1 & E & Hp1).
    pose proof He as (z & _ & _ & _ & Hlf & _). unfold len in Hlf.
    destruct (IH rx1 l (acc ++ [payload]) more) as (rx' & l1 & l2 & unread' & Ed & -> & Hm' & Hf' & Hpa).
    + by apply (paired_mid tx1).
    + done.
    + rewrite length_app in Hfu. lia.
    + exists rx', ((payload, frame) :: l1), l2, unread'. cbn [drain_inbox fst snd]. rewrite E.
      replace (Z.to_nat (len frame)) with (length frame) by (unfold len; lia).
      rewrite drop_app_length, collect_eq, Ed, <- app_assoc. done.
Qed.

(** [handle_input] called on each chunk the transport delivers, until an
    error. *)
Fixpoint deliver {S} (route : PacketCodec * S → bytes → result unit * (PacketCodec * S))
    (cs : PacketCodec * S) (inbox : bytes) (chunks : list bytes)
    : option (result unit * (PacketCodec * S) * bytes) :=
  match chunks with
  | [] => Some (Ok (), cs, inbox)
  | data :: chunks =>
      match handle_input route cs inbox data with
      | Some (Ok _, cs, inbox) => deliver route cs inbox chunks
      | r => r
      end
  end.

Lemma partial_all_nil unread l : partial unread l → frames l = unread → l = [] ∧ unread = [].
Proof.
  destruct l as [|[p f] l]; cbn; [done|]. intros Hu%strict_prefix_len <-. rewrite len_app in Hu.
  pose proof (len_nonneg (concat l.*2)). lia.
Qed.

Lemma deliver_spec chunks rx l txe acc unread :
  mid rx l txe → partial unread l → frames l = unread ++ concat chunks →
  Forall (λ c, len c ≤ MAX_INBOX_BYTES - MAX_PACKET_LEN) chunks →
  ∃ rx', deliver collect (rx, acc) unread chunks = Some (Ok (), (rx', acc ++ (fst <$> l)), []) ∧
    paired txe rx'.
Proof.
  revert rx l acc unread. induction chunks as [|data chunks IH]; intros rx l acc unread Hm Hp Hf Hs.
  { cbn in Hf. rewrite app_nil_r in Hf. destruct (partial_all_nil _ _ Hp Hf) as [-> ->].
    exists rx. cbn. by rewrite app_nil_r. }
  apply list.Forall_cons in Hs as [Hd Hs]. cbn [concat] in Hf. rewrite app_assoc in Hf.
  cbn [deliver]. unfold handle_input. pose proof (mid_frame_len _ _ _ _ Hm Hp).
  rewrite len_app. guard_false.
  destruct (drain_spec (S (length (unread ++ data))) rx l txe acc (unread ++ data) (concat chunks))
    as (rx1 & l1 & l2 & unread' & -> & -> & Hm' & Hf' & Hp'); [done|done|lia|].
  destruct (IH rx1 l2 (acc ++ (fst <$> l1)) unread' Hm' Hp' Hf' Hs) as (rx' & -> & Hpair).
  exists rx'. by rewrite fmap_app, app_assoc.
Qed.
End Link.

(** C11: what one side's codec sends, the other side's receives, however the
    bytes are cut: start from a sender and a receiver with the same keys (any
    of the four framings), the same sequence number and compression in step.
    Encode any packets one after the other, and hand the bytes of the frames
    to the receiver's [handle_input] in chunks of any size the inbox can take.
    The receiver then routes exactly the payloads sent, in order, without
    error, with nothing left in the inbox, and the two are in step again. *)
Theorem packets_delivered {P : CipherPrims} {L : CipherLaws P} {CC : CompCol}
    (R : Compress → Decompress → Prop) tx rx l tx' chunks :
  compression_sync R → paired R tx rx → sent tx l tx' → concat chunks = frames l →
  Forall (λ c, len c ≤ MAX_INBOX_BYTES - MAX_PACKET_LEN) chunks →
  ∃ rx', deliver collect (rx, []) [] chunks = Some (Ok (), (rx', fst <$> l), []) ∧ paired R tx' rx'.
Proof.
  intros HR Hp Hs Hc Hsz. destruct l as [|[p f] l'].
  - apply (deliver_spec R HR chunks rx [] tx' [] []); try done. by apply (paired_mid R HR tx).
  - apply (deliver_spec R HR chunks rx ((p, f) :: l') tx' [] []); try done.
    + by apply (paired_mid R HR tx).
    + pose proof (paired_mid R HR tx rx _ tx' Hp Hs) as (tx1 & (z & _ & _ & _ & Hl & _) & _).
      exists f. split; [done|]. intros ->. rewrite (len_nil (A := byte)) in Hl. lia.
Qed.

(** ** When encoding succeeds *)

Section Success.
Context {P : CipherPrims} {L : CipherLaws P} {CC : CompCol}.

(** The GCM invocation counter has a value left. *)
Definition gcm_left (slot : CipherSlot) : Prop :=
  match slot with SlotGcm (CipherGcm g) => g_invocation g ≠ U64_MAX | _ => True end.

Lemma encode_stream_total seq z rng c m :
  is_aead c = false → payload_within_limit (len z) = true →
  ∃ frame c', encode_stream seq z rng c m = (Ok frame, c').
Proof.
  intros Ha Hl. unfold encode_stream. rewrite Hl. cbn [negb]. pose proof (block_size_cases c) as Hbs.
  destruct (padding_facts z (block_size c) (negb (mac_etm m)) Hl Hbs) as (Hp & Hn & Hmax & Hmod & Hmin).
  set (pad := padding_for _ _ _) in *. unfold MIN_TOTAL_LEN. destruct (mac_etm m); cbn [negb andb] in *.
  - rewrite plain_frame_drop.
    destruct (encrypt_blocks_ok c (plain_body pad z rng)) as (e & c' & -> & _); [done|..].
    + rewrite len_plain_body by lia. apply Z.mod_divide; [lia|done].
    + rewrite mac_compute_tag. by eexists _, _.
  - specialize (Hmin eq_refl). guard_false.
    destruct (encrypt_blocks_ok c (plain_frame (1 + len z + pad) pad z rng)) as (e & c' & E & _); [done|..].
    + rewrite plain_frame_eq, len_app, len_be_bytes, len_plain_body by lia.
      apply Z.mod_divide; [lia|done].
    + rewrite mac_compute_tag, E. by eexists _, _.
Qed.

Lemma encode_slot_total seq z rng slot :
  slot_wf slot → payload_within_limit (len z) = true → gcm_left slot →
  ∃ frame slot', encode_slot seq z rng slot = (Ok frame, slot').
Proof.
  destruct slot as [|c m|c|c]; cbn [slot_wf gcm_left encode_slot]; intros Hw Hl Hg.
  - unfold encode_cleartext. rewrite Hl. cbn [negb].
    destruct (padding_facts z 8 true Hl ltac:(lia)) as (Hp & Hn & Hmax & Hmod & Hmin).
    specialize (Hmin eq_refl). unfold BLOCK_SIZE_DEFAULT, MIN_TOTAL_LEN. guard_false. by eexists _, _.
  - destruct Hw as [Ha _]. destruct (encode_stream_total seq z rng c m Ha Hl) as (f & c' & ->).
    by eexists _, _.
  - destruct c as [|g| |]; try done. unfold encode_gcm. rewrite Hl. cbn [negb aead_seal_len_aad].
    match goal with |- context [gcm_seal g ?a ?b] => destruct (gcm_seal_open g a b) as (_ & _ & -> & _) end.
    unfold gcm_step. apply Z.eqb_neq in Hg. rewrite Hg.
    match goal with |- context [gcm_sealed g ?a ?b] => destruct (gcm_sealed g a b) end. by eexists _, _.
  - destruct c as [| | |k]; try done. unfold encode_chachapoly. rewrite Hl. by eexists _, _.
Qed.

(** A packet that can be encoded. *)
Definition encodable (tx : PacketCodec) (payload : bytes) : Prop :=
  slot_wf (outbound tx) ∧ compressing (outbound_compress tx) = false ∧
  payload_within_limit (len payload) = true ∧ gcm_left (outbound tx).

Lemma encode_total tx payload rng :
  encodable tx payload → ∃ frame tx', encode tx payload rng = (Ok frame, tx') ∧ len frame < MAX_PACKET_LEN.
Proof.
  intros (Hw & Hc & Hl & Hg). unfold encode, encode_compress. fold (compressing (outbound_compress tx)). rewrite Hc.
  destruct (encode_slot_total (seq_out tx) payload rng (outbound tx) Hw Hl Hg) as (f & s & E).
  rewrite E. destruct (encode_slot_waiting _ _ _ _ _ _ Hw E) as (_ & _ & Hlen). eexists _, _. split; [done|lia].
Qed.
End Success.

(** With keys installed and no compression, encoding a packet fails
    exactly when the payload is not below the encoder's limit or the AES-GCM
    invocation counter is used up (where the code refuses to wrap it); in
    every other case it produces a frame, which is shorter than the largest
    packet the decoder accepts. *)
Theorem encode_succeeds_iff {P : CipherPrims} {L : CipherLaws P} {CC : CompCol} tx payload rng :
  slot_wf (outbound tx) → compressing (outbound_compress tx) = false →
  (∃ frame tx', encode tx payload rng = (Ok frame, tx') ∧ len frame < MAX_PACKET_LEN) ↔
  payload_within_limit (len payload) = true ∧ gcm_left (outbound tx).
Proof.
  intros Hw Hc. unfold encode, encode_compress. fold (compressing (outbound_compress tx)). rewrite Hc.
  split.
  - intros (frame & tx' & E & _).
    destruct (encode_slot (seq_out tx) payload rng (outbound tx)) as [[f|e] s] eqn:Es; [|done]. clear E.
    destruct (outbound tx) as [|c m|c|c]; cbn [encode_slot] in Es; revert Es;
      unfold encode_cleartext, encode_stream, encode_gcm, encode_chachapoly;
      destruct (payload_within_limit (len payload)); cbn [negb]; try done.
    destruct c as [|g| |]; try done. cbn [aead_seal_len_aad gcm_left]. unfold gcm_seal, gcm_step.
    destruct (match g_cipher g with Gcm128 _ => _ | Gcm256 _ => _ end).
    destruct (g_invocation g =? U64_MAX) eqn:Ei; [done|]. by zbool.
  - intros [Hl Hg]. pose proof (encode_total tx payload rng) as Ht.
    unfold encode, encode_compress in Ht. fold (compressing (outbound_compress tx)) in Ht. rewrite Hc in Ht.
    by apply Ht.
Qed.
