(* ===== verification/PacketSafe.v ===== *)
(** * What a decoded packet guarantees, and the counters around it

    A payload is only returned after its tag was verified; errors of a CBC
    suite do not tell a bad length from a bad tag; the inbox loop ends; within
    a key epoch no sequence number, hence no nonce, is used twice, and the
    re-key policy counts from the epoch's start. *)
From S2P Require Import Prelude Wire Cipher Compress Packet PacketFacts.

Section Safe.
Context {P : CipherPrims} {L : CipherLaws P} {CC : CompCol}.

(** The plaintext of an encrypt-and-MAC packet whose part before the tag ends
    at [body_end]: the first block, perhaps decrypted earlier, and the rest. *)
Definition eam_plain (buf : bytes) (c : SshCipher) (pending : option bytes) (body_end : Z)
    (plain : bytes) : Prop :=
  ∃ first c1 rest c2, plain = first ++ rest ∧
    match pending with
    | Some b => first = b ∧ c1 = c
    | None => decrypt_blocks c (slice buf 0 (block_size c)) = (Ok first, c1)
    end ∧
    (if body_end >? block_size c1
     then decrypt_blocks c1 (slice buf (block_size c1) body_end) = (Ok rest, c2)
     else rest = []).

(** The evidence behind a payload that [n] bytes of [buf] were decoded to. *)
Definition authentic (seq : Z) (buf : bytes) (slot : CipherSlot) (pending : option bytes)
    (payload : bytes) (n : Z) : Prop :=
  match slot with
  | SlotNone => True
  | SlotStream c m =>
      let body_end := n - mac_tag_len m in
      let tag := slice buf body_end n in
      if mac_etm m then
        tag = mac_tag m seq (slice buf 0 body_end) ∧
        ∃ body c', decrypt_blocks c (slice buf 4 body_end) = (Ok body, c') ∧ unpad body = Ok payload
      else ∃ plain, eam_plain buf c pending body_end plain ∧ tag = mac_tag m seq plain ∧
        payload = slice plain 5 (len plain - byte_at plain 4)
  | SlotGcm c => ∃ body c',
      aead_open_len_aad c (take 4 buf) (slice buf 4 (n - 16)) (slice buf (n - 16) n) = (Ok body, c') ∧
      unpad body = Ok payload
  | SlotChaChaPoly c => ∃ k, c = CipherChaChaPoly k ∧
      slice buf (n - 16) n = chachapoly_tag k seq (slice buf 0 4) (slice buf 4 (n - 16)) ∧
      unpad (xor_payload k seq (slice buf 4 (n - 16))) = Ok payload
  end.

Lemma mac_verify_err m seq msg tag e : mac_verify m seq msg tag = Err e → e = BadMac.
Proof. destruct m; cbn; case_match; congruence. Qed.

Lemma etm_authentic seq buf c m payload n c' pending :
  mac_wf m → mac_etm m = true → decode_stream_etm seq buf c m = (Ok (Some (payload, n)), c') →
  authentic seq buf (SlotStream c m) pending payload n.
Proof.
  intros Hm Hetm. unfold authentic, decode_stream_etm. rewrite Hetm. cbv zeta.
  set (pl := be_value (take 4 buf)). do 5 (case_match; [done|]).
  destruct (mac_verify m seq _ _) as [[]|] eqn:Hv; [|done]. apply mac_verify_iff in Hv; [|done].
  destruct (decrypt_blocks c _) as [[body|] c2] eqn:Hd; [|done].
  destruct (unpad body) as [y|] eqn:Hu; [|done]. intros [= <- <- <-].
  replace (4 + pl + mac_tag_len m - mac_tag_len m) with (4 + pl) by lia.
  split; [done|]. by exists body, c2.
Qed.

(** How [decode_stream_rest] ends once the length field passed and the packet
    is complete: the MAC decides first. *)
Lemma decode_rest_outcome seq buf first c m r st :
  mac_wf m → decode_stream_rest seq buf first c m = (r, st) →
  (∃ msg, length_error (be_value (take 4 first)) (block_size c) = Some msg ∧
     r = if is_cbc c then (if len buf <? MAX_PACKET_LEN then Ok None else Err BadMac)
         else Err (Protocol msg)) ∨
  r = Ok None ∨ r = Err BadMac ∨
  (∃ k, length_error k (block_size c) = None ∧ 0 ≤ k ∧ 4 + k + mac_tag_len m ≤ len buf ∧
     4 + k > block_size c ∧ ∃ e c', decrypt_blocks c (slice buf (block_size c) (4 + k)) = (Err e, c') ∧ r = Err e) ∨
  ∃ n rest c2, 4 ≤ n - mac_tag_len m ∧ n ≤ len buf ∧
    (if n - mac_tag_len m >? block_size c
     then decrypt_blocks c (slice buf (block_size c) (n - mac_tag_len m)) = (Ok rest, c2)
     else rest = []) ∧
    slice buf (n - mac_tag_len m) n = mac_tag m seq (first ++ rest) ∧
    (r = Err BadPadding ∨
     r = Ok (Some (slice (first ++ rest) 5 (len (first ++ rest) - byte_at (first ++ rest) 4), n))).
Proof.
  intros Hm E. unfold decode_stream_rest in E. cbv zeta in E.
  pose proof (be_value_range (take 4 first)) as Hr. set (pl := be_value (take 4 first)) in *.
  destruct (length_error pl (block_size c)) as [msg|] eqn:Hle.
  { left. exists msg. split; [done|]. by repeat case_match; simplify_eq. }
  right. destruct (len buf <? _) eqn:El; [injection E as <- <-; by left|]. right.
  assert (Hn : 4 + pl + mac_tag_len m - mac_tag_len m = 4 + pl) by lia.
  destruct (4 + pl >? block_size c) eqn:Eg.
  - destruct (decrypt_blocks c _) as [[rest|e] c2] eqn:Hd.
    2:{ injection E as <- _. right; left. exists pl. repeat (split; [done || lia|]). by exists e, c2. }
    destruct (mac_verify m seq _ _) as [[]|e] eqn:Hv.
    2:{ injection E as <- _. left. by apply mac_verify_err in Hv as ->. }
    apply mac_verify_iff in Hv; [|done]. right; right.
    exists (4 + pl + mac_tag_len m), rest, c2. rewrite Hn, Eg.
    split; [lia|]. split; [lia|]. split; [done|]. split; [done|].
    repeat case_match; simplify_eq; by (left + right).
  - destruct (mac_verify m seq _ _) as [[]|e] eqn:Hv.
    2:{ injection E as <- _. left. by apply mac_verify_err in Hv as ->. }
    apply mac_verify_iff in Hv; [|done]. right; right.
    exists (4 + pl + mac_tag_len m), [], c. rewrite Hn, Eg, app_nil_r.
    split; [lia|]. split; [lia|]. split; [done|]. split; [done|].
    repeat case_match; simplify_eq; by (left + right).
Qed.

Lemma eam_rest_authentic seq buf first c m payload n st :
  mac_wf m → decode_stream_rest seq buf first c m = (Ok (Some (payload, n)), st) →
  ∃ rest c2,
    (if n - mac_tag_len m >? block_size c
     then decrypt_blocks c (slice buf (block_size c) (n - mac_tag_len m)) = (Ok rest, c2)
     else rest = []) ∧
    slice buf (n - mac_tag_len m) n = mac_tag m seq (first ++ rest) ∧
    payload = slice (first ++ rest) 5 (len (first ++ rest) - byte_at (first ++ rest) 4).
Proof.
  intros Hm [(msg & _ & Hr)|[Hr|[Hr|[Hx|Hr]]]]%decode_rest_outcome; [..|done]; try done.
  - by repeat case_match.
  - by destruct Hx as (k & _ & _ & _ & _ & e & c' & _ & Hr).
  - destruct Hr as (n' & rest & c2 & _ & _ & Hd & Ht & [Hr|Hr]); [done|]. injection Hr as -> ->.
    by exists rest, c2.
Qed.

Lemma decode_slot_authentic seq buf slot pending payload n st :
  slot_wf slot → decode_slot seq buf slot pending = (Ok (Some (payload, n)), st) →
  authentic seq buf slot pending payload n.
Proof.
  destruct slot as [|c m|c|c]; cbn [decode_slot slot_wf]; intros Hw.
  - done.
  - destruct Hw as [_ Hm]. unfold decode_stream. destruct (mac_etm m) eqn:Hetm.
    { destruct (decode_stream_etm seq buf c m) as [r c'] eqn:E. intros [= -> _].
      by apply (etm_authentic seq buf c m payload n c'). }
    unfold authentic. rewrite Hetm. cbv zeta.
    destruct (len buf <? block_size c); [done|]. destruct pending as [first|].
    + destruct (decode_stream_rest seq buf first c m) as [r [c' p]] eqn:E. intros [= -> _].
      apply eam_rest_authentic in E as (rest & c2 & H1 & H2 & H3); [|done].
      exists (first ++ rest). split; [|done]. by exists first, c, rest, c2.
    + destruct (decrypt_blocks c _) as [[first|] c1] eqn:Hd; [|done].
      destruct (decode_stream_rest seq buf first c1 m) as [r [c' p]] eqn:E. intros [= -> _].
      apply eam_rest_authentic in E as (rest & c2 & H1 & H2 & H3); [|done].
      exists (first ++ rest). split; [|done]. by exists first, c1, rest, c2.
  - clear Hw. destruct (decode_gcm buf c) as [r c2] eqn:E. intros [= -> _]. revert E.
    unfold authentic, decode_gcm. cbv zeta. set (pl := be_value (take 4 buf)).
    do 5 (case_match; [done|]).
    destruct (aead_open_len_aad c _ _ _) as [[body|] c'] eqn:Ho; [|done].
    destruct (unpad body) as [y|] eqn:Hu; [|done]. intros [= <- <- _].
    replace (4 + pl + 16 - 16) with (4 + pl) by lia. by exists body, c'.
  - destruct c as [| | |k]; try done. intros [= E _]. revert E.
    unfold authentic, decode_chachapoly. cbv zeta. case_match; [done|].
    cbn [cp_xor_length cp_verify_tag cp_xor_payload]. set (pl := be_value (xor_length _ _ _)).
    do 4 (case_match; [done|]).
    destruct (chachapoly_verify_tag k seq _ _ _) as [[]|] eqn:Hv; [|done].
    apply chachapoly_verify_iff in Hv.
    destruct (unpad _) as [y|] eqn:Hu; [|done]. intros [= <- <-]. exists k.
    replace (4 + pl + 16 - 16) with (4 + pl) by lia. done.
Qed.
End Safe.

(** C13: no payload without a valid tag: when [decode_slot] returns a payload,
    the bytes it consumed end in the tag the suite computes for them under the
    current sequence number (GCM: the open succeeded), and the payload is the
    decryption of those bytes with the padding removed.  Only the cleartext
    mode before the first key exchange has no tag. *)
Theorem decode_authentic {P : CipherPrims} {L : CipherLaws P} {CC : CompCol}
    seq buf slot pending payload n st :
  slot_wf slot → decode_slot seq buf slot pending = (Ok (Some (payload, n)), st) →
  authentic seq buf slot pending payload n ∧ 4 ≤ n ≤ len buf.
Proof.
  intros Hw E. split; [by apply (decode_slot_authentic _ _ _ _ _ _ st)|].
  apply (decode_slot_consumes seq buf slot pending payload n st); [|done].
  destruct slot; try done. destruct Hw as [_ Hm]. by apply mac_tag_len_nonneg.
Qed.

(** ** CBC with encrypt-and-MAC: a bad length is a bad MAC *)

Lemma cbc_slice_aligned {P : CipherPrims} c (buf : bytes) i j :
  0 ≤ i ≤ j → j ≤ len buf → j mod cbc_block_size c = 0 → i mod cbc_block_size c = 0 →
  (cbc_block_size c | len (slice buf i j)).
Proof.
  intros Hij Hj Hmj Hmi. unfold slice. rewrite len_take by (rewrite len_drop by lia; lia).
  assert (0 < cbc_block_size c) by (destruct c; cbn; lia).
  apply Z.divide_sub_r; apply Z.mod_divide; lia.
Qed.

(** The MAC of the packet in [buf] was verified. *)
Definition mac_verified {P : CipherPrims} (seq : Z) (buf : bytes) (c : SshCipher) (m : SshMac)
    (pending : option bytes) : Prop :=
  ∃ n plain, n ≤ len buf ∧ eam_plain buf c pending (n - mac_tag_len m) plain ∧
    slice buf (n - mac_tag_len m) n = mac_tag m seq plain.

Lemma cbc_rest_uniform {P : CipherPrims} {L : CipherLaws P} seq buf first c m r st :
  mac_wf m → decode_stream_rest seq buf first (CipherCbc c) m = (r, st) →
  r = Ok None ∨ r = Err BadMac ∨
  ∃ n rest c2, n ≤ len buf ∧
    (if n - mac_tag_len m >? cbc_block_size c
     then decrypt_blocks (CipherCbc c) (slice buf (cbc_block_size c) (n - mac_tag_len m)) = (Ok rest, c2)
     else rest = []) ∧
    slice buf (n - mac_tag_len m) n = mac_tag m seq (first ++ rest) ∧
    (r = Err BadPadding ∨ ∃ payload, r = Ok (Some (payload, n))).
Proof.
  intros Hm [(msg & _ & ->)|[->|[->|[Hx|Hr]]]]%decode_rest_outcome; [..|done].
  - cbn. case_match; [by left|by right; left].
  - by left.
  - by right; left.
  - exfalso. destruct Hx as (k & Hle & Hk & Hlen & Hgt & e & c' & Hd & _). cbn [block_size] in *.
    pose proof (mac_tag_len_nonneg m Hm).
    destruct (cbc_decrypt_ok c (slice buf (cbc_block_size c) (4 + k))) as (p & c2 & E & _).
    + apply cbc_slice_aligned; [destruct c; cbn in *; lia|lia| |destruct c; done].
      unfold length_error in Hle. repeat case_match; try done. zbool. done.
    + cbn in Hd. by rewrite E in Hd.
  - right; right. destruct Hr as (n & rest & c2 & _ & Hn & Hd & Ht & Hr). exists n, rest, c2.
    repeat (split; [done|]). destruct Hr as [->| ->]; [by left|right; by eexists].
Qed.

(** C36: no length oracle (CVE-2008-5161): on a CBC suite with a separate MAC
    over the plaintext, whatever bytes arrive, the decoder asks for more,
    fails with [BadMac], or has verified the packet's MAC first (and then
    returns the payload or reports its padding).  A length field that
    decrypts to nonsense never shows as an error of its own. *)
Theorem cbc_no_length_oracle {P : CipherPrims} {L : CipherLaws P} seq buf c m pending r st :
  mac_wf m → mac_etm m = false →
  decode_stream seq buf (CipherCbc c) m pending = (r, st) →
  r = Ok None ∨ r = Err BadMac ∨
  (mac_verified seq buf (CipherCbc c) m pending ∧
   (r = Err BadPadding ∨ ∃ payload n, r = Ok (Some (payload, n)))).
Proof.
  intros Hm Hetm. unfold decode_stream. rewrite Hetm. cbn [block_size].
  destruct (len buf <? cbc_block_size c) eqn:El; [intros [= <- _]; by left|].
  destruct pending as [first|].
  - intros [->|[->|(n & rest & c2 & Hn & Hd & Ht & Hr)]]%cbc_rest_uniform; [auto..| |done].
    right; right. split; [|destruct Hr as [?|[payload ?]]; eauto].
    exists n, (first ++ rest). split; [done|]. split; [|done]. by exists first, (CipherCbc c), rest, c2.
  - destruct (cbc_decrypt_ok c (slice buf 0 (cbc_block_size c))) as (first & c1 & E & _ & Hbs).
    { apply cbc_slice_aligned; destruct c; cbn in *; try done; lia. }
    cbn [decrypt_blocks]. rewrite E.
    intros [->|[->|(n & rest & c2 & Hn & Hd & Ht & Hr)]]%cbc_rest_uniform; [auto..| |done].
    right; right. split; [|destruct Hr as [?|[payload ?]]; eauto].
    exists n, (first ++ rest). split; [done|]. split; [|done]. exists first, (CipherCbc c1), rest, c2.
    split; [done|]. split; [cbn; by rewrite E|done].
Qed.

(** ** The inbox loop ends *)

Lemma decode_tag_sane {P : CipherPrims} {CC : CompCol} c buf :
  tag_sane (inbound c) → tag_sane (inbound (decode c buf).2).
Proof.
  assert (Hslot : ∀ seq slot pend, tag_sane slot → tag_sane (decode_slot seq buf slot pend).2.1).
  { intros seq [|k m|k|k] pend Ht; cbn [decode_slot]; try done.
    - destruct (decode_stream _ _ _ _ _) as [r [k' p']]. done.
    - by destruct (decode_gcm buf k). }
  assert (Hd : ∀ c z, inbound (decode_decompress c z).2 = inbound c).
  { intros c0 z. unfold decode_decompress. case_match; [|done].
    by destruct (decompress _ z) as [[]]. }
  intros Ht. unfold decode. specialize (Hslot (seq_in c) (inbound c) (pending_first_block c) Ht).
  destruct (decode_slot _ _ _ _) as [[[[z n]|]|] [slot pend]]; cbn in Hslot; try done.
  match goal with |- context [decode_decompress ?c1 z] => specialize (Hd c1 z);
    destruct (decode_decompress c1 z) as [[y|e] c2] end; cbn in Hd |- *; by rewrite Hd.
Qed.

(** The inbox loop terminates whatever bytes arrive and whatever the
    connection does with a packet (including installing new keys): every
    packet takes at least its four-byte length field off the inbox, so the
    loop of [handle_input] ends within one turn per inbox byte plus one. *)
Theorem inbox_loop_ends {P : CipherPrims} {CC : CompCol} {S}
    (route : PacketCodec * S → bytes → result unit * (PacketCodec * S)) cs inbox data :
  (∀ cs payload, tag_sane (inbound cs.1) → tag_sane (inbound (route cs payload).2.1)) →
  tag_sane (inbound cs.1) →
  ∃ r cs' inbox', handle_input route cs inbox data = Some (r, cs', inbox') ∧
    len inbox' ≤ len inbox + len data.
Proof.
  intros Hroute Ht. unfold handle_input. rewrite <- len_app. set (buf := inbox ++ data).
  case_match; [by eexists _, _, _|]. clear H.
  assert (Hf : (length buf < Datatypes.S (length buf))%nat) by lia. revert Hf.
  generalize (Datatypes.S (length buf)) as fuel. intros fuel. revert cs Ht.
  generalize buf. clear buf inbox data. induction fuel as [|fuel IH]; intros buf cs Ht Hf; [lia|].
  cbn [drain_inbox]. pose proof (decode_tag_sane cs.1 buf Ht) as Ht'.
  destruct (decode cs.1 buf) as [[[[payload n]|]|e] c'] eqn:E; [|by eexists _, _, _..].
  apply decode_consumes in E; [|done]. specialize (Hroute (c', cs.2) payload Ht').
  destruct (route (c', cs.2) payload) as [[u|e] cs'].
  - destruct (IH (drop (Z.to_nat n) buf) cs' Hroute) as (r & cs2 & inbox' & -> & Hl).
    + rewrite length_drop. unfold len in E. lia.
    + eexists _, _, _. split; [done|]. rewrite len_drop in Hl by lia. lia.
  - eexists _, _, _. split; [done|]. rewrite len_drop by lia. lia.
Qed.

(** * Key epochs: nonces and the re-key policy

    Between two key exchanges the codec counts packets and bytes from the
    epoch's start.  While the policy's packet limit has not been reached, no
    two packets of a direction share a nonce; the policy asks for a key
    exchange exactly when a limit has been reached since the epoch began. *)

Section Epoch.
Context {P : CipherPrims} {CC : CompCol}.

(** What makes the next outgoing packet's encryption and tag unique under its
    key: the GCM nonce, the ChaCha20 nonce, or the sequence number the MAC
    covers. *)
Definition packet_nonce (c : PacketCodec) : bytes :=
  match outbound c with
  | SlotGcm (CipherGcm g) => gcm_nonce g
  | SlotChaChaPoly _ => chachapoly_nonce (seq_out c)
  | _ => be_bytes 4 (seq_out c)
  end.

(** The part of a slot that stays the same within an epoch. *)
Definition slot_kind (s : CipherSlot) : nat * bytes :=
  match s with
  | SlotNone => (0%nat, []) | SlotStream _ _ => (1%nat, [])
  | SlotGcm (CipherGcm g) => (2%nat, g_fixed g) | SlotGcm _ => (3%nat, [])
  | SlotChaChaPoly _ => (4%nat, [])
  end.

(** Position within the epoch. *)
Definition slot_rank (c : PacketCodec) : Z :=
  match outbound c with
  | SlotGcm (CipherGcm g) => g_invocation g
  | _ => wrap32 (seq_out c - seq_out_base c)
  end.

(** Packets encoded one after the other, none of them when the policy's packet
    limit had been reached; with the nonce each one used. *)
Inductive epoch_run (p : RekeyPolicy) : PacketCodec → list bytes → PacketCodec → Prop :=
  | epoch_nil c : epoch_run p c [] c
  | epoch_cons c payload rng frame c1 l c2 :
      seq_exceeded p c = false → encode c payload rng = (Ok frame, c1) → epoch_run p c1 l c2 →
      epoch_run p c (packet_nonce c :: l) c2.

(** The outgoing counters are in range. *)
Definition counters_ok (c : PacketCodec) : Prop :=
  is_u32 (seq_out c) ∧ is_u32 (seq_out_base c) ∧
  match outbound c with SlotGcm (CipherGcm g) => is_u64 (g_invocation g) | _ => True end.

Lemma encode_slot_kind seq z rng slot frame slot' :
  encode_slot seq z rng slot = (Ok frame, slot') →
  slot_kind slot' = slot_kind slot ∧
  match slot, slot' with
  | SlotGcm (CipherGcm g), SlotGcm (CipherGcm g') =>
      g_invocation g ≠ U64_MAX ∧ g_invocation g' = g_invocation g + 1
  | SlotGcm (CipherGcm _), _ | _, SlotGcm (CipherGcm _) => False
  | _, _ => True
  end.
Proof.
  destruct slot as [|c m|c|c]; cbn [encode_slot].
  - by intros [= _ <-].
  - destruct (encode_stream seq z rng c m) as [r c']. by intros [= _ <-].
  - unfold encode_gcm. destruct (negb _); [done|]. destruct c as [c|g|c|c]; cbn [aead_seal_len_aad]; try done.
    unfold gcm_seal, gcm_step. cbv zeta.
    destruct (match g_cipher g with Gcm128 _ => _ | Gcm256 _ => _ end) as [body tag].
    destruct (g_invocation g =? U64_MAX) eqn:E; [done|]. intros [= _ <-]. zbool. done.
  - by intros [= _ <-].
Qed.

Lemma encode_base c payload rng frame c1 :
  encode c payload rng = (Ok frame, c1) → seq_out_base c1 = seq_out_base c.
Proof.
  unfold encode, encode_compress. destruct (_ && _).
  - destruct (compress _ _) as [[z|] oc]; [|done]. destruct (encode_slot _ z rng _) as [[f|] s]; [|done].
    by intros [= _ <-].
  - destruct (encode_slot _ payload rng _) as [[f|] s]; [|done]. by intros [= _ <-].
Qed.

Lemma seq_exceeded_out p c :
  seq_exceeded p c = false → wrap32 (seq_out c - seq_out_base c) < max_seq p.
Proof. unfold seq_exceeded. intros [_ H]%orb_false_iff. lia. Qed.

(** One packet: same key, next rank. *)
Lemma encode_rank p c payload rng frame c1 :
  is_u32 (max_seq p) → counters_ok c → seq_exceeded p c = false →
  encode c payload rng = (Ok frame, c1) →
  slot_kind (outbound c1) = slot_kind (outbound c) ∧ seq_out_base c1 = seq_out_base c ∧
  slot_rank c1 = slot_rank c + 1 ∧ counters_ok c1.
Proof.
  intros Hmax (Hs & Hb & Hg) Hex%seq_exceeded_out E.
  pose proof (encode_base _ _ _ _ _ E) as Hbase.
  apply encode_fields in E as (z & c0 & _ & Es & Hseq & _).
  destruct (encode_slot_kind _ _ _ _ _ _ Es) as [Hk Hstep].
  split; [done|]. split; [done|].
  assert (Hr : wrap32 (seq_out c1 - seq_out_base c1) = wrap32 (seq_out c - seq_out_base c) + 1).
  { rewrite Hbase, Hseq. unfold wrap32 in *. rewrite Zminus_mod_idemp_l.
    replace (seq_out c + 1 - seq_out_base c) with (seq_out c - seq_out_base c + 1) by lia.
    rewrite <- Zplus_mod_idemp_l. apply Z.mod_small.
    pose proof (Z.mod_pos_bound (seq_out c - seq_out_base c) 4294967296). width_lia. }
  assert (Hu : is_u32 (seq_out c1)) by (rewrite Hseq; apply wrap32_range).
  unfold slot_rank, counters_ok. rewrite Hbase in *.
  destruct (outbound c) as [| |[]|], (outbound c1) as [| |[]|]; try done; cbn in Hstep; try done.
  destruct Hstep as [Hne Hi]. split; [lia|]. split; [done|]. split; [done|]. width_lia.
Qed.

Lemma be_bytes_inj n a b :
  0 ≤ a < 256 ^ Z.of_nat n → 0 ≤ b < 256 ^ Z.of_nat n → be_bytes n a = be_bytes n b → a = b.
Proof. intros Ha Hb H. by rewrite <- (be_value_be_bytes_small n a Ha), H, be_value_be_bytes_small. Qed.

(** Within one epoch the nonce determines the rank. *)
Lemma packet_nonce_inj c c1 :
  counters_ok c → counters_ok c1 → slot_kind (outbound c1) = slot_kind (outbound c) →
  seq_out_base c1 = seq_out_base c → packet_nonce c1 = packet_nonce c → slot_rank c1 = slot_rank c.
Proof.
  intros (Hs & Hb & Hg) (Hs1 & Hb1 & Hg1) Hk Hbase Hn.
  unfold slot_rank, packet_nonce, chachapoly_nonce in *. rewrite Hbase.
  assert (H4 : be_bytes 4 (seq_out c1) = be_bytes 4 (seq_out c) → seq_out c1 = seq_out c).
  { apply be_bytes_inj; cbn; width_lia. }
  assert (H8 : ∀ x y, is_u64 x → is_u64 y → be_bytes 8 x = be_bytes 8 y → x = y).
  { intros x y Hx Hy. apply be_bytes_inj; cbn; width_lia. }
  destruct (outbound c) as [| |[]|], (outbound c1) as [| |[]|]; try done; cbn in Hk;
    try (by rewrite (H4 Hn)).
  - injection Hk as Hf. unfold gcm_nonce in Hn. rewrite Hf in Hn.
    apply app_inv_head in Hn. by apply H8.
  - apply app_inv_head in Hn. rewrite (H8 (seq_out c1) (seq_out c)); [done|width_lia|width_lia|done].
Qed.

Lemma epoch_ranks p c l c' :
  is_u32 (max_seq p) → counters_ok c → epoch_run p c l c' →
  NoDup l ∧ ∀ n, n ∈ l → ∃ c1, n = packet_nonce c1 ∧ counters_ok c1 ∧ slot_rank c ≤ slot_rank c1 ∧
    slot_kind (outbound c1) = slot_kind (outbound c) ∧ seq_out_base c1 = seq_out_base c.
Proof.
  intros Hmax Hc Hrun. induction Hrun as [c|c payload rng frame c1 l c2 Hex E Hrun IH].
  { split; [constructor|]. by intros n ?%elem_of_nil. }
  destruct (encode_rank _ _ _ _ _ _ Hmax Hc Hex E) as (Hk & Hb & Hr & Hc1).
  destruct (IH Hc1) as [Hnd Hall]. split.
  - apply list.NoDup_cons. split; [|done]. intros Hin.
    destruct (Hall _ Hin) as (c3 & Hn & Hc3 & Hr3 & Hk3 & Hb3).
    pose proof (packet_nonce_inj c c3 Hc Hc3) as Hinj. rewrite Hk3, Hb3 in Hinj.
    specialize (Hinj Hk Hb (eq_sym Hn)). lia.
  - intros n [->|Hin]%elem_of_cons; [by exists c|].
    destruct (Hall n Hin) as (c3 & Hn & Hc3 & Hr3 & Hk3 & Hb3). exists c3.
    rewrite Hk3, Hb3. repeat (split; [done || lia|]). done.
Qed.
End Epoch.

(** C23: no nonce is used twice under a key: encode packets one after the other
    from the start of a key epoch, checking the re-key policy's packet limit
    before each; then the AES-GCM nonces, the ChaCha20-Poly1305 nonces or the
    sequence numbers under the MAC of these packets are pairwise different,
    although the 32-bit sequence number may wrap on the way. *)
Theorem nonces_unique {P : CipherPrims} {CC : CompCol} p c l c' :
  is_u32 (max_seq p) → counters_ok c → epoch_run p (reset_rekey_epoch c) l c' → NoDup l.
Proof.
  intros Hmax (Hs & Hb & Hg) Hrun. apply (epoch_ranks p (reset_rekey_epoch c) l c' Hmax); [|done].
  unfold counters_ok. cbn. done.
Qed.

(** ** The policy counts from the epoch's start *)

Section Policy.
Context {P : CipherPrims} {CC : CompCol}.

(** What a codec did: packets and wire bytes received and sent. *)
Record tally := { n_in : Z; n_out : Z; b_in : Z; b_out : Z }.

Inductive activity (c : PacketCodec) : tally → PacketCodec → Prop :=
  | act_start : activity c (Build_tally 0 0 0 0) c
  | act_send t c1 payload rng frame c2 :
      activity c t c1 → encode c1 payload rng = (Ok frame, c2) →
      activity c (Build_tally (n_in t) (n_out t + 1) (b_in t) (b_out t + len frame)) c2
  | act_receive t c1 buf payload n c2 :
      activity c t c1 → 0 ≤ n → decode c1 buf = (Ok (Some (payload, n)), c2) →
      activity c (Build_tally (n_in t + 1) (n_out t) (b_in t + n) (b_out t)) c2
  | act_wait t c1 buf c2 :
      activity c t c1 → decode c1 buf = (Ok None, c2) → activity c t c2.

Lemma encode_counters c payload rng frame c' :
  encode c payload rng = (Ok frame, c') →
  seq_in c' = seq_in c ∧ seq_out c' = wrap32 (seq_out c + 1) ∧ bytes_in c' = bytes_in c ∧
  bytes_out c' = sat_add64 (bytes_out c) (len frame) ∧
  seq_in_base c' = seq_in_base c ∧ seq_out_base c' = seq_out_base c.
Proof.
  unfold encode, encode_compress. destruct (_ && _).
  - destruct (compress _ _) as [[z|] oc]; [|done]. destruct (encode_slot _ z rng _) as [[f|] s]; [|done].
    by intros [= <- <-].
  - destruct (encode_slot _ payload rng _) as [[f|] s]; [|done]. by intros [= <- <-].
Qed.

Lemma decode_decompress_counters c z :
  let c' := (decode_decompress c z).2 in
  seq_in c' = seq_in c ∧ seq_out c' = seq_out c ∧ bytes_in c' = bytes_in c ∧
  bytes_out c' = bytes_out c ∧ seq_in_base c' = seq_in_base c ∧ seq_out_base c' = seq_out_base c.
Proof. unfold decode_decompress. destruct (_ && _); [|done]. by destruct (decompress _ z) as [[]]. Qed.

Lemma decode_counters c buf r c' :
  decode c buf = (Ok r, c') →
  (match r with
   | Some (_, n) => seq_in c' = wrap32 (seq_in c + 1) ∧ bytes_in c' = sat_add64 (bytes_in c) n
   | None => seq_in c' = seq_in c ∧ bytes_in c' = bytes_in c
   end) ∧
  seq_out c' = seq_out c ∧ bytes_out c' = bytes_out c ∧
  seq_in_base c' = seq_in_base c ∧ seq_out_base c' = seq_out_base c.
Proof.
  unfold decode. destruct (decode_slot _ _ _ _) as [[[[z n]|]|] [slot pend]]; [|by intros [= <- <-]|done].
  match goal with |- context [decode_decompress ?c1 z] => pose proof (decode_decompress_counters c1 z) as Hd;
    destruct (decode_decompress c1 z) as [[y|e] c2] end; [|done]. intros [= <- <-].
  cbn in Hd. destruct Hd as (-> & -> & -> & -> & -> & ->). done.
Qed.

(** The counters as functions of the tally. *)
Definition counted (c0 : PacketCodec) (t : tally) (c : PacketCodec) : Prop :=
  seq_in c = wrap32 (seq_in c0 + n_in t) ∧ seq_out c = wrap32 (seq_out c0 + n_out t) ∧
  bytes_in c = Z.min (b_in t) U64_MAX ∧ bytes_out c = Z.min (b_out t) U64_MAX ∧
  seq_in_base c = seq_in c0 ∧ seq_out_base c = seq_out c0 ∧
  0 ≤ n_in t ∧ 0 ≤ n_out t ∧ 0 ≤ b_in t ∧ 0 ≤ b_out t.

Lemma wrap32_succ a n : wrap32 (wrap32 (a + n) + 1) = wrap32 (a + (n + 1)).
Proof. unfold wrap32. rewrite Zplus_mod_idemp_l. f_equal. lia. Qed.

Lemma activity_counted c0 t c :
  is_u32 (seq_in c0) → is_u32 (seq_out c0) → activity (reset_rekey_epoch c0) t c → counted c0 t c.
Proof.
  intros Hi Ho Hact. induction Hact as [|t c1 payload rng frame c2 Hact IH E
    |t c1 buf payload n c2 Hact IH Hn E|t c1 buf c2 Hact IH E]; unfold counted in *.
  - cbn. rewrite !Z.add_0_r, !wrap32_small by done. repeat split; done || lia.
  - destruct IH as (H1 & H2 & H3 & H4 & H5 & H6 & ? & ? & ? & ?).
    apply encode_counters in E as (-> & -> & -> & -> & -> & ->).
    rewrite H1, H2, H3, H4, H5, H6, wrap32_succ. pose proof (len_nonneg frame). cbn.
    repeat split; try done; width_lia.
  - destruct IH as (H1 & H2 & H3 & H4 & H5 & H6 & ? & ? & ? & ?).
    apply decode_counters in E as ((-> & ->) & -> & -> & -> & ->).
    rewrite H1, H2, H3, H4, H5, H6, wrap32_succ. cbn. repeat split; try done; width_lia.
  - apply decode_counters in E as ((-> & ->) & -> & -> & -> & ->). done.
Qed.

Lemma epoch_distance base n : is_u32 base → is_u32 n → wrap32 (wrap32 (base + n) - base) = n.
Proof.
  intros Hb Hn. unfold wrap32. rewrite Zminus_mod_idemp_l. rewrite Z.add_simpl_l.
  apply Z.mod_small. width_lia.
Qed.
End Policy.

(** The re-key policy is exact: after any activity since the epoch began
    (new keys, [reset_rekey_epoch]), with fewer than [2^32] packets each way,
    [should_rekey] holds if and only if a limit has been reached in this
    epoch: bytes or packets of one direction, or time.  In particular it does
    not hold right after a key exchange, whatever the lifetime totals, so one
    crossing causes one key exchange. *)
Theorem should_rekey_exact {P : CipherPrims} {CC : CompCol} p c0 t c last_kex now :
  is_u32 (seq_in c0) → is_u32 (seq_out c0) → is_u64 (max_bytes p) →
  activity (reset_rekey_epoch c0) t c → n_in t ≤ U32_MAX → n_out t ≤ U32_MAX →
  should_rekey p c last_kex now = true ↔
  max_bytes p ≤ b_in t ∨ max_bytes p ≤ b_out t ∨ max_seq p ≤ n_in t ∨ max_seq p ≤ n_out t ∨
  max_duration p ≤ Z.max (now - last_kex) 0.
Proof.
  intros Hi Ho Hmb Hact Hni Hno.
  destruct (activity_counted c0 t c Hi Ho Hact) as (H1 & H2 & H3 & H4 & H5 & H6 & ? & ? & ? & ?).
  unfold should_rekey, bytes_exceeded, seq_exceeded.
  rewrite H1, H2, H3, H4, H5, H6, !epoch_distance by width_lia.
  repeat case_match; split; try done; width_lia.
Qed.
