(* ===== verification/KexInit.v ===== *)
(** * Algorithm negotiation and the small transport messages
      (src/hazmat/transport: kexinit.rs, kex.rs, ext_info.rs, ping.rs, version.rs)

    KEXINIT as a message, the negotiation both sides run on the two KEXINITs,
    the EXT_INFO extension list, PING/PONG and the identification line. *)
From S2P Require Import Prelude Wire Text Cipher.

Definition SSH_MSG_KEXINIT : Z := 20.
Definition SSH_MSG_NEWKEYS : Z := 21.

Definition STRICT_KEX_CLIENT_MARKER : bytes := bs "kex-strict-c-v00@openssh.com".
Definition STRICT_KEX_SERVER_MARKER : bytes := bs "kex-strict-s-v00@openssh.com".
Definition is_strict_kex_marker (name : bytes) : bool :=
  bytes_eqb name STRICT_KEX_CLIENT_MARKER || bytes_eqb name STRICT_KEX_SERVER_MARKER.

Definition SSH_MSG_EXT_INFO : Z := 7.
Definition EXT_INFO_CLIENT_MARKER : bytes := bs "ext-info-c".
Definition EXT_INFO_SERVER_MARKER : bytes := bs "ext-info-s".
Definition is_ext_info_marker (name : bytes) : bool :=
  bytes_eqb name EXT_INFO_CLIENT_MARKER || bytes_eqb name EXT_INFO_SERVER_MARKER.

(** ** Preference lists *)

Record KexAlgorithms := {
  ka_kex : list bytes; ka_server_host_key : list bytes;
  ka_ciphers_c2s : list bytes; ka_ciphers_s2c : list bytes;
  ka_macs_c2s : list bytes; ka_macs_s2c : list bytes;
  ka_comp_c2s : list bytes; ka_comp_s2c : list bytes;
  ka_lang_c2s : list bytes; ka_lang_s2c : list bytes
}.
(** The owned form has the same lists. *)
Definition KexAlgorithmsOwned := KexAlgorithms.

Definition kex_algorithms_default : KexAlgorithms :=
  Build_KexAlgorithms [] [] [] [] [] [] [] [] [] [].

Definition DEFAULT_KEX : list bytes := [
  bs "mlkem768x25519-sha256"; bs "sntrup761x25519-sha512"; bs "sntrup761x25519-sha512@openssh.com";
  bs "curve25519-sha256"; bs "curve25519-sha256@libssh.org"; bs "ecdh-sha2-nistp256";
  bs "ecdh-sha2-nistp384"; bs "ecdh-sha2-nistp521"; bs "diffie-hellman-group-exchange-sha256";
  bs "diffie-hellman-group16-sha512"; bs "diffie-hellman-group18-sha512";
  bs "diffie-hellman-group14-sha256"; STRICT_KEX_CLIENT_MARKER; STRICT_KEX_SERVER_MARKER ].
Definition DEFAULT_HOST_KEY : list bytes := [
  bs "ssh-ed25519"; bs "ecdsa-sha2-nistp256"; bs "ecdsa-sha2-nistp384"; bs "ecdsa-sha2-nistp521";
  bs "sk-ssh-ed25519@openssh.com"; bs "sk-ecdsa-sha2-nistp256@openssh.com";
  bs "webauthn-sk-ecdsa-sha2-nistp256@openssh.com"; bs "rsa-sha2-512"; bs "rsa-sha2-256";
  bs "ssh-mldsa44-ed25519" ].
Definition DEFAULT_CIPHERS : list bytes := [
  bs "chacha20-poly1305@openssh.com"; bs "aes128-gcm@openssh.com"; bs "aes256-gcm@openssh.com";
  bs "aes128-ctr"; bs "aes192-ctr"; bs "aes256-ctr" ].
Definition DEFAULT_MACS : list bytes := [
  bs "umac-64-etm@openssh.com"; bs "umac-128-etm@openssh.com"; bs "hmac-sha2-256-etm@openssh.com";
  bs "hmac-sha2-512-etm@openssh.com"; bs "hmac-sha1-etm@openssh.com"; bs "umac-64@openssh.com";
  bs "umac-128@openssh.com"; bs "hmac-sha2-256"; bs "hmac-sha2-512"; bs "hmac-sha1" ].
Definition DEFAULT_COMP : list bytes := [bs "none"].

(** ** KEXINIT *)

Record KexInit := {
  ki_cookie : bytes;
  ki_kex : list bytes; ki_server_host_key : list bytes;
  ki_ciphers_c2s : list bytes; ki_ciphers_s2c : list bytes;
  ki_macs_c2s : list bytes; ki_macs_s2c : list bytes;
  ki_comp_c2s : list bytes; ki_comp_s2c : list bytes;
  ki_lang_c2s : list bytes; ki_lang_s2c : list bytes;
  ki_first_kex_packet_follows : bool
}.
#[export] Instance eta_KexInit : Etable KexInit :=
  λ r, Build_KexInit (ki_cookie r) (ki_kex r) (ki_server_host_key r) (ki_ciphers_c2s r)
         (ki_ciphers_s2c r) (ki_macs_c2s r) (ki_macs_s2c r) (ki_comp_c2s r) (ki_comp_s2c r)
         (ki_lang_c2s r) (ki_lang_s2c r) (ki_first_kex_packet_follows r).

Definition from_algorithms (algs : KexAlgorithms) (cookie : bytes) : KexInit :=
  Build_KexInit cookie (ka_kex algs) (ka_server_host_key algs) (ka_ciphers_c2s algs)
    (ka_ciphers_s2c algs) (ka_macs_c2s algs) (ka_macs_s2c algs) (ka_comp_c2s algs)
    (ka_comp_s2c algs) (ka_lang_c2s algs) (ka_lang_s2c algs) false.
Definition from_algorithms_owned (algs : KexAlgorithmsOwned) (cookie : bytes) : KexInit :=
  from_algorithms algs cookie.

Inductive Role := Client | Server.

Definition list_has (names : list bytes) (x : bytes) : bool := List.existsb (λ s, bytes_eqb s x) names.

Definition with_ext_info_marker (role : Role) (k : KexInit) : KexInit :=
  let marker := match role with
    | Client => EXT_INFO_CLIENT_MARKER | Server => EXT_INFO_SERVER_MARKER end in
  if negb (list_has (ki_kex k) marker) then k <| ki_kex := ki_kex k ++ [marker] |> else k.

(** The names with commas between them. *)
Fixpoint join_names (names : list bytes) : bytes :=
  match names with
  | [] => []
  | [n] => n
  | n :: rest => n ++ comma :: join_names rest
  end.

Definition write_name_list (names : list bytes) (w : Writer) : Writer :=
  write_string (join_names names) w.

Definition MAX_NAME_LEN : Z := 64.

Fixpoint check_names (entries : list bytes) : result (list bytes) :=
  match entries with
  | [] => Ok []
  | entry :: rest =>
      if len entry >? MAX_NAME_LEN then Err (Format "over-long name in name-list")
      else if negb (List.forallb (λ b, in_range 0x21 (u8 b) 0x7e) entry) then
        Err (Format "non-printable name in name-list")
      else
        let? s := from_utf8 (Format "bad name in name-list") entry in
        let? out := check_names rest in
        Ok (s :: out)
  end.

Definition read_name_list (r : Reader) : result (list bytes * Reader) :=
  let? (nl, r) := name_list_read r in
  let? out := check_names (name_list_iter nl) in
  Ok (out, r).

Definition kexinit_encode (k : KexInit) : bytes :=
  into_vec (writer_new
    |>> write_u8 SSH_MSG_KEXINIT
    |>> write_raw (ki_cookie k)
    |>> write_name_list (ki_kex k)
    |>> write_name_list (ki_server_host_key k)
    |>> write_name_list (ki_ciphers_c2s k)
    |>> write_name_list (ki_ciphers_s2c k)
    |>> write_name_list (ki_macs_c2s k)
    |>> write_name_list (ki_macs_s2c k)
    |>> write_name_list (ki_comp_c2s k)
    |>> write_name_list (ki_comp_s2c k)
    |>> write_name_list (ki_lang_c2s k)
    |>> write_name_list (ki_lang_s2c k)
    |>> write_bool (ki_first_kex_packet_follows k)
    |>> write_u32 0).

Definition kexinit_decode (payload : bytes) : result KexInit :=
  let? (msg, r) := read_u8 (reader_new payload) in
  if negb (msg =? SSH_MSG_KEXINIT) then Err (Protocol "expected SSH_MSG_KEXINIT") else
  let? (cookie, r) := read_take 16 r in
  let? (kex, r) := read_name_list r in
  let? (server_host_key, r) := read_name_list r in
  let? (ciphers_c2s, r) := read_name_list r in
  let? (ciphers_s2c, r) := read_name_list r in
  let? (macs_c2s, r) := read_name_list r in
  let? (macs_s2c, r) := read_name_list r in
  let? (comp_c2s, r) := read_name_list r in
  let? (comp_s2c, r) := read_name_list r in
  let? (lang_c2s, r) := read_name_list r in
  let? (lang_s2c, r) := read_name_list r in
  let? (first_kex_packet_follows, r) := read_bool r in
  let? (_, r) := read_u32 r in
  if negb (reader_is_empty r) then Err (Format "KEXINIT trailing bytes") else
  Ok (Build_KexInit cookie kex server_host_key ciphers_c2s ciphers_s2c macs_c2s macs_s2c
        comp_c2s comp_s2c lang_c2s lang_s2c first_kex_packet_follows).

(** ** Negotiation *)

Record NegotiatedOwned := {
  ng_kex : bytes; ng_host_key : bytes; ng_cipher_c2s : bytes; ng_cipher_s2c : bytes;
  ng_mac_c2s : bytes; ng_mac_s2c : bytes; ng_comp_c2s : bytes; ng_comp_s2c : bytes;
  ng_wrong_guess : bool; ng_strict_kex_enabled : bool; ng_ext_info_enabled : bool;
  ng_client_ext_info : bool; ng_server_ext_info : bool
}.

(** The loop of [pick]. *)
Fixpoint pick_from (is_kex : bool) (client server : list bytes) : option bytes :=
  match client with
  | [] => None
  | name :: rest =>
      if is_kex && (is_strict_kex_marker name || is_ext_info_marker name) then
        pick_from is_kex rest server
      else if list_has server name then Some name
      else pick_from is_kex rest server
  end.

Definition pick (category : string) (client server : list bytes) : result bytes :=
  let is_kex := String.eqb category "kex algorithm" in
  ok_or (pick_from is_kex client server) (NoMatch category (join_names client) (join_names server)).

Definition cipher_aead (name : bytes) : bool :=
  match cipher_spec_by_name name with Some s => cs_aead s | None => false end.

(** [a.first() == b.first()]. *)
Definition same_first (a b : list bytes) : bool :=
  match a, b with
  | [], [] => true
  | x :: _, y :: _ => bytes_eqb x y
  | _, _ => false
  end.

Definition negotiate (client server : KexInit) : result NegotiatedOwned :=
  let? kex := pick "kex algorithm" (ki_kex client) (ki_kex server) in
  let? host_key := pick "host-key algorithm" (ki_server_host_key client) (ki_server_host_key server) in
  let? cipher_c2s := pick "cipher c2s" (ki_ciphers_c2s client) (ki_ciphers_c2s server) in
  let? cipher_s2c := pick "cipher s2c" (ki_ciphers_s2c client) (ki_ciphers_s2c server) in
  let? mac_c2s := if cipher_aead cipher_c2s then Ok []
                  else pick "mac c2s" (ki_macs_c2s client) (ki_macs_c2s server) in
  let? mac_s2c := if cipher_aead cipher_s2c then Ok []
                  else pick "mac s2c" (ki_macs_s2c client) (ki_macs_s2c server) in
  let? comp_c2s := pick "compression c2s" (ki_comp_c2s client) (ki_comp_c2s server) in
  let? comp_s2c := pick "compression s2c" (ki_comp_s2c client) (ki_comp_s2c server) in
  let guesser_present := ki_first_kex_packet_follows client || ki_first_kex_packet_follows server in
  let wrong := if guesser_present
    then negb (same_first (ki_kex client) (ki_kex server) &&
               same_first (ki_server_host_key client) (ki_server_host_key server))
    else false in
  let client_ext := list_has (ki_kex client) EXT_INFO_CLIENT_MARKER in
  let server_ext := list_has (ki_kex server) EXT_INFO_SERVER_MARKER in
  Ok {| ng_kex := kex; ng_host_key := host_key;
        ng_cipher_c2s := cipher_c2s; ng_cipher_s2c := cipher_s2c;
        ng_mac_c2s := mac_c2s; ng_mac_s2c := mac_s2c;
        ng_comp_c2s := comp_c2s; ng_comp_s2c := comp_s2c;
        ng_wrong_guess := wrong;
        ng_strict_kex_enabled := list_has (ki_kex client) STRICT_KEX_CLIENT_MARKER &&
                                 list_has (ki_kex server) STRICT_KEX_SERVER_MARKER;
        ng_ext_info_enabled := client_ext && server_ext;
        ng_client_ext_info := client_ext; ng_server_ext_info := server_ext |}.

(** ** EXT_INFO *)

Record ExtInfo := {
  server_sig_algs : option bytes;
  publickey_algorithms_in_use : option bytes;
  ei_raw : list (bytes * bytes)
}.
#[export] Instance eta_ExtInfo : Etable ExtInfo :=
  λ r, Build_ExtInfo (server_sig_algs r) (publickey_algorithms_in_use r) (ei_raw r).

Definition ext_info_new : ExtInfo := Build_ExtInfo None None [].

Definition SERVER_SIG_ALGS : bytes := bs "server-sig-algs".
Definition PUBLICKEY_ALGS_IN_USE : bytes := bs "publickey-algorithms-in-use".

Fixpoint set_raw (name value : bytes) (raw : list (bytes * bytes)) : list (bytes * bytes) :=
  match raw with
  | [] => [(name, value)]
  | (n, v) :: rest =>
      if bytes_eqb n name then (n, value) :: rest else (n, v) :: set_raw name value rest
  end.

Definition with_server_sig_algs (v : bytes) (e : ExtInfo) : ExtInfo :=
  e <| ei_raw := set_raw SERVER_SIG_ALGS v (ei_raw e) |> <| server_sig_algs := Some v |>.
Definition with_publickey_algorithms_in_use (v : bytes) (e : ExtInfo) : ExtInfo :=
  e <| ei_raw := set_raw PUBLICKEY_ALGS_IN_USE v (ei_raw e) |>
    <| publickey_algorithms_in_use := Some v |>.
Definition with_extension (name value : bytes) (e : ExtInfo) : ExtInfo :=
  e <| ei_raw := set_raw name value (ei_raw e) |>.

Definition extension (name : bytes) (e : ExtInfo) : option bytes :=
  option_map snd (List.find (λ p, bytes_eqb p.1 name) (ei_raw e)).

Definition ext_info_encode (e : ExtInfo) : bytes :=
  into_vec (fold_left (λ w p, w |>> write_string p.1 |>> write_string p.2) (ei_raw e)
    (writer_new |>> write_u8 SSH_MSG_EXT_INFO |>> write_u32 (len (ei_raw e)))).

Fixpoint ext_info_pairs (n : nat) (r : Reader) (out : ExtInfo) : result (ExtInfo * Reader) :=
  match n with
  | O => Ok (out, r)
  | S n =>
      let? (name, r) := read_string r in
      let? (value, r) := read_string r in
      let? name := from_utf8 (Format "EXT_INFO non-UTF8 name") name in
      let? value := from_utf8 (Format "EXT_INFO non-UTF8 value") value in
      let out :=
        if bytes_eqb name SERVER_SIG_ALGS then out <| server_sig_algs := Some value |>
        else if bytes_eqb name PUBLICKEY_ALGS_IN_USE then
          out <| publickey_algorithms_in_use := Some value |>
        else out in
      ext_info_pairs n r (out <| ei_raw := ei_raw out ++ [(name, value)] |>)
  end.

Definition ext_info_decode (payload : bytes) : result ExtInfo :=
  let? (msg, r) := read_u8 (reader_new payload) in
  if negb (msg =? SSH_MSG_EXT_INFO) then Err (Protocol "expected SSH_MSG_EXT_INFO") else
  let? (n, r) := read_u32 r in
  if n >? 1024 then Err (Format "EXT_INFO nr-extensions too large") else
  let? (out, r) := ext_info_pairs (Z.to_nat n) r ext_info_new in
  if negb (reader_is_empty r) then Err (Format "EXT_INFO trailing bytes") else
  Ok out.

(** ** PING and PONG *)

Definition SSH_MSG_PING : Z := 192.
Definition SSH_MSG_PONG : Z := 193.
Definition encode_ping (data : bytes) : bytes :=
  byte_of_Z SSH_MSG_PING :: be_bytes 4 (wrap32 (len data)) ++ data.
Definition encode_pong (data : bytes) : bytes :=
  byte_of_Z SSH_MSG_PONG :: be_bytes 4 (wrap32 (len data)) ++ data.
Definition pong_for_ping (payload : bytes) : result bytes :=
  let? (msg, r) := read_u8 (reader_new payload) in
  if negb (msg =? SSH_MSG_PING) then Err (Protocol "ping: not a SSH_MSG_PING") else
  let? (data, _) := read_string r in
  Ok (encode_pong data).

(** ** Identification line; [pkg_version] is the crate's version *)

Definition CRLF : bytes := [Byte.x0d; Byte.x0a].
Definition LF : bytes := [Byte.x0a].
Definition LOCAL_VERSION (pkg_version : bytes) : bytes := bs "SSH-2.0-puressh_" ++ pkg_version.
Definition outgoing_bytes (pkg_version : bytes) : bytes := LOCAL_VERSION pkg_version ++ CRLF.

Definition strip_suffix (suffix l : bytes) : option bytes :=
  let n := (length l - length suffix)%nat in
  if bytes_eqb (drop n l) suffix then Some (take n l) else None.
Definition starts_with (prefix l : bytes) : bool := bytes_eqb (take (length prefix) l) prefix.

Definition parse_remote (line : bytes) : result bytes :=
  if len line >? 255 then Err (Protocol "version line exceeds 255 bytes") else
  let trimmed := match strip_suffix CRLF line with
    | Some t => t
    | None => match strip_suffix LF line with Some t => t | None => line end
    end in
  if negb (starts_with (bs "SSH-2.0-") trimmed) && negb (starts_with (bs "SSH-1.99-") trimmed) then
    Err (Protocol "peer is not SSH 2.0")
  else from_utf8 (Protocol "non-ASCII in version string") trimmed.
