(* ===== verification/KexFacts.v ===== *)
(** * Negotiation theorems

    KEXINIT and EXT_INFO survive encoding and decoding; the negotiation picks
    the client's first choice the server shares, fails exactly when there is
    none, gives both sides the same answer, and what it picks can be
    installed in the codec. *)
From S2P Require Import Prelude Wire Text TextFacts Cipher Compress Packet KexInit.

(** ** Name lists *)

(** A name KEXINIT may carry: what [read_name_list] accepts, without comma. *)
Definition name_ok (n : bytes) : Prop :=
  n ≠ [] ∧ (comma ∉ n) ∧ len n ≤ MAX_NAME_LEN ∧ Forall (λ b, in_range 0x21 (u8 b) 0x7e = true) n.

Definition names_ok (names : list bytes) : Prop :=
  Forall name_ok names ∧ is_u32 (len (join_names names)).

Lemma name_list_iter_join names : Forall name_ok names → name_list_iter (join_names names) = names.
Proof.
  unfold name_list_iter. induction 1 as [|n names [Hne [Hc _]] Hall IH]; [done|].
  destruct names as [|m names]; cbn [join_names].
  - rewrite split_on_none by done. cbn. by destruct n.
  - change (match names with [] => m | _ => m ++ comma :: join_names names end) with (join_names (m :: names)).
    rewrite split_on_app by done. cbn [List.filter]. rewrite IH. by destruct n.
Qed.

Lemma check_names_ok names : Forall name_ok names → check_names names = Ok names.
Proof.
  induction 1 as [|n names (Hne & Hc & Hl & Hp) Hall IH]; [done|]. cbn [check_names].
  replace (len n >? MAX_NAME_LEN) with false by lia.
  replace (List.forallb _ n) with true.
  2:{ symmetry. apply List.forallb_forall. rewrite <- List.Forall_forall. done. }
  cbn [negb]. rewrite from_utf8_ok, IH; [done|].
  apply utf8_valid_ascii. eapply Forall_impl; [|exact Hp]. intros b Hb.
  unfold in_range in Hb. lia.
Qed.

(** A name list on the wire. *)
Definition name_list_bytes (names : list bytes) : bytes :=
  be_bytes 4 (wrap32 (len (join_names names))) ++ join_names names.

Lemma read_name_list_at pre names post :
  fits_mem (pre ++ name_list_bytes names ++ post) → names_ok names →
  read_name_list (reader_at pre (name_list_bytes names ++ post)) =
    Ok (names, reader_at (pre ++ name_list_bytes names) post).
Proof.
  unfold name_list_bytes. intros Hm [Hall Hl]. unfold read_name_list, name_list_read.
  rewrite <- app_assoc in Hm |- *. rewrite read_string_at by done.
  by rewrite name_list_iter_join, check_names_ok.
Qed.

Lemma write_name_list_buf names w :
  w_buf (write_name_list names w) = w_buf w ++ name_list_bytes names.
Proof. unfold write_name_list, name_list_bytes. writer_norm. done. Qed.

(** ** KEXINIT *)

Definition kexinit_lists (k : KexInit) : list (list bytes) :=
  [ki_kex k; ki_server_host_key k; ki_ciphers_c2s k; ki_ciphers_s2c k; ki_macs_c2s k; ki_macs_s2c k;
   ki_comp_c2s k; ki_comp_s2c k; ki_lang_c2s k; ki_lang_s2c k].

Definition kexinit_wf (k : KexInit) : Prop :=
  len (ki_cookie k) = 16 ∧ Forall names_ok (kexinit_lists k) ∧ fits_mem (kexinit_encode k).

Lemma kexinit_encode_eq k :
  kexinit_encode k =
  byte_of_Z SSH_MSG_KEXINIT :: ki_cookie k ++ name_list_bytes (ki_kex k) ++
  name_list_bytes (ki_server_host_key k) ++ name_list_bytes (ki_ciphers_c2s k) ++
  name_list_bytes (ki_ciphers_s2c k) ++ name_list_bytes (ki_macs_c2s k) ++
  name_list_bytes (ki_macs_s2c k) ++ name_list_bytes (ki_comp_c2s k) ++
  name_list_bytes (ki_comp_s2c k) ++ name_list_bytes (ki_lang_c2s k) ++
  name_list_bytes (ki_lang_s2c k) ++
  byte_of_Z (if ki_first_kex_packet_follows k then 1 else 0) :: be_bytes 4 0.
Proof.
  unfold kexinit_encode, into_vec, write_bool, write_u32, write_u8, write_raw, writer_new.
  cbn [w_buf]. rewrite !write_name_list_buf. cbn [w_buf app]. by rewrite <- !app_assoc.
Qed.

Lemma kexinit_decode_encode k : kexinit_wf k → kexinit_decode (kexinit_encode k) = Ok k.
Proof.
  intros (Hc & Hl & Hm). unfold kexinit_lists in Hl. rewrite !list.Forall_cons in Hl.
  destruct Hl as (H1 & H2 & H3 & H4 & H5 & H6 & H7 & H8 & H9 & H10 & _).
  rewrite kexinit_encode_eq in *. unfold kexinit_decode, SSH_MSG_KEXINIT in *. rewrite reader_new_at.
  rewrite read_u8_at by (first [exact Hm | width_lia]). cbn [negb Z.eqb Pos.eqb app].
  rewrite (read_take_at _ (ki_cookie k)) by (first [solve_mem | by rewrite Hc]).
  do 10 (rewrite read_name_list_at by (first [solve_mem | done])).
  rewrite read_bool_at by solve_mem.
  rewrite <- (app_nil_r (be_bytes 4 0)), read_u32_at by (first [solve_mem | width_lia]).
  unfold reader_is_empty. rewrite remaining_at. cbn. by destruct k.
Qed.

(** ** The negotiation *)

(** Names that are signals, not algorithms; only the kex list has them. *)
Definition is_signal (is_kex : bool) (name : bytes) : bool :=
  is_kex && (is_strict_kex_marker name || is_ext_info_marker name).

(** [x] is the client's first algorithm that the server has too. *)
Definition first_common (is_kex : bool) (client server : list bytes) (x : bytes) : Prop :=
  ∃ before after, client = before ++ x :: after ∧ x ∈ server ∧ is_signal is_kex x = false ∧
    ∀ y, y ∈ before → is_signal is_kex y = true ∨ y ∉ server.

Definition no_common (is_kex : bool) (client server : list bytes) : Prop :=
  ∀ y, y ∈ client → is_signal is_kex y = true ∨ y ∉ server.

Lemma list_has_true l x : list_has l x = true ↔ x ∈ l.
Proof.
  unfold list_has. rewrite List.existsb_exists. setoid_rewrite bytes_eqb_true.
  rewrite list_elem_of_In. split; [by intros (y & ? & ->)|eauto].
Qed.
Lemma list_has_false l x : list_has l x = false ↔ x ∉ l.
Proof. rewrite <- list_has_true. by destruct (list_has l x). Qed.

Lemma pick_from_some k client server x :
  pick_from k client server = Some x ↔ first_common k client server x.
Proof.
  induction client as [|name client IH]; cbn [pick_from].
  { split; [done|]. intros (before & after & H & _). by destruct before. }
  fold (is_signal k name).
  assert (Hskip : is_signal k name = true ∨ name ∉ server →
    (first_common k client server x ↔ first_common k (name :: client) server x)).
  { intros Hs. split.
    - intros (before & after & -> & Hx & Hsig & Hb). exists (name :: before), after.
      repeat (split; [done|]). intros y [->|Hy]%elem_of_cons; [done|by apply Hb].
    - intros (before & after & H & Hx & Hsig & Hb). destruct before as [|z before]; cbn in H.
      + injection H as -> ->. destruct Hs; [congruence|done].
      + injection H as <- ->. exists before, after. repeat (split; [done|]).
        intros y Hy. apply Hb. by right. }
  destruct (is_signal k name) eqn:Es; [rewrite IH; apply Hskip; by left|].
  destruct (list_has server name) eqn:El.
  - apply list_has_true in El. split.
    + intros [= ->]. exists [], client. repeat (split; [done|]). by intros y ?%elem_of_nil.
    + intros (before & after & H & Hx & Hsig & Hb). destruct before as [|z before]; cbn in H.
      * by injection H as -> ->.
      * injection H as <- ->. destruct (Hb name); [left|congruence|done].
  - apply list_has_false in El. rewrite IH. apply Hskip. by right.
Qed.

Lemma pick_from_none k client server : pick_from k client server = None ↔ no_common k client server.
Proof.
  induction client as [|name client IH]; cbn [pick_from].
  { split; [|done]. by intros _ y ?%elem_of_nil. }
  fold (is_signal k name). unfold no_common in *. setoid_rewrite elem_of_cons.
  destruct (is_signal k name) eqn:Es.
  - rewrite IH. split; [intros H y [->|Hy]; auto|auto].
  - destruct (list_has server name) eqn:El.
    + apply list_has_true in El. split; [done|]. intros H.
      destruct (H name (or_introl eq_refl)); [congruence|done].
    + apply list_has_false in El. rewrite IH. split; [intros H y [->|Hy]; auto|auto].
Qed.

(** The algorithms of the eight categories, before the choice of a MAC is
    dropped for an AEAD cipher. *)
Definition chosen (client server : KexInit) (n : NegotiatedOwned) : Prop :=
  first_common true (ki_kex client) (ki_kex server) (ng_kex n) ∧
  first_common false (ki_server_host_key client) (ki_server_host_key server) (ng_host_key n) ∧
  first_common false (ki_ciphers_c2s client) (ki_ciphers_c2s server) (ng_cipher_c2s n) ∧
  first_common false (ki_ciphers_s2c client) (ki_ciphers_s2c server) (ng_cipher_s2c n) ∧
  (if cipher_aead (ng_cipher_c2s n) then ng_mac_c2s n = []
   else first_common false (ki_macs_c2s client) (ki_macs_c2s server) (ng_mac_c2s n)) ∧
  (if cipher_aead (ng_cipher_s2c n) then ng_mac_s2c n = []
   else first_common false (ki_macs_s2c client) (ki_macs_s2c server) (ng_mac_s2c n)) ∧
  first_common false (ki_comp_c2s client) (ki_comp_c2s server) (ng_comp_c2s n) ∧
  first_common false (ki_comp_s2c client) (ki_comp_s2c server) (ng_comp_s2c n).

(** What the signals and the guess amount to. *)
Definition signalled (client server : KexInit) (n : NegotiatedOwned) : Prop :=
  (ng_strict_kex_enabled n = true ↔
     STRICT_KEX_CLIENT_MARKER ∈ ki_kex client ∧ STRICT_KEX_SERVER_MARKER ∈ ki_kex server) ∧
  (ng_client_ext_info n = true ↔ EXT_INFO_CLIENT_MARKER ∈ ki_kex client) ∧
  (ng_server_ext_info n = true ↔ EXT_INFO_SERVER_MARKER ∈ ki_kex server) ∧
  (ng_ext_info_enabled n = ng_client_ext_info n && ng_server_ext_info n) ∧
  (ng_wrong_guess n = true ↔
     (ki_first_kex_packet_follows client = true ∨ ki_first_kex_packet_follows server = true) ∧
     ¬ (head (ki_kex client) = head (ki_kex server) ∧
        head (ki_server_host_key client) = head (ki_server_host_key server))).

(** A category without a common name, in the order they are tried. *)
Definition unmatched (client server : KexInit) : Prop :=
  no_common true (ki_kex client) (ki_kex server) ∨
  no_common false (ki_server_host_key client) (ki_server_host_key server) ∨
  no_common false (ki_ciphers_c2s client) (ki_ciphers_c2s server) ∨
  no_common false (ki_ciphers_s2c client) (ki_ciphers_s2c server) ∨
  (∃ x, first_common false (ki_ciphers_c2s client) (ki_ciphers_c2s server) x ∧
        cipher_aead x = false ∧ no_common false (ki_macs_c2s client) (ki_macs_c2s server)) ∨
  (∃ x, first_common false (ki_ciphers_s2c client) (ki_ciphers_s2c server) x ∧
        cipher_aead x = false ∧ no_common false (ki_macs_s2c client) (ki_macs_s2c server)) ∨
  no_common false (ki_comp_c2s client) (ki_comp_c2s server) ∨
  no_common false (ki_comp_s2c client) (ki_comp_s2c server).

Lemma same_first_true a b : same_first a b = true ↔ head a = head b.
Proof.
  destruct a as [|x a], b as [|y b]; cbn; try done. rewrite bytes_eqb_true.
  split; [by intros -> | by intros [= ->]].
Qed.

Lemma pick_ok cat client server x :
  pick cat client server = Ok x ↔ first_common (String.eqb cat "kex algorithm") client server x.
Proof.
  unfold pick. rewrite <- pick_from_some. destruct (pick_from _ client server); cbn; [|done].
  split; by intros [= ->].
Qed.
Lemma pick_err cat client server e :
  pick cat client server = Err e →
  no_common (String.eqb cat "kex algorithm") client server ∧ ∃ a b, e = NoMatch cat a b.
Proof.
  unfold pick. destruct (pick_from _ client server) eqn:E; cbn; [done|]. intros [= <-].
  apply pick_from_none in E. eauto.
Qed.

(** Splits a negotiation at its next [?]. *)
Ltac pick_step :=
  match goal with
  | |- context [match pick ?c ?a ?b with _ => _ end] =>
      let E := fresh "E" in destruct (pick c a b) eqn:E;
      [apply pick_ok in E; cbn in E | apply pick_err in E as [E (? & ? & ->)]; cbn in E]
  | |- context [if cipher_aead ?x then _ else _] =>
      let E := fresh "Ea" in destruct (cipher_aead x) eqn:E
  end.

Lemma negotiate_ok client server n :
  negotiate client server = Ok n → chosen client server n ∧ signalled client server n.
Proof.
  unfold negotiate. repeat (pick_step; try done); intros [= <-].
  all: unfold chosen, signalled; cbn; rewrite ?Ea, ?Ea0.
  all: rewrite !andb_true_iff, !list_has_true; split; [done|].
  all: split; [done|]; split; [done|]; split; [done|]; split; [done|].
  all: destruct (_ || _) eqn:Eg; [apply orb_true_iff in Eg | apply orb_false_iff in Eg as [-> ->]].
  all: try (rewrite negb_true_iff, <- not_true_iff_false, andb_true_iff, !same_first_true; by split; [|intros []]).
  all: split; [done|]; intros [[] _]; done.
Qed.

Lemma negotiate_err client server e :
  negotiate client server = Err e → unmatched client server ∧ ∃ cat a b, e = NoMatch cat a b.
Proof.
  unfold negotiate, unmatched. repeat (pick_step; try done); intros [= <-].
  all: split; [|by eexists _, _, _]; eauto 12.
Qed.

Lemma first_common_not_none k client server x :
  first_common k client server x → ¬ no_common k client server.
Proof.
  intros (before & after & -> & Hx & Hs & _) H. destruct (H x) as [|]; [|congruence|done].
  apply elem_of_app. right. left.
Qed.

Lemma first_common_unique k client server x y :
  first_common k client server x → first_common k client server y → x = y.
Proof. rewrite <- !pick_from_some. congruence. Qed.

Lemma chosen_not_unmatched client server n : chosen client server n → ¬ unmatched client server.
Proof.
  intros (H1 & H2 & H3 & H4 & H5 & H6 & H7 & H8) Hu.
  assert (Hc : ∀ cl sv x, first_common false cl sv x → no_common false cl sv → False).
  { intros cl sv x Hf Hn. exact (first_common_not_none _ _ _ _ Hf Hn). }
  destruct Hu as [Hu|[Hu|[Hu|[Hu|[Hu|[Hu|[Hu|Hu]]]]]]]; eauto.
  - exact (first_common_not_none _ _ _ _ H1 Hu).
  - destruct Hu as (x & Hx & Ha & Hu). rewrite (first_common_unique _ _ _ _ _ H3 Hx), Ha in H5. eauto.
  - destruct Hu as (x & Hx & Ha & Hu). rewrite (first_common_unique _ _ _ _ _ H4 Hx), Ha in H6. eauto.
Qed.

(** C20: the negotiation is the one RFC 4253 section 7.1 prescribes: it
    succeeds exactly when every category has a common name (a MAC is only
    needed for a cipher that is not AEAD), and then each answer is the client's
    first algorithm that the server has too, never a signalling name; strict
    key exchange is on exactly when both markers were sent, EXT_INFO flags and
    the wrong-guess flag are as the two messages say.  A failure names the
    category as [NoMatch]. *)
Theorem negotiate_spec client server :
  match negotiate client server with
  | Ok n => chosen client server n ∧ signalled client server n ∧ ¬ unmatched client server
  | Err e => unmatched client server ∧ ∃ cat a b, e = NoMatch cat a b
  end.
Proof.
  destruct (negotiate client server) as [n|e] eqn:E.
  - destruct (negotiate_ok _ _ _ E) as [Hc Hs]. split; [done|]. split; [done|].
    by apply (chosen_not_unmatched _ _ n).
  - by apply negotiate_err.
Qed.

(** Both ends compute the same result: each decodes the other's KEXINIT
    bytes to exactly the lists the other sent, so the client's negotiation
    (its own lists, the decoded server's) and the server's (the decoded
    client's, its own) are equal, answer or error. *)
Theorem kexinit_agreement client server :
  kexinit_wf client → kexinit_wf server →
  ∃ client' server', kexinit_decode (kexinit_encode client) = Ok client' ∧
    kexinit_decode (kexinit_encode server) = Ok server' ∧
    client' = client ∧ server' = server ∧ negotiate client server' = negotiate client' server.
Proof.
  intros Hc Hs. exists client, server.
  by rewrite !kexinit_decode_encode.
Qed.

Definition default_algorithms : KexAlgorithms :=
  Build_KexAlgorithms DEFAULT_KEX DEFAULT_HOST_KEY DEFAULT_CIPHERS DEFAULT_CIPHERS DEFAULT_MACS
    DEFAULT_MACS DEFAULT_COMP DEFAULT_COMP [] [].
Definition default_client : KexInit :=
  with_ext_info_marker Client (from_algorithms default_algorithms (replicate 16 Byte.x41)).
Definition default_server : KexInit :=
  with_ext_info_marker Server (from_algorithms default_algorithms (replicate 16 Byte.x42)).

(** Boolean form of [name_ok]. *)
Definition name_okb (n : bytes) : bool :=
  negb (is_nil n) && negb (List.existsb (Byte.eqb comma) n) && (len n <=? MAX_NAME_LEN) &&
  List.forallb (λ b, in_range 0x21 (u8 b) 0x7e) n.

Lemma name_okb_ok names : List.forallb name_okb names = true → Forall name_ok names.
Proof.
  rewrite List.forallb_forall, list.Forall_forall. intros H x Hx%list_elem_of_In. specialize (H x Hx).
  unfold name_okb in H. zbool. unfold name_ok. split; [by destruct x|]. split.
  - intros Hc%list_elem_of_In. assert (List.existsb (Byte.eqb comma) x = true) as E.
    { apply List.existsb_exists. exists comma. split; [done|]. by apply Byte.byte_dec_lb. }
    congruence.
  - split; [done|]. apply List.Forall_forall, List.forallb_forall. done.
Qed.

Lemma default_wf : kexinit_wf default_client ∧ kexinit_wf default_server.
Proof.
  split; (split; [vm_compute; reflexivity|]; split;
    [repeat (apply Forall_cons_2; [split; [apply name_okb_ok; vm_compute; reflexivity
       | vm_compute; split; discriminate]|]); apply Forall_nil_2
    | vm_compute; discriminate]).
Qed.

Lemma kexinit_agreement_witness :
  ∃ n, negotiate default_client default_server = Ok n ∧ ng_strict_kex_enabled n = true ∧
    ng_kex n = bs "mlkem768x25519-sha256" ∧
  ∃ client' server', kexinit_decode (kexinit_encode default_client) = Ok client' ∧
    kexinit_decode (kexinit_encode default_server) = Ok server' ∧
    client' = default_client ∧ server' = default_server ∧
    negotiate default_client server' = negotiate client' default_server.
Proof.
  destruct (negotiate default_client default_server) as [n|e] eqn:E; [|vm_compute in E; discriminate E].
  exists n. vm_compute in E. injection E as <-.
  split; [reflexivity|]. split; [reflexivity|]. split; [reflexivity|].
  exact (kexinit_agreement default_client default_server (proj1 default_wf) (proj2 default_wf)).
Defined.

(** ** EXT_INFO, PING and the identification line *)

(** The value the last pair of that name carries. *)
Definition last_value (name : bytes) (raw : list (bytes * bytes)) : option bytes :=
  fold_left (λ acc p, if bytes_eqb p.1 name then Some p.2 else acc) raw None.

Definition pair_bytes (p : bytes * bytes) : bytes :=
  (be_bytes 4 (wrap32 (len p.1)) ++ p.1) ++ (be_bytes 4 (wrap32 (len p.2)) ++ p.2).

Definition pair_ok (p : bytes * bytes) : Prop :=
  utf8_valid p.1 = true ∧ utf8_valid p.2 = true ∧ is_u32 (len p.1) ∧ is_u32 (len p.2).

Lemma ext_info_encode_eq e :
  ext_info_encode e =
  byte_of_Z SSH_MSG_EXT_INFO :: be_bytes 4 (len (ei_raw e)) ++ concat (pair_bytes <$> ei_raw e).
Proof.
  unfold ext_info_encode.
  assert (H : ∀ raw w, into_vec (fold_left (λ w p, w |>> write_string p.1 |>> write_string p.2) raw w) =
    w_buf w ++ concat (pair_bytes <$> raw)).
  { induction raw as [|p raw IH]; intros w; cbn [fold_left fmap list_fmap concat].
    - by rewrite app_nil_r.
    - rewrite IH. unfold pair_bytes. writer_norm. done. }
  rewrite H. done.
Qed.

(** One pair read into the structure. *)
Definition ext_add (out : ExtInfo) (p : bytes * bytes) : ExtInfo :=
  (if bytes_eqb p.1 SERVER_SIG_ALGS then out <| server_sig_algs := Some p.2 |>
   else if bytes_eqb p.1 PUBLICKEY_ALGS_IN_USE then out <| publickey_algorithms_in_use := Some p.2 |>
   else out) <| ei_raw := ei_raw out ++ [p] |>.

Lemma ext_info_pairs_at raw pre post out :
  fits_mem (pre ++ concat (pair_bytes <$> raw) ++ post) → Forall pair_ok raw →
  ext_info_pairs (length raw) (reader_at pre (concat (pair_bytes <$> raw) ++ post)) out =
    Ok (fold_left ext_add raw out, reader_at (pre ++ concat (pair_bytes <$> raw)) post).
Proof.
  revert pre out. induction raw as [|[name value] raw IH]; intros pre out Hm Hall.
  { cbn. by rewrite app_nil_r. }
  apply list.Forall_cons in Hall as [(Hu1 & Hu2 & Hl1 & Hl2) Hall]. cbn [fst snd] in *.
  cbn [length ext_info_pairs fmap list_fmap concat] in *. unfold pair_bytes at 1. cbn [fst snd].
  unfold pair_bytes at 1 in Hm. cbn [fst snd] in Hm. rewrite <- !app_assoc in Hm |- *.
  rewrite read_string_at by (first [exact Hm | done]).
  rewrite read_string_at by (first [solve_mem | done]).
  rewrite !from_utf8_ok by done. rewrite IH by (first [solve_mem | done]).
  cbn [fold_left]. f_equal. f_equal.
  - f_equal. unfold ext_add. cbn [fst snd]. by repeat case_match.
  - unfold pair_bytes at 2. cbn [fst snd]. by rewrite <- !app_assoc.
Qed.

Lemma ext_fold raw out :
  fold_left ext_add raw out =
  Build_ExtInfo
    (fold_left (λ acc p, if bytes_eqb p.1 SERVER_SIG_ALGS then Some p.2 else acc) raw (server_sig_algs out))
    (fold_left (λ acc p, if bytes_eqb p.1 PUBLICKEY_ALGS_IN_USE then Some p.2 else acc) raw
       (publickey_algorithms_in_use out))
    (ei_raw out ++ raw).
Proof.
  revert out. induction raw as [|p raw IH]; intros out; cbn [fold_left].
  - rewrite app_nil_r. by destruct out.
  - rewrite IH. unfold ext_add. destruct (bytes_eqb_spec p.1 SERVER_SIG_ALGS) as [E|E].
    + rewrite E. unfold set_field. cbn. by rewrite <- app_assoc.
    + destruct (bytes_eqb p.1 PUBLICKEY_ALGS_IN_USE); unfold set_field; cbn; by rewrite <- app_assoc.
Qed.

(** EXT_INFO round trip: any list of at most 1024 text pairs that was
    encoded is decoded to the same pairs in the same order, and the two known
    extensions are the values of their last pair. *)
Theorem ext_info_roundtrip e :
  Forall pair_ok (ei_raw e) → len (ei_raw e) ≤ 1024 → fits_mem (ext_info_encode e) →
  ext_info_decode (ext_info_encode e) =
    Ok (Build_ExtInfo (last_value SERVER_SIG_ALGS (ei_raw e))
          (last_value PUBLICKEY_ALGS_IN_USE (ei_raw e)) (ei_raw e)).
Proof.
  intros Hall Hn Hm. rewrite ext_info_encode_eq in *. unfold ext_info_decode, SSH_MSG_EXT_INFO in *.
  rewrite reader_new_at, read_u8_at by (first [exact Hm | width_lia]). cbn [negb Z.eqb Pos.eqb app].
  pose proof (len_nonneg (ei_raw e)).
  rewrite read_u32_at by (first [solve_mem | width_lia]). replace (len (ei_raw e) >? 1024) with false by lia.
  replace (Z.to_nat (len (ei_raw e))) with (length (ei_raw e)) by (unfold len; lia).
  rewrite <- (app_nil_r (concat _)).
  rewrite ext_info_pairs_at by (rewrite ?app_nil_r; first [solve_mem | done]).
  unfold reader_is_empty. rewrite remaining_at. cbn [negb len length Z.of_nat Z.eqb].
  by rewrite ext_fold.
Qed.

Definition demo_ext_info : ExtInfo :=
  with_extension (bs "ping@openssh.com") (bs "0")
    (with_server_sig_algs (bs "ssh-ed25519,rsa-sha2-512") ext_info_new).

Lemma ext_info_roundtrip_witness :
  ext_info_decode (ext_info_encode demo_ext_info) = Ok demo_ext_info.
Proof.
  refine (ext_info_roundtrip demo_ext_info _ _ _).
  - repeat (apply Forall_cons_2; [vm_compute; repeat split; discriminate|]). apply Forall_nil_2.
  - vm_compute. discriminate.
  - vm_compute. discriminate.
Defined.

(** A PING is answered with a PONG that carries the same data. *)
Theorem ping_pong data :
  is_u32 (len data) → pong_for_ping (encode_ping data) = Ok (encode_pong data).
Proof.
  intros Hd. assert (Hm : fits_mem (encode_ping data)).
  { unfold fits_mem, encode_ping. autorewrite with lens. width_lia. }
  unfold pong_for_ping. unfold encode_ping in *. rewrite reader_new_at.
  rewrite read_u8_at by (first [exact Hm | unfold SSH_MSG_PING; width_lia]).
  cbn [SSH_MSG_PING Z.eqb Pos.eqb negb].
  rewrite <- (app_nil_r data) at 2. rewrite read_string_at by (first [rewrite app_nil_r; solve_mem | done]).
  done.
Qed.

Lemma ping_pong_witness : pong_for_ping (encode_ping (bs "alive")) = Ok (encode_pong (bs "alive")).
Proof. apply (ping_pong (bs "alive")). vm_compute. split; discriminate. Defined.
