(* ===== verification/KexHash.v ===== *)
(** * Exchange hash and key derivation (src/hazmat/kex/hash.rs)

    [ExchangeHash] (the builder of the exchange hash), [mpint_bytes] and
    [derive]; the back ends of the runner with the hash each one uses.  The
    hash functions are the operations of [KexHash]. *)
From S2P Require Import Prelude Wire Crypto.

Inductive KdfHash := KSha1 | KSha256 | KSha384 | KSha512.
Definition kdf_hash_len (D : KdfHash) : Z :=
  match D with KSha1 => 20 | KSha256 => 32 | KSha384 => 48 | KSha512 => 64 end.

(** One-shot form of [D::new], [update]* and [finalize]. *)
Class KexHash := kex_digest : KdfHash → bytes → bytes.
Class KexHashLaws {H : KexHash} := kex_digest_len D m : len (kex_digest D m) = kdf_hash_len D.
Arguments KexHashLaws : clear implicits.

Inductive KexBackend :=
  | Curve25519 | EcdhP256 | EcdhP384 | EcdhP521 | Dh14 | Dh16 | Dh18 | Gex
  | Dh1Sha1 | Dh14Sha1 | GexSha1 | MlKem768X25519 | MlKem768Nistp256 | Sntrup761X25519.

Definition backend_from_name (name : bytes) : result KexBackend :=
  if bytes_eqb name (bs "curve25519-sha256") || bytes_eqb name (bs "curve25519-sha256@libssh.org")
  then Ok Curve25519
  else if bytes_eqb name (bs "ecdh-sha2-nistp256") then Ok EcdhP256
  else if bytes_eqb name (bs "ecdh-sha2-nistp384") then Ok EcdhP384
  else if bytes_eqb name (bs "ecdh-sha2-nistp521") then Ok EcdhP521
  else if bytes_eqb name (bs "diffie-hellman-group14-sha256") then Ok Dh14
  else if bytes_eqb name (bs "diffie-hellman-group16-sha512") then Ok Dh16
  else if bytes_eqb name (bs "diffie-hellman-group18-sha512") then Ok Dh18
  else if bytes_eqb name (bs "diffie-hellman-group-exchange-sha256") then Ok Gex
  else if bytes_eqb name (bs "diffie-hellman-group1-sha1") then Ok Dh1Sha1
  else if bytes_eqb name (bs "diffie-hellman-group14-sha1") then Ok Dh14Sha1
  else if bytes_eqb name (bs "diffie-hellman-group-exchange-sha1") then Ok GexSha1
  else if bytes_eqb name (bs "mlkem768x25519-sha256") then Ok MlKem768X25519
  else if bytes_eqb name (bs "mlkem768nistp256-sha256") then Ok MlKem768Nistp256
  else if bytes_eqb name (bs "sntrup761x25519-sha512") ||
          bytes_eqb name (bs "sntrup761x25519-sha512@openssh.com") then Ok Sntrup761X25519
  else Err (Unsupported "KEX algorithm").


(** ** Derivation *)

Section Derive.
Context {H : KexHash}.

(** The loop of [derive], at most [fuel] turns. *)
Fixpoint derive_loop (fuel : nat) (D : KdfHash) (k_mpint h : bytes) (out_len : Z) (out : bytes) : bytes :=
  match fuel with
  | O => out
  | S fuel =>
      if len out <? out_len then
        derive_loop fuel D k_mpint h out_len (out ++ kex_digest D (k_mpint ++ h ++ out))
      else out
  end.

Definition derive (D : KdfHash) (k_mpint h session_id : bytes) (letter : byte) (out_len : Z) : bytes :=
  if out_len =? 0 then [] else
  let first := kex_digest D (k_mpint ++ h ++ [letter] ++ session_id) in
  take (Z.to_nat out_len) (derive_loop (Z.to_nat out_len) D k_mpint h out_len first).

Definition mpint_bytes (magnitude : bytes) : bytes :=
  let m := strip_zeros magnitude in
  match m with
  | [] => be_bytes 4 0
  | b :: _ =>
      if negb (Z.land (u8 b) 128 =? 0) then be_bytes 4 (wrap32 (len m + 1)) ++ [Byte.x00] ++ m
      else be_bytes 4 (wrap32 (len m)) ++ m
  end.

(** [ExchangeHash]: the builder is the bytes fed to the hasher so far. *)
Definition ExchangeHash := bytes.
Definition eh_new : ExchangeHash := [].
Definition eh_write_string (s : bytes) (eh : ExchangeHash) : ExchangeHash :=
  eh ++ be_bytes 4 (wrap32 (len s)) ++ s.
Definition eh_write_u32 (v : Z) (eh : ExchangeHash) : ExchangeHash := eh ++ be_bytes 4 v.
Definition eh_write_mpint (magnitude : bytes) (eh : ExchangeHash) : ExchangeHash :=
  match strip_zeros magnitude with
  | [] => eh_write_u32 0 eh
  | (b :: _) as m =>
      if negb (Z.land (u8 b) 128 =? 0)
      then eh_write_u32 (wrap32 (len m + 1)) eh ++ [Byte.x00] ++ m
      else eh_write_u32 (wrap32 (len m)) eh ++ m
  end.
Definition eh_finalize (D : KdfHash) (eh : ExchangeHash) : bytes := kex_digest D eh.

Definition kdf_hash (backend : KexBackend) : KdfHash :=
  match backend with
  | Curve25519 | EcdhP256 | Dh14 | Gex | MlKem768X25519 | MlKem768Nistp256 => KSha256
  | EcdhP384 => KSha384
  | Dh1Sha1 | Dh14Sha1 | GexSha1 => KSha1
  | EcdhP521 | Dh16 | Dh18 | Sntrup761X25519 => KSha512
  end.

Definition kdf (backend : KexBackend) (k h sid : bytes) (letter : byte) (n : Z) : bytes :=
  derive (kdf_hash backend) k h sid letter n.
End Derive.

(** ** What derivation yields *)

(** The hash of an integer is that of its [mpint] encoding. *)
Lemma eh_write_mpint_bytes m eh : eh_write_mpint m eh = eh ++ mpint_bytes m.
Proof.
  unfold eh_write_mpint, mpint_bytes, eh_write_u32. destruct (strip_zeros m) as [|b m']; [done|].
  destruct (negb _); by rewrite <- ?app_assoc.
Qed.

(** Two magnitudes without leading zeros that denote the same integer are the
    same bytes, so every encoder of an [mpint] depends on the integer only. *)
Lemma strip_zeros_value_inj m m' : be_value m = be_value m' → strip_zeros m = strip_zeros m'.
Proof.
  assert (Hlen : ∀ x y, be_value x = be_value y → len (strip_zeros x) ≤ len (strip_zeros y)).
  { intros x y E. rewrite <- (strip_zeros_value x), <- (strip_zeros_value y) in E.
    destruct (strip_zeros x) as [|b x'] eqn:Ex; [pose proof (len_nonneg (strip_zeros y)); by rewrite len_nil|].
    pose proof (strip_zeros_head _ _ _ Ex) as Hb. pose proof (u8_range b).
    pose proof (be_value_range (strip_zeros y)) as Hy. rewrite <- E, be_value_cons in Hy.
    pose proof (be_value_range x'). pose proof (len_nonneg x'). rewrite len_cons.
    destruct (Z.le_gt_cases (1 + len x') (len (strip_zeros y))); [done|].
    assert (256 ^ len (strip_zeros y) ≤ 256 ^ len x') by (apply Z.pow_le_mono_r; lia). nia. }
  intros E. pose proof (Hlen _ _ E) as H1. pose proof (Hlen _ _ (eq_sym E)) as H2.
  assert (Hl : length (strip_zeros m) = length (strip_zeros m')) by (unfold len in *; lia).
  rewrite <- (be_bytes_value (strip_zeros m)), <- (be_bytes_value (strip_zeros m')).
  by rewrite !strip_zeros_value, E, Hl.
Qed.

Lemma mpint_bytes_value_inj m m' : be_value m = be_value m' → mpint_bytes m = mpint_bytes m'.
Proof. intros E. unfold mpint_bytes. by rewrite (strip_zeros_value_inj _ _ E). Qed.

Section DeriveFacts.
Context {H : KexHash} {HL : KexHashLaws H}.

(** RFC 4253 section 7.2: [K1 || K2 || ...], the first [i + 1] blocks. *)
Fixpoint key_stream (D : KdfHash) (k_mpint h session_id : bytes) (letter : byte) (i : nat) : bytes :=
  match i with
  | O => kex_digest D (k_mpint ++ h ++ [letter] ++ session_id)
  | S i =>
      key_stream D k_mpint h session_id letter i ++
      kex_digest D (k_mpint ++ h ++ key_stream D k_mpint h session_id letter i)
  end.

Lemma kdf_hash_len_pos D : 20 ≤ kdf_hash_len D.
Proof. destruct D; cbn; lia. Qed.

Lemma len_key_stream D k h sid letter i :
  len (key_stream D k h sid letter i) = kdf_hash_len D * (Z.of_nat i + 1).
Proof.
  induction i as [|i IH]; cbn [key_stream].
  - rewrite kex_digest_len. lia.
  - rewrite len_app, IH, kex_digest_len. lia.
Qed.

(** The loop walks along the stream and stops at a block that is enough. *)
Lemma derive_loop_stream fuel D k h sid letter out_len i :
  out_len - len (key_stream D k h sid letter i) ≤ Z.of_nat fuel →
  ∃ j, derive_loop fuel D k h out_len (key_stream D k h sid letter i) = key_stream D k h sid letter j ∧
    out_len ≤ len (key_stream D k h sid letter j).
Proof.
  revert i. induction fuel as [|fuel IH]; intros i Hf; cbn [derive_loop].
  - exists i. split; [done|lia].
  - destruct (len (key_stream D k h sid letter i) <? out_len) eqn:E; zbool.
    + apply (IH (S i)). pose proof (kdf_hash_len_pos D). rewrite len_key_stream in Hf |- *. nia.
    + exists i. done.
Qed.

Lemma key_stream_prefix D k h sid letter i j :
  (i ≤ j)%nat → ∃ more, key_stream D k h sid letter j = key_stream D k h sid letter i ++ more.
Proof.
  induction 1 as [|j _ (more & IH)]; [exists []; by rewrite app_nil_r|].
  exists (more ++ kex_digest D (k ++ h ++ key_stream D k h sid letter j)). by rewrite app_assoc, <- IH.
Qed.

Lemma key_stream_take D k h sid letter n i j :
  n ≤ len (key_stream D k h sid letter i) → n ≤ len (key_stream D k h sid letter j) →
  take (Z.to_nat n) (key_stream D k h sid letter i) = take (Z.to_nat n) (key_stream D k h sid letter j).
Proof.
  intros Hi Hj. destruct (le_ge_dec i j) as [Hle|Hle];
    destruct (key_stream_prefix D k h sid letter _ _ Hle) as (more & E); rewrite E;
    rewrite take_app_le; try done; unfold len in *; lia.
Qed.

Lemma derive_stream D k h sid letter n i :
  0 ≤ n → n ≤ len (key_stream D k h sid letter i) →
  derive D k h sid letter n = take (Z.to_nat n) (key_stream D k h sid letter i).
Proof.
  intros Hn Hi. unfold derive. destruct (n =? 0) eqn:E; zbool; [by subst n|].
  destruct (derive_loop_stream (Z.to_nat n) D k h sid letter n 0) as (j & Ej & Hj).
  { pose proof (len_nonneg (key_stream D k h sid letter 0)). lia. }
  change (kex_digest D (k ++ h ++ [letter] ++ sid)) with (key_stream D k h sid letter 0).
  rewrite Ej. by apply key_stream_take.
Qed.

Lemma len_derive D k h sid letter n : 0 ≤ n → len (derive D k h sid letter n) = n.
Proof.
  intros Hn. assert (Hi : n ≤ len (key_stream D k h sid letter (Z.to_nat n))).
  { rewrite len_key_stream. pose proof (kdf_hash_len_pos D). nia. }
  rewrite (derive_stream _ _ _ _ _ _ (Z.to_nat n)) by done. apply len_take. lia.
Qed.
End DeriveFacts.

(** Key derivation is RFC 4253's: [derive] returns exactly the requested
    number of bytes, for any number, and they are the first bytes of
    [K1 || K2 || ...] with [K1 = HASH(K || H || letter || session_id)] and
    [K(n+1) = HASH(K || H || K1 || ... || Kn)]. *)
Theorem derive_rfc4253 {H : KexHash} {HL : KexHashLaws H} D k h sid letter n i :
  0 ≤ n → n ≤ kdf_hash_len D * (Z.of_nat i + 1) →
  len (derive D k h sid letter n) = n ∧
  derive D k h sid letter n = take (Z.to_nat n) (key_stream D k h sid letter i).
Proof.
  intros Hn Hi. split; [by apply len_derive|]. apply derive_stream; [done|]. by rewrite len_key_stream.
Qed.

Definition demo_hash : KexHash := λ D m, Crypto.pad_to (Z.to_nat (kdf_hash_len D)) m.
Lemma demo_hash_laws : KexHashLaws demo_hash.
Proof. intros D m. unfold kex_digest, demo_hash. rewrite Crypto.len_pad_to. by destruct D. Qed.

Lemma derive_rfc4253_witness :
  len (@derive demo_hash KSha256 (bs "K") (bs "H") (bs "S") "C"%byte 64) = 64 ∧
  @derive demo_hash KSha256 (bs "K") (bs "H") (bs "S") "C"%byte 64 =
    take 64 (@key_stream demo_hash KSha256 (bs "K") (bs "H") (bs "S") "C"%byte 1).
Proof.
  apply (@derive_rfc4253 demo_hash demo_hash_laws KSha256 (bs "K") (bs "H") (bs "S") "C"%byte 64 1).
  - lia.
  - vm_compute. discriminate.
Defined.
