(* ===== verification/KexMethods.v ===== *)
(** * Key exchange methods (src/hazmat/kex)

    One Module per method: curve25519, ECDH on the NIST curves, fixed-group
    Diffie-Hellman, group exchange, and the three hybrids.  Each has
    [client_init], [server_reply] and [client_finish] (group exchange two more
    steps).  The curves, the modular groups, ML-KEM and Streamlined NTRU Prime
    are the operations of [KexPrims]; a random number generator is a stream
    of bytes ([Rng]), consumed by the operations that draw from it. *)
From S2P Require Import Prelude Wire Crypto Packet KexHash.

Definition SSH_MSG_KEX_ECDH_INIT : Z := 30.
Definition SSH_MSG_KEX_ECDH_REPLY : Z := 31.
Definition SSH_MSG_KEX_DH_GEX_GROUP : Z := 31.
Definition SSH_MSG_KEX_DH_GEX_INIT : Z := 32.
Definition SSH_MSG_KEX_DH_GEX_REPLY : Z := 33.
Definition SSH_MSG_KEX_DH_GEX_REQUEST : Z := 34.

Record KexContext := { cx_v_c : bytes; cx_v_s : bytes; cx_i_c : bytes; cx_i_s : bytes }.
Record KexOutput := { ko_k : bytes; ko_h : bytes }.

(** [&dyn HostKeyVerify]: data and signature. *)
Definition Verifier := bytes → bytes → result unit.

(** [CurveId]; the type is open in the crate, [CurveOther] is the rest of it. *)
Inductive CurveId := P256 | P384 | P521 | Secp256k1 | CurveOther.
#[export] Instance CurveId_eq_dec : EqDecision CurveId.
Proof. solve_decision. Defined.

(** ** The primitives *)

Class KexPrims := {
  x25519_generate : Rng → bytes * Rng;
  (** [BoxedEcdhPrivateKey], [BoxedEcdsaPublicKey] *)
  ec_priv : Type; ec_point : Type;
  ec_generate : CurveId → Rng → ec_priv * Rng;
  ec_public_key : ec_priv → ec_point;
  ec_to_sec1 : ec_point → bytes;
  ec_from_sec1 : CurveId → bytes → option ec_point;
  ec_diffie_hellman : ec_priv → ec_point → option bytes;
  (** [DhGroup], [DhPrivateKey], [DhPublicKey]; a [BoxedUint] is a [Z] *)
  DhGroup : Type; DhPriv : Type; DhPub : Type;
  dh_p : DhGroup → Z; dh_g : DhGroup → Z; dh_byte_size : DhGroup → Z;
  group14 : DhGroup; group16 : DhGroup; group18 : DhGroup;
  dh_from_custom_unchecked : (* p *) Z → (* g *) Z → (* exponent bits *) Z → option DhGroup;
  dh_generate : DhGroup → Rng → DhPriv * Rng;
  dh_public_bytes : DhPriv → bytes;
  dh_pub_from_bytes : DhGroup → bytes → option DhPub;
  dh_shared_secret : DhPriv → DhPub → option bytes;
  (** ML-KEM-768 *)
  MlKemDk : Type; MlKemEk : Type;
  mlkem_generate : Rng → (MlKemDk * MlKemEk) * Rng;
  mlkem_ek_to_bytes : MlKemEk → bytes;
  mlkem_ek_from_bytes_validated : bytes → option MlKemEk;
  mlkem_encapsulate : MlKemEk → Rng → ((* ciphertext *) bytes * (* secret *) bytes) * Rng;
  mlkem_decapsulate : MlKemDk → bytes → bytes;
  (** Streamlined NTRU Prime 761 (src/hazmat/kex/sntrup761.rs): public and secret key *)
  sntrup_keypair : Rng → (bytes * bytes) * Rng;
  sntrup_encapsulate : Rng → bytes → (bytes * bytes) * Rng;
  sntrup_decapsulate : (* ciphertext *) bytes → (* secret key *) bytes → bytes;
}.

Definition field_len (c : CurveId) : option Z :=
  match c with
  | P256 => Some 32 | P384 => Some 48 | P521 => Some 66 | Secp256k1 => Some 32
  | CurveOther => None
  end.
Definition sec1_point_len (c : CurveId) : option Z :=
  match field_len c with Some n => Some (1 + 2 * n) | None => None end.

(** ** Pieces the methods share *)

(** [payload.extend(len.to_be_bytes()); payload.extend(bytes)] *)
Definition push_string (s payload : bytes) : bytes := payload ++ be_bytes 4 (wrap32 (len s)) ++ s.

(** The five fields every exchange hash begins with. *)
Definition eh_begin (ctx : KexContext) (k_s : bytes) : ExchangeHash :=
  eh_new |>> eh_write_string (cx_v_c ctx) |>> eh_write_string (cx_v_s ctx)
    |>> eh_write_string (cx_i_c ctx) |>> eh_write_string (cx_i_s ctx) |>> eh_write_string k_s.

(** [SSH_MSG_KEX_*_REPLY] with its host key, value and signature. *)
Definition reply_message (msg : Z) (k_s value sig : bytes) : bytes :=
  [byte_of_Z msg] |>> push_string k_s |>> push_string value |>> push_string sig.

(** [host_key_and_sig] (transport/runner.rs): the host key and signature of a
    reply, whatever the method. *)
Definition host_key_and_sig (reply : bytes) : option (bytes * bytes) :=
  match read_u8 (reader_new reply) with
  | Ok (_, r) =>
      match read_string r with
      | Ok (k_s, r) =>
          match read_string r with
          | Ok (_, r) => match read_string r with Ok (sig, _) => Some (k_s, sig) | Err _ => None end
          | Err _ => None
          end
      | Err _ => None
      end
  | Err _ => None
  end.

(** [expect]: a panic is an error of the step. *)
Definition expect {A} (o : option A) (msg : string) : result A := ok_or o (Crypto msg).

(** ** curve25519-sha256 (curve25519.rs) *)

Module X25519Sha256.
Section Defs.
Context {C : PureCrypto} {H : KexHash} {K : KexPrims}.

Record ClientState := { secret : bytes; q_c : bytes }.

Definition client_init (rng : Rng) : ClientState * bytes :=
  let (secret, _) := x25519_generate rng in
  let q_c := x25519_public_key secret in
  ({| secret := secret; q_c := q_c |}, [byte_of_Z SSH_MSG_KEX_ECDH_INIT] ++ be_bytes 4 32 ++ q_c).

Definition exchange_hash (ctx : KexContext) (k_s q_c q_s k_raw : bytes) : bytes :=
  eh_finalize KSha256 (eh_begin ctx k_s |>> eh_write_string q_c |>> eh_write_string q_s
                        |>> eh_write_mpint k_raw).

Definition server_reply (rng : Rng) (init_payload : bytes) (host_key : HostKey) (ctx : KexContext)
    : result (bytes * KexOutput) :=
  let? (msg, r) := read_u8 (reader_new init_payload) in
  if negb (msg =? SSH_MSG_KEX_ECDH_INIT) then Err (Protocol "expected SSH_MSG_KEX_ECDH_INIT") else
  let? (q_c, r) := read_string r in
  if negb (len q_c =? 32) then Err (Format "X25519 Q_C must be 32 bytes") else
  let (secret, _) := x25519_generate rng in
  let q_s := x25519_public_key secret in
  let? k_raw := ok_or (x25519_diffie_hellman secret q_c) (Crypto "X25519 small-order peer") in
  let k_s := public_blob host_key in
  let h := exchange_hash ctx k_s q_c q_s k_raw in
  let? sig := hk_sign host_key 0 h in
  Ok (reply_message SSH_MSG_KEX_ECDH_REPLY k_s q_s sig, {| ko_k := mpint_bytes k_raw; ko_h := h |}).

Definition client_finish (state : ClientState) (reply_payload : bytes) (verify : Verifier)
    (ctx : KexContext) : result KexOutput :=
  let? (msg, r) := read_u8 (reader_new reply_payload) in
  if negb (msg =? SSH_MSG_KEX_ECDH_REPLY) then Err (Protocol "expected SSH_MSG_KEX_ECDH_REPLY") else
  let? (k_s, r) := read_string r in
  let? (q_s, r) := read_string r in
  if negb (len q_s =? 32) then Err (Format "X25519 Q_S must be 32 bytes") else
  let? (sig, r) := read_string r in
  let? k_raw := ok_or (x25519_diffie_hellman (secret state) q_s) (Crypto "X25519 small-order peer") in
  let h := exchange_hash ctx k_s (q_c state) q_s k_raw in
  let? _ := verify h sig in
  Ok {| ko_k := mpint_bytes k_raw; ko_h := h |}.
End Defs.
End X25519Sha256.

(** ** ecdh-sha2-nistp* (ecdh.rs) *)

Module EcdhSha2.
Section Defs.
Context {H : KexHash} {K : KexPrims}.

Record ClientState := { curve : CurveId; secret : ec_priv; q_c : bytes }.

Definition client_init (curve : CurveId) (rng : Rng) : ClientState * bytes :=
  let (secret, _) := ec_generate curve rng in
  let q_c := ec_to_sec1 (ec_public_key secret) in
  ({| curve := curve; secret := secret; q_c := q_c |},
   [byte_of_Z SSH_MSG_KEX_ECDH_INIT] |>> push_string q_c).

Definition exchange_hash (D : KdfHash) (ctx : KexContext) (k_s q_c q_s k_raw : bytes) : bytes :=
  eh_finalize D (eh_begin ctx k_s |>> eh_write_string q_c |>> eh_write_string q_s
                  |>> eh_write_mpint k_raw).

Definition server_reply_inner (D : KdfHash) (curve : CurveId) (rng : Rng) (init_payload : bytes)
    (host_key : HostKey) (ctx : KexContext) : result (bytes * KexOutput) :=
  let? (msg, r) := read_u8 (reader_new init_payload) in
  if negb (msg =? SSH_MSG_KEX_ECDH_INIT) then Err (Protocol "expected SSH_MSG_KEX_ECDH_INIT") else
  let? (q_c_bytes, r) := read_string r in
  let? expected_len := ok_or (sec1_point_len curve) (Unsupported "unsupported ECDH curve") in
  if negb (len q_c_bytes =? expected_len) then Err (Format "ECDH Q_C wrong length") else
  let? peer := ok_or (ec_from_sec1 curve q_c_bytes) (Format "invalid ECDH Q_C") in
  let (secret, _) := ec_generate curve rng in
  let q_s := ec_to_sec1 (ec_public_key secret) in
  let? k_raw := ok_or (ec_diffie_hellman secret peer) (Crypto "ECDH agreement failed") in
  let k_s := public_blob host_key in
  let h := exchange_hash D ctx k_s q_c_bytes q_s k_raw in
  let? sig := hk_sign host_key 0 h in
  Ok (reply_message SSH_MSG_KEX_ECDH_REPLY k_s q_s sig, {| ko_k := mpint_bytes k_raw; ko_h := h |}).

Definition client_finish_inner (D : KdfHash) (state : ClientState) (reply_payload : bytes)
    (verify : Verifier) (ctx : KexContext) : result KexOutput :=
  let? (msg, r) := read_u8 (reader_new reply_payload) in
  if negb (msg =? SSH_MSG_KEX_ECDH_REPLY) then Err (Protocol "expected SSH_MSG_KEX_ECDH_REPLY") else
  let? (k_s, r) := read_string r in
  let? (q_s_bytes, r) := read_string r in
  let? expected_len := ok_or (sec1_point_len (curve state)) (Unsupported "unsupported ECDH curve") in
  if negb (len q_s_bytes =? expected_len) then Err (Format "ECDH Q_S wrong length") else
  let? (sig, r) := read_string r in
  let? peer := ok_or (ec_from_sec1 (curve state) q_s_bytes) (Format "invalid ECDH Q_S") in
  let? k_raw := ok_or (ec_diffie_hellman (secret state) peer) (Crypto "ECDH agreement failed") in
  let h := exchange_hash D ctx k_s (q_c state) q_s_bytes k_raw in
  let? _ := verify h sig in
  Ok {| ko_k := mpint_bytes k_raw; ko_h := h |}.

(** [ecdh_impl!]: the method of one curve checks that the state is of it. *)
Definition client_finish (crv : CurveId) (D : KdfHash) (state : ClientState) (reply_payload : bytes)
    (verify : Verifier) (ctx : KexContext) : result KexOutput :=
  if bool_decide (curve state = crv) then client_finish_inner D state reply_payload verify ctx
  else Err (Protocol "ECDH curve mismatch").
End Defs.
End EcdhSha2.

(** ** Fixed-group Diffie-Hellman (dh.rs) *)

(** [strip_leading_zero] is the loop [strip_zeros] of the wire format. *)
Definition strip_leading_zero (b : bytes) : bytes := strip_zeros b.

Definition encode_mpint_into (magnitude buf : bytes) : bytes :=
  match strip_leading_zero magnitude with
  | [] => buf ++ be_bytes 4 0
  | (b :: _) as m =>
      if negb (Z.land (u8 b) 128 =? 0)
      then buf ++ be_bytes 4 (wrap32 (len m + 1)) ++ [Byte.x00] ++ m
      else buf ++ be_bytes 4 (wrap32 (len m)) ++ m
  end.

(** The reply of the Diffie-Hellman methods carries [f] as an [mpint]. *)
Definition dh_reply_message (msg : Z) (k_s f_mag sig : bytes) : bytes :=
  [byte_of_Z msg] |>> push_string k_s |>> encode_mpint_into f_mag |>> push_string sig.

(** RFC 2409 section 6.2, Oakley group 2. *)
Definition OAKLEY_GROUP_2 : Z :=
  0xFFFFFFFFFFFFFFFFC90FDAA22168C234C4C6628B80DC1CD129024E088A67CC74020BBEA63B139B22514A08798E3404DDEF9519B3CD3A431B302B0A6DF25F14374FE1356D6D51C245E485B576625E7EC6F44C42E9A637ED6B0BFF5CB6F406B7EDEE386BFB5A899FA5AE9F24117C4B1FE649286651ECE65381FFFFFFFFFFFFFFFF.

Definition group1 {K : KexPrims} : result DhGroup :=
  expect (dh_from_custom_unchecked OAKLEY_GROUP_2 2 256) "RFC 2409 group 2 is well-formed".

Module DhFixed.
Section Defs.
Context {H : KexHash} {K : KexPrims}.

Record DhClientState := { group : DhGroup; secret : DhPriv; e_mag : bytes }.

Definition dh_client_init (group : DhGroup) (rng : Rng) : DhClientState * bytes :=
  let (secret, _) := dh_generate group rng in
  let e_mag := dh_public_bytes secret in
  ({| group := group; secret := secret; e_mag := e_mag |},
   [byte_of_Z SSH_MSG_KEX_ECDH_INIT] |>> encode_mpint_into e_mag).

Definition exchange_hash (D : KdfHash) (ctx : KexContext) (k_s e f k_mag : bytes) : bytes :=
  eh_finalize D (eh_begin ctx k_s |>> eh_write_mpint e |>> eh_write_mpint f |>> eh_write_mpint k_mag).

Definition dh_server_reply (D : KdfHash) (group : DhGroup) (rng : Rng) (init_payload : bytes)
    (host_key : HostKey) (ctx : KexContext) : result (bytes * KexOutput) :=
  let? (msg, r) := read_u8 (reader_new init_payload) in
  if negb (msg =? SSH_MSG_KEX_ECDH_INIT) then Err (Protocol "expected SSH_MSG_KEXDH_INIT") else
  let? (e_raw, r) := read_mpint r in
  let? peer := ok_or (dh_pub_from_bytes group e_raw) (Format "invalid DH e") in
  let (secret, _) := dh_generate group rng in
  let f_mag := dh_public_bytes secret in
  let? k_mag := ok_or (dh_shared_secret secret peer) (Crypto "DH agreement failed") in
  let k_s := public_blob host_key in
  let h := exchange_hash D ctx k_s e_raw f_mag k_mag in
  let? sig := hk_sign host_key 0 h in
  Ok (dh_reply_message SSH_MSG_KEX_ECDH_REPLY k_s f_mag sig, {| ko_k := mpint_bytes k_mag; ko_h := h |}).

Definition dh_client_finish (D : KdfHash) (state : DhClientState) (reply_payload : bytes)
    (verify : Verifier) (ctx : KexContext) : result KexOutput :=
  let? (msg, r) := read_u8 (reader_new reply_payload) in
  if negb (msg =? SSH_MSG_KEX_ECDH_REPLY) then Err (Protocol "expected SSH_MSG_KEXDH_REPLY") else
  let? (k_s, r) := read_string r in
  let? (f_raw, r) := read_mpint r in
  let? (sig, r) := read_string r in
  let? peer := ok_or (dh_pub_from_bytes (group state) f_raw) (Format "invalid DH f") in
  let? k_mag := ok_or (dh_shared_secret (secret state) peer) (Crypto "DH agreement failed") in
  let h := exchange_hash D ctx k_s (e_mag state) f_raw k_mag in
  let? _ := verify h sig in
  Ok {| ko_k := mpint_bytes k_mag; ko_h := h |}.
End Defs.
End DhFixed.

(** ** Group exchange (dh.rs, RFC 4419) *)

Record GexRequest := { gr_min : Z; gr_n : Z; gr_max : Z }.

Definition gex_for_strength (need_bytes : Z) : GexRequest :=
  let bits := need_bytes * 8 in
  let n := if bits <=? 112 then 2048 else if bits <=? 128 then 3072
           else if bits <=? 192 then 7680 else 8192 in
  {| gr_min := 2048; gr_n := n; gr_max := 8192 |}.
Definition gex_request_default : GexRequest := {| gr_min := 2048; gr_n := 8192; gr_max := 8192 |}.

(** [BoxedUint::bit_len]; [u8::leading_zeros] and [count_ones]. *)
Definition uint_bit_len (z : Z) : Z := if z =? 0 then 0 else Z.log2 z + 1.
Definition leading_zeros8 (b : byte) : Z := 8 - uint_bit_len (u8 b).
Definition count_ones8 (b : byte) : Z :=
  fold_left (λ n i, n + (if Z.testbit (u8 b) i then 1 else 0)) [0; 1; 2; 3; 4; 5; 6; 7] 0.

Module GexSha.
Section Defs.
Context {H : KexHash} {K : KexPrims}.

Record GexClientState := {
  request : GexRequest; group : option DhGroup; p_bytes : bytes; g_bytes : bytes;
  secret : option DhPriv; e_mag : bytes
}.

Definition group_bits (s : GexClientState) : Z :=
  match strip_zeros (p_bytes s) with
  | [] => 0
  | lead :: rest => len rest * 8 + (8 - leading_zeros8 lead)
  end.
Definition e_bits_set (s : GexClientState) : Z := fold_left (λ n b, n + count_ones8 b) (e_mag s) 0.

Definition client_request (request : GexRequest) : GexClientState * bytes :=
  ({| request := request; group := None; p_bytes := []; g_bytes := []; secret := None; e_mag := [] |},
   [byte_of_Z SSH_MSG_KEX_DH_GEX_REQUEST] ++ be_bytes 4 (gr_min request) ++ be_bytes 4 (gr_n request)
     ++ be_bytes 4 (gr_max request)).

(** [group.p().to_be_bytes(group.byte_size())] *)
Definition p_be_bytes (g : DhGroup) : bytes := be_bytes (Z.to_nat (dh_byte_size g)) (dh_p g).
Definition g_be_bytes (g : DhGroup) : bytes := be_bytes (Z.to_nat (dh_byte_size g)) (dh_g g).

Definition server_group (request_payload : bytes) (select : GexRequest → DhGroup)
    : result (GexRequest * DhGroup * bytes) :=
  let? (msg, r) := read_u8 (reader_new request_payload) in
  let? request :=
    if msg =? SSH_MSG_KEX_DH_GEX_REQUEST then
      let? (min, r) := read_u32 r in
      let? (n, r) := read_u32 r in
      let? (max, r) := read_u32 r in
      Ok {| gr_min := min; gr_n := n; gr_max := max |}
    else if msg =? 30 then
      let? (n, r) := read_u32 r in Ok {| gr_min := n; gr_n := n; gr_max := n |}
    else Err (Protocol "expected SSH_MSG_KEX_DH_GEX_REQUEST") in
  let group := select request in
  Ok (request, group,
      [byte_of_Z SSH_MSG_KEX_DH_GEX_GROUP] |>> encode_mpint_into (p_be_bytes group)
        |>> encode_mpint_into (g_be_bytes group)).

(** [bits.clamp(160, 512)] *)
Definition clamp (x lo hi : Z) : Z := Z.max lo (Z.min x hi).

Definition client_init (state : GexClientState) (group_payload : bytes) (rng : Rng)
    : result (GexClientState * bytes) :=
  let? (msg, r) := read_u8 (reader_new group_payload) in
  if negb (msg =? SSH_MSG_KEX_DH_GEX_GROUP) then Err (Protocol "expected SSH_MSG_KEX_DH_GEX_GROUP") else
  let? (p_raw, r) := read_mpint r in
  let? (g_raw, r) := read_mpint r in
  let p := be_value (strip_leading_zero p_raw) in
  let g := be_value (strip_leading_zero g_raw) in
  let bits := uint_bit_len p in
  if (bits <? gr_min (request state)) || (gr_max (request state) <? bits) then
    Err (Crypto "GEX group out of requested range") else
  let? group := ok_or (dh_from_custom_unchecked p g (clamp bits 160 512)) (Format "invalid GEX group") in
  let (secret, _) := dh_generate group rng in
  let e_mag := dh_public_bytes secret in
  Ok ({| request := request state; group := Some group; p_bytes := strip_leading_zero p_raw;
         g_bytes := strip_leading_zero g_raw; secret := Some secret; e_mag := e_mag |},
      [byte_of_Z SSH_MSG_KEX_DH_GEX_INIT] |>> encode_mpint_into e_mag).

Definition exchange_hash (D : KdfHash) (ctx : KexContext) (k_s : bytes) (req : GexRequest)
    (p g e f k_mag : bytes) : bytes :=
  eh_finalize D (eh_begin ctx k_s |>> eh_write_u32 (gr_min req) |>> eh_write_u32 (gr_n req)
    |>> eh_write_u32 (gr_max req) |>> eh_write_mpint p |>> eh_write_mpint g |>> eh_write_mpint e
    |>> eh_write_mpint f |>> eh_write_mpint k_mag).

Definition server_reply_with (D : KdfHash) (rng : Rng) (request : GexRequest) (group : DhGroup)
    (init_payload : bytes) (host_key : HostKey) (ctx : KexContext) : result (bytes * KexOutput) :=
  let? (msg, r) := read_u8 (reader_new init_payload) in
  if negb (msg =? SSH_MSG_KEX_DH_GEX_INIT) then Err (Protocol "expected SSH_MSG_KEX_DH_GEX_INIT") else
  let? (e_raw, r) := read_mpint r in
  let? peer := ok_or (dh_pub_from_bytes group e_raw) (Format "invalid GEX e") in
  let (secret, _) := dh_generate group rng in
  let f_mag := dh_public_bytes secret in
  let? k_mag := ok_or (dh_shared_secret secret peer) (Crypto "DH agreement failed") in
  let k_s := public_blob host_key in
  let h := exchange_hash D ctx k_s request (p_be_bytes group) (g_be_bytes group) e_raw f_mag k_mag in
  let? sig := hk_sign host_key 0 h in
  Ok (dh_reply_message SSH_MSG_KEX_DH_GEX_REPLY k_s f_mag sig,
      {| ko_k := mpint_bytes k_mag; ko_h := h |}).

Definition client_finish_with (D : KdfHash) (state : GexClientState) (reply_payload : bytes)
    (verify : Verifier) (ctx : KexContext) : result KexOutput :=
  let? group := ok_or (group state) (Protocol "GEX state missing group") in
  let? secret := ok_or (secret state) (Protocol "GEX state missing secret") in
  let? (msg, r) := read_u8 (reader_new reply_payload) in
  if negb (msg =? SSH_MSG_KEX_DH_GEX_REPLY) then Err (Protocol "expected SSH_MSG_KEX_DH_GEX_REPLY") else
  let? (k_s, r) := read_string r in
  let? (f_raw, r) := read_mpint r in
  let? (sig, r) := read_string r in
  let? peer := ok_or (dh_pub_from_bytes group f_raw) (Format "invalid GEX f") in
  let? k_mag := ok_or (dh_shared_secret secret peer) (Crypto "DH agreement failed") in
  let h := exchange_hash D ctx k_s (request state) (p_bytes state) (g_bytes state) (e_mag state)
             f_raw k_mag in
  let? _ := verify h sig in
  Ok {| ko_k := mpint_bytes k_mag; ko_h := h |}.
End Defs.
End GexSha.

(** ** The hybrids: a KEM next to an elliptic-curve agreement

    [K] is the hash of both secrets and is encoded as a [string], not an
    [mpint]. *)

Definition X25519_PUB_LEN : Z := 32.
Definition EK_PQ_LEN : Z := 1184.
Definition CT_PQ_LEN : Z := 1088.
Definition P256_POINT_LEN : Z := 1 + 2 * 32.
Definition SNTRUP_PUBLIC_KEY_BYTES : Z := 1158.
(** [ROUNDED_BYTES + HASH_BYTES] *)
Definition SNTRUP_CIPHERTEXT_BYTES : Z := 1039.

Section Hybrid.
Context {H : KexHash}.
(** The three modules have their own copy of these three functions. *)
Definition combine_secrets (D : KdfHash) (k_pq k_ecdh : bytes) : bytes := kex_digest D (k_pq ++ k_ecdh).
Definition k_string_bytes (k : bytes) : bytes := be_bytes 4 (wrap32 (len k)) ++ k.
Definition hybrid_exchange_hash (D : KdfHash) (ctx : KexContext) (k_s c_init s_reply k : bytes) : bytes :=
  eh_finalize D (eh_begin ctx k_s |>> eh_write_string c_init |>> eh_write_string s_reply
                  |>> eh_write_string k).
End Hybrid.

(** *** mlkem768x25519-sha256 (mlkem768x25519.rs) *)

Module MlKemX25519.
Section Defs.
Context {C : PureCrypto} {H : KexHash} {K : KexPrims}.
Definition C_INIT_LEN : Z := EK_PQ_LEN + X25519_PUB_LEN.
Definition S_REPLY_LEN : Z := CT_PQ_LEN + X25519_PUB_LEN.

Record ClientState := { x25519_secret : bytes; pq_secret : MlKemDk; c_init : bytes }.

Definition client_init (rng : Rng) : ClientState * bytes :=
  let (x25519_secret, rng) := x25519_generate rng in
  let q_c := x25519_public_key x25519_secret in
  let '((pq_secret, pq_public), _) := mlkem_generate rng in
  let c_init := mlkem_ek_to_bytes pq_public ++ q_c in
  ({| x25519_secret := x25519_secret; pq_secret := pq_secret; c_init := c_init |},
   [byte_of_Z SSH_MSG_KEX_ECDH_INIT] ++ be_bytes 4 C_INIT_LEN ++ c_init).

Definition server_reply (rng : Rng) (init_payload : bytes) (host_key : HostKey) (ctx : KexContext)
    : result (bytes * KexOutput) :=
  let? (msg, r) := read_u8 (reader_new init_payload) in
  if negb (msg =? SSH_MSG_KEX_ECDH_INIT) then Err (Protocol "expected SSH_MSG_KEX_HYBRID_INIT") else
  let? (c_init, r) := read_string r in
  if negb (len c_init =? C_INIT_LEN) then Err (Format "hybrid C_INIT wrong length") else
  let ek_bytes := take (Z.to_nat EK_PQ_LEN) c_init in
  let q_c := drop (Z.to_nat EK_PQ_LEN) c_init in
  let? ek := ok_or (mlkem_ek_from_bytes_validated ek_bytes) (Crypto "hybrid KEX agreement failed") in
  let (secret, rng) := x25519_generate rng in
  let q_s := x25519_public_key secret in
  let '((ct, k_pq), _) := mlkem_encapsulate ek rng in
  let? k_ecdh := ok_or (x25519_diffie_hellman secret q_c) (Crypto "hybrid KEX agreement failed") in
  let k := combine_secrets KSha256 k_pq k_ecdh in
  let s_reply := ct ++ q_s in
  let k_s := public_blob host_key in
  let h := hybrid_exchange_hash KSha256 ctx k_s c_init s_reply k in
  let? sig := hk_sign host_key 0 h in
  Ok (reply_message SSH_MSG_KEX_ECDH_REPLY k_s s_reply sig, {| ko_k := k_string_bytes k; ko_h := h |}).

Definition client_finish (state : ClientState) (reply_payload : bytes) (verify : Verifier)
    (ctx : KexContext) : result KexOutput :=
  let? (msg, r) := read_u8 (reader_new reply_payload) in
  if negb (msg =? SSH_MSG_KEX_ECDH_REPLY) then Err (Protocol "expected SSH_MSG_KEX_HYBRID_REPLY") else
  let? (k_s, r) := read_string r in
  let? (s_reply, r) := read_string r in
  if negb (len s_reply =? S_REPLY_LEN) then Err (Format "hybrid S_REPLY wrong length") else
  let? (sig, r) := read_string r in
  let k_pq := mlkem_decapsulate (pq_secret state) (take (Z.to_nat CT_PQ_LEN) s_reply) in
  let? k_ecdh := ok_or (x25519_diffie_hellman (x25519_secret state) (drop (Z.to_nat CT_PQ_LEN) s_reply))
                   (Crypto "hybrid KEX agreement failed") in
  let k := combine_secrets KSha256 k_pq k_ecdh in
  let h := hybrid_exchange_hash KSha256 ctx k_s (c_init state) s_reply k in
  let? _ := verify h sig in
  Ok {| ko_k := k_string_bytes k; ko_h := h |}.
End Defs.
End MlKemX25519.

(** *** mlkem768nistp256-sha256 (mlkem768nistp256.rs) *)

Module MlKemP256.
Section Defs.
Context {H : KexHash} {K : KexPrims}.
Definition C_INIT_LEN : Z := EK_PQ_LEN + P256_POINT_LEN.
Definition S_REPLY_LEN : Z := CT_PQ_LEN + P256_POINT_LEN.

Record ClientState := { ec_secret : ec_priv; pq_secret : MlKemDk; c_init : bytes }.

Definition p256_agree (secret : ec_priv) (peer : bytes) : result bytes :=
  let? peer := ok_or (ec_from_sec1 P256 peer) (Format "invalid hybrid ECDH point") in
  ok_or (ec_diffie_hellman secret peer) (Crypto "hybrid KEX agreement failed").

Definition client_init (rng : Rng) : ClientState * bytes :=
  let (ec_secret, rng) := ec_generate P256 rng in
  let '((pq_secret, pq_public), _) := mlkem_generate rng in
  let c_init := mlkem_ek_to_bytes pq_public ++ ec_to_sec1 (ec_public_key ec_secret) in
  ({| ec_secret := ec_secret; pq_secret := pq_secret; c_init := c_init |},
   [byte_of_Z SSH_MSG_KEX_ECDH_INIT] ++ be_bytes 4 C_INIT_LEN ++ c_init).

Definition server_reply (rng : Rng) (init_payload : bytes) (host_key : HostKey) (ctx : KexContext)
    : result (bytes * KexOutput) :=
  let (ec_secret, rng) := ec_generate P256 rng in
  let? (msg, r) := read_u8 (reader_new init_payload) in
  if negb (msg =? SSH_MSG_KEX_ECDH_INIT) then Err (Protocol "expected SSH_MSG_KEX_HYBRID_INIT") else
  let? (c_init, r) := read_string r in
  if negb (len c_init =? C_INIT_LEN) then Err (Format "hybrid C_INIT wrong length") else
  let? ek := ok_or (mlkem_ek_from_bytes_validated (take (Z.to_nat EK_PQ_LEN) c_init))
               (Crypto "hybrid KEX agreement failed") in
  let? k_ecdh := p256_agree ec_secret (drop (Z.to_nat EK_PQ_LEN) c_init) in
  let '((ct, k_pq), _) := mlkem_encapsulate ek rng in
  let k := combine_secrets KSha256 k_pq k_ecdh in
  let s_reply := ct ++ ec_to_sec1 (ec_public_key ec_secret) in
  let k_s := public_blob host_key in
  let h := hybrid_exchange_hash KSha256 ctx k_s c_init s_reply k in
  let? sig := hk_sign host_key 0 h in
  Ok (reply_message SSH_MSG_KEX_ECDH_REPLY k_s s_reply sig, {| ko_k := k_string_bytes k; ko_h := h |}).

Definition client_finish (state : ClientState) (reply_payload : bytes) (verify : Verifier)
    (ctx : KexContext) : result KexOutput :=
  let? (msg, r) := read_u8 (reader_new reply_payload) in
  if negb (msg =? SSH_MSG_KEX_ECDH_REPLY) then Err (Protocol "expected SSH_MSG_KEX_HYBRID_REPLY") else
  let? (k_s, r) := read_string r in
  let? (s_reply, r) := read_string r in
  if negb (len s_reply =? S_REPLY_LEN) then Err (Format "hybrid S_REPLY wrong length") else
  let? (sig, r) := read_string r in
  let? k_ecdh := p256_agree (ec_secret state) (drop (Z.to_nat CT_PQ_LEN) s_reply) in
  let k_pq := mlkem_decapsulate (pq_secret state) (take (Z.to_nat CT_PQ_LEN) s_reply) in
  let k := combine_secrets KSha256 k_pq k_ecdh in
  let h := hybrid_exchange_hash KSha256 ctx k_s (c_init state) s_reply k in
  let? _ := verify h sig in
  Ok {| ko_k := k_string_bytes k; ko_h := h |}.
End Defs.
End MlKemP256.

(** *** sntrup761x25519-sha512 (sntrup761x25519.rs) *)

Module SntrupX25519.
Section Defs.
Context {C : PureCrypto} {H : KexHash} {K : KexPrims}.
Definition C_INIT_LEN : Z := SNTRUP_PUBLIC_KEY_BYTES + X25519_PUB_LEN.
Definition S_REPLY_LEN : Z := SNTRUP_CIPHERTEXT_BYTES + X25519_PUB_LEN.

Record ClientState := { x25519_secret : bytes; pq_secret : bytes; c_init : bytes }.

Definition client_init (rng : Rng) : ClientState * bytes :=
  let (x25519_secret, rng) := x25519_generate rng in
  let '((pk, sk), _) := sntrup_keypair rng in
  let c_init := pk ++ x25519_public_key x25519_secret in
  ({| x25519_secret := x25519_secret; pq_secret := sk; c_init := c_init |},
   [byte_of_Z SSH_MSG_KEX_ECDH_INIT] ++ be_bytes 4 C_INIT_LEN ++ c_init).

Definition server_reply (rng : Rng) (init_payload : bytes) (host_key : HostKey) (ctx : KexContext)
    : result (bytes * KexOutput) :=
  let? (msg, r) := read_u8 (reader_new init_payload) in
  if negb (msg =? SSH_MSG_KEX_ECDH_INIT) then Err (Protocol "expected SSH_MSG_KEX_ECDH_INIT") else
  let? (c_init, r) := read_string r in
  if negb (len c_init =? C_INIT_LEN) then Err (Format "hybrid C_INIT wrong length") else
  let pk := take (Z.to_nat SNTRUP_PUBLIC_KEY_BYTES) c_init in
  let q_c := drop (Z.to_nat SNTRUP_PUBLIC_KEY_BYTES) c_init in
  let '((ct, k_pq), rng) := sntrup_encapsulate rng pk in
  let (secret, _) := x25519_generate rng in
  let q_s := x25519_public_key secret in
  let? k_ecdh := ok_or (x25519_diffie_hellman secret q_c) (Crypto "hybrid KEX agreement failed") in
  let k := combine_secrets KSha512 k_pq k_ecdh in
  let s_reply := ct ++ q_s in
  let k_s := public_blob host_key in
  let h := hybrid_exchange_hash KSha512 ctx k_s c_init s_reply k in
  let? sig := hk_sign host_key 0 h in
  Ok (reply_message SSH_MSG_KEX_ECDH_REPLY k_s s_reply sig, {| ko_k := k_string_bytes k; ko_h := h |}).

Definition client_finish (state : ClientState) (reply_payload : bytes) (verify : Verifier)
    (ctx : KexContext) : result KexOutput :=
  let? (msg, r) := read_u8 (reader_new reply_payload) in
  if negb (msg =? SSH_MSG_KEX_ECDH_REPLY) then Err (Protocol "expected SSH_MSG_KEX_ECDH_REPLY") else
  let? (k_s, r) := read_string r in
  let? (s_reply, r) := read_string r in
  if negb (len s_reply =? S_REPLY_LEN) then Err (Format "hybrid S_REPLY wrong length") else
  let? (sig, r) := read_string r in
  let k_pq := sntrup_decapsulate (take (Z.to_nat SNTRUP_CIPHERTEXT_BYTES) s_reply) (pq_secret state) in
  let? k_ecdh := ok_or (x25519_diffie_hellman (x25519_secret state)
                          (drop (Z.to_nat SNTRUP_CIPHERTEXT_BYTES) s_reply))
                   (Crypto "hybrid KEX agreement failed") in
  let k := combine_secrets KSha512 k_pq k_ecdh in
  let h := hybrid_exchange_hash KSha512 ctx k_s (c_init state) s_reply k in
  let? _ := verify h sig in
  Ok {| ko_k := k_string_bytes k; ko_h := h |}.
End Defs.
End SntrupX25519.
