(* ===== verification/KexMethodFacts.v ===== *)
(** * The key exchange methods agree and authenticate

    What the primitives promise ([KexPrimsLaws]) and, against it, the contract
    every method keeps: the reply of an honest server makes the client compute
    the server's secret and exchange hash, provided its verifier accepts the
    server's signature over that hash ([method_agrees]); and a client never
    finishes without a signature its verifier accepts over the hash of both
    identification lines, both KEXINITs and the host key of the reply
    ([method_authentic]). *)
From S2P Require Import Prelude Wire WireLoop Crypto Packet KexHash KexMethods.

(** ** Laws of the primitives *)

(** A field of a key exchange message: a public value, a host key or a
    signature. *)
Definition FIELD_MAX : Z := 65536.

(** Keys generated in a group, or in another one with the same prime and
    generator, agree on a secret; public values are of a sane length. *)
Definition dh_honest {K : KexPrims} (g : DhGroup) : Prop :=
  ∀ g' r r', dh_p g' = dh_p g → dh_g g' = dh_g g →
    let a := (dh_generate g r).1 in let b := (dh_generate g' r').1 in
    len (dh_public_bytes a) ≤ FIELD_MAX ∧ len (dh_public_bytes b) ≤ FIELD_MAX ∧
    ∃ pa pb k, dh_pub_from_bytes g' (dh_public_bytes a) = Some pa ∧
      dh_pub_from_bytes g (dh_public_bytes b) = Some pb ∧
      dh_shared_secret a pb = Some k ∧ dh_shared_secret b pa = Some k.

Class KexPrimsLaws {C : PureCrypto} {K : KexPrims} := {
  x25519_honest a b : is_Some (x25519_diffie_hellman a (x25519_public_key b));
  ec_point_len c r n : sec1_point_len c = Some n → len (ec_to_sec1 (ec_public_key (ec_generate c r).1)) = n;
  ec_from_to_sec1 c r : is_Some (sec1_point_len c) →
    ec_from_sec1 c (ec_to_sec1 (ec_public_key (ec_generate c r).1)) = Some (ec_public_key (ec_generate c r).1);
  ec_agree c r r' : is_Some (sec1_point_len c) →
    ∃ k, ec_diffie_hellman (ec_generate c r).1 (ec_public_key (ec_generate c r').1) = Some k ∧
         ec_diffie_hellman (ec_generate c r').1 (ec_public_key (ec_generate c r).1) = Some k;
  (** leading zeros of a public value do not matter *)
  dh_pub_value g m m' : be_value m = be_value m' → dh_pub_from_bytes g m = dh_pub_from_bytes g m';
  dh_size g : 0 ≤ dh_p g < 256 ^ dh_byte_size g ∧ 0 ≤ dh_g g < 256 ^ dh_byte_size g ∧
              0 ≤ dh_byte_size g ≤ FIELD_MAX;
  dh_custom p g n G : dh_from_custom_unchecked p g n = Some G → dh_p G = p ∧ dh_g G = g;
  dh_group1_ok : is_Some (dh_from_custom_unchecked OAKLEY_GROUP_2 2 256);
  dh_group1_honest G : dh_from_custom_unchecked OAKLEY_GROUP_2 2 256 = Some G → dh_honest G;
  dh_group14_honest : dh_honest group14;
  dh_group16_honest : dh_honest group16;
  dh_group18_honest : dh_honest group18;
  mlkem_ek_len ek : len (mlkem_ek_to_bytes ek) = EK_PQ_LEN;
  mlkem_ek_valid r : mlkem_ek_from_bytes_validated (mlkem_ek_to_bytes (mlkem_generate r).1.2) =
                     Some (mlkem_generate r).1.2;
  mlkem_ct_len ek r : len (mlkem_encapsulate ek r).1.1 = CT_PQ_LEN;
  mlkem_correct r r' : mlkem_decapsulate (mlkem_generate r).1.1 (mlkem_encapsulate (mlkem_generate r).1.2 r').1.1
                       = (mlkem_encapsulate (mlkem_generate r).1.2 r').1.2;
  sntrup_pk_len r : len (sntrup_keypair r).1.1 = SNTRUP_PUBLIC_KEY_BYTES;
  sntrup_ct_len r pk : len (sntrup_encapsulate r pk).1.1 = SNTRUP_CIPHERTEXT_BYTES;
  sntrup_correct r r' : sntrup_decapsulate (sntrup_encapsulate r' (sntrup_keypair r).1.1).1.1
                          (sntrup_keypair r).1.2 = (sntrup_encapsulate r' (sntrup_keypair r).1.1).1.2;
}.
Arguments KexPrimsLaws : clear implicits.

(** ** The contract of a method *)

(** A host key that signs, with blobs that fit a message. *)
Definition signer_ok (hk : HostKey) : Prop :=
  len (public_blob hk) ≤ FIELD_MAX ∧ ∀ m, ∃ s, hk_sign hk 0 m = Ok s ∧ len s ≤ FIELD_MAX.

(** A reply that carries the host key and the signature and fits a packet. *)
Definition reply_carries (payload k_s sig : bytes) : Prop :=
  host_key_and_sig payload = Some (k_s, sig) ∧ len payload ≤ 4 * FIELD_MAX - 1024.

Definition method_agrees {St} (init : Rng → result (St * bytes))
    (reply : Rng → bytes → HostKey → KexContext → result (bytes * KexOutput))
    (finish : St → bytes → Verifier → KexContext → result KexOutput) : Prop :=
  ∀ rng_c rng_s hk ctx, signer_ok hk →
  ∃ st init_payload payload out sig,
    init rng_c = Ok (st, init_payload) ∧
    reply rng_s init_payload hk ctx = Ok (payload, out) ∧
    hk_sign hk 0 (ko_h out) = Ok sig ∧
    reply_carries payload (public_blob hk) sig ∧ len init_payload ≤ 2 * FIELD_MAX ∧
    ∀ verify, finish st payload verify ctx = let? _ := verify (ko_h out) sig in Ok out.

(** [h] is the hash of a transcript that begins with the context and [k_s]. *)
Definition hash_covers {H : KexHash} (D : KdfHash) (ctx : KexContext) (k_s h : bytes) : Prop :=
  ∃ rest, h = kex_digest D (eh_begin ctx k_s ++ rest).

Definition method_authentic {H : KexHash} {St} (D : KdfHash)
    (finish : St → bytes → Verifier → KexContext → result KexOutput) : Prop :=
  ∀ st payload verify ctx out, finish st payload verify ctx = Ok out →
  ∃ k_s sig, host_key_and_sig payload = Some (k_s, sig) ∧ hash_covers D ctx k_s (ko_h out) ∧
    verify (ko_h out) sig = Ok ().

(** ** Reading messages back *)

Lemma read_init_message msg v :
  is_u8 msg → len v ≤ U32_MAX →
  ∃ r1 r2, read_u8 (reader_new ([byte_of_Z msg] ++ be_bytes 4 (wrap32 (len v)) ++ v)) = Ok (msg, r1) ∧
    read_string r1 = Ok (v, r2).
Proof.
  intros Hm Hv. pose proof (len_nonneg v). rewrite reader_new_at.
  rewrite <- (app_nil_r (_ ++ _ ++ v)), <- !app_assoc.
  assert (fits_mem ([byte_of_Z msg] ++ be_bytes 4 (wrap32 (len v)) ++ v ++ [])).
  { unfold fits_mem. autorewrite with lens. lia. }
  cbn [app] in *. rewrite read_u8_at by done. eexists _, _. split; [done|].
  rewrite read_string_at; [done|done|width_lia].
Qed.

Lemma read_reply_message msg k_s v sig :
  is_u8 msg → len k_s ≤ U32_MAX → len v ≤ U32_MAX → len sig ≤ U32_MAX →
  ∃ r1 r2 r3 r4, read_u8 (reader_new (reply_message msg k_s v sig)) = Ok (msg, r1) ∧
    read_string r1 = Ok (k_s, r2) ∧ read_string r2 = Ok (v, r3) ∧ read_string r3 = Ok (sig, r4).
Proof.
  intros Hm Hk Hv Hs. pose proof (len_nonneg k_s). pose proof (len_nonneg v). pose proof (len_nonneg sig).
  unfold reply_message, push_string. rewrite reader_new_end. rewrite <- !app_assoc.
  match goal with |- context [reader_at [] ?b] => assert (Hf : fits_mem b) end.
  { unfold fits_mem. autorewrite with lens. lia. }
  cbn [app] in *. rewrite read_u8_at by done. eexists _, _, _, _. split; [done|].
  rewrite read_string_at by (first [solve_mem | width_lia]). split; [done|].
  rewrite read_string_at by (first [solve_mem | width_lia]). split; [done|].
  rewrite read_string_at by (first [solve_mem | width_lia]). done.
Qed.

Lemma len_reply_message msg k_s v sig :
  len (reply_message msg k_s v sig) = 13 + len k_s + len v + len sig.
Proof. unfold reply_message, push_string. autorewrite with lens. lia. Qed.

Lemma reply_message_carries msg k_s v sig :
  is_u8 msg → len k_s ≤ FIELD_MAX → len v ≤ FIELD_MAX + 1 → len sig ≤ FIELD_MAX →
  reply_carries (reply_message msg k_s v sig) k_s sig.
Proof.
  unfold FIELD_MAX. intros Hm Hk Hv Hs. split; [|rewrite len_reply_message; unfold FIELD_MAX; lia].
  destruct (read_reply_message msg k_s v sig) as (r1 & r2 & r3 & r4 & E1 & E2 & E3 & E4); [done|lia..|].
  unfold host_key_and_sig. by rewrite E1, E2, E3, E4.
Qed.

Lemma encode_mpint_into_string m buf : encode_mpint_into m buf = push_string (mpint_body m) buf.
Proof.
  unfold encode_mpint_into, push_string, mpint_body, strip_leading_zero.
  destruct (strip_zeros m) as [|b s]; [by rewrite app_nil_r|].
  destruct (negb _); [|done]. rewrite (len_cons Byte.x00), (Z.add_comm 1). done.
Qed.

Lemma dh_reply_message_string msg k_s f sig :
  dh_reply_message msg k_s f sig = reply_message msg k_s (mpint_body f) sig.
Proof. unfold dh_reply_message, reply_message. by rewrite encode_mpint_into_string. Qed.

Lemma eh_write_mpint_body m eh : eh_write_mpint (mpint_body m) eh = eh_write_mpint m eh.
Proof. rewrite !eh_write_mpint_bytes. f_equal. apply mpint_bytes_value_inj, mpint_body_value. Qed.

#[local] Arguments reply_message : simpl never.
#[local] Arguments dh_reply_message : simpl never.

(** Rewrites a reader in front of a message with the reads it performs. *)
Ltac read_init v :=
  match goal with |- context [read_u8 (reader_new ([byte_of_Z ?msg] ++ _))] =>
    let r1 := fresh "r" in let r2 := fresh "r" in let E1 := fresh in let E2 := fresh in
    destruct (read_init_message msg v) as (r1 & r2 & E1 & E2);
      [by vm_compute | | rewrite E1, E2] end.
Ltac read_reply :=
  match goal with |- context [read_u8 (reader_new (reply_message ?msg ?k ?v ?s))] =>
    let r1 := fresh "r" in let r2 := fresh "r" in let r3 := fresh "r" in let r4 := fresh "r" in
    let E1 := fresh in let E2 := fresh in let E3 := fresh in let E4 := fresh in
    destruct (read_reply_message msg k v s) as (r1 & r2 & r3 & r4 & E1 & E2 & E3 & E4);
      [by vm_compute | | | | rewrite E1, E2, E3, E4] end.

Ltac field_lia := autorewrite with lens; unfold FIELD_MAX in *; lia.

(** The sizes of the messages of a method. *)
Ltac sizes :=
  split; [rewrite ?dh_reply_message_string; apply reply_message_carries; [by vm_compute|field_lia..]|];
  split; [field_lia|].

Ltac kem_sizes Li Lr :=
  split; [apply reply_message_carries; [by vm_compute|field_lia|rewrite Lr; by vm_compute|field_lia]|];
  split; [rewrite len_cons, (len_app (be_bytes _ _)), len_be_bytes, Li; by vm_compute|].

Section Facts.
Context {C : PureCrypto} {CL : PureCryptoLaws C} {H : KexHash} {HL : KexHashLaws H}
        {K : KexPrims} {KL : KexPrimsLaws C K}.

Lemma x25519_both a b : ∃ k, x25519_diffie_hellman a (x25519_public_key b) = Some k ∧
                            x25519_diffie_hellman b (x25519_public_key a) = Some k.
Proof. destruct (x25519_honest a b) as [k E]. exists k. split; [done|]. by rewrite x25519_agree. Qed.

(** *** Agreement *)

Lemma x25519_method :
  method_agrees (λ r, Ok (X25519Sha256.client_init r)) X25519Sha256.server_reply X25519Sha256.client_finish.
Proof.
  intros rng_c rng_s hk ctx [Hb Hs]. unfold X25519Sha256.client_init, X25519Sha256.server_reply.
  destruct (x25519_generate rng_c) as [a ?], (x25519_generate rng_s) as [b ?].
  destruct (x25519_both a b) as (k & Ea & Eb).
  destruct (Hs (X25519Sha256.exchange_hash ctx (public_blob hk) (x25519_public_key a) (x25519_public_key b) k))
    as (sig & Es & Hl).
  eexists _, _, _, _, sig. split; [done|].
  replace (be_bytes 4 32) with (be_bytes 4 (wrap32 (len (x25519_public_key a))))
    by (by rewrite x25519_public_len).
  read_init (x25519_public_key a); [by rewrite x25519_public_len|].
  rewrite x25519_public_len, Eb. cbn [negb ok_or SSH_MSG_KEX_ECDH_INIT Z.eqb Pos.eqb].
  rewrite Es. split; [done|]. split; [done|]. sizes. intros verify.
  unfold X25519Sha256.client_finish.
  read_reply; [field_lia|by rewrite x25519_public_len|field_lia|].
  rewrite x25519_public_len. cbn [negb Z.eqb Pos.eqb X25519Sha256.secret X25519Sha256.q_c].
  cbn. rewrite Ea. cbn. done.
Qed.
Lemma ecdh_method crv D n :
  sec1_point_len crv = Some n → n ≤ FIELD_MAX →
  method_agrees (λ r, Ok (EcdhSha2.client_init crv r)) (EcdhSha2.server_reply_inner D crv)
    (EcdhSha2.client_finish crv D).
Proof.
  intros Hn Hsz rng_c rng_s hk ctx [Hb Hs]. assert (Hc : is_Some (sec1_point_len crv)) by (by eexists).
  unfold EcdhSha2.client_init, EcdhSha2.server_reply_inner.
  destruct (ec_agree crv rng_c rng_s Hc) as (k & Ea & Eb).
  pose proof (ec_point_len crv rng_c n Hn) as La. pose proof (ec_point_len crv rng_s n Hn) as Lb.
  pose proof (ec_from_to_sec1 crv rng_c Hc) as Fa. pose proof (ec_from_to_sec1 crv rng_s Hc) as Fb.
  destruct (ec_generate crv rng_c) as [a ?], (ec_generate crv rng_s) as [b ?]. cbn [fst] in *.
  destruct (Hs (EcdhSha2.exchange_hash D ctx (public_blob hk) (ec_to_sec1 (ec_public_key a))
    (ec_to_sec1 (ec_public_key b)) k)) as (sig & Es & Hl).
  eexists _, _, _, _, sig. split; [done|]. unfold push_string.
  read_init (ec_to_sec1 (ec_public_key a)); [field_lia|].
  rewrite Hn. cbn [ok_or]. rewrite La, !Z.eqb_refl, Fa. cbn. rewrite Eb. cbn. rewrite Es.
  split; [done|]. split; [done|]. sizes. intros verify.
  unfold EcdhSha2.client_finish, EcdhSha2.client_finish_inner. cbn [EcdhSha2.curve].
  rewrite bool_decide_eq_true_2 by done. read_reply; [field_lia..|].
  rewrite Hn. cbn [ok_or]. rewrite Lb, !Z.eqb_refl, Fb. cbn. rewrite Ea. cbn. done.
Qed.

Lemma dh_method D g :
  dh_honest g → method_agrees (λ r, Ok (DhFixed.dh_client_init g r)) (DhFixed.dh_server_reply D g)
                  (DhFixed.dh_client_finish D).
Proof.
  intros Hg rng_c rng_s hk ctx [Hb Hs]. unfold DhFixed.dh_client_init, DhFixed.dh_server_reply.
  destruct (Hg g rng_c rng_s eq_refl eq_refl) as (La & Lb & pa & pb & k & Fa & Fb & Ea & Eb).
  destruct (dh_generate g rng_c) as [a ?], (dh_generate g rng_s) as [b ?]. cbn [fst] in *.
  pose proof (mpint_body_len (dh_public_bytes a)). pose proof (mpint_body_len (dh_public_bytes b)).
  destruct (Hs (DhFixed.exchange_hash D ctx (public_blob hk) (dh_public_bytes a) (dh_public_bytes b) k))
    as (sig & Es & Hl).
  eexists _, _, _, _, sig. split; [done|]. rewrite encode_mpint_into_string. unfold push_string, read_mpint.
  read_init (mpint_body (dh_public_bytes a)); [field_lia|]. cbn.
  rewrite (dh_pub_value _ _ _ (mpint_body_value _)), Fa. cbn. rewrite Eb. cbn.
  unfold DhFixed.exchange_hash at 1 2. rewrite eh_write_mpint_body.
  unfold DhFixed.exchange_hash in Es. rewrite Es. split; [done|]. split; [done|]. sizes. intros verify.
  unfold DhFixed.dh_client_finish, read_mpint. rewrite dh_reply_message_string.
  read_reply; [field_lia|field_lia|field_lia|]. cbn. rewrite (dh_pub_value _ _ _ (mpint_body_value _)), Fb. cbn.
  rewrite Ea. cbn. unfold DhFixed.exchange_hash. by rewrite eh_write_mpint_body.
Qed.

Lemma take_len_app {A} (a b : list A) n : len a = n → take (Z.to_nat n) (a ++ b) = a.
Proof. intros <-. unfold len. by rewrite Nat2Z.id, take_app_length. Qed.
Lemma drop_len_app {A} (a b : list A) n : len a = n → drop (Z.to_nat n) (a ++ b) = b.
Proof. intros <-. unfold len. by rewrite Nat2Z.id, drop_app_length. Qed.

Lemma mlkem_x25519_method :
  method_agrees (λ r, Ok (MlKemX25519.client_init r)) MlKemX25519.server_reply MlKemX25519.client_finish.
Proof.
  intros rng_c rng_s hk ctx [Hb Hs]. unfold MlKemX25519.client_init, MlKemX25519.server_reply.
  destruct (x25519_generate rng_c) as [a rc], (x25519_generate rng_s) as [b rs].
  destruct (x25519_both a b) as (k & Ea & Eb).
  pose proof (mlkem_ek_valid rc) as Hv. pose proof (mlkem_correct rc rs) as Hc.
  pose proof (mlkem_ct_len (mlkem_generate rc).1.2 rs) as Hct.
  destruct (mlkem_generate rc) as [[dk ek] ?]. cbn [fst snd] in *.
  pose proof (mlkem_ek_len ek) as Hek.
  destruct (mlkem_encapsulate ek rs) as [[ct ss] ?] eqn:Eenc. cbn [fst snd] in *.
  destruct (Hs (hybrid_exchange_hash KSha256 ctx (public_blob hk) (mlkem_ek_to_bytes ek ++ x25519_public_key a)
    (ct ++ x25519_public_key b) (combine_secrets KSha256 ss k))) as (sig & Es & Hl).
  assert (Li : len (mlkem_ek_to_bytes ek ++ x25519_public_key a) = MlKemX25519.C_INIT_LEN)
    by (by rewrite len_app, Hek, x25519_public_len).
  assert (Lr : len (ct ++ x25519_public_key b) = MlKemX25519.S_REPLY_LEN)
    by (by rewrite len_app, Hct, x25519_public_len).
  eexists _, _, _, _, sig. split; [done|].
  replace (be_bytes 4 MlKemX25519.C_INIT_LEN)
    with (be_bytes 4 (wrap32 (len (mlkem_ek_to_bytes ek ++ x25519_public_key a)))) by (by rewrite Li).
  read_init (mlkem_ek_to_bytes ek ++ x25519_public_key a); [by rewrite Li|].
  rewrite Li, take_len_app, drop_len_app, Hv by done. cbn. rewrite Eenc, Eb. cbn. rewrite Es.
  split; [done|]. split; [done|]. kem_sizes Li Lr. intros verify. unfold MlKemX25519.client_finish.
  read_reply; [field_lia|by rewrite Lr|field_lia|]. rewrite Lr, take_len_app, drop_len_app by done. cbn.
  rewrite Ea, Hc. cbn. done.
Qed.

Lemma sntrup_method :
  method_agrees (λ r, Ok (SntrupX25519.client_init r)) SntrupX25519.server_reply SntrupX25519.client_finish.
Proof.
  intros rng_c rng_s hk ctx [Hb Hs]. unfold SntrupX25519.client_init, SntrupX25519.server_reply.
  destruct (x25519_generate rng_c) as [a rc].
  pose proof (sntrup_pk_len rc) as Hpk. pose proof (sntrup_correct rc rng_s) as Hc.
  destruct (sntrup_keypair rc) as [[pk sk] ?]. cbn [fst snd] in *.
  pose proof (sntrup_ct_len rng_s pk) as Hct.
  destruct (sntrup_encapsulate rng_s pk) as [[ct ss] rs] eqn:Eenc. cbn [fst snd] in *.
  destruct (x25519_generate rs) as [b ?] eqn:Egen. destruct (x25519_both a b) as (k & Ea & Eb).
  destruct (Hs (hybrid_exchange_hash KSha512 ctx (public_blob hk) (pk ++ x25519_public_key a)
    (ct ++ x25519_public_key b) (combine_secrets KSha512 ss k))) as (sig & Es & Hl).
  assert (Li : len (pk ++ x25519_public_key a) = SntrupX25519.C_INIT_LEN)
    by (by rewrite len_app, Hpk, x25519_public_len).
  assert (Lr : len (ct ++ x25519_public_key b) = SntrupX25519.S_REPLY_LEN)
    by (by rewrite len_app, Hct, x25519_public_len).
  eexists _, _, _, _, sig. split; [done|].
  replace (be_bytes 4 SntrupX25519.C_INIT_LEN)
    with (be_bytes 4 (wrap32 (len (pk ++ x25519_public_key a)))) by (by rewrite Li).
  read_init (pk ++ x25519_public_key a); [by rewrite Li|].
  rewrite Li, take_len_app, drop_len_app, Eenc, Egen by done. cbn. rewrite Eb. cbn. rewrite Es.
  split; [done|]. split; [done|]. kem_sizes Li Lr. intros verify. unfold SntrupX25519.client_finish.
  read_reply; [field_lia|by rewrite Lr|field_lia|]. rewrite Lr, take_len_app, drop_len_app by done. cbn.
  rewrite Ea, Hc. cbn. done.
Qed.

Lemma mlkem_p256_method :
  method_agrees (λ r, Ok (MlKemP256.client_init r)) MlKemP256.server_reply MlKemP256.client_finish.
Proof.
  intros rng_c rng_s hk ctx [Hb Hs]. assert (Hp : is_Some (sec1_point_len P256)) by (by eexists).
  unfold MlKemP256.client_init, MlKemP256.server_reply, MlKemP256.p256_agree.
  destruct (ec_agree P256 rng_c rng_s Hp) as (k & Ea & Eb).
  pose proof (ec_point_len P256 rng_c P256_POINT_LEN eq_refl) as La.
  pose proof (ec_point_len P256 rng_s P256_POINT_LEN eq_refl) as Lb.
  pose proof (ec_from_to_sec1 P256 rng_c Hp) as Fa. pose proof (ec_from_to_sec1 P256 rng_s Hp) as Fb.
  destruct (ec_generate P256 rng_c) as [a rc], (ec_generate P256 rng_s) as [b rs]. cbn [fst] in *.
  pose proof (mlkem_ek_valid rc) as Hv. pose proof (mlkem_correct rc rs) as Hc.
  pose proof (mlkem_ct_len (mlkem_generate rc).1.2 rs) as Hct.
  destruct (mlkem_generate rc) as [[dk ek] ?]. cbn [fst snd] in *.
  pose proof (mlkem_ek_len ek) as Hek.
  destruct (mlkem_encapsulate ek rs) as [[ct ss] ?] eqn:Eenc. cbn [fst snd] in *.
  destruct (Hs (hybrid_exchange_hash KSha256 ctx (public_blob hk)
    (mlkem_ek_to_bytes ek ++ ec_to_sec1 (ec_public_key a)) (ct ++ ec_to_sec1 (ec_public_key b))
    (combine_secrets KSha256 ss k))) as (sig & Es & Hl).
  assert (Li : len (mlkem_ek_to_bytes ek ++ ec_to_sec1 (ec_public_key a)) = MlKemP256.C_INIT_LEN)
    by (by rewrite len_app, Hek, La).
  assert (Lr : len (ct ++ ec_to_sec1 (ec_public_key b)) = MlKemP256.S_REPLY_LEN)
    by (by rewrite len_app, Hct, Lb).
  eexists _, _, _, _, sig. split; [done|].
  replace (be_bytes 4 MlKemP256.C_INIT_LEN)
    with (be_bytes 4 (wrap32 (len (mlkem_ek_to_bytes ek ++ ec_to_sec1 (ec_public_key a))))) by (by rewrite Li).
  read_init (mlkem_ek_to_bytes ek ++ ec_to_sec1 (ec_public_key a)); [by rewrite Li|].
  rewrite Li, take_len_app, drop_len_app, Hv, Fa by done. cbn. rewrite Eb. cbn. rewrite Eenc, Es.
  split; [done|]. split; [done|]. kem_sizes Li Lr. intros verify. unfold MlKemP256.client_finish, MlKemP256.p256_agree.
  read_reply; [field_lia|by rewrite Lr|field_lia|]. rewrite Lr, take_len_app, drop_len_app, Fb by done. cbn.
  rewrite Ea, Hc. cbn. done.
Qed.
(** *** Group exchange *)

Definition request_ok (q : GexRequest) : Prop := is_u32 (gr_min q) ∧ is_u32 (gr_n q) ∧ is_u32 (gr_max q).

(** A group a client with that request takes and both ends can use. *)
Definition gex_group_ok (q : GexRequest) (g : DhGroup) : Prop :=
  dh_honest g ∧ gr_min q ≤ uint_bit_len (dh_p g) ≤ gr_max q ∧
  ∀ n, 160 ≤ n ≤ 512 → is_Some (dh_from_custom_unchecked (dh_p g) (dh_g g) n).

Lemma gex_request_read q select :
  request_ok q → GexSha.server_group (GexSha.client_request q).2 select =
    Ok (q, select q, [byte_of_Z SSH_MSG_KEX_DH_GEX_GROUP]
      |>> encode_mpint_into (GexSha.p_be_bytes (select q)) |>> encode_mpint_into (GexSha.g_be_bytes (select q))).
Proof.
  intros (H1 & H2 & H3). unfold GexSha.server_group, GexSha.client_request. cbn [snd].
  rewrite reader_new_end, <- !app_assoc.
  match goal with |- context [reader_at [] ?b] => assert (Hf : fits_mem b) end.
  { unfold fits_mem. autorewrite with lens. lia. }
  cbn [app] in *. rewrite read_u8_at by (first [done | by vm_compute]).
  cbn [SSH_MSG_KEX_DH_GEX_REQUEST Z.eqb Pos.eqb].
  rewrite !read_u32_at by (first [solve_mem | done]). by destruct q.
Qed.

Lemma len_be_bytes_size g n : len (be_bytes (Z.to_nat (dh_byte_size g)) n) = dh_byte_size g.
Proof. rewrite len_be_bytes. destruct (dh_size g) as (_ & _ & ?). lia. Qed.
Lemma p_be_value g : be_value (GexSha.p_be_bytes g) = dh_p g.
Proof.
  destruct (dh_size g) as (? & ? & ?). apply be_value_be_bytes_small. by rewrite Z2Nat.id by lia.
Qed.
Lemma g_be_value g : be_value (GexSha.g_be_bytes g) = dh_g g.
Proof.
  destruct (dh_size g) as (? & ? & ?). apply be_value_be_bytes_small. by rewrite Z2Nat.id by lia.
Qed.

(** The client takes the group, with the prime and generator of the server's. *)
Lemma gex_group_read q g rng :
  gex_group_ok q g → ∃ G st,
    GexSha.client_init (GexSha.client_request q).1
      ([byte_of_Z SSH_MSG_KEX_DH_GEX_GROUP] |>> encode_mpint_into (GexSha.p_be_bytes g)
        |>> encode_mpint_into (GexSha.g_be_bytes g)) rng =
      Ok (st, [byte_of_Z SSH_MSG_KEX_DH_GEX_INIT] |>> encode_mpint_into (dh_public_bytes (dh_generate G rng).1)) ∧
    dh_p G = dh_p g ∧ dh_g G = dh_g g ∧
    GexSha.request st = q ∧ GexSha.group st = Some G ∧ GexSha.secret st = Some (dh_generate G rng).1 ∧
    GexSha.e_mag st = dh_public_bytes (dh_generate G rng).1 ∧
    be_value (GexSha.p_bytes st) = dh_p g ∧ be_value (GexSha.g_bytes st) = dh_g g.
Proof.
  intros (_ & Hr & Hc). destruct (dh_size g) as (_ & _ & Hsz). unfold FIELD_MAX in Hsz.
  unfold GexSha.client_init, read_mpint. rewrite !encode_mpint_into_string. unfold push_string.
  pose proof (mpint_body_len (GexSha.p_be_bytes g)) as Lp. pose proof (mpint_body_len (GexSha.g_be_bytes g)) as Lg.
  unfold GexSha.p_be_bytes in Lp. unfold GexSha.g_be_bytes in Lg. rewrite len_be_bytes_size in Lp, Lg.
  fold (GexSha.p_be_bytes g) in Lp. fold (GexSha.g_be_bytes g) in Lg.
  pose proof (len_nonneg (mpint_body (GexSha.p_be_bytes g))).
  pose proof (len_nonneg (mpint_body (GexSha.g_be_bytes g))).
  rewrite reader_new_end, <- !app_assoc.
  match goal with |- context [reader_at [] ?b] => assert (Hf : fits_mem b) end.
  { unfold fits_mem. autorewrite with lens. lia. }
  cbn [app] in *. rewrite read_u8_at by (first [done | by vm_compute]). cbn [negb SSH_MSG_KEX_DH_GEX_GROUP Z.eqb Pos.eqb].
  rewrite !read_string_at by (first [solve_mem | width_lia]).
  unfold strip_leading_zero. rewrite !strip_zeros_value, !mpint_body_value, p_be_value, g_be_value.
  cbn [GexSha.request GexSha.client_request fst].
  destruct (_ || _) eqn:Eb; zbool; [lia|].
  destruct (Hc (GexSha.clamp (uint_bit_len (dh_p g)) 160 512)) as (G & EG); [unfold GexSha.clamp; lia|].
  rewrite EG. cbn [ok_or]. destruct (dh_custom _ _ _ _ EG) as [Ep Eg].
  destruct (dh_generate G rng) as [secret ?] eqn:Egen. eexists G, _. rewrite Egen.
  split; [reflexivity|]. cbn -[be_value]. by rewrite !strip_zeros_value, !mpint_body_value, p_be_value, g_be_value.
Qed.

Lemma gex_group_fits g :
  len ([byte_of_Z SSH_MSG_KEX_DH_GEX_GROUP] |>> encode_mpint_into (GexSha.p_be_bytes g)
        |>> encode_mpint_into (GexSha.g_be_bytes g)) ≤ 3 * FIELD_MAX.
Proof.
  destruct (dh_size g) as (_ & _ & ?). rewrite !encode_mpint_into_string. unfold push_string.
  pose proof (mpint_body_len (GexSha.p_be_bytes g)). pose proof (mpint_body_len (GexSha.g_be_bytes g)).
  unfold GexSha.p_be_bytes, GexSha.g_be_bytes in *. rewrite len_be_bytes_size in *. field_lia.
Qed.

Lemma gex_method D q g select rng_c rng_s hk ctx :
  request_ok q → select q = g → gex_group_ok q g → signer_ok hk →
  ∃ st init group_payload payload out sig,
    GexSha.server_group (GexSha.client_request q).2 select = Ok (q, g, group_payload) ∧
    GexSha.client_init (GexSha.client_request q).1 group_payload rng_c = Ok (st, init) ∧
    GexSha.server_reply_with D rng_s q g init hk ctx = Ok (payload, out) ∧
    hk_sign hk 0 (ko_h out) = Ok sig ∧
    reply_carries payload (public_blob hk) sig ∧ len init ≤ 2 * FIELD_MAX ∧ len group_payload ≤ 3 * FIELD_MAX ∧
    ∀ verify, GexSha.client_finish_with D st payload verify ctx = let? _ := verify (ko_h out) sig in Ok out.
Proof.
  intros Hq <- Hok [Hb Hs].
  destruct (gex_group_read _ _ rng_c Hok) as (G & st & Ei & Hp & Hg & Hrq & Hgr & Hsec & He & Vp & Vg).
  destruct Hok as (Hh & _ & _). set (g := select q) in *.
  assert (Hh' := Hh G rng_s rng_c Hp Hg). cbn zeta in Hh'.
  destruct Hh' as (Lb & La & pb & pa & k & Fb & Fa & Eb & Ea).
  rewrite gex_request_read by done. fold g. eexists st, _, _. rewrite Ei.
  unfold GexSha.server_reply_with, read_mpint.
  destruct (dh_generate g rng_s) as [b ?]. cbn [fst] in *.
  set (a := (dh_generate G rng_c).1) in *.
  pose proof (mpint_body_len (dh_public_bytes a)). pose proof (mpint_body_len (dh_public_bytes b)).
  destruct (Hs (GexSha.exchange_hash D ctx (public_blob hk) q (GexSha.p_be_bytes g) (GexSha.g_be_bytes g)
    (mpint_body (dh_public_bytes a)) (dh_public_bytes b) k)) as (sig & Es & Hl).
  eexists _, _, sig. split; [done|]. split; [done|]. rewrite encode_mpint_into_string. unfold push_string.
  fold a. read_init (mpint_body (dh_public_bytes a)); [field_lia|]. cbn.
  rewrite (dh_pub_value _ _ _ (mpint_body_value _)), Fa. cbn. rewrite Eb. cbn. rewrite Es.
  split; [done|]. split; [done|]. sizes. split; [apply gex_group_fits|]. intros verify.
  unfold GexSha.client_finish_with, read_mpint. rewrite Hgr, Hsec, Hrq, He. cbn [ok_or].
  rewrite dh_reply_message_string. read_reply; [field_lia|field_lia|field_lia|]. cbn.
  rewrite (dh_pub_value _ _ _ (mpint_body_value _)), Fb. cbn. rewrite Ea. cbn.
  unfold GexSha.exchange_hash. rewrite !eh_write_mpint_bytes.
  rewrite (mpint_bytes_value_inj (GexSha.p_bytes st) (GexSha.p_be_bytes g)) by (by rewrite p_be_value).
  rewrite (mpint_bytes_value_inj (GexSha.g_bytes st) (GexSha.g_be_bytes g)) by (by rewrite g_be_value).
  rewrite !(mpint_bytes_value_inj (mpint_body _) _ (mpint_body_value _)). done.
Qed.
(** *** Authenticity *)

(** Walks through the guards of a [client_finish] that returned. *)
Ltac finish_steps :=
  repeat match goal with
  | |- match (if ?b then _ else _) with Ok _ => _ | Err _ => _ end = Ok _ → _ => destruct b eqn:?; [done|]
  | |- (if ?b then Err _ else _) = Ok _ → _ => destruct b eqn:?; [done|]
  | |- match ?r with Ok _ => _ | Err _ => _ end = Ok _ → _ =>
      let E := fresh "E" in destruct r eqn:E; [|done]
  | |- match ?p with pair _ _ => _ end = Ok _ → _ => destruct p
  | u : unit |- _ => destruct u
  end.
Ltac finish_authentic :=
  intros [= <-]; eexists _, _; split;
    [unfold host_key_and_sig;
     repeat match goal with E : _ = Ok _ |- _ => rewrite E; clear E end; reflexivity
    |split; [|eassumption]; cbn [ko_h]; eexists;
     unfold X25519Sha256.exchange_hash, EcdhSha2.exchange_hash, DhFixed.exchange_hash,
       GexSha.exchange_hash, hybrid_exchange_hash, eh_finalize;
     match goal with |- context [eh_begin ?c ?k] => generalize (eh_begin c k); intros ? end;
     rewrite ?eh_write_mpint_bytes; unfold eh_write_string, eh_write_u32;
     rewrite <- ?app_assoc; reflexivity].

Lemma x25519_authentic : method_authentic KSha256 X25519Sha256.client_finish.
Proof.
  intros st payload verify ctx out. unfold X25519Sha256.client_finish. finish_steps. finish_authentic.
Qed.
Lemma ecdh_authentic crv D : method_authentic D (EcdhSha2.client_finish crv D).
Proof.
  intros st payload verify ctx out. unfold EcdhSha2.client_finish, EcdhSha2.client_finish_inner.
  destruct (bool_decide _); [|done]. finish_steps. finish_authentic.
Qed.
Lemma dh_authentic D : method_authentic D (DhFixed.dh_client_finish D).
Proof.
  intros st payload verify ctx out. unfold DhFixed.dh_client_finish, read_mpint. finish_steps. finish_authentic.
Qed.
Lemma gex_authentic D : method_authentic D (GexSha.client_finish_with D).
Proof.
  intros st payload verify ctx out. unfold GexSha.client_finish_with, read_mpint. finish_steps. finish_authentic.
Qed.
Lemma mlkem_x25519_authentic : method_authentic KSha256 MlKemX25519.client_finish.
Proof.
  intros st payload verify ctx out. unfold MlKemX25519.client_finish. finish_steps. finish_authentic.
Qed.
Lemma mlkem_p256_authentic : method_authentic KSha256 MlKemP256.client_finish.
Proof.
  intros st payload verify ctx out. unfold MlKemP256.client_finish. finish_steps. finish_authentic.
Qed.
Lemma sntrup_authentic : method_authentic KSha512 SntrupX25519.client_finish.
Proof.
  intros st payload verify ctx out. unfold SntrupX25519.client_finish. finish_steps. finish_authentic.
Qed.
End Facts.
