(* ===== verification/KexKeys.v ===== *)
(** * Key installation (src/hazmat/transport/runner.rs)

    From the shared secret, the exchange hash and the negotiated names to the
    codec's new keys: [derive_keys], [build_cipher_mac] and [maybe_install].
    The record [RunnerKeys] has the fields of the source's runner that these
    functions use. *)
From S2P Require Import Prelude Wire Crypto Cipher Compress Packet PacketFacts KexInit KexHash.

(** OpenSSH's [dh_need]. *)
Definition dh_need (n : NegotiatedOwned) : Z :=
  fold_left (λ need cm,
    let need := match cipher_spec_by_name cm.1 with
      | Some c =>
          let seclen := if bytes_eqb (cs_name c) (bs "3des-cbc") then 14 else cs_key_len c in
          Z.max (Z.max (Z.max need seclen) (cs_block_size c)) (cs_iv_len c)
      | None => need
      end in
    match mac_spec_by_name cm.2 with Some m => Z.max need (ms_key_len m) | None => need end)
    [(ng_cipher_c2s n, ng_mac_c2s n); (ng_cipher_s2c n, ng_mac_s2c n)] 0.

(** ** Derivation of both directions *)

Section Derive.
Context {H : KexHash}.

Record DirKeys := { dk_cipher : bytes; dk_iv : bytes; dk_key : bytes; dk_mac : bytes; dk_mac_key : bytes }.
Record InstalledKeys := { ik_c2s : DirKeys; ik_s2c : DirKeys }.

Definition derive_for_direction (backend : KexBackend) (k h sid : bytes)
    (iv_letter key_letter mac_letter : byte) (cipher mac : bytes) : result DirKeys :=
  let? spec := ok_or (cipher_spec_by_name cipher) (Unsupported "cipher in negotiation") in
  let iv := kdf backend k h sid iv_letter (cs_iv_len spec) in
  let key := kdf backend k h sid key_letter (cs_key_len spec) in
  let? (mac_name, mac_key) :=
    if cs_aead spec then Ok ([], [])
    else
      let? mspec := ok_or (mac_spec_by_name mac) (Unsupported "MAC in negotiation") in
      Ok (mac, kdf backend k h sid mac_letter (ms_key_len mspec)) in
  Ok {| dk_cipher := cipher; dk_iv := iv; dk_key := key; dk_mac := mac_name; dk_mac_key := mac_key |}.

(** ** The runner's part *)

Record RunnerKeys := {
  kr_role : Role;
  kr_negotiated : option NegotiatedOwned;
  kr_backend : option KexBackend;
  kr_session_id : option bytes;
  kr_current_h : option bytes;
  kr_current_k : option bytes;
  kr_installed_keys : option InstalledKeys;
  kr_sent_newkeys : bool;
  kr_peer_newkeys : bool;
  kr_strict_kex : bool
}.
#[local] Instance eta_RunnerKeys : Etable RunnerKeys :=
  λ r, Build_RunnerKeys (kr_role r) (kr_negotiated r) (kr_backend r) (kr_session_id r) (kr_current_h r)
         (kr_current_k r) (kr_installed_keys r) (kr_sent_newkeys r) (kr_peer_newkeys r) (kr_strict_kex r).

Definition derive_keys (r : RunnerKeys) : result RunnerKeys :=
  let? neg := ok_or (kr_negotiated r) (Protocol "missing negotiation") in
  let? backend := ok_or (kr_backend r) (Protocol "missing backend") in
  let? k := ok_or (kr_current_k r) (Protocol "missing K") in
  let? h := ok_or (kr_current_h r) (Protocol "missing H") in
  let? sid := ok_or (kr_session_id r) (Protocol "missing session id") in
  let? c2s := derive_for_direction backend k h sid "A"%byte "C"%byte "E"%byte
                (ng_cipher_c2s neg) (ng_mac_c2s neg) in
  let? s2c := derive_for_direction backend k h sid "B"%byte "D"%byte "F"%byte
                (ng_cipher_s2c neg) (ng_mac_s2c neg) in
  Ok (r <| kr_installed_keys := Some {| ik_c2s := c2s; ik_s2c := s2c |} |>).
End Derive.
#[export] Existing Instance eta_RunnerKeys.

Section Install.
Context {P : CipherPrims} {CC : CompCol}.

Definition build_cipher_mac (dir : DirKeys) : result (SshCipher * option SshMac) :=
  let? r := ok_or (cipher_by_name (dk_cipher dir) (dk_key dir) (dk_iv dir)) (Unsupported "cipher name") in
  let? cipher := r in
  let? mac := if is_nil (dk_mac dir) then Ok None
              else let? m := ok_or (mac_by_name (dk_mac dir) (dk_mac_key dir)) (Unsupported "MAC name") in
                   Ok (Some m) in
  Ok (cipher, mac).

Definition maybe_install (r : RunnerKeys) (codec : PacketCodec) : result unit * PacketCodec :=
  if negb (kr_sent_newkeys r && kr_peer_newkeys r) then (Ok (), codec) else
  let! keys := ok_or (kr_installed_keys r) (Protocol "no derived keys") at codec in
  let outbound_dir := match kr_role r with Client => ik_c2s keys | Server => ik_s2c keys end in
  let inbound_dir := match kr_role r with Client => ik_s2c keys | Server => ik_c2s keys end in
  let! (out_cipher, out_mac) := build_cipher_mac outbound_dir at codec in
  let (res, codec) := install_outbound out_cipher out_mac codec in
  let! _ := res at codec in
  let! (in_cipher, in_mac) := build_cipher_mac inbound_dir at codec in
  let (res, codec) := install_inbound in_cipher in_mac codec in
  let! _ := res at codec in
  let! neg := ok_or (kr_negotiated r) (Protocol "missing negotiation") at codec in
  let '(out_comp_name, in_comp_name) := match kr_role r with
    | Client => (ng_comp_c2s neg, ng_comp_s2c neg)
    | Server => (ng_comp_s2c neg, ng_comp_c2s neg)
    end in
  let! out_comp := ok_or (compress_by_name out_comp_name) (Unsupported "unsupported compression") at codec in
  let! in_comp := ok_or (decompress_by_name in_comp_name) (Unsupported "unsupported compression") at codec in
  let codec := install_outbound_compress out_comp codec in
  let codec := install_inbound_decompress in_comp codec in
  let codec := if kr_strict_kex r then reset_sequence_numbers codec else codec in
  (Ok (), reset_rekey_epoch codec).
End Install.

(** ** After NEWKEYS both ends are in step *)

Section Pairing.
Context {P : CipherPrims} {CC : CompCol} {H : KexHash} {HL : KexHashLaws H}.

Lemma cipher_spec_found name s : cipher_spec_by_name name = Some s → s ∈ CIPHERS_ALL ∧ cs_name s = name.
Proof. intros [Hin E%bytes_eqb_true]%List.find_some. by rewrite list_elem_of_In. Qed.
Lemma mac_spec_found name s : mac_spec_by_name name = Some s → s ∈ MACS_ALL ∧ ms_name s = name.
Proof. intros [Hin E%bytes_eqb_true]%List.find_some. by rewrite list_elem_of_In. Qed.

Lemma cipher_lens_nonneg s : s ∈ CIPHERS_ALL → 0 ≤ cs_key_len s ∧ 0 ≤ cs_iv_len s.
Proof.
  revert s. apply list.Forall_forall.
  repeat (apply Forall_cons_2; [cbn; lia|]). apply Forall_nil_2.
Qed.
Lemma mac_lens_nonneg s : s ∈ MACS_ALL → 0 ≤ ms_key_len s ∧ ms_name s ≠ [].
Proof.
  revert s. apply list.Forall_forall.
  repeat (apply Forall_cons_2; [split; [cbn; lia|discriminate]|]). apply Forall_nil_2.
Qed.

(** Derived keys always build a slot of the right kind. *)
Definition builds (dir : DirKeys) (slot : CipherSlot) : Prop :=
  ∃ cipher mac, build_cipher_mac dir = Ok (cipher, mac) ∧ classify cipher mac = Ok slot ∧ slot_wf slot.

Lemma classify_aead cipher mac :
  is_aead cipher = true → ∃ slot, classify cipher mac = Ok slot ∧ slot_wf slot.
Proof. destruct cipher; try done; intros _; by eexists. Qed.
Lemma classify_stream cipher mac :
  is_aead cipher = false → mac_wf mac → ∃ slot, classify cipher (Some mac) = Ok slot ∧ slot_wf slot.
Proof. destruct cipher; try done; intros _ Hm; by eexists. Qed.

Lemma derive_builds backend k h sid a c e cipher mac dir :
  derive_for_direction backend k h sid a c e cipher mac = Ok dir → ∃ slot, builds dir slot.
Proof.
  unfold derive_for_direction. destruct (cipher_spec_by_name cipher) as [s|] eqn:Es; [|done]. cbn [ok_or].
  destruct (cipher_spec_found _ _ Es) as [Hin Hname]. destruct (cipher_lens_nonneg s Hin) as [Hk Hi].
  pose proof (proj1 (list.Forall_forall _ _) ciphers_agree s Hin
    (kdf backend k h sid c (cs_key_len s)) (kdf backend k h sid a (cs_iv_len s))
    (len_derive _ _ _ _ _ _ Hk) (len_derive _ _ _ _ _ _ Hi)) as (ci & Eci & Ha & _).
  rewrite Hname in Eci. unfold builds, build_cipher_mac.
  destruct (cs_aead s) eqn:Eaead.
  - intros [= <-]. cbn. rewrite Eci. cbn.
    destruct (classify_aead ci None Ha) as (slot & Ec & Hw). exists slot, ci, None. done.
  - destruct (mac_spec_by_name mac) as [ms|] eqn:Em; [|done]. cbn [ok_or]. intros [= <-].
    destruct (mac_spec_found _ _ Em) as [Hmin Hmname]. destruct (mac_lens_nonneg ms Hmin) as [Hmk Hne].
    pose proof (proj1 (list.Forall_forall _ _) macs_agree ms Hmin
      (kdf backend k h sid e (ms_key_len ms)) (len_derive _ _ _ _ _ _ Hmk)) as (m & Emm & _ & _ & Hmw).
    rewrite Hmname in Emm, Hne. cbn. rewrite Eci. cbn [ok_or].
    destruct (is_nil mac) eqn:En; [by destruct mac|]. rewrite Emm. cbn [ok_or].
    destruct (classify_stream ci m Ha Hmw) as (slot & Ec & Hw). exists slot, ci, (Some m). done.
Qed.

(** The runner after both NEWKEYS, with the keys it derived. *)
Definition ready (r : RunnerKeys) (role : Role) (neg : NegotiatedOwned) (keys : InstalledKeys)
    (strict : bool) : Prop :=
  kr_role r = role ∧ kr_negotiated r = Some neg ∧ kr_installed_keys r = Some keys ∧
  kr_sent_newkeys r = true ∧ kr_peer_newkeys r = true ∧ kr_strict_kex r = strict.

(** What [maybe_install] leaves in the codec. *)
Lemma maybe_install_spec r role neg keys strict codec sc ss oc ic :
  ready r role neg keys strict → builds (ik_c2s keys) sc → builds (ik_s2c keys) ss →
  compress_by_name (match role with Client => ng_comp_c2s neg | Server => ng_comp_s2c neg end) = Some oc →
  decompress_by_name (match role with Client => ng_comp_s2c neg | Server => ng_comp_c2s neg end) = Some ic →
  ∃ codec', maybe_install r codec = (Ok (), codec') ∧
    outbound codec' = match role with Client => sc | Server => ss end ∧
    inbound codec' = match role with Client => ss | Server => sc end ∧
    pending_first_block codec' = None ∧
    seq_out codec' = (if strict then 0 else seq_out codec) ∧
    seq_in codec' = (if strict then 0 else seq_in codec) ∧
    seq_out_base codec' = seq_out codec' ∧ seq_in_base codec' = seq_in codec' ∧
    bytes_in codec' = 0 ∧ bytes_out codec' = 0 ∧
    outbound_compress codec' =
      (if compressing (outbound_compress codec) then compress_activate oc else oc) ∧
    inbound_decompress codec' =
      (if decompressing (inbound_decompress codec) then decompress_activate ic else ic).
Proof.
  intros (Hr & Hn & Hk & Hs & Hp & Hst) (cc & mc & Bc & Kc & _) (cs & ms & Bs & Ks & _) Hoc Hic.
  unfold maybe_install. rewrite Hs, Hp, Hk, Hr. cbn [negb andb ok_or].
  unfold install_outbound, install_inbound, install_outbound_compress, install_inbound_decompress,
    compressing, decompressing.
  rewrite (andb_comm (compress_active _)), (andb_comm (decompress_active _)).
  destruct role; rewrite Bc, Bs, Kc, Ks, Hn; cbn [ok_or]; rewrite Hoc, Hic, Hst; cbn [ok_or];
    eexists; (split; [reflexivity|]); destruct strict; done.
Qed.
End Pairing.

(** The two ends agree on the exchange: same negotiation, secret and hash. *)
Definition same_exchange (rc rs : RunnerKeys) : Prop :=
  kr_role rc = Client ∧ kr_role rs = Server ∧
  kr_negotiated rs = kr_negotiated rc ∧ kr_backend rs = kr_backend rc ∧
  kr_session_id rs = kr_session_id rc ∧ kr_current_h rs = kr_current_h rc ∧
  kr_current_k rs = kr_current_k rc ∧ kr_strict_kex rs = kr_strict_kex rc ∧
  kr_sent_newkeys rc = true ∧ kr_peer_newkeys rc = true ∧
  kr_sent_newkeys rs = true ∧ kr_peer_newkeys rs = true.

(** A fresh compressor of that name is in step with a fresh decompressor. *)
Definition fresh_sync {CC : CompCol} (R : Compress → Decompress → Prop) (name : bytes) : Prop :=
  ∃ c d, compress_by_name name = Some c ∧ decompress_by_name name = Some d ∧ R c d ∧
    R (compress_activate c) (decompress_activate d).

Section InStep.
Context {P : CipherPrims} {CC : CompCol} {H : KexHash} {HL : KexHashLaws H}.

Lemma derive_keys_ok r r' :
  derive_keys r = Ok r' → ∃ neg keys sc ss, kr_negotiated r = Some neg ∧
    r' = r <| kr_installed_keys := Some keys |> ∧ builds (ik_c2s keys) sc ∧ builds (ik_s2c keys) ss.
Proof.
  unfold derive_keys. destruct (kr_negotiated r) as [neg|]; [|done]. destruct (kr_backend r) as [b|]; [|done].
  destruct (kr_current_k r) as [k|]; [|done]. destruct (kr_current_h r) as [h|]; [|done].
  destruct (kr_session_id r) as [sid|]; [|done]. cbn [ok_or].
  destruct (derive_for_direction _ _ _ _ "A" _ _ _ _) as [c2s|] eqn:Ec; [|done].
  destruct (derive_for_direction _ _ _ _ "B" _ _ _ _) as [s2c|] eqn:Es; [|done]. intros [= <-].
  destruct (derive_builds _ _ _ _ _ _ _ _ _ _ Ec) as (sc & Hsc).
  destruct (derive_builds _ _ _ _ _ _ _ _ _ _ Es) as (ss & Hss).
  exists neg, {| ik_c2s := c2s; ik_s2c := s2c |}, sc, ss. done.
Qed.

Lemma derive_keys_same rc rs rc' :
  same_exchange rc rs → derive_keys rc = Ok rc' →
  derive_keys rs = Ok (rs <| kr_installed_keys := kr_installed_keys rc' |>).
Proof.
  intros (_ & _ & En & Eb & Esid & Eh & Ek & _). unfold derive_keys. rewrite En, Eb, Esid, Eh, Ek.
  destruct (ok_or (kr_negotiated rc) _) as [neg|]; [|done]. destruct (ok_or (kr_backend rc) _) as [b|]; [|done].
  destruct (ok_or (kr_current_k rc) _) as [k|]; [|done]. destruct (ok_or (kr_current_h rc) _) as [h|]; [|done].
  destruct (ok_or (kr_session_id rc) _) as [sid|]; [|done].
  destruct (derive_for_direction _ _ _ _ "A" _ _ _ _) as [c2s|]; [|done].
  destruct (derive_for_direction _ _ _ _ "B" _ _ _ _) as [s2c|]; [|done]. by intros [= <-].
Qed.
End InStep.

(** Two runners with the same derived keys that both install leave their
    codecs paired both ways. *)
Lemma install_in_step {P : CipherPrims} {CC : CompCol} (R : Compress → Decompress → Prop)
    rc rs neg keys strict sc ss cc cs :
  compression_sync R → ready rc Client neg keys strict → ready rs Server neg keys strict →
  builds (ik_c2s keys) sc → builds (ik_s2c keys) ss →
  fresh_sync R (ng_comp_c2s neg) → fresh_sync R (ng_comp_s2c neg) →
  seq_out cc = seq_in cs → seq_out cs = seq_in cc →
  R (outbound_compress cc) (inbound_decompress cs) → R (outbound_compress cs) (inbound_decompress cc) →
  ∃ cc' cs', maybe_install rc cc = (Ok (), cc') ∧ maybe_install rs cs = (Ok (), cs') ∧
    paired R cc' cs' ∧ paired R cs' cc' ∧
    (strict = true → seq_out cc' = 0 ∧ seq_in cc' = 0) ∧
    seq_out_base cc' = seq_out cc' ∧ seq_in_base cc' = seq_in cc' ∧
    bytes_in cc' = 0 ∧ bytes_out cc' = 0.
Proof.
  intros HR Hrc Hrs Bc Bs (oc & id & Eoc & Eid & HR1 & HR2) (oc2 & id2 & Eoc2 & Eid2 & HR3 & HR4) Hs1 Hs2 Rc Rs.
  destruct (maybe_install_spec rc Client neg keys strict cc sc ss oc id2)
    as (cc' & Ic & O1 & I1 & Pn1 & Q1 & Q1' & B1 & B1' & N1 & N1' & C1 & D1); try done.
  destruct (maybe_install_spec rs Server neg keys strict cs sc ss oc2 id)
    as (cs' & Is & O2 & I2 & Pn2 & Q2 & Q2' & _ & _ & _ & _ & C2 & D2); try done.
  exists cc', cs'. split; [done|]. split; [done|].
  pose proof (sync_on R HR _ _ Rc) as On1. pose proof (sync_on R HR _ _ Rs) as On2.
  destruct Bc as (? & ? & _ & _ & Wc), Bs as (? & ? & _ & _ & Ws).
  repeat split; try done.
  - rewrite Q1, Q2'. by destruct strict.
  - by rewrite O1, I2.
  - by rewrite O1.
  - rewrite C1, D2, On1. destruct (decompressing (inbound_decompress cs)); [exact HR2 | exact HR1].
  - rewrite Q2, Q1'. by destruct strict.
  - by rewrite O2, I1.
  - by rewrite O2.
  - rewrite C2, D1, On2. destruct (decompressing (inbound_decompress cc)); [exact HR4 | exact HR3].
  - rewrite Q1. by subst strict.
  - rewrite Q1'. by subst strict.
Qed.

(** C17: after a key exchange the two ends are in step: client and server that
    agree on the negotiation, the secret [K], the exchange hash and the session
    id, and have both seen NEWKEYS, derive the same keys; if the client can
    derive them at all, [maybe_install] succeeds on both ends, and each
    sender is then paired with its receiver (same suite and keys, same
    sequence number, compression in step), with the sequence numbers at zero
    when strict key exchange is on and fresh re-key counters. *)
Theorem newkeys_in_step {P : CipherPrims} {CC : CompCol} {H : KexHash} {HL : KexHashLaws H}
    (R : Compress → Decompress → Prop) rc rs rc' neg cc cs :
  compression_sync R → same_exchange rc rs → kr_negotiated rc = Some neg →
  fresh_sync R (ng_comp_c2s neg) → fresh_sync R (ng_comp_s2c neg) →
  derive_keys rc = Ok rc' →
  seq_out cc = seq_in cs → seq_out cs = seq_in cc →
  R (outbound_compress cc) (inbound_decompress cs) → R (outbound_compress cs) (inbound_decompress cc) →
  ∃ rs' cc' cs', derive_keys rs = Ok rs' ∧
    maybe_install rc' cc = (Ok (), cc') ∧ maybe_install rs' cs = (Ok (), cs') ∧
    paired R cc' cs' ∧ paired R cs' cc' ∧
    (kr_strict_kex rc = true → seq_out cc' = 0 ∧ seq_in cc' = 0) ∧
    seq_out_base cc' = seq_out cc' ∧ seq_in_base cc' = seq_in cc' ∧
    bytes_in cc' = 0 ∧ bytes_out cc' = 0.
Proof.
  intros HR Hse Hn Fc Fs Hd Hs1 Hs2 Rc Rs.
  pose proof (derive_keys_same _ _ _ Hse Hd) as Hds.
  destruct (derive_keys_ok _ _ Hd) as (neg' & keys & sc & ss & Hn' & -> & Bc & Bs).
  assert (neg' = neg) as -> by congruence.
  destruct Hse as (Hr1 & Hr2 & En & _ & _ & _ & _ & Est & S1 & P1 & S2 & P2).
  destruct (install_in_step R (rc <| kr_installed_keys := Some keys |>) (rs <| kr_installed_keys := Some keys |>)
    neg keys (kr_strict_kex rc) sc ss cc cs) as (cc' & cs' & Ic & Is & Hpair); try done.
  { unfold ready, set_field. cbn. rewrite En, Est. done. }
  eexists _, cc', cs'. split; [exact Hds|]. split; [exact Ic|]. split; [exact Is|]. exact Hpair.
Qed.
