(* ===== verification/HostKey.v ===== *)
(** * Host and user keys (src/hostkey)

    The key types that sign and verify: Ed25519, ECDSA over the NIST curves,
    RSA with its three hashes, the ML-DSA-44 composite and the two
    security-key types.  Each type has its [Module] with the public-key blob,
    the signature blob, [sign] and [verify] as the source writes them; the
    arithmetic is the class [SigPrims], an argument of every definition.
    The dispatch by algorithm name follows in [Cert], because it also knows
    certificates. *)
From S2P Require Import Prelude Wire Text Crypto KexMethods.

(** ** Signature primitives (the [purecrypto] crate) *)

Inductive RsaHash := RsaSha1 | RsaSha256 | RsaSha512.
Inductive EcdsaHash := EcdsaSha256 | EcdsaSha384 | EcdsaSha512.

#[export] Instance RsaHash_eq_dec : EqDecision RsaHash.
Proof. solve_decision. Defined.

(** [BoxedRsaPrivateKey]: what its two constructors are given. *)
Record RsaPrivateKey := { rsa_n : Z; rsa_e : Z; rsa_d : Z; rsa_primes : option (Z * Z) }.

(** A [BoxedUint] is a non-negative [Z].  The number in front of a signing
    operation that draws randomness is the call's index. *)
Class SigPrims := {
  (** Ed25519: a private key is its 32-byte seed *)
  ed25519_public : bytes → bytes;
  ed25519_sign : bytes → bytes → bytes;
  ed25519_verify : (* key *) bytes → (* msg *) bytes → (* signature *) bytes → bool;
  (** ML-DSA-44: a private key is its seed; signing and verifying take a context *)
  mldsa44_public : bytes → bytes;
  mldsa44_sign : nat → (* seed *) bytes → (* msg *) bytes → (* context *) bytes → option bytes;
  mldsa44_public_ok : bytes → bool;
  mldsa44_verify : (* key *) bytes → (* signature *) bytes → (* msg *) bytes → (* context *) bytes → bool;
  (** ECDSA: [BoxedEcdsaPrivateKey], [BoxedEcdsaPublicKey]; a signature is [(r, s)],
      [ecdsa_coord] its [r_bytes] and [s_bytes] *)
  ecdsa_priv : Type; ecdsa_pub : Type;
  ecdsa_priv_from_bytes : CurveId → bytes → option ecdsa_priv;
  ecdsa_public_key : ecdsa_priv → ecdsa_pub;
  ecdsa_from_sec1 : CurveId → bytes → option ecdsa_pub;
  ecdsa_to_sec1 : ecdsa_pub → bytes;
  ecdsa_sign : EcdsaHash → ecdsa_priv → bytes → option (Z * Z);
  ecdsa_coord : CurveId → Z → bytes;
  ecdsa_verify : EcdsaHash → ecdsa_pub → bytes → Z * Z → bool;
  (** RSA, PKCS#1 v1.5: [rsa_try_new n e] is whether [BoxedRsaPublicKey::try_new] accepts *)
  rsa_try_new : Z → Z → bool;
  rsa_sign : RsaHash → RsaPrivateKey → bytes → option bytes;
  rsa_verify : RsaHash → (* n *) Z → (* e *) Z → (* msg *) bytes → (* signature *) bytes → bool;
}.

(** [string] fields in front of a reader, compared with what is expected. *)
Definition expect_string (want : bytes) (e : Error) (r : Reader) : result Reader :=
  let? (s, r) := read_string r in
  if bytes_eqb s want then Ok r else Err e.

Definition expect_end (e : Error) (r : Reader) : result unit :=
  if reader_is_empty r then Ok tt else Err e.

(** [.map_err(|_| Error::BadSignature)] of a signature check. *)
Definition bad_signature (ok : bool) : result unit := if ok then Ok tt else Err BadSignature.

Module Ed25519.
Section Defs.
Context {S : SigPrims}.

Definition NAME : bytes := bs "ssh-ed25519".

Record Ed25519HostKey := { private : option bytes; public : bytes }.

Definition from_seed (seed : bytes) : Ed25519HostKey :=
  {| private := Some seed; public := ed25519_public seed |}.
Definition from_public (pk : bytes) : Ed25519HostKey := {| private := None; public := pk |}.

Definition public_blob (k : Ed25519HostKey) : bytes :=
  writer_new |>> write_string NAME |>> write_string (public k) |>> into_vec.

Definition sign (k : Ed25519HostKey) (msg : bytes) : result bytes :=
  let? sk := ok_or (private k) (Crypto "ed25519: no private key") in
  Ok (writer_new |>> write_string NAME |>> write_string (ed25519_sign sk msg) |>> into_vec).

Definition verify (k : Ed25519HostKey) (msg sig_blob : bytes) : result unit :=
  let? r := expect_string NAME (Format "ed25519: signature algorithm mismatch") (reader_new sig_blob) in
  let? (raw, r) := read_string r in
  if negb (len raw =? 64) then Err (Format "ed25519: signature length") else
  let? _ := expect_end (Format "ed25519: signature trailing data") r in
  bad_signature (ed25519_verify (public k) msg raw).

Definition from_public_blob (blob : bytes) : result Ed25519HostKey :=
  let? r := expect_string NAME (Format "ed25519: public key type mismatch") (reader_new blob) in
  let? (raw, r) := read_string r in
  if negb (len raw =? 32) then Err (Format "ed25519: public key length") else
  let? _ := expect_end (Format "ed25519: public key trailing data") r in
  Ok {| private := None; public := raw |}.
End Defs.
End Ed25519.

Module Ecdsa.
Section Defs.
Context {S : SigPrims}.

Record EcdsaParams := {
  p_algorithm : bytes; p_curve_id_str : bytes; p_curve : CurveId; p_hash : EcdsaHash
}.

Definition P256_PARAMS : EcdsaParams := {|
  p_algorithm := bs "ecdsa-sha2-nistp256"; p_curve_id_str := bs "nistp256";
  p_curve := P256; p_hash := EcdsaSha256 |}.
Definition P384_PARAMS : EcdsaParams := {|
  p_algorithm := bs "ecdsa-sha2-nistp384"; p_curve_id_str := bs "nistp384";
  p_curve := P384; p_hash := EcdsaSha384 |}.
Definition P521_PARAMS : EcdsaParams := {|
  p_algorithm := bs "ecdsa-sha2-nistp521"; p_curve_id_str := bs "nistp521";
  p_curve := P521; p_hash := EcdsaSha512 |}.

(** [EcdsaP256HostKey], [EcdsaP384HostKey], [EcdsaP521HostKey]: the macro's
    struct, with the parameters that tell the three apart. *)
Record EcdsaHostKey := { params : EcdsaParams; private : option ecdsa_priv; public : ecdsa_pub }.

Definition from_scalar (p : EcdsaParams) (scalar : bytes) : result EcdsaHostKey :=
  let? sk := ok_or (ecdsa_priv_from_bytes (p_curve p) scalar) (Crypto "ecdsa: invalid private scalar") in
  Ok {| params := p; private := Some sk; public := ecdsa_public_key sk |}.

Definition from_sec1 (p : EcdsaParams) (point : bytes) : result EcdsaHostKey :=
  let? pk := ok_or (ecdsa_from_sec1 (p_curve p) point) (Format "ecdsa: invalid SEC1 point") in
  Ok {| params := p; private := None; public := pk |}.

Definition build_public_blob (p : EcdsaParams) (sec1 : bytes) : bytes :=
  writer_new |>> write_string (p_algorithm p) |>> write_string (p_curve_id_str p)
    |>> write_string sec1 |>> into_vec.

Definition parse_public_blob (p : EcdsaParams) (blob : bytes) : result ecdsa_pub :=
  let? r := expect_string (p_algorithm p) (Format "ecdsa: public key type mismatch") (reader_new blob) in
  let? r := expect_string (p_curve_id_str p) (Format "ecdsa: curve identifier mismatch") r in
  let? (sec1, r) := read_string r in
  let? _ := expect_end (Format "ecdsa: public key trailing data") r in
  ok_or (ecdsa_from_sec1 (p_curve p) sec1) (Format "ecdsa: invalid SEC1 point").

Definition encode_signature (p : EcdsaParams) (sig : Z * Z) : bytes :=
  let inner := writer_new |>> write_mpint (ecdsa_coord (p_curve p) (fst sig))
                 |>> write_mpint (ecdsa_coord (p_curve p) (snd sig)) |>> into_vec in
  writer_new |>> write_string (p_algorithm p) |>> write_string inner |>> into_vec.

Definition sign_with (p : EcdsaParams) (sk : ecdsa_priv) (msg : bytes) : result bytes :=
  let? sig := ok_or (ecdsa_sign (p_hash p) sk msg) (Crypto "ecdsa: signing failed") in
  Ok (encode_signature p sig).

(** The loop that skips zero bytes but keeps the last one. *)
Fixpoint skip_zeros (m : bytes) : bytes :=
  match m with
  | b :: ((_ :: _) as m') => if u8 b =? 0 then skip_zeros m' else m
  | _ => m
  end.

Definition mpint_to_uint (what : string) (m : bytes) : result Z :=
  match m with
  | [] => Ok 0
  | b :: _ => if negb (Z.land (u8 b) 128 =? 0) then Err (Format what) else Ok (be_value (skip_zeros m))
  end.

(** [mpint r, mpint s] and nothing after them. *)
Definition parse_components (inner : bytes) : result (Z * Z) :=
  let? (r_raw, ir) := read_mpint (reader_new inner) in
  let? (s_raw, ir) := read_mpint ir in
  let? _ := expect_end (Format "ecdsa: signature blob trailing data") ir in
  let? r_uint := mpint_to_uint "ecdsa: negative mpint in signature" r_raw in
  let? s_uint := mpint_to_uint "ecdsa: negative mpint in signature" s_raw in
  Ok (r_uint, s_uint).

Definition verify_with (p : EcdsaParams) (pk : ecdsa_pub) (msg sig_blob : bytes) : result unit :=
  let? r := expect_string (p_algorithm p) (Format "ecdsa: signature algorithm mismatch") (reader_new sig_blob) in
  let? (inner, r) := read_string r in
  let? _ := expect_end (Format "ecdsa: signature trailing data") r in
  let? sig := parse_components inner in
  bad_signature (ecdsa_verify (p_hash p) pk msg sig).

Definition p256_from_sec1 (sec1 : bytes) : result ecdsa_pub :=
  ok_or (ecdsa_from_sec1 P256 sec1) (Format "ecdsa: invalid SEC1 point").

Definition verify_p256_inner (pk : ecdsa_pub) (msg inner : bytes) : result unit :=
  let? sig := parse_components inner in bad_signature (ecdsa_verify EcdsaSha256 pk msg sig).

Definition public_blob (k : EcdsaHostKey) : bytes :=
  build_public_blob (params k) (ecdsa_to_sec1 (public k)).

Definition sign (k : EcdsaHostKey) (msg : bytes) : result bytes :=
  let? sk := ok_or (private k) (Crypto "ecdsa: no private key") in sign_with (params k) sk msg.

Definition verify (k : EcdsaHostKey) (msg sig_blob : bytes) : result unit :=
  verify_with (params k) (public k) msg sig_blob.

Definition from_public_blob (p : EcdsaParams) (blob : bytes) : result EcdsaHostKey :=
  let? pk := parse_public_blob p blob in Ok {| params := p; private := None; public := pk |}.
End Defs.
End Ecdsa.

Module Rsa.
Section Defs.
Context {S : SigPrims}.

Definition SSH_RSA : bytes := bs "ssh-rsa".

(** [RsaHash::algorithm] *)
Definition algorithm (h : RsaHash) : bytes :=
  match h with
  | RsaSha1 => SSH_RSA
  | RsaSha256 => bs "rsa-sha2-256"
  | RsaSha512 => bs "rsa-sha2-512"
  end.

Definition mpint_to_uint (m : bytes) : result Z := Ecdsa.mpint_to_uint "rsa: negative mpint" m.

Definition MIN_RSA_MODULUS_BITS : Z := 2048.
Definition MAX_RSA_EXPONENT_BITS : Z := 64.

Definition check_rsa_modulus_mpint (n_raw : bytes) : result unit :=
  let? n := mpint_to_uint n_raw in
  if n =? 0 then Err (Format "rsa: zero modulus") else
  if uint_bit_len n <? MIN_RSA_MODULUS_BITS then Err (Format "rsa: modulus shorter than 2048 bits") else Ok tt.

Definition check_rsa_exponent_mpint (e_raw : bytes) : result unit :=
  let? e := mpint_to_uint e_raw in
  if MAX_RSA_EXPONENT_BITS <? uint_bit_len e then Err (Format "rsa: public exponent wider than 64 bits")
  else Ok tt.

(** [n.bit_len().div_ceil(8)] *)
Definition byte_len (n : Z) : Z := (uint_bit_len n + 7) / 8.

(** [(n, e)] and the modulus length [k]. *)
Definition parse_rsa_public_blob (blob : bytes) : result ((Z * Z) * Z) :=
  let? r := expect_string SSH_RSA (Format "rsa: public key type mismatch") (reader_new blob) in
  let? (e_raw, r) := read_mpint r in
  let? (n_raw, r) := read_mpint r in
  let? _ := expect_end (Format "rsa: public key trailing data") r in
  let? _ := check_rsa_exponent_mpint e_raw in
  let? e := mpint_to_uint e_raw in
  let? n := mpint_to_uint n_raw in
  if n =? 0 then Err (Format "rsa: zero modulus") else
  if uint_bit_len n <? MIN_RSA_MODULUS_BITS then Err (Format "rsa: modulus shorter than 2048 bits") else
  if rsa_try_new n e then Ok ((n, e), byte_len n) else Err (Format "rsa: modulus out of accepted range").

Definition to_be_bytes (z : Z) : bytes := be_bytes (Z.to_nat (Z.max (byte_len z) 1)) z.

Definition build_rsa_public_blob (pk : Z * Z) : bytes :=
  writer_new |>> write_string SSH_RSA |>> write_mpint (to_be_bytes (snd pk))
    |>> write_mpint (to_be_bytes (fst pk)) |>> into_vec.

Definition sign_rsa (hash : RsaHash) (sk : RsaPrivateKey) (msg : bytes) : result bytes :=
  let? raw := ok_or (rsa_sign hash sk msg) (Crypto "rsa: signing failed") in
  Ok (writer_new |>> write_string (algorithm hash) |>> write_string raw |>> into_vec).

Definition verify_rsa (hash : RsaHash) (pk : Z * Z) (k : Z) (msg sig_blob : bytes) : result unit :=
  let? r := expect_string (algorithm hash) (Format "rsa: signature algorithm mismatch") (reader_new sig_blob) in
  let? (raw, r) := read_string r in
  let? _ := expect_end (Format "rsa: signature trailing data") r in
  if negb (len raw =? k) then Err (Format "rsa: signature length mismatch") else
  bad_signature (rsa_verify hash (fst pk) (snd pk) msg raw).

Definition check_rsa_primes (n p q : Z) : result unit :=
  if (uint_bit_len p <? 3) || (uint_bit_len q <? 3) || negb (Z.odd p) || negb (Z.odd q) || (p =? q)
  then Err (Format "rsa: invalid prime factors")
  else if negb (p * q =? n) then Err (Format "rsa: prime factors do not match modulus") else Ok tt.

(** [RsaSha1HostKey], [RsaSha2_256HostKey], [RsaSha2_512HostKey]: the macro's
    struct, with the hash that tells the three apart. *)
Record RsaHostKey := {
  hash : RsaHash; private : option RsaPrivateKey; public : Z * Z; k_len : Z
}.

Definition from_components (h : RsaHash) (n e d : Z) : result RsaHostKey :=
  if rsa_try_new n e then
    Ok {| hash := h; private := Some {| rsa_n := n; rsa_e := e; rsa_d := d; rsa_primes := None |};
          public := (n, e); k_len := byte_len n |}
  else Err (Crypto "rsa: modulus out of accepted range").

Definition from_components_with_primes (h : RsaHash) (n e d p q : Z) : result RsaHostKey :=
  let? _ := check_rsa_primes n p q in
  if rsa_try_new n e then
    Ok {| hash := h; private := Some {| rsa_n := n; rsa_e := e; rsa_d := d; rsa_primes := Some (p, q) |};
          public := (n, e); k_len := byte_len n |}
  else Err (Crypto "rsa: modulus out of accepted range").

Definition from_public_components (h : RsaHash) (n e : Z) : result RsaHostKey :=
  if rsa_try_new n e then
    Ok {| hash := h; private := None; public := (n, e); k_len := byte_len n |}
  else Err (Crypto "rsa: modulus out of accepted range").

Definition public_blob (k : RsaHostKey) : bytes := build_rsa_public_blob (public k).

Definition sign (k : RsaHostKey) (msg : bytes) : result bytes :=
  let? sk := ok_or (private k) (Crypto "rsa: no private key") in sign_rsa (hash k) sk msg.

Definition verify (k : RsaHostKey) (msg sig_blob : bytes) : result unit :=
  verify_rsa (hash k) (public k) (k_len k) msg sig_blob.

Definition from_public_blob (h : RsaHash) (blob : bytes) : result RsaHostKey :=
  let? (pk, k) := parse_rsa_public_blob blob in
  Ok {| hash := h; private := None; public := pk; k_len := k |}.

(** *** Moving a key to another hash ([HostKey::upgraded_for]) *)

(** [algs.split(',').any(|a| a.trim() == name)] *)
Definition csv_lists (algs name : bytes) : bool :=
  List.existsb (λ a, bytes_eqb (str_trim a) name) (split_on comma algs).

(** The loop sets one flag for each of the two names. *)
Definition preferred_rsa_sha2 (server_sig_algs : bytes) : option RsaHash :=
  if csv_lists server_sig_algs (algorithm RsaSha512) then Some RsaSha512
  else if csv_lists server_sig_algs (algorithm RsaSha256) then Some RsaSha256
  else None.

(** The process-wide switch [ALLOW_RSA_SHA1] is an argument. *)
Definition rsa_variant_for (allow_rsa_sha1 : bool) (k : RsaHostKey) (sig_algs : bytes) : option RsaHostKey :=
  let name := match preferred_rsa_sha2 sig_algs with
              | Some h => Some h
              | None => if allow_rsa_sha1 && csv_lists sig_algs SSH_RSA then Some RsaSha1 else None
              end in
  match name with
  | None => None
  | Some h =>
      if bool_decide (h = hash k) then None
      else Some {| hash := h; private := private k; public := public k; k_len := k_len k |}
  end.

Definition upgraded_for (allow_rsa_sha1 : bool) (k : RsaHostKey) (sig_algs : bytes) : option RsaHostKey :=
  match hash k with
  | RsaSha1 =>
      match preferred_rsa_sha2 sig_algs with
      | Some h => Some {| hash := h; private := private k; public := public k; k_len := k_len k |}
      | None => None
      end
  | _ => rsa_variant_for allow_rsa_sha1 k sig_algs
  end.
End Defs.
End Rsa.

(** The composite ML-DSA-44 and Ed25519 signature. *)
Module MlDsa.
Section Defs.
Context {C : PureCrypto} {S : SigPrims}.

Definition NAME : bytes := bs "ssh-mldsa44-ed25519".
Definition MLDSA_PK : Z := 1312.
Definition MLDSA_SIG : Z := 2420.
Definition PUBLIC_KEY_BYTES : Z := MLDSA_PK + 32.
Definition SIGNATURE_BYTES : Z := MLDSA_SIG + 64.
Definition PREFIX : bytes := bs "CompositeAlgorithmSignatures2025".
Definition LABEL : bytes := bs "COMPSIG-MLDSA44-Ed25519-SHA512".

Definition m_prime (msg : bytes) : bytes := PREFIX ++ LABEL ++ [Byte.x00] ++ sha512_digest msg.

Record MlDsa44Ed25519HostKey := { seeds : option bytes; public : bytes }.

Definition public_from_seeds (seeds : bytes) : bytes :=
  mldsa44_public (take 32 seeds) ++ ed25519_public (drop 32 seeds).

Definition from_seeds (seeds : bytes) : MlDsa44Ed25519HostKey :=
  {| seeds := Some seeds; public := public_from_seeds seeds |}.

Definition from_public (raw : bytes) : result MlDsa44Ed25519HostKey :=
  if negb (len raw =? PUBLIC_KEY_BYTES) then Err (Format "mldsa44-ed25519: public key length")
  else Ok {| seeds := None; public := raw |}.

Definition sign_raw (i : nat) (k : MlDsa44Ed25519HostKey) (msg : bytes) : result bytes :=
  let? seeds := ok_or (seeds k) (Crypto "mldsa44-ed25519: no private key") in
  let m := m_prime msg in
  let? mldsa_sig := ok_or (mldsa44_sign i (take 32 seeds) m LABEL) (Crypto "mldsa44-ed25519: sign") in
  Ok (mldsa_sig ++ ed25519_sign (drop 32 seeds) m).

Definition verify_raw (k : MlDsa44Ed25519HostKey) (msg sig : bytes) : bool :=
  if negb (len sig =? SIGNATURE_BYTES) then false else
  let mldsa_pk := slice (public k) 0 MLDSA_PK in
  if negb (mldsa44_public_ok mldsa_pk) then false else
  let m := m_prime msg in
  let mldsa_ok := mldsa44_verify mldsa_pk (slice sig 0 MLDSA_SIG) m LABEL in
  let ed_ok := ed25519_verify (slice (public k) MLDSA_PK (len (public k))) m (slice sig MLDSA_SIG (len sig)) in
  mldsa_ok && ed_ok.

Definition public_blob (k : MlDsa44Ed25519HostKey) : bytes :=
  writer_new |>> write_string NAME |>> write_string (public k) |>> into_vec.

Definition sign (i : nat) (k : MlDsa44Ed25519HostKey) (msg : bytes) : result bytes :=
  let? sig := sign_raw i k msg in
  Ok (writer_new |>> write_string NAME |>> write_string sig |>> into_vec).

Definition verify (k : MlDsa44Ed25519HostKey) (msg sig_blob : bytes) : result unit :=
  let? r := expect_string NAME (Format "mldsa44-ed25519: signature algorithm mismatch") (reader_new sig_blob) in
  let? (sig, r) := read_string r in
  let? _ := expect_end (Format "mldsa44-ed25519: signature trailing data") r in
  bad_signature (verify_raw k msg sig).

Definition from_public_blob (blob : bytes) : result MlDsa44Ed25519HostKey :=
  let? r := expect_string NAME (Format "mldsa44-ed25519: public key type mismatch") (reader_new blob) in
  let? (raw, r) := read_string r in
  let? _ := expect_end (Format "mldsa44-ed25519: public key trailing data") r in
  from_public raw.
End Defs.
End MlDsa.

(** FIDO security keys ([sk.rs]): verification only. *)
Module Sk.
Section Defs.
Context {C : PureCrypto} {S : SigPrims}.

Definition SK_ECDSA : bytes := bs "sk-ecdsa-sha2-nistp256@openssh.com".
Definition SK_ED25519 : bytes := bs "sk-ssh-ed25519@openssh.com".
Definition WEBAUTHN_SK_ECDSA : bytes := bs "webauthn-sk-ecdsa-sha2-nistp256@openssh.com".
Definition SK_USER_PRESENCE : Z := 1.
Definition SK_USER_VERIFICATION : Z := 4.
Definition WEBAUTHN_AD : Z := 64.
Definition WEBAUTHN_ED : Z := 128.

(** [.ok()?] *)
Definition ok_opt {A} (r : result A) : option A := match r with Ok a => Some a | Err _ => None end.

Definition sk_signature_flags (sig_blob : bytes) : option Z :=
  match read_string (reader_new sig_blob) with
  | Err _ => None
  | Ok (name, r) =>
      if negb (bytes_eqb name SK_ECDSA) && negb (bytes_eqb name SK_ED25519)
         && negb (bytes_eqb name WEBAUTHN_SK_ECDSA) then None
      else match read_string r with
           | Err _ => None
           | Ok (_, r) => ok_opt (let? (f, _) := read_u8 r in Ok f)
           end
  end.

Definition sk_signature_details (sig_blob : bytes) : option (Z * Z) :=
  match sk_signature_flags sig_blob with
  | None => None
  | Some _ =>
      ok_opt (let? (_, r) := read_string (reader_new sig_blob) in
              let? (_, r) := read_string r in
              let? (flags, r) := read_u8 r in
              let? (counter, _) := read_u32 r in
              Ok (flags, counter))
  end.

Definition is_sk_algorithm (name : bytes) : bool :=
  starts_with (bs "sk-") name || starts_with (bs "webauthn-sk-") name.

Definition signed_data (application : bytes) (flags counter : Z) (exts msghash : bytes) : bytes :=
  writer_new |>> write_raw (sha256_digest application) |>> write_u8 flags |>> write_u32 counter
    |>> write_raw exts |>> write_raw msghash |>> into_vec.

Definition read_application (r : Reader) : result bytes :=
  let? (app, r) := read_string r in
  let? _ := expect_end (Format "sk: public key trailing data") r in Ok app.

(** [ALPHABET[i]] of base64url. *)
Definition URL_ALPHABET : bytes := bs "ABCDEFGHIJKLMNOPQRSTUVWXYZabcdefghijklmnopqrstuvwxyz0123456789-_".
Definition url_char (n shift : Z) : byte :=
  nth (Z.to_nat (Z.land (Z.shiftr n shift) 63)) URL_ALPHABET Byte.x00.

(** [for chunk in data.chunks(3)] *)
Fixpoint base64url_nopad (data : bytes) : bytes :=
  match data with
  | [] => []
  | [a] => let n := Z.shiftl (u8 a) 16 in [url_char n 18; url_char n 12]
  | [a; b] =>
      let n := Z.lor (Z.shiftl (u8 a) 16) (Z.shiftl (u8 b) 8) in
      [url_char n 18; url_char n 12; url_char n 6]
  | a :: b :: c :: rest =>
      let n := Z.lor (Z.lor (Z.shiftl (u8 a) 16) (Z.shiftl (u8 b) 8)) (u8 c) in
      url_char n 18 :: url_char n 12 :: url_char n 6 :: url_char n 0 :: base64url_nopad rest
  end.

Definition quote : byte := Byte.x22.
(** A literal of the source that contains double quotes, written with [']. *)
Definition json (s : string) : bytes := (λ b, if Byte.eqb b Byte.x27 then quote else b) <$> bs s.

Definition webauthn_hash (msg origin client_data : bytes) (flags : Z) (exts : bytes) : result bytes :=
  if List.existsb (Byte.eqb quote) origin
     || negb (Z.land flags WEBAUTHN_AD =? 0)
     || negb (Bool.eqb (Z.land flags WEBAUTHN_ED =? 0) (is_nil exts))
  then Err (Format "sk-ecdsa: inconsistent webauthn signature")
  else
    let want := json "{'type':'webauthn.get','challenge':'" ++ base64url_nopad msg
                  ++ json "','origin':'" ++ origin ++ [quote] in
    if negb (starts_with want client_data) then Err BadSignature else Ok (sha256_digest client_data).

Record SkEcdsaP256Key := { ec_public : ecdsa_pub; ec_application : bytes }.

Definition sk_ecdsa_verify (k : SkEcdsaP256Key) (msg sig_blob : bytes) : result unit :=
  let? (name, r) := read_string (reader_new sig_blob) in
  let? webauthn :=
    (if bytes_eqb name WEBAUTHN_SK_ECDSA then Ok true
     else if bytes_eqb name SK_ECDSA then Ok false
     else Err (Format "sk-ecdsa: signature algorithm mismatch")) in
  let? (inner, r) := read_string r in
  let? (flags, r) := read_u8 r in
  let? (counter, r) := read_u32 r in
  let? (msghash, exts, r) :=
    (if (webauthn : bool) then
       let? (origin, r) := read_string r in
       let? (client_data, r) := read_string r in
       let? (exts, r) := read_string r in
       let? h := webauthn_hash msg origin client_data flags exts in
       Ok (h, exts, r)
     else Ok (sha256_digest msg, [], r)) in
  let? _ := expect_end (Format "sk-ecdsa: signature trailing data") r in
  Ecdsa.verify_p256_inner (ec_public k) (signed_data (ec_application k) flags counter exts msghash) inner.

Definition sk_ecdsa_from_public_blob (blob : bytes) : result SkEcdsaP256Key :=
  let? r := expect_string SK_ECDSA (Format "sk-ecdsa: public key type mismatch") (reader_new blob) in
  let? r := expect_string (bs "nistp256") (Format "sk-ecdsa: curve identifier mismatch") r in
  let? (point, r) := read_string r in
  let? pk := Ecdsa.p256_from_sec1 point in
  let? app := read_application r in
  Ok {| ec_public := pk; ec_application := app |}.

Record SkEd25519Key := { ed_public : bytes; ed_application : bytes }.

Definition sk_ed25519_verify (k : SkEd25519Key) (msg sig_blob : bytes) : result unit :=
  let? r := expect_string SK_ED25519 (Format "sk-ed25519: signature algorithm mismatch") (reader_new sig_blob) in
  let? (raw, r) := read_string r in
  let? (flags, r) := read_u8 r in
  let? (counter, r) := read_u32 r in
  let? _ := expect_end (Format "sk-ed25519: signature trailing data") r in
  if negb (len raw =? 64) then Err (Format "sk-ed25519: signature length") else
  bad_signature
    (ed25519_verify (ed_public k) (signed_data (ed_application k) flags counter [] (sha256_digest msg)) raw).

Definition sk_ed25519_from_public_blob (blob : bytes) : result SkEd25519Key :=
  let? r := expect_string SK_ED25519 (Format "sk-ed25519: public key type mismatch") (reader_new blob) in
  let? (pk, r) := read_string r in
  if negb (len pk =? 32) then Err (Format "sk-ed25519: public key length") else
  let? app := read_application r in
  Ok {| ed_public := pk; ed_application := app |}.
End Defs.
End Sk.
