(* ===== verification/Cert.v ===== *)
(** * OpenSSH certificates and the dispatch by algorithm name
      (src/cert/mod.rs, src/hostkey/mod.rs)

    [Certificate] is parsed field by field as the source does; a certificate's
    own checks ([check_validity], [check_principal], the critical options, the
    CA signature) follow.  [host_key_verify_by_name] builds the verifier of an
    algorithm name; for a certificate name it parses the certificate and calls
    itself on the embedded key. *)
From S2P Require Import Prelude Wire Text Glob Base64 Crypto KexMethods HostKey.

Definition MAX_CERT_BLOB : Z := 64 * 1024.
Definition MAX_LIST_ENTRIES : nat := 256.
Definition MAX_LIST_ELEM : Z := 8 * 1024.

Inductive CertType := User | Host.

#[export] Instance CertType_eq_dec : EqDecision CertType.
Proof. solve_decision. Defined.

Definition cert_type_from_u32 (v : Z) : result CertType :=
  if v =? 1 then Ok User else if v =? 2 then Ok Host else Err (Format "cert: unknown certificate type").

Definition MLDSA : bytes := bs "ssh-mldsa44-ed25519".
Definition MLDSA_CERT : bytes := bs "ssh-mldsa44-ed25519-cert".
Definition SK_ED25519_CERT : bytes := bs "sk-ssh-ed25519-cert-v01@openssh.com".
Definition SK_ECDSA_CERT : bytes := bs "sk-ecdsa-sha2-nistp256-cert-v01@openssh.com".
Definition WEBAUTHN_SK_ECDSA_CERT : bytes := bs "webauthn-sk-ecdsa-sha2-nistp256-cert-v01@openssh.com".
Definition ED25519_CERT : bytes := bs "ssh-ed25519-cert-v01@openssh.com".
Definition P256_CERT : bytes := bs "ecdsa-sha2-nistp256-cert-v01@openssh.com".
Definition P384_CERT : bytes := bs "ecdsa-sha2-nistp384-cert-v01@openssh.com".
Definition P521_CERT : bytes := bs "ecdsa-sha2-nistp521-cert-v01@openssh.com".
Definition RSA512_CERT : bytes := bs "rsa-sha2-512-cert-v01@openssh.com".
Definition RSA256_CERT : bytes := bs "rsa-sha2-256-cert-v01@openssh.com".
Definition RSA_CERT : bytes := bs "ssh-rsa-cert-v01@openssh.com".

Definition CERT_KEY_NAMES : list bytes :=
  [ED25519_CERT; P256_CERT; P384_CERT; P521_CERT; SK_ED25519_CERT; SK_ECDSA_CERT; WEBAUTHN_SK_ECDSA_CERT;
   RSA512_CERT; RSA256_CERT; MLDSA_CERT].

Definition is_cert_name (name : bytes) : bool :=
  ends_with (bs "-cert-v01@openssh.com") name || bytes_eqb name MLDSA_CERT.

(** A [match] on a string with one answer per literal. *)
Fixpoint match_name {A} (table : list (bytes * A)) (name : bytes) : option A :=
  match table with
  | [] => None
  | (k, v) :: t => if bytes_eqb k name then Some v else match_name t name
  end.

Definition cert_name_to_plain (name : bytes) : option bytes :=
  match_name
    [(ED25519_CERT, bs "ssh-ed25519"); (P256_CERT, bs "ecdsa-sha2-nistp256"); (P384_CERT, bs "ecdsa-sha2-nistp384");
     (P521_CERT, bs "ecdsa-sha2-nistp521"); (RSA512_CERT, bs "rsa-sha2-512"); (RSA256_CERT, bs "rsa-sha2-256");
     (RSA_CERT, bs "ssh-rsa"); (MLDSA_CERT, MLDSA); (SK_ED25519_CERT, Sk.SK_ED25519); (SK_ECDSA_CERT, Sk.SK_ECDSA);
     (WEBAUTHN_SK_ECDSA_CERT, Sk.WEBAUTHN_SK_ECDSA)] name.

Definition option_bytes_eqb (o : option bytes) (b : bytes) : bool :=
  match o with Some a => bytes_eqb a b | None => false end.

Definition cert_name_for_key_type (key_type : bytes) : option bytes :=
  if bytes_eqb key_type (bs "ssh-rsa") || bytes_eqb key_type (bs "rsa-sha2-512") then Some RSA512_CERT
  else if bytes_eqb key_type (bs "rsa-sha2-256") then Some RSA256_CERT
  else if bytes_eqb key_type MLDSA then Some MLDSA_CERT
  else List.find (λ n, option_bytes_eqb (cert_name_to_plain n) key_type) CERT_KEY_NAMES.

Definition blob_type_to_plain (name : bytes) : option bytes :=
  match_name
    [(ED25519_CERT, bs "ssh-ed25519"); (P256_CERT, bs "ecdsa-sha2-nistp256"); (P384_CERT, bs "ecdsa-sha2-nistp384");
     (P521_CERT, bs "ecdsa-sha2-nistp521"); (RSA_CERT, bs "ssh-rsa"); (MLDSA_CERT, MLDSA);
     (SK_ED25519_CERT, Sk.SK_ED25519); (SK_ECDSA_CERT, Sk.SK_ECDSA)] name.

Record Certificate := {
  key_type : bytes; nonce : bytes; embedded_pubkey_blob : bytes; serial : Z; cert_type : CertType;
  key_id : bytes; valid_principals : list bytes; valid_after : Z; valid_before : Z;
  critical_options : list (bytes * bytes); extensions : list (bytes * bytes);
  signature_key_blob : bytes; signature : bytes; signed_len : Z; raw : bytes
}.

#[export] Instance Certificate_eta : Etable Certificate := fun c => {|
  key_type := key_type c; nonce := nonce c; embedded_pubkey_blob := embedded_pubkey_blob c; serial := serial c;
  cert_type := cert_type c; key_id := key_id c; valid_principals := valid_principals c;
  valid_after := valid_after c; valid_before := valid_before c; critical_options := critical_options c;
  extensions := extensions c; signature_key_blob := signature_key_blob c; signature := signature c;
  signed_len := signed_len c; raw := raw c |}.

(** ** Parsing *)

Definition read_capped (cap : Z) (what : string) (r : Reader) : result (bytes * Reader) :=
  let? (s, r) := read_string r in
  if cap <? len s then Err (Format what) else Ok (s, r).

(** [room] is [MAX_LIST_ENTRIES - out.len()]. *)
Fixpoint parse_string_list_loop (room : nat) (r : Reader) : result (list bytes) :=
  if reader_is_empty r then Ok [] else
  match room with
  | O => Err (Format "cert: too many list entries")
  | S room =>
      let? (elem, r) := read_string r in
      if MAX_LIST_ELEM <? len elem then Err (Format "cert: list element too long") else
      let? s := from_utf8 (Format "cert: non-utf8 principal") elem in
      let? rest := parse_string_list_loop room r in Ok (s :: rest)
  end.

Definition parse_string_list (blob : bytes) : result (list bytes) :=
  parse_string_list_loop MAX_LIST_ENTRIES (reader_new blob).

(** [last] is the name of [out.last()]. *)
Fixpoint parse_pair_list_loop (room : nat) (last : option bytes) (r : Reader) : result (list (bytes * bytes)) :=
  if reader_is_empty r then Ok [] else
  match room with
  | O => Err (Format "cert: too many option entries")
  | S room =>
      let? (name, r) := read_string r in
      if MAX_LIST_ELEM <? len name then Err (Format "cert: option name too long") else
      let? (data, r) := read_string r in
      if MAX_LIST_ELEM <? len data then Err (Format "cert: option data too long") else
      let? name := from_utf8 (Format "cert: non-utf8 option name") name in
      if match last with Some l => negb (bytes_ltb l name) | None => false end
      then Err (Format "cert: option names must be strictly ascending (duplicate or unsorted)") else
      let? rest := parse_pair_list_loop room (Some name) r in Ok ((name, data) :: rest)
  end.

Definition parse_pair_list (blob : bytes) : result (list (bytes * bytes)) :=
  parse_pair_list_loop MAX_LIST_ENTRIES None (reader_new blob).

Section Parse.
Context {S : SigPrims}.

(** [w.write_string(name); w.write_string(field) ...] *)
Definition plain_blob (fields : list bytes) : bytes := w_buf (fold_left (λ w f, write_string f w) fields writer_new).

Definition ecdsa_cert_pubkey (plain want_curve : bytes) (r : Reader) : result (bytes * Reader) :=
  let? (curve, r) := read_string r in
  let? (point, r) := read_string r in
  if negb (bytes_eqb curve want_curve) then Err (Format "cert: ecdsa curve mismatch")
  else Ok (plain_blob [plain; curve; point], r).

Definition read_embedded_pubkey (key_type : bytes) (r : Reader) : result (bytes * Reader) :=
  if bytes_eqb key_type ED25519_CERT then
    let? (pk, r) := read_string r in
    if negb (len pk =? 32) then Err (Format "cert: ed25519 key length")
    else Ok (plain_blob [bs "ssh-ed25519"; pk], r)
  else if bytes_eqb key_type P256_CERT then ecdsa_cert_pubkey (bs "ecdsa-sha2-nistp256") (bs "nistp256") r
  else if bytes_eqb key_type P384_CERT then ecdsa_cert_pubkey (bs "ecdsa-sha2-nistp384") (bs "nistp384") r
  else if bytes_eqb key_type P521_CERT then ecdsa_cert_pubkey (bs "ecdsa-sha2-nistp521") (bs "nistp521") r
  else if bytes_eqb key_type MLDSA_CERT then
    let? (pk, r) := read_string r in
    let? _ := MlDsa.from_public pk in
    Ok (plain_blob [MLDSA; pk], r)
  else if bytes_eqb key_type SK_ED25519_CERT then
    let? (pk, r) := read_string r in
    if negb (len pk =? 32) then Err (Format "cert: ed25519 key length") else
    let? (app, r) := read_string r in
    Ok (plain_blob [Sk.SK_ED25519; pk; app], r)
  else if bytes_eqb key_type SK_ECDSA_CERT then
    let? (curve, r) := read_string r in
    if negb (bytes_eqb curve (bs "nistp256")) then Err (Format "cert: ecdsa curve mismatch") else
    let? (point, r) := read_string r in
    let? (app, r) := read_string r in
    Ok (plain_blob [Sk.SK_ECDSA; curve; point; app], r)
  else if bytes_eqb key_type RSA_CERT then
    let? (e, r) := read_string r in
    let? (n, r) := read_string r in
    let? _ := Rsa.check_rsa_modulus_mpint n in
    let? _ := Rsa.check_rsa_exponent_mpint e in
    Ok (plain_blob [bs "ssh-rsa"; e; n], r)
  else Err (Format "cert: unsupported certificate key type").

(** [Certificate::parse] up to the signature; what it returns awaits
    [signed_len], [signature] and [raw]. *)
Definition parse_fields (r : Reader) : result ((Z → bytes → bytes → Certificate) * Reader) :=
  let? (key_type_b, r) := read_string r in
  let? key_type := from_utf8 (Format "cert: non-utf8 key type") key_type_b in
  if match blob_type_to_plain key_type with None => true | Some _ => false end
  then Err (Format "cert: unsupported certificate key type") else
  let? (nonce, r) := read_capped MAX_LIST_ELEM "cert: nonce too long" r in
  let? (embedded, r) := read_embedded_pubkey key_type r in
  let? (serial, r) := read_u64 r in
  let? (type_code, r) := read_u32 r in
  let? cert_type := cert_type_from_u32 type_code in
  let? (key_id_b, r) := read_capped MAX_LIST_ELEM "cert: key id too long" r in
  let? key_id := from_utf8 (Format "cert: non-utf8 key id") key_id_b in
  let? (principals_blob, r) :=
    read_capped (Z.of_nat MAX_LIST_ENTRIES * MAX_LIST_ELEM) "cert: principals list too long" r in
  let? valid_principals := parse_string_list principals_blob in
  let? (valid_after, r) := read_u64 r in
  let? (valid_before, r) := read_u64 r in
  if valid_before <? valid_after then Err (Format "cert: valid_after after valid_before") else
  let? (crit_blob, r) :=
    read_capped (Z.of_nat MAX_LIST_ENTRIES * (2 * MAX_LIST_ELEM)) "cert: critical options too long" r in
  let? critical_options := parse_pair_list crit_blob in
  let? (ext_blob, r) :=
    read_capped (Z.of_nat MAX_LIST_ENTRIES * (2 * MAX_LIST_ELEM)) "cert: extensions too long" r in
  let? extensions := parse_pair_list ext_blob in
  let? (_, r) := read_capped MAX_LIST_ELEM "cert: reserved too long" r in
  let? (signature_key_blob, r) := read_capped MAX_LIST_ELEM "cert: signature key too long" r in
  Ok (λ signed_len signature raw,
      {| key_type := key_type; nonce := nonce; embedded_pubkey_blob := embedded; serial := serial;
         cert_type := cert_type; key_id := key_id; valid_principals := valid_principals;
         valid_after := valid_after; valid_before := valid_before; critical_options := critical_options;
         extensions := extensions; signature_key_blob := signature_key_blob; signature := signature;
         signed_len := signed_len; raw := raw |}, r).

Definition certificate_parse (blob : bytes) : result Certificate :=
  if MAX_CERT_BLOB <? len blob then Err (Format "cert: blob exceeds maximum size") else
  let? (fields, r) := parse_fields (reader_new blob) in
  let signed_len := len blob - remaining r in
  let? (signature, r) := read_capped MAX_LIST_ELEM "cert: signature too long" r in
  let? _ := expect_end (Format "cert: trailing data after certificate") r in
  Ok (fields signed_len signature blob).

Definition parse_openssh_line (line : bytes) : result Certificate :=
  match split_whitespace (str_trim line) with
  | [] => Err (Format "cert: empty line")
  | name :: rest =>
      let name := if bytes_eqb name RSA512_CERT || bytes_eqb name RSA256_CERT then RSA_CERT else name in
      if match blob_type_to_plain name with None => true | Some _ => false end
      then Err (Format "cert: line is not an OpenSSH certificate") else
      match rest with
      | [] => Err (Format "cert: missing base64 blob")
      | b64 :: _ =>
          let? blob := base64_decode b64 in
          let? cert := certificate_parse blob in
          if negb (bytes_eqb name (key_type cert)) then Err (Format "cert: line key-type disagrees with blob")
          else Ok cert
      end
  end.
End Parse.

(** [blob_type_to_plain(&self.key_type).expect(..)]; [parse] has checked it. *)
Definition embedded_algorithm (c : Certificate) : bytes := default [] (blob_type_to_plain (key_type c)).

(** ** Verifiers *)

(** [Box<dyn HostKeyVerify>]: the types that implement the trait. *)
Inductive Verifier `{SigPrims} :=
  | VEd25519 (k : Ed25519.Ed25519HostKey)
  | VMlDsa (k : MlDsa.MlDsa44Ed25519HostKey)
  | VEcdsa (k : Ecdsa.EcdsaHostKey)
  | VSkEcdsa (k : Sk.SkEcdsaP256Key)
  | VSkEd25519 (k : Sk.SkEd25519Key)
  | VRsa (k : Rsa.RsaHostKey).

Section Verify.
Context {C : PureCrypto} {S : SigPrims}.
(** The process-wide [ALLOW_RSA_SHA1]. *)
Context (allow_rsa_sha1 : bool).

Definition verifier_algorithm (v : Verifier) : bytes :=
  match v with
  | VEd25519 _ => Ed25519.NAME
  | VMlDsa _ => MlDsa.NAME
  | VEcdsa k => Ecdsa.p_algorithm (Ecdsa.params k)
  | VSkEcdsa _ => Sk.SK_ECDSA
  | VSkEd25519 _ => Sk.SK_ED25519
  | VRsa k => Rsa.algorithm (Rsa.hash k)
  end.

Definition verifier_verify (v : Verifier) (msg sig_blob : bytes) : result unit :=
  match v with
  | VEd25519 k => Ed25519.verify k msg sig_blob
  | VMlDsa k => MlDsa.verify k msg sig_blob
  | VEcdsa k => Ecdsa.verify k msg sig_blob
  | VSkEcdsa k => Sk.sk_ecdsa_verify k msg sig_blob
  | VSkEd25519 k => Sk.sk_ed25519_verify k msg sig_blob
  | VRsa k => Rsa.verify k msg sig_blob
  end.

(** The certificate's embedded key accepts this plain signature name. *)
Definition family_ok (embedded plain : bytes) : bool :=
  if bytes_eqb embedded (bs "ssh-rsa")
  then bytes_eqb plain (bs "rsa-sha2-256") || bytes_eqb plain (bs "rsa-sha2-512") || bytes_eqb plain (bs "ssh-rsa")
  else bytes_eqb plain embedded.

(** The body of [host_key_verify_by_name]; [self] is the recursive call. *)
Definition host_key_verify_step (self : bytes → bytes → result Verifier) (name blob : bytes) : result Verifier :=
  if bytes_eqb name (bs "ssh-ed25519") then let? k := Ed25519.from_public_blob blob in Ok (VEd25519 k)
  else if bytes_eqb name (bs "ssh-mldsa44-ed25519") then let? k := MlDsa.from_public_blob blob in Ok (VMlDsa k)
  else if bytes_eqb name (bs "ecdsa-sha2-nistp256") then
    let? k := Ecdsa.from_public_blob Ecdsa.P256_PARAMS blob in Ok (VEcdsa k)
  else if bytes_eqb name (bs "ecdsa-sha2-nistp384") then
    let? k := Ecdsa.from_public_blob Ecdsa.P384_PARAMS blob in Ok (VEcdsa k)
  else if bytes_eqb name (bs "ecdsa-sha2-nistp521") then
    let? k := Ecdsa.from_public_blob Ecdsa.P521_PARAMS blob in Ok (VEcdsa k)
  else if bytes_eqb name Sk.SK_ECDSA || bytes_eqb name Sk.WEBAUTHN_SK_ECDSA then
    let? k := Sk.sk_ecdsa_from_public_blob blob in Ok (VSkEcdsa k)
  else if bytes_eqb name Sk.SK_ED25519 then let? k := Sk.sk_ed25519_from_public_blob blob in Ok (VSkEd25519 k)
  else if bytes_eqb name (bs "ssh-rsa") then
    if negb allow_rsa_sha1 then
      Err (Unsupported "ssh-rsa (SHA-1) is disabled by default; call hostkey::set_allow_rsa_sha1(true) to opt in")
    else let? k := Rsa.from_public_blob RsaSha1 blob in Ok (VRsa k)
  else if bytes_eqb name (bs "rsa-sha2-256") then let? k := Rsa.from_public_blob RsaSha256 blob in Ok (VRsa k)
  else if bytes_eqb name (bs "rsa-sha2-512") then let? k := Rsa.from_public_blob RsaSha512 blob in Ok (VRsa k)
  else if is_cert_name name then
    let? plain := ok_or (cert_name_to_plain name) (Unsupported "certificate algorithm") in
    let? cert := certificate_parse blob in
    if negb (family_ok (embedded_algorithm cert) plain)
    then Err (Format "cert: negotiated name/key family mismatch")
    else self plain (embedded_pubkey_blob cert)
  else Err (Unsupported "host-key algorithm").

(** A certificate's plain name is not a certificate name: the recursion has
    depth two ([host_key_verify_by_name_eq]). *)
Definition host_key_verify_by_name (name blob : bytes) : result Verifier :=
  host_key_verify_step (host_key_verify_step (λ _ _, Err (Unsupported "host-key algorithm"))) name blob.

Definition verify_signature (alg key_blob msg sig_blob : bytes) : result unit :=
  let? v := host_key_verify_by_name alg key_blob in verifier_verify v msg sig_blob.

(** ** A certificate's own checks *)

Definition embedded_verifier (c : Certificate) (sig_blob : bytes) : result Verifier :=
  let? (sig_algo, _) := read_string (reader_new sig_blob) in
  let? sig_algo := from_utf8 (Format "cert: non-utf8 sig algo") sig_algo in
  let embedded := embedded_algorithm c in
  let compatible :=
    if bytes_eqb embedded (bs "ssh-rsa") then
      bytes_eqb sig_algo (bs "ssh-rsa") || bytes_eqb sig_algo (bs "rsa-sha2-256") || bytes_eqb sig_algo (bs "rsa-sha2-512")
    else if bytes_eqb embedded Sk.SK_ECDSA then
      bytes_eqb sig_algo Sk.SK_ECDSA || bytes_eqb sig_algo Sk.WEBAUTHN_SK_ECDSA
    else List.existsb (bytes_eqb embedded)
           [bs "ssh-ed25519"; bs "ecdsa-sha2-nistp256"; bs "ecdsa-sha2-nistp384"; bs "ecdsa-sha2-nistp521"; MLDSA;
            Sk.SK_ED25519]
         && bytes_eqb sig_algo embedded in
  if negb compatible then Err (Format "cert: signature algorithm not compatible with key")
  else host_key_verify_by_name sig_algo (embedded_pubkey_blob c).

Definition ca_algorithm (c : Certificate) : result bytes :=
  let? (name, _) := read_string (reader_new (signature c)) in
  from_utf8 (Format "cert: non-utf8 CA signature algo") name.

Definition signed_region (c : Certificate) : bytes := slice (raw c) 0 (signed_len c).

Definition verify_ca_signature (c : Certificate) (allowed_ca_algos : list bytes) : result unit :=
  let? ca_algo := map_err (ca_algorithm c) CertBadCaSignature in
  if negb (List.existsb (bytes_eqb ca_algo) allowed_ca_algos) then Err CertBadCaSignature else
  let? v := map_err (host_key_verify_by_name ca_algo (signature_key_blob c)) CertBadCaSignature in
  map_err (verifier_verify v (signed_region c) (signature c)) CertBadCaSignature.

Definition check_validity (c : Certificate) (now : Z) : result unit :=
  if now <? valid_after c then Err CertNotYetValid
  else if valid_before c <=? now then Err CertExpired else Ok tt.

Definition check_principal (c : Certificate) (name : bytes) : result unit :=
  match valid_principals c with
  | [] => Err CertPrincipalMismatch
  | _ =>
      let matched :=
        match cert_type c with
        | Host => List.existsb (λ p, glob_match (to_ascii_lowercase p) (to_ascii_lowercase name)) (valid_principals c)
        | User => List.existsb (λ p, bytes_eqb p name) (valid_principals c)
        end in
      if matched then Ok tt else Err CertPrincipalMismatch
  end.

Definition check_type (c : Certificate) (want : CertType) : result unit :=
  if bool_decide (cert_type c = want) then Ok tt else Err CertTypeMismatch.

Definition decode_option_string (data : bytes) : option bytes :=
  match read_string (reader_new data) with
  | Err _ => None
  | Ok (s, r) => if negb (reader_is_empty r) then None else if utf8_valid s then Some s else None
  end.

Definition unknown_critical_options (c : Certificate) : list bytes :=
  fst <$> List.filter (λ o, negb (bytes_eqb (fst o) (bs "force-command") || bytes_eqb (fst o) (bs "source-address")
                                  || bytes_eqb (fst o) (bs "verify-required"))) (critical_options c).

(** The second loop stops at the first malformed payload. *)
Definition malformed_option (o : bytes * bytes) : bool :=
  (bytes_eqb (fst o) (bs "force-command") || bytes_eqb (fst o) (bs "source-address"))
  && match decode_option_string (snd o) with None => true | Some _ => false end.

Definition require_known_critical_options (c : Certificate) : result unit :=
  match unknown_critical_options c with
  | _ :: _ => Err CertUnknownCriticalOption
  | [] => if List.existsb malformed_option (critical_options c)
          then Err (Format "cert: malformed critical option payload") else Ok tt
  end.

(** [iter().find(|(n, _)| n == name)] *)
Definition find_option (l : list (bytes * bytes)) (name : bytes) : option bytes :=
  snd <$> List.find (λ o, bytes_eqb (fst o) name) l.
Definition has_option (l : list (bytes * bytes)) (name : bytes) : bool :=
  List.existsb (λ o, bytes_eqb (fst o) name) l.

Definition critical_option (c : Certificate) (name : bytes) : option bytes := find_option (critical_options c) name.
Definition critical_option_string (c : Certificate) (name : bytes) : option bytes :=
  critical_option c name ≫= decode_option_string.
Definition has_extension (c : Certificate) (name : bytes) : bool := has_option (extensions c) name.

Definition to_openssh_line (c : Certificate) (comment : bytes) : bytes :=
  key_type c ++ bs " " ++ base64_encode (raw c) ++ (if is_nil comment then [] else bs " " ++ comment).
End Verify.

(** [config::algos::CA_SIGNATURE_DEFAULTS] *)
Definition CA_SIGNATURE_DEFAULTS : list bytes :=
  [bs "ssh-ed25519"; bs "ecdsa-sha2-nistp256"; bs "ecdsa-sha2-nistp384"; bs "ecdsa-sha2-nistp521";
   bs "sk-ssh-ed25519@openssh.com"; bs "sk-ecdsa-sha2-nistp256@openssh.com";
   bs "webauthn-sk-ecdsa-sha2-nistp256@openssh.com"; bs "rsa-sha2-512"; bs "rsa-sha2-256"].

(** ** Issuing ([CertificateBuilder]) *)

Record CertificateBuilder := {
  b_public_key : bytes; b_nonce : bytes; b_serial : Z; b_cert_type : CertType; b_key_id : bytes;
  b_valid_principals : list bytes; b_valid_after : Z; b_valid_before : Z;
  b_critical_options : list (bytes * bytes); b_extensions : list (bytes * bytes)
}.

Definition builder_new (public_key : bytes) (cert_type : CertType) (nonce : bytes) : CertificateBuilder := {|
  b_public_key := public_key; b_nonce := nonce; b_serial := 0; b_cert_type := cert_type; b_key_id := [];
  b_valid_principals := []; b_valid_after := 0; b_valid_before := U64_MAX;
  b_critical_options := []; b_extensions := [] |}.

Definition encode_option_string (value : bytes) : bytes := writer_new |>> write_string value |>> into_vec.

(** [sorted.sort_by(|a, b| a.0.cmp(&b.0))], a stable sort. *)
Fixpoint insert_pair (o : bytes * bytes) (l : list (bytes * bytes)) : list (bytes * bytes) :=
  match l with
  | [] => [o]
  | x :: l' => if bytes_ltb (fst x) (fst o) then x :: insert_pair o l' else o :: l
  end.
Definition sort_pairs (l : list (bytes * bytes)) : list (bytes * bytes) := fold_right insert_pair [] l.

Fixpoint write_sorted (prev : option bytes) (l : list (bytes * bytes)) (w : Writer) : result Writer :=
  match l with
  | [] => Ok w
  | (name, data) :: l' =>
      if option_bytes_eqb prev name then Err (Config "cert: duplicate option")
      else write_sorted (Some name) l' (w |>> write_string name |>> write_string data)
  end.

Definition write_pair_list (pairs : list (bytes * bytes)) : result bytes :=
  let? w := write_sorted None (sort_pairs pairs) writer_new in Ok (into_vec w).

Definition builder_key_type (plain : bytes) : option bytes :=
  match_name
    [(bs "ssh-ed25519", ED25519_CERT); (bs "ecdsa-sha2-nistp256", P256_CERT); (bs "ecdsa-sha2-nistp384", P384_CERT);
     (bs "ecdsa-sha2-nistp521", P521_CERT); (bs "ssh-rsa", RSA_CERT); (bs "ssh-mldsa44-ed25519", MLDSA_CERT);
     (bs "sk-ssh-ed25519@openssh.com", SK_ED25519_CERT); (bs "sk-ecdsa-sha2-nistp256@openssh.com", SK_ECDSA_CERT)] plain.

Definition builder_sign (b : CertificateBuilder) (ca_public_key : bytes) (sign : bytes → result bytes)
    : result Certificate :=
  let? (plain, key) := read_string (reader_new (b_public_key b)) in
  let? key_type := ok_or (builder_key_type plain) (Unsupported "cert: key type") in
  if b_valid_before b <? b_valid_after b then Err (Config "cert: valid_after after valid_before") else
  let w := writer_new |>> write_string key_type |>> write_string (b_nonce b)
             |>> write_raw (slice (b_public_key b) (len (b_public_key b) - remaining key) (len (b_public_key b)))
             |>> write_u64 (b_serial b)
             |>> write_u32 (match b_cert_type b with User => 1 | Host => 2 end)
             |>> write_string (b_key_id b) in
  let w := w |>> write_string (plain_blob (b_valid_principals b))
             |>> write_u64 (b_valid_after b) |>> write_u64 (b_valid_before b) in
  let? crit := write_pair_list (b_critical_options b) in
  let w := w |>> write_string crit in
  let? ext := write_pair_list (b_extensions b) in
  let w := w |>> write_string ext |>> write_string [] |>> write_string ca_public_key in
  let? signature := sign (into_vec w) in
  let? cert := certificate_parse (into_vec (w |>> write_string signature)) in
  if negb (bytes_eqb (embedded_pubkey_blob cert) (b_public_key b))
  then Err (Format "cert: unexpected public key encoding") else Ok cert.
