(* ===== verification/CertFacts.v ===== *)
(** * Names of keys, signatures and certificates agree

    The dispatch is the recursive function the source writes; a verifier built
    for a name only accepts signatures that carry this name, made by a key of
    the name's family; what a parsed certificate guarantees. *)
From S2P Require Import Prelude Wire Text Glob Base64 Crypto KexMethods HostKey Cert.

(** The algorithm name a key blob or signature blob begins with. *)
Definition leading_name (b : bytes) : option bytes := Sk.ok_opt (let? (n, _) := read_string (reader_new b) in Ok n).

Lemma expect_string_leading want e b r :
  expect_string want e (reader_new b) = Ok r → leading_name b = Some want.
Proof.
  unfold expect_string, leading_name. destruct (read_string _) as [[s r']|]; [|done].
  destruct (bytes_eqb_spec s want) as [->|]; [done|done].
Qed.

Section Names.
Context {C : PureCrypto} {S : SigPrims} (allow_rsa_sha1 : bool).
Implicit Types v : Verifier.

(** ** Signature names *)

Definition verifier_sig_names v : list bytes :=
  match v with VSkEcdsa _ => [Sk.SK_ECDSA; Sk.WEBAUTHN_SK_ECDSA] | _ => [verifier_algorithm v] end.

Lemma verify_sig_name v msg sig :
  verifier_verify v msg sig = Ok tt → ∃ n, leading_name sig = Some n ∧ n ∈ verifier_sig_names v.
Proof.
  destruct v as [k|k|k|k|k|k]; cbn [verifier_verify verifier_sig_names]; intros H;
    try (unfold Ed25519.verify, MlDsa.verify, Ecdsa.verify, Ecdsa.verify_with, Sk.sk_ed25519_verify, Rsa.verify,
           Rsa.verify_rsa in H;
         destruct (expect_string _ _ _) eqn:E; [|discriminate H]; apply expect_string_leading in E;
         eexists; split; [exact E|by constructor]).
  unfold Sk.sk_ecdsa_verify in H. unfold leading_name.
  destruct (read_string (reader_new sig)) as [[name r]|]; [|discriminate H]. exists name. split; [done|].
  destruct (bytes_eqb_spec name Sk.WEBAUTHN_SK_ECDSA) as [->|]; [by right; constructor|].
  destruct (bytes_eqb_spec name Sk.SK_ECDSA) as [->|]; [by constructor|discriminate H].
Qed.

(** The signature algorithm a name pins: a certificate name pins its plain form. *)
Definition plain_name (name : bytes) : bytes := default name (cert_name_to_plain name).

(** The key type that makes signatures of a plain name. *)
Definition key_family (plain : bytes) : bytes :=
  if bytes_eqb plain (bs "rsa-sha2-256") || bytes_eqb plain (bs "rsa-sha2-512") then bs "ssh-rsa"
  else if bytes_eqb plain Sk.WEBAUTHN_SK_ECDSA then Sk.SK_ECDSA else plain.

(** ** The recursion *)

Definition plain_arms : list bytes :=
  [bs "ssh-ed25519"; bs "ssh-mldsa44-ed25519"; bs "ecdsa-sha2-nistp256"; bs "ecdsa-sha2-nistp384";
   bs "ecdsa-sha2-nistp521"; Sk.SK_ECDSA; Sk.WEBAUTHN_SK_ECDSA; Sk.SK_ED25519; bs "ssh-rsa"; bs "rsa-sha2-256";
   bs "rsa-sha2-512"].

Lemma match_name_in {A} (t : list (bytes * A)) n (v : A) : match_name t n = Some v → (n, v) ∈ t.
Proof.
  induction t as [|[k w] t IH]; cbn [match_name]; [done|].
  destruct (bytes_eqb_spec k n) as [->|]; [intros [= ->]; left|right; auto].
Qed.

Lemma list_existsb_in (n : bytes) l : List.existsb (bytes_eqb n) l = true ↔ n ∈ l.
Proof.
  rewrite existsb_exists. split.
  - intros (x & Hx & ->%bytes_eqb_true). by apply list_elem_of_In.
  - intros Hn. exists n. split; [by apply list_elem_of_In|apply bytes_eqb_refl].
Qed.

Lemma cert_name_to_plain_arm name plain : cert_name_to_plain name = Some plain → plain ∈ plain_arms.
Proof.
  intros H%match_name_in. apply list_existsb_in.
  repeat (apply elem_of_cons in H as [[= -> ->]|H]; [by vm_compute|]). by apply elem_of_nil in H.
Qed.

Lemma step_plain_arm self self' plain blob :
  plain ∈ plain_arms →
  host_key_verify_step allow_rsa_sha1 self plain blob = host_key_verify_step allow_rsa_sha1 self' plain blob.
Proof.
  intros H. unfold host_key_verify_step.
  repeat (apply elem_of_cons in H as [->|H]; [eval_names; reflexivity|]). by apply elem_of_nil in H.
Qed.

Lemma step_ext self self' name blob :
  (∀ p b, p ∈ plain_arms → self p b = self' p b) →
  host_key_verify_step allow_rsa_sha1 self name blob = host_key_verify_step allow_rsa_sha1 self' name blob.
Proof.
  intros Hs. unfold host_key_verify_step.
  repeat match goal with |- (if ?c then ?x else _) = (if ?c then ?x else _) => destruct c; [exact eq_refl|] end.
  destruct (is_cert_name name); [|exact eq_refl].
  destruct (cert_name_to_plain name) as [plain|] eqn:E; cbn [ok_or]; [|exact eq_refl].
  destruct (certificate_parse blob) as [c|]; [|exact eq_refl].
  destruct (negb _); [exact eq_refl|]. eapply Hs, cert_name_to_plain_arm, E.
Qed.

Lemma host_key_verify_by_name_eq name blob :
  host_key_verify_by_name allow_rsa_sha1 name blob =
  host_key_verify_step allow_rsa_sha1 (host_key_verify_by_name allow_rsa_sha1) name blob.
Proof. apply step_ext. intros p b Hp. by apply step_plain_arm. Qed.

(** ** What the verifier of a plain name is *)

(** A [sk-ecdsa] key also makes WebAuthn signatures. *)
Definition sig_names (plain : bytes) : list bytes :=
  if bytes_eqb plain Sk.SK_ECDSA || bytes_eqb plain Sk.WEBAUTHN_SK_ECDSA
  then [Sk.SK_ECDSA; Sk.WEBAUTHN_SK_ECDSA] else [plain].

Lemma ed25519_key_name b k : Ed25519.from_public_blob b = Ok k → leading_name b = Some Ed25519.NAME.
Proof. unfold Ed25519.from_public_blob. intros H. chain H. by eapply expect_string_leading. Qed.

Lemma mldsa_key_name b k : MlDsa.from_public_blob b = Ok k → leading_name b = Some MlDsa.NAME.
Proof.
  unfold MlDsa.from_public_blob. destruct (expect_string _ _ _) eqn:E; [|done]. intros _.
  by eapply expect_string_leading.
Qed.

Lemma ecdsa_key_name p b k :
  Ecdsa.from_public_blob p b = Ok k → leading_name b = Some (Ecdsa.p_algorithm p) ∧ Ecdsa.params k = p.
Proof.
  unfold Ecdsa.from_public_blob, Ecdsa.parse_public_blob. intros H.
  destruct (expect_string _ _ _) eqn:E; [|done]. apply expect_string_leading in E. chain H. by injection H as <-.
Qed.

Lemma sk_ecdsa_key_name b k : Sk.sk_ecdsa_from_public_blob b = Ok k → leading_name b = Some Sk.SK_ECDSA.
Proof.
  unfold Sk.sk_ecdsa_from_public_blob. destruct (expect_string _ _ _) eqn:E; [|done]. intros _.
  by eapply expect_string_leading.
Qed.

Lemma sk_ed25519_key_name b k : Sk.sk_ed25519_from_public_blob b = Ok k → leading_name b = Some Sk.SK_ED25519.
Proof.
  unfold Sk.sk_ed25519_from_public_blob. destruct (expect_string _ _ _) eqn:E; [|done]. intros _.
  by eapply expect_string_leading.
Qed.

Lemma rsa_key_name h b k :
  Rsa.from_public_blob h b = Ok k → leading_name b = Some Rsa.SSH_RSA ∧ Rsa.hash k = h.
Proof.
  unfold Rsa.from_public_blob, Rsa.parse_rsa_public_blob. intros H.
  destruct (expect_string _ _ _) eqn:E; [|done]. apply expect_string_leading in E. split; [done|].
  chain H. by injection H as <-.
Qed.

Lemma step_plain_names self plain blob v :
  plain ∈ plain_arms → host_key_verify_step allow_rsa_sha1 self plain blob = Ok v →
  verifier_sig_names v = sig_names plain ∧ leading_name blob = Some (key_family plain) ∧
  (plain = bs "ssh-rsa" → allow_rsa_sha1 = true).
Proof.
  intros Hp. unfold host_key_verify_step, sig_names, key_family.
  repeat (apply elem_of_cons in Hp as [->|Hp];
    [eval_names; try (destruct allow_rsa_sha1; cbn [negb]; [|done]);
     match goal with |- (match ?m with Ok _ => _ | Err _ => _ end) = _ → _ => destruct m as [k|] eqn:E; [|done] end;
     intros [= <-]; cbn [verifier_sig_names verifier_algorithm];
     first [apply ed25519_key_name in E | apply mldsa_key_name in E | apply ecdsa_key_name in E as [E ->]
           | apply sk_ecdsa_key_name in E | apply sk_ed25519_key_name in E | apply rsa_key_name in E as [E ->]];
     split_and!; [reflexivity|exact E|done]|]).
  by apply elem_of_nil in Hp.
Qed.

Lemma step_inv self name blob v :
  host_key_verify_step allow_rsa_sha1 self name blob = Ok v →
  name ∈ plain_arms ∨
  (is_cert_name name = true ∧ ∃ plain c, cert_name_to_plain name = Some plain ∧ certificate_parse blob = Ok c ∧
     family_ok (embedded_algorithm c) plain = true ∧ self plain (embedded_pubkey_blob c) = Ok v).
Proof.
  destruct (List.existsb (bytes_eqb name) plain_arms) eqn:Ein; [intros _; left; by apply list_existsb_in|].
  cbn [List.existsb plain_arms] in Ein. rewrite !orb_false_iff in Ein.
  repeat match type of Ein with _ ∧ _ => let E := fresh in destruct Ein as [E Ein] end.
  unfold host_key_verify_step. repeat match goal with H : bytes_eqb name _ = false |- _ => rewrite H; clear H end.
  cbn [orb]. destruct (is_cert_name name); [|done].
  destruct (cert_name_to_plain name) as [plain|]; cbn [ok_or]; [|done].
  destruct (certificate_parse blob) as [c|]; [|done].
  destruct (family_ok (embedded_algorithm c) plain) eqn:Ef; cbn [negb]; [|done]. right. eauto 10.
Qed.

Lemma plain_arm_not_cert plain : plain ∈ plain_arms → is_cert_name plain = false ∧ cert_name_to_plain plain = None.
Proof.
  intros Hp. repeat (apply elem_of_cons in Hp as [->|Hp]; [by vm_compute|]). by apply elem_of_nil in Hp.
Qed.

(** The key a public-key or certificate blob presents under [name]. *)
Definition presented_key (name blob key : bytes) : Prop :=
  if is_cert_name name then ∃ c, certificate_parse blob = Ok c ∧ key = embedded_pubkey_blob c else key = blob.

(** C16: no algorithm confusion.  If the verifier built for an algorithm name
    accepts a signature, then the signature blob carries exactly the signature
    algorithm the name pins (for a certificate name its plain form; a
    security-key ECDSA key may also sign through WebAuthn), the key that made
    it, embedded in the certificate if the name is one, is of that algorithm's
    type, and SHA-1 RSA is only accepted when it has been switched on. *)
Theorem no_algorithm_confusion name blob v msg sig :
  host_key_verify_by_name allow_rsa_sha1 name blob = Ok v → verifier_verify v msg sig = Ok tt →
  ∃ key sn, presented_key name blob key ∧ leading_name key = Some (key_family (plain_name name)) ∧
    leading_name sig = Some sn ∧ sn ∈ sig_names (plain_name name) ∧
    (plain_name name = bs "ssh-rsa" → allow_rsa_sha1 = true).
Proof.
  intros Hv Hs. apply verify_sig_name in Hs as (sn & Hsn & Hin). rewrite host_key_verify_by_name_eq in Hv.
  unfold presented_key, plain_name. destruct (step_inv _ _ _ _ Hv) as [Hp|(Hc & plain & c & Hn & Hparse & _ & Hself)].
  - apply step_plain_names in Hv as (E & Hk & Ha); [|done]. destruct (plain_arm_not_cert name Hp) as [-> ->].
    cbn [default]. rewrite E in Hin. eauto 10.
  - rewrite Hc, Hn. cbn [default]. apply step_plain_names in Hself as (E & Hk & Ha);
      [|by eapply cert_name_to_plain_arm]. rewrite E in Hin. eauto 10.
Qed.

(** ** The WebAuthn certificate name *)

Lemma embedded_not_webauthn c : bytes_eqb Sk.WEBAUTHN_SK_ECDSA (embedded_algorithm c) = false.
Proof.
  unfold embedded_algorithm. destruct (blob_type_to_plain (key_type c)) as [p|] eqn:E; [|done].
  apply match_name_in in E. repeat (apply elem_of_cons in E as [[= _ ->]|E]; [by vm_compute|]).
  by apply elem_of_nil in E.
Qed.

(** No certificate verifies under the WebAuthn certificate name: its plain
    form is never the type of an embedded key, so every blob offered under it
    is refused, although [CERT_KEY_NAMES] lists the name. *)
Theorem webauthn_cert_refused blob :
  is_ok (host_key_verify_by_name allow_rsa_sha1 WEBAUTHN_SK_ECDSA_CERT blob) = false ∧
  WEBAUTHN_SK_ECDSA_CERT ∈ CERT_KEY_NAMES.
Proof.
  split; [|by apply list_existsb_in; vm_compute].
  destruct (host_key_verify_by_name _ _ _) as [v|] eqn:E; [|done]. rewrite host_key_verify_by_name_eq in E.
  destruct (step_inv _ _ _ _ E) as [Hp|(_ & plain & c & Hn & _ & Hf & _)].
  - apply list_existsb_in in Hp. by vm_compute in Hp.
  - assert (plain = Sk.WEBAUTHN_SK_ECDSA) as -> by (vm_compute in Hn; by injection Hn as <-).
    exfalso. revert Hf. unfold family_ok. rewrite embedded_not_webauthn. by destruct (bytes_eqb (embedded_algorithm c) _).
Qed.
End Names.
