(* ===== verification/CertParse.v ===== *)
(** * What a parsed certificate guarantees

    The bytes before the signature determine every field but the signature
    itself, so that the CA's signature covers all a server acts on; the
    parsed lists are within their bounds and strictly ordered. *)
From Stdlib Require Import Sorted.
From S2P Require Import Prelude Wire Text Glob Base64 Crypto KexMethods HostKey Cert CertFacts.

(** ** Reading depends on the bytes read only *)

Definition consumes {A} (f : Reader → result (A * Reader)) : Prop :=
  ∀ pre post v r', f (reader_at pre post) = Ok (v, r') →
  ∃ x post', post = x ++ post' ∧ r' = reader_at (pre ++ x) post' ∧
    ∀ q, fits_mem (pre ++ x ++ q) → f (reader_at pre (x ++ q)) = Ok (v, reader_at (pre ++ x) q).

Lemma consumes_string : consumes read_string.
Proof.
  intros pre post v r' H. apply read_string_inv in H as (post' & -> & Hl & ->).
  exists (be_bytes 4 (len v) ++ v), post'. rewrite <- app_assoc. split_and!; [done..|].
  intros q Hq. pose proof (read_string_at pre v q) as E. rewrite wrap32_small in E by done.
  rewrite <- !app_assoc in *. by rewrite E.
Qed.

Lemma consumes_u32 : consumes read_u32.
Proof.
  intros pre post v r' H. apply read_u32_inv in H as (post' & -> & Hv & ->).
  exists (be_bytes 4 v), post'. split_and!; [done..|]. intros q Hq. by rewrite read_u32_at.
Qed.

Lemma consumes_u64 : consumes read_u64.
Proof.
  intros pre post v r' H. apply read_u64_inv in H as (post' & -> & Hv & ->).
  exists (be_bytes 8 v), post'. split_and!; [done..|]. intros q Hq. by rewrite read_u64_at.
Qed.

Lemma consumes_ret {A} (v : A) : consumes (λ r, Ok (v, r)).
Proof.
  intros pre post v' r' [= <- <-]. exists [], post. rewrite app_nil_r. by split_and!.
Qed.

Lemma consumes_bind {A B} (f : Reader → result (A * Reader)) (g : A → Reader → result (B * Reader)) :
  consumes f → (∀ v, consumes (g v)) → consumes (λ r, let? (v, r) := f r in g v r).
Proof.
  intros Hf Hg pre post v r' H. destruct (f (reader_at pre post)) as [[u r1]|] eqn:E; [|done].
  apply Hf in E as (x & post1 & -> & -> & Hx). apply Hg in H as (y & post2 & -> & -> & Hy).
  exists (x ++ y), post2. rewrite <- !app_assoc. split_and!; [done..|]. intros q Hq.
  rewrite <- app_assoc in Hq |- *. rewrite Hx by done. rewrite Hy by (by rewrite <- app_assoc).
  by rewrite <- app_assoc.
Qed.

Lemma consumes_pure {A B} (m : result A) (g : A → Reader → result (B * Reader)) :
  (∀ v, consumes (g v)) → consumes (λ r, let? v := m in g v r).
Proof. intros Hg. destruct m as [a|e]; [apply Hg|]. by intros pre post v r'. Qed.

Lemma consumes_fail {A} e : consumes (λ _, @Err (A * Reader) e).
Proof. by intros pre post v r'. Qed.

Lemma consumes_if {A} (c : bool) (f g : Reader → result (A * Reader)) :
  consumes f → consumes g → consumes (λ r, if c then f r else g r).
Proof. by destruct c. Qed.

Create HintDb consumes.
#[export] Hint Resolve consumes_string consumes_u32 consumes_u64 consumes_ret consumes_fail : consumes.

(** Follows the structure of a parser. *)
Ltac consume :=
  repeat first
    [ progress intros
    | solve [auto with consumes nocore]
    | apply consumes_if
    | apply (consumes_bind _ _)
    | apply (consumes_pure _ _) ].

Lemma consumes_capped cap what : consumes (read_capped cap what).
Proof. unfold read_capped. consume. Qed.
#[export] Hint Resolve consumes_capped : consumes.

Lemma consumes_ecdsa plain curve : consumes (ecdsa_cert_pubkey plain curve).
Proof. unfold ecdsa_cert_pubkey. consume. Qed.
#[export] Hint Resolve consumes_ecdsa : consumes.

Lemma consumes_embedded kt : consumes (read_embedded_pubkey kt).
Proof. unfold read_embedded_pubkey. consume. Qed.
#[export] Hint Resolve consumes_embedded : consumes.

Lemma consumes_fields : consumes parse_fields.
Proof. unfold parse_fields. consume. Qed.

(** ** The signed region *)

Lemma parse_fields_shape r f r' :
  parse_fields r = Ok (f, r') →
  ∀ n s b, signed_len (f n s b) = n ∧ signature (f n s b) = s ∧ raw (f n s b) = b ∧
    ∀ s' b', f n s' b' = (f n s b) <| signature := s' |> <| raw := b' |>.
Proof. unfold parse_fields. intros H. chain H. by injection H as <- <-. Qed.

Lemma reader_is_empty_at pre post : reader_is_empty (reader_at pre post) = true → post = [].
Proof. unfold reader_is_empty. rewrite remaining_at. intros H%Z.eqb_eq. by apply len_0_nil. Qed.

Lemma certificate_parse_inv b c :
  certificate_parse b = Ok c →
  ∃ f x, b = x ++ be_bytes 4 (len (signature c)) ++ signature c ∧ c = f (len x) (signature c) b ∧
    signed_len c = len x ∧ raw c = b ∧ len b ≤ MAX_CERT_BLOB ∧
    parse_fields (reader_new b) = Ok (f, reader_at x (be_bytes 4 (len (signature c)) ++ signature c)) ∧
    ∀ q, fits_mem (x ++ q) → parse_fields (reader_new (x ++ q)) = Ok (f, reader_at x q).
Proof.
  unfold certificate_parse. destruct (Z.ltb_spec MAX_CERT_BLOB (len b)) as [|Hm]; [done|].
  destruct (parse_fields (reader_new b)) as [[f r]|] eqn:Ef; [|done]. pose proof (parse_fields_shape _ _ _ Ef) as Hsh.
  rewrite reader_new_at in Ef. pose proof Ef as Ef'. apply consumes_fields in Ef as (x & post & -> & -> & Hx).
  cbn [app] in *. unfold read_capped, expect_end.
  destruct (read_string (reader_at x post)) as [[s r]|] eqn:Es; [|done].
  destruct (MAX_LIST_ELEM <? len s); [done|]. apply read_string_inv in Es as (post' & -> & Hl & ->).
  destruct (reader_is_empty _) eqn:Ee; [|done]. apply reader_is_empty_at in Ee as ->. rewrite app_nil_r in *.
  rewrite remaining_at, (len_app x), Z.add_simpl_r. intros <-%Ok_inj. exists f, x.
  destruct (Hsh (len x) s (x ++ be_bytes 4 (len s) ++ s)) as (-> & -> & -> & _).
  split_and!; [done..|by rewrite <- len_app|done|]. intros q Hq. by apply Hx.
Qed.

Lemma signed_region_at b c : certificate_parse b = Ok c → b = signed_region c ++ be_bytes 4 (len (signature c)) ++ signature c.
Proof.
  intros H. apply certificate_parse_inv in H as (f & x & Hb & _ & Hn & Hr & _). unfold signed_region. rewrite Hn, Hr, Hb.
  f_equal. exact (eq_sym (slice_at [] x _)).
Qed.

(** The certificate with another signature, in its blob. *)
Definition resigned (c : Certificate) (sig blob : bytes) : Certificate := c <| signature := sig |> <| raw := blob |>.

(** C32: the CA's signature covers everything.  Two certificates with the same
    signed region have the same key, type, serial, principals, validity window,
    options, extensions and CA key; they can differ in the signature only, and
    the blob is the signed region followed by the signature. *)
Theorem signature_covers_fields b1 b2 c1 c2 :
  certificate_parse b1 = Ok c1 → certificate_parse b2 = Ok c2 → signed_region c1 = signed_region c2 →
  c2 = resigned c1 (signature c2) b2 ∧
  b1 = signed_region c1 ++ be_bytes 4 (len (signature c1)) ++ signature c1 ∧
  b2 = signed_region c1 ++ be_bytes 4 (len (signature c2)) ++ signature c2.
Proof.
  intros H1 H2 E. pose proof (signed_region_at _ _ H1) as B1. pose proof (signed_region_at _ _ H2) as B2.
  apply certificate_parse_inv in H1 as (f1 & x1 & Hb1 & Hc1 & _ & _ & Hm1 & Hf1 & _).
  apply certificate_parse_inv in H2 as (f2 & x2 & Hb2 & Hc2 & _ & _ & Hm2 & Hf2 & Hq2).
  assert (x1 = signed_region c1) as -> by (rewrite Hb1 in B1 at 1; by apply app_inv_tail in B1).
  assert (x2 = signed_region c1) as -> by (rewrite E; rewrite Hb2 in B2 at 1; by apply app_inv_tail in B2).
  rewrite <- E in B2. split_and!; [|done..]. pose proof (parse_fields_shape _ _ _ Hf1) as Hsh.
  rewrite Hb1 in Hf1. rewrite Hq2 in Hf1.
  2:{ unfold fits_mem. rewrite <- Hb1. unfold MAX_CERT_BLOB in Hm1. lia. }
  injection Hf1 as ->. rewrite Hc2 at 1. rewrite Hc1 at 2. apply Hsh.
Qed.

(** ** Well-formed certificates *)

Definition string_bytes (s : bytes) : bytes := be_bytes 4 (wrap32 (len s)) ++ s.

Lemma plain_blob_concat fields : plain_blob fields = concat (string_bytes <$> fields).
Proof.
  unfold plain_blob. transitivity (w_buf writer_new ++ concat (string_bytes <$> fields)); [|done].
  generalize writer_new. induction fields as [|f l IH]; intros w; cbn [fold_left fmap list_fmap concat].
  - by rewrite app_nil_r.
  - rewrite IH. unfold write_string, write_u32, string_bytes; cbn [w_buf]. by rewrite <- !app_assoc.
Qed.

Lemma len_string_bytes s : len (string_bytes s) = 4 + len s.
Proof. unfold string_bytes. by autorewrite with lens. Qed.

Lemma leading_plain_blob n l :
  is_u32 (len n) → fits_mem (plain_blob (n :: l)) → leading_name (plain_blob (n :: l)) = Some n.
Proof.
  intros Hn. rewrite plain_blob_concat. cbn [fmap list_fmap concat]. unfold string_bytes at 1 3. unfold leading_name.
  rewrite <- app_assoc, reader_new_at. intros Hm. by rewrite read_string_at.
Qed.

(** Names of options in the order the parser enforces. *)
Definition ascending (l : list (bytes * bytes)) : Prop :=
  StronglySorted (λ a b, bytes_ltb (fst a) (fst b) = true) l.

Lemma bytes_ltb_trans a b c : bytes_ltb a b = true → bytes_ltb b c = true → bytes_ltb a c = true.
Proof.
  revert b c. induction a as [|x a IH]; intros [|y b] [|z c]; cbn [bytes_ltb]; try done.
  rewrite !orb_true_iff, !andb_true_iff, !Z.ltb_lt, !Z.eqb_eq.
  intros [?|[? ?]] [?|[? ?]]; [left; lia..|]. right. split; [lia|eauto].
Qed.

Lemma bytes_ltb_irrefl a : bytes_ltb a a = false.
Proof. induction a as [|x a IH]; [done|]. cbn [bytes_ltb]. rewrite IH, Z.ltb_irrefl. by destruct (_ =? _). Qed.

Definition after (last : option bytes) (o : bytes * bytes) : Prop :=
  match last with Some n => bytes_ltb n (fst o) = true | None => True end.

Definition option_ok (o : bytes * bytes) : Prop :=
  len (fst o) ≤ MAX_LIST_ELEM ∧ len (snd o) ≤ MAX_LIST_ELEM ∧ utf8_valid (fst o) = true.

Lemma parse_pair_list_loop_spec room last r l :
  parse_pair_list_loop room last r = Ok l →
  ascending l ∧ Forall (after last) l ∧ Forall option_ok l ∧ (length l ≤ room)%nat.
Proof.
  revert last r l. induction room as [|room IH]; intros last r l; cbn [parse_pair_list_loop].
  { destruct (reader_is_empty r); [|done]. intros [= <-]. repeat constructor. }
  destruct (reader_is_empty r). { intros [= <-]. repeat constructor; cbn; lia. }
  intros H. destruct (read_string r) as [[name r1]|]; [|done]. destruct (Z.ltb_spec MAX_LIST_ELEM (len name)); [done|].
  destruct (read_string r1) as [[data r2]|]; [|done]. destruct (Z.ltb_spec MAX_LIST_ELEM (len data)); [done|].
  destruct (from_utf8 _ name) as [name'|] eqn:Eu; [|done]. apply from_utf8_inv in Eu as [-> Hu].
  destruct (match last with Some _ => _ | None => _ end) eqn:El; [done|].
  destruct (parse_pair_list_loop room (Some name) r2) as [rest|] eqn:Er; [|done]. injection H as <-.
  apply IH in Er as (Hs & Ha & Ho & Hn). assert (Hlast : after last (name, data)).
  { destruct last as [n|]; [|done]. by apply negb_false_iff in El. }
  split_and!; [constructor; [done|]|constructor; [done|]|constructor; [done|done]|cbn; lia].
  - eapply Forall_impl; [|exact Ha]. intros o. done.
  - eapply Forall_impl; [|exact Ha]. intros o. unfold after. destruct last as [n|]; [|done]. by apply bytes_ltb_trans.
Qed.

Lemma parse_string_list_loop_spec room r l :
  parse_string_list_loop room r = Ok l →
  Forall (λ s, len s ≤ MAX_LIST_ELEM ∧ utf8_valid s = true) l ∧ (length l ≤ room)%nat.
Proof.
  revert r l. induction room as [|room IH]; intros r l; cbn [parse_string_list_loop].
  { destruct (reader_is_empty r); [|done]. intros [= <-]. repeat constructor. }
  destruct (reader_is_empty r). { intros [= <-]. repeat constructor; cbn; lia. }
  destruct (read_string r) as [[s r1]|]; [|done]. destruct (Z.ltb_spec MAX_LIST_ELEM (len s)); [done|].
  destruct (from_utf8 _ s) as [s'|] eqn:Eu; [|done]. apply from_utf8_inv in Eu as [-> Hu].
  destruct (parse_string_list_loop room r1) as [rest|] eqn:Er; [|done]. intros [= <-].
  apply IH in Er as [Hf Hn]. split; [by constructor|cbn; lia].
Qed.

(** An embedded RSA key obeys the bounds of plain RSA keys. *)
Definition rsa_within (kt blob : bytes) : Prop :=
  kt = RSA_CERT → ∃ e n, blob = plain_blob [bs "ssh-rsa"; e; n] ∧
    Rsa.check_rsa_modulus_mpint n = Ok tt ∧ Rsa.check_rsa_exponent_mpint e = Ok tt.

Record cert_wf (c : Certificate) : Prop := {
  wf_type : blob_type_to_plain (key_type c) = Some (embedded_algorithm c);
  wf_key : leading_name (embedded_pubkey_blob c) = Some (embedded_algorithm c);
  wf_rsa : rsa_within (key_type c) (embedded_pubkey_blob c);
  wf_serial : is_u64 (serial c);
  wf_window : is_u64 (valid_after c) ∧ valid_after c ≤ valid_before c ∧ is_u64 (valid_before c);
  wf_key_id : utf8_valid (key_id c) = true;
  wf_principals : Forall (λ s, len s ≤ MAX_LIST_ELEM ∧ utf8_valid s = true) (valid_principals c) ∧
    (length (valid_principals c) ≤ MAX_LIST_ENTRIES)%nat;
  wf_critical : ascending (critical_options c) ∧ Forall option_ok (critical_options c) ∧
    (length (critical_options c) ≤ MAX_LIST_ENTRIES)%nat;
  wf_extensions : ascending (extensions c) ∧ Forall option_ok (extensions c) ∧
    (length (extensions c) ≤ MAX_LIST_ENTRIES)%nat;
}.

Lemma len_slice_le l from to : len (slice l from to) ≤ Z.max 0 (to - from).
Proof. unfold slice, len. rewrite length_take. lia. Qed.

Lemma read_take_len_le n r s r' : read_take n r = Ok (s, r') → len s ≤ Z.max 0 n.
Proof.
  unfold read_take. intros H. chain H. injection H as <- _. pose proof (len_slice_le (r_buf r) (r_pos r) (r_pos r + n)). lia.
Qed.

Lemma read_u32_range r v r' : read_u32 r = Ok (v, r') → is_u32 v.
Proof.
  unfold read_u32. destruct (read_take 4 r) as [[b r1]|] eqn:E; [|done]. intros [= <- _].
  apply read_take_len_le in E. pose proof (be_value_range b) as Hr.
  pose proof (Z.pow_le_mono_r 256 (len b) 4 ltac:(lia) ltac:(lia)). width_lia.
Qed.

Lemma read_u64_range r v r' : read_u64 r = Ok (v, r') → is_u64 v.
Proof.
  unfold read_u64. destruct (read_take 8 r) as [[b r1]|] eqn:E; [|done]. intros [= <- _].
  apply read_take_len_le in E. pose proof (be_value_range b) as Hr.
  pose proof (Z.pow_le_mono_r 256 (len b) 8 ltac:(lia) ltac:(lia)). width_lia.
Qed.

Lemma read_string_range r s r' : read_string r = Ok (s, r') → is_u32 (len s).
Proof.
  unfold read_string. destruct (read_u32 r) as [[n r1]|] eqn:E; [|done]. apply read_u32_range in E.
  intros H%read_take_len_le. pose proof (len_nonneg s). width_lia.
Qed.

Lemma leading_fields n l :
  len n ≤ 64 → Forall (λ s, is_u32 (len s)) l → (length l ≤ 3)%nat → leading_name (plain_blob (n :: l)) = Some n.
Proof.
  intros Hn Hl H3. pose proof (len_nonneg n). apply leading_plain_blob; [width_lia|].
  rewrite plain_blob_concat. cbn [fmap list_fmap concat]. unfold fits_mem. rewrite len_app, len_string_bytes.
  destruct Hl as [|a l Ha [|b l' Hb [|c l'' Hc [|]]]]; cbn [fmap list_fmap concat length] in *; try lia;
    rewrite ?len_app, ?len_string_bytes, ?len_nil; width_lia.
Qed.

Lemma read_embedded_spec kt r blob r' plain :
  read_embedded_pubkey kt r = Ok (blob, r') → blob_type_to_plain kt = Some plain →
  leading_name blob = Some plain ∧ rsa_within kt blob.
Proof.
  intros H Hp. apply match_name_in in Hp. revert H. unfold read_embedded_pubkey, ecdsa_cert_pubkey.
  repeat (apply elem_of_cons in Hp as [[= -> ->]|Hp];
    [eval_names; intros H; chain H; apply Ok_inj, pair_equal_spec in H as [<- <-];
     split; [apply leading_fields; [by vm_compute|repeat (constructor; [by eapply read_string_range|]); constructor|cbn; lia]
            |intros Hk; first [by vm_compute in Hk | repeat match goal with u : unit |- _ => destruct u end; by eexists _, _]]|]).
  by apply elem_of_nil in Hp.
Qed.

Lemma read_capped_inv cap what r s r' : read_capped cap what r = Ok (s, r') → len s ≤ cap.
Proof. unfold read_capped. intros H. chain H. by apply Ok_inj, pair_equal_spec in H as [<- _]. Qed.

Lemma parse_wf b c : certificate_parse b = Ok c → cert_wf c.
Proof.
  intros H. apply certificate_parse_inv in H as (f & x & _ & -> & _ & _ & _ & Hf & _).
  unfold parse_fields in Hf. chain Hf. apply Ok_inj, pair_equal_spec in Hf as [<- _].
  repeat match goal with
  | H : from_utf8 _ _ = Ok _ |- _ => apply from_utf8_inv in H as [-> ?]
  | H : read_u64 _ = Ok _ |- _ => apply read_u64_range in H
  | H : parse_string_list _ = Ok _ |- _ => apply parse_string_list_loop_spec in H
  | H : parse_pair_list _ = Ok _ |- _ => apply parse_pair_list_loop_spec in H as (? & _ & ? & ?)
  | H : context [blob_type_to_plain ?k] |- _ =>
      lazymatch type of H with (match _ with _ => _ end) = false => destruct (blob_type_to_plain k) eqn:?; [clear H|discriminate H] end
  end.
  match goal with H : read_embedded_pubkey _ _ = Ok _, K : blob_type_to_plain _ = Some _ |- _ =>
    destruct (read_embedded_spec _ _ _ _ _ H K); split; unfold embedded_algorithm; cbn [key_type]; rewrite ?K; done end.
Qed.

(** A certificate that parses is well formed: its type is one the build
    knows and the embedded key blob is of that type, an RSA key obeys the
    modulus floor and the exponent cap, the integers have their width and the
    window is not reversed, texts are UTF-8, the lists respect their bounds and
    the option names strictly ascend, so that no name occurs twice. *)
Theorem certificate_parse_wf b c : certificate_parse b = Ok c → cert_wf c.
Proof. exact (parse_wf b c). Qed.
