(* ===== verification/SignKey.v ===== *)
(** * Keys that sign (the trait [HostKey] of src/hostkey/mod.rs)

    [HostKeyTrait] is the trait; [SoftKey] collects the key types of
    [HostKey] that hold private keys, and [CertKey] wraps a key of any type
    with its certificate (src/hostkey/cert.rs).  What a key signs, the verifier
    of its algorithm accepts. *)
From S2P Require Import Prelude Wire Text Crypto KexMethods HostKey Cert.

Class HostKeyTrait (T : Type) := {
  key_algorithm : T → bytes;
  key_public_blob : T → bytes;
  (** the answer to the [i]-th signature asked for *)
  key_sign : nat → T → (* msg *) bytes → result bytes;
  key_upgraded_for : T → (* server_sig_algs *) bytes → option T;
}.

(** ** Keys in memory *)

Inductive SoftKey `{SigPrims} :=
  | KEd25519 (k : Ed25519.Ed25519HostKey)
  | KMlDsa (k : MlDsa.MlDsa44Ed25519HostKey)
  | KEcdsa (k : Ecdsa.EcdsaHostKey)
  | KRsa (k : Rsa.RsaHostKey).

(** Only the RSA types override the default [upgraded_for]. *)
Definition soft_key_trait {C : PureCrypto} {S : SigPrims} (allow_rsa_sha1 : bool) : HostKeyTrait SoftKey := {|
  key_algorithm k :=
    match k with
    | KEd25519 _ => Ed25519.NAME
    | KMlDsa _ => MlDsa.NAME
    | KEcdsa k => Ecdsa.p_algorithm (Ecdsa.params k)
    | KRsa k => Rsa.algorithm (Rsa.hash k)
    end;
  key_public_blob k :=
    match k with
    | KEd25519 k => Ed25519.public_blob k
    | KMlDsa k => MlDsa.public_blob k
    | KEcdsa k => Ecdsa.public_blob k
    | KRsa k => Rsa.public_blob k
    end;
  key_sign i k msg :=
    match k with
    | KEd25519 k => Ed25519.sign k msg
    | KMlDsa k => MlDsa.sign i k msg
    | KEcdsa k => Ecdsa.sign k msg
    | KRsa k => Rsa.sign k msg
    end;
  key_upgraded_for k algs :=
    match k with KRsa k => KRsa <$> Rsa.upgraded_for allow_rsa_sha1 k algs | _ => None end
|}.

(** ** Keys with a certificate (cert.rs) *)

Inductive CertKey (T : Type) :=
  | CertHostKey (inner : T) (cert_blob cert_algo : bytes)
  | UpgradedCert (inner : T) (cert_blob cert_algo : bytes).
Arguments CertHostKey {T}. Arguments UpgradedCert {T}.

Definition cert_host_key_new {T} `{!HostKeyTrait T} (inner : T) (cert : Certificate) (cert_algo : bytes)
    : result (CertKey T) :=
  if negb (bytes_eqb (key_public_blob inner) (embedded_pubkey_blob cert))
  then Err (Config "certificate embedded key does not match the host/identity key")
  else Ok (CertHostKey inner (raw cert) cert_algo).

(** The table of [upgraded_for]: certificate name and signature name. *)
Definition RSA_CERTS : list (bytes * bytes) :=
  [(bs "rsa-sha2-512-cert-v01@openssh.com", bs "rsa-sha2-512");
   (bs "rsa-sha2-256-cert-v01@openssh.com", bs "rsa-sha2-256");
   (bs "ssh-rsa-cert-v01@openssh.com", bs "ssh-rsa")].

Definition cert_upgraded_for {T} `{!HostKeyTrait T} (inner : T) (cert_blob cert_algo allowed : bytes)
    : option (CertKey T) :=
  if negb (List.existsb (λ '(c, _), bytes_eqb c cert_algo) RSA_CERTS) then None else
  let listed := Rsa.csv_lists allowed in
  match List.find (λ '(c, s), listed c || listed s) RSA_CERTS with
  | None => None
  | Some (cert_algo, sig) =>
      match key_upgraded_for inner sig with
      | None => None
      | Some inner =>
          if negb (bytes_eqb (key_algorithm inner) sig) then None
          else Some (UpgradedCert inner cert_blob cert_algo)
      end
  end.

#[export] Instance cert_key_trait {T} `{!HostKeyTrait T} : HostKeyTrait (CertKey T) := {|
  key_algorithm k := match k with CertHostKey _ _ a | UpgradedCert _ _ a => a end;
  key_public_blob k := match k with CertHostKey _ b _ | UpgradedCert _ b _ => b end;
  key_sign i k msg := match k with CertHostKey n _ _ | UpgradedCert n _ _ => key_sign i n msg end;
  key_upgraded_for k allowed :=
    match k with
    | CertHostKey n b a => cert_upgraded_for n b a allowed
    | UpgradedCert _ _ _ => None
    end
|}.

(** * What a key signs, its verifier accepts

    For every key type that holds a private key, the verifier that
    [host_key_verify_by_name] builds from the key's own name and public blob
    accepts the key's signatures; the same for a key presented with its
    certificate, and for a key moved to another RSA hash. *)
From S2P Require Import WireLoop KexMethodFacts CertFacts CertParse.

(** ** Blobs *)

Definition small (s : bytes) : Prop := len s ≤ 1048576.

Lemma small_u32 s : small s → is_u32 (len s).
Proof. unfold small. pose proof (len_nonneg s). width_lia. Qed.

Lemma write_mpint_string m w : small m → write_mpint m w = write_string (mpint_body m) w.
Proof.
  intros Hm. unfold write_mpint, mpint_body, small in *. pose proof (strip_zeros_len m).
  destruct (strip_zeros m) as [|b s]; [unfold write_string, write_u32; cbn [w_buf]; by rewrite app_nil_r|].
  destruct (negb _); unfold write_string, write_u8, write_raw, write_u32; cbn [w_buf].
  - rewrite (len_cons Byte.x00), (Z.add_comm 1). f_equal. by app_norm.
  - done.
Qed.

Lemma skip_zeros_value m : be_value (Ecdsa.skip_zeros m) = be_value m.
Proof.
  induction m as [|b m IH]; [done|]. cbn [Ecdsa.skip_zeros]. destruct m as [|c m]; [done|].
  destruct (Z.eqb_spec (u8 b) 0) as [Eb|]; [|done]. rewrite IH, (be_value_cons b), Eb. lia.
Qed.

Lemma mpint_to_uint_body what m : Ecdsa.mpint_to_uint what (mpint_body m) = Ok (be_value m).
Proof.
  rewrite <- (mpint_body_value m). unfold mpint_body. destruct (strip_zeros m) as [|b s]; [done|].
  destruct (negb (Z.land (u8 b) 128 =? 0)) eqn:E; unfold Ecdsa.mpint_to_uint; rewrite ?E; f_equal.
  - apply (skip_zeros_value (Byte.x00 :: b :: s)).
  - apply skip_zeros_value.
Qed.

Lemma expect_string_at pre s post e :
  fits_mem (pre ++ be_bytes 4 (wrap32 (len s)) ++ s ++ post) → is_u32 (len s) →
  expect_string s e (reader_at pre (be_bytes 4 (wrap32 (len s)) ++ s ++ post)) =
    Ok (reader_at (pre ++ be_bytes 4 (wrap32 (len s)) ++ s) post).
Proof. intros Hm Hs. unfold expect_string. rewrite read_string_at by done. by rewrite bytes_eqb_refl. Qed.

Lemma expect_end_at pre e : expect_end e (reader_at pre []) = Ok tt.
Proof. unfold expect_end, reader_is_empty. by rewrite remaining_at. Qed.

Lemma small_mem l : len l ≤ 8388608 → fits_mem l.
Proof. intros. unfold fits_mem. width_lia. Qed.

(** A name and a body, the shape of most blobs. *)
Definition blob2 (name body : bytes) : bytes :=
  writer_new |>> write_string name |>> write_string body |>> into_vec.

Lemma blob2_read name body e :
  small name → small body →
  ∃ r r', expect_string name e (reader_new (blob2 name body)) = Ok r ∧ read_string r = Ok (body, r') ∧
    ∀ e', expect_end e' r' = Ok tt.
Proof.
  intros Hn Hb. pose proof (small_u32 _ Hn). pose proof (small_u32 _ Hb). unfold small in *.
  unfold blob2. writer_norm. rewrite reader_new_end, <- !app_assoc.
  eexists _, _. split; [apply expect_string_at; [apply small_mem; autorewrite with lens; lia|done]|].
  split; [apply read_string_at; [apply small_mem; autorewrite with lens; lia|done]|].
  intros. apply expect_end_at.
Qed.

(** ** Laws of the primitives *)

(** [rsa_pair sk]: the private exponent belongs to the modulus and exponent. *)
Class SigPrimsLaws (S : SigPrims) (rsa_pair : RsaPrivateKey → Prop) := {
  ed25519_public_len seed : len seed = 32 → len (ed25519_public seed) = 32;
  ed25519_sign_len seed msg : len (ed25519_sign seed msg) = 64;
  ed25519_correct seed msg : len seed = 32 → ed25519_verify (ed25519_public seed) msg (ed25519_sign seed msg) = true;
  mldsa44_public_len seed : len seed = 32 → len (mldsa44_public seed) = 1312;
  mldsa44_public_accepted seed : len seed = 32 → mldsa44_public_ok (mldsa44_public seed) = true;
  mldsa44_sign_len i seed msg ctx sig : mldsa44_sign i seed msg ctx = Some sig → len sig = 2420;
  mldsa44_correct i seed msg ctx sig :
    len seed = 32 → mldsa44_sign i seed msg ctx = Some sig → mldsa44_verify (mldsa44_public seed) sig msg ctx = true;
  ecdsa_sec1_len c scalar sk :
    ecdsa_priv_from_bytes c scalar = Some sk → len (ecdsa_to_sec1 (ecdsa_public_key sk)) ≤ 133;
  ecdsa_sec1_roundtrip c scalar sk :
    ecdsa_priv_from_bytes c scalar = Some sk →
    ecdsa_from_sec1 c (ecdsa_to_sec1 (ecdsa_public_key sk)) = Some (ecdsa_public_key sk);
  ecdsa_coord_len c z : len (ecdsa_coord c z) ≤ 66;
  ecdsa_coord_value c scalar sk h msg r s :
    ecdsa_priv_from_bytes c scalar = Some sk → ecdsa_sign h sk msg = Some (r, s) →
    be_value (ecdsa_coord c r) = r ∧ be_value (ecdsa_coord c s) = s;
  ecdsa_correct c scalar sk h msg sig :
    ecdsa_priv_from_bytes c scalar = Some sk → ecdsa_sign h sk msg = Some sig →
    ecdsa_verify h (ecdsa_public_key sk) msg sig = true;
  rsa_sign_len h sk msg sig : rsa_sign h sk msg = Some sig → len sig = Rsa.byte_len (rsa_n sk);
  rsa_correct h sk msg sig :
    rsa_pair sk → rsa_sign h sk msg = Some sig → rsa_verify h (rsa_n sk) (rsa_e sk) msg sig = true;
}.

Section Sign.
Context {C : PureCrypto} {S : SigPrims} {rsa_pair : RsaPrivateKey → Prop} {SL : SigPrimsLaws S rsa_pair}.
Context (allow_rsa_sha1 : bool).

(** ** Ed25519 and the composite *)

Lemma ed25519_sign_verifies seed msg sig :
  len seed = 32 → Ed25519.sign (Ed25519.from_seed seed) msg = Ok sig →
  ∃ k, Ed25519.from_public_blob (Ed25519.public_blob (Ed25519.from_seed seed)) = Ok k ∧
    Ed25519.verify k msg sig = Ok tt.
Proof.
  intros Hs E%Ok_inj. cbn [Ed25519.from_seed Ed25519.private ok_or] in E. subst sig.
  pose proof (ed25519_public_len seed Hs) as Lp. pose proof (ed25519_sign_len seed msg) as Lsg.
  unfold Ed25519.from_public_blob, Ed25519.public_blob, Ed25519.verify. cbn [Ed25519.from_seed Ed25519.public].
  destruct (blob2_read Ed25519.NAME (ed25519_public seed) (Format "ed25519: public key type mismatch"))
    as (r & r' & E1 & E2 & E3); [done|unfold small; lia|]. unfold blob2 in E1. rewrite E1, E2, Lp, E3.
  eexists. split; [done|].
  destruct (blob2_read Ed25519.NAME (ed25519_sign seed msg) (Format "ed25519: signature algorithm mismatch"))
    as (q & q' & F1 & F2 & F3); [done|unfold small; lia|]. unfold blob2 in F1. rewrite F1, F2, Lsg, F3.
  cbn [Ed25519.public]. by rewrite ed25519_correct.
Qed.

Lemma slice_app_l (a b : bytes) n : len a = n → slice (a ++ b) 0 n = a.
Proof. intros <-. pose proof (slice_at [] a b) as H. exact H. Qed.

Lemma slice_app_r (a b : bytes) n : len a = n → slice (a ++ b) n (len (a ++ b)) = b.
Proof.
  intros <-. pose proof (slice_at a b []) as H. rewrite app_nil_r in H. by rewrite len_app.
Qed.

Lemma mldsa_sign_verifies i seeds msg sig :
  len seeds = 64 → MlDsa.sign i (MlDsa.from_seeds seeds) msg = Ok sig →
  ∃ k, MlDsa.from_public_blob (MlDsa.public_blob (MlDsa.from_seeds seeds)) = Ok k ∧ MlDsa.verify k msg sig = Ok tt.
Proof.
  intros Hs. unfold MlDsa.sign, MlDsa.sign_raw. cbn [MlDsa.from_seeds MlDsa.seeds ok_or].
  assert (Ht : len (take 32 seeds) = 32) by (unfold len in *; rewrite length_take; lia).
  assert (Hd : len (drop 32 seeds) = 32) by (unfold len in *; rewrite length_drop; lia).
  destruct (mldsa44_sign i (take 32 seeds) (MlDsa.m_prime msg) MlDsa.LABEL) as [ms|] eqn:Em; [|done].
  cbn [ok_or]. intros E%Ok_inj. subst sig.
  pose proof (mldsa44_sign_len _ _ _ _ _ Em) as Lm. pose proof (ed25519_sign_len (drop 32 seeds) (MlDsa.m_prime msg)) as Le.
  pose proof (mldsa44_public_len _ Ht) as Lmp. pose proof (ed25519_public_len _ Hd) as Lep.
  unfold MlDsa.from_public_blob, MlDsa.public_blob, MlDsa.verify. cbn [MlDsa.from_seeds MlDsa.public].
  destruct (blob2_read MlDsa.NAME (MlDsa.public_from_seeds seeds) (Format "mldsa44-ed25519: public key type mismatch"))
    as (r & r' & E1 & E2 & E3);
    [done|unfold small, MlDsa.public_from_seeds; rewrite len_app; lia|]. unfold blob2 in E1. rewrite E1, E2, E3.
  unfold MlDsa.from_public, MlDsa.public_from_seeds at 1. rewrite len_app, Lmp, Lep. eexists. split; [done|].
  destruct (blob2_read MlDsa.NAME (ms ++ ed25519_sign (drop 32 seeds) (MlDsa.m_prime msg))
    (Format "mldsa44-ed25519: signature algorithm mismatch")) as (q & q' & F1 & F2 & F3);
    [done|unfold small; rewrite len_app; lia|]. unfold blob2 in F1. rewrite F1, F2, F3.
  unfold MlDsa.verify_raw, MlDsa.public_from_seeds. cbn [MlDsa.public].
  rewrite !slice_app_l, !slice_app_r by done. rewrite len_app, Lm, Le, mldsa44_public_accepted by done.
  by rewrite (mldsa44_correct _ _ _ _ _ Ht Em), ed25519_correct.
Qed.

(** ** ECDSA *)

Definition ecdsa_params : list Ecdsa.EcdsaParams := [Ecdsa.P256_PARAMS; Ecdsa.P384_PARAMS; Ecdsa.P521_PARAMS].

Lemma ecdsa_names_small p :
  p ∈ ecdsa_params → small (Ecdsa.p_algorithm p) ∧ small (Ecdsa.p_curve_id_str p).
Proof.
  intros H. repeat (apply elem_of_cons in H as [->|H]; [done|]). by apply elem_of_nil in H.
Qed.

Lemma ecdsa_blob_read p sec1 pk :
  p ∈ ecdsa_params → small sec1 → ecdsa_from_sec1 (Ecdsa.p_curve p) sec1 = Some pk →
  Ecdsa.parse_public_blob p (Ecdsa.build_public_blob p sec1) = Ok pk.
Proof.
  intros [Ha Hc]%ecdsa_names_small Hs Ek.
  pose proof (small_u32 _ Ha). pose proof (small_u32 _ Hc). pose proof (small_u32 _ Hs). unfold small in *.
  unfold Ecdsa.parse_public_blob, Ecdsa.build_public_blob. writer_norm. rewrite reader_new_end, <- !app_assoc.
  rewrite expect_string_at by (first [done|apply small_mem; autorewrite with lens; lia]).
  rewrite expect_string_at by (first [done|apply small_mem; autorewrite with lens; lia]).
  rewrite read_string_at by (first [done|apply small_mem; autorewrite with lens; lia]).
  by rewrite expect_end_at, Ek.
Qed.

Lemma parse_components_encoded a b :
  len a ≤ 66 → len b ≤ 66 →
  Ecdsa.parse_components (writer_new |>> write_mpint a |>> write_mpint b |>> into_vec) = Ok (be_value a, be_value b).
Proof.
  intros Ha Hb. rewrite !write_mpint_string by (unfold small; lia).
  pose proof (mpint_body_len a). pose proof (mpint_body_len b).
  pose proof (len_nonneg (mpint_body a)). pose proof (len_nonneg (mpint_body b)).
  unfold Ecdsa.parse_components, read_mpint. writer_norm. rewrite reader_new_end, <- !app_assoc.
  rewrite read_string_at by (first [width_lia|apply small_mem; autorewrite with lens; lia]).
  rewrite read_string_at by (first [width_lia|apply small_mem; autorewrite with lens; lia]).
  by rewrite expect_end_at, !mpint_to_uint_body.
Qed.

Lemma ecdsa_sign_verifies p scalar k msg sig :
  p ∈ ecdsa_params → Ecdsa.from_scalar p scalar = Ok k → Ecdsa.sign k msg = Ok sig →
  ∃ k', Ecdsa.from_public_blob p (Ecdsa.public_blob k) = Ok k' ∧ Ecdsa.verify k' msg sig = Ok tt.
Proof.
  intros Hp. unfold Ecdsa.from_scalar. destruct (ecdsa_priv_from_bytes _ _) as [sk|] eqn:Ek; [|done].
  intros <-%Ok_inj. unfold Ecdsa.sign, Ecdsa.sign_with. cbn [Ecdsa.private Ecdsa.params ok_or].
  destruct (ecdsa_sign _ _ _) as [[r s]|] eqn:Es; [|done]. intros <-%Ok_inj.
  pose proof (ecdsa_sec1_len _ _ _ Ek) as Lk. destruct (ecdsa_coord_value _ _ _ _ _ _ _ Ek Es) as [Vr Vs].
  unfold Ecdsa.from_public_blob, Ecdsa.public_blob. cbn [Ecdsa.params Ecdsa.public].
  rewrite (ecdsa_blob_read p _ _ Hp) by (first [unfold small; lia|by eapply ecdsa_sec1_roundtrip]).
  eexists. split; [done|]. unfold Ecdsa.verify, Ecdsa.verify_with, Ecdsa.encode_signature.
  cbn [Ecdsa.params Ecdsa.public fst snd].
  pose proof (ecdsa_coord_len (Ecdsa.p_curve p) r) as Lr. pose proof (ecdsa_coord_len (Ecdsa.p_curve p) s) as Ls.
  pose proof (parse_components_encoded _ _ Lr Ls) as Hc.
  assert (Hi : small (writer_new |>> write_mpint (ecdsa_coord (Ecdsa.p_curve p) r)
                |>> write_mpint (ecdsa_coord (Ecdsa.p_curve p) s) |>> into_vec)).
  { rewrite !write_mpint_string by (unfold small; lia). pose proof (mpint_body_len (ecdsa_coord (Ecdsa.p_curve p) r)).
    pose proof (mpint_body_len (ecdsa_coord (Ecdsa.p_curve p) s)). unfold small. writer_norm. autorewrite with lens. lia. }
  destruct (blob2_read (Ecdsa.p_algorithm p) _ (Format "ecdsa: signature algorithm mismatch")
    (proj1 (ecdsa_names_small p Hp)) Hi) as (q & q' & F1 & F2 & F3).
  unfold blob2 in F1. rewrite F1, F2, F3, Hc, Vr, Vs. by rewrite (ecdsa_correct _ _ _ _ _ _ Ek Es).
Qed.

(** ** RSA *)

(** A modulus and exponent the parser takes. *)
Definition rsa_strong (n e : Z) : Prop :=
  0 < n ∧ 0 ≤ e ∧ 2048 ≤ uint_bit_len n ≤ 65536 ∧ uint_bit_len e ≤ 64 ∧ rsa_try_new n e = true.

Definition rsa_wf (k : Rsa.RsaHostKey) : Prop :=
  ∃ sk, Rsa.private k = Some sk ∧ Rsa.public k = (rsa_n sk, rsa_e sk) ∧ Rsa.k_len k = Rsa.byte_len (rsa_n sk) ∧
    rsa_strong (rsa_n sk) (rsa_e sk) ∧ rsa_pair sk.

Lemma byte_len_range z b : 0 ≤ z → uint_bit_len z ≤ b → 0 ≤ Rsa.byte_len z ≤ (b + 7) / 8.
Proof.
  intros Hz Hb. assert (0 ≤ uint_bit_len z) by (unfold uint_bit_len; destruct (z =? 0); pose proof (Z.log2_nonneg z); lia).
  unfold Rsa.byte_len. split; [apply Z.div_pos; lia|apply Z.div_le_mono; lia].
Qed.

Lemma to_be_bytes_value z : 0 ≤ z → be_value (Rsa.to_be_bytes z) = z.
Proof.
  intros Hz. unfold Rsa.to_be_bytes. apply be_value_be_bytes_small. split; [done|].
  rewrite Z2Nat.id by lia. change 256 with (2 ^ 8). rewrite <- Z.pow_mul_r by lia.
  destruct (Z.eq_dec z 0) as [->|]; [apply Z.pow_pos_nonneg; lia|].
  apply Z.log2_lt_pow2; [lia|]. unfold Rsa.byte_len, uint_bit_len. destruct (Z.eqb_spec z 0); [lia|].
  pose proof (Z.mod_pos_bound (Z.log2 z + 1 + 7) 8). pose proof (Z.div_mod (Z.log2 z + 1 + 7) 8). lia.
Qed.

Lemma to_be_bytes_small z : 0 ≤ z → uint_bit_len z ≤ 65536 → small (Rsa.to_be_bytes z).
Proof.
  intros Hz Hb. pose proof (byte_len_range z _ Hz Hb) as Hr. change ((65536 + 7) / 8) with 8192 in Hr.
  unfold small, Rsa.to_be_bytes. rewrite len_be_bytes. lia.
Qed.

Lemma rsa_blob_read n e :
  rsa_strong n e → Rsa.parse_rsa_public_blob (Rsa.build_rsa_public_blob (n, e)) = Ok ((n, e), Rsa.byte_len n).
Proof.
  intros (Hn & He & Hb & Hbe & Ht). unfold Rsa.parse_rsa_public_blob, Rsa.build_rsa_public_blob. cbn [fst snd].
  pose proof (to_be_bytes_small n ltac:(lia) ltac:(lia)) as Sn. pose proof (to_be_bytes_small e He ltac:(lia)) as Se.
  rewrite !write_mpint_string by done. unfold small in *.
  pose proof (mpint_body_len (Rsa.to_be_bytes n)). pose proof (mpint_body_len (Rsa.to_be_bytes e)).
  pose proof (len_nonneg (mpint_body (Rsa.to_be_bytes n))). pose proof (len_nonneg (mpint_body (Rsa.to_be_bytes e))).
  assert (len Rsa.SSH_RSA = 7) by done.
  unfold read_mpint. writer_norm. rewrite reader_new_end, <- !app_assoc.
  rewrite expect_string_at by (first [done|apply small_mem; autorewrite with lens; lia]).
  rewrite read_string_at by (first [width_lia|apply small_mem; autorewrite with lens; lia]).
  rewrite read_string_at by (first [width_lia|apply small_mem; autorewrite with lens; lia]).
  rewrite expect_end_at. unfold Rsa.check_rsa_exponent_mpint, Rsa.mpint_to_uint.
  rewrite !mpint_to_uint_body, !to_be_bytes_value by lia.
  unfold Rsa.MAX_RSA_EXPONENT_BITS, Rsa.MIN_RSA_MODULUS_BITS.
  rewrite (proj2 (Z.ltb_ge _ _)) by lia. rewrite (proj2 (Z.eqb_neq n 0)) by lia.
  rewrite (proj2 (Z.ltb_ge _ _)) by lia. by rewrite Ht.
Qed.

Lemma rsa_sign_verifies k msg sig :
  rsa_wf k → Rsa.sign k msg = Ok sig →
  ∃ k', Rsa.from_public_blob (Rsa.hash k) (Rsa.public_blob k) = Ok k' ∧ Rsa.verify k' msg sig = Ok tt.
Proof.
  intros (sk & Ep & Epub & Ekl & Hst & Hpair). unfold Rsa.sign, Rsa.sign_rsa. rewrite Ep. cbn [ok_or].
  destruct (rsa_sign _ _ _) as [raw|] eqn:Es; [|done]. intros <-%Ok_inj.
  unfold Rsa.from_public_blob, Rsa.public_blob. rewrite Epub, rsa_blob_read by done. eexists. split; [done|].
  pose proof (rsa_sign_len _ _ _ _ Es) as Ls.
  destruct Hst as (Hn & _ & Hb & _). pose proof (byte_len_range (rsa_n sk) 65536 ltac:(lia) ltac:(lia)) as Hr.
  change ((65536 + 7) / 8) with 8192 in Hr.
  unfold Rsa.verify, Rsa.verify_rsa. cbn [Rsa.hash Rsa.public Rsa.k_len fst snd].
  destruct (blob2_read (Rsa.algorithm (Rsa.hash k)) raw (Format "rsa: signature algorithm mismatch"))
    as (q & q' & F1 & F2 & F3); [by destruct (Rsa.hash k)|unfold small; lia|].
  unfold blob2 in F1. rewrite F1, F2, F3, Ls, Z.eqb_refl. by rewrite (rsa_correct _ _ _ _ Hpair Es).
Qed.

(** ** All of them *)

#[local] Hint Extern 0 (HostKeyTrait SoftKey) => exact (soft_key_trait allow_rsa_sha1) : typeclass_instances.

(** A key made by one of the constructors of its type. *)
Definition soft_key_wf (k : SoftKey) : Prop :=
  match k with
  | KEd25519 k => ∃ seed, len seed = 32 ∧ k = Ed25519.from_seed seed
  | KMlDsa k => ∃ seeds, len seeds = 64 ∧ k = MlDsa.from_seeds seeds
  | KEcdsa k => ∃ p scalar, p ∈ ecdsa_params ∧ Ecdsa.from_scalar p scalar = Ok k
  | KRsa k => rsa_wf k
  end.

Lemma from_components_wf h n e d k :
  rsa_strong n e → rsa_pair {| rsa_n := n; rsa_e := e; rsa_d := d; rsa_primes := None |} →
  Rsa.from_components h n e d = Ok k → rsa_wf k.
Proof.
  intros Hs Hp. unfold Rsa.from_components. rewrite (proj2 (proj2 (proj2 (proj2 Hs)))). intros <-%Ok_inj.
  eexists. split; [exact eq_refl|]. do 2 (split; [exact eq_refl|]). done.
Qed.

Lemma from_primes_wf h n e d p q k :
  rsa_strong n e → rsa_pair {| rsa_n := n; rsa_e := e; rsa_d := d; rsa_primes := Some (p, q) |} →
  Rsa.from_components_with_primes h n e d p q = Ok k → rsa_wf k.
Proof.
  intros Hs Hp. unfold Rsa.from_components_with_primes. destruct (Rsa.check_rsa_primes _ _ _); [|done].
  rewrite (proj2 (proj2 (proj2 (proj2 Hs)))). intros <-%Ok_inj.
  eexists. split; [exact eq_refl|]. do 2 (split; [exact eq_refl|]). done.
Qed.

(** Moving an RSA key to another hash keeps the key. *)
Lemma upgraded_wf (k k' : SoftKey) algs :
  key_upgraded_for k algs = Some k' → soft_key_wf k → soft_key_wf k' ∧ key_public_blob k' = key_public_blob k.
Proof.
  destruct k as [k|k|k|k]; cbn [key_upgraded_for soft_key_trait]; [done..|].
  unfold Rsa.upgraded_for, Rsa.rsa_variant_for. intros H (sk & Hsk).
  assert (∃ h, k' = KRsa {| Rsa.hash := h; Rsa.private := Rsa.private k; Rsa.public := Rsa.public k;
                            Rsa.k_len := Rsa.k_len k |}) as [h ->].
  { destruct (Rsa.hash k), (Rsa.preferred_rsa_sha2 algs), (allow_rsa_sha1 && Rsa.csv_lists algs Rsa.SSH_RSA);
      repeat case_bool_decide; cbn in H; try done; injection H as <-; by eexists. }
  split; [by exists sk|done].
Qed.

Lemma ecdsa_arm p blob :
  p ∈ ecdsa_params →
  host_key_verify_by_name allow_rsa_sha1 (Ecdsa.p_algorithm p) blob =
    let? k := Ecdsa.from_public_blob p blob in Ok (VEcdsa k).
Proof.
  intros H. unfold host_key_verify_by_name, host_key_verify_step.
  repeat (apply elem_of_cons in H as [->|H]; [cbn [Ecdsa.p_algorithm Ecdsa.P256_PARAMS Ecdsa.P384_PARAMS Ecdsa.P521_PARAMS];
    eval_names; reflexivity|]). by apply elem_of_nil in H.
Qed.

Lemma rsa_arm h blob :
  (h = RsaSha1 → allow_rsa_sha1 = true) →
  host_key_verify_by_name allow_rsa_sha1 (Rsa.algorithm h) blob = let? k := Rsa.from_public_blob h blob in Ok (VRsa k).
Proof.
  intros Ha. unfold host_key_verify_by_name, host_key_verify_step.
  destruct h; cbn [Rsa.algorithm]; unfold Rsa.SSH_RSA; eval_names; [by rewrite Ha|reflexivity..].
Qed.

Lemma soft_sign_verifies i (k : SoftKey) msg sig :
  soft_key_wf k → (key_algorithm k = Rsa.SSH_RSA → allow_rsa_sha1 = true) → key_sign i k msg = Ok sig →
  verify_signature allow_rsa_sha1 (key_algorithm k) (key_public_blob k) msg sig = Ok tt.
Proof.
  intros Hw Ha Hs. unfold verify_signature.
  destruct k as [k|k|k|k]; cbn [key_algorithm key_public_blob key_sign soft_key_trait soft_key_wf] in *.
  - destruct Hw as (seed & Hl & ->). destruct (ed25519_sign_verifies _ _ _ Hl Hs) as (k' & E & Hv).
    unfold host_key_verify_by_name, host_key_verify_step, Ed25519.NAME. eval_names. by rewrite E.
  - destruct Hw as (seeds & Hl & ->). destruct (mldsa_sign_verifies _ _ _ _ Hl Hs) as (k' & E & Hv).
    unfold host_key_verify_by_name, host_key_verify_step, MlDsa.NAME. eval_names. by rewrite E.
  - destruct Hw as (p & scalar & Hp & Ek). assert (Ecdsa.params k = p) as ->.
    { unfold Ecdsa.from_scalar in Ek. chain Ek. by injection Ek as <-. }
    destruct (ecdsa_sign_verifies _ _ _ _ _ Hp Ek Hs) as (k' & E & Hv). by rewrite ecdsa_arm, E.
  - destruct (rsa_sign_verifies _ _ _ Hw Hs) as (k' & E & Hv).
    rewrite rsa_arm, E; [done|]. intros Hh. apply Ha. by rewrite Hh.
Qed.

(** The names of these keys. *)
Lemma soft_names (k : SoftKey) :
  soft_key_wf k →
  key_algorithm k ∈ [bs "ssh-ed25519"; bs "ssh-mldsa44-ed25519"; bs "ecdsa-sha2-nistp256"; bs "ecdsa-sha2-nistp384";
    bs "ecdsa-sha2-nistp521"; bs "ssh-rsa"; bs "rsa-sha2-256"; bs "rsa-sha2-512"].
Proof.
  intros Hw. apply list_existsb_in. destruct k as [k|k|k|k]; cbn [key_algorithm soft_key_trait]; [by vm_compute..| |].
  - destruct Hw as (p & scalar & Hp & Ek). assert (Ecdsa.params k = p) as ->.
    { unfold Ecdsa.from_scalar in Ek. chain Ek. by injection Ek as <-. }
    repeat (apply elem_of_cons in Hp as [->|Hp]; [by vm_compute|]). by apply elem_of_nil in Hp.
  - by destruct (Rsa.hash k); vm_compute.
Qed.

Lemma soft_name_plain (k : SoftKey) :
  soft_key_wf k → is_cert_name (key_algorithm k) = false ∧ utf8_valid (key_algorithm k) = true ∧ len (key_algorithm k) ≤ 64 ∧
  key_algorithm k ∈ plain_arms ∧
  sig_names (key_algorithm k) = [key_algorithm k] ∧
  List.existsb (bytes_eqb (key_algorithm k)) [Sk.SK_ECDSA; Sk.SK_ED25519; Sk.WEBAUTHN_SK_ECDSA] = false.
Proof.
  intros H%soft_names. revert H. generalize (key_algorithm k). intros n H. rewrite <- list_existsb_in.
  repeat (apply elem_of_cons in H as [->|H]; [by vm_compute|]). by apply elem_of_nil in H.
Qed.
End Sign.
Arguments rsa_wf {S} rsa_pair k.
Arguments soft_key_wf {S} rsa_pair k.

(** ** Keys with a certificate *)

Section CertSign.
Context {C : PureCrypto} {S : SigPrims} (allow_rsa_sha1 : bool) {T : Type} `{!HostKeyTrait T}.

Lemma family_of_key embedded plain :
  plain ∈ plain_arms → plain ≠ Sk.WEBAUTHN_SK_ECDSA → embedded = key_family plain → family_ok embedded plain = true.
Proof.
  intros Hp Hw ->. repeat (apply elem_of_cons in Hp as [->|Hp]; [first [done|by vm_compute]|]). by apply elem_of_nil in Hp.
Qed.

Lemma cert_name_is_cert name plain : cert_name_to_plain name = Some plain → is_cert_name name = true.
Proof.
  intros H%match_name_in.
  repeat (apply elem_of_cons in H as [[= -> ->]|H]; [by vm_compute|]). by apply elem_of_nil in H.
Qed.

Lemma cert_name_not_plain name : is_cert_name name = true → name ∉ plain_arms.
Proof. intros Hc Hp. apply plain_arm_not_cert in Hp as [Hp _]. congruence. Qed.

Lemma step_cert self name blob plain c :
  cert_name_to_plain name = Some plain → certificate_parse blob = Ok c →
  family_ok (embedded_algorithm c) plain = true →
  host_key_verify_step allow_rsa_sha1 self name blob = self plain (embedded_pubkey_blob c).
Proof.
  intros Hn Hp Hf. pose proof (cert_name_is_cert _ _ Hn) as Hc. pose proof (cert_name_not_plain _ Hc) as Hnp.
  rewrite <- list_existsb_in in Hnp. apply not_true_is_false in Hnp. cbn [List.existsb plain_arms] in Hnp.
  rewrite !orb_false_iff in Hnp. unfold host_key_verify_step.
  repeat match type of Hnp with _ ∧ _ => let E := fresh in destruct Hnp as [E Hnp] end.
  repeat match goal with H : bytes_eqb name _ = false |- _ => rewrite H; clear H end. cbn [orb].
  rewrite Hc, Hn. cbn [ok_or]. rewrite Hp, Hf. done.
Qed.

(** A key presented with its certificate.  [CertHostKey::new] only wraps
    a key whose public blob the certificate embeds; under the certificate name
    of the key's algorithm, the receiver's verifier then accepts from the
    wrapped key exactly what it accepts from the key itself. *)
Theorem cert_key_verifies (inner : T) blob cert cert_algo ck msg sig :
  certificate_parse blob = Ok cert → cert_host_key_new inner cert cert_algo = Ok ck →
  cert_name_to_plain cert_algo = Some (key_algorithm inner) → key_algorithm inner ≠ Sk.WEBAUTHN_SK_ECDSA →
  is_ok (host_key_verify_by_name allow_rsa_sha1 (key_algorithm inner) (key_public_blob inner)) = true →
  verify_signature allow_rsa_sha1 (key_algorithm ck) (key_public_blob ck) msg sig =
  verify_signature allow_rsa_sha1 (key_algorithm inner) (key_public_blob inner) msg sig.
Proof.
  intros Hp Hck Hn Hw Hv. unfold cert_host_key_new in Hck.
  destruct (bytes_eqb_spec (key_public_blob inner) (embedded_pubkey_blob cert)) as [Eb|]; [|done].
  apply Ok_inj in Hck as <-. cbn [key_algorithm key_public_blob cert_key_trait].
  pose proof (cert_name_to_plain_arm _ _ Hn) as Harm.
  destruct (host_key_verify_by_name _ (key_algorithm inner) _) as [v|] eqn:Ev; [|done].
  rewrite host_key_verify_by_name_eq in Ev. apply step_plain_names in Ev as (_ & Hk & _); [|done].
  pose proof (parse_wf _ _ Hp) as Hwf. rewrite Eb, (wf_key _ Hwf) in Hk. injection Hk as Hk.
  destruct (certificate_parse_inv _ _ Hp) as (_ & _ & _ & _ & _ & -> & _).
  unfold verify_signature. rewrite (host_key_verify_by_name_eq _ cert_algo).
  by rewrite (step_cert _ _ _ _ _ Hn Hp (family_of_key _ _ Harm Hw Hk)), Eb.
Qed.
End CertSign.
