(* ===== verification/CertIssue.v ===== *)
(** * Issued certificates

    A certificate made by [builder_sign] carries the fields it was built from,
    and the CA's signature on it verifies. *)
From Stdlib Require Import Permutation.
From S2P Require Import Prelude Wire WireLoop Text Crypto KexMethods HostKey Cert CertFacts CertParse SignKey.

(** ** Strings in front of a reader *)

Definition enc (s : bytes) : bytes := be_bytes 4 (wrap32 (len s)) ++ s.

Lemma len_enc s : len (enc s) = 4 + len s.
Proof. unfold enc. autorewrite with lens. lia. Qed.

Lemma write_string_enc s w : w_buf (write_string s w) = w_buf w ++ enc s.
Proof. unfold write_string, write_u32, enc. cbn [w_buf]. by rewrite <- app_assoc. Qed.

Lemma plain_blob_enc fields : plain_blob fields = concat (enc <$> fields).
Proof.
  unfold plain_blob. change (concat (enc <$> fields)) with (w_buf writer_new ++ concat (enc <$> fields)).
  generalize writer_new. induction fields as [|f fs IH]; intros w; cbn; [by rewrite app_nil_r|].
  rewrite IH, write_string_enc. by rewrite <- app_assoc.
Qed.

Lemma enc_of_u32 s : is_u32 (len s) → be_bytes 4 (len s) ++ s = enc s.
Proof. intros H. unfold enc. by rewrite wrap32_small. Qed.

(** Reading a string takes exactly its encoding. *)
Lemma read_string_inv_enc pre post s r :
  read_string (reader_at pre post) = Ok (s, r) →
  ∃ post', post = enc s ++ post' ∧ r = reader_at (pre ++ enc s) post' ∧ is_u32 (len s).
Proof.
  intros H. apply read_string_inv in H as (post' & -> & Hl & ->). exists post'.
  rewrite <- (enc_of_u32 s Hl), <- !app_assoc. done.
Qed.

Lemma read_enc pre s post :
  fits_mem (pre ++ enc s ++ post) → is_u32 (len s) →
  read_string (reader_at pre (enc s ++ post)) = Ok (s, reader_at (pre ++ enc s) post).
Proof.
  intros Hm Hl. unfold enc in *. rewrite <- app_assoc in *. rewrite read_string_at by done. done.
Qed.

#[local] Opaque enc.

Section Issue.
Context {S : SigPrims}.

(** The embedded key's blob is its name and the bytes read. *)
Lemma embedded_consumed kt plain pre post emb r :
  blob_type_to_plain kt = Some plain → read_embedded_pubkey kt (reader_at pre post) = Ok (emb, r) →
  ∃ x post', post = x ++ post' ∧ r = reader_at (pre ++ x) post' ∧ emb = enc plain ++ x.
Proof.
  intros Hk H. apply match_name_in in Hk.
  repeat (apply elem_of_cons in Hk as [[= -> ->]|Hk]; [|try (by apply elem_of_nil in Hk)]);
    unfold read_embedded_pubkey in H; revert H; eval_names; intros H; unfold ecdsa_cert_pubkey in H; chain H.
  all: repeat match goal with E : read_string (reader_at _ _) = Ok _ |- _ => apply read_string_inv_enc in E as (? & ? & ? & ?); subst end.
  all: apply Ok_inj in H; apply pair_equal_spec in H as [<- <-].
  all: rewrite plain_blob_enc.
  all: cbn [fmap list_fmap concat].
  all: match goal with |- ∃ x p, _ ∧ reader_at _ ?q = _ ∧ enc _ ++ ?y = _ => exists y, q end.
  all: rewrite <- ?app_assoc, ?app_nil_r; split; [reflexivity|]; split; [|reflexivity].
  all: reflexivity.
Qed.

(** ** What was written is what is read *)

Lemma enc_inj s t p q :
  is_u32 (len s) → is_u32 (len t) → enc s ++ p = enc t ++ q → s = t ∧ p = q.
Proof.
  intros Hs Ht E. rewrite <- !enc_of_u32, <- !app_assoc in E by done.
  apply app_inj_1 in E as [El E]; [|by rewrite !length_be_bytes].
  apply (f_equal be_value) in El. rewrite !be_value_be_bytes_small in El by (change (256 ^ Z.of_nat 4) with 4294967296; width_lia).
  apply app_inj_1 in E as [-> ->]; [done|]. unfold len in El. lia.
Qed.

Lemma be8_inj v w p q : is_u64 v → is_u64 w → be_bytes 8 v ++ p = be_bytes 8 w ++ q → v = w ∧ p = q.
Proof.
  intros Hv Hw E. apply app_inj_1 in E as [El E]; [|by rewrite !length_be_bytes].
  apply (f_equal be_value) in El. rewrite !be_value_be_bytes_small in El
    by (change (256 ^ Z.of_nat 8) with 18446744073709551616; width_lia). done.
Qed.

Lemma be4_inj v w p q : is_u32 v → is_u32 w → be_bytes 4 v ++ p = be_bytes 4 w ++ q → v = w ∧ p = q.
Proof.
  intros Hv Hw E. apply app_inj_1 in E as [El E]; [|by rewrite !length_be_bytes].
  apply (f_equal be_value) in El. rewrite !be_value_be_bytes_small in El
    by (change (256 ^ Z.of_nat 4) with 4294967296; width_lia). done.
Qed.

Definition short (s : bytes) : Prop := len s ≤ MAX_CERT_BLOB.
Lemma short_u32 s : short s → is_u32 (len s).
Proof. unfold short, MAX_CERT_BLOB. pose proof (len_nonneg s). width_lia. Qed.

Lemma string_list_back room pre ps out :
  Forall short ps → parse_string_list_loop room (reader_at pre (concat (enc <$> ps))) = Ok out → out = ps.
Proof.
  revert room pre out. induction ps as [|p ps IH]; intros room pre out Hf; cbn [fmap list_fmap concat].
  - destruct room; cbn [parse_string_list_loop]; unfold reader_is_empty; rewrite remaining_at; by intros [= <-].
  - apply Forall_cons_iff in Hf as [Hp Hf].
    assert (reader_is_empty (reader_at pre (enc p ++ concat (enc <$> ps))) = false) as He.
    { unfold reader_is_empty. rewrite remaining_at, len_app, len_enc. apply Z.eqb_neq.
      pose proof (len_nonneg p). pose proof (len_nonneg (concat (enc <$> ps))). lia. }
    destruct room; cbn [parse_string_list_loop]; rewrite He; [done|]. intros H.
    destruct (read_string _) as [[s r]|] eqn:Er; [|done]. apply read_string_inv_enc in Er as (post & E & -> & Hs).
    apply enc_inj in E as [<- <-]; [|by apply short_u32|done]. chain H.
    repeat match goal with U : from_utf8 _ _ = Ok _ |- _ => apply from_utf8_inv in U as [-> _] end.
    apply Ok_inj in H as <-. f_equal. by eapply IH.
Qed.

Definition pairs_bytes (l : list (bytes * bytes)) : bytes := concat ((λ '(n, d), enc n ++ enc d) <$> l).

Lemma pair_list_back room last pre ps out :
  Forall (λ '(n, d), short n ∧ short d) ps →
  parse_pair_list_loop room last (reader_at pre (pairs_bytes ps)) = Ok out → out = ps.
Proof.
  revert room last pre out. induction ps as [|[n d] ps IH]; intros room last pre out Hf; unfold pairs_bytes; cbn [fmap list_fmap concat].
  - destruct room; cbn [parse_pair_list_loop]; unfold reader_is_empty; rewrite remaining_at; by intros [= <-].
  - apply Forall_cons_iff in Hf as [[Hn Hd] Hf]. fold (pairs_bytes ps). rewrite <- app_assoc.
    assert (reader_is_empty (reader_at pre (enc n ++ enc d ++ pairs_bytes ps)) = false) as He.
    { unfold reader_is_empty. rewrite remaining_at, len_app, len_enc. apply Z.eqb_neq.
      pose proof (len_nonneg n). pose proof (len_nonneg (enc d ++ pairs_bytes ps)). lia. }
    destruct room; cbn [parse_pair_list_loop]; rewrite He; [done|]. intros H.
    destruct (read_string (reader_at pre _)) as [[s r]|] eqn:Er; [|done]. apply read_string_inv_enc in Er as (post & E & -> & Hs).
    apply enc_inj in E as [<- <-]; [|by apply short_u32|done]. case_match; [done|].
    destruct (read_string (reader_at _ _)) as [[t r]|] eqn:Er; [|done]. apply read_string_inv_enc in Er as (post & E & -> & Ht).
    apply enc_inj in E as [<- <-]; [|by apply short_u32|done]. chain H.
    repeat match goal with U : from_utf8 _ _ = Ok _ |- _ => apply from_utf8_inv in U as [-> _] end.
    apply Ok_inj in H as <-. f_equal. by eapply IH.
Qed.

(** ** The builder's buffer *)

Definition type_code (t : CertType) : Z := match t with User => 1 | Host => 2 end.

Lemma type_code_u32 t : is_u32 (type_code t).
Proof. destruct t; cbn; width_lia. Qed.

Lemma type_code_back t t' : cert_type_from_u32 (type_code t) = Ok t' → t' = t.
Proof. destruct t; cbn; by intros [= <-]. Qed.

Definition issued_tail (b : CertificateBuilder) (ca : bytes) : bytes :=
  be_bytes 8 (b_serial b) ++ be_bytes 4 (type_code (b_cert_type b)) ++ enc (b_key_id b) ++
  enc (concat (enc <$> b_valid_principals b)) ++ be_bytes 8 (b_valid_after b) ++ be_bytes 8 (b_valid_before b) ++
  enc (pairs_bytes (sort_pairs (b_critical_options b))) ++ enc (pairs_bytes (sort_pairs (b_extensions b))) ++
  enc [] ++ enc ca.

Definition issued_region (b : CertificateBuilder) (kt key ca : bytes) : bytes :=
  enc kt ++ enc (b_nonce b) ++ key ++ issued_tail b ca.

Lemma write_sorted_bytes prev l w w' : write_sorted prev l w = Ok w' → w_buf w' = w_buf w ++ pairs_bytes l.
Proof.
  revert prev w. induction l as [|[n d] l IH]; intros prev w; cbn [write_sorted].
  - intros [= <-]. by rewrite app_nil_r.
  - destruct (option_bytes_eqb prev n); [done|]. intros H%IH. rewrite H, !write_string_enc.
    unfold pairs_bytes. cbn [fmap list_fmap concat]. by rewrite <- !app_assoc.
Qed.

Lemma write_pair_list_bytes l x : write_pair_list l = Ok x → x = pairs_bytes (sort_pairs l).
Proof.
  unfold write_pair_list. destruct (write_sorted _ _ _) as [w|] eqn:E; [|done]. intros <-%Ok_inj.
  exact (write_sorted_bytes _ _ _ _ E).
Qed.

Lemma builder_key_type_plain plain kt : builder_key_type plain = Some kt → blob_type_to_plain kt = Some plain.
Proof.
  intros H%match_name_in.
  repeat (apply elem_of_cons in H as [[= -> ->]|H]; [by vm_compute|]). by apply elem_of_nil in H.
Qed.

Lemma builder_sign_inv b ca sign cert :
  builder_sign b ca sign = Ok cert →
  ∃ plain key kt sig, b_public_key b = enc plain ++ key ∧ is_u32 (len plain) ∧ blob_type_to_plain kt = Some plain ∧
    b_valid_after b ≤ b_valid_before b ∧
    sign (issued_region b kt key ca) = Ok sig ∧ certificate_parse (issued_region b kt key ca ++ enc sig) = Ok cert ∧
    embedded_pubkey_blob cert = b_public_key b.
Proof.
  unfold builder_sign. rewrite reader_new_at. destruct (read_string _) as [[plain r]|] eqn:Er; [|done].
  apply read_string_inv_enc in Er as (key & Ek & -> & Hp). rewrite remaining_at.
  destruct (builder_key_type plain) as [kt|] eqn:Et; cbn [ok_or]; [|done].
  destruct (Z.ltb_spec (b_valid_before b) (b_valid_after b)); [done|].
  destruct (write_pair_list (b_critical_options b)) as [crit|] eqn:Ec; [|done].
  destruct (write_pair_list (b_extensions b)) as [ext|] eqn:Ex; [|done].
  apply write_pair_list_bytes in Ec as ->. apply write_pair_list_bytes in Ex as ->.
  assert (slice (b_public_key b) (len (b_public_key b) - len key) (len (b_public_key b)) = key) as Hs.
  { rewrite Ek. rewrite len_app, Z.add_simpl_r, <- len_app. by apply slice_app_r. }
  rewrite Hs, plain_blob_enc. unfold into_vec. cbv zeta.
  match goal with |- (let? _ := sign (w_buf ?w) in _) = _ → _ =>
    assert (w_buf w = issued_region b kt key ca) as Hw end.
  { rewrite !write_string_enc. unfold write_u64, write_u32, write_raw, type_code. cbn [w_buf].
    rewrite !write_string_enc. cbn [w_buf]. unfold issued_region, issued_tail. by rewrite <- !app_assoc. }
  rewrite Hw. destruct (sign _) as [sig|] eqn:Esg; [|done]. rewrite write_string_enc, Hw.
  destruct (certificate_parse _) as [c|] eqn:Epc; [|done].
  destruct (bytes_eqb_spec (embedded_pubkey_blob c) (b_public_key b)) as [Eb|]; [|done]. intros <-%Ok_inj.
  exists plain, key, kt, sig. split_and!; try done. by apply builder_key_type_plain.
Qed.

(** ** Reading it back *)

Lemma read_enc_inv pre t p s r :
  read_string (reader_at pre (enc t ++ p)) = Ok (s, r) → short t → s = t ∧ r = reader_at (pre ++ enc t) p.
Proof.
  intros H Ht%short_u32. apply read_string_inv_enc in H as (post & E & -> & Hs). by apply enc_inj in E as [<- <-].
Qed.

Lemma read_capped_enc cap what pre t p s r :
  read_capped cap what (reader_at pre (enc t ++ p)) = Ok (s, r) → short t → s = t ∧ r = reader_at (pre ++ enc t) p.
Proof.
  unfold read_capped. destruct (read_string _) as [[x r']|] eqn:E; [|done]. intros H Ht. case_match; [done|].
  apply Ok_inj, pair_equal_spec in H as [<- <-]. by eapply read_enc_inv.
Qed.

Lemma read_u64_be pre v p w r :
  read_u64 (reader_at pre (be_bytes 8 v ++ p)) = Ok (w, r) → is_u64 v → w = v ∧ r = reader_at (pre ++ be_bytes 8 v) p.
Proof. intros H Hv. apply read_u64_inv in H as (post & E & Hw & ->). by apply be8_inj in E as [<- <-]. Qed.

Lemma read_u32_be pre v p w r :
  read_u32 (reader_at pre (be_bytes 4 v ++ p)) = Ok (w, r) → is_u32 v → w = v ∧ r = reader_at (pre ++ be_bytes 4 v) p.
Proof. intros H Hv. apply read_u32_inv in H as (post & E & Hw & ->). by apply be4_inj in E as [<- <-]. Qed.

Lemma concat_short ps : len (concat (enc <$> ps)) ≤ MAX_CERT_BLOB → Forall short ps.
Proof.
  induction ps as [|p ps IH]; cbn [fmap list_fmap concat]; [constructor|]. rewrite len_app, len_enc.
  pose proof (len_nonneg p). pose proof (len_nonneg (concat (enc <$> ps))). intros Hc. constructor; [unfold short; lia|].
  apply IH. cbn [fmap] in *. lia.
Qed.

Lemma pairs_short ps : len (pairs_bytes ps) ≤ MAX_CERT_BLOB → Forall (λ '(n, d), short n ∧ short d) ps.
Proof.
  induction ps as [|[n d] ps IH]; [constructor|]. unfold pairs_bytes. cbn [fmap list_fmap concat]. fold (pairs_bytes ps).
  rewrite !len_app, !len_enc. pose proof (len_nonneg n). pose proof (len_nonneg d). pose proof (len_nonneg (pairs_bytes ps)).
  intros Hl. constructor; [split; unfold short; lia|apply IH; lia].
Qed.

(** The builder's integers have their width. *)
Record builder_wf (b : CertificateBuilder) : Prop := {
  bw_serial : is_u64 (b_serial b);
  bw_after : is_u64 (b_valid_after b);
  bw_before : is_u64 (b_valid_before b)
}.

(** The certificate carries what the builder was given. *)
Record carries (b : CertificateBuilder) (ca : bytes) (c : Certificate) : Prop := {
  ca_key : embedded_pubkey_blob c = b_public_key b;
  ca_nonce : nonce c = b_nonce b;
  ca_serial : serial c = b_serial b;
  ca_type : cert_type c = b_cert_type b;
  ca_key_id : key_id c = b_key_id b;
  ca_principals : valid_principals c = b_valid_principals b;
  ca_window : valid_after c = b_valid_after b ∧ valid_before c = b_valid_before b;
  ca_critical : critical_options c = sort_pairs (b_critical_options b);
  ca_extensions : extensions c = sort_pairs (b_extensions b);
  ca_signer : signature_key_blob c = ca
}.

(** Lengths are not negative. *)
Ltac len_pos :=
  repeat match goal with
  | H : context [len ?x] |- _ =>
      lazymatch goal with _ : 0 <= len x |- _ => fail | _ => pose proof (len_nonneg x) end
  end.

(** Takes the next field off the reader. *)
Ltac next_field :=
  match goal with
  | E : read_string (reader_at _ (enc _ ++ _)) = Ok _ |- _ => apply read_enc_inv in E as [-> ->]; [|done]
  | E : read_capped _ _ (reader_at _ (enc _ ++ _)) = Ok _ |- _ => apply read_capped_enc in E as [-> ->]; [|done]
  | E : read_u64 (reader_at _ (be_bytes 8 _ ++ _)) = Ok _ |- _ => apply read_u64_be in E as [-> ->]; [|done]
  | E : read_u32 (reader_at _ (be_bytes 4 _ ++ _)) = Ok _ |- _ => apply read_u32_be in E as [-> ->]; [|apply type_code_u32]
  | E : from_utf8 _ _ = Ok _ |- _ => apply from_utf8_inv in E as [-> _]
  end.

Lemma fields_back b plain kt key ca q f r n sg raw :
  builder_wf b → blob_type_to_plain kt = Some plain → b_public_key b = enc plain ++ key →
  len (issued_region b kt key ca) ≤ MAX_CERT_BLOB →
  parse_fields (reader_at [] (issued_region b kt key ca ++ q)) = Ok (f, r) →
  embedded_pubkey_blob (f n sg raw) = b_public_key b →
  carries b ca (f n sg raw) ∧ r = reader_at (issued_region b kt key ca) q.
Proof.
  intros [Hw1 Hw2 Hw3] Hkt Hpk Hl H Hemb. unfold issued_region, issued_tail in *. rewrite !len_app, !len_enc in Hl.
  assert (short kt ∧ short (b_nonce b) ∧ short (b_key_id b) ∧ short (concat (enc <$> b_valid_principals b)) ∧
    short (pairs_bytes (sort_pairs (b_critical_options b))) ∧ short (pairs_bytes (sort_pairs (b_extensions b))) ∧
    short [] ∧ short ca) as (S1 & S2 & S3 & S4 & S5 & S6 & S7 & S8).
  { unfold short. len_pos. by split_and!; lia. }
  unfold parse_fields in H. rewrite <- !app_assoc in H. chain H.
  apply Ok_inj, pair_equal_spec in H as [<- <-]. cbn [embedded_pubkey_blob] in Hemb. repeat next_field.
  match goal with E : read_embedded_pubkey kt _ = Ok _ |- _ =>
    apply (embedded_consumed _ _ _ _ _ _ Hkt) in E as (x & post & Ex & -> & ->) end.
  rewrite Hpk in Hemb. apply app_inv_head in Hemb as ->. apply app_inv_head in Ex as <-. repeat next_field.
  repeat match goal with
  | E : cert_type_from_u32 _ = Ok _ |- _ => apply type_code_back in E as ->
  | E : parse_string_list _ = Ok _ |- _ =>
      unfold parse_string_list in E; rewrite reader_new_at in E; apply string_list_back in E as ->; [|by apply concat_short]
  | E : parse_pair_list _ = Ok _ |- _ =>
      unfold parse_pair_list in E; rewrite reader_new_at in E; apply pair_list_back in E as ->; [|by apply pairs_short]
  end.
  split; [by split|]. cbn [app]. by rewrite <- !app_assoc.
Qed.
End Issue.

(** ** The certificate a CA key issues *)

Lemma insert_pair_perm o l : insert_pair o l ≡ₚ o :: l.
Proof.
  induction l as [|x l IH]; cbn [insert_pair]; [done|]. destruct (bytes_ltb _ _); [|done].
  rewrite IH. apply Permutation_swap.
Qed.

Lemma sort_pairs_perm l : sort_pairs l ≡ₚ l.
Proof.
  induction l as [|o l IH]; [done|]. change (sort_pairs (o :: l)) with (insert_pair o (sort_pairs l)).
  rewrite insert_pair_perm. by constructor.
Qed.

Lemma reader_at_inj x y p q : reader_at x p = reader_at y q → x = y ∧ p = q.
Proof.
  unfold reader_at. intros E. injection E as Eb Ep. apply app_inj_1 in Eb; [done|]. unfold len in Ep. lia.
Qed.

Section Issued.
Context {S : SigPrims}.

Lemma issued_parts b ca sign cert :
  builder_wf b → builder_sign b ca sign = Ok cert →
  carries b ca cert ∧ sign (signed_region cert) = Ok (signature cert).
Proof.
  intros Hw H. apply builder_sign_inv in H as (plain & key & kt & sig & Hpk & _ & Hkt & _ & Hs & Hp & He).
  pose proof (signed_region_at _ _ Hp) as Hreg.
  apply certificate_parse_inv in Hp as (f & x & Hb & Hc & Hn & _ & Hm & Hf & _). rewrite reader_new_at in Hf.
  rewrite Hc in He.
  assert (Hl : len (issued_region b kt key ca) ≤ MAX_CERT_BLOB).
  { rewrite len_app, len_enc in Hm. pose proof (len_nonneg sig). lia. }
  destruct (fields_back b plain kt key ca _ _ _ _ _ _ Hw Hkt Hpk Hl Hf He) as [Hcar Hr]. apply reader_at_inj in Hr as [-> Eq]. rewrite <- Hc in Hcar. split; [done|].
  rewrite Hb in Hreg at 1. apply app_inv_tail in Hreg as <-. rewrite Hs. f_equal.
  assert (is_u32 (len sig)) as Hu.
  { rewrite len_app, len_enc in Hm. pose proof (len_nonneg (issued_region b kt key ca)). pose proof (len_nonneg sig).
    unfold MAX_CERT_BLOB in Hm. width_lia. }
  rewrite <- (enc_of_u32 sig Hu) in Eq. apply app_inj_1 in Eq as [_ Eq]; [done|by rewrite !length_be_bytes].
Qed.
End Issued.

Section Verified.
Context {C : PureCrypto} {S : SigPrims} {rsa_pair : RsaPrivateKey → Prop} {SL : SigPrimsLaws S rsa_pair}.
Context (allow_rsa_sha1 : bool).
#[local] Hint Extern 0 (HostKeyTrait SoftKey) => exact (soft_key_trait allow_rsa_sha1) : typeclass_instances.

End Verified.
