(* ===== verification/AuthMsg.v ===== *)
(** * User authentication messages (src/auth/message.rs)

    The messages of RFC 4252 and RFC 4256, the data a public-key request
    signs, and the constant-time comparison of secrets. *)
From S2P Require Import Prelude Wire WireLoop Text Packet KexInit.

Definition SSH_MSG_SERVICE_REQUEST : Z := 5.
Definition SSH_MSG_SERVICE_ACCEPT : Z := 6.
Definition SSH_MSG_USERAUTH_REQUEST : Z := 50.
Definition SSH_MSG_USERAUTH_FAILURE : Z := 51.
Definition SSH_MSG_USERAUTH_SUCCESS : Z := 52.
Definition SSH_MSG_USERAUTH_BANNER : Z := 53.
Definition SSH_MSG_USERAUTH_PK_OK : Z := 60.
Definition SSH_MSG_USERAUTH_PASSWD_CHANGEREQ : Z := 60.
Definition SSH_MSG_USERAUTH_INFO_REQUEST : Z := 60.
Definition SSH_MSG_USERAUTH_INFO_RESPONSE : Z := 61.
Definition MAX_USERAUTH_STRING : Z := MAX_PACKET_LEN.

Definition read_bytes_capped (r : Reader) : result (bytes * Reader) :=
  let? (n, r) := read_u32 r in
  if MAX_USERAUTH_STRING <? n then Err (Format "userauth string too large") else read_take n r.

Definition read_utf8 (r : Reader) : result (bytes * Reader) :=
  let? (b, r) := read_bytes_capped r in
  let? s := from_utf8 (Format "auth: invalid utf-8") b in Ok (s, r).

Definition ensure_empty (r : Reader) : result unit :=
  if negb (reader_is_empty r) then Err (Format "auth: trailing data") else Ok tt.

(** [if r.read_u8()? != code { return Err(..) }] *)
Definition expect_type (code : Z) (e : string) (payload : bytes) : result Reader :=
  let? (t, r) := read_u8 (reader_new payload) in
  if negb (t =? code) then Err (Format e) else Ok r.

(** ** Service request and acceptance *)

Definition service_request_encode (service : bytes) : bytes :=
  writer_new |>> write_u8 SSH_MSG_SERVICE_REQUEST |>> write_string service |>> into_vec.
Definition service_request_decode (payload : bytes) : result bytes :=
  let? r := expect_type SSH_MSG_SERVICE_REQUEST "auth: not SERVICE_REQUEST" payload in
  let? (service, r) := read_utf8 r in
  let? _ := ensure_empty r in Ok service.

Definition service_accept_encode (service : bytes) : bytes :=
  writer_new |>> write_u8 SSH_MSG_SERVICE_ACCEPT |>> write_string service |>> into_vec.
Definition service_accept_decode (payload : bytes) : result bytes :=
  let? r := expect_type SSH_MSG_SERVICE_ACCEPT "auth: not SERVICE_ACCEPT" payload in
  let? (service, r) := read_utf8 r in
  let? _ := ensure_empty r in Ok service.

(** ** Secrets *)

(** A [SecretString] is its text.  The loop visits every position up to the
    longer length; a missing byte counts as zero, and the lengths are compared
    in the sign bit of [d | -d]. *)
Definition ct_bytes_eq (a b : bytes) : bool :=
  let n := Nat.max (length a) (length b) in
  let diff := fold_left (λ diff i, Z.lor diff (Z.lxor (u8 (nth i a Byte.x00)) (u8 (nth i b Byte.x00)))) (seq 0 n) 0 in
  let len_diff := Z.lxor (len a) (len b) in
  let len_bit := Z.shiftr (Z.lor len_diff (wrap64 (- len_diff))) 63 in
  Z.lor diff len_bit =? 0.

(** ** Authentication requests *)

Definition PUBLICKEY_HOSTBOUND : bytes := bs "publickey-hostbound-v00@openssh.com".

Inductive AuthMethodPayload :=
  | MNone
  | MPassword (new_password : option bytes) (password : bytes)
  | MPublicKey (signature_present : bool) (algorithm public_blob : bytes) (signature host_key : option bytes)
  | MKeyboardInteractive (language_tag submethods : bytes)
  | MOther (method tail : bytes).

Definition method_name (m : AuthMethodPayload) : bytes :=
  match m with
  | MNone => bs "none"
  | MPassword _ _ => bs "password"
  | MPublicKey _ _ _ _ None => bs "publickey"
  | MPublicKey _ _ _ _ (Some _) => PUBLICKEY_HOSTBOUND
  | MKeyboardInteractive _ _ => bs "keyboard-interactive"
  | MOther method _ => method
  end.

Definition write_tail (m : AuthMethodPayload) (w : Writer) : Writer :=
  match m with
  | MNone => w
  | MPassword new_password password =>
      let w := w |>> write_bool (is_some new_password) |>> write_string password in
      match new_password with Some np => write_string np w | None => w end
  | MPublicKey signature_present algorithm public_blob signature host_key =>
      let w := w |>> write_bool signature_present |>> write_string algorithm |>> write_string public_blob in
      let w := match host_key with Some hk => write_string hk w | None => w end in
      if signature_present then write_string (default [] signature) w else w
  | MKeyboardInteractive language_tag submethods => w |>> write_string language_tag |>> write_string submethods
  | MOther _ tail => write_raw tail w
  end.

Record UserauthRequest := { ua_user : bytes; ua_service : bytes; ua_method : AuthMethodPayload }.

Definition userauth_request_encode (q : UserauthRequest) : bytes :=
  writer_new |>> write_u8 SSH_MSG_USERAUTH_REQUEST |>> write_string (ua_user q) |>> write_string (ua_service q)
    |>> write_string (method_name (ua_method q)) |>> write_tail (ua_method q) |>> into_vec.


Definition decode_method (name : bytes) (r : Reader) : result AuthMethodPayload :=
  if bytes_eqb name (bs "none") then
    let? _ := ensure_empty r in Ok MNone
  else if bytes_eqb name (bs "password") then
    let? (change, r) := read_bool r in
    let? (password, r) := read_utf8 r in
    let? (new_password, r) := read_if change read_utf8 r in
    let? _ := ensure_empty r in Ok (MPassword new_password password)
  else if bytes_eqb name (bs "publickey") || bytes_eqb name PUBLICKEY_HOSTBOUND then
    let? (signature_present, r) := read_bool r in
    let? (algorithm, r) := read_utf8 r in
    let? (public_blob, r) := read_bytes_capped r in
    let? (host_key, r) := read_if (bytes_eqb name PUBLICKEY_HOSTBOUND) read_bytes_capped r in
    let? (signature, r) := read_if signature_present read_bytes_capped r in
    let? _ := ensure_empty r in Ok (MPublicKey signature_present algorithm public_blob signature host_key)
  else if bytes_eqb name (bs "keyboard-interactive") then
    let? (language_tag, r) := read_utf8 r in
    let? (submethods, r) := read_utf8 r in
    let? _ := ensure_empty r in Ok (MKeyboardInteractive language_tag submethods)
  else
    let? (tail, _) := read_take (remaining r) r in Ok (MOther name tail).

Definition userauth_request_decode (payload : bytes) : result UserauthRequest :=
  let? r := expect_type SSH_MSG_USERAUTH_REQUEST "auth: not USERAUTH_REQUEST" payload in
  let? (user, r) := read_utf8 r in
  let? (service, r) := read_utf8 r in
  let? (name, r) := read_utf8 r in
  let? method := decode_method name r in
  Ok {| ua_user := user; ua_service := service; ua_method := method |}.

(** ** Answers *)

Record UserauthFailure := { uf_continuations : list bytes; uf_partial_success : bool }.

Definition userauth_failure_encode (f : UserauthFailure) : bytes :=
  writer_new |>> write_u8 SSH_MSG_USERAUTH_FAILURE |>> write_string (join_names (uf_continuations f))
    |>> write_bool (uf_partial_success f) |>> into_vec.

Fixpoint decode_parts (parts : list bytes) : result (list bytes) :=
  match parts with
  | [] => Ok []
  | part :: rest =>
      if is_nil part then decode_parts rest else
      let? s := from_utf8 (Format "auth: invalid utf-8") part in
      let? rest := decode_parts rest in Ok (s :: rest)
  end.

Definition userauth_failure_decode (payload : bytes) : result UserauthFailure :=
  let? r := expect_type SSH_MSG_USERAUTH_FAILURE "auth: not USERAUTH_FAILURE" payload in
  let? (raw, r) := read_bytes_capped r in
  let? (partial_success, r) := read_bool r in
  let? _ := ensure_empty r in
  let? continuations := decode_parts (split_on comma raw) in
  Ok {| uf_continuations := continuations; uf_partial_success := partial_success |}.

Definition encode_success : bytes := writer_new |>> write_u8 SSH_MSG_USERAUTH_SUCCESS |>> into_vec.

Definition decode_success (payload : bytes) : result unit :=
  match payload with
  | [b] => if u8 b =? SSH_MSG_USERAUTH_SUCCESS then Ok tt else Err (Format "auth: not USERAUTH_SUCCESS")
  | _ => Err (Format "auth: not USERAUTH_SUCCESS")
  end.

Record UserauthBanner := { ub_message : bytes; ub_language : bytes }.

Definition userauth_banner_encode (b : UserauthBanner) : bytes :=
  writer_new |>> write_u8 SSH_MSG_USERAUTH_BANNER |>> write_string (ub_message b) |>> write_string (ub_language b)
    |>> into_vec.
Definition userauth_banner_decode (payload : bytes) : result UserauthBanner :=
  let? r := expect_type SSH_MSG_USERAUTH_BANNER "auth: not USERAUTH_BANNER" payload in
  let? (message, r) := read_utf8 r in
  let? (language, r) := read_utf8 r in
  let? _ := ensure_empty r in Ok {| ub_message := message; ub_language := language |}.

Record UserauthPkOk := { pk_algorithm : bytes; pk_public_blob : bytes }.

Definition userauth_pk_ok_encode (p : UserauthPkOk) : bytes :=
  writer_new |>> write_u8 SSH_MSG_USERAUTH_PK_OK |>> write_string (pk_algorithm p) |>> write_string (pk_public_blob p)
    |>> into_vec.
Definition userauth_pk_ok_decode (payload : bytes) : result UserauthPkOk :=
  let? r := expect_type SSH_MSG_USERAUTH_PK_OK "auth: not USERAUTH_PK_OK" payload in
  let? (algorithm, r) := read_utf8 r in
  let? (public_blob, r) := read_bytes_capped r in
  let? _ := ensure_empty r in Ok {| pk_algorithm := algorithm; pk_public_blob := public_blob |}.

Record UserauthInfoRequest := {
  ir_name : bytes; ir_instruction : bytes; ir_language : bytes; ir_prompts : list (bytes * bool)
}.

Definition userauth_info_request_encode (q : UserauthInfoRequest) : bytes :=
  let w := writer_new |>> write_u8 SSH_MSG_USERAUTH_INFO_REQUEST |>> write_string (ir_name q)
             |>> write_string (ir_instruction q) |>> write_string (ir_language q)
             |>> write_u32 (wrap32 (len (ir_prompts q))) in
  into_vec (fold_left (λ w p, w |>> write_string (fst p) |>> write_bool (snd p)) (ir_prompts q) w).


Definition read_prompt (r : Reader) : result ((bytes * bool) * Reader) :=
  let? (prompt, r) := read_utf8 r in
  let? (echo, r) := read_bool r in Ok ((prompt, echo), r).

Definition userauth_info_request_decode (payload : bytes) : result UserauthInfoRequest :=
  let? r := expect_type SSH_MSG_USERAUTH_INFO_REQUEST "auth: not USERAUTH_INFO_REQUEST" payload in
  let? (name, r) := read_utf8 r in
  let? (instruction, r) := read_utf8 r in
  let? (language, r) := read_utf8 r in
  let? (n, r) := read_u32 r in
  if 1024 <? n then Err (Format "auth: too many prompts") else
  let? (prompts, r) := read_n read_prompt (Z.to_nat n) r in
  let? _ := ensure_empty r in
  Ok {| ir_name := name; ir_instruction := instruction; ir_language := language; ir_prompts := prompts |}.

Definition userauth_info_response_encode (responses : list bytes) : bytes :=
  let w := writer_new |>> write_u8 SSH_MSG_USERAUTH_INFO_RESPONSE |>> write_u32 (wrap32 (len responses)) in
  into_vec (fold_left (λ w resp, write_string resp w) responses w).

Definition userauth_info_response_decode (payload : bytes) : result (list bytes) :=
  let? r := expect_type SSH_MSG_USERAUTH_INFO_RESPONSE "auth: not USERAUTH_INFO_RESPONSE" payload in
  let? (n, r) := read_u32 r in
  if 1024 <? n then Err (Format "auth: too many responses") else
  let? (responses, r) := read_n read_utf8 (Z.to_nat n) r in
  let? _ := ensure_empty r in Ok responses.

(** ** What a public-key request signs *)

Definition publickey_signed_data_bound (session_id user service algorithm public_blob : bytes) (host_key : option bytes)
    : bytes :=
  let w := writer_new |>> write_string session_id |>> write_u8 SSH_MSG_USERAUTH_REQUEST |>> write_string user
             |>> write_string service
             |>> write_string (match host_key with Some _ => PUBLICKEY_HOSTBOUND | None => bs "publickey" end)
             |>> write_bool true |>> write_string algorithm |>> write_string public_blob in
  into_vec (match host_key with Some hk => write_string hk w | None => w end).

Definition publickey_signed_data (session_id user service algorithm public_blob : bytes) : bytes :=
  publickey_signed_data_bound session_id user service algorithm public_blob None.
