(* ===== verification/AuthMsgFacts.v ===== *)
(** * Authentication messages: round trips, comparison, signed data *)
From S2P Require Import Prelude Wire WireLoop Text Packet KexInit KexFacts AuthMsg.

(** ** Readers in front of encoded values *)

(** A text field within the cap of the decoders. *)
Definition auth_bytes (s : bytes) : Prop := len s ≤ MAX_USERAUTH_STRING.
Definition auth_str (s : bytes) : Prop := utf8_valid s = true ∧ auth_bytes s.

Lemma auth_bytes_u32 s : auth_bytes s → is_u32 (len s).
Proof. unfold auth_bytes, MAX_USERAUTH_STRING, MAX_PACKET_LEN. pose proof (len_nonneg s). width_lia. Qed.

Lemma auth_bytes_at pre s post :
  fits_mem (pre ++ be_bytes 4 (wrap32 (len s)) ++ s ++ post) → auth_bytes s →
  read_bytes_capped (reader_at pre (be_bytes 4 (wrap32 (len s)) ++ s ++ post)) =
    Ok (s, reader_at (pre ++ be_bytes 4 (wrap32 (len s)) ++ s) post).
Proof.
  intros Hm Hs. pose proof (auth_bytes_u32 s Hs) as Hl. unfold read_bytes_capped.
  rewrite read_u32_at by (first [done|apply wrap32_range]).
  rewrite wrap32_small by done. rewrite (proj2 (Z.ltb_ge _ _)) by done.
  rewrite wrap32_small in Hm by done.
  rewrite read_take_at; [by rewrite <- app_assoc|solve_mem|done].
Qed.

Lemma auth_utf8_at pre s post :
  fits_mem (pre ++ be_bytes 4 (wrap32 (len s)) ++ s ++ post) → auth_str s →
  read_utf8 (reader_at pre (be_bytes 4 (wrap32 (len s)) ++ s ++ post)) =
    Ok (s, reader_at (pre ++ be_bytes 4 (wrap32 (len s)) ++ s) post).
Proof. intros Hm [Hu Hs]. unfold read_utf8. rewrite auth_bytes_at by done. by rewrite from_utf8_ok. Qed.

Lemma ensure_empty_at pre : ensure_empty (reader_at pre []) = Ok tt.
Proof. unfold ensure_empty, reader_is_empty. by rewrite remaining_at. Qed.

Lemma expect_type_at code e post :
  is_u8 code → fits_mem (byte_of_Z code :: post) →
  expect_type code e (byte_of_Z code :: post) = Ok (reader_at [byte_of_Z code] post).
Proof.
  intros Hc Hm. unfold expect_type. rewrite reader_new_at, read_u8_at by done. by rewrite Z.eqb_refl.
Qed.

Lemma read_true_at pre post :
  fits_mem (pre ++ byte_of_Z 1 :: post) →
  read_bool (reader_at pre (byte_of_Z 1 :: post)) = Ok (true, reader_at (pre ++ [byte_of_Z 1]) post).
Proof. exact (read_bool_at pre true post). Qed.

Lemma read_false_at pre post :
  fits_mem (pre ++ byte_of_Z 0 :: post) →
  read_bool (reader_at pre (byte_of_Z 0 :: post)) = Ok (false, reader_at (pre ++ [byte_of_Z 0]) post).
Proof. exact (read_bool_at pre false post). Qed.

(** Reads an encoded buffer back, field by field. *)
Ltac read_fields :=
  repeat (first
    [ rewrite auth_utf8_at by (first [solve_mem | assumption])
    | rewrite auth_bytes_at by (first [solve_mem | assumption])
    | rewrite read_true_at by solve_mem
    | rewrite read_false_at by solve_mem
    | rewrite read_bool_at by solve_mem
    | rewrite read_u32_at by (first [solve_mem | assumption | width_lia])
    | rewrite ensure_empty_at ]; cbn beta iota).

(** ** Requests *)

Definition known_methods : list bytes :=
  [bs "none"; bs "password"; bs "publickey"; PUBLICKEY_HOSTBOUND; bs "keyboard-interactive"].

(** What Rust's types and the caps of the decoder ask of a payload; a signature
    is there exactly when the flag says so. *)
Definition method_wf (m : AuthMethodPayload) : Prop :=
  match m with
  | MNone => True
  | MPassword np p => auth_str p ∧ (∀ s, np = Some s → auth_str s)
  | MPublicKey present alg blob sig hk =>
      auth_str alg ∧ auth_bytes blob ∧ is_some sig = present ∧ (∀ s, sig = Some s → auth_bytes s) ∧
      (∀ s, hk = Some s → auth_bytes s)
  | MKeyboardInteractive lang sub => auth_str lang ∧ auth_str sub
  | MOther name _ => auth_str name ∧ name ∉ known_methods
  end.

Definition request_wf (q : UserauthRequest) : Prop :=
  auth_str (ua_user q) ∧ auth_str (ua_service q) ∧ method_wf (ua_method q).

Lemma write_tail_buf m w : w_buf (write_tail m w) = w_buf w ++ w_buf (write_tail m writer_new).
Proof.
  destruct m as [|[np|] p|[] a b [s|] [h|]|l s|n t]; cbn [write_tail default]; writer_norm; by rewrite ?app_nil_r.
Qed.

Lemma unknown_method n name : n ∉ known_methods → name ∈ known_methods → bytes_eqb n name = false.
Proof. intros Hn Hin. apply bytes_eqb_false. by intros ->. Qed.

Lemma decode_method_at pre m :
  method_wf m → fits_mem (pre ++ w_buf (write_tail m writer_new)) →
  decode_method (method_name m) (reader_at pre (w_buf (write_tail m writer_new))) = Ok m.
Proof.
  intros Hw Hm. rewrite <- (app_nil_r (w_buf (write_tail m writer_new))). revert Hw Hm.
  destruct m as [|np p|present a b sig hk|l s|n t]; cbn [method_wf method_name]; intros Hw.
  - intros _. unfold decode_method. eval_names. cbn [write_tail w_buf writer_new app]. read_fields. done.
  - destruct Hw as [Hp Hn]. destruct np as [np|]; [pose proof (Hn np eq_refl) as Hnp|];
      cbn [write_tail is_some]; writer_norm; intros Hm; unfold decode_method, read_if; eval_names;
      read_fields; done.
  - destruct Hw as (Ha & Hb & Hp & Hs & Hh). subst present.
    destruct sig as [sig|]; [pose proof (Hs sig eq_refl) as Hsig|]; (destruct hk as [hk|]; [pose proof (Hh hk eq_refl) as Hhk|]);
      cbn [write_tail is_some default]; writer_norm; intros Hm; unfold decode_method, read_if; eval_names;
      read_fields; done.
  - destruct Hw as [Hl Hs]. cbn [write_tail]; writer_norm; intros Hm; unfold decode_method; eval_names. read_fields. done.
  - destruct Hw as [_ Hn]. cbn [write_tail]; writer_norm; intros Hm. unfold decode_method.
    rewrite !(unknown_method n) by (first [done|set_solver]). cbn [orb]. rewrite remaining_at.
    rewrite app_nil_r. rewrite <- (app_nil_r t) at 2. rewrite read_take_at; [done|solve_mem|done].
Qed.

Lemma utf8_known name : name ∈ known_methods → auth_str name.
Proof. intros H. repeat (apply elem_of_cons in H as [->|H]; [by vm_compute|]). by apply elem_of_nil in H. Qed.

Lemma method_name_str m : method_wf m → auth_str (method_name m).
Proof.
  destruct m as [|np p|present a b sig [hk|]|l s|n t]; cbn [method_wf method_name];
    [intros _; by vm_compute..|by intros [? _]].
Qed.

(** A request that is sent is received as it was sent. *)
Lemma userauth_request_roundtrip q :
  request_wf q → fits_mem (userauth_request_encode q) →
  userauth_request_decode (userauth_request_encode q) = Ok q.
Proof.
  intros (Hu & Hs & Hw). pose proof (method_name_str _ Hw) as Hn.
  unfold userauth_request_encode, into_vec. rewrite write_tail_buf. writer_norm. intros Hm.
  unfold userauth_request_decode. rewrite expect_type_at by (first [solve_mem|by vm_compute]). read_fields.
  fold writer_new in *. rewrite decode_method_at; [by destruct q|done|solve_mem].
Qed.

(** ** The other messages *)

Ltac message_back :=
  unfold into_vec; rewrite <- (app_nil_r (w_buf _)); writer_norm; intros Hm;
  rewrite expect_type_at by (first [solve_mem|by vm_compute]); read_fields.

Lemma service_request_roundtrip s :
  auth_str s → service_request_decode (service_request_encode s) = Ok s.
Proof.
  intros Hs. assert (Hm : fits_mem (service_request_encode s)).
  { unfold service_request_encode; writer_norm. unfold fits_mem. autorewrite with lens.
    destruct Hs as [_ Hs]. unfold auth_bytes, MAX_USERAUTH_STRING, MAX_PACKET_LEN in Hs. lia. }
  revert Hm. unfold service_request_decode, service_request_encode. message_back. done.
Qed.

Lemma service_accept_roundtrip s :
  auth_str s → service_accept_decode (service_accept_encode s) = Ok s.
Proof.
  intros Hs. assert (Hm : fits_mem (service_accept_encode s)).
  { unfold service_accept_encode; writer_norm. unfold fits_mem. autorewrite with lens.
    destruct Hs as [_ Hs]. unfold auth_bytes, MAX_USERAUTH_STRING, MAX_PACKET_LEN in Hs. lia. }
  revert Hm. unfold service_accept_decode, service_accept_encode. message_back. done.
Qed.

Lemma pk_ok_roundtrip p :
  auth_str (pk_algorithm p) → auth_bytes (pk_public_blob p) →
  userauth_pk_ok_decode (userauth_pk_ok_encode p) = Ok p.
Proof.
  intros Ha Hb. assert (Hm : fits_mem (userauth_pk_ok_encode p)).
  { unfold userauth_pk_ok_encode; writer_norm. unfold fits_mem. autorewrite with lens.
    destruct Ha as [_ Ha]. unfold auth_bytes, MAX_USERAUTH_STRING, MAX_PACKET_LEN in *. lia. }
  revert Hm. unfold userauth_pk_ok_decode, userauth_pk_ok_encode. message_back. by destruct p.
Qed.

(** The decoder of a failure keeps the non-empty parts. *)
Lemma decode_parts_filter parts :
  Forall (λ s, utf8_valid s = true) (List.filter (λ s, negb (is_nil s)) parts) →
  decode_parts parts = Ok (List.filter (λ s, negb (is_nil s)) parts).
Proof.
  induction parts as [|s parts IH]; cbn [List.filter decode_parts]; [done|].
  destruct (is_nil s); cbn [negb]; [done|]. intros H. inversion H; subst. by rewrite from_utf8_ok, IH.
Qed.

Lemma userauth_failure_roundtrip f :
  Forall name_ok (uf_continuations f) → auth_bytes (join_names (uf_continuations f)) →
  userauth_failure_decode (userauth_failure_encode f) = Ok f.
Proof.
  intros Hn Hl. assert (Hm : fits_mem (userauth_failure_encode f)).
  { unfold userauth_failure_encode; writer_norm. unfold fits_mem. autorewrite with lens.
    unfold auth_bytes, MAX_USERAUTH_STRING, MAX_PACKET_LEN in *. lia. }
  revert Hm. unfold userauth_failure_decode, userauth_failure_encode. message_back.
  pose proof (name_list_iter_join _ Hn) as E. unfold name_list_iter in E.
  rewrite decode_parts_filter, E; [by destruct f|]. rewrite E. eapply Forall_impl; [|exact Hn].
  intros x (_ & _ & _ & Hr). apply utf8_valid_ascii. eapply Forall_impl; [|exact Hr].
  cbn. unfold in_range. intros b Hb. zbool. lia.
Qed.

(** ** Constant-time comparison *)

Lemma fold_lor_zero (f : nat → Z) l d :
  fold_left (λ d i, Z.lor d (f i)) l d = 0 ↔ d = 0 ∧ Forall (λ i, f i = 0) l.
Proof.
  revert d. induction l as [|i l IH]; intros d; cbn [fold_left]; [by split; [intros ->|intros [-> _]]|].
  rewrite IH, Z.lor_eq_0_iff, Forall_cons_iff. tauto.
Qed.

Lemma sign_bit_zero d : 0 ≤ d < 2 ^ 64 → Z.shiftr (Z.lor d (wrap64 (- d))) 63 = 0 ↔ d = 0.
Proof.
  intros Hd. rewrite Z.shiftr_lor, Z.lor_eq_0_iff, !Z.shiftr_div_pow2 by done. unfold wrap64.
  change (2 ^ 64) with 18446744073709551616 in Hd. change (2 ^ 63) with 9223372036854775808.
  split; [|by intros ->]. Z.to_euclidean_division_equations. lia.
Qed.

Lemma lxor_range a b : is_u64 a → is_u64 b → 0 ≤ Z.lxor a b < 2 ^ 64.
Proof.
  intros Ha Hb. assert (Hn : 0 ≤ Z.lxor a b) by (apply Z.lxor_nonneg; width_lia). split; [done|].
  destruct (Z.eq_dec (Z.lxor a b) 0) as [->|Hz]; [done|]. apply Z.log2_lt_pow2; [lia|].
  pose proof (Z.log2_lxor a b ltac:(width_lia) ltac:(width_lia)).
  assert (Hlog : ∀ x, is_u64 x → Z.log2 x < 64).
  { intros x Hx. destruct (Z.eq_dec x 0) as [->|]; [done|]. apply Z.log2_lt_pow2; width_lia. }
  pose proof (Hlog a Ha). pose proof (Hlog b Hb). lia.
Qed.

Lemma nth_ext_eq (a b : bytes) :
  length a = length b → Forall (λ i, u8 (nth i a Byte.x00) = u8 (nth i b Byte.x00)) (seq 0 (length a)) → a = b.
Proof.
  revert b. induction a as [|x a IH]; intros [|y b]; try done. cbn [length seq]. intros [= Hl] H.
  apply Forall_cons_iff in H as [Hx H]. cbn [nth] in Hx. apply u8_inj in Hx as ->. f_equal. apply IH; [done|].
  rewrite <- seq_shift, Forall_map in H. exact H.
Qed.

(** The constant-time comparison is equality, for any two secrets: the
    accumulated difference is zero exactly when the bytes and the lengths
    agree. *)
Theorem ct_bytes_eq_spec a b : fits_mem a → fits_mem b → ct_bytes_eq a b = true ↔ a = b.
Proof.
  intros Ha Hb. unfold ct_bytes_eq. rewrite Z.eqb_eq, Z.lor_eq_0_iff, fold_lor_zero.
  assert (Hl : is_u64 (len a) ∧ is_u64 (len b)).
  { unfold fits_mem in *. pose proof (len_nonneg a). pose proof (len_nonneg b). width_lia. }
  rewrite sign_bit_zero by (by apply lxor_range; apply Hl). rewrite Z.lxor_eq_0_iff. split.
  - intros [[_ Hf] El]. unfold len in El. apply Nat2Z.inj in El. rewrite <- El, Nat.max_id in Hf.
    apply nth_ext_eq; [done|]. eapply Forall_impl; [|exact Hf]. intros i. apply Z.lxor_eq.
  - intros ->. split; [|done]. split; [done|]. apply Forall_forall. intros i _. apply Z.lxor_nilpotent.
Qed.

Lemma ct_bytes_eq_spec_witness : ct_bytes_eq (bs "hunter2") (bs "hunter2") = true ↔ bs "hunter2" = bs "hunter2".
Proof. apply ct_bytes_eq_spec; vm_compute; congruence. Defined.

(** ** The signed data names the session, the user and the key *)

Lemma string_inj x y r r' :
  is_u32 (len x) → is_u32 (len y) →
  be_bytes 4 (wrap32 (len x)) ++ x ++ r = be_bytes 4 (wrap32 (len y)) ++ y ++ r' → x = y ∧ r = r'.
Proof.
  intros Hx Hy E. apply app_inj_1 in E as [E1 E2]; [|by rewrite !length_be_bytes].
  apply (f_equal be_value) in E1. rewrite !wrap32_small in E1 by done.
  rewrite !be_value_be_bytes_small in E1 by (change (256 ^ Z.of_nat 4) with 4294967296; width_lia).
  apply app_inj_1 in E2; [done|]. unfold len in E1. lia.
Qed.

Record signed_fields := {
  sf_session_id : bytes; sf_user : bytes; sf_service : bytes; sf_algorithm : bytes; sf_public_blob : bytes;
  sf_host_key : option bytes
}.

Definition signed_data_of (f : signed_fields) : bytes :=
  publickey_signed_data_bound (sf_session_id f) (sf_user f) (sf_service f) (sf_algorithm f) (sf_public_blob f)
    (sf_host_key f).

Definition signed_fields_wf (f : signed_fields) : Prop :=
  Forall (λ s, is_u32 (len s)) [sf_session_id f; sf_user f; sf_service f; sf_algorithm f; sf_public_blob f] ∧
  ∀ h, sf_host_key f = Some h → is_u32 (len h).

Definition bound_method (hk : option bytes) : bytes :=
  match hk with Some _ => PUBLICKEY_HOSTBOUND | None => bs "publickey" end.

Lemma signed_data_form f :
  signed_data_of f =
    be_bytes 4 (wrap32 (len (sf_session_id f))) ++ sf_session_id f ++ byte_of_Z SSH_MSG_USERAUTH_REQUEST ::
    be_bytes 4 (wrap32 (len (sf_user f))) ++ sf_user f ++ be_bytes 4 (wrap32 (len (sf_service f))) ++ sf_service f ++
    be_bytes 4 (wrap32 (len (bound_method (sf_host_key f)))) ++ bound_method (sf_host_key f) ++ byte_of_Z 1 ::
    be_bytes 4 (wrap32 (len (sf_algorithm f))) ++ sf_algorithm f ++
    be_bytes 4 (wrap32 (len (sf_public_blob f))) ++ sf_public_blob f ++
    match sf_host_key f with Some h => be_bytes 4 (wrap32 (len h)) ++ h ++ [] | None => [] end.
Proof.
  unfold signed_data_of, publickey_signed_data_bound, bound_method.
  destruct (sf_host_key f); writer_norm; by rewrite ?app_nil_r.
Qed.

(** The data a public-key request signs determines what it is about: the
    session identifier, the user as sent, the service, the algorithm, the key
    and the host key it is bound to.  A signature made for one session, user or
    server is over different data than any other. *)
Theorem signed_data_injective f g :
  signed_fields_wf f → signed_fields_wf g → signed_data_of f = signed_data_of g → f = g.
Proof.
  rewrite !signed_data_form. intros [Hf Hfh] [Hg Hgh] E. rewrite !Forall_cons_iff in Hf, Hg.
  destruct Hf as (F1 & F2 & F3 & F4 & F5 & _), Hg as (G1 & G2 & G3 & G4 & G5 & _).
  assert (B : ∀ h, is_u32 (len (bound_method h))) by (intros [h|]; by vm_compute).
  apply string_inj in E as [E1 E]; [|done..]. apply (f_equal tail) in E; cbn [tail] in E.
  apply string_inj in E as [E2 E]; [|done..]. apply string_inj in E as [E3 E]; [|done..].
  apply string_inj in E as [E4 E]; [|done..]. apply (f_equal tail) in E; cbn [tail] in E.
  apply string_inj in E as [E5 E]; [|done..]. apply string_inj in E as [E6 E]; [|done..].
  destruct f as [f1 f2 f3 f4 f5 [f6|]], g as [g1 g2 g3 g4 g5 [g6|]]; cbn in *; try discriminate; [|congruence].
  apply string_inj in E as [-> _]; [|auto..]. congruence.
Qed.

Definition demo_signed (user : bytes) : signed_fields := {|
  sf_session_id := bs "session"; sf_user := user; sf_service := bs "ssh-connection"; sf_algorithm := bs "ssh-ed25519";
  sf_public_blob := bs "blob"; sf_host_key := None |}.

Lemma signed_data_injective_witness : demo_signed (bs "alice") = demo_signed (bs "ali" ++ bs "ce").
Proof.
  apply signed_data_injective; [..|by vm_compute];
    (split; [repeat (constructor; [by vm_compute|]); constructor|done]).
Defined.
