(* ===== verification/AuthServer.v ===== *)
(** * Server-side user authentication (src/auth/server.rs, src/key/mod.rs)

    The capability facts a certificate or an [authorized_keys] line leaves to
    the connection phase, and how the facts of several factors are combined;
    then [ServerAuth], the state machine that answers authentication requests. *)
From S2P Require Import Prelude Wire Text Crypto KexMethods HostKey Cert.

(** [crate::config::HostPort] *)
Record HostPort := { hp_host : bytes; hp_port : option Z }.

#[export] Instance HostPort_eq_dec : EqDecision HostPort.
Proof. solve_decision. Defined.

Definition hp_matches (e : HostPort) (host : bytes) (port : Z) : bool :=
  (bytes_eqb (hp_host e) (bs "*") || bytes_eqb (hp_host e) host)
  && match hp_port e with None => true | Some p => p =? port end.

Record CertInfo := {
  ca_key_blob : bytes; ci_embedded_pubkey_blob : bytes; ci_ca_algorithm : bytes; ci_key_id : bytes; ci_serial : Z;
  ci_valid_principals : list bytes; ci_critical_options : list (bytes * bytes); ci_extensions : list (bytes * bytes);
  ci_valid_after : Z; ci_valid_before : Z
}.

Definition from_certificate (c : Certificate) : result CertInfo :=
  let? alg := ca_algorithm c in
  Ok {| ca_key_blob := signature_key_blob c; ci_embedded_pubkey_blob := embedded_pubkey_blob c;
        ci_ca_algorithm := alg; ci_key_id := key_id c; ci_serial := serial c;
        ci_valid_principals := valid_principals c; ci_critical_options := critical_options c;
        ci_extensions := extensions c; ci_valid_after := valid_after c; ci_valid_before := valid_before c |}.

Definition ci_has_extension (ci : CertInfo) (name : bytes) : bool := has_option (ci_extensions ci) name.
Definition ci_critical_option (ci : CertInfo) (name : bytes) : option bytes := find_option (ci_critical_options ci) name.

Record AuthCertCaps := {
  permit_pty : bool; permit_port_forwarding : bool; permit_agent_forwarding : bool; permit_x11_forwarding : bool;
  permit_user_rc : bool; environment : list bytes; force_command : option bytes;
  permit_open : option (list HostPort); permit_listen : option (list HostPort); force_tun_device : option Z;
  no_touch_required : bool; verify_required : bool
}.

Definition option_is_some {A} (o : option A) : bool := match o with Some _ => true | None => false end.

Definition from_cert_info (ci : CertInfo) : AuthCertCaps := {|
  permit_pty := ci_has_extension ci (bs "permit-pty");
  permit_port_forwarding := ci_has_extension ci (bs "permit-port-forwarding");
  permit_agent_forwarding := ci_has_extension ci (bs "permit-agent-forwarding");
  permit_x11_forwarding := ci_has_extension ci (bs "permit-X11-forwarding");
  permit_user_rc := ci_has_extension ci (bs "permit-user-rc");
  environment := [];
  force_command := ci_critical_option ci (bs "force-command") ≫= decode_option_string;
  permit_open := None; permit_listen := None; force_tun_device := None;
  no_touch_required := ci_has_extension ci (bs "no-touch-required");
  verify_required := option_is_some (ci_critical_option ci (bs "verify-required")) |}.

Definition unrestricted : AuthCertCaps := {|
  permit_pty := true; permit_port_forwarding := true; permit_agent_forwarding := true; permit_x11_forwarding := true;
  permit_user_rc := true; environment := []; force_command := None; permit_open := None; permit_listen := None;
  force_tun_device := None; no_touch_required := true; verify_required := false |}.

(** [rest.split_once("]:")] *)
Fixpoint split_bracket (s : bytes) : option (bytes * bytes) :=
  match s with
  | [] => None
  | b :: s' =>
      if starts_with (bs "]:") s then Some ([], drop 2 s)
      else match split_bracket s' with Some (l, r) => Some (b :: l, r) | None => None end
  end.

Definition parse_permit (spec : bytes) : option HostPort :=
  let hp :=
    match spec with
    | Byte.x5b :: rest => split_bracket rest
    | _ => match rsplit_once Byte.x3a spec with
           | Some (h, p) => Some (h, p)
           | None => Some (bs "*", spec)
           end
    end in
  match hp with
  | None => None
  | Some (host, port) =>
      if bytes_eqb port (bs "*") then Some {| hp_host := host; hp_port := None |}
      else match parse_uint U16_MAX port with
           | Some p => Some {| hp_host := host; hp_port := Some p |}
           | None => None
           end
  end.

(** ** Options of an [authorized_keys] line *)

Record AuthorizedKeyOptions := {
  o_cert_authority : bool; o_principals : list bytes; o_command : option bytes; o_from : option bytes;
  o_environment : list bytes; o_permit_open : list bytes; o_permit_listen : list bytes; o_expiry_time : option bytes;
  o_restrict : bool; o_pty : option bool; o_port_forwarding : option bool; o_agent_forwarding : option bool;
  o_x11_forwarding : option bool; o_user_rc : option bool; o_tunnel : option bytes; o_no_touch_required : bool;
  o_verify_required : bool
}.

Definition allows_pty (o : AuthorizedKeyOptions) : bool := default (negb (o_restrict o)) (o_pty o).
Definition allows_user_rc (o : AuthorizedKeyOptions) : bool := default (negb (o_restrict o)) (o_user_rc o).
Definition allows_port_forwarding (o : AuthorizedKeyOptions) : bool := default (negb (o_restrict o)) (o_port_forwarding o).
Definition allows_agent_forwarding (o : AuthorizedKeyOptions) : bool := default (negb (o_restrict o)) (o_agent_forwarding o).
Definition allows_x11_forwarding (o : AuthorizedKeyOptions) : bool := default (negb (o_restrict o)) (o_x11_forwarding o).

Definition is_unrestricted (o : AuthorizedKeyOptions) : bool :=
  negb (option_is_some (o_command o)) && is_nil (o_permit_open o) && is_nil (o_permit_listen o) && allows_pty o
  && allows_port_forwarding o && allows_agent_forwarding o && allows_x11_forwarding o && allows_user_rc o
  && is_nil (o_environment o) && negb (option_is_some (o_tunnel o)) && negb (o_no_touch_required o)
  && negb (o_verify_required o).

(** [(!v.is_empty()).then(|| v.iter().filter_map(parse_permit).collect())] *)
Definition permit_list (v : list bytes) : option (list HostPort) :=
  if is_nil v then None else Some (omap parse_permit v).

Definition from_key_options (o : AuthorizedKeyOptions) : AuthCertCaps := {|
  permit_pty := allows_pty o; permit_port_forwarding := allows_port_forwarding o;
  permit_agent_forwarding := allows_agent_forwarding o; permit_x11_forwarding := allows_x11_forwarding o;
  permit_user_rc := allows_user_rc o; environment := o_environment o; force_command := o_command o;
  permit_open := permit_list (o_permit_open o); permit_listen := permit_list (o_permit_listen o);
  force_tun_device :=
    (o_tunnel o) ≫= (λ t, if bytes_eqb (to_ascii_lowercase t) (bs "any") then Some 2147483647 else parse_uint U32_MAX t);
  no_touch_required := o_no_touch_required o; verify_required := o_verify_required o |}.

(** ** Combining restrictions *)

Definition opt_or {A} (a b : option A) : option A := match a with Some _ => a | None => b end.

Definition both (a b : option (list HostPort)) : option (list HostPort) :=
  match a, b with
  | Some a, Some b => Some (List.filter (λ e, bool_decide (e ∈ b)) a)
  | a, b => opt_or a b
  end.

Definition intersect (a b : AuthCertCaps) : option AuthCertCaps :=
  match force_command a, force_command b with
  | Some x, Some y => if negb (bytes_eqb x y) then None else Some tt
  | _, _ => Some tt
  end ≫= λ _, Some {|
    permit_pty := permit_pty a && permit_pty b;
    permit_port_forwarding := permit_port_forwarding a && permit_port_forwarding b;
    permit_agent_forwarding := permit_agent_forwarding a && permit_agent_forwarding b;
    permit_x11_forwarding := permit_x11_forwarding a && permit_x11_forwarding b;
    permit_user_rc := permit_user_rc a && permit_user_rc b;
    environment := environment a ++ environment b;
    force_command := opt_or (force_command a) (force_command b);
    permit_open := both (permit_open a) (permit_open b);
    permit_listen := both (permit_listen a) (permit_listen b);
    force_tun_device := opt_or (force_tun_device a) (force_tun_device b);
    no_touch_required := no_touch_required a && no_touch_required b;
    verify_required := verify_required a || verify_required b |}.

Definition merge_caps (a b : option AuthCertCaps) : option (option AuthCertCaps) :=
  match a, b with
  | Some a, Some b => Some <$> intersect a b
  | a, b => Some (opt_or a b)
  end.

(** ** Security-key requirements *)

Record SkSignature := {
  sk_flags : Z; sk_counter : Z; server_touch_required : bool; server_verify_required : bool
}.

Inductive SkRequirement := UserPresence | UserVerification.

Definition sk_check (sk : SkSignature) (caps : option AuthCertCaps) : unit + SkRequirement :=
  let no_touch := match caps with Some c => no_touch_required c | None => false end in
  let verify := match caps with Some c => verify_required c | None => false end in
  if (server_touch_required sk || negb no_touch) && (Z.land (sk_flags sk) Sk.SK_USER_PRESENCE =? 0) then inr UserPresence
  else if (server_verify_required sk || verify) && (Z.land (sk_flags sk) Sk.SK_USER_VERIFICATION =? 0)
  then inr UserVerification else inl tt.

(** * Server-side user authentication (src/auth/server.rs)

    [ServerAuth] with every operation on it.  The policy, a trait object, is a
    type [A] with the class [Authenticator]: each call may change it. *)
From S2P Require Import Base64 AuthMsg.

(** [user:style] names the account [user]. *)
Definition account_name (user : bytes) : bytes :=
  match split_once Byte.x3a user with Some (u, _) => u | None => user end.

Inductive AuthAttempt :=
  | ANone (user : bytes)
  | APassword (user password : bytes)
  | APublicKey (user algorithm public_blob : bytes) (probe_only verified : bool) (cert : option CertInfo)
      (security_key : option SkSignature)
  | AKeyboardInteractive (user : bytes).

Inductive AuthDecision :=
  | Accept
  | PartialAccept (still_required : list bytes)
  | Reject
  | InteractiveRequest (name instruction : bytes) (prompts : list (bytes * bool)).

Class Authenticator (A : Type) := {
  evaluate : AuthAttempt → A → AuthDecision * A;
  key_restrictions : (* user *) bytes → (* public_blob *) bytes → A → option AuthCertCaps * A;
  continuable_methods : (* offered *) list bytes → A → list bytes;
  evaluate_interactive : (* user *) bytes → (* responses *) list bytes → A → AuthDecision * A;
  on_user_resolved : (* user *) bytes → (* methods *) list bytes → A → A;
}.

Inductive ServerStep :=
  | SSend (payload : bytes)
  | SAuthenticated (payload user : bytes) (cert_caps : option AuthCertCaps) (auth_info : bytes)
  | SDisconnect (reason : string).

Inductive AuthState := AwaitingServiceRequest | AwaitingRequest | AwaitingInfoResponse | AuthDone.

#[export] Instance AuthState_eq_dec : EqDecision AuthState.
Proof. solve_decision. Defined.

Definition DEFAULT_MAX_PK_OK : Z := 6.

Record ServerAuth (A : Type) := {
  sa_service : bytes; sa_session_id : bytes; accepted_methods : list bytes; auth : A; state : AuthState;
  pending_user : option bytes; used_keys : list bytes; sa_host_key : option bytes; auth_info : bytes;
  pending_prompt_count : option Z; first_user : option bytes; allow_none : bool; max_auth_tries : option Z;
  failed_attempts : Z; now : Z; ca_signature_algorithms : list bytes; pending_cert_caps : option AuthCertCaps;
  sk_touch_required : bool; sk_verify_required : bool; max_pk_ok : Z; pk_ok_failures : Z
}.
Arguments sa_service {A}. Arguments sa_session_id {A}. Arguments accepted_methods {A}. Arguments auth {A}.
Arguments state {A}. Arguments pending_user {A}. Arguments used_keys {A}. Arguments sa_host_key {A}.
Arguments auth_info {A}. Arguments pending_prompt_count {A}. Arguments first_user {A}. Arguments allow_none {A}.
Arguments max_auth_tries {A}. Arguments failed_attempts {A}. Arguments now {A}.
Arguments ca_signature_algorithms {A}. Arguments pending_cert_caps {A}. Arguments sk_touch_required {A}.
Arguments sk_verify_required {A}. Arguments max_pk_ok {A}. Arguments pk_ok_failures {A}.

#[export] Instance ServerAuth_eta A : Etable (ServerAuth A) := fun s => {|
  sa_service := sa_service s; sa_session_id := sa_session_id s; accepted_methods := accepted_methods s; auth := auth s;
  state := state s; pending_user := pending_user s; used_keys := used_keys s; sa_host_key := sa_host_key s;
  auth_info := auth_info s; pending_prompt_count := pending_prompt_count s; first_user := first_user s;
  allow_none := allow_none s; max_auth_tries := max_auth_tries s; failed_attempts := failed_attempts s; now := now s;
  ca_signature_algorithms := ca_signature_algorithms s; pending_cert_caps := pending_cert_caps s;
  sk_touch_required := sk_touch_required s; sk_verify_required := sk_verify_required s; max_pk_ok := max_pk_ok s;
  pk_ok_failures := pk_ok_failures s |}.

Section Server.
Context {C : PureCrypto} {S : SigPrims} (allow_rsa_sha1 : bool) {A : Type} `{!Authenticator A}.
Implicit Types s : ServerAuth A.

Definition server_auth_new (session_id : bytes) (methods : list bytes) (policy : A) : ServerAuth A := {|
  sa_service := bs "ssh-connection"; sa_session_id := session_id; accepted_methods := methods; auth := policy;
  state := AwaitingServiceRequest; pending_user := None; used_keys := []; sa_host_key := None; auth_info := [];
  pending_prompt_count := None; first_user := None; allow_none := false; max_auth_tries := None;
  failed_attempts := 0; now := 0; ca_signature_algorithms := []; pending_cert_caps := None;
  sk_touch_required := false; sk_verify_required := false; max_pk_ok := DEFAULT_MAX_PK_OK; pk_ok_failures := 0 |}.

(** ** Configuration *)

Definition set_now (v : Z) s : ServerAuth A := s <| now := v |>.
Definition set_ca_signature_algorithms (v : list bytes) s : ServerAuth A := s <| ca_signature_algorithms := v |>.
Definition set_pubkey_auth_options (touch verify : bool) s : ServerAuth A :=
  s <| sk_touch_required := touch |> <| sk_verify_required := verify |>.
Definition set_max_pk_ok (n : Z) s : ServerAuth A := s <| max_pk_ok := n |>.
Definition set_max_auth_tries (m : option Z) s : ServerAuth A := s <| max_auth_tries := m |>.
Definition set_accepted_methods (m : list bytes) s : ServerAuth A := s <| accepted_methods := m |>.
Definition set_host_key (k : bytes) s : ServerAuth A := s <| sa_host_key := Some k |>.
Definition set_allow_none (b : bool) s : ServerAuth A := s <| allow_none := b |>.
Definition notify_user_resolved (user : bytes) (methods : list bytes) s : ServerAuth A :=
  s <| auth := on_user_resolved user methods (auth s) |>.

Definition peek_request (payload : bytes) : option (bytes * bytes) :=
  match userauth_request_decode payload with
  | Err _ => None
  | Ok req =>
      let method := match ua_method req with
                    | MNone => bs "none"
                    | MPassword _ _ => bs "password"
                    | MPublicKey _ _ _ _ _ => bs "publickey"
                    | MKeyboardInteractive _ _ => bs "keyboard-interactive"
                    | MOther _ _ => []
                    end in
      Some (account_name (ua_user req), method)
  end.

(** ** Failures *)

Definition failure_payload (partial : bool) (cont : list bytes) : bytes :=
  userauth_failure_encode {| uf_continuations := cont; uf_partial_success := partial |}.

Definition emit_failure s : result ServerStep * ServerAuth A :=
  let s := s <| failed_attempts := sat_add32 (failed_attempts s) 1 |> in
  match max_auth_tries s with
  | Some max =>
      if max <? failed_attempts s
      then (Ok (SDisconnect "Too many authentication failures"), s <| state := AuthDone |>)
      else (Ok (SSend (failure_payload false (continuable_methods (accepted_methods s) (auth s)))), s)
  | None => (Ok (SSend (failure_payload false (continuable_methods (accepted_methods s) (auth s)))), s)
  end.

Definition emit_probe_failure s : result ServerStep * ServerAuth A :=
  let s := s <| pk_ok_failures := sat_add32 (pk_ok_failures s) 1 |> in
  if max_pk_ok s <? pk_ok_failures s then emit_failure s
  else (Ok (SSend (failure_payload false (continuable_methods (accepted_methods s) (auth s)))), s).

(** ** The user name *)

Definition pin_user (user : bytes) s : option ServerStep * ServerAuth A :=
  match first_user s with
  | Some prev =>
      if negb (bytes_eqb prev user) then (Some (SDisconnect "auth: username changed mid-authentication"), s)
      else (None, s)
  | None => (None, s <| first_user := Some user |>)
  end.

Definition reject_unadvertised (user : bytes) s : result ServerStep * ServerAuth A :=
  match pin_user user s with
  | (Some step, s) => (Ok step, s)
  | (None, s) => emit_failure s
  end.

(** ** Decisions *)

Definition accepts (d : AuthDecision) : bool :=
  match d with Accept | PartialAccept _ => true | _ => false end.

Definition NEWLINE : byte := Byte.x0a.

Definition record_success (d : AuthDecision) (line : bytes) s : ServerAuth A :=
  if accepts d then s <| auth_info := auth_info s ++ line ++ [NEWLINE] |> else s.

Definition apply_decision (d : AuthDecision) (user : bytes) s : result ServerStep * ServerAuth A :=
  match d with
  | Accept =>
      (Ok (SAuthenticated encode_success user (pending_cert_caps s) (auth_info s)),
       s <| state := AuthDone |> <| pending_cert_caps := None |> <| auth_info := [] |>)
  | PartialAccept still_required => (Ok (SSend (failure_payload true still_required)), s)
  | Reject => emit_failure s
  | InteractiveRequest name instruction prompts =>
      (Ok (SSend (userauth_info_request_encode
             {| ir_name := name; ir_instruction := instruction; ir_language := []; ir_prompts := prompts |})),
       s <| state := AwaitingInfoResponse |> <| pending_user := Some user |>
         <| pending_prompt_count := Some (len prompts) |>)
  end.

(** ** Public keys *)

Definition user_cert_valid (c : Certificate) s : bool :=
  if negb (is_ok (check_type c User)) || negb (is_ok (check_validity c (now s)))
     || negb (is_ok (require_known_critical_options c)) then false
  else
    let ca_algos := if is_nil (ca_signature_algorithms s) then CA_SIGNATURE_DEFAULTS else ca_signature_algorithms s in
    is_ok (verify_ca_signature allow_rsa_sha1 c ca_algos).

Definition cert_plain_algorithm (algorithm : bytes) (c : Certificate) : option bytes :=
  match cert_name_to_plain algorithm with
  | None => None
  | Some plain => if family_ok (embedded_algorithm c) plain then Some plain else None
  end.

Definition signature_algorithm (sig_blob : bytes) : option bytes :=
  match read_string (reader_new sig_blob) with
  | Err _ => None
  | Ok (n, _) => if utf8_valid n then Some n else None
  end.

(** Running the policy on an attempt. *)
Definition run_evaluate (a : AuthAttempt) s : AuthDecision * ServerAuth A :=
  let '(d, p) := evaluate a (auth s) in (d, s <| auth := p |>).

(** The key itself, whether offered plain or as a certificate. *)
Definition offered_key (algorithm public_blob : bytes) : option bytes :=
  if is_cert_name algorithm then
    match certificate_parse public_blob with Ok c => Some (embedded_pubkey_blob c) | Err _ => None end
  else Some public_blob.

(** A query without a signature. *)
Definition handle_probe (user algorithm public_blob : bytes) s : result ServerStep * ServerAuth A :=
  let cert_info :=
    if is_cert_name algorithm then
      match certificate_parse public_blob with
      | Ok c =>
          if match cert_plain_algorithm algorithm c with Some _ => user_cert_valid c s | None => false end
          then let? ci := from_certificate c in Ok (Some (Some ci)) else Ok None
      | Err _ => Ok None
      end
    else Ok (Some None) in
  let! cert_info := cert_info at s in
  match cert_info with
  | None => emit_probe_failure s
  | Some cert =>
      let '(d, s) := run_evaluate (APublicKey user algorithm public_blob true false cert None) s in
      match d with
      | Accept | PartialAccept _ =>
          (Ok (SSend (userauth_pk_ok_encode {| pk_algorithm := algorithm; pk_public_blob := public_blob |})), s)
      | Reject => emit_probe_failure s
      | InteractiveRequest _ _ _ => (Err (Protocol "auth: interactive on publickey probe"), s)
      end
  end.

(** The verifier of a signed request, and the certificate's facts; [None] is a
    failed attempt. *)
Definition request_verifier (algorithm public_blob sig : bytes) s : result (option (Verifier * option CertInfo)) :=
  if is_cert_name algorithm then
    match certificate_parse public_blob with
    | Err _ => Ok None
    | Ok cert =>
        match cert_plain_algorithm algorithm cert with
        | None => Ok None
        | Some plain =>
            let sig_alg := signature_algorithm sig in
            let webauthn := bytes_eqb plain Sk.SK_ECDSA && option_bytes_eqb sig_alg Sk.WEBAUTHN_SK_ECDSA in
            if negb (option_bytes_eqb sig_alg plain) && negb webauthn then Ok None
            else if negb (user_cert_valid cert s) then Ok None
            else match host_key_verify_by_name allow_rsa_sha1 plain (embedded_pubkey_blob cert) with
                 | Err _ => Ok None
                 | Ok v => let? ci := from_certificate cert in Ok (Some (v, Some ci))
                 end
        end
    end
  else let? v := host_key_verify_by_name allow_rsa_sha1 algorithm public_blob in Ok (Some (v, None)).

(** The restrictions of an accepted key: the key's own, on top of its
    certificate's, on top of those of earlier factors. *)
Definition restrict_accepted (d : AuthDecision) (user public_blob : bytes) (cert_caps : option AuthCertCaps)
    (security_key : option SkSignature) s : AuthDecision * ServerAuth A :=
  if accepts d then
    let '(key_caps, p) := key_restrictions user public_blob (auth s) in
    let s := s <| auth := p |> in
    let attempt := merge_caps cert_caps key_caps in
    let sk_ok := match security_key with
                 | None => true
                 | Some sk => match sk_check sk (default None attempt) with inl _ => true | inr _ => false end
                 end in
    let merged := attempt ≫= merge_caps (pending_cert_caps s) in
    match (if sk_ok then merged else None) with
    | Some c => (d, s <| pending_cert_caps := c |>)
    | None => (Reject, s)
    end
  else (d, s).

(** The line [publickey <type> <base64>] of the key. *)
Definition publickey_line (public_blob : bytes) : bytes :=
  bs "publickey " ++ default [] (signature_algorithm public_blob) ++ bs " " ++ base64_encode public_blob.

(** A request whose signature has verified. *)
Definition handle_verified (user algorithm public_blob sig key_blob : bytes) (cert_info : option CertInfo) s
    : result ServerStep * ServerAuth A :=
  let cert_caps := from_cert_info <$> cert_info in
  let security_key :=
    (λ fc, {| sk_flags := fst fc; sk_counter := snd fc; server_touch_required := sk_touch_required s;
              server_verify_required := sk_verify_required s |}) <$> Sk.sk_signature_details sig in
  let '(d, s) := run_evaluate (APublicKey user algorithm public_blob false true cert_info security_key) s in
  let '(d, s) := restrict_accepted d user public_blob cert_caps security_key s in
  let s := match d with PartialAccept _ => s <| used_keys := used_keys s ++ [key_blob] |> | _ => s end in
  let s := record_success d (publickey_line public_blob) s in
  apply_decision d user s.

Definition handle_publickey (user wire_user : bytes) (signature_present : bool) (algorithm public_blob : bytes)
    (signature host_key : option bytes) s : result ServerStep * ServerAuth A :=
  match offered_key algorithm public_blob with
  | None => emit_failure s
  | Some key_blob =>
      if List.existsb (bytes_eqb key_blob) (used_keys s) then emit_failure s else
      if negb signature_present then handle_probe user algorithm public_blob s else
      let! sig := ok_or signature (Format "auth: missing signature") at s in
      let! vc := request_verifier algorithm public_blob sig s at s in
      match vc with
      | None => emit_failure s
      | Some (verifier, cert_info) =>
          let signed := publickey_signed_data_bound (sa_session_id s) wire_user (sa_service s) algorithm public_blob
                          host_key in
          if negb (is_ok (verifier_verify verifier signed sig)) then emit_failure s
          else handle_verified user algorithm public_blob sig key_blob cert_info s
      end
  end.

(** ** Requests *)

Definition handle_request (req : UserauthRequest) s : result ServerStep * ServerAuth A :=
  let wire_user := ua_user req in
  let user := account_name (ua_user req) in
  match ua_method req with
  | MNone =>
      if negb (allow_none s) then emit_failure s else
      let '(d, s) := run_evaluate (ANone user) s in apply_decision d user s
  | MPassword _ password =>
      let '(d, s) := run_evaluate (APassword user password) s in
      let s := record_success d (bs "password") s in apply_decision d user s
  | MPublicKey signature_present algorithm public_blob signature host_key =>
      if match host_key with Some named => negb (option_bytes_eqb (sa_host_key s) named) | None => false end
      then emit_failure s
      else handle_publickey user wire_user signature_present algorithm public_blob signature host_key s
  | MKeyboardInteractive _ _ =>
      let '(d, s) := run_evaluate (AKeyboardInteractive user) s in apply_decision d user s
  | MOther _ _ => emit_failure s
  end.

Definition on_packet (payload : bytes) s : result ServerStep * ServerAuth A :=
  match payload with
  | [] => (Err (Format "auth: empty payload"), s)
  | t :: _ =>
      let msg_type := u8 t in
      match state s with
      | AwaitingServiceRequest =>
          if negb (msg_type =? SSH_MSG_SERVICE_REQUEST) then (Err (Protocol "auth: expected SERVICE_REQUEST"), s) else
          let! service := service_request_decode payload at s in
          if negb (bytes_eqb service (bs "ssh-userauth")) then (Err (Protocol "auth: unknown service requested"), s)
          else (Ok (SSend (service_accept_encode (bs "ssh-userauth"))), s <| state := AwaitingRequest |>)
      | AwaitingRequest =>
          if negb (msg_type =? SSH_MSG_USERAUTH_REQUEST) then (Err (Protocol "auth: expected USERAUTH_REQUEST"), s) else
          let! req := userauth_request_decode payload at s in
          match pin_user (account_name (ua_user req)) s with
          | (Some step, s) => (Ok step, s)
          | (None, s) =>
              if negb (bytes_eqb (ua_service req) (sa_service s)) then emit_failure s else handle_request req s
          end
      | AwaitingInfoResponse =>
          if negb (msg_type =? SSH_MSG_USERAUTH_INFO_RESPONSE) then (Err (Protocol "auth: expected INFO_RESPONSE"), s) else
          let! responses := userauth_info_response_decode payload at s in
          let pending := pending_user s in
          let s := s <| pending_user := None |> in
          let! user := ok_or pending (Protocol "auth: info response without pending user") at s in
          let prompt_count := pending_prompt_count s in
          let s := s <| pending_prompt_count := None |> <| state := AwaitingRequest |> in
          if negb (match prompt_count with Some n => n =? len responses | None => false end) then emit_failure s else
          let '(d, p) := evaluate_interactive user responses (auth s) in
          let s := s <| auth := p |> in
          let s := record_success d (bs "keyboard-interactive/pam") s in
          apply_decision d user s
      | AuthDone => (Ok (SDisconnect "auth: already finished"), s)
      end
  end.
End Server.
