(* ===== verification/AuthFacts.v ===== *)
(** * Server-side authentication is sound

    The restrictions of several factors only add up; a session is granted only
    on the policy's word about an attempt this layer has checked; the number of
    failures is bounded. *)
From S2P Require Import Prelude Wire Text Base64 Crypto KexMethods HostKey Cert CertFacts AuthMsg AuthServer.

(** ** Restrictions *)

(** [a] permits at most what [b] permits. *)
Record caps_le (a b : AuthCertCaps) : Prop := {
  le_pty : permit_pty a = true → permit_pty b = true;
  le_port : permit_port_forwarding a = true → permit_port_forwarding b = true;
  le_agent : permit_agent_forwarding a = true → permit_agent_forwarding b = true;
  le_x11 : permit_x11_forwarding a = true → permit_x11_forwarding b = true;
  le_rc : permit_user_rc a = true → permit_user_rc b = true;
  le_command : ∀ c, force_command b = Some c → force_command a = Some c;
  le_open : ∀ l, permit_open b = Some l → ∃ l', permit_open a = Some l' ∧ l' ⊆ l;
  le_listen : ∀ l, permit_listen b = Some l → ∃ l', permit_listen a = Some l' ∧ l' ⊆ l;
  le_touch : no_touch_required a = true → no_touch_required b = true;
  le_verify : verify_required b = true → verify_required a = true;
}.

(** [None] is unrestricted. *)
Definition opt_caps_le (a b : option AuthCertCaps) : Prop :=
  match b with None => True | Some b => ∃ a', a = Some a' ∧ caps_le a' b end.

Lemma caps_le_refl a : caps_le a a.
Proof. split; try done; intros l ->; by exists l. Qed.

Lemma caps_le_trans a b c : caps_le a b → caps_le b c → caps_le a c.
Proof.
  intros [] []. split; auto.
  - intros l Hl. destruct (le_open1 _ Hl) as (l' & Hl' & ?). destruct (le_open0 _ Hl') as (l'' & ? & ?).
    exists l''. split; [done|]. by etrans.
  - intros l Hl. destruct (le_listen1 _ Hl) as (l' & Hl' & ?). destruct (le_listen0 _ Hl') as (l'' & ? & ?).
    exists l''. split; [done|]. by etrans.
Qed.

#[export] Instance caps_le_preorder : PreOrder caps_le.
Proof. split; [exact caps_le_refl|exact caps_le_trans]. Qed.

Lemma opt_caps_le_refl a : opt_caps_le a a.
Proof. destruct a as [a|]; [|done]. exists a. split; [done|apply caps_le_refl]. Qed.

Lemma opt_caps_le_trans a b c : opt_caps_le a b → opt_caps_le b c → opt_caps_le a c.
Proof.
  destruct c as [c|]; [|done]. destruct b as [b|]; [|by intros _ (? & ? & _)].
  intros (a' & -> & H1) (b' & [= <-] & H2). exists a'. split; [done|by etrans].
Qed.

#[export] Instance opt_caps_le_preorder : PreOrder opt_caps_le.
Proof. split; [exact opt_caps_le_refl|exact opt_caps_le_trans]. Qed.

Lemma both_l a b l : a = Some l → ∃ l', both a b = Some l' ∧ l' ⊆ l.
Proof.
  intros ->. destruct b as [b|]; cbn; eexists; (split; [done|]); [|done].
  intros x Hx. apply list_elem_of_In, filter_In in Hx as [Hx _]. by apply list_elem_of_In.
Qed.

Lemma both_r a b l : b = Some l → ∃ l', both a b = Some l' ∧ l' ⊆ l.
Proof.
  intros ->. destruct a as [a|]; cbn; eexists; (split; [done|]); [|done].
  intros x Hx. apply list_elem_of_In, filter_In in Hx as [_ Hx]. by apply bool_decide_eq_true in Hx.
Qed.

(** Both sets of restrictions hold of what [intersect] returns, and it refuses
    exactly when the two force different commands. *)
Lemma intersect_le a b c : intersect a b = Some c → caps_le c a ∧ caps_le c b.
Proof.
  unfold intersect. intros H.
  assert (Hf : ∀ x y, force_command a = Some x → force_command b = Some y → x = y).
  { intros x y Ex Ey. rewrite Ex, Ey in H. destruct (bytes_eqb_spec x y); [done|discriminate H]. }
  destruct (match force_command a with Some _ => _ | None => _ end); [|discriminate H]. injection H as <-.
  split; split; cbn; rewrite ?andb_true_iff, ?orb_true_iff; try tauto.
  - by intros x ->.
  - intros l. apply both_l.
  - intros l. apply both_l.
  - intros y Hy. destruct (force_command a) as [x|] eqn:Ex; cbn; [f_equal; by apply Hf|done].
  - intros l. apply both_r.
  - intros l. apply both_r.
Qed.

Lemma intersect_none a b :
  intersect a b = None ↔ ∃ x y, force_command a = Some x ∧ force_command b = Some y ∧ x ≠ y.
Proof.
  unfold intersect. destruct (force_command a) as [x|], (force_command b) as [y|]; cbn;
    try (split; [done|by intros (? & ? & ? & ? & _)]).
  destruct (bytes_eqb_spec x y) as [->|Hxy]; cbn; split; try done; [by intros (? & ? & [= <-] & [= <-] & ?)|].
  intros _. by exists x, y.
Qed.

Lemma merge_caps_le a b c : merge_caps a b = Some c → opt_caps_le c a ∧ opt_caps_le c b.
Proof.
  destruct a as [a|], b as [b|]; cbn [merge_caps opt_or].
  - destruct (intersect a b) as [k|] eqn:E; [|done]. intros [= <-]. apply intersect_le in E as [H1 H2].
    split; by exists k.
  - intros [= <-]. split; [apply opt_caps_le_refl|done].
  - intros [= <-]. split; [done|apply opt_caps_le_refl].
  - by intros [= <-].
Qed.

Section Sound.
Context {C : PureCrypto} {S : SigPrims} (allow_rsa_sha1 : bool) {A : Type} `{!Authenticator A}.
Implicit Types s : ServerAuth A.

(** ** Steps that grant nothing *)

Definition grants (o : result ServerStep) : option (bytes * option AuthCertCaps) :=
  match o with Ok (SAuthenticated _ u c _) => Some (u, c) | _ => None end.

Lemma emit_failure_grants s : grants (fst (emit_failure s)) = None.
Proof. unfold emit_failure. destruct (max_auth_tries _); [|done]. by destruct (_ <? _). Qed.

Lemma emit_probe_failure_grants s : grants (fst (emit_probe_failure s)) = None.
Proof. unfold emit_probe_failure. destruct (_ <? _); [apply emit_failure_grants|done]. Qed.

Lemma apply_decision_grants d user s g :
  grants (fst (apply_decision d user s)) = Some g → d = Accept ∧ g = (user, pending_cert_caps s).
Proof.
  destruct d; cbn [apply_decision]; [by intros [= <-]|done| |done]. by rewrite emit_failure_grants.
Qed.

Lemma record_success_caps d line s :
  pending_cert_caps (record_success d line s) = pending_cert_caps s ∧ state (record_success d line s) = state s.
Proof. unfold record_success. by destruct (accepts d). Qed.

Lemma handle_probe_grants user alg blob s : grants (fst (handle_probe allow_rsa_sha1 user alg blob s)) = None.
Proof.
  unfold handle_probe, run_evaluate.
  destruct (if is_cert_name alg then _ else _) as [[cert|]|]; [|apply emit_probe_failure_grants|done].
  destruct (evaluate _ (auth s)) as [[] p]; try done. apply emit_probe_failure_grants.
Qed.

(** ** What stands behind a grant *)

(** The CA algorithms in force. *)
Definition ca_algos s : list bytes :=
  if is_nil (ca_signature_algorithms s) then CA_SIGNATURE_DEFAULTS else ca_signature_algorithms s.

(** A user certificate that is in order now, and its facts. *)
Record cert_proof s (blob : bytes) (ci : CertInfo) (c : Certificate) : Prop := {
  cp_parse : certificate_parse blob = Ok c;
  cp_info : from_certificate c = Ok ci;
  cp_user : cert_type c = User;
  cp_window : valid_after c ≤ now s < valid_before c;
  cp_options : require_known_critical_options c = Ok tt;
  cp_signed : verify_ca_signature allow_rsa_sha1 c (ca_algos s) = Ok tt;
}.

(** A signature by the offered key over this session and this request. *)
Record key_proof s (wire_user alg blob sig : bytes) (hk : option bytes) (cert : option CertInfo) : Prop := {
  kp_signature : verify_signature allow_rsa_sha1 alg blob
    (publickey_signed_data_bound (sa_session_id s) wire_user (sa_service s) alg blob hk) sig = Ok tt;
  kp_host : ∀ h, hk = Some h → sa_host_key s = Some h;
  kp_fresh : ∃ key, presented_key alg blob key ∧ key ∉ used_keys s;
  kp_cert : match cert with
            | None => is_cert_name alg = false
            | Some ci => is_cert_name alg = true ∧ ∃ c, cert_proof s blob ci c
            end;
}.

Lemma offered_key_presented alg blob key : offered_key alg blob = Some key → presented_key alg blob key.
Proof.
  unfold offered_key, presented_key. destruct (is_cert_name alg); [|by intros [= <-]].
  destruct (certificate_parse blob) as [c|]; [|done]. intros [= <-]. by exists c.
Qed.

Lemma is_ok_inv {B} (r : result B) : is_ok r = true → ∃ b, r = Ok b.
Proof. destruct r; [by eexists|done]. Qed.

Lemma user_cert_valid_inv c s :
  user_cert_valid allow_rsa_sha1 c s = true →
  cert_type c = User ∧ valid_after c ≤ now s < valid_before c ∧ require_known_critical_options c = Ok tt ∧
  verify_ca_signature allow_rsa_sha1 c (ca_algos s) = Ok tt.
Proof.
  unfold user_cert_valid. destruct (is_ok (check_type c User)) eqn:E1; [|done].
  destruct (is_ok (check_validity c (now s))) eqn:E2; [|done].
  destruct (is_ok (require_known_critical_options c)) eqn:E3; [|done]. cbn [negb orb]. intros E4.
  apply is_ok_inv in E1 as [[] E1], E2 as [[] E2], E3 as [[] E3], E4 as [[] E4].
  unfold check_type in E1. unfold check_validity in E2. split_and!; [|zbool..|done|exact E4].
  - by destruct (bool_decide_reflect (cert_type c = User)).
  - destruct (Z.ltb_spec (now s) (valid_after c)); [done|lia].
  - destruct (Z.ltb_spec (now s) (valid_after c)); [done|]. destruct (Z.leb_spec (valid_before c) (now s)); [done|lia].
Qed.

(** The certificate branch verifies with the plain name what the dispatch
    verifies with the certificate name. *)
Lemma cert_name_dispatch alg blob c plain :
  is_cert_name alg = true → certificate_parse blob = Ok c → cert_plain_algorithm alg c = Some plain →
  host_key_verify_by_name allow_rsa_sha1 alg blob =
    host_key_verify_by_name allow_rsa_sha1 plain (embedded_pubkey_blob c).
Proof.
  intros Hn Hp. unfold cert_plain_algorithm. destruct (cert_name_to_plain alg) as [p|] eqn:En; [|done].
  destruct (family_ok (embedded_algorithm c) p) eqn:Ef; [|done]. intros [= ->].
  rewrite (host_key_verify_by_name_eq _ alg). destruct (List.existsb (bytes_eqb alg) plain_arms) eqn:Ein.
  { apply list_existsb_in, plain_arm_not_cert in Ein as [Ein _]. congruence. }
  cbn [List.existsb plain_arms] in Ein. rewrite !orb_false_iff in Ein.
  repeat match type of Ein with _ ∧ _ => let E := fresh in destruct Ein as [E Ein] end.
  unfold host_key_verify_step. repeat match goal with H : bytes_eqb alg _ = false |- _ => rewrite H; clear H end.
  cbn [orb]. rewrite Hn, En, Hp. cbn [ok_or]. by rewrite Ef.
Qed.

Lemma request_verifier_proof alg blob sig s v cert msg :
  request_verifier allow_rsa_sha1 alg blob sig s = Ok (Some (v, cert)) → verifier_verify v msg sig = Ok tt →
  verify_signature allow_rsa_sha1 alg blob msg sig = Ok tt ∧
  match cert with
  | None => is_cert_name alg = false
  | Some ci => is_cert_name alg = true ∧ ∃ c, cert_proof s blob ci c
  end.
Proof.
  unfold request_verifier, verify_signature. destruct (is_cert_name alg) eqn:En; cycle 1.
  { destruct (host_key_verify_by_name allow_rsa_sha1 alg blob) as [v'|]; [|done]. by intros [= <- <-]. }
  destruct (certificate_parse blob) as [c|] eqn:Ep; [|done].
  destruct (cert_plain_algorithm alg c) as [plain|] eqn:Ec; [|done].
  destruct (negb _ && negb _); [done|]. destruct (user_cert_valid allow_rsa_sha1 c s) eqn:Ev; [|done]. cbn [negb].
  destruct (host_key_verify_by_name allow_rsa_sha1 plain _) as [v'|] eqn:Eh; [|done].
  destruct (from_certificate c) as [ci|] eqn:Ei; [|done]. intros [= <- <-] Hv.
  rewrite (cert_name_dispatch alg blob c plain) by done. rewrite Eh. split; [done|]. split; [done|]. exists c.
  apply user_cert_valid_inv in Ev as (? & ? & ? & ?). by split.
Qed.

(** The signature's security-key details, as the policy sees them. *)
Definition sk_of s (sig : bytes) : option SkSignature :=
  (λ fc, {| sk_flags := fst fc; sk_counter := snd fc; server_touch_required := sk_touch_required s;
            server_verify_required := sk_verify_required s |}) <$> Sk.sk_signature_details sig.

Definition sk_satisfied (sk : option SkSignature) (caps : option AuthCertCaps) : Prop :=
  ∀ k, sk = Some k → sk_check k caps = inl tt.

(** The ways in which the packet [payload] makes [s] grant a session to [user]
    with the restrictions [caps]; each names the attempt the policy accepted. *)
Inductive granted (payload : bytes) s (user : bytes) (caps : option AuthCertCaps) : Prop :=
  | granted_none req :
      userauth_request_decode payload = Ok req → ua_method req = MNone → user = account_name (ua_user req) →
      allow_none s = true → fst (evaluate (ANone user) (auth s)) = Accept → caps = pending_cert_caps s →
      granted payload s user caps
  | granted_password req np pw :
      userauth_request_decode payload = Ok req → ua_method req = MPassword np pw → user = account_name (ua_user req) →
      fst (evaluate (APassword user pw) (auth s)) = Accept → caps = pending_cert_caps s →
      granted payload s user caps
  | granted_interactive req l sub :
      userauth_request_decode payload = Ok req → ua_method req = MKeyboardInteractive l sub →
      user = account_name (ua_user req) →
      fst (evaluate (AKeyboardInteractive user) (auth s)) = Accept → caps = pending_cert_caps s →
      granted payload s user caps
  | granted_responses rs :
      userauth_info_response_decode payload = Ok rs → state s = AwaitingInfoResponse → pending_user s = Some user →
      pending_prompt_count s = Some (len rs) → fst (evaluate_interactive user rs (auth s)) = Accept →
      caps = pending_cert_caps s → granted payload s user caps
  | granted_publickey req alg blob sig hk cert attempt p key_caps p' :
      userauth_request_decode payload = Ok req → ua_method req = MPublicKey true alg blob (Some sig) hk →
      user = account_name (ua_user req) → key_proof s (ua_user req) alg blob sig hk cert →
      evaluate (APublicKey user alg blob false true cert (sk_of s sig)) (auth s) = (Accept, p) →
      key_restrictions user blob p = (key_caps, p') →
      merge_caps (from_cert_info <$> cert) key_caps = Some attempt → sk_satisfied (sk_of s sig) attempt →
      opt_caps_le caps (pending_cert_caps s) → opt_caps_le caps attempt →
      granted payload s user caps.

Lemma restrict_accepted_inv d d' user blob cert_caps sk s s' :
  restrict_accepted d user blob cert_caps sk s = (d', s') → d' = Accept →
  d = Accept ∧ ∃ key_caps p attempt, key_restrictions user blob (auth s) = (key_caps, p) ∧
    merge_caps cert_caps key_caps = Some attempt ∧ sk_satisfied sk attempt ∧
    opt_caps_le (pending_cert_caps s') (pending_cert_caps s) ∧ opt_caps_le (pending_cert_caps s') attempt.
Proof.
  unfold restrict_accepted. intros H ->. destruct (accepts d) eqn:Ea; [|by injection H as -> _].
  destruct (key_restrictions user blob (auth s)) as [key_caps p].
  destruct (merge_caps cert_caps key_caps) as [attempt|] eqn:Em; cbn [mbind option_bind default] in H; cycle 1.
  { by destruct (match sk with Some _ => _ | None => _ end). }
  destruct (match sk with Some _ => _ | None => _ end) eqn:Es; [|done].
  change (pending_cert_caps (s <| auth := p |>)) with (pending_cert_caps s) in H.
  destruct (merge_caps (pending_cert_caps s) attempt) as [c|] eqn:Ec; [|done]. injection H as -> <-. split; [done|].
  exists key_caps, p, attempt. apply merge_caps_le in Ec as [H1 H2]. split_and!; try done.
  intros k ->. unfold id in Es. by destruct (sk_check k attempt) as [[]|].
Qed.

Lemma handle_verified_grants user alg blob sig key cert s caps u :
  grants (fst (handle_verified user alg blob sig key cert s)) = Some (u, caps) →
  u = user ∧ ∃ attempt p key_caps p',
    evaluate (APublicKey user alg blob false true cert (sk_of s sig)) (auth s) = (Accept, p) ∧
    key_restrictions user blob p = (key_caps, p') ∧ merge_caps (from_cert_info <$> cert) key_caps = Some attempt ∧
    sk_satisfied (sk_of s sig) attempt ∧ opt_caps_le caps (pending_cert_caps s) ∧ opt_caps_le caps attempt.
Proof.
  unfold handle_verified, run_evaluate. fold (sk_of s sig).
  destruct (evaluate _ (auth s)) as [d p] eqn:Ee.
  destruct (restrict_accepted d user blob _ _ _) as [d' s'] eqn:Er. intros H.
  apply apply_decision_grants in H as [-> Hg]. rewrite (proj1 (record_success_caps _ _ _)) in Hg.
  injection Hg as -> ->. split; [done|]. destruct (restrict_accepted_inv _ _ _ _ _ _ _ _ Er eq_refl)
    as (-> & key_caps & p' & attempt & Hk & Hm & Hs & H1 & H2).
  by exists attempt, p, key_caps, p'.
Qed.

Lemma handle_publickey_grants user wire present alg blob sig hk s caps u :
  (∀ h, hk = Some h → sa_host_key s = Some h) →
  grants (fst (handle_publickey allow_rsa_sha1 user wire present alg blob sig hk s)) = Some (u, caps) →
  u = user ∧ present = true ∧ ∃ sg cert attempt p key_caps p', sig = Some sg ∧ key_proof s wire alg blob sg hk cert ∧
    evaluate (APublicKey user alg blob false true cert (sk_of s sg)) (auth s) = (Accept, p) ∧
    key_restrictions user blob p = (key_caps, p') ∧ merge_caps (from_cert_info <$> cert) key_caps = Some attempt ∧
    sk_satisfied (sk_of s sg) attempt ∧ opt_caps_le caps (pending_cert_caps s) ∧ opt_caps_le caps attempt.
Proof.
  intros Hh. unfold handle_publickey.
  destruct (offered_key alg blob) as [key|] eqn:Eo; [|by rewrite emit_failure_grants].
  destruct (List.existsb (bytes_eqb key) (used_keys s)) eqn:Eu; [by rewrite emit_failure_grants|].
  destruct present; cbn [negb]; [|by rewrite handle_probe_grants].
  destruct sig as [sg|]; cbn [ok_or]; [|done].
  destruct (request_verifier allow_rsa_sha1 alg blob sg s) as [[[v cert]|]|] eqn:Ev;
    [|by rewrite emit_failure_grants|done].
  destruct (is_ok (verifier_verify v _ sg)) eqn:Ek; cbn [negb]; [|by rewrite emit_failure_grants]. intros H.
  apply handle_verified_grants in H as (-> & attempt & p & key_caps & p' & H). split_and!; [done..|].
  exists sg, cert, attempt, p, key_caps, p'. split_and!; [done| |apply H..].
  apply is_ok_inv in Ek as [[] Ek]. destruct (request_verifier_proof _ _ _ _ _ _ _ Ev Ek) as [Hs Hc].
  split; [done..| |done]. exists key. split; [by apply offered_key_presented|].
  intros Hin%list_existsb_in. congruence.
Qed.

(** ** The user name *)

Lemma pin_user_cases user s :
  (∃ prev, first_user s = Some prev ∧ prev ≠ user ∧
     pin_user user s = (Some (SDisconnect "auth: username changed mid-authentication"), s)) ∨
  (first_user s = Some user ∧ pin_user user s = (None, s)) ∨
  (first_user s = None ∧ pin_user user s = (None, s <| first_user := Some user |>)).
Proof.
  unfold pin_user. destruct (first_user s) as [prev|]; [|by right; right].
  destruct (bytes_eqb_spec prev user) as [->|]; cbn [negb]; [by right; left|left; by exists prev].
Qed.

(** A pending keyboard-interactive exchange belongs to the pinned user. *)
Definition pending_pinned s : Prop := ∀ u, pending_user s = Some u → first_user s = Some u.

Lemma handle_request_grants req payload s s0 u caps :
  userauth_request_decode payload = Ok req →
  (s = s0 ∨ s = s0 <| first_user := Some (account_name (ua_user req)) |>) →
  grants (fst (handle_request allow_rsa_sha1 req s)) = Some (u, caps) →
  u = account_name (ua_user req) ∧ granted payload s0 u caps.
Proof.
  intros Hd Hs. unfold handle_request, run_evaluate.
  destruct (ua_method req) as [|np pw|present alg blob sig hk|l sub|n t] eqn:Em.
  - destruct (allow_none s) eqn:Ea; cbn [negb]; [|by rewrite emit_failure_grants].
    destruct (evaluate _ (auth s)) as [d p] eqn:Ee. intros [-> [= -> ->]]%apply_decision_grants. split; [done|].
    destruct Hs as [->| ->]; (eapply granted_none; [done|done|done|done|by apply (f_equal fst) in Ee|done]).
  - destruct (evaluate _ (auth s)) as [d p] eqn:Ee. intros H. apply apply_decision_grants in H as [-> Hg].
    rewrite (proj1 (record_success_caps _ _ _)) in Hg. injection Hg as -> ->. split; [done|].
    destruct Hs as [->| ->]; (eapply granted_password; [done|done|done|by apply (f_equal fst) in Ee|done]).
  - destruct (match hk with Some _ => _ | None => _ end) eqn:Eh; [by rewrite emit_failure_grants|]. intros H.
    apply handle_publickey_grants in H as (-> & -> & sg & cert & attempt & p & kc & p' & -> & Hk & He & Hr & Hm & Hsk & H1 & H2).
    + split; [done|]. destruct Hs as [->| ->]; [by eapply granted_publickey|].
      destruct Hk as [K1 K2 K3 K4]. eapply granted_publickey; [done|done|done| |exact He|done..]. split; [done..|].
      destruct cert as [ci|]; [|done]. destruct K4 as (? & c & []). split; [done|]. exists c. by split.
    + intros h ->. destruct (sa_host_key s) as [k|]; cbn in Eh; [|done]. apply negb_false_iff, bytes_eqb_true in Eh. by subst.
  - destruct (evaluate _ (auth s)) as [d p] eqn:Ee. intros [-> [= -> ->]]%apply_decision_grants. split; [done|].
    destruct Hs as [->| ->]; (eapply granted_interactive; [done|done|done|by apply (f_equal fst) in Ee|done]).
  - by rewrite emit_failure_grants.
Qed.

Lemma on_packet_grants payload s u caps :
  pending_pinned s → grants (fst (on_packet allow_rsa_sha1 payload s)) = Some (u, caps) →
  granted payload s u caps ∧ (∀ v, first_user s = Some v → v = u).
Proof.
  intros Hp. unfold on_packet. destruct payload as [|t rest]; [done|]. set (payload := t :: rest).
  destruct (state s) eqn:Est.
  - destruct (negb _); [done|]. destruct (service_request_decode payload); [|done]. by destruct (negb _).
  - destruct (negb _); [done|]. destruct (userauth_request_decode payload) as [req|] eqn:Ed; [|done].
    destruct (pin_user_cases (account_name (ua_user req)) s) as [(prev & _ & _ & ->)|[[Ef ->]|[Ef ->]]]; [done|..].
    + destruct (negb _); [by rewrite emit_failure_grants|]. intros H.
      destruct (handle_request_grants req payload s s u caps Ed) as [-> Hg]; [by left|done|]. split; [done|congruence].
    + destruct (negb _); [by rewrite emit_failure_grants|]. intros H.
      eapply (handle_request_grants req payload _ s) in H as [-> Hg]; [|done|by right]. split; [done|congruence].
  - destruct (negb _); [done|]. destruct (userauth_info_response_decode payload) as [rs|] eqn:Ed; [|done].
    destruct (pending_user s) as [user|] eqn:Eu; cbn [ok_or]; [|done].
    change (pending_prompt_count (s <| pending_user := None |>)) with (pending_prompt_count s).
    destruct (negb _) eqn:En; [by rewrite emit_failure_grants|].
    destruct (pending_prompt_count s) as [n|] eqn:Ec; [|done]. apply negb_false_iff, Z.eqb_eq in En as ->.
    destruct (evaluate_interactive user rs _) as [d p] eqn:Ee. intros H. apply apply_decision_grants in H as [-> Hg].
    rewrite (proj1 (record_success_caps _ _ _)) in Hg. injection Hg as -> ->. split.
    + eapply granted_responses; [done|done|done|done|by apply (f_equal fst) in Ee|done].
    + intros v Hv. pose proof (Hp _ Eu). congruence.
  - done.
Qed.
End Sound.
