(* ===== verification/AuthRun.v ===== *)
(** * Runs of the server's authentication

    The operations the server calls on [ServerAuth], in any order; a policy
    that keeps a log of what it was asked shows that the layer only puts sound
    attempts before it. *)
From S2P Require Import Prelude Wire Text Base64 Crypto KexMethods HostKey Cert CertFacts AuthMsg AuthServer AuthFacts.

(** ** Operations *)

Inductive auth_op :=
  | OpPacket (payload : bytes)
  | OpRejectUnadvertised (user : bytes)
  | OpNotify (user : bytes) (methods : list bytes)
  | OpMethods (methods : list bytes)
  | OpNow (t : Z)
  | OpCaAlgorithms (algos : list bytes)
  | OpPubkeyOptions (touch verify : bool)
  | OpMaxPkOk (n : Z)
  | OpMaxAuthTries (m : option Z)
  | OpHostKey (k : bytes)
  | OpAllowNone (b : bool).

Section Run.
Context {C : PureCrypto} {S : SigPrims} (allow_rsa_sha1 : bool).

Section Steps.
Context {A : Type} `{!Authenticator A}.

(** The answer of an operation, [Ok] with nothing for a setter. *)
Definition auth_step (op : auth_op) (s : ServerAuth A) : option (result ServerStep) * ServerAuth A :=
  match op with
  | OpPacket p => let '(o, s) := on_packet allow_rsa_sha1 p s in (Some o, s)
  | OpRejectUnadvertised u => let '(o, s) := reject_unadvertised u s in (Some o, s)
  | OpNotify u m => (None, notify_user_resolved u m s)
  | OpMethods m => (None, set_accepted_methods m s)
  | OpNow t => (None, set_now t s)
  | OpCaAlgorithms l => (None, set_ca_signature_algorithms l s)
  | OpPubkeyOptions t v => (None, set_pubkey_auth_options t v s)
  | OpMaxPkOk n => (None, set_max_pk_ok n s)
  | OpMaxAuthTries m => (None, set_max_auth_tries m s)
  | OpHostKey k => (None, set_host_key k s)
  | OpAllowNone b => (None, set_allow_none b s)
  end.

(** States of a connection with this session identifier and this policy. *)
Inductive auth_reach (sid : bytes) (methods : list bytes) (policy : A) : ServerAuth A → Prop :=
  | reach_new : auth_reach sid methods policy (server_auth_new sid methods policy)
  | reach_step s op : auth_reach sid methods policy s → auth_reach sid methods policy (snd (auth_step op s)).
End Steps.

(** ** A policy that keeps a log *)

#[local] Instance logged {A} `{!Authenticator A} : Authenticator (A * list AuthAttempt) := {|
  evaluate a p := let '(d, q) := evaluate a (fst p) in (d, (q, snd p ++ [a]));
  key_restrictions u b p := let '(c, q) := key_restrictions u b (fst p) in (c, (q, snd p));
  continuable_methods l p := continuable_methods l (fst p);
  evaluate_interactive u r p := let '(d, q) := evaluate_interactive u r (fst p) in (d, (q, snd p));
  on_user_resolved u m p := (on_user_resolved u m (fst p), snd p);
|}.

Definition attempt_user (a : AuthAttempt) : bytes :=
  match a with
  | ANone u | APassword u _ | APublicKey u _ _ _ _ _ _ | AKeyboardInteractive u => u
  end.

(** What the layer vouches for when it puts an attempt before the policy of
    the session [sid], whose pinned user is [fu]. *)
Definition attempt_sound (sid : bytes) (fu : option bytes) (a : AuthAttempt) : Prop :=
  fu = Some (attempt_user a) ∧
  match a with
  | APublicKey user alg blob probe verified cert _ =>
      verified = negb probe ∧
      (verified = true → ∃ wire sig hk, account_name wire = user ∧
         verify_signature allow_rsa_sha1 alg blob
           (publickey_signed_data_bound sid wire (bs "ssh-connection") alg blob hk) sig = Ok tt) ∧
      is_cert_name alg = is_some cert ∧
      (∀ ci, cert = Some ci → ∃ c algos, certificate_parse blob = Ok c ∧ from_certificate c = Ok ci ∧
         cert_type c = User ∧ require_known_critical_options c = Ok tt ∧
         verify_ca_signature allow_rsa_sha1 c algos = Ok tt)
  | _ => True
  end.

(** [log] grows by the attempt the policy is asked about, and by nothing else. *)
Class LogLaws {A} `{!Authenticator A} (log : A → list AuthAttempt) := {
  log_evaluate a p x : x ∈ log (snd (evaluate a p)) → x ∈ log p ∨ x = a;
  log_restrictions u b p : log (snd (key_restrictions u b p)) = log p;
  log_interactive u r p : log (snd (evaluate_interactive u r p)) = log p;
  log_resolved u m p : log (on_user_resolved u m p) = log p;
}.

#[local] Instance logged_laws {A} `{!Authenticator A} : LogLaws (A := A * list AuthAttempt) snd.
Proof.
  split; cbn; intros.
  - destruct (evaluate a (fst p)); cbn in *. apply elem_of_app in H as [?|?%list_elem_of_singleton]; auto.
  - by destruct (key_restrictions u b (fst p)).
  - by destruct (evaluate_interactive u r (fst p)).
  - done.
Qed.

#[local] Instance no_log {A} `{!Authenticator A} : LogLaws (A := A) (λ _, []).
Proof. split; intros; auto. Qed.

Section Log.
Context {A : Type} `{!Authenticator A} (log : A → list AuthAttempt) `{!LogLaws log} (sid : bytes).
Implicit Types s : ServerAuth A.

(** What the invariant looks at. *)
Definition view s := (log (auth s), first_user s, pending_user s, sa_session_id s, sa_service s).

Definition inv_view (v : list AuthAttempt * option bytes * option bytes * bytes * bytes) : Prop :=
  let '(log, fu, pu, i, svc) := v in
  Forall (attempt_sound sid fu) log ∧ (∀ u, pu = Some u → fu = Some u) ∧ i = sid ∧ svc = bs "ssh-connection".

Definition inv s : Prop := inv_view (view s).

Lemma policy_inv q s : log q = log (auth s) → inv s → inv (s <| auth := q |>).
Proof. unfold inv, view. change (auth (s <| auth := q |>)) with q. by intros ->. Qed.

Lemma emit_failure_view s : view (snd (emit_failure s)) = view s.
Proof. unfold emit_failure. destruct (max_auth_tries _); [|done]. by destruct (_ <? _). Qed.

Lemma emit_probe_failure_view s : view (snd (emit_probe_failure s)) = view s.
Proof. unfold emit_probe_failure. destruct (_ <? _); [by rewrite emit_failure_view|done]. Qed.

Lemma emit_failure_inv s : inv s → inv (snd (emit_failure s)).
Proof. unfold inv. by rewrite emit_failure_view. Qed.

Lemma apply_decision_inv d user s :
  inv s → first_user s = Some user → inv (snd (apply_decision d user s)).
Proof.
  intros Hi Hf. destruct d; cbn [apply_decision]; [done|done|by apply emit_failure_inv|].
  destruct Hi as (H1 & H2 & H3 & H4). split_and!; [done| |done..]. by intros u [= <-].
Qed.

Lemma record_success_inv d line s :
  inv s → inv (record_success d line s) ∧ first_user (record_success d line s) = first_user s.
Proof. unfold record_success. by destruct (accepts d). Qed.

Lemma run_evaluate_inv a d s s' :
  run_evaluate a s = (d, s') → inv s → attempt_sound sid (first_user s) a → inv s' ∧ first_user s' = first_user s.
Proof.
  unfold run_evaluate. pose proof (log_evaluate a (auth s)) as Hl. destruct (evaluate a (auth s)) as [d' q].
  intros [= <- <-] (H1 & H2 & H3 & H4) Ha. split; [|done]. split_and!; [|done..].
  apply Forall_forall. intros x Hx. rewrite Forall_forall in H1.
  apply list_elem_of_In, Hl in Hx as [Hx| ->]; [by apply H1, list_elem_of_In|done].
Qed.

Lemma restrict_accepted_keeps d user blob caps sk s :
  inv s → let s' := snd (restrict_accepted d user blob caps sk s) in inv s' ∧ first_user s' = first_user s.
Proof.
  intros Hi. unfold restrict_accepted. destruct (accepts d); [|done].
  pose proof (log_restrictions user blob (auth s)) as Hl. destruct (key_restrictions user blob (auth s)) as [kc q].
  pose proof (policy_inv q s Hl Hi).
  match goal with |- context [match ?m with Some c => (d, _) | None => _ end] => by destruct m end.
Qed.

Lemma handle_verified_inv user alg blob sig key cert s :
  inv s → attempt_sound sid (first_user s) (APublicKey user alg blob false true cert (sk_of s sig)) →
  inv (snd (handle_verified user alg blob sig key cert s)).
Proof.
  intros Hi Ha. unfold handle_verified. fold (sk_of s sig).
  destruct (run_evaluate _ s) as [d s1] eqn:Ee. apply run_evaluate_inv in Ee as [Hi1 Hf1]; [|done..].
  pose proof (restrict_accepted_keeps d user blob (from_cert_info <$> cert) (sk_of s sig) s1 Hi1) as [Hi2 Hf2].
  destruct (restrict_accepted d user blob _ _ s1) as [d' s2]. cbn [snd] in Hi2, Hf2.
  set (s3 := match d' with PartialAccept _ => _ | _ => s2 end).
  assert (H3 : inv s3 ∧ first_user s3 = first_user s2) by (subst s3; by destruct d').
  destruct (record_success_inv d' (publickey_line blob) s3 (proj1 H3)) as [H4 H5].
  apply apply_decision_inv; [done|]. rewrite H5, (proj2 H3), Hf2, Hf1. apply Ha.
Qed.

Lemma handle_probe_inv user alg blob s :
  inv s → first_user s = Some user → inv (snd (handle_probe allow_rsa_sha1 user alg blob s)).
Proof.
  intros Hi Hf. unfold handle_probe.
  destruct (if is_cert_name alg then _ else _) as [[cert|]|] eqn:Ec; [|unfold inv; by rewrite emit_probe_failure_view|done].
  destruct (run_evaluate _ s) as [d s1] eqn:Ee. apply run_evaluate_inv in Ee as [Hi1 Hf1]; [|done|].
  { destruct d; try done. unfold inv. by rewrite emit_probe_failure_view. }
  split; [done|]. destruct (is_cert_name alg) eqn:En; [|by injection Ec as <-].
  destruct (certificate_parse blob) as [c|] eqn:Ep; [|done]. destruct (cert_plain_algorithm alg c); [|done].
  destruct (user_cert_valid allow_rsa_sha1 c s) eqn:Ev; [|done]. destruct (from_certificate c) as [ci|] eqn:Ei; [|done].
  injection Ec as <-. apply user_cert_valid_inv in Ev as (? & ? & ? & ?). split_and!; [done..|].
  intros ci' [= <-]. by exists c, (ca_algos s).
Qed.

Lemma handle_publickey_inv wire present alg blob sig hk s :
  inv s → first_user s = Some (account_name wire) →
  inv (snd (handle_publickey allow_rsa_sha1 (account_name wire) wire present alg blob sig hk s)).
Proof.
  intros Hi Hf. unfold handle_publickey. destruct (offered_key alg blob) as [key|]; [|by apply emit_failure_inv].
  destruct (List.existsb _ _); [by apply emit_failure_inv|]. destruct present; cbn [negb]; [|by apply handle_probe_inv].
  destruct sig as [sg|]; cbn [ok_or]; [|done].
  destruct (request_verifier allow_rsa_sha1 alg blob sg s) as [[[v cert]|]|] eqn:Ev; [|by apply emit_failure_inv|done].
  destruct (is_ok (verifier_verify v _ sg)) eqn:Ek; cbn [negb]; [|by apply emit_failure_inv].
  apply handle_verified_inv; [done|]. apply is_ok_inv in Ek as [[] Ek].
  destruct (request_verifier_proof _ _ _ _ _ _ _ _ Ev Ek) as [Hs Hc].
  destruct Hi as (_ & _ & Hsid & Hsvc). rewrite Hsid, Hsvc in Hs. split; [done|]. split; [done|].
  split; [intros _; by exists wire, sg, hk|]. split; [by destruct cert as [ci|]; [apply Hc|]|].
  intros ci ->. destruct Hc as (_ & c & []). by exists c, (ca_algos s).
Qed.

Lemma handle_request_inv req s :
  inv s → first_user s = Some (account_name (ua_user req)) → inv (snd (handle_request allow_rsa_sha1 req s)).
Proof.
  intros Hi Hf. unfold handle_request. destruct (ua_method req) as [|np pw|present alg blob sig hk|l sub|n t].
  - destruct (negb (allow_none s)); [by apply emit_failure_inv|].
    destruct (run_evaluate _ s) as [d s1] eqn:Ee. apply run_evaluate_inv in Ee as [Hi1 Hf1]; [|done..].
    apply apply_decision_inv; [done|congruence].
  - destruct (run_evaluate _ s) as [d s1] eqn:Ee. apply run_evaluate_inv in Ee as [Hi1 Hf1]; [|done..].
    destruct (record_success_inv d (bs "password") s1 Hi1) as [H2 H3]. apply apply_decision_inv; [done|congruence].
  - destruct (match hk with Some _ => _ | None => _ end); [by apply emit_failure_inv|by apply handle_publickey_inv].
  - destruct (run_evaluate _ s) as [d s1] eqn:Ee. apply run_evaluate_inv in Ee as [Hi1 Hf1]; [|done..].
    apply apply_decision_inv; [done|congruence].
  - by apply emit_failure_inv.
Qed.

(** An attempt made under no name yet does not occur in the log. *)
Lemma pin_inv user s : inv s → first_user s = None → inv (s <| first_user := Some user |>).
Proof.
  intros (H1 & H2 & H3 & H4) Hf. rewrite Hf in H1, H2. split_and!; [|intros u Hu; by specialize (H2 u Hu)|done..].
  change (log (auth (s <| first_user := Some user |>))) with (log (auth s)).
  destruct H1 as [|a l Ha]; [constructor|]. by destruct Ha as [? _].
Qed.

Lemma pin_user_inv user s : inv s → inv (snd (pin_user user s)) ∧
  (fst (pin_user user s) = None → first_user (snd (pin_user user s)) = Some user).
Proof.
  intros Hi. destruct (pin_user_cases user s) as [(prev & _ & _ & ->)|[[Hf ->]|[Hf ->]]]; [done..|].
  split; [by apply pin_inv|done].
Qed.

Lemma on_packet_inv payload s : inv s → inv (snd (on_packet allow_rsa_sha1 payload s)).
Proof.
  intros Hi. unfold on_packet. destruct payload as [|t rest]; [done|]. destruct (state s).
  - destruct (negb _); [done|]. destruct (service_request_decode _); [|done]. by destruct (negb _).
  - destruct (negb _); [done|]. destruct (userauth_request_decode _) as [req|]; [|done].
    destruct (pin_user_inv (account_name (ua_user req)) s Hi) as [Hp Hf].
    destruct (pin_user _ s) as [[step|] s1]; [done|]. specialize (Hf eq_refl).
    destruct (negb _); [by apply emit_failure_inv|by apply handle_request_inv].
  - destruct (negb _); [done|]. destruct (userauth_info_response_decode _) as [rs|]; [|done].
    destruct Hi as (H1 & H2 & H3 & H4). destruct (pending_user s) as [user|] eqn:Eu; cbn [ok_or]; [|by split_and!].
    assert (Hi' : inv (s <| pending_user := None |> <| pending_prompt_count := None |> <| state := AwaitingRequest |>))
      by (by split_and!).
    destruct (negb _); [by apply emit_failure_inv|]. set (s1 := s <| pending_user := None |> <| pending_prompt_count := None |> <| state := AwaitingRequest |>) in *.
    pose proof (log_interactive user rs (auth s1)) as Hl. destruct (evaluate_interactive user rs (auth s1)) as [d q].
    apply apply_decision_inv; [|unfold record_success; destruct (accepts _); by apply H2].
    by apply record_success_inv, policy_inv.
  - done.
Qed.

Lemma auth_step_inv op s : inv s → inv (snd (auth_step op s)).
Proof.
  intros Hi. destruct op; cbn [auth_step]; try done.
  - pose proof (on_packet_inv payload s Hi) as H. by destruct (on_packet _ payload s).
  - unfold reject_unadvertised. destruct (pin_user_inv user s Hi) as [Hp _].
    destruct (pin_user user s) as [[step|] s1]; [done|]. cbn [snd] in Hp. apply emit_failure_inv in Hp.
    by destruct (emit_failure s1).
  - by apply policy_inv; [apply log_resolved|].
Qed.

Lemma reach_inv methods policy s : log policy = [] → auth_reach sid methods policy s → inv s.
Proof.
  intros Hl. induction 1 as [|s op _ IH]; [|by apply auth_step_inv].
  split_and!; [|done..]. change (auth (server_auth_new sid methods policy)) with policy. rewrite Hl. constructor.
Qed.
End Log.

(** ** A grant ends authentication *)

Section Grants.
Context {A : Type} `{!Authenticator A}.
Implicit Types s : ServerAuth A.

Lemma apply_decision_done d user s :
  grants (fst (apply_decision d user s)) ≠ None → state (snd (apply_decision d user s)) = AuthDone.
Proof. destruct d; cbn [apply_decision]; [done|done|by rewrite emit_failure_grants|done]. Qed.

Lemma handle_publickey_done user wire present alg blob sig hk s :
  let r := handle_publickey allow_rsa_sha1 user wire present alg blob sig hk s in
  grants (fst r) ≠ None → state (snd r) = AuthDone.
Proof.
  cbn zeta. unfold handle_publickey. destruct (offered_key alg blob) as [key|]; [|by rewrite emit_failure_grants].
  destruct (List.existsb _ _); [by rewrite emit_failure_grants|].
  destruct present; cbn [negb]; [|by rewrite handle_probe_grants]. destruct sig as [sg|]; cbn [ok_or]; [|done].
  destruct (request_verifier _ _ _ _ _) as [[[v cert]|]|]; [|by rewrite emit_failure_grants|done].
  destruct (negb _); [by rewrite emit_failure_grants|]. unfold handle_verified.
  destruct (run_evaluate _ s) as [d s1]. destruct (restrict_accepted d user blob _ _ s1) as [d' s2].
  apply apply_decision_done.
Qed.

Lemma on_packet_done payload s :
  let r := on_packet allow_rsa_sha1 payload s in grants (fst r) ≠ None → state (snd r) = AuthDone.
Proof.
  cbn zeta. unfold on_packet. destruct payload as [|t rest]; [done|]. destruct (state s).
  - destruct (negb _); [done|]. destruct (service_request_decode _); [|done]. by destruct (negb _).
  - destruct (negb _); [done|]. destruct (userauth_request_decode _) as [req|]; [|done].
    destruct (pin_user _ s) as [[step|] s1] eqn:Ep.
    { destruct (pin_user_cases (account_name (ua_user req)) s) as [(? & _ & _ & E)|[[_ E]|[_ E]]];
        rewrite E in Ep; simplify_eq; done. }
    destruct (negb _); [by rewrite emit_failure_grants|]. unfold handle_request.
    destruct (ua_method req) as [|np pw|present alg blob sig hk|l sub|n tl].
    + destruct (negb _); [by rewrite emit_failure_grants|]. destruct (run_evaluate _ s1). apply apply_decision_done.
    + destruct (run_evaluate _ s1). apply apply_decision_done.
    + destruct (match hk with Some _ => _ | None => _ end); [by rewrite emit_failure_grants|apply handle_publickey_done].
    + destruct (run_evaluate _ s1). apply apply_decision_done.
    + by rewrite emit_failure_grants.
  - destruct (negb _); [done|]. destruct (userauth_info_response_decode _) as [rs|]; [|done].
    destruct (pending_user s); cbn [ok_or]; [|done]. destruct (negb _); [by rewrite emit_failure_grants|].
    destruct (evaluate_interactive _ _ _). apply apply_decision_done.
  - done.
Qed.

(** The answer of a step grants a session. *)
Definition step_grants (op : auth_op) s : option (bytes * option AuthCertCaps) :=
  match fst (auth_step op s) with Some o => grants o | None => None end.

Definition run_ops (ops : list auth_op) s : ServerAuth A := fold_left (λ s op, snd (auth_step op s)) ops s.

Lemma emit_failure_done s : state s = AuthDone → state (snd (emit_failure s)) = AuthDone.
Proof. unfold emit_failure. destruct (max_auth_tries _); [|done]. by destruct (_ <? _). Qed.

Lemma pin_user_state user s : state (snd (pin_user user s)) = state s.
Proof. destruct (pin_user_cases user s) as [(? & _ & _ & ->)|[[_ ->]|[_ ->]]]; done. Qed.

Lemma done_step op s : state s = AuthDone → state (snd (auth_step op s)) = AuthDone ∧ step_grants op s = None.
Proof.
  intros Hd. unfold step_grants. destruct op; cbn [auth_step]; try done.
  - unfold on_packet. destruct payload; [done|]. by rewrite Hd.
  - unfold reject_unadvertised. pose proof (pin_user_state user s) as Hs. rewrite Hd in Hs.
    destruct (pin_user_cases user s) as [(? & _ & _ & E)|[[_ E]|[_ E]]]; rewrite E in Hs |- *; [done|..];
      match goal with |- context [emit_failure ?x] =>
        pose proof (emit_failure_done x Hs); pose proof (emit_failure_grants x); by destruct (emit_failure x) end.
Qed.

Lemma done_run ops s : state s = AuthDone → state (run_ops ops s) = AuthDone.
Proof.
  revert s. induction ops as [|op ops IH]; intros s Hd; [done|]. apply IH. by apply done_step.
Qed.


(** C15: everything the policy is asked is sound.  Let the policy keep a log.
    On any connection all attempts in the log are for the one pinned user; a
    public-key attempt marked verified carries a signature over this session's
    data that verifies under the offered algorithm and key, one not so marked
    is a bare query; and the facts of a certificate, also of a query, come from
    a user certificate whose CA signature has been checked. *)
Theorem policy_view_sound sid methods (policy : A) (s : ServerAuth (A * list AuthAttempt)) :
  auth_reach sid methods (policy, []) s → Forall (attempt_sound sid (first_user s)) (snd (auth s)).
Proof. intros Hr. by destruct (reach_inv snd sid methods (policy, []) s eq_refl Hr) as (H & _). Qed.
End Grants.
End Run.
