(* ===== verification/AuthLimits.v ===== *)
(** * The number of failures is bounded

    [MaxAuthTries] and [max-pk-ok] bound the failures a connection can cause,
    whatever is sent. *)
From S2P Require Import Prelude Wire Text Base64 Crypto KexMethods HostKey Cert CertFacts AuthMsg AuthServer AuthFacts AuthRun.

(** A USERAUTH_FAILURE without partial success. *)
Definition is_reject (o : result ServerStep) : bool :=
  match o with
  | Ok (SSend ((t :: _) as p)) => (u8 t =? SSH_MSG_USERAUTH_FAILURE) && (u8 (List.last p Byte.x00) =? 0)
  | _ => false
  end.

Lemma failure_payload_reject partial l : is_reject (Ok (SSend (failure_payload partial l))) = negb partial.
Proof.
  unfold failure_payload, userauth_failure_encode. writer_norm. unfold is_reject; cbn [uf_partial_success].
  set (p := _ :: _). replace (List.last p Byte.x00) with (byte_of_Z (if partial then 1 else 0)); [by destruct partial|].
  subst p. symmetry. rewrite (assoc_L (++)), app_comm_cons. apply last_last.
Qed.

Lemma pk_ok_not_reject p : is_reject (Ok (SSend (userauth_pk_ok_encode p))) = false.
Proof. done. Qed.

Lemma service_accept_not_reject x : is_reject (Ok (SSend (service_accept_encode x))) = false.
Proof. done. Qed.

Lemma write_prompts_head (l : list (bytes * bool)) w b r :
  w_buf w = b :: r →
  ∃ r', w_buf (fold_left (λ w p, w |>> write_string (fst p) |>> write_bool (snd p)) l w) = b :: r'.
Proof.
  revert w r. induction l as [|p l IH]; intros w r Hw; cbn [fold_left]; [by exists r|].
  eapply IH. unfold write_bool, write_string, write_u32; cbn [w_buf]. rewrite Hw. cbn. done.
Qed.

Lemma info_request_not_reject q : is_reject (Ok (SSend (userauth_info_request_encode q))) = false.
Proof.
  unfold userauth_info_request_encode, into_vec. destruct (write_prompts_head (ir_prompts q)
    (writer_new |>> write_u8 SSH_MSG_USERAUTH_INFO_REQUEST |>> write_string (ir_name q)
       |>> write_string (ir_instruction q) |>> write_string (ir_language q)
       |>> write_u32 (wrap32 (len (ir_prompts q)))) (byte_of_Z SSH_MSG_USERAUTH_INFO_REQUEST)
    (tail (w_buf (writer_new |>> write_u8 SSH_MSG_USERAUTH_INFO_REQUEST |>> write_string (ir_name q)
       |>> write_string (ir_instruction q) |>> write_string (ir_language q)
       |>> write_u32 (wrap32 (len (ir_prompts q))))))) as [r' ->]; done.
Qed.

Section Limits.
Context {C : PureCrypto} {S : SigPrims} (allow_rsa_sha1 : bool) {A : Type} `{!Authenticator A}.
Implicit Types s t : ServerAuth A.
Context (m n : Z) (Hm : 0 ≤ m < U32_MAX) (Hn : 0 ≤ n < U32_MAX).

(** The failures a connection has been charged for. *)
Definition charged s : Z := Z.min (failed_attempts s) m + Z.min (pk_ok_failures s) n.

Definition limited s : Prop :=
  max_auth_tries s = Some m ∧ max_pk_ok s = n ∧ is_u32 (failed_attempts s) ∧ is_u32 (pk_ok_failures s).

Definition b2z (b : bool) : Z := if b then 1 else 0.

(** A step charges for the failure it sends. *)
Definition charges s (r : result ServerStep * ServerAuth A) : Prop :=
  b2z (is_reject (fst r)) + charged s ≤ charged (snd r) ∧ limited (snd r).

(** [t] has the counters and limits of [s]. *)
Definition same_limits (s t : ServerAuth A) : Prop :=
  failed_attempts t = failed_attempts s ∧ pk_ok_failures t = pk_ok_failures s ∧
  max_auth_tries t = max_auth_tries s ∧ max_pk_ok t = max_pk_ok s.

Lemma same_charges s t r : same_limits s t → charges t r → charges s r.
Proof. intros (E1 & E2 & _ & _). unfold charges, charged. by rewrite E1, E2. Qed.

Lemma same_limited s t : same_limits s t → limited s → limited t.
Proof. intros (E1 & E2 & E3 & E4). unfold limited. by rewrite E1, E2, E3, E4. Qed.

Lemma quiet_charges s t o : limited s → same_limits s t → is_reject o = false → charges s (o, t).
Proof.
  intros Hl Hs Ho. split; [|by eapply same_limited]. destruct Hs as (E1 & E2 & _ & _).
  unfold charged. cbn [fst snd]. rewrite Ho, E1, E2. cbn. lia.
Qed.

Lemma emit_failure_charges s : limited s → charges s (emit_failure s).
Proof.
  intros (H1 & H2 & H3 & H4). unfold emit_failure. cbn zeta.
  change (max_auth_tries (s <| failed_attempts := sat_add32 (failed_attempts s) 1 |>)) with (max_auth_tries s).
  rewrite H1. change (failed_attempts (s <| failed_attempts := sat_add32 (failed_attempts s) 1 |>))
    with (sat_add32 (failed_attempts s) 1).
  destruct (Z.ltb_spec m (sat_add32 (failed_attempts s) 1)); unfold charges, charged, limited; cbn [fst snd];
    rewrite ?failure_payload_reject; unfold set_field; cbn [is_reject b2z negb failed_attempts pk_ok_failures max_auth_tries max_pk_ok];
    (split; [width_lia|split; [done|split; [done|split; width_lia]]]).
Qed.

Lemma emit_probe_failure_charges s : limited s → charges s (emit_probe_failure s).
Proof.
  intros (H1 & H2 & H3 & H4). unfold emit_probe_failure. cbn zeta. set (t := s <| pk_ok_failures := _ |>).
  assert (Ht : limited t).
  { split; [done|split; [done|split; [done|]]]. unfold t, set_field; cbn [pk_ok_failures]. width_lia. }
  change (max_pk_ok t) with (max_pk_ok s). change (pk_ok_failures t) with (sat_add32 (pk_ok_failures s) 1). rewrite H2.
  destruct (Z.ltb_spec n (sat_add32 (pk_ok_failures s) 1)) as [Hlt|Hge].
  - destruct (emit_failure_charges t Ht) as [H5 H6]. split; [|done]. etrans; [|exact H5]. unfold charged.
    change (failed_attempts t) with (failed_attempts s). change (pk_ok_failures t) with (sat_add32 (pk_ok_failures s) 1).
    width_lia.
  - split; [|done]. cbn [fst snd]. rewrite failure_payload_reject. cbn [negb b2z]. unfold charged.
    change (failed_attempts t) with (failed_attempts s). change (pk_ok_failures t) with (sat_add32 (pk_ok_failures s) 1).
    width_lia.
Qed.

Lemma apply_decision_charges d user s : limited s → charges s (apply_decision d user s).
Proof.
  intros Hl. destruct d; cbn [apply_decision].
  - by apply quiet_charges.
  - apply quiet_charges; [done..|]. by rewrite failure_payload_reject.
  - by apply emit_failure_charges.
  - apply quiet_charges; [done..|]. by rewrite info_request_not_reject.
Qed.

Lemma record_success_same d line s : same_limits s (record_success d line s).
Proof. unfold record_success. by destruct (accepts d). Qed.

Lemma run_evaluate_same a s : same_limits s (snd (run_evaluate a s)).
Proof. unfold run_evaluate. by destruct (evaluate a (auth s)). Qed.

Lemma same_limits_trans s t u : same_limits s t → same_limits t u → same_limits s u.
Proof. unfold same_limits. intros (-> & -> & -> & ->). done. Qed.

Lemma restrict_accepted_same d user blob caps sk s : same_limits s (snd (restrict_accepted d user blob caps sk s)).
Proof.
  unfold restrict_accepted. destruct (accepts d); [|done]. destruct (key_restrictions user blob (auth s)) as [kc q].
  match goal with |- context [match ?x with Some c => (d, _) | None => _ end] => by destruct x end.
Qed.

(** Charges of a step that goes on from a state with the same counters. *)
Lemma charges_via s t r : limited s → same_limits s t → (limited t → charges t r) → charges s r.
Proof. intros Hl Hs Hr. eapply same_charges; [done|]. apply Hr. by eapply same_limited. Qed.

Lemma handle_verified_charges user alg blob sig key cert s :
  limited s → charges s (handle_verified user alg blob sig key cert s).
Proof.
  intros Hl. unfold handle_verified. pose proof (run_evaluate_same (APublicKey user alg blob false true cert
    ((λ fc, {| sk_flags := fst fc; sk_counter := snd fc; server_touch_required := sk_touch_required s;
               server_verify_required := sk_verify_required s |}) <$> Sk.sk_signature_details sig)) s) as H1.
  destruct (run_evaluate _ s) as [d s1]. cbn [snd] in H1.
  match goal with |- context [restrict_accepted d user blob ?c ?k s1] =>
    pose proof (restrict_accepted_same d user blob c k s1) as H2; destruct (restrict_accepted d user blob c k s1) as [d' s2] end.
  cbn [snd] in H2. set (s3 := match d' with PartialAccept _ => _ | _ => s2 end).
  assert (H3 : same_limits s2 s3) by (subst s3; by destruct d').
  eapply charges_via; [done| |apply apply_decision_charges].
  eapply same_limits_trans; [|apply record_success_same]. by eapply same_limits_trans; [eapply same_limits_trans|].
Qed.

Lemma handle_probe_charges user alg blob s : limited s → charges s (handle_probe allow_rsa_sha1 user alg blob s).
Proof.
  intros Hl. unfold handle_probe.
  destruct (if is_cert_name alg then _ else _) as [[cert|]|];
    [|by apply emit_probe_failure_charges|by apply quiet_charges].
  pose proof (run_evaluate_same (APublicKey user alg blob true false cert None) s) as H1.
  destruct (run_evaluate _ s) as [d s1]. cbn [snd] in H1.
  destruct d; [by apply quiet_charges..| |by apply quiet_charges].
  eapply charges_via; [done..|apply emit_probe_failure_charges].
Qed.

Lemma handle_publickey_charges user wire present alg blob sig hk s :
  limited s → charges s (handle_publickey allow_rsa_sha1 user wire present alg blob sig hk s).
Proof.
  intros Hl. unfold handle_publickey. destruct (offered_key alg blob) as [key|]; [|by apply emit_failure_charges].
  destruct (List.existsb _ _); [by apply emit_failure_charges|]. destruct present; cbn [negb]; [|by apply handle_probe_charges].
  destruct sig as [sg|]; cbn [ok_or]; [|by apply quiet_charges].
  destruct (request_verifier _ _ _ _ _) as [[[v cert]|]|]; [|by apply emit_failure_charges|by apply quiet_charges].
  destruct (negb _); [by apply emit_failure_charges|by apply handle_verified_charges].
Qed.

Lemma handle_request_charges req s : limited s → charges s (handle_request allow_rsa_sha1 req s).
Proof.
  intros Hl. unfold handle_request. destruct (ua_method req) as [|np pw|present alg blob sig hk|l sub|nm tl].
  - destruct (negb _); [by apply emit_failure_charges|].
    pose proof (run_evaluate_same (ANone (account_name (ua_user req))) s) as H1.
    destruct (run_evaluate _ s). eapply charges_via; [done..|apply apply_decision_charges].
  - pose proof (run_evaluate_same (APassword (account_name (ua_user req)) pw) s) as H1.
    destruct (run_evaluate _ s). eapply charges_via; [done| |apply apply_decision_charges].
    eapply same_limits_trans; [done|apply record_success_same].
  - destruct (match hk with Some _ => _ | None => _ end); [by apply emit_failure_charges|by apply handle_publickey_charges].
  - pose proof (run_evaluate_same (AKeyboardInteractive (account_name (ua_user req))) s) as H1.
    destruct (run_evaluate _ s). eapply charges_via; [done..|apply apply_decision_charges].
  - by apply emit_failure_charges.
Qed.

Lemma pin_user_same user s : same_limits s (snd (pin_user user s)).
Proof. destruct (pin_user_cases user s) as [(? & _ & _ & ->)|[[_ ->]|[_ ->]]]; done. Qed.

Lemma pin_user_step user s step t : pin_user user s = (Some step, t) → is_reject (Ok step) = false.
Proof. destruct (pin_user_cases user s) as [(? & _ & _ & ->)|[[_ ->]|[_ ->]]]; by intros [= <- _]. Qed.

Lemma on_packet_charges payload s : limited s → charges s (on_packet allow_rsa_sha1 payload s).
Proof.
  intros Hl. unfold on_packet. destruct payload as [|b rest]; [by apply quiet_charges|]. destruct (state s).
  - destruct (negb _); [by apply quiet_charges|]. destruct (service_request_decode _); [|by apply quiet_charges].
    destruct (negb _); by apply quiet_charges.
  - destruct (negb _); [by apply quiet_charges|]. destruct (userauth_request_decode _) as [req|]; [|by apply quiet_charges].
    pose proof (pin_user_same (account_name (ua_user req)) s) as H1.
    destruct (pin_user _ s) as [[step|] s1] eqn:Ep; cbn [snd] in H1.
    { apply quiet_charges; [done..|]. by eapply pin_user_step. }
    eapply charges_via; [done..|]. intros Hl1. destruct (negb _); [by apply emit_failure_charges|by apply handle_request_charges].
  - destruct (negb _); [by apply quiet_charges|]. destruct (userauth_info_response_decode _) as [rs|]; [|by apply quiet_charges].
    destruct (pending_user s); cbn [ok_or]; [|by apply quiet_charges].
    destruct (negb _); [by eapply charges_via; [done| |apply emit_failure_charges]|].
    destruct (evaluate_interactive _ _ _). eapply charges_via; [done| |apply apply_decision_charges].
    by eapply same_limits_trans; [|apply record_success_same].
  - by apply quiet_charges.
Qed.

(** An operation that leaves the two limits alone. *)
Definition keeps_limits (op : auth_op) : bool :=
  match op with OpMaxPkOk _ | OpMaxAuthTries _ => false | _ => true end.

(** The failures an operation sends. *)
Definition rejects (op : auth_op) s : Z :=
  match fst (auth_step allow_rsa_sha1 op s) with Some o => b2z (is_reject o) | None => 0 end.

Lemma auth_step_charges op s :
  keeps_limits op = true → limited s →
  rejects op s + charged s ≤ charged (snd (auth_step allow_rsa_sha1 op s)) ∧
  limited (snd (auth_step allow_rsa_sha1 op s)).
Proof.
  intros Hk Hl. unfold rejects. destruct op; cbn [auth_step]; try done.
  - pose proof (on_packet_charges payload s Hl) as H. by destruct (on_packet _ payload s).
  - unfold reject_unadvertised. pose proof (pin_user_same user s) as H1.
    destruct (pin_user user s) as [[step|] s1] eqn:Ep; cbn [snd] in H1.
    { pose proof (quiet_charges s s1 (Ok step) Hl H1 (pin_user_step _ _ _ _ Ep)). done. }
    pose proof (charges_via s s1 _ Hl H1 (emit_failure_charges s1)) as H. by destruct (emit_failure s1).
Qed.

(** All failures sent during a run. *)
Fixpoint total_rejects (ops : list auth_op) s : Z :=
  match ops with
  | [] => 0
  | op :: ops => rejects op s + total_rejects ops (snd (auth_step allow_rsa_sha1 op s))
  end.

Lemma total_rejects_charged ops s :
  forallb keeps_limits ops = true → limited s → total_rejects ops s ≤ m + n - charged s.
Proof.
  revert s. induction ops as [|op ops IH]; intros s; cbn [forallb total_rejects].
  { intros _ (_ & _ & H3 & H4). unfold charged. width_lia. }
  intros [Hk Hks]%andb_prop Hl. destruct (auth_step_charges op s Hk Hl) as [H1 H2].
  pose proof (IH _ Hks H2). lia.
Qed.
End Limits.

(** C31: with [MaxAuthTries m] and [max-pk-ok n] a client can provoke at most
    [m + n] failures, however many requests it sends and in whatever order:
    every further one closes the connection. *)
Theorem auth_failures_bounded `{C : PureCrypto} `{S : SigPrims} allow {A} `{!Authenticator A} m n sid methods policy ops :
  0 ≤ m < U32_MAX → 0 ≤ n < U32_MAX → forallb keeps_limits ops = true →
  total_rejects allow ops (set_max_auth_tries (Some m) (set_max_pk_ok n (server_auth_new sid methods policy))) ≤ m + n.
Proof.
  intros Hm Hn Hops. set (s := set_max_auth_tries _ _).
  assert (Hl : limited m n s) by (split; [done|]; split; [done|]; split; by vm_compute).
  pose proof (total_rejects_charged allow m n Hm Hn ops s Hops Hl) as H.
  unfold charged in H. change (failed_attempts s) with 0 in H. change (pk_ok_failures s) with 0 in H. lia.
Qed.
