(* ===== verification/AuthClient.v ===== *)
(** * Client-side user authentication (src/auth/client.rs)

    [ClientAuth] with every operation on it.  A key is a type [T] with the
    class [HostKeyTrait]; closures and responders answer from the history of
    the calls made to them. *)
From S2P Require Import Prelude Wire Text KexInit Cert SignKey AuthMsg.

(** One question to a keyboard-interactive responder. *)
Definition query : Type := bytes * bytes * list (bytes * bool).

Inductive ClientCredential (T : Type) :=
  | CNone
  | CPassword (password : bytes)
  | CPasswordPrompt (asked : list bool) (prompt : list bool → option bytes)
  | CPublicKey (key : T)
  | CKeyboardInteractive (asked : list query) (respond : list query → list bytes) (submethods : list query → bytes).
Arguments CNone {T}. Arguments CPassword {T}. Arguments CPasswordPrompt {T}. Arguments CPublicKey {T}.
Arguments CKeyboardInteractive {T}.

Definition cred_method_name {T} (c : ClientCredential T) : bytes :=
  match c with
  | CNone => bs "none"
  | CPassword _ | CPasswordPrompt _ _ => bs "password"
  | CPublicKey _ => bs "publickey"
  | CKeyboardInteractive _ _ _ => bs "keyboard-interactive"
  end.

Inductive ClientStep :=
  | CSend (payload : bytes)
  | CSuccess
  | CFailed (continuations : list bytes) (partial_success : bool)
  | CBanner (message language : bytes)
  | CIdle.

Inductive ClientState :=
  | Initial | AwaitingServiceAccept | AwaitingPkOk | AwaitingPkResult | AwaitingPasswordResult | AwaitingNoneResult
  | AwaitingKbdintResult | ClientDone.

Record ClientAuth (T : Type) := {
  ca_user : bytes; ca_service : bytes; ca_session_id : bytes; credentials : list (ClientCredential T);
  current : option (ClientCredential T); server_continuations : list bytes; last_partial_success : bool;
  password_retry : bool; cstate : ClientState; server_sig_algs : option (list bytes);
  pubkey_accepted : option (list bytes); hostbound : option bytes;
  (** signatures asked for so far *)
  signatures : nat
}.
Arguments ca_user {T}. Arguments ca_service {T}. Arguments ca_session_id {T}. Arguments credentials {T}.
Arguments current {T}. Arguments server_continuations {T}. Arguments last_partial_success {T}.
Arguments password_retry {T}. Arguments cstate {T}. Arguments server_sig_algs {T}. Arguments pubkey_accepted {T}.
Arguments hostbound {T}. Arguments signatures {T}.

#[export] Instance ClientAuth_eta T : Etable (ClientAuth T) := fun c => {|
  ca_user := ca_user c; ca_service := ca_service c; ca_session_id := ca_session_id c; credentials := credentials c;
  current := current c; server_continuations := server_continuations c; last_partial_success := last_partial_success c;
  password_retry := password_retry c; cstate := cstate c; server_sig_algs := server_sig_algs c;
  pubkey_accepted := pubkey_accepted c; hostbound := hostbound c; signatures := signatures c |}.

(** The signature algorithm a public-key algorithm signs with. *)
Definition client_signature_algorithm (algo : bytes) : bytes :=
  match cert_name_to_plain algo with
  | Some plain => plain
  | None => default algo (strip_suffix (bs "-cert-v01@openssh.com") algo)
  end.

Definition lists (l : list bytes) (n : bytes) : bool := List.existsb (bytes_eqb n) l.

Section Client.
Context {T : Type} `{!HostKeyTrait T}.
Implicit Types c : ClientAuth T.

Definition client_auth_new (user session_id : bytes) : ClientAuth T := {|
  ca_user := user; ca_service := bs "ssh-connection"; ca_session_id := session_id; credentials := []; current := None;
  server_continuations := []; last_partial_success := false; password_retry := false; cstate := Initial;
  server_sig_algs := None; pubkey_accepted := None; hostbound := None; signatures := 0 |}.

Definition set_hostbound (host_key : option bytes) c : ClientAuth T := c <| hostbound := host_key |>.
Definition add_credential (cred : ClientCredential T) c : ClientAuth T := c <| credentials := credentials c ++ [cred] |>.
Definition set_server_sig_algs (csv : bytes) c : ClientAuth T :=
  c <| server_sig_algs := Some (List.filter (λ s, negb (is_nil s)) (str_trim <$> split_on comma csv)) |>.
Definition set_pubkey_accepted (algs : list bytes) c : ClientAuth T := c <| pubkey_accepted := Some algs |>.

Definition client_auth_start c : bytes * ClientAuth T :=
  (service_request_encode (bs "ssh-userauth"), c <| cstate := AwaitingServiceAccept |>).

(** ** Choosing a credential *)

Definition is_cert_algo (a : bytes) : bool := ends_with (bs "-cert-v01@openssh.com") a.

(** The local [PubkeyAcceptedAlgorithms]; [None] skips the credential. *)
Definition local_policy (cred : ClientCredential T) c : option (ClientCredential T) :=
  match cred, pubkey_accepted c with
  | CPublicKey hk, Some allowed =>
      let algo := key_algorithm hk in
      if lists allowed algo then Some (CPublicKey hk)
      else
        let csv := join_names (List.filter (λ a, Bool.eqb (is_cert_algo a) (is_cert_algo algo)) allowed) in
        CPublicKey <$> key_upgraded_for hk csv
  | other, _ => Some other
  end.

(** A server that sent no [server-sig-algs] may know [ssh-rsa] only. *)
Definition old_server (cred : ClientCredential T) c : ClientCredential T :=
  match cred with
  | CPublicKey hk =>
      if match server_sig_algs c with None => true | Some _ => false end
         && starts_with (bs "rsa-sha2-") (key_algorithm hk)
         && match pubkey_accepted c with Some a => lists a (bs "ssh-rsa") | None => false end
      then match key_upgraded_for hk (bs "ssh-rsa") with Some sha1 => CPublicKey sha1 | None => CPublicKey hk end
      else CPublicKey hk
  | other => other
  end.

(** RFC 8308: what the server verifies; [None] skips the credential. *)
Definition server_policy (cred : ClientCredential T) c : option (ClientCredential T) :=
  match cred, server_sig_algs c with
  | CPublicKey hk, Some allowed =>
      if lists allowed (client_signature_algorithm (key_algorithm hk)) then Some (CPublicKey hk)
      else CPublicKey <$> key_upgraded_for hk (join_names allowed)
  | other, _ => Some other
  end.

Definition choose (cred : ClientCredential T) c : option (ClientCredential T) :=
  if negb (is_nil (server_continuations c)) && negb (lists (server_continuations c) (cred_method_name cred)) then None
  else local_policy cred c ≫= λ cred, server_policy (old_server cred c) c.

(** ** Requests *)

Definition request (m : AuthMethodPayload) c : bytes :=
  userauth_request_encode {| ua_user := ca_user c; ua_service := ca_service c; ua_method := m |}.

(** [next] is the call of [advance_to_next_credential]. *)
Definition emit_current_request (next : ClientAuth T → result ClientStep * ClientAuth T) c
    : result ClientStep * ClientAuth T :=
  match current c with
  | Some (CPasswordPrompt asked prompt) =>
      let asked := asked ++ [password_retry c] in
      let c := c <| current := Some (CPasswordPrompt asked prompt) |> in
      match prompt asked with
      | Some secret => (Ok (CSend (request (MPassword None secret) c)), c <| cstate := AwaitingPasswordResult |>)
      | None => next (c <| current := None |> <| password_retry := false |>)
      end
  | None => (Err (Protocol "auth: no current credential"), c)
  | Some CNone => (Ok (CSend (request MNone c)), c <| cstate := AwaitingNoneResult |>)
  | Some (CPassword pw) => (Ok (CSend (request (MPassword None pw) c)), c <| cstate := AwaitingPasswordResult |>)
  | Some (CPublicKey hk) =>
      (Ok (CSend (request (MPublicKey false (key_algorithm hk) (key_public_blob hk) None None) c)),
       c <| cstate := AwaitingPkOk |>)
  | Some (CKeyboardInteractive asked _ submethods) =>
      (Ok (CSend (request (MKeyboardInteractive [] (submethods asked)) c)), c <| cstate := AwaitingKbdintResult |>)
  end.

Fixpoint advance_loop (creds : list (ClientCredential T)) c : result ClientStep * ClientAuth T :=
  match creds with
  | [] =>
      (Ok (CFailed (server_continuations c) (last_partial_success c)),
       c <| credentials := [] |> <| cstate := ClientDone |> <| server_continuations := [] |>)
  | cred :: rest =>
      let c := c <| credentials := rest |> in
      match choose cred c with
      | None => advance_loop rest c
      | Some cred => emit_current_request (advance_loop rest) (c <| current := Some cred |>)
      end
  end.

Definition advance_to_next_credential c : result ClientStep * ClientAuth T := advance_loop (credentials c) c.

(** ** Answers *)

Definition client_success c : result ClientStep * ClientAuth T :=
  (Ok CSuccess, c <| cstate := ClientDone |> <| current := None |>).

Definition on_auth_result (payload : bytes) (msg_type : Z) c : result ClientStep * ClientAuth T :=
  if msg_type =? SSH_MSG_USERAUTH_SUCCESS then
    let! _ := decode_success payload at c in client_success c
  else if msg_type =? SSH_MSG_USERAUTH_FAILURE then
    let! failure := userauth_failure_decode payload at c in
    let c := c <| server_continuations := uf_continuations failure |>
               <| last_partial_success := uf_partial_success failure |> in
    let c :=
      match current c with
      | Some (CPasswordPrompt asked prompt) =>
          if negb (uf_partial_success failure) && lists (server_continuations c) (bs "password")
          then c <| current := None |> <| credentials := CPasswordPrompt asked prompt :: credentials c |>
                 <| password_retry := true |>
          else c <| current := None |> <| password_retry := false |>
      | _ => c <| current := None |> <| password_retry := false |>
      end in
    advance_to_next_credential c
  else (Err (Protocol "auth: unexpected packet for auth result"), c).

Definition send_pk_signed (pk_ok : UserauthPkOk) c : result ClientStep * ClientAuth T :=
  match current c with
  | None => (Err (Protocol "auth: pk-ok without current credential"), c)
  | Some (CPublicKey hk) =>
      if negb (bytes_eqb (key_algorithm hk) (pk_algorithm pk_ok)) then (Err (Protocol "auth: pk-ok algorithm mismatch"), c)
      else if negb (bytes_eqb (key_public_blob hk) (pk_public_blob pk_ok))
      then (Err (Protocol "auth: pk-ok public-key mismatch"), c)
      else
        let signed := publickey_signed_data_bound (ca_session_id c) (ca_user c) (ca_service c) (key_algorithm hk)
                        (key_public_blob hk) (hostbound c) in
        let answer := key_sign (signatures c) hk signed in
        let c := c <| signatures := S (signatures c) |> in
        match answer with
        | Ok signature =>
            (Ok (CSend (request (MPublicKey true (key_algorithm hk) (key_public_blob hk) (Some signature) (hostbound c)) c)),
             c <| cstate := AwaitingPkResult |>)
        | Err (Crypto _) => advance_to_next_credential c
        | Err e => (Err e, c)
        end
  | Some _ => (Err (Protocol "auth: pk-ok for non-publickey credential"), c)
  end.

Definition on_pk_probe_reply (payload : bytes) (msg_type : Z) c : result ClientStep * ClientAuth T :=
  if msg_type =? SSH_MSG_USERAUTH_PK_OK then
    let! pk_ok := userauth_pk_ok_decode payload at c in send_pk_signed pk_ok c
  else if msg_type =? SSH_MSG_USERAUTH_FAILURE then on_auth_result payload msg_type c
  else if msg_type =? SSH_MSG_USERAUTH_SUCCESS then client_success c
  else (Err (Protocol "auth: unexpected packet after publickey probe"), c).

Definition on_kbdint_reply (payload : bytes) (msg_type : Z) c : result ClientStep * ClientAuth T :=
  if msg_type =? SSH_MSG_USERAUTH_SUCCESS then
    let! _ := decode_success payload at c in client_success c
  else if msg_type =? SSH_MSG_USERAUTH_FAILURE then
    let! failure := userauth_failure_decode payload at c in
    advance_to_next_credential
      (c <| server_continuations := uf_continuations failure |> <| last_partial_success := uf_partial_success failure |>
         <| current := None |>)
  else if msg_type =? 60 then
    let! info := userauth_info_request_decode payload at c in
    match current c with
    | None => (Err (Protocol "auth: kbdint without current credential"), c)
    | Some (CKeyboardInteractive asked respond submethods) =>
        let asked := asked ++ [(ir_name info, ir_instruction info, ir_prompts info)] in
        let c := c <| current := Some (CKeyboardInteractive asked respond submethods) |> in
        let responses := respond asked in
        if negb (len responses =? len (ir_prompts info)) then (Err (Protocol "auth: wrong number of kbdint responses"), c)
        else (Ok (CSend (userauth_info_response_encode responses)), c)
    | Some _ => (Err (Protocol "auth: kbdint reply on wrong credential"), c)
    end
  else (Err (Protocol "auth: unexpected packet in kbdint"), c).

Definition client_on_packet (payload : bytes) c : result ClientStep * ClientAuth T :=
  match payload with
  | [] => (Err (Format "auth: empty payload"), c)
  | t :: _ =>
      let msg_type := u8 t in
      if msg_type =? SSH_MSG_USERAUTH_BANNER then
        let! banner := userauth_banner_decode payload at c in (Ok (CBanner (ub_message banner) (ub_language banner)), c)
      else
      match cstate c with
      | Initial => (Err (Protocol "auth: client not started"), c)
      | AwaitingServiceAccept =>
          if negb (msg_type =? SSH_MSG_SERVICE_ACCEPT) then (Err (Protocol "auth: expected SERVICE_ACCEPT"), c) else
          let! service := service_accept_decode payload at c in
          if negb (bytes_eqb service (bs "ssh-userauth")) then (Err (Protocol "auth: wrong service accepted"), c)
          else advance_to_next_credential c
      | AwaitingPkOk => on_pk_probe_reply payload msg_type c
      | AwaitingPkResult => on_auth_result payload msg_type c
      | AwaitingPasswordResult =>
          if msg_type =? SSH_MSG_USERAUTH_PASSWD_CHANGEREQ
          then (Err (Protocol "server requires password change; not supported"), c)
          else on_auth_result payload msg_type c
      | AwaitingNoneResult => on_auth_result payload msg_type c
      | AwaitingKbdintResult => on_kbdint_reply payload msg_type c
      | ClientDone => (Ok CIdle, c)
      end
  end.
End Client.
