(* ===== verification/AuthSession.v ===== *)
(** * A client authenticates over its connection (src/client.rs)

    [run_auth] drives a [ClientAuth] with the packets of the connection, and
    [authenticate] builds one.  Over a host key that changed and was let
    through, neither sends a password or a keyboard-interactive answer.  The
    connection is what it answers: the [n]-th read, the [n]-th write, and the
    server's signature algorithms known after [n] reads. *)
From S2P Require Import Prelude Wire Text KexInit Cert SignKey AuthMsg AuthClient.

Record AuthIo := {
  io_read : nat → result bytes;
  io_write : nat → result unit;
  io_sig_algs : nat → option bytes
}.

Definition MAX_AUTH_STEPS : nat := 64.
Definition HOST_KEY_MISMATCH_DISABLED : string :=
  "password/keyboard-interactive authentication and agent/X11/port forwarding are disabled because the host key changed and StrictHostKeyChecking=no accepted it (man-in-the-middle protection)".

(** An outbound packet that must not go out over a changed host key. *)
Definition auth_packet_blocked_after_mismatch (payload : bytes) : bool :=
  match payload with
  | [] => false
  | b :: rest =>
      if u8 b =? SSH_MSG_USERAUTH_INFO_RESPONSE then true
      else if u8 b =? SSH_MSG_USERAUTH_REQUEST then
        let method :=
          let? (_, r) := read_string (reader_new rest) in
          let? (_, r) := read_string r in
          let? (m, _) := read_string r in Ok m in
        match method with
        | Ok m => bytes_eqb m (bs "password") || bytes_eqb m (bs "keyboard-interactive")
        | Err _ => false
        end
      else false
  end.

Section Session.
Context {T : Type} `{!HostKeyTrait T}.

Definition secret_credential (c : ClientCredential T) : bool :=
  match c with CPassword _ | CPasswordPrompt _ _ | CKeyboardInteractive _ _ _ => true | _ => false end.
Definition is_none_credential (c : ClientCredential T) : bool := match c with CNone => true | _ => false end.

Definition filter_credentials_after_mismatch (credentials : list (ClientCredential T))
    : result (list (ClientCredential T)) :=
  let kept := List.filter (λ c, negb (secret_credential c)) credentials in
  if List.forallb is_none_credential kept then Err (Config HOST_KEY_MISMATCH_DISABLED) else Ok kept.

(** What a run leaves behind. *)
Record AuthRun := {
  ar_auth : ClientAuth T;
  ar_sent : list bytes;
  ar_banners : list bytes;
  ar_methods_left : list bytes;
  ar_notified : bool
}.
#[export] Instance AuthRun_eta : Etable AuthRun := fun s => {|
  ar_auth := ar_auth s; ar_sent := ar_sent s; ar_banners := ar_banners s; ar_methods_left := ar_methods_left s;
  ar_notified := ar_notified s |}.

(** [self.write_payload(&p)?] *)
Definition ar_write (io : AuthIo) (p : bytes) (s : AuthRun) : result unit * AuthRun :=
  (io_write io (length (ar_sent s)), s <| ar_sent := ar_sent s ++ [p] |>).

(** The [for] loop; [steps] rounds are left, [n] packets have been read. *)
Fixpoint run_auth_loop (io : AuthIo) (mismatched : bool) (steps n : nat) (known_sig_algs : option bytes) (s : AuthRun)
    : result unit * AuthRun :=
  match steps with
  | O => (Err (Protocol "auth: too many steps without termination"), s)
  | S steps =>
      let! payload := io_read io n at s in
      let now_sig_algs := io_sig_algs io (S n) in
      let s := if bool_decide (now_sig_algs = known_sig_algs) then s
               else match now_sig_algs with
                    | Some algs => s <| ar_auth := set_server_sig_algs algs (ar_auth s) |>
                    | None => s
                    end in
      let (step, auth) := client_on_packet payload (ar_auth s) in
      let s := s <| ar_auth := auth |> in
      let! step := step at s in
      match step with
      | CSend p =>
          if mismatched && auth_packet_blocked_after_mismatch p
          then (Err (Config HOST_KEY_MISMATCH_DISABLED), s) else
          let (res, s) := ar_write io p s in
          let! _ := res at s in
          run_auth_loop io mismatched steps (S n) now_sig_algs s
      | CSuccess => (Ok tt, s <| ar_notified := true |>)
      | CFailed continuations _ => (Err AuthFailed, s <| ar_methods_left := continuations |>)
      | CBanner message _ => run_auth_loop io mismatched steps (S n) now_sig_algs (s <| ar_banners := ar_banners s ++ [message] |>)
      | CIdle => run_auth_loop io mismatched steps (S n) now_sig_algs s
      end
  end.

(** [hostbound] is the host key of the session binding when the server takes
    host-bound signatures. *)
Definition run_auth (io : AuthIo) (mismatched : bool) (host_bound : option bytes) (auth : ClientAuth T)
    : result unit * AuthRun :=
  let auth := match host_bound with Some k => set_hostbound (Some k) auth | None => auth end in
  let (first, auth) := client_auth_start auth in
  let s := {| ar_auth := auth; ar_sent := []; ar_banners := []; ar_methods_left := []; ar_notified := false |} in
  let (res, s) := ar_write io first s in
  let! _ := res at s in
  run_auth_loop io mismatched MAX_AUTH_STEPS 0 (io_sig_algs io 0) s.

Definition authenticate (io : AuthIo) (mismatched : bool) (host_bound : option bytes) (session_id user : bytes)
    (pubkey_accepted : option (list bytes)) (credentials : list (ClientCredential T)) : result unit * option AuthRun :=
  let! credentials := (if mismatched then filter_credentials_after_mismatch credentials else Ok credentials) at None in
  let auth := client_auth_new user session_id in
  let auth := match pubkey_accepted with Some accepted => set_pubkey_accepted accepted auth | None => auth end in
  let auth := match io_sig_algs io 0 with Some algs => set_server_sig_algs algs auth | None => auth end in
  let auth := fold_left (λ a c, add_credential c a) credentials auth in
  let (res, s) := run_auth io mismatched host_bound auth in (res, Some s).
End Session.

(** ** What goes out over a changed host key *)

(** A cursor that has consumed less sees the same. *)
Lemma read_take_shift n a pre post x r :
  0 ≤ n → read_take n (reader_at (a ++ pre) post) = Ok (x, r) →
  ∃ post', r = reader_at (a ++ pre ++ x) post' ∧ read_take n (reader_at pre post) = Ok (x, reader_at (pre ++ x) post').
Proof.
  intros Hn E. apply read_take_inv in E as E'; [|done]. destruct E' as (post' & -> & Hl & ->). exists post'.
  split; [by rewrite <- app_assoc|]. unfold read_take, reader_at in *. cbn [r_pos r_buf] in *.
  destruct (Z.ltb_spec U64_MAX (len (a ++ pre) + n)) as [|H1]; [done|]. autorewrite with lens in H1.
  pose proof (len_nonneg a). pose proof (len_nonneg post').
  rewrite (proj2 (Z.ltb_ge _ _)) by lia. rewrite (proj2 (Z.ltb_ge _ _)) by (autorewrite with lens; lia).
  subst n. rewrite slice_at. unfold set_field; cbn [r_pos r_buf]. by rewrite <- app_assoc, len_app.
Qed.

Lemma read_string_shift a pre post x r :
  read_string (reader_at (a ++ pre) post) = Ok (x, r) →
  ∃ pre' post', r = reader_at (a ++ pre') post' ∧ read_string (reader_at pre post) = Ok (x, reader_at pre' post').
Proof.
  unfold read_string, read_u32. destruct (read_take 4 _) as [[b r1]|] eqn:E1; [|done].
  apply read_take_shift in E1 as (post1 & -> & ->); [|lia]. intros E2.
  apply read_take_shift in E2 as (post2 & -> & ->); [|pose proof (be_value_range b); lia]. by do 2 eexists.
Qed.

Lemma read_utf8_string r s r' : read_utf8 r = Ok (s, r') → read_string r = Ok (s, r').
Proof.
  unfold read_utf8, read_bytes_capped, read_string. destruct (read_u32 r) as [[n r1]|]; [|done].
  destruct (_ <? _); [done|]. destruct (read_take n r1) as [[b r2]|]; [|done]. unfold from_utf8.
  destruct (utf8_valid b); [|done]. done.
Qed.

(** The method a server reads in a request is the one the test reads. *)
Definition carries_secret (p : bytes) : bool :=
  is_ok (userauth_info_response_decode p) ||
  match userauth_request_decode p with
  | Ok q => match ua_method q with MPassword _ _ | MKeyboardInteractive _ _ => true | _ => false end
  | Err _ => false
  end.

Lemma decode_method_secret name r m :
  decode_method name r = Ok m → match m with MPassword _ _ | MKeyboardInteractive _ _ => True | _ => False end →
  bytes_eqb name (bs "password") || bytes_eqb name (bs "keyboard-interactive") = true.
Proof.
  unfold decode_method. intros E Hm.
  destruct (bytes_eqb name (bs "none")). { destruct (ensure_empty r); [|done]. by injection E as <-. }
  destruct (bytes_eqb name (bs "password")); [done|]. destruct (_ || _ : bool).
  { repeat (match type of E with match ?x with _ => _ end = _ => destruct x end; try discriminate E). by injection E as <-. }
  destruct (bytes_eqb name (bs "keyboard-interactive")); [done|].
  destruct (read_take _ _) as [[tail r1]|]; [|done]. by injection E as <-.
Qed.

Lemma secret_blocked p : carries_secret p = true → auth_packet_blocked_after_mismatch p = true.
Proof.
  unfold carries_secret, userauth_info_response_decode, userauth_request_decode, expect_type. rewrite reader_new_at.
  destruct (read_u8 (reader_at [] p)) as [[t r]|] eqn:E; [|done].
  apply read_u8_inv in E as (rest & -> & Ht & ->). cbn [auth_packet_blocked_after_mismatch app].
  rewrite u8_byte_of_Z, Z.mod_small by width_lia. destruct (t =? SSH_MSG_USERAUTH_INFO_RESPONSE) eqn:E1; [done|]. cbn [negb is_ok orb].
  destruct (t =? SSH_MSG_USERAUTH_REQUEST); cbn [negb]; [|done]. rewrite reader_new_at.
  change [byte_of_Z t] with ([byte_of_Z t] ++ []).
  destruct (read_utf8 _) as [[user r1]|] eqn:R1; [|done].
  apply read_utf8_string, read_string_shift in R1 as (pre1 & post1 & -> & ->).
  destruct (read_utf8 _) as [[service r2]|] eqn:R2; [|done].
  apply read_utf8_string, read_string_shift in R2 as (pre2 & post2 & -> & ->).
  destruct (read_utf8 _) as [[name r3]|] eqn:R3; [|done].
  apply read_utf8_string, read_string_shift in R3 as (pre3 & post3 & -> & ->).
  destruct (decode_method _ _) as [m|] eqn:Em; [|done]. intros Hm. eapply decode_method_secret; [exact Em|].
  by destruct m.
Qed.

Section Sent.
Context {T : Type} `{!HostKeyTrait T}.
Implicit Types s : @AuthRun T.

Definition clean s : Prop := Forall (λ p, carries_secret p = false) (ar_sent s).

Lemma ar_write_clean io p s : clean s → carries_secret p = false → clean (ar_write io p s).2.
Proof. intros Hs Hp. apply Forall_app. by split; [|apply Forall_singleton]. Qed.

Lemma run_auth_loop_clean io steps n known s : clean s → clean (run_auth_loop io true steps n known s).2.
Proof.
  revert n known s. induction steps as [|steps IH]; intros n known s Hs; cbn [run_auth_loop]; [done|].
  destruct (io_read io n) as [payload|]; [|done].
  match goal with |- context [client_on_packet payload (ar_auth ?x)] => set (s1 := x) end.
  assert (H1 : clean s1) by (unfold s1; destruct (bool_decide _); [done|]; by destruct (io_sig_algs io (S n))).
  clearbody s1. destruct (client_on_packet payload _) as [step auth].
  assert (H2 : clean (s1 <| ar_auth := auth |>)) by done. revert H2. generalize (s1 <| ar_auth := auth |>). intros s2 H2.
  destruct step as [[p| |conts ps|m l|]|]; try done; [|by apply IH..].
  destruct (auth_packet_blocked_after_mismatch p) eqn:Eb; cbn [andb]; [done|].
  assert (Hp : carries_secret p = false).
  { destruct (carries_secret p) eqn:Ec; [|done]. apply secret_blocked in Ec. congruence. }
  pose proof (ar_write_clean io p s2 H2 Hp). destruct (ar_write io p s2) as [[[]|] s3]; [|done]. by apply IH.
Qed.

Lemma run_auth_clean io hb auth : clean (run_auth io true hb auth).2.
Proof.
  unfold run_auth. destruct (client_auth_start _) as [first auth'] eqn:E. injection E as <- _.
  match goal with |- context [ar_write io ?p ?s] => pose proof (ar_write_clean io p s) as Hw;
    assert (H1 : clean (ar_write io p s).2) by (apply Hw; [by apply Forall_nil_2|by vm_compute]);
    destruct (ar_write io p s) as [[[]|] s3] end; [|done].
  by apply run_auth_loop_clean.
Qed.
End Sent.

(** C26: nobody learns a password from a connection whose host key changed.
    When the mark is set that a changed key was let through, then whatever
    [ClientAuth] the caller built, whatever the server sends and however the
    connection fails, no packet that [run_auth] writes is one a server reads as
    a password request, a keyboard-interactive request or an answer to its
    questions; and the same holds of [authenticate] with any credentials. *)
Theorem no_secret_after_mismatch {T} `{!HostKeyTrait T} io host_bound (auth : ClientAuth T) session_id user accepted creds :
  Forall (λ p, carries_secret p = false) (ar_sent (run_auth io true host_bound auth).2) ∧
  match (authenticate io true host_bound session_id user accepted creds).2 with
  | Some run => Forall (λ p, carries_secret p = false) (ar_sent run)
  | None => True
  end.
Proof.
  split; [apply run_auth_clean|]. unfold authenticate.
  destruct (filter_credentials_after_mismatch creds) as [kept|]; [|done].
  match goal with |- context [run_auth io true host_bound ?a] =>
    pose proof (run_auth_clean io host_bound a) as H1; by destruct (run_auth io true host_bound a) end.
Qed.
