(* ===== verification/AuthClientFacts.v ===== *)
(** * What the client sends

    Every packet of the client is a request for its own user and session by a
    method the server still offers, and the number of requests is bounded. *)
From S2P Require Import Prelude Wire Text KexInit HostKey Cert CertFacts SignKey AuthMsg AuthMsgFacts AuthClient.

(** ** Requests and their reasons *)

Section Sends.
Context {T : Type} `{!HostKeyTrait T}.
Implicit Types c : ClientAuth T.

(** The request a credential opens with. *)
Definition opening (cred : ClientCredential T) : option AuthMethodPayload :=
  match cred with
  | CNone => Some MNone
  | CPassword pw => Some (MPassword None pw)
  | CPasswordPrompt asked prompt => MPassword None <$> prompt asked
  | CPublicKey k => Some (MPublicKey false (key_algorithm k) (key_public_blob k) None None)
  | CKeyboardInteractive asked _ submethods => Some (MKeyboardInteractive [] (submethods asked))
  end.

(** What the client's identity is; no packet changes it. *)
Definition same_login c c' : Prop :=
  ca_user c' = ca_user c ∧ ca_service c' = ca_service c ∧ ca_session_id c' = ca_session_id c ∧
  hostbound c' = hostbound c ∧ pubkey_accepted c' = pubkey_accepted c ∧ server_sig_algs c' = server_sig_algs c.

#[local] Instance same_login_preorder : PreOrder same_login.
Proof. split; [by intros c|]. intros c c' c'' (? & ? & ? & ? & ? & ?) (? & ? & ? & ? & ? & ?). split_and!; congruence. Qed.

(** Why a packet was sent. *)
Inductive sent c' (m : bytes) : Prop :=
  (** the first request of a credential whose method the server offers *)
  | sent_opening cred p :
      current c' = Some cred → opening cred = Some p → m = request p c' →
      (server_continuations c' = [] ∨ cred_method_name cred ∈ server_continuations c') → sent c' m
  (** the signed request of the key the server said it would take *)
  | sent_signed k i sig :
      current c' = Some (CPublicKey k) → cstate c' = AwaitingPkResult →
      key_sign i k (publickey_signed_data_bound (ca_session_id c') (ca_user c') (ca_service c') (key_algorithm k)
        (key_public_blob k) (hostbound c')) = Ok sig →
      m = request (MPublicKey true (key_algorithm k) (key_public_blob k) (Some sig) (hostbound c')) c' → sent c' m
  (** one answer for each prompt *)
  | sent_answers asked respond submethods n instr prompts :
      current c' = Some (CKeyboardInteractive (asked ++ [(n, instr, prompts)]) respond submethods) →
      m = userauth_info_response_encode (respond (asked ++ [(n, instr, prompts)])) →
      length (respond (asked ++ [(n, instr, prompts)])) = length prompts → sent c' m.

Definition accounted c (r : result ClientStep * ClientAuth T) : Prop :=
  same_login c r.2 ∧ ∀ m, r.1 = Ok (CSend m) → sent r.2 m.

Lemma accounted_quiet c c' o :
  same_login c c' → (∀ m, o ≠ Ok (CSend m)) → accounted c (o, c').
Proof. intros H1 H2. split; [done|]. intros m E. by apply H2 in E. Qed.

Lemma accounted_from c c' r : same_login c c' → accounted c' r → accounted c r.
Proof. intros H [H1 H2]. split; [by transitivity c'|done]. Qed.

(** Choosing a variant of a key keeps the method. *)
Lemma choose_method cred cred' c :
  choose cred c = Some cred' →
  cred_method_name cred' = cred_method_name cred ∧
  (server_continuations c = [] ∨ cred_method_name cred' ∈ server_continuations c).
Proof.
  unfold choose. destruct (negb (is_nil _) && _) eqn:Eg; [done|]. intros H.
  assert (cred_method_name cred' = cred_method_name cred) as Em.
  { destruct (local_policy cred c) as [l|] eqn:El; cbn [mbind option_bind] in H; [|done].
    destruct cred as [| | |key|]; try (cbn [local_policy] in El; injection El as <-; cbn in H; by injection H as <-).
    assert (∃ k, l = CPublicKey k) as [k ->].
    { unfold local_policy in El. repeat case_match; try (injection El as <-; by eexists).
      destruct (key_upgraded_for _ _); cbn in El; [injection El as <-; by eexists|done]. }
    unfold old_server, server_policy in H.
    repeat case_match; simplify_eq/=; try done; match goal with E : _ <$> _ = Some _ |- _ => apply fmap_Some in E as (? & _ & ->) end; done. }
  split; [done|]. rewrite Em. destruct (server_continuations c) as [|x l]; [by left|]. right.
  cbn [is_nil negb andb] in Eg. apply negb_false_iff in Eg. by apply list_existsb_in.
Qed.

Lemma emit_accounted next c cred :
  current c = Some cred → (server_continuations c = [] ∨ cred_method_name cred ∈ server_continuations c) →
  (∀ c', same_login c c' → accounted c' (next c')) → accounted c (emit_current_request next c).
Proof.
  intros Ec Hm Hn. unfold emit_current_request. rewrite Ec.
  destruct cred as [|pw|asked prompt|k|asked respond sub].
  1,2,4,5: split; [by split_and!|]; intros m [= <-]; by eapply sent_opening.
  destruct (prompt (asked ++ [password_retry c])) as [secret|] eqn:Ep.
  - split; [by split_and!|]. intros m [= <-]. eapply sent_opening; [done|cbn [opening]; by rewrite Ep|done|done].
  - eapply accounted_from; [|apply Hn]; by split_and!.
Qed.

Lemma advance_accounted creds c : accounted c (advance_loop creds c).
Proof.
  revert c. induction creds as [|cred rest IH]; intros c; cbn [advance_loop]; [by apply accounted_quiet; [split_and!|]|].
  destruct (choose cred _) as [cred'|] eqn:Ech.
  - apply choose_method in Ech as [_ Hm]. eapply accounted_from; [|eapply emit_accounted; [done|exact Hm|by intros]].
    by split_and!.
  - eapply accounted_from; [|apply IH]. by split_and!.
Qed.

Lemma auth_result_accounted payload t c : accounted c (on_auth_result payload t c).
Proof.
  unfold on_auth_result. destruct (t =? SSH_MSG_USERAUTH_SUCCESS).
  { destruct (decode_success payload); by apply accounted_quiet; [split_and!|]. }
  destruct (t =? SSH_MSG_USERAUTH_FAILURE); [|by apply accounted_quiet; [split_and!|]].
  destruct (userauth_failure_decode payload) as [f|]; [|by apply accounted_quiet; [split_and!|]].
  eapply accounted_from; [|apply advance_accounted]. cbv zeta. repeat case_match; by split_and!.
Qed.

Lemma pk_signed_accounted pk c : accounted c (send_pk_signed pk c).
Proof.
  unfold send_pk_signed. destruct (current c) as [[| | |k|]|] eqn:Ec; try by apply accounted_quiet; [split_and!|].
  do 2 (case_match; [by apply accounted_quiet; [split_and!|]|]). cbv zeta.
  destruct (key_sign _ k _) as [sig|e] eqn:Es.
  - split; [by split_and!|]. intros m [= <-]. eapply sent_signed; [exact Ec|done|exact Es|done].
  - destruct e; first [by apply accounted_quiet; [split_and!|]|eapply accounted_from; [|apply advance_accounted]; by split_and!].
Qed.

Lemma kbdint_accounted payload t c : accounted c (on_kbdint_reply payload t c).
Proof.
  unfold on_kbdint_reply. destruct (t =? SSH_MSG_USERAUTH_SUCCESS).
  { destruct (decode_success payload); by apply accounted_quiet; [split_and!|]. }
  destruct (t =? SSH_MSG_USERAUTH_FAILURE).
  { destruct (userauth_failure_decode payload); [|by apply accounted_quiet; [split_and!|]].
    eapply accounted_from; [|apply advance_accounted]. by split_and!. }
  destruct (t =? 60); [|by apply accounted_quiet; [split_and!|]].
  destruct (userauth_info_request_decode payload) as [info|]; [|by apply accounted_quiet; [split_and!|]].
  destruct (current c) as [[| | | |asked respond sub]|]; try by apply accounted_quiet; [split_and!|].
  case_match eqn:El; [by apply accounted_quiet; [split_and!|]|]. apply negb_false_iff, Z.eqb_eq in El.
  split; [by split_and!|]. intros m [= <-]. eapply sent_answers; [done|done|]. by apply Nat2Z.inj in El.
Qed.

End Sends.

(** ** The number of requests *)

Section Bound.
Context {T : Type} `{!HostKeyTrait T}.
Implicit Types c : ClientAuth T.

(** A prompt answers at most [k] times; a keyboard-interactive exchange is as
    long as the server likes, so there is none. *)
Context (k : nat).
Definition patient (cred : ClientCredential T) : Prop :=
  match cred with
  | CPasswordPrompt _ prompt => ∀ h, (k < length h)%nat → prompt h = None
  | CKeyboardInteractive _ _ _ => False
  | _ => True
  end.

(** Requests a credential can still cause. *)
Definition cost (cred : ClientCredential T) : nat :=
  match cred with
  | CNone | CPassword _ => 1
  | CPasswordPrompt asked _ => k - length asked
  | CPublicKey _ => 2
  | CKeyboardInteractive _ _ _ => 0
  end.

Definition costs (creds : list (ClientCredential T)) : nat := list_sum (cost <$> creds).
#[local] Arguments costs : simpl never.

Lemma costs_cons cred creds : costs (cred :: creds) = (cost cred + costs creds)%nat.
Proof. done. Qed.

Definition pending c : nat :=
  match current c with
  | Some (CPasswordPrompt asked _) => k - length asked
  | Some (CPublicKey _) => match cstate c with AwaitingPkOk => 1 | _ => 0 end
  | _ => 0
  end.

Definition budget c : nat := costs (credentials c) + pending c.

Definition all_patient c : Prop :=
  Forall patient (credentials c) ∧ ∀ cred, current c = Some cred → patient cred.

Definition is_send (r : result ClientStep) : nat := match r with Ok (CSend _) => 1 | _ => 0 end.

(** Within [n] requests, this one included. *)
Definition spends (n : nat) (r : result ClientStep * ClientAuth T) : Prop :=
  all_patient r.2 ∧ (is_send r.1 + budget r.2 ≤ n)%nat.

Lemma choose_cost cred cred' c :
  choose cred c = Some cred' → cost cred' = cost cred ∧ (patient cred → patient cred') ∧
  match cred with CPublicKey _ => ∃ key, cred' = CPublicKey key | _ => cred' = cred end.
Proof.
  intros H. pose proof (choose_method _ _ _ H) as [Hm _]. unfold choose in H. case_match; [done|].
  destruct cred as [|pw|asked prompt|key|asked respond sub];
    try (cbn in H; injection H as <-; done).
  destruct cred'; cbn [cred_method_name] in Hm; try (by apply (f_equal (λ l, bytes_eqb l (bs "publickey"))) in Hm).
  split; [done|]. split; [done|by eexists].
Qed.

(** What a prompt that is current can still cause. *)
Definition left_over c : nat := match current c with Some (CPasswordPrompt asked _) => k - length asked | _ => 0 end.

Lemma left_over_pending c : (left_over c ≤ pending c)%nat.
Proof. unfold left_over, pending. destruct (current c) as [[]|]; lia. Qed.

Lemma emit_spends next c cred n :
  current c = Some cred → patient cred → Forall patient (credentials c) → n = costs (credentials c) →
  (∀ c', credentials c' = credentials c → current c' = None → spends n (next c')) →
  spends (cost cred + n) (emit_current_request next c).
Proof.
  intros Ec Hp Hf -> Hn. unfold emit_current_request. rewrite Ec.
  destruct cred as [|pw|asked prompt|key|asked respond sub]; [| | | |done].
  1,2,4: split; [split; [done|intros cr E; change (current c = Some cr) in E; rewrite Ec in E; by injection E as <-]|];
    unfold budget, pending, set_field; cbn; rewrite Ec; cbn; lia.
  cbn [patient] in Hp. destruct (prompt (asked ++ [password_retry c])) as [secret|] eqn:Ep.
  - assert (length asked < k)%nat.
    { destruct (decide (k < length (asked ++ [password_retry c]))%nat) as [Hk|Hk]; [by rewrite Hp in Ep|].
      rewrite length_app in Hk. cbn in Hk. lia. }
    split; [split; [done|intros ? [= <-]; exact Hp]|].
    unfold budget, pending, set_field; cbn. rewrite length_app. cbn. lia.
  - match goal with |- spends _ (next ?c') => assert (spends (costs (credentials c)) (next c')) as [H1 H2] by (by apply Hn) end.
    split; [done|lia].
Qed.

Lemma advance_spends creds c :
  Forall patient creds → (∀ cred, current c = Some cred → patient cred) →
  spends (costs creds + left_over c) (advance_loop creds c).
Proof.
  revert c. induction creds as [|cred rest IH]; intros c Hf Hc; cbn [advance_loop].
  - split; [by split|]. unfold budget, pending, left_over, set_field. cbn. destruct (current c) as [[]|]; cbn; lia.
  - apply Forall_cons_iff in Hf as [Hp Hf]. destruct (choose cred _) as [cred'|] eqn:Ech.
    + apply choose_cost in Ech as (Ek & Hp' & _).
      destruct (emit_spends (advance_loop rest) (c <| credentials := rest |> <| current := Some cred' |>) cred' (costs rest))
        as [H1 H2]; try done; [by apply Hp'| |].
      { intros c' E1 E2. destruct (IH c') as [H1 H2]; [done|by rewrite E2|]. unfold left_over in H2. rewrite E2 in H2.
        split; [done|lia]. }
      split; [done|]. rewrite costs_cons. lia.
    + destruct (IH (c <| credentials := rest |>)) as [H1 H2]; [done|done|]. split; [done|].
      change (left_over (c <| credentials := rest |>)) with (left_over c) in H2.
      rewrite costs_cons. lia.
Qed.

Lemma advance_within n c :
  all_patient c → (costs (credentials c) + left_over c ≤ n)%nat → spends n (advance_to_next_credential c).
Proof.
  intros [Hf Hc] Hn. destruct (advance_spends (credentials c) c Hf Hc) as [H1 H2].
  split; [done|]. unfold advance_to_next_credential. lia.
Qed.

Lemma quiet_spends c c' o :
  all_patient c → credentials c' = credentials c → (current c' = None ∨ current c' = current c ∧ cstate c' = cstate c) →
  is_send o = 0%nat → spends (budget c) (o, c').
Proof.
  intros [Hf Hc] E1 E2 E3. split.
  - split; cbn; [by rewrite E1|]. destruct E2 as [->|[-> _]]; [done|exact Hc].
  - cbn [fst snd]. rewrite E3. unfold budget, pending. rewrite E1. destruct E2 as [->|[-> ->]]; lia.
Qed.

Lemma auth_result_spends payload t c : all_patient c → spends (budget c) (on_auth_result payload t c).
Proof.
  intros Hp. unfold on_auth_result. destruct (t =? SSH_MSG_USERAUTH_SUCCESS).
  { destruct (decode_success payload); apply quiet_spends; auto. }
  destruct (t =? SSH_MSG_USERAUTH_FAILURE); [|apply quiet_spends; auto].
  destruct (userauth_failure_decode payload) as [f|]; [|apply quiet_spends; auto]. cbv zeta. destruct Hp as [Hf Hc].
  change (current (c <| server_continuations := _ |> <| last_partial_success := _ |>)) with (current c).
  pose proof (left_over_pending c) as Hl. unfold left_over in Hl. unfold budget.
  destruct (current c) as [[|pw|asked prompt|key|asked respond sub]|] eqn:Ec; try case_match;
    (apply advance_within; [split; [|done]|unfold left_over, set_field; cbn; rewrite ?costs_cons; cbn [cost]; lia]); try done.
  - by constructor; [apply Hc|].
Qed.

Lemma pk_probe_spends payload t c :
  cstate c = AwaitingPkOk → all_patient c → spends (budget c) (on_pk_probe_reply payload t c).
Proof.
  intros Es Hp. unfold on_pk_probe_reply. destruct (t =? SSH_MSG_USERAUTH_PK_OK).
  - destruct (userauth_pk_ok_decode payload) as [pk|]; [|apply quiet_spends; auto]. unfold send_pk_signed.
    destruct (current c) as [[| | |key|]|] eqn:Ec; try (apply quiet_spends; auto; fail).
    do 2 (case_match; [apply quiet_spends; auto|]). cbv zeta. destruct (key_sign _ key _) as [sig|e].
    + split; [exact Hp|]. unfold budget, pending, set_field; cbn. rewrite Ec, Es. lia.
    + destruct e; first [by apply quiet_spends; auto|apply advance_within; [exact Hp|]].
      unfold left_over, budget, set_field; cbn. rewrite Ec. lia.
  - destruct (t =? SSH_MSG_USERAUTH_FAILURE); [by apply auth_result_spends|].
    destruct (t =? SSH_MSG_USERAUTH_SUCCESS); apply quiet_spends; auto.
Qed.

Lemma kbdint_spends payload t c : all_patient c → spends (budget c) (on_kbdint_reply payload t c).
Proof.
  intros Hp. unfold on_kbdint_reply. destruct (t =? SSH_MSG_USERAUTH_SUCCESS).
  { destruct (decode_success payload); apply quiet_spends; auto. }
  destruct (t =? SSH_MSG_USERAUTH_FAILURE).
  { destruct (userauth_failure_decode payload); [|apply quiet_spends; auto].
    apply advance_within; [split; [apply Hp|done]|]. unfold left_over, budget, set_field; cbn. lia. }
  destruct (t =? 60); [|apply quiet_spends; auto].
  destruct (userauth_info_request_decode payload); [|apply quiet_spends; auto].
  destruct (current c) as [[| | | |asked respond sub]|] eqn:Ec; try (apply quiet_spends; auto; fail).
  by destruct (proj2 Hp _ Ec).
Qed.

Lemma packet_spends payload c : all_patient c → spends (budget c) (client_on_packet payload c).
Proof.
  intros Hp. unfold client_on_packet. destruct payload as [|t l]; [apply quiet_spends; auto|].
  destruct (u8 t =? SSH_MSG_USERAUTH_BANNER); [case_match; apply quiet_spends; auto|].
  destruct (cstate c) eqn:Es; try (apply quiet_spends; auto; fail).
  - do 3 (case_match; try (apply quiet_spends; auto; fail)). apply advance_within; [done|].
    pose proof (left_over_pending c). unfold budget. lia.
  - by apply pk_probe_spends.
  - by apply auth_result_spends.
  - case_match; [apply quiet_spends; auto|by apply auth_result_spends].
  - by apply auth_result_spends.
  - by apply kbdint_spends.
Qed.

(** The client on a sequence of packets from the server. *)
Fixpoint client_run (payloads : list bytes) c : list (result ClientStep) * ClientAuth T :=
  match payloads with
  | [] => ([], c)
  | p :: rest =>
      let '(step, c) := client_on_packet p c in
      let '(steps, c) := client_run rest c in (step :: steps, c)
  end.

Lemma run_spends payloads c :
  all_patient c → (list_sum (is_send <$> (client_run payloads c).1) ≤ budget c)%nat.
Proof.
  revert c. induction payloads as [|p rest IH]; intros c Hp; cbn [client_run]; [cbn; lia|].
  destruct (packet_spends p c Hp) as [Hp' Hs]. destruct (client_on_packet p c) as [step c1]. cbn [fst snd] in Hp', Hs.
  specialize (IH c1 Hp'). destruct (client_run rest c1) as [steps c2]. cbn [fst fmap list_fmap] in *.
  change (list_sum (is_send step :: (is_send <$> steps))) with (is_send step + list_sum (is_send <$> steps))%nat.
  cbn [fmap] in *. lia.
Qed.

(** C35: a server cannot keep a client busy.  However long the server talks,
    a client with no keyboard-interactive responder sends at most one request
    for each password and [none], two for each key, and [k] for a prompt that
    answers at most [k] times. *)
Theorem client_requests_bounded payloads c :
  Forall patient (credentials c) → current c = None →
  (list_sum (is_send <$> (client_run payloads c).1) ≤ list_sum (cost <$> credentials c))%nat.
Proof.
  intros Hf Hc. pose proof (run_spends payloads c) as H. unfold budget, pending in H. rewrite Hc, Nat.add_0_r in H.
  apply H. split; [done|by rewrite Hc].
Qed.
End Bound.
