(* ===== verification/AuthLogin.v ===== *)
(** * A client and a server authenticate

    The two state machines of [AuthClient] and [AuthServer] exchanging their
    packets: a public-key login completes, and the server reports the user,
    restrictions and key the client logged in with.  Also where the client's
    local algorithm policy does not bind. *)
From S2P Require Import Prelude Wire Text Packet KexInit Crypto KexMethods HostKey Cert CertFacts SignKey AuthMsg.
From S2P Require Import AuthMsgFacts AuthServer AuthClient.

Section Converse.
Context {C : PureCrypto} {S : SigPrims} (allow_rsa_sha1 : bool) {T A : Type} `{!HostKeyTrait T} `{!Authenticator A}.

(** [msg] is on its way to the server; each round is a packet each way. *)
Fixpoint converse (rounds : nat) (msg : bytes) (c : ClientAuth T) (s : ServerAuth A)
    : option (ServerStep * ClientStep * ClientAuth T * ServerAuth A) :=
  match rounds with
  | O => None
  | Datatypes.S rounds =>
      match on_packet allow_rsa_sha1 msg s with
      | (Ok (SSend p), s) =>
          match client_on_packet p c with
          | (Ok (CSend m), c) => converse rounds m c s
          | (Ok step, c) => Some (SSend p, step, c, s)
          | (Err _, _) => None
          end
      | (Ok (SAuthenticated p user caps info), s) =>
          match client_on_packet p c with
          | (Ok step, c) => Some (SAuthenticated p user caps info, step, c, s)
          | (Err _, _) => None
          end
      | _ => None
      end
  end.

Definition login (rounds : nat) (c : ClientAuth T) (s : ServerAuth A) :
    option (ServerStep * ClientStep * ClientAuth T * ServerAuth A) :=
  let '(m, c) := client_auth_start c in converse rounds m c s.

Lemma converse_send rounds msg p m c c' s s' :
  on_packet allow_rsa_sha1 msg s = (Ok (SSend p), s') → client_on_packet p c = (Ok (CSend m), c') →
  converse (Datatypes.S rounds) msg c s = converse rounds m c' s'.
Proof. intros Hs Hc. cbn [converse]. by rewrite Hs, Hc. Qed.

Lemma converse_end rounds msg p user caps info step c c' s s' :
  on_packet allow_rsa_sha1 msg s = (Ok (SAuthenticated p user caps info), s') → client_on_packet p c = (Ok step, c') →
  converse (Datatypes.S rounds) msg c s = Some (SAuthenticated p user caps info, step, c', s').
Proof. intros Hs Hc. cbn [converse]. by rewrite Hs, Hc. Qed.

(** ** The server's answers *)

Lemma server_service s :
  state s = AwaitingServiceRequest →
  on_packet allow_rsa_sha1 (service_request_encode (bs "ssh-userauth")) s =
    (Ok (SSend (service_accept_encode (bs "ssh-userauth"))), s <| state := AwaitingRequest |>).
Proof.
  intros Es. pose proof (service_request_roundtrip (bs "ssh-userauth")) as R.
  unfold on_packet. destruct (service_request_encode _) as [|t l] eqn:E; [by vm_compute in E|].
  assert ((u8 t =? SSH_MSG_SERVICE_REQUEST) = true) as -> by (vm_compute in E; by injection E as <- _).
  rewrite Es. cbn [negb]. rewrite R by (split; by vm_compute). by rewrite bytes_eqb_refl.
Qed.

Lemma public_key_request_mem u v p alg blob sig hk :
  request_wf {| ua_user := u; ua_service := v; ua_method := MPublicKey p alg blob sig hk |} →
  fits_mem (userauth_request_encode {| ua_user := u; ua_service := v; ua_method := MPublicKey p alg blob sig hk |}).
Proof.
  intros ([_ Hu] & [_ Hv] & ([_ Ha] & Hb & _ & Hs & Hh)). cbn [ua_user ua_service] in *.
  assert (len (PUBLICKEY_HOSTBOUND) = 35) as Hp by (by vm_compute).
  assert (len (bs "publickey") = 9) as Hq by (by vm_compute).
  unfold auth_bytes, MAX_USERAUTH_STRING, MAX_PACKET_LEN in *.
  destruct sig as [sig|]; [specialize (Hs _ eq_refl)|clear Hs]; (destruct hk as [hk|]; [specialize (Hh _ eq_refl)|clear Hh]);
    destruct p; unfold userauth_request_encode; cbn [write_tail method_name ua_user ua_service ua_method default id]; writer_norm;
    unfold fits_mem; autorewrite with lens; rewrite ?len_nil; lia.
Qed.

(** A request for [user] reaches [handle_request]. *)
Lemma server_request u m s :
  state s = AwaitingRequest → (first_user s = None ∨ first_user s = Some (account_name u)) →
  sa_service s = bs "ssh-connection" →
  userauth_request_decode (userauth_request_encode {| ua_user := u; ua_service := sa_service s; ua_method := m |}) =
    Ok {| ua_user := u; ua_service := sa_service s; ua_method := m |} →
  on_packet allow_rsa_sha1 (userauth_request_encode {| ua_user := u; ua_service := sa_service s; ua_method := m |}) s =
  handle_request allow_rsa_sha1 {| ua_user := u; ua_service := sa_service s; ua_method := m |}
    (s <| first_user := Some (account_name u) |>).
Proof.
  intros Es Hu Hv Hd. unfold on_packet.
  destruct (userauth_request_encode _) as [|t l] eqn:E.
  { unfold userauth_request_encode, into_vec in E. rewrite write_tail_buf in E. revert E. writer_norm. done. }
  assert ((u8 t =? SSH_MSG_USERAUTH_REQUEST) = true) as ->.
  { unfold userauth_request_encode, into_vec in E. rewrite write_tail_buf in E. revert E. writer_norm.
    intros E. apply (f_equal head) in E. cbn [head app] in E. injection E as <-. by vm_compute. }
  rewrite Es. cbn [negb]. rewrite Hd. cbn [ua_user ua_service]. unfold pin_user.
  destruct Hu as [Hu|Hu]; rewrite Hu.
  - change (sa_service (s <| first_user := _ |>)) with (sa_service s). by rewrite bytes_eqb_refl.
  - rewrite !bytes_eqb_refl. cbn [negb].
    assert (s <| first_user := Some (account_name u) |> = s) as -> by (rewrite <- Hu; by destruct s).
    by rewrite bytes_eqb_refl.
Qed.

(** A probe the policy accepts, for a key that is not a certificate. *)
Lemma server_probe u alg blob s d p :
  is_cert_name alg = false → used_keys s = [] →
  evaluate (APublicKey (account_name u) alg blob true false None None) (auth s) = (d, p) → accepts d = true →
  handle_request allow_rsa_sha1
    {| ua_user := u; ua_service := sa_service s; ua_method := MPublicKey false alg blob None None |} s =
  (Ok (SSend (userauth_pk_ok_encode {| pk_algorithm := alg; pk_public_blob := blob |})), s <| auth := p |>).
Proof.
  intros Hc Hu He Hd. unfold handle_request. cbn [ua_method ua_user]. unfold handle_publickey, offered_key. rewrite Hc, Hu.
  cbn [List.existsb negb]. unfold handle_probe. rewrite Hc. unfold run_evaluate. rewrite He. by destruct d.
Qed.

(** A signed request the verifier and the policy accept. *)
Lemma server_signed u alg blob sig hk s p p' kc :
  is_cert_name alg = false → used_keys s = [] → pending_cert_caps s = None → Sk.sk_signature_details sig = None →
  (∀ h, hk = Some h → sa_host_key s = Some h) →
  verify_signature allow_rsa_sha1 alg blob
    (publickey_signed_data_bound (sa_session_id s) u (sa_service s) alg blob hk) sig = Ok tt →
  evaluate (APublicKey (account_name u) alg blob false true None None) (auth s) = (Accept, p) →
  key_restrictions (account_name u) blob p = (kc, p') →
  ∃ s', handle_request allow_rsa_sha1
    {| ua_user := u; ua_service := sa_service s; ua_method := MPublicKey true alg blob (Some sig) hk |} s =
  (Ok (SAuthenticated encode_success (account_name u) kc (auth_info s ++ publickey_line blob ++ [NEWLINE])), s') ∧
  state s' = AuthDone.
Proof.
  intros Hc Hu Hp Hsk Hhk Hv He Hr. unfold handle_request. cbn [ua_method ua_user].
  assert (match hk with Some named => negb (option_bytes_eqb (sa_host_key s) named) | None => false end = false) as ->.
  { destruct hk as [h|]; [|done]. rewrite (Hhk h eq_refl). cbn [option_bytes_eqb]. by rewrite bytes_eqb_refl. }
  unfold handle_publickey, offered_key, request_verifier. rewrite Hc, Hu. cbn [List.existsb negb ok_or].
  unfold verify_signature in Hv. destruct (host_key_verify_by_name _ alg blob) as [v|]; [|done]. rewrite Hv. cbn [is_ok negb].
  unfold handle_verified. rewrite Hsk. cbn [fmap option_fmap option_map]. unfold run_evaluate. rewrite He.
  unfold restrict_accepted. cbn [accepts]. change (auth (s <| auth := p |>)) with p. rewrite Hr.
  change (pending_cert_caps (s <| auth := p |> <| auth := p' |>)) with (pending_cert_caps s). rewrite Hp.
  destruct kc; cbn [merge_caps opt_or mbind option_bind]; eexists; split; reflexivity.
Qed.

(** ** The client's answers *)

Lemma client_service k0 k rest (c : ClientAuth T) :
  cstate c = AwaitingServiceAccept → credentials c = CPublicKey k0 :: rest →
  choose (CPublicKey k0) (c <| credentials := rest |>) = Some (CPublicKey k) →
  client_on_packet (service_accept_encode (bs "ssh-userauth")) c =
    (Ok (CSend (request (MPublicKey false (key_algorithm k) (key_public_blob k) None None) c)),
     c <| credentials := rest |> <| current := Some (CPublicKey k) |> <| cstate := AwaitingPkOk |>).
Proof.
  intros Es Ec Hch. pose proof (service_accept_roundtrip (bs "ssh-userauth")) as R.
  unfold client_on_packet. destruct (service_accept_encode _) as [|t l] eqn:E; [by vm_compute in E|].
  assert (t = byte_of_Z SSH_MSG_SERVICE_ACCEPT) as -> by (vm_compute in E; by injection E as <- _).
  change (u8 (byte_of_Z SSH_MSG_SERVICE_ACCEPT)) with 6. cbn [Z.eqb SSH_MSG_USERAUTH_BANNER].
  change (6 =? SSH_MSG_USERAUTH_BANNER) with false. change (6 =? SSH_MSG_SERVICE_ACCEPT) with true.
  rewrite Es. cbn [negb]. rewrite R by (split; by vm_compute). rewrite bytes_eqb_refl. cbn [negb].
  unfold advance_to_next_credential. rewrite Ec. cbn [advance_loop]. rewrite Hch. done.
Qed.

Lemma client_pk_ok k sig (c : ClientAuth T) :
  cstate c = AwaitingPkOk → current c = Some (CPublicKey k) →
  auth_str (key_algorithm k) → auth_bytes (key_public_blob k) →
  key_sign (signatures c) k (publickey_signed_data_bound (ca_session_id c) (ca_user c) (ca_service c) (key_algorithm k)
    (key_public_blob k) (hostbound c)) = Ok sig →
  client_on_packet (userauth_pk_ok_encode {| pk_algorithm := key_algorithm k; pk_public_blob := key_public_blob k |}) c =
    (Ok (CSend (request (MPublicKey true (key_algorithm k) (key_public_blob k) (Some sig) (hostbound c)) c)),
     c <| signatures := Datatypes.S (signatures c) |> <| cstate := AwaitingPkResult |>).
Proof.
  intros Es Ec Ha Hb Hsig.
  pose proof (pk_ok_roundtrip {| pk_algorithm := key_algorithm k; pk_public_blob := key_public_blob k |} Ha Hb) as R.
  unfold client_on_packet. destruct (userauth_pk_ok_encode _) as [|t l] eqn:E; [by revert E; unfold userauth_pk_ok_encode; writer_norm|].
  assert (t = byte_of_Z SSH_MSG_USERAUTH_PK_OK) as ->.
  { revert E. unfold userauth_pk_ok_encode. writer_norm. intros E. apply (f_equal head) in E. cbn [head app] in E.
    by injection E as <-. }
  change (u8 (byte_of_Z SSH_MSG_USERAUTH_PK_OK)) with 60. change (60 =? SSH_MSG_USERAUTH_BANNER) with false.
  rewrite Es. unfold on_pk_probe_reply. change (60 =? SSH_MSG_USERAUTH_PK_OK) with true. cbn iota. rewrite R.
  unfold send_pk_signed. rewrite Ec. cbn [pk_algorithm pk_public_blob]. rewrite !bytes_eqb_refl. cbn [negb].
  by rewrite Hsig.
Qed.

Lemma client_done (c : ClientAuth T) :
  cstate c = AwaitingPkResult → client_on_packet encode_success c = (Ok CSuccess, c <| cstate := ClientDone |> <| current := None |>).
Proof.
  intros Es. unfold client_on_packet. destruct encode_success as [|t l] eqn:E; [by vm_compute in E|].
  vm_compute in E. injection E as <- <-. change (u8 Byte.x34) with 52. rewrite Es. reflexivity.
Qed.
End Converse.

(** ** The login *)

Section Login.
Context {C : PureCrypto} {S : SigPrims} {rsa_pair : RsaPrivateKey → Prop} {SL : SigPrimsLaws S rsa_pair}.
Context (allow_rsa_sha1 : bool) {A : Type} `{!Authenticator A}.
#[local] Hint Extern 0 (HostKeyTrait SoftKey) => exact (soft_key_trait allow_rsa_sha1) : typeclass_instances.

(** The policy's part: it knows the key when probed and accepts it when signed. *)
Record policy_admits (p0 : A) (user alg blob : bytes) (caps : option AuthCertCaps) : Prop := {
  probe_known : ∃ d p1, evaluate (APublicKey user alg blob true false None None) p0 = (d, p1) ∧ accepts d = true ∧
    ∃ p2 p3, evaluate (APublicKey user alg blob false true None None) p1 = (Accept, p2) ∧
      key_restrictions user blob p2 = (caps, p3)
}.

(** Client and server at the start, on the same session. *)
Record login_ready (c : ClientAuth SoftKey) (s : ServerAuth A) : Prop := {
  ready_session : ca_session_id c = sa_session_id s;
  ready_service : ca_service c = bs "ssh-connection" ∧ sa_service s = bs "ssh-connection";
  ready_user : auth_str (ca_user c);
  ready_fresh : state s = AwaitingServiceRequest ∧ first_user s = None ∧ used_keys s = [] ∧ pending_cert_caps s = None ∧
    auth_info s = [];
  ready_host : ∀ h, hostbound c = Some h → sa_host_key s = Some h ∧ auth_bytes h
}.

Lemma soft_name_str (k : SoftKey) : soft_key_wf rsa_pair k → auth_str (key_algorithm k).
Proof.
  intros H%(soft_name_plain allow_rsa_sha1). destruct H as (_ & Hu & Hl & _). split; [exact Hu|].
  unfold auth_bytes, MAX_USERAUTH_STRING, MAX_PACKET_LEN. etrans; [exact Hl|lia].
Qed.

(** The signature of such a key is not a security key's. *)
Lemma soft_no_sk_details (k : SoftKey) msg sig :
  soft_key_wf rsa_pair k → verify_signature allow_rsa_sha1 (key_algorithm k) (key_public_blob k) msg sig = Ok tt →
  Sk.sk_signature_details sig = None.
Proof.
  intros Hw Hv. destruct (soft_name_plain allow_rsa_sha1 k Hw) as (_ & _ & _ & Hp & Hsn & Hex). unfold verify_signature in Hv.
  destruct (host_key_verify_by_name _ _ _) as [v|] eqn:Ev; [|done]. rewrite host_key_verify_by_name_eq in Ev.
  apply step_plain_names in Ev as (En & _ & _); [|done]. apply verify_sig_name in Hv as (n & Hn & Hin).
  rewrite En, Hsn in Hin. apply elem_of_cons in Hin as [->|Hin]; [|by apply elem_of_nil in Hin].
  cbn [List.existsb] in Hex. rewrite !orb_false_iff in Hex. destruct Hex as (E1 & E2 & E3 & _).
  unfold leading_name in Hn. unfold Sk.sk_signature_details, Sk.sk_signature_flags.
  destruct (read_string (reader_new sig)) as [[x r]|]; [|done]. cbn [Sk.ok_opt] in Hn. apply (inj Some) in Hn as ->.
  by rewrite E1, E2, E3.
Qed.

(** C9: public-key login completes.  Client and server on the same session,
    the client about to offer a well-formed key (possibly moved to a variant
    both sides take) that signs, and a policy that admits it: after three
    packets each way the server reports the user authenticated, with the key's
    own restrictions and the line that names the key, and the client reports
    success. *)
Theorem publickey_login (c : ClientAuth SoftKey) (s : ServerAuth A) k0 k rest sig caps :
  login_ready c s → credentials c = CPublicKey k0 :: rest → choose (CPublicKey k0) c = Some (CPublicKey k) →
  soft_key_wf rsa_pair k → (key_algorithm k = Rsa.SSH_RSA → allow_rsa_sha1 = true) →
  key_sign (signatures c) k (publickey_signed_data_bound (ca_session_id c) (ca_user c) (ca_service c) (key_algorithm k)
    (key_public_blob k) (hostbound c)) = Ok sig →
  auth_bytes (key_public_blob k) → auth_bytes sig →
  policy_admits (auth s) (account_name (ca_user c)) (key_algorithm k) (key_public_blob k) caps →
  ∃ c' s', login allow_rsa_sha1 3 c s =
    Some (SAuthenticated encode_success (account_name (ca_user c)) caps
            (publickey_line (key_public_blob k) ++ [NEWLINE]), CSuccess, c', s') ∧
    cstate c' = ClientDone ∧ state s' = AuthDone.
Proof.
  intros [Hsid [Hcs Hss] Hu (Es & Ef & Euk & Epc & Ei) Hh] Ec Hch Hw Ha Hsig Hlb Hls [(d & p1 & He1 & Hd & p2 & p3 & He2 & Hr)].
  destruct (soft_name_plain allow_rsa_sha1 k Hw) as (Hnc & _). pose proof (soft_name_str k Hw) as Hstr.
  pose proof (soft_sign_verifies allow_rsa_sha1 _ k _ _ Hw Ha Hsig) as Hv. pose proof (soft_no_sk_details k _ _ Hw Hv) as Hsk.
  assert (Hsvc : auth_str (bs "ssh-connection")) by (split; by vm_compute).
  assert (Hpr : request_wf {| ua_user := ca_user c; ua_service := bs "ssh-connection";
    ua_method := MPublicKey false (key_algorithm k) (key_public_blob k) None None |}) by (split_and!; done).
  assert (Hsr : request_wf {| ua_user := ca_user c; ua_service := bs "ssh-connection";
    ua_method := MPublicKey true (key_algorithm k) (key_public_blob k) (Some sig) (hostbound c) |}).
  { do 2 (split; [done|]). do 3 (split; [done|]). split; [by intros ? [= <-]|]. intros h Hhb. apply (Hh h Hhb). }
  pose proof (userauth_request_roundtrip _ Hpr (public_key_request_mem _ _ _ _ _ _ _ Hpr)) as Rp.
  pose proof (userauth_request_roundtrip _ Hsr (public_key_request_mem _ _ _ _ _ _ _ Hsr)) as Rs.
  rewrite <- Hss in Rp, Rs, Hcs. rewrite Hsid, Hcs in Hv. clear Hpr Hsr.
  pose (s1 := s <| state := AwaitingRequest |>). pose (s2 := s1 <| first_user := Some (account_name (ca_user c)) |>).
  pose (c0 := c <| cstate := AwaitingServiceAccept |>).
  pose (c1 := c0 <| credentials := rest |> <| current := Some (CPublicKey k) |> <| cstate := AwaitingPkOk |>).
  pose (s3 := s2 <| auth := p1 |>). pose (s4 := s3 <| first_user := Some (account_name (ca_user c)) |>).
  pose proof (server_request allow_rsa_sha1 (ca_user c) _ s1 eq_refl (or_introl Ef) Hss Rp) as Q1.
  pose proof (server_request allow_rsa_sha1 (ca_user c) _ s3 eq_refl (or_intror eq_refl) Hss Rs) as Q2.
  apply (λ e, eq_trans e (server_probe allow_rsa_sha1 (ca_user c) _ _ s2 d p1 Hnc Euk He1 Hd)) in Q1.
  destruct (server_signed allow_rsa_sha1 (ca_user c) _ _ sig (hostbound c) s4 p2 p3 caps Hnc Euk Epc Hsk
    (λ h e, proj1 (Hh h e)) Hv He2 Hr) as (s' & E2 & Ed).
  apply (λ e, eq_trans e E2) in Q2.
  change (auth_info s4) with (auth_info s) in Q2. rewrite Ei in Q2.
  assert (K1 := client_service k0 k rest c0 eq_refl Ec Hch). assert (K2 := client_pk_ok k sig c1 eq_refl eq_refl Hstr Hlb Hsig).
  unfold request in K1, K2.
  change (ca_user c0) with (ca_user c) in K1. change (ca_service c0) with (ca_service c) in K1.
  change (ca_user c1) with (ca_user c) in K2. change (ca_service c1) with (ca_service c) in K2.
  change (hostbound c1) with (hostbound c) in K2. rewrite Hcs in K1, K2.
  pose (c2 := c1 <| signatures := Datatypes.S (signatures c1) |> <| cstate := AwaitingPkResult |>).
  pose proof (client_done c2 eq_refl) as K3.
  eexists _, s'. split; [|split; [|exact Ed]].
  - unfold login, client_auth_start. etrans; [exact (converse_send _ _ _ _ _ _ _ _ _ (server_service _ s Es) K1)|].
    etrans; [exact (converse_send _ _ _ _ _ _ _ _ _ Q1 K2)|]. exact (converse_end _ _ _ _ _ _ _ _ _ _ _ _ Q2 K3).
  - reflexivity.
Qed.
End Login.

(** ** The local policy *)

Section Policy.
Context {C : PureCrypto} {S : SigPrims} (allow_rsa_sha1 : bool).
#[local] Hint Extern 0 (HostKeyTrait SoftKey) => exact (soft_key_trait allow_rsa_sha1) : typeclass_instances.

(** A client whose [PubkeyAcceptedAlgorithms] is [rsa-sha2-512] alone, at a
    server that announced [server-sig-algs]. *)
Definition strict_client (user session_id csv : bytes) (k : Rsa.RsaHostKey) : ClientAuth SoftKey :=
  (client_auth_start (set_server_sig_algs csv (set_pubkey_accepted [bs "rsa-sha2-512"]
            (add_credential (CPublicKey (KRsa k)) (client_auth_new user session_id))))).2.

(** The variant of the key under another hash. *)
Definition with_hash (k : Rsa.RsaHostKey) (h : RsaHash) : Rsa.RsaHostKey :=
  {| Rsa.hash := h; Rsa.private := Rsa.private k; Rsa.public := Rsa.public k; Rsa.k_len := Rsa.k_len k |}.

Lemma announced_upgrade (k : Rsa.RsaHostKey) h :
  Rsa.hash k = RsaSha512 → (h = RsaSha256 ∨ h = RsaSha1 ∧ allow_rsa_sha1 = true) →
  Rsa.upgraded_for allow_rsa_sha1 k (Rsa.algorithm h) = Some (with_hash k h).
Proof.
  intros Hk Hh. unfold Rsa.upgraded_for, Rsa.rsa_variant_for. rewrite Hk.
  destruct Hh as [->|[-> ->]]; [|rewrite andb_true_l].
  - assert (Rsa.preferred_rsa_sha2 (Rsa.algorithm RsaSha256) = Some RsaSha256) as -> by (by vm_compute). by case_bool_decide.
  - assert (Rsa.preferred_rsa_sha2 (Rsa.algorithm RsaSha1) = None) as -> by (by vm_compute).
    assert (Rsa.csv_lists (Rsa.algorithm RsaSha1) Rsa.SSH_RSA = true) as -> by (by vm_compute). by case_bool_decide.
Qed.

Lemma strict_client_choice (k : Rsa.RsaHostKey) h (c : ClientAuth SoftKey) :
  Rsa.hash k = RsaSha512 → (h = RsaSha256 ∨ h = RsaSha1 ∧ allow_rsa_sha1 = true) →
  server_continuations c = [] → pubkey_accepted c = Some [bs "rsa-sha2-512"] → server_sig_algs c = Some [Rsa.algorithm h] →
  choose (CPublicKey (KRsa k)) c = Some (CPublicKey (KRsa (with_hash k h))).
Proof.
  intros Hk Hh Hc Hp Hs. unfold choose. rewrite Hc. cbn [is_nil negb andb]. unfold local_policy. rewrite Hp.
  cbn [key_algorithm soft_key_trait]. rewrite Hk.
  assert (lists [bs "rsa-sha2-512"] (Rsa.algorithm RsaSha512) = true) as -> by (by vm_compute).
  cbn [mbind option_bind]. unfold old_server, server_policy. rewrite Hs. cbn [andb].
  cbn [key_algorithm soft_key_trait]. rewrite Hk.
  assert (lists [Rsa.algorithm h] (client_signature_algorithm (Rsa.algorithm RsaSha512)) = false) as ->
    by (by destruct Hh as [->|[-> _]]; vm_compute).
  cbn [key_upgraded_for join_names soft_key_trait]. by rewrite (announced_upgrade k h Hk Hh).
Qed.

(** C37: the server's list overrides the local policy.  The client accepts
    only [rsa-sha2-512] locally; the server announces only [rsa-sha2-256], or,
    where SHA-1 is switched on, only [ssh-rsa]: the client then offers its key
    under that algorithm, which its own policy does not list. *)
Theorem local_policy_bypassed user session_id (k : Rsa.RsaHostKey) h :
  Rsa.hash k = RsaSha512 → (h = RsaSha256 ∨ h = RsaSha1 ∧ allow_rsa_sha1 = true) →
  ∃ c', client_on_packet (service_accept_encode (bs "ssh-userauth")) (strict_client user session_id (Rsa.algorithm h) k) =
    (Ok (CSend (userauth_request_encode {| ua_user := user; ua_service := bs "ssh-connection";
           ua_method := MPublicKey false (Rsa.algorithm h) (Rsa.public_blob k) None None |})), c') ∧
  Rsa.algorithm h ∉ default [] (pubkey_accepted c').
Proof.
  intros Hk Hh.
  assert (Ea : server_sig_algs (strict_client user session_id (Rsa.algorithm h) k) = Some [Rsa.algorithm h])
    by (by destruct Hh as [->|[-> _]]; vm_compute).
  pose (c1 := (strict_client user session_id (Rsa.algorithm h) k) <| credentials := [] |>).
  pose proof (strict_client_choice k h c1 Hk Hh eq_refl eq_refl Ea) as Hch.
  eexists. split; [exact (client_service (KRsa k) _ [] (strict_client _ _ _ k) eq_refl eq_refl Hch)|].
  change (Rsa.algorithm h ∉ [bs "rsa-sha2-512"]). rewrite <- list_existsb_in.
  by destruct Hh as [->|[-> _]]; vm_compute.
Qed.
End Policy.
