(* ===== verification/AuthDemo.v ===== *)
(** * Authentication on concrete inputs

    Signature primitives with the lengths and laws of the real ones, keys, a
    certificate, a policy, a client and a server, on which the theorems of the
    authentication files are applied. *)
From S2P Require Import Prelude Wire Text Crypto KexInit KexMethods HostKey Cert CertFacts CertParse SignKey.
From S2P Require Import CertIssue AuthMsg AuthMsgFacts AuthServer AuthFacts AuthRun AuthLimits AuthClient.
From S2P Require Import AuthClientFacts AuthLogin.

(** ** Primitives *)

Definition demo_sig : SigPrims := {|
  ed25519_public := pad_to 32;
  ed25519_sign seed msg := pad_to 64 (pad_to 32 seed ++ msg);
  ed25519_verify pk msg sig := bytes_eqb sig (pad_to 64 (pk ++ msg));
  mldsa44_public := pad_to 1312;
  mldsa44_sign _ seed msg ctx := Some (pad_to 2420 (pad_to 1312 seed ++ msg ++ ctx));
  mldsa44_public_ok _ := true;
  mldsa44_verify pk sig msg ctx := bytes_eqb sig (pad_to 2420 (pk ++ msg ++ ctx));
  ecdsa_priv := bytes; ecdsa_pub := bytes;
  ecdsa_priv_from_bytes _ b := if len b =? 32 then Some b else None;
  ecdsa_public_key b := b;
  ecdsa_from_sec1 _ b := Some b;
  ecdsa_to_sec1 b := b;
  ecdsa_sign _ sk msg := Some (be_value (pad_to 32 (sk ++ msg)), 1);
  ecdsa_coord _ z := be_bytes 66 z;
  ecdsa_verify _ pk msg sig := (fst sig =? be_value (pad_to 32 (pk ++ msg))) && (snd sig =? 1);
  rsa_try_new _ _ := true;
  rsa_sign _ sk msg := Some (pad_to (Z.to_nat (Rsa.byte_len (rsa_n sk))) msg);
  rsa_verify _ n _ msg sig := bytes_eqb sig (pad_to (Z.to_nat (Rsa.byte_len n)) msg);
|}.

(** The modulus fits. *)
Definition demo_rsa_pair (sk : RsaPrivateKey) : Prop := 0 ≤ rsa_n sk.

Lemma byte_len_nonneg n : 0 ≤ Rsa.byte_len n.
Proof.
  unfold Rsa.byte_len, uint_bit_len. destruct (n =? 0); [done|]. pose proof (Z.log2_nonneg n). apply Z.div_pos; lia.
Qed.

Lemma demo_sig_laws : SigPrimsLaws demo_sig demo_rsa_pair.
Proof.
  split; intros; cbn [demo_sig ed25519_public ed25519_sign ed25519_verify mldsa44_public mldsa44_sign mldsa44_public_ok
    mldsa44_verify ecdsa_priv_from_bytes ecdsa_public_key ecdsa_from_sec1 ecdsa_to_sec1 ecdsa_sign ecdsa_coord ecdsa_verify
    rsa_try_new rsa_sign rsa_verify] in *; simplify_eq; rewrite ?bytes_eqb_refl; try done; try apply len_pad_to.
  - case_match; zbool; simplify_eq. lia.
  - split; apply be_value_be_bytes_small; [|by vm_compute]. pose proof (be_value_range (pad_to 32 (sk ++ msg))) as Hr.
    rewrite len_pad_to in Hr. split; [lia|]. etrans; [apply Hr|by vm_compute].
  - cbn [fst snd]. by rewrite !Z.eqb_refl.
  - rewrite len_pad_to. apply Z2Nat.id, byte_len_nonneg.
Qed.

#[local] Existing Instances demo_crypto demo_sig demo_sig_laws.
#[local] Hint Extern 0 (HostKeyTrait SoftKey) => exact (soft_key_trait false) : typeclass_instances.

(** ** Keys and certificates *)

Definition demo_seed : bytes := replicate 32 Byte.x07.
Definition demo_key : SoftKey := KEd25519 (Ed25519.from_seed demo_seed).
Definition demo_ca : SoftKey := KEd25519 (Ed25519.from_seed (replicate 32 Byte.x09)).

Lemma demo_key_wf : soft_key_wf demo_rsa_pair demo_key.
Proof. by exists demo_seed. Qed.
Lemma demo_ca_wf : soft_key_wf demo_rsa_pair demo_ca.
Proof. by exists (replicate 32 Byte.x09). Qed.

Definition demo_builder : CertificateBuilder := {|
  b_public_key := key_public_blob demo_key; b_nonce := bs "nonce"; b_serial := 42; b_cert_type := User;
  b_key_id := bs "alice@example"; b_valid_principals := [bs "alice"; bs "admin"]; b_valid_after := 100;
  b_valid_before := 200; b_critical_options := [];
  b_extensions := [(bs "permit-pty", []); (bs "permit-agent-forwarding", [])] |}.

Lemma demo_builder_wf : builder_wf demo_builder.
Proof. split; by vm_compute. Qed.

Definition or_empty (r : result Certificate) : Certificate :=
  match r with Ok c => c | Err _ => {| key_type := []; nonce := []; embedded_pubkey_blob := []; serial := 0;
    cert_type := User; key_id := []; valid_principals := []; valid_after := 0; valid_before := 0; critical_options := [];
    extensions := []; signature_key_blob := []; signature := []; signed_len := 0; raw := [] |} end.

Definition demo_cert : Certificate :=
  Eval vm_compute in or_empty (builder_sign demo_builder (key_public_blob demo_ca) (key_sign 0 demo_ca)).

Lemma demo_cert_issued : builder_sign demo_builder (key_public_blob demo_ca) (key_sign 0 demo_ca) = Ok demo_cert.
Proof. by vm_compute. Qed.
Lemma demo_cert_parses : certificate_parse (raw demo_cert) = Ok demo_cert.
Proof. by vm_compute. Qed.


Lemma certificate_parse_wf_witness : cert_wf demo_cert.
Proof. apply (certificate_parse_wf (raw demo_cert)). exact demo_cert_parses. Defined.

(** The same certificate signed again, by a CA that signs something else. *)
Definition demo_resigned : Certificate :=
  Eval vm_compute in or_empty (builder_sign demo_builder (key_public_blob demo_ca) (λ _, Ok (bs "forged"))).

Lemma signature_covers_fields_witness :
  demo_resigned = resigned demo_cert (signature demo_resigned) (raw demo_resigned).
Proof.
  apply (signature_covers_fields (raw demo_cert) (raw demo_resigned)); by vm_compute.
Defined.

Definition sig_or_empty (r : result bytes) : bytes := match r with Ok s => s | Err _ => [] end.
Definition demo_hello : bytes := Eval vm_compute in sig_or_empty (key_sign 0 demo_key (bs "hello")).


Definition demo_verifier : Verifier := VEd25519 (Ed25519.from_public demo_seed).
Lemma demo_verifier_built : host_key_verify_by_name false ED25519_CERT (raw demo_cert) = Ok demo_verifier.
Proof. exact (@eq_refl (result Verifier) (Ok demo_verifier) <: host_key_verify_by_name false ED25519_CERT (raw demo_cert) = Ok demo_verifier). Qed.
Lemma demo_hello_verified : verifier_verify demo_verifier (bs "hello") demo_hello = Ok tt.
Proof. vm_compute. exact eq_refl. Qed.

Lemma no_algorithm_confusion_witness :
  ∃ key sn, presented_key ED25519_CERT (raw demo_cert) key ∧ leading_name key = Some (key_family (plain_name ED25519_CERT)) ∧
    leading_name demo_hello = Some sn.
Proof.
  destruct (no_algorithm_confusion false ED25519_CERT (raw demo_cert) demo_verifier (bs "hello") demo_hello
    demo_verifier_built demo_hello_verified) as (key & sn & H1 & H2 & H3 & _).
  exists key, sn. exact (conj H1 (conj H2 H3)).
Defined.

Lemma demo_cert_key :
  cert_host_key_new demo_key demo_cert ED25519_CERT = Ok (CertHostKey demo_key (raw demo_cert) ED25519_CERT).
Proof.
  unfold cert_host_key_new. assert (bytes_eqb (key_public_blob demo_key) (embedded_pubkey_blob demo_cert) = true) as ->
    by (by vm_compute). done.
Qed.

Lemma cert_key_verifies_witness :
  verify_signature false ED25519_CERT (raw demo_cert) (bs "hello") demo_hello =
  verify_signature false (key_algorithm demo_key) (key_public_blob demo_key) (bs "hello") demo_hello.
Proof.
  apply (cert_key_verifies false demo_key (raw demo_cert) demo_cert ED25519_CERT
    (CertHostKey demo_key (raw demo_cert) ED25519_CERT) (bs "hello") demo_hello demo_cert_parses).
  - exact demo_cert_key.
  - by vm_compute.
  - intros E. by apply (f_equal len) in E.
  - by vm_compute.
Defined.

(** ** A client, a server and a policy *)

(** Accepts keys and the password [secret]; keeps no state. *)
#[local] Instance demo_policy : Authenticator unit := {|
  evaluate a _ := match a with
                  | APublicKey _ _ _ _ _ _ _ => (Accept, tt)
                  | APassword _ pw => (if bytes_eqb pw (bs "secret") then Accept else Reject, tt)
                  | _ => (Reject, tt)
                  end;
  key_restrictions _ _ _ := (None, tt);
  continuable_methods l _ := l;
  evaluate_interactive _ _ _ := (Reject, tt);
  on_user_resolved _ _ p := p;
|}.

Definition demo_session : bytes := bs "session identifier".
Definition demo_methods : list bytes := [bs "publickey"; bs "password"].
Definition demo_client : ClientAuth SoftKey :=
  add_credential (CPublicKey demo_key) (client_auth_new (bs "alice") demo_session).
Definition demo_server : ServerAuth unit := server_auth_new demo_session demo_methods tt.

Definition demo_signed : bytes :=
  publickey_signed_data_bound demo_session (bs "alice") (bs "ssh-connection") (key_algorithm demo_key)
    (key_public_blob demo_key) None.
Definition demo_login_sig : bytes := Eval vm_compute in sig_or_empty (key_sign 0 demo_key demo_signed).

Lemma demo_ready : login_ready demo_client demo_server.
Proof.
  split; [exact eq_refl|done| |done|by intros h [=]]. change (auth_str (bs "alice")). split; by vm_compute.
Qed.

Lemma publickey_login_witness :
  ∃ c' s', login false 3 demo_client demo_server =
    Some (SAuthenticated encode_success (bs "alice") None
            (publickey_line (key_public_blob demo_key) ++ [NEWLINE]), CSuccess, c', s') ∧
    cstate c' = ClientDone ∧ state s' = AuthDone.
Proof.
  apply (publickey_login false demo_client demo_server demo_key demo_key [] demo_login_sig None demo_ready eq_refl).
  - exact eq_refl.
  - exact demo_key_wf.
  - intros E. by apply (f_equal len) in E.
  - by vm_compute.
  - by vm_compute.
  - by vm_compute.
  - split. exists Accept, tt. split; [done|]. split; [done|]. by exists tt, tt.
Defined.

(** ** The server's guarantees *)

(** The connection after the service request, and a signed request on it. *)
Definition demo_waiting : ServerAuth unit :=
  snd (auth_step false (OpPacket (service_request_encode (bs "ssh-userauth"))) demo_server).
Definition demo_request : bytes :=
  userauth_request_encode {| ua_user := bs "alice"; ua_service := bs "ssh-connection";
    ua_method := MPublicKey true (key_algorithm demo_key) (key_public_blob demo_key) (Some demo_login_sig) None |}.

Lemma demo_waiting_reach : auth_reach false demo_session demo_methods tt demo_waiting.
Proof. apply reach_step, reach_new. Qed.


(** The same with a policy that keeps the log. *)
#[local] Existing Instance AuthRun.logged.
Definition demo_logged : ServerAuth (unit * list AuthAttempt) :=
  snd (auth_step false (OpPacket demo_request)
    (snd (auth_step false (OpPacket (service_request_encode (bs "ssh-userauth")))
      (server_auth_new demo_session demo_methods (tt, []))))).

Lemma policy_view_sound_witness :
  Forall (attempt_sound false demo_session (first_user demo_logged)) (snd (auth demo_logged)) ∧
  length (snd (auth demo_logged)) = 1%nat.
Proof.
  split; [|by vm_compute]. apply (policy_view_sound false demo_session demo_methods tt). apply reach_step, reach_step, reach_new.
Defined.

(** Wrong passwords, one after the other. *)
Definition demo_wrong : auth_op :=
  OpPacket (userauth_request_encode {| ua_user := bs "alice"; ua_service := bs "ssh-connection";
    ua_method := MPassword None (bs "guess") |}).
Definition demo_guesses : list auth_op :=
  OpPacket (service_request_encode (bs "ssh-userauth")) :: replicate 20 demo_wrong.

Lemma auth_failures_bounded_witness :
  total_rejects false demo_guesses (set_max_auth_tries (Some 6) (set_max_pk_ok 6 demo_server)) ≤ 6 + 6 ∧
  total_rejects false demo_guesses (set_max_auth_tries (Some 6) (set_max_pk_ok 6 demo_server)) = 6.
Proof.
  split; [|by vm_compute]. apply (auth_failures_bounded false 6 6 demo_session demo_methods tt demo_guesses); by vm_compute.
Defined.

(** ** The client's guarantees *)

(** A prompt that answers twice, and a password. *)
Definition demo_prompt (asked : list bool) : option bytes := if (length asked <=? 2)%nat then Some (bs "guess") else None.
Definition demo_prompter : ClientAuth SoftKey :=
  (client_auth_start (add_credential (CPassword (bs "fixed")) (add_credential (CPasswordPrompt [] demo_prompt)
     (client_auth_new (bs "alice") demo_session)))).2.

Definition demo_refusals : list bytes :=
  service_accept_encode (bs "ssh-userauth") :: replicate 9 (failure_payload false [bs "password"]).

Lemma client_requests_bounded_witness :
  (list_sum (is_send <$> (client_run demo_refusals demo_prompter).1) ≤ 3)%nat ∧
  list_sum (is_send <$> (client_run demo_refusals demo_prompter).1) = 3%nat.
Proof.
  split; [|by vm_compute]. apply (client_requests_bounded 2 demo_refusals demo_prompter); [|done].
  repeat constructor. intros h Hh. unfold demo_prompt. destruct (Nat.leb_spec (length h) 2); [lia|done].
Defined.

Definition demo_rsa : Rsa.RsaHostKey := {|
  Rsa.hash := RsaSha512; Rsa.private := None; Rsa.public := (2 ^ 2047 + 1, 65537); Rsa.k_len := 256 |}.

Lemma local_policy_bypassed_witness :
  ∃ c', client_on_packet (service_accept_encode (bs "ssh-userauth"))
      (strict_client (bs "alice") demo_session (Rsa.algorithm RsaSha256) demo_rsa) =
    (Ok (CSend (userauth_request_encode {| ua_user := bs "alice"; ua_service := bs "ssh-connection";
           ua_method := MPublicKey false (Rsa.algorithm RsaSha256) (Rsa.public_blob demo_rsa) None None |})), c') ∧
  Rsa.algorithm RsaSha256 ∉ default [] (pubkey_accepted c').
Proof.
  exact (local_policy_bypassed false (bs "alice") demo_session demo_rsa RsaSha256 eq_refl (or_introl eq_refl)).
Defined.
