(* ===== verification/KnownHosts.v ===== *)
(** * Known hosts (src/known_hosts)

    The [known_hosts] file: hashed host names (hash.rs), its lines (format.rs)
    and the in-memory store with its lookups and updates (store.rs).  HMAC-SHA1
    and SHA-1 come from outside the repository and are the operations of
    [HostHash].  A path is its bytes; reading and writing the file are the
    caller's, so [load] and [save] are the functions between a file's content
    and the store. *)
From S2P Require Import Prelude Wire Text Glob Base64 Crypto Cipher Packet HostKey Cert.

(** ** HMAC and digests *)

Class HostHash := {
  hmac_sha1 : (* key *) bytes → (* message *) bytes → bytes;
  sha1_digest : bytes → bytes;
}.
Class HostHashLaws {H : HostHash} := {
  hmac_sha1_len k m : len (hmac_sha1 k m) = 20;
  sha1_len m : len (sha1_digest m) = 20;
}.
Arguments HostHashLaws : clear implicits.
#[export] Hint Rewrite @hmac_sha1_len @sha1_len using (typeclasses eauto) : lens.

(** ** [[host]:port] patterns (config/host_port.rs) *)

Definition LBRACKET : byte := Byte.x5b.
Definition RBRACKET : byte := Byte.x5d.
Definition COLON : byte := Byte.x3a.

(** The text after the [']'] of a bracketed host: nothing, or [:port]. *)
Definition port_after (default_port : Z) (after : bytes) : option Z :=
  match after with
  | [] => Some default_port
  | c :: port_str => if Byte.eqb c COLON then parse_uint U16_MAX port_str else None
  end.

(** [None] is the [ConfigError::BadValue] of the source, whose message is for
    display. *)
Definition parse_host_port_pattern (s : bytes) (default_port : Z) : option (bytes * Z) :=
  match strip_prefix [LBRACKET] s with
  | Some rest =>
      match split_once RBRACKET rest with
      | None => None
      | Some (host, after) => match port_after default_port after with Some p => Some (host, p) | None => None end
      end
  | None => Some (s, default_port)
  end.

(** ** Hashed host names (hash.rs) *)

Definition SALT_LEN : Z := 20.
Definition PIPE : byte := Byte.x7c.

(** [format!("[{host}]:{port}")] *)
Definition format_host (host : bytes) (port : Z) : bytes :=
  if port =? 22 then host else [LBRACKET] ++ host ++ bs "]:" ++ show_uint port.

Definition constant_time_eq (a b : bytes) : bool := ct_eq a b.

Section Hash.
Context {HH : HostHash}.

Definition hmac (salt host : bytes) : bytes := hmac_sha1 salt host.

Definition encode_hashed (salt host : bytes) : bytes :=
  bs "|1|" ++ base64_encode salt ++ [PIPE] ++ base64_encode (hmac salt host).

(** [hash_new] returns the token; the salt it also returns is dropped by its
    callers. *)
Definition hash_new (rng : Rng) (host : bytes) (port : Z) : bytes * Rng :=
  (encode_hashed (fill_bytes rng SALT_LEN) (format_host host port), rng_skip (Z.to_nat SALT_LEN) rng).

Definition parse_hashed (token : bytes) : option (bytes * bytes) :=
  match strip_prefix (bs "|1|") token with
  | None => None
  | Some rest =>
      match split_once PIPE rest with
      | None => None
      | Some (salt_b64, hash_b64) =>
          match base64_decode salt_b64, base64_decode hash_b64 with
          | Ok salt, Ok hash => Some (salt, hash)
          | _, _ => None
          end
      end
  end.

Definition check_hashed (salt hash_tag host : bytes) (port : Z) : bool :=
  if negb (len hash_tag =? 20) then false
  else constant_time_eq (hmac salt (format_host host port)) hash_tag.
End Hash.
#[global] Arguments encode_hashed : simpl never.

(** ** Lines (format.rs) *)

Inductive Marker := CertAuthority | Revoked.
#[export] Instance Marker_eq_dec : EqDecision Marker.
Proof. solve_decision. Defined.

Definition marker_as_str (m : Marker) : bytes :=
  match m with CertAuthority => bs "@cert-authority" | Revoked => bs "@revoked" end.

Inductive HostSpec := Patterns (v : list bytes) | Hashed (s : bytes).
#[export] Instance HostSpec_eq_dec : EqDecision HostSpec.
Proof. solve_decision. Defined.

Record Entry := {
  e_marker : option Marker; e_host_spec : HostSpec; e_key_type : bytes; e_key_blob : bytes; e_comment : bytes
}.
#[export] Instance Entry_eq_dec : EqDecision Entry.
Proof. solve_decision. Defined.

Definition to_field (h : HostSpec) : bytes :=
  match h with Patterns v => join [comma] v | Hashed s => s end.

Inductive ParsedLine := PEntry (e : Entry) | PVerbatim (s : bytes).

Definition HASH : byte := Byte.x23.

(** The marker and what follows it: [None] is a marker with nothing behind. *)
Definition split_marker (tokens : list bytes) : option (option Marker * bytes * list bytes) :=
  match tokens with
  | [] => None
  | first :: tokens =>
      let marked (m : Marker) := match tokens with h :: rest => Some (Some m, h, rest) | [] => None end in
      if bytes_eqb first (marker_as_str CertAuthority) then marked CertAuthority
      else if bytes_eqb first (marker_as_str Revoked) then marked Revoked
      else Some (None, first, tokens)
  end.

(** An RSA key recorded under a signature algorithm's name is an [ssh-rsa] key. *)
Definition line_key_type (s : bytes) : bytes :=
  if bytes_eqb s (bs "rsa-sha2-256") || bytes_eqb s (bs "rsa-sha2-512") then bs "ssh-rsa" else s.

Definition host_spec_of (host_field : bytes) : HostSpec :=
  if starts_with (bs "|1|") host_field then Hashed host_field else Patterns (split_on comma host_field).

Definition parse_line (raw : bytes) : ParsedLine :=
  let trimmed := str_trim raw in
  if is_nil trimmed || first_is HASH trimmed then PVerbatim raw else
  match split_marker (split_whitespace trimmed) with
  | Some (marker, host_field, key_type :: key_b64 :: tokens) =>
      match base64_decode key_b64 with
      | Ok key_blob =>
          PEntry {| e_marker := marker; e_host_spec := host_spec_of host_field; e_key_type := line_key_type key_type;
                    e_key_blob := key_blob; e_comment := join (bs " ") tokens |}
      | Err _ => PVerbatim raw
      end
  | _ => PVerbatim raw
  end.

Definition format_entry (e : Entry) : bytes :=
  (match e_marker e with Some m => marker_as_str m ++ bs " " | None => [] end)
  ++ to_field (e_host_spec e) ++ bs " " ++ e_key_type e ++ bs " " ++ base64_encode (e_key_blob e)
  ++ (if is_nil (e_comment e) then [] else bs " " ++ e_comment e).

Definition format_host_pattern (host : bytes) (port : Z) : bytes :=
  if port =? 22 then host else [LBRACKET] ++ host ++ bs "]:" ++ show_uint port.

(** *** The pattern of one host *)

Definition MAX_GLOB_PATTERN_LEN : Z := 1024.
Definition MAX_GLOB_STARS : nat := 32.

(** [s.chars()] of a text in valid UTF-8, a [char] being its bytes. *)
Definition chars (s : bytes) : list bytes := lossy_chars s.

(** [c.eq_ignore_ascii_case(&d)] *)
Definition eq_ignore_ascii_case (a b : bytes) : bool := bytes_eqb (to_ascii_lowercase a) (to_ascii_lowercase b).

(** [&t[i..]] for [i] in [0..=t.len()]. *)
Fixpoint suffixes {A} (t : list A) : list (list A) :=
  t :: match t with [] => [] | _ :: t' => suffixes t' end.

Fixpoint glob_inner (p t : list bytes) : bool :=
  match p with
  | [] => is_nil t
  | c :: p' =>
      if bytes_eqb c [STAR] then List.existsb (glob_inner p') (suffixes t)
      else if bytes_eqb c [QUESTION] then match t with [] => false | _ :: t' => glob_inner p' t' end
      else match t with [] => false | d :: t' => if eq_ignore_ascii_case c d then glob_inner p' t' else false end
  end.

Definition glob_match_ascii_ci (pat s : bytes) : bool :=
  if MAX_GLOB_PATTERN_LEN <? len pat then false
  else if Nat.ltb MAX_GLOB_STARS (length (List.filter (Byte.eqb STAR) pat)) then false
  else glob_inner (chars pat) (chars s).

(** [pattern.rfind(']')] in a pattern whose first byte is the bracket. *)
Definition pattern_match_inner (pattern host : bytes) (port : Z) : bool :=
  match strip_prefix [LBRACKET] pattern with
  | Some rest =>
      match rsplit_once RBRACKET rest with
      | None => false
      | Some (host_part, after) =>
          match strip_prefix [COLON] after with
          | Some ps => match parse_uint U16_MAX ps with
                       | Some p => glob_match_ascii_ci host_part host && (p =? port)
                       | None => false
                       end
          | None => glob_match_ascii_ci host_part host && (port =? 22)
          end
      end
  | None => (port =? 22) && glob_match_ascii_ci pattern host
  end.

Definition BANG : byte := Byte.x21.

Fixpoint patterns_loop (patterns : list bytes) (host : bytes) (port : Z) (any_pos : bool) : bool :=
  match patterns with
  | [] => any_pos
  | p :: ps =>
      match strip_prefix [BANG] p with
      | Some rest => if pattern_match_inner rest host port then false else patterns_loop ps host port any_pos
      | None => patterns_loop ps host port (if pattern_match_inner p host port then true else any_pos)
      end
  end.
Definition patterns_match (patterns : list bytes) (host : bytes) (port : Z) : bool :=
  patterns_loop patterns host port false.

(** ** The store (store.rs) *)

Inductive LookupResult := Match | Mismatch (expected : list (bytes * bytes)) | Unknown | LRevoked.
#[export] Instance LookupResult_eq_dec : EqDecision LookupResult.
Proof. solve_decision. Defined.

Inductive Slot :=
  | SVerbatim (s : bytes)
  | SRaw (b : bytes) (revoked : option Entry)
  | SEntry (e : Entry)
  | SRemoved.

Definition KnownHosts := list Slot.

Definition NEWLINE : byte := Byte.x0a.
Definition CR : byte := Byte.x0d.

(** [line.split_last()] with a trailing carriage return. *)
Definition strip_cr (line : bytes) : bytes :=
  match rev line with c :: rest => if Byte.eqb c CR then rev rest else line | [] => line end.

(** [String::from_utf8_lossy]. *)
Definition from_utf8_lossy (l : bytes) : bytes := concat (lossy_chars l).

Definition is_revoked_entry (e : Entry) : bool := bool_decide (e_marker e = Some Revoked).

Definition load_line (line : bytes) : Slot :=
  let line := strip_cr line in
  if utf8_valid line then match parse_line line with PEntry e => SEntry e | PVerbatim s => SVerbatim s end
  else SRaw line (match parse_line (from_utf8_lossy line) with
                  | PEntry e => if is_revoked_entry e then Some e else None
                  | PVerbatim _ => None
                  end).

(** The [while] loop, which drops a last empty part. *)
Fixpoint load_lines (parts : list bytes) : list Slot :=
  match parts with
  | [] => []
  | line :: rest => if is_nil rest && is_nil line then [] else load_line line :: load_lines rest
  end.

Definition from_bytes (data : bytes) : KnownHosts := load_lines (split_on NEWLINE data).

(** What [fs::read] answered: the content, no such file, or another error. *)
Inductive FileRead := FileContent (data : bytes) | FileNotFound | FileError (e : string).

Definition load (r : FileRead) : result KnownHosts :=
  match r with
  | FileContent data => Ok (from_bytes data)
  | FileNotFound => Ok []
  | FileError e => Err (Io e)
  end.

Definition slot_bytes (s : Slot) : bytes :=
  match s with
  | SVerbatim s => s ++ [NEWLINE]
  | SEntry e => format_entry e ++ [NEWLINE]
  | SRaw b _ => b ++ [NEWLINE]
  | SRemoved => []
  end.

Definition to_bytes (kh : KnownHosts) : bytes := concat (slot_bytes <$> kh).

Definition safe_field (s : bytes) : bool :=
  negb (is_nil s)
  && negb (first_is Byte.x40 s || first_is PIPE s || first_is HASH s)
  && negb (List.existsb (λ c, char_is_whitespace c || char_is_control c || bytes_eqb c [comma]) (chars s)).

Definition split_host_port (pat : bytes) : option (bytes * Z) := parse_host_port_pattern pat 22.

Section Store.
Context {HH : HostHash}.

Definition host_field_matches (spec : HostSpec) (host : bytes) (port : Z) : bool :=
  match spec with
  | Patterns pats => patterns_match pats host port
  | Hashed token =>
      match parse_hashed token with
      | Some (salt, hash) => check_hashed salt hash host port
      | None => false
      end
  end.

Definition revoked_entry (s : Slot) : option Entry :=
  match s with
  | SEntry e | SRaw _ (Some e) => if is_revoked_entry e then Some e else None
  | _ => None
  end.
Definition revoked_entries (kh : KnownHosts) : list Entry := omap revoked_entry kh.

(** [e.key_type == key_type && e.key_blob == key_blob] *)
Definition is_key (key_type key_blob : bytes) (e : Entry) : bool :=
  bytes_eqb (e_key_type e) key_type && bytes_eqb (e_key_blob e) key_blob.

Definition is_plain (e : Entry) : bool := match e_marker e with None => true | Some _ => false end.

Definition plain_host_has_key (kh : KnownHosts) (host key_type key_blob : bytes) : bool :=
  List.existsb (λ s, match s with
                     | SEntry e => is_plain e && is_key key_type key_blob e && host_field_matches (e_host_spec e) host 22
                     | _ => false
                     end) kh.

(** Pass 2; [None] is the [return LookupResult::Match] inside the loop. *)
Fixpoint lookup_pass2 (lines : list Slot) (host : bytes) (port : Z) (key_type key_blob : bytes) (host_matched : bool)
    (expected : list (bytes * bytes)) : option (bool * list (bytes * bytes)) :=
  match lines with
  | [] => Some (host_matched, expected)
  | SEntry e :: lines =>
      if negb (is_plain e) then lookup_pass2 lines host port key_type key_blob host_matched expected
      else if negb (host_field_matches (e_host_spec e) host port)
      then lookup_pass2 lines host port key_type key_blob host_matched expected
      else if is_key key_type key_blob e then None
      else lookup_pass2 lines host port key_type key_blob true (expected ++ [(e_key_type e, e_key_blob e)])
  | _ :: lines => lookup_pass2 lines host port key_type key_blob host_matched expected
  end.

Definition lookup (kh : KnownHosts) (host : bytes) (port : Z) (key_type key_blob : bytes) : LookupResult :=
  if List.existsb (λ e, host_field_matches (e_host_spec e) host port && is_key key_type key_blob e) (revoked_entries kh)
  then LRevoked
  else match lookup_pass2 kh host port key_type key_blob false [] with
       | None => Match
       | Some (host_matched, expected) =>
           if host_matched then Mismatch expected
           else if negb (port =? 22) && plain_host_has_key kh host key_type key_blob then Match
           else Unknown
       end.

Definition revokes_cert (kh : KnownHosts) (host : bytes) (port : Z) (cert : Certificate) : bool :=
  List.existsb (λ e, host_field_matches (e_host_spec e) host port
                     && (bytes_eqb (e_key_blob e) (signature_key_blob cert)
                         || bytes_eqb (e_key_blob e) (embedded_pubkey_blob cert))) (revoked_entries kh).

Definition ca_trusted (kh : KnownHosts) (host : bytes) (cert : Certificate) (port : Z) : bool :=
  List.existsb (λ s, match s with
                     | SEntry e => bool_decide (e_marker e = Some CertAuthority)
                                   && bytes_eqb (e_key_blob e) (signature_key_blob cert)
                                   && host_field_matches (e_host_spec e) host port
                     | _ => false
                     end) kh.

Definition has_ca_for (kh : KnownHosts) (host : bytes) (port : Z) (cert : Certificate) : bool :=
  ca_trusted kh host cert port || (negb (port =? 22) && ca_trusted kh host cert 22).

Definition verify_host_cert `{SigPrims, PureCrypto} (allow_rsa_sha1 : bool) (kh : KnownHosts) (host : bytes) (port : Z)
    (cert : Certificate) (allowed_ca_algos : list bytes) (now : Z) : result unit :=
  if revokes_cert kh host port cert then Err HostKeyRejected else
  let? _ := check_type cert Host in
  let? _ := check_validity cert now in
  let? _ := require_known_critical_options cert in
  if negb (is_nil (critical_options cert)) then Err CertUnknownCriticalOption else
  if has_ca_for kh host port cert then
    let? _ := verify_ca_signature allow_rsa_sha1 cert allowed_ca_algos in
    let? _ := check_principal cert host in
    Ok tt
  else Err HostKeyRejected.

(** *** Updates

    The operations that draw salts take the generator and return it. *)

Definition plain_entry (spec : HostSpec) (key_type key_blob : bytes) : Entry :=
  {| e_marker := None; e_host_spec := spec; e_key_type := key_type; e_key_blob := key_blob; e_comment := [] |}.

Definition try_add (rng : Rng) (kh : KnownHosts) (host : bytes) (port : Z) (key_type key_blob : bytes) (hashed : bool)
    : result unit * (KnownHosts * Rng) :=
  if negb (safe_field key_type) then (Err (Format "known_hosts: invalid key type"), (kh, rng))
  else if negb (safe_field host) then (Err (Format "known_hosts: invalid host name"), (kh, rng))
  else
    let (host_spec, rng) :=
      if hashed then let (token, rng) := hash_new rng host port in (Hashed token, rng)
      else (Patterns [format_host_pattern host port], rng) in
    (Ok tt, (kh ++ [SEntry (plain_entry host_spec key_type key_blob)], rng)).

Definition add (rng : Rng) (kh : KnownHosts) (host : bytes) (port : Z) (key_type key_blob : bytes) (hashed : bool)
    : KnownHosts * Rng := snd (try_add rng kh host port key_type key_blob hashed).

Definition try_add_names (kh : KnownHosts) (names : list (bytes * Z)) (key_type key_blob : bytes)
    : result unit * KnownHosts :=
  if negb (safe_field key_type) then (Err (Format "known_hosts: invalid key type"), kh)
  else if is_nil names || List.existsb (λ n, negb (safe_field n.1)) names
  then (Err (Format "known_hosts: invalid host name"), kh)
  else
    let patterns := join [comma] ((λ n, format_host_pattern n.1 n.2) <$> names) in
    (Ok tt, kh ++ [SEntry (plain_entry (Patterns (split_on comma patterns)) key_type key_blob)]).

(** [iter_mut] with [*slot = Slot::Removed] for the slots [drop] holds of, and their number. *)
Definition remove_slots (drop : Slot → bool) (kh : KnownHosts) : Z * KnownHosts :=
  (len (List.filter drop kh), (λ s, if drop s then SRemoved else s) <$> kh).

Definition names_exactly (host : bytes) (port : Z) (s : Slot) : bool :=
  match s with
  | SEntry e =>
      is_plain e &&
      match e_host_spec e with
      | Patterns [p] => eq_ignore_ascii_case p (format_host_pattern host port)
      | Patterns _ => false
      | Hashed _ => host_field_matches (e_host_spec e) host port
      end
  | _ => false
  end.
Definition remove_exact (kh : KnownHosts) (host : bytes) (port : Z) : Z * KnownHosts :=
  remove_slots (names_exactly host port) kh.

Definition entry_matches (host : bytes) (port : Z) (s : Slot) : bool :=
  match s with SEntry e => host_field_matches (e_host_spec e) host port | _ => false end.
Definition remove (kh : KnownHosts) (host : bytes) (port : Z) : Z * KnownHosts :=
  remove_slots (entry_matches host port) kh.

Definition find (kh : KnownHosts) (host : bytes) (port : Z) : list Entry :=
  omap (λ s, match s with
             | SEntry e => if host_field_matches (e_host_spec e) host port then Some e else None
             | _ => None
             end) kh.

Definition find_key (kh : KnownHosts) (key_blob : bytes) : list bytes :=
  omap (λ s, match s with
             | SEntry e =>
                 if is_plain e && bytes_eqb (e_key_blob e) key_blob
                 then Some (match e_host_spec e with Hashed _ => bs "[hashed name]" | spec => to_field spec end)
                 else None
             | _ => None
             end) kh.

(** The inner loop of [hash_in_place]; [None] is [all_ok = false]. *)
Fixpoint hash_patterns (rng : Rng) (e : Entry) (pats : list bytes) : option (list Entry) * Rng :=
  match pats with
  | [] => (Some [], rng)
  | pat :: pats =>
      match split_host_port pat with
      | None => (None, rng)
      | Some (host, port) =>
          let salt := fill_bytes rng SALT_LEN in
          let hashed :=
            {| e_marker := e_marker e; e_host_spec := Hashed (encode_hashed salt (format_host host port));
               e_key_type := e_key_type e; e_key_blob := e_key_blob e; e_comment := e_comment e |} in
          let (rest, rng) := hash_patterns (rng_skip (Z.to_nat SALT_LEN) rng) e pats in
          (match rest with Some l => Some (hashed :: l) | None => None end, rng)
      end
  end.

Fixpoint hash_in_place (rng : Rng) (kh : KnownHosts) : KnownHosts * Rng :=
  match kh with
  | [] => ([], rng)
  | slot :: kh =>
      let (new, rng) :=
        match slot with
        | SEntry e =>
            match e_host_spec e with
            | Hashed _ => ([slot], rng)
            | Patterns pats =>
                let (hashed, rng) := hash_patterns rng e pats in
                (match hashed with Some l => SEntry <$> l | None => [slot] end, rng)
            end
        | _ => ([slot], rng)
        end in
      let (rest, rng) := hash_in_place rng kh in (new ++ rest, rng)
  end.

(** *** [UpdateHostKeys] *)

Record HostKeysUpdate := { hu_new : list nat; hu_old : list bytes; hu_blocked : option string }.
#[local] Instance HostKeysUpdate_eta : Etable HostKeysUpdate :=
  fun u => {| hu_new := hu_new u; hu_old := hu_old u; hu_blocked := hu_blocked u |}.

(** [p.contains(['*', '?', '!'])] *)
Definition has_wildcard (p : bytes) : bool :=
  List.existsb (λ b, Byte.eqb b STAR || Byte.eqb b QUESTION || Byte.eqb b BANG) p.

Definition simple_entry (e : Entry) : bool :=
  is_plain e && match e_host_spec e with
                | Hashed _ => true
                | Patterns [p] => negb (has_wildcard p)
                | Patterns _ => false
                end.

(** [offered.iter().position(|k| *k == blob)] *)
Fixpoint position (blob : bytes) (offered : list bytes) : option nat :=
  match offered with
  | [] => None
  | k :: offered => if bytes_eqb k blob then Some O else S <$> position blob offered
  end.

Fixpoint update_loop (kh : KnownHosts) (host : bytes) (port : Z) (offered : list bytes) (plan : HostKeysUpdate)
    (known : list bool) : HostKeysUpdate * list bool :=
  match kh with
  | [] => (plan, known)
  | SEntry e :: kh =>
      if negb (host_field_matches (e_host_spec e) host port) then
        let plan := if List.existsb (bytes_eqb (e_key_blob e)) offered && is_plain e
                    then plan <| hu_blocked := Some "host key found under another name" |> else plan in
        update_loop kh host port offered plan known
      else if negb (simple_entry e) then
        update_loop kh host port offered
          (plan <| hu_blocked := Some "marker, host list or wildcard entry for the host" |>) known
      else match position (e_key_blob e) offered with
           | Some i => update_loop kh host port offered plan (<[i := true]> known)
           | None => update_loop kh host port offered (plan <| hu_old := hu_old plan ++ [e_key_blob e] |>) known
           end
  | _ :: kh => update_loop kh host port offered plan known
  end.

Definition host_keys_update (kh : KnownHosts) (host : bytes) (port : Z) (offered : list bytes) : HostKeysUpdate :=
  let (plan, known) := update_loop kh host port offered {| hu_new := []; hu_old := []; hu_blocked := None |}
                         (replicate (length offered) false) in
  plan <| hu_new := List.filter (λ i, negb (nth i known false)) (seq 0 (length offered)) |>.

(** The loop of [add] over the new keys. *)
Fixpoint add_all (rng : Rng) (kh : KnownHosts) (host : bytes) (port : Z) (keys : list (bytes * bytes)) (hashed : bool)
    : KnownHosts * Rng :=
  match keys with
  | [] => (kh, rng)
  | (key_type, blob) :: keys =>
      let (kh, rng) := add rng kh host port key_type blob hashed in add_all rng kh host port keys hashed
  end.

Definition dropped_by_update (host : bytes) (port : Z) (remove : list bytes) (s : Slot) : bool :=
  match s with
  | SEntry e => is_plain e && List.existsb (bytes_eqb (e_key_blob e)) remove
                && host_field_matches (e_host_spec e) host port
  | _ => false
  end.

Definition update_host_keys (rng : Rng) (kh : KnownHosts) (host : bytes) (port : Z) (remove : list bytes)
    (keys : list (bytes * bytes)) (hashed : bool) : KnownHosts * Rng :=
  add_all rng (List.filter (λ s, negb (dropped_by_update host port remove s)) kh) host port keys hashed.
End Store.
