(* ===== verification/KnownHostsFacts.v ===== *)
(** * The known_hosts store survives its file

    What a line means depends on its words only; every store the operations
    can produce is written in lines that are read back as the same entries, so
    that a saved file answers every lookup as the store did. *)
From S2P Require Import Prelude Wire Text TextFacts Glob Base64 Crypto Cipher Packet HostKey Cert KnownHosts.

(** ** A line and its words *)

Definition parse_tokens (ts : list bytes) : option Entry :=
  match ts with
  | [] => None
  | t :: _ =>
      if first_is HASH t then None else
      match split_marker ts with
      | Some (marker, host_field, key_type :: key_b64 :: tokens) =>
          match base64_decode key_b64 with
          | Ok key_blob =>
              Some {| e_marker := marker; e_host_spec := host_spec_of host_field; e_key_type := line_key_type key_type;
                      e_key_blob := key_blob; e_comment := join (bs " ") tokens |}
          | Err _ => None
          end
      | _ => None
      end
  end.

Lemma parse_line_tokens raw :
  parse_line raw = match parse_tokens (split_whitespace raw) with Some e => PEntry e | None => PVerbatim raw end.
Proof.
  unfold parse_line. rewrite split_whitespace_trim. pose proof (str_trim_words raw) as H.
  destruct (split_whitespace raw) as [|t ts]; [by rewrite H|].
  destruct H as (x & y & r & t' & -> & -> & ->). cbn [is_nil orb first_is parse_tokens].
  destruct (Byte.eqb y HASH); [done|].
  destruct (split_marker ((y :: r) :: ts)) as [[[m h] [|kt [|b64 rest]]]|]; [done..| |done].
  by destruct (base64_decode b64).
Qed.

(** ** Printable entries *)

Record printable (e : Entry) : Prop := {
  pr_host : token (to_field (e_host_spec e));
  pr_spec : host_spec_of (to_field (e_host_spec e)) = e_host_spec e;
  pr_front : e_marker e = None → first_is HASH (to_field (e_host_spec e)) = false ∧
               ∀ m, to_field (e_host_spec e) ≠ marker_as_str m;
  pr_type : token (e_key_type e);
  pr_rsa : line_key_type (e_key_type e) = e_key_type e;
  pr_blob : e_key_blob e ≠ [];
  pr_comment : ∃ ws, Forall token ws ∧ e_comment e = join (bs " ") ws;
}.

Definition ascii_token (w : bytes) : Prop := w ≠ [] ∧ Forall (λ b, 33 ≤ u8 b < 128) w.

Lemma ascii_chars w : Forall (λ b, 33 ≤ u8 b < 128) w → lossy_chars w = (λ b, [b]) <$> w.
Proof.
  induction 1 as [|b w Hb _ IH]; [done|]. cbn [lossy_chars fmap list_fmap].
  by rewrite (proj2 (Z.ltb_lt _ _)), IH by lia.
Qed.

Lemma ascii_is_token w : ascii_token w → token w.
Proof.
  intros [Hn H]. split; [done|apply utf8_valid_ascii; eapply list.Forall_impl; [exact H|cbn; lia]|].
  rewrite ascii_chars by done. apply list.Forall_fmap. eapply list.Forall_impl; [exact H|]. cbn beta. intros b Hb.
  unfold char_is_whitespace, in_range. apply orb_false_iff. split; [apply andb_false_iff; right; lia|lia].
Qed.

Lemma sextet_ascii n shift : 33 ≤ u8 (sextet n shift) < 123.
Proof.
  unfold sextet. assert (H : Forall (λ b, 33 ≤ u8 b < 123) ALPHABET) by (repeat (constructor; [done|]); constructor).
  destruct (nth_in_or_default (Z.to_nat (Z.land (Z.shiftr n shift) 63)) ALPHABET Byte.x00) as [Hin|Hd].
  { by apply list_elem_of_In, (proj1 (list.Forall_forall _ _) H) in Hin. }
  exfalso. change 63 with (Z.ones 6) in Hd. rewrite Z.land_ones in Hd by done.
  pose proof (Z.mod_pos_bound (Z.shiftr n shift) (2 ^ 6) ltac:(done)) as Hb.
  assert (Hl : (Z.to_nat (Z.shiftr n shift mod 2 ^ 6) < length ALPHABET)%nat) by (cbn [length ALPHABET bs]; vm_compute length; lia).
  apply (nth_In _ Byte.x00), list_elem_of_In in Hl. rewrite Hd in Hl.
  apply (proj1 (list.Forall_forall _ _) H) in Hl. exact (proj1 Hl eq_refl).
Qed.

Lemma base64_chars m : Forall (λ b, 33 ≤ u8 b < 123) (base64_encode m).
Proof.
  induction m as [m IH] using (induction_ltof1 _ (@length byte)). unfold ltof in IH.
  destruct m as [|a [|b [|c m]]]; cbn [base64_encode]; repeat (constructor; [apply sextet_ascii || done|]); try constructor.
  apply IH. cbn. lia.
Qed.
Lemma base64_ascii m : Forall (λ b, 33 ≤ u8 b < 128) (base64_encode m).
Proof. eapply list.Forall_impl; [apply base64_chars|cbn; lia]. Qed.
Lemma base64_nonempty m : m ≠ [] → base64_encode m ≠ [].
Proof. by destruct m as [|a [|b [|c m]]]. Qed.

Lemma base64_token m : m ≠ [] → token (base64_encode m).
Proof. intros. apply ascii_is_token. split; [by apply base64_nonempty|apply base64_ascii]. Qed.

Lemma marker_token m : token (marker_as_str m).
Proof. apply ascii_is_token. destruct m; (split; [done|repeat (constructor; [done|]); constructor]). Qed.

(** ** An entry printed is read back *)

Definition entry_words (e : Entry) (ws : list bytes) : list bytes :=
  (match e_marker e with Some m => [marker_as_str m] | None => [] end)
  ++ [to_field (e_host_spec e); e_key_type e; base64_encode (e_key_blob e)] ++ ws.

Lemma join_cons_cons sep a b l : join sep (a :: b :: l) = a ++ sep ++ join sep (b :: l).
Proof. done. Qed.

Lemma is_nil_true {A} (l : list A) : is_nil l = true → l = [].
Proof. by destruct l. Qed.

Lemma format_entry_words e ws :
  Forall token ws → e_comment e = join (bs " ") ws → format_entry e = join (bs " ") (entry_words e ws).
Proof.
  intros Hw Hc. unfold format_entry, entry_words. rewrite Hc.
  assert (E : is_nil (join (bs " ") ws) = is_nil ws).
  { destruct ws as [|w ws]; [done|]. inversion Hw as [|? ? Ht _]; subst. pose proof (token_nonempty _ Ht).
    destruct ws; cbn [join]; by destruct w. }
  rewrite E. destruct (e_marker e); cbn [app]; rewrite ?join_cons_cons, <- ?app_assoc; destruct ws; cbn [is_nil join];
    by rewrite ?app_nil_r, <- ?app_assoc.
Qed.

Lemma entry_words_tokens e ws : printable e → Forall token ws → Forall token (entry_words e ws).
Proof.
  intros [] Hw. unfold entry_words. apply Forall_app. split.
  - destruct (e_marker e); repeat constructor; apply marker_token.
  - repeat (constructor; [by try apply base64_token|]). done.
Qed.

Lemma marker_distinct m : first_is HASH (marker_as_str m) = false.
Proof. by destruct m. Qed.

Lemma split_marker_words e ws :
  printable e →
  split_marker (entry_words e ws) =
    Some (e_marker e, to_field (e_host_spec e), [e_key_type e; base64_encode (e_key_blob e)] ++ ws).
Proof.
  intros []. unfold entry_words. destruct (e_marker e) as [m|]; cbn [app split_marker].
  - destruct m; by eval_names.
  - destruct pr_front0 as [_ Hm]; [done|].
    rewrite (proj2 (bytes_eqb_false _ _) (Hm CertAuthority)), (proj2 (bytes_eqb_false _ _) (Hm Revoked)). done.
Qed.

Lemma parse_entry_words e ws :
  printable e → Forall token ws → e_comment e = join (bs " ") ws → parse_tokens (entry_words e ws) = Some e.
Proof.
  intros Hp Hw Hc. unfold parse_tokens.
  assert (Hf : ∃ t ts, entry_words e ws = t :: ts ∧ first_is HASH t = false).
  { unfold entry_words. destruct (e_marker e) eqn:E; cbn [app]; (eexists _, _; split; [done|]).
    - apply marker_distinct.
    - by apply (pr_front _ Hp). }
  destruct Hf as (t & ts & E & Ef). rewrite E, Ef, <- E, split_marker_words by done. cbn [app].
  rewrite base64_roundtrip, (pr_spec _ Hp), (pr_rsa _ Hp), <- Hc. by destruct e.
Qed.

Lemma parse_format_entry e : printable e → parse_tokens (split_whitespace (format_entry e)) = Some e.
Proof.
  intros Hp. destruct (pr_comment _ Hp) as (ws & Hw & Hc).
  rewrite (format_entry_words e ws), split_join_tokens by (done || by apply entry_words_tokens).
  by apply parse_entry_words.
Qed.

(** ** What is read is printable *)

Lemma decode_loop_nonempty input buf padding out r :
  decode_loop input buf padding out = Ok r → buf ≠ [] ∨ out ≠ [] → r ≠ [].
Proof.
  revert buf padding out. induction input as [|c input IH]; intros buf padding out; cbn [decode_loop].
  { unfold decode_tail. intros H [Hb|Ho].
    - destruct buf as [|? [|? [|? [|]]]]; [done|done| | |done]; injection H as <-; by destruct out.
    - destruct buf as [|? [|? [|? [|]]]]; [|done| | |done]; injection H as <-; by destruct out. }
  destruct (skipped c); [by apply IH|]. destruct (TABLE c =? INVALID); [done|].
  destruct (if TABLE c =? PADDING then _ else _) as [[p v]|]; [|done]. intros H _.
  destruct (buf ++ [v]) as [|x1 [|x2 [|x3 [|x4 [|]]]]] eqn:E; try (by apply IH in H; [|left]).
  - by destruct buf.
  - destruct (negb (p =? 0)).
    + cbn [decode_tail] in H. injection H as <-. by destruct out.
    + apply IH in H; [done|]. right. by destruct out.
Qed.

Lemma token_no_blank w b : token w → (u8 b < 128) → char_is_whitespace [b] = true → b ∉ w.
Proof.
  intros [_ Hv Hs] Hb Hw Hin. rewrite <- (lossy_chars_valid _ Hv) in Hin. apply ascii_in_chars in Hin; [|done].
  apply (proj1 (list.Forall_forall _ _) Hs) in Hin. congruence.
Qed.

Lemma base64_decode_nonempty w r : token w → base64_decode w = Ok r → r ≠ [].
Proof.
  intros Hw. unfold base64_decode. destruct w as [|c w]; [by destruct (token_nonempty _ Hw)|].
  assert (Hs : skipped c = false).
  { destruct (skipped c) eqn:E; [|done]. exfalso.
    apply (token_no_blank _ c Hw); [clear -E; by destruct c..|apply list_elem_of_here]. }
  cbn [decode_loop]. rewrite Hs. destruct (TABLE c =? INVALID); [done|].
  destruct (if TABLE c =? PADDING then _ else _) as [[p v]|]; [|done]. cbn [app].
  intros H. eapply decode_loop_nonempty; [exact H|by left].
Qed.

Lemma line_key_type_idem s : line_key_type (line_key_type s) = line_key_type s.
Proof.
  destruct (bytes_eqb s (bs "rsa-sha2-256") || bytes_eqb s (bs "rsa-sha2-512")) eqn:E.
  - assert (Hs : line_key_type s = bs "ssh-rsa") by (unfold line_key_type; by rewrite E). by rewrite Hs.
  - assert (Hs : line_key_type s = s) by (unfold line_key_type; by rewrite E). by rewrite !Hs.
Qed.

Lemma line_key_type_token s : token s → token (line_key_type s).
Proof.
  intros. unfold line_key_type. destruct (_ || _); [|done]. apply ascii_is_token.
  split; [done|repeat (constructor; [done|]); constructor].
Qed.

Lemma host_spec_field h : to_field (host_spec_of h) = h.
Proof. unfold host_spec_of. destruct (starts_with _ h); [done|]. apply join_split_on. Qed.

Lemma split_marker_inv ts m h rest :
  split_marker ts = Some (m, h, rest) → Forall token ts →
  token h ∧ Forall token rest ∧
  (m = None → ts = h :: rest ∧ ∀ k, h ≠ marker_as_str k).
Proof.
  intros H Ht. destruct ts as [|t ts]; [done|]. cbn [split_marker] in H. inversion Ht; subst.
  destruct (bytes_eqb_spec t (marker_as_str CertAuthority)).
  { destruct ts; simplify_eq. inversion H3; subst. naive_solver. }
  destruct (bytes_eqb_spec t (marker_as_str Revoked)).
  { destruct ts; simplify_eq. inversion H3; subst. naive_solver. }
  simplify_eq. split_and!; [done..|]. intros _. split; [done|]. by intros [].
Qed.

Lemma parse_tokens_printable ts e : parse_tokens ts = Some e → Forall token ts → printable e.
Proof.
  unfold parse_tokens. intros H Ht. destruct ts as [|t ts]; [done|].
  destruct (first_is HASH t) eqn:Ef; [done|].
  destruct (split_marker (t :: ts)) as [[[m h] rest]|] eqn:E; [|done].
  apply split_marker_inv in E as (Hh & Hr & Hm); [|done].
  destruct rest as [|kt [|b64 ws]]; [done..|]. inversion Hr as [|? ? Hkt Hr']; subst. inversion Hr' as [|? ? Hb Hws]; subst.
  destruct (base64_decode b64) as [blob|] eqn:Eb; [|done]. injection H as <-.
  split; cbn; rewrite ?host_spec_field; [done..| |by apply line_key_type_token|by apply line_key_type_idem| |by exists ws].
  - intros ->. destruct Hm as [Hm Hk]; [done|]. simplify_eq. done.
  - by eapply base64_decode_nonempty.
Qed.

(** ** Slots *)

Lemma strip_cr_cases line : strip_cr line = line ∨ line = strip_cr line ++ [CR].
Proof.
  unfold strip_cr. destruct (rev line) as [|c r] eqn:E; [by left|].
  destruct (Byte.eqb c CR) eqn:Ec; [right|by left]. apply Byte.byte_dec_bl in Ec as ->.
  rewrite <- (rev_involutive line), E. done.
Qed.

Lemma lossy_chars_ascii_end l b : u8 b < 128 → lossy_chars (l ++ [b]) = lossy_chars l ++ [[b]].
Proof.
  intros Hb. assert (Hc : utf8_cont b = false ∧ ∀ x, utf8_second3 x b = false ∧ utf8_second4 x b = false).
  { split; [|intros x; split]; apply not_true_is_false.
    - intros ?%cont_high. lia.
    - intros ?%second3_high. lia.
    - intros ?%second4_high. lia. }
  destruct Hc as [Hc Hx]. pose proof (char_front _ (char_ascii _ Hb) []) as H1. cbn [app] in H1.
  change (lossy_chars []) with (@nil bytes) in H1.
  induction l as [l IH] using (induction_ltof1 _ (@length byte)). unfold ltof in IH.
  destruct l as [|b0 l1]; [exact H1|]. cbn [app lossy_chars].
  assert (I1 : lossy_chars (l1 ++ [b]) = lossy_chars l1 ++ [[b]]) by (apply IH; cbn; lia).
  rewrite I1.
  destruct (u8 b0 <? 128) eqn:E1; [done|]. destruct (in_range 194 (u8 b0) 223).
  { destruct l1 as [|b1 l2]; cbn [app]; [by rewrite Hc|]. destruct (utf8_cont b1); [|done]. rewrite IH by (cbn; lia). done. }
  destruct (in_range 224 (u8 b0) 239).
  { destruct l1 as [|b1 l2]; cbn [app]; [by rewrite (proj1 (Hx _))|]. destruct (utf8_second3 (u8 b0) b1); [|done].
    destruct l2 as [|b2 l3]; cbn [app]; [by rewrite Hc, H1|].
    destruct (utf8_cont b2); [rewrite IH by (cbn; lia); done|]. change (b2 :: l3 ++ [b]) with ((b2 :: l3) ++ [b]).
    rewrite IH by (cbn; lia). done. }
  destruct (in_range 240 (u8 b0) 244); [|done].
  destruct l1 as [|b1 l2]; cbn [app]; [by rewrite (proj2 (Hx _))|]. destruct (utf8_second4 (u8 b0) b1); [|done].
  destruct l2 as [|b2 l3]; cbn [app]; [by rewrite Hc, H1|].
  destruct (utf8_cont b2).
  2:{ change (b2 :: l3 ++ [b]) with ((b2 :: l3) ++ [b]). rewrite IH by (cbn; lia). done. }
  destruct l3 as [|b3 l4]; cbn [app]; [by rewrite Hc, H1|].
  destruct (utf8_cont b3); [rewrite IH by (cbn; lia); done|]. change (b3 :: l4 ++ [b]) with ((b3 :: l4) ++ [b]).
  rewrite IH by (cbn; lia). done.
Qed.

Lemma utf8_valid_ascii_end l b : u8 b < 128 → utf8_valid (l ++ [b]) = utf8_valid l.
Proof.
  intros Hb. destruct (utf8_valid l) eqn:E; [by rewrite utf8_valid_app; [apply (char_valid _ (char_ascii _ Hb) [])|]|].
  apply not_true_is_false. intros H%lossy_chars_valid. rewrite lossy_chars_ascii_end in H by done.
  rewrite concat_app in H. apply app_inj_2 in H as [H _]; [|done].
  rewrite <- H, concat_chars_valid in E by apply lossy_chars_are_chars. done.
Qed.

(** A trailing carriage return changes neither validity nor the words. *)
Lemma strip_cr_valid line : utf8_valid (strip_cr line) = utf8_valid line.
Proof. destruct (strip_cr_cases line) as [->|E]; [done|]. rewrite E at 2. by rewrite utf8_valid_ascii_end. Qed.

Lemma strip_cr_words line : words (lossy_chars (strip_cr line)) [] = words (lossy_chars line) [].
Proof.
  destruct (strip_cr_cases line) as [->|E]; [done|]. rewrite E at 2. rewrite lossy_chars_ascii_end by done.
  rewrite words_blank_end; [done|by repeat constructor].
Qed.

Lemma split_whitespace_lossy l : split_whitespace (from_utf8_lossy l) = words (lossy_chars l) [].
Proof. unfold split_whitespace, from_utf8_lossy. by rewrite concat_chars by apply lossy_chars_are_chars. Qed.

(** The entry a raw line keeps. *)
Definition raw_entry (b : bytes) : option Entry :=
  match parse_tokens (words (lossy_chars b) []) with
  | Some e => if is_revoked_entry e then Some e else None
  | None => None
  end.

Lemma load_line_eq line :
  load_line line =
    if utf8_valid line
    then match parse_tokens (split_whitespace line) with Some e => SEntry e | None => SVerbatim (strip_cr line) end
    else SRaw (strip_cr line) (raw_entry line).
Proof.
  unfold load_line, raw_entry. rewrite strip_cr_valid, !parse_line_tokens, split_whitespace_lossy.
  unfold split_whitespace. rewrite strip_cr_words. destruct (utf8_valid line); [by destruct (parse_tokens _)|].
  by destruct (parse_tokens _).
Qed.

(** ** The invariant of the store *)

Definition slot_ok (s : Slot) : Prop :=
  match s with
  | SVerbatim s => NEWLINE ∉ s ∧ utf8_valid s = true ∧ parse_tokens (split_whitespace s) = None
  | SRaw b r => NEWLINE ∉ b ∧ utf8_valid b = false ∧ r = raw_entry b
  | SEntry e => printable e
  | SRemoved => True
  end.
Definition store_ok (kh : KnownHosts) : Prop := Forall slot_ok kh.

(** What a slot says about keys: its entry, and whether only as a revocation. *)
Definition slot_evidence (s : Slot) : option (bool * Entry) :=
  match s with SEntry e => Some (true, e) | SRaw _ (Some e) => Some (false, e) | _ => None end.
Definition evidence (kh : KnownHosts) : list (bool * Entry) := omap slot_evidence kh.

Lemma strip_cr_no_newline line : NEWLINE ∉ line → NEWLINE ∉ strip_cr line.
Proof. destruct (strip_cr_cases line) as [->|E]; [done|]. rewrite E at 1. rewrite not_elem_of_app. naive_solver. Qed.

Lemma load_line_ok line : NEWLINE ∉ line → slot_ok (load_line line).
Proof.
  intros Hn. rewrite load_line_eq. destruct (utf8_valid line) eqn:Ev.
  - destruct (parse_tokens _) as [e|] eqn:E; cbn.
    + eapply parse_tokens_printable; [exact E|apply split_whitespace_tokens].
    + rewrite strip_cr_valid. unfold split_whitespace. rewrite strip_cr_words. auto using strip_cr_no_newline.
  - cbn. rewrite strip_cr_valid. unfold raw_entry. rewrite strip_cr_words. auto using strip_cr_no_newline.
Qed.

Lemma load_lines_ok parts : Forall (λ p, NEWLINE ∉ p) parts → store_ok (load_lines parts).
Proof.
  induction 1 as [|p ps Hp _ IH]; cbn [load_lines]; [constructor|].
  destruct (is_nil ps && is_nil p); [constructor|]. constructor; [by apply load_line_ok|done].
Qed.

Lemma from_bytes_ok data : store_ok (from_bytes data).
Proof. apply load_lines_ok, split_on_parts. Qed.

(** ** Saving and loading *)

(** The line a slot is written as. *)
Definition slot_line (s : Slot) : option bytes :=
  match s with
  | SVerbatim s => Some s
  | SEntry e => Some (format_entry e)
  | SRaw b _ => Some b
  | SRemoved => None
  end.

Lemma to_bytes_lines kh : to_bytes kh = concat ((λ l, l ++ [NEWLINE]) <$> omap slot_line kh).
Proof.
  unfold to_bytes. induction kh as [|s kh IH]; [done|]. cbn [fmap list_fmap concat]. rewrite IH.
  destruct s; by cbn.
Qed.

Lemma join_no_newline ws : Forall token ws → NEWLINE ∉ join (bs " ") ws.
Proof.
  induction 1 as [|w ws Hw _ IH]; [apply not_elem_of_nil|].
  assert (NEWLINE ∉ w) by (by apply token_no_blank). destruct ws as [|w' ws]; [done|].
  rewrite join_cons_cons, !not_elem_of_app. split_and!; [done| |done]. by apply not_elem_of_cons; split; [|apply not_elem_of_nil].
Qed.

Lemma join_valid ws : Forall token ws → utf8_valid (join (bs " ") ws) = true.
Proof.
  induction 1 as [|w ws Hw _ IH]; [done|]. destruct ws as [|w' ws]; [apply Hw|].
  rewrite join_cons_cons, utf8_valid_app by apply Hw. by rewrite utf8_valid_app.
Qed.

Lemma format_entry_line e : printable e → NEWLINE ∉ format_entry e ∧ utf8_valid (format_entry e) = true.
Proof.
  intros Hp. destruct (pr_comment _ Hp) as (ws & Hw & Hc). rewrite (format_entry_words e ws) by done.
  pose proof (entry_words_tokens e ws Hp Hw). auto using join_no_newline, join_valid.
Qed.

Lemma slot_line_ok s l : slot_ok s → slot_line s = Some l →
  NEWLINE ∉ l ∧ slot_evidence (load_line l) = slot_evidence s.
Proof.
  rewrite load_line_eq. destruct s as [s|b r|e|]; cbn; [| | |done]; intros Hs [= <-].
  - destruct Hs as (Hn & -> & ->). done.
  - destruct Hs as (Hn & -> & ->). done.
  - destruct (format_entry_line e Hs) as [Hn ->]. by rewrite parse_format_entry.
Qed.

Lemma load_lines_terminated ls : load_lines (ls ++ [[]]) = load_line <$> ls.
Proof. induction ls as [|l ls IH]; [done|]. cbn [app load_lines fmap list_fmap]. rewrite IH. by destruct ls. Qed.

Lemma reload_evidence kh : store_ok kh → evidence (from_bytes (to_bytes kh)) = evidence kh.
Proof.
  intros Hok. rewrite to_bytes_lines. unfold from_bytes. rewrite split_on_lines.
  - rewrite load_lines_terminated. unfold evidence. induction Hok as [|s kh Hs _ IH]; [done|].
    cbn [omap list_omap]. destruct (slot_line s) as [l|] eqn:E.
    + cbn [fmap list_fmap omap list_omap]. rewrite (proj2 (slot_line_ok s l Hs E)).
      destruct (slot_evidence s); [f_equal|]; apply IH.
    + destruct s; done.
  - apply list.Forall_forall. intros l (s & Hs & E)%list_elem_of_omap.
    eapply slot_line_ok; [|exact E]. by apply (proj1 (list.Forall_forall _ _) Hok).
Qed.

(** ** Answers depend on the evidence only *)

Section Answers.
Context {HH : HostHash}.

Lemma evidence_cons s kh :
  evidence (s :: kh) = match slot_evidence s with Some x => x :: evidence kh | None => evidence kh end.
Proof. unfold evidence. cbn [omap list_omap]. done. Qed.

(** Entries of the file proper, which answer the second pass. *)
Definition entry_of (x : bool * Entry) : option Entry := if x.1 then Some x.2 else None.
Definition revocation_of (x : bool * Entry) : option Entry := if is_revoked_entry x.2 then Some x.2 else None.

Lemma revoked_entries_evidence kh : revoked_entries kh = omap revocation_of (evidence kh).
Proof.
  unfold revoked_entries. induction kh as [|s kh IH]; [done|]. rewrite evidence_cons. cbn [omap list_omap].
  destruct s as [s|b [e|]|e|]; cbn [revoked_entry slot_evidence omap list_omap revocation_of snd]; by rewrite IH.
Qed.

Definition as_slots (l : list (bool * Entry)) : list Slot := SEntry <$> omap entry_of l.

Lemma existsb_entries (f : Entry → bool) kh :
  List.existsb (λ s, match s with SEntry e => f e | _ => false end) kh =
  List.existsb f (omap entry_of (evidence kh)).
Proof.
  induction kh as [|s kh IH]; [done|]. rewrite evidence_cons.
  destruct s as [s|b [e|]|e|]; cbn [List.existsb slot_evidence omap list_omap entry_of fst snd]; by rewrite <- IH.
Qed.

Lemma pass2_evidence kh host port kt kb m x :
  lookup_pass2 kh host port kt kb m x = lookup_pass2 (as_slots (evidence kh)) host port kt kb m x.
Proof.
  revert m x. induction kh as [|s kh IH]; intros m x; [done|]. rewrite evidence_cons. unfold as_slots in *.
  destruct s as [s|b [e|]|e|]; cbn [slot_evidence omap list_omap entry_of fst snd fmap list_fmap lookup_pass2]; by rewrite !IH.
Qed.

(** Two stores with the same evidence give the same answers. *)
Record same_answers (a b : KnownHosts) : Prop := {
  sa_lookup host port kt kb : lookup a host port kt kb = lookup b host port kt kb;
  sa_cert `{SigPrims, PureCrypto} allow host port cert algos now :
    verify_host_cert allow a host port cert algos now = verify_host_cert allow b host port cert algos now;
  sa_ca host port cert : has_ca_for a host port cert = has_ca_for b host port cert;
  sa_revokes host port cert : revokes_cert a host port cert = revokes_cert b host port cert;
}.

Lemma evidence_answers a b : evidence a = evidence b → same_answers a b.
Proof.
  intros E.
  assert (Hr : revoked_entries a = revoked_entries b) by (by rewrite !revoked_entries_evidence, E).
  assert (Hc : ∀ host cert port, ca_trusted a host cert port = ca_trusted b host cert port).
  { intros. unfold ca_trusted. by rewrite !existsb_entries, E. }
  assert (Hk : ∀ host port cert, revokes_cert a host port cert = revokes_cert b host port cert).
  { intros. unfold revokes_cert. by rewrite Hr. }
  assert (Ha : ∀ host port cert, has_ca_for a host port cert = has_ca_for b host port cert).
  { intros. unfold has_ca_for. by rewrite !Hc. }
  split; [|intros; unfold verify_host_cert; by rewrite Hk, Ha|done..].
  intros. unfold lookup, plain_host_has_key. rewrite Hr, pass2_evidence, (pass2_evidence b), !existsb_entries, E. done.
Qed.

(** ** Reachable stores *)

(** Every store the program can hold: loaded from any bytes, then changed by
    the operations.  Names and key types are texts; a key is not empty and its
    type is not the name of an RSA signature algorithm, as the callers ensure. *)
Definition key_arg (kt kb : bytes) : Prop :=
  utf8_valid kt = true ∧ line_key_type kt = kt ∧ kb ≠ [].

Inductive reachable : KnownHosts → Prop :=
  | r_load data : reachable (from_bytes data)
  | r_add rng kh host port kt kb hashed :
      reachable kh → utf8_valid host = true → is_u16 port → key_arg kt kb →
      reachable (try_add rng kh host port kt kb hashed).2.1
  | r_add_names kh names kt kb :
      reachable kh → Forall (λ n, utf8_valid n.1 = true ∧ is_u16 n.2) names → key_arg kt kb →
      reachable (try_add_names kh names kt kb).2
  | r_remove kh host port : reachable kh → reachable (remove kh host port).2
  | r_remove_exact kh host port : reachable kh → reachable (remove_exact kh host port).2
  | r_hash rng kh : reachable kh → reachable (hash_in_place rng kh).1
  | r_update rng kh host port gone keys hashed :
      reachable kh → utf8_valid host = true → is_u16 port → Forall (λ k, key_arg k.1 k.2) keys →
      reachable (update_host_keys rng kh host port gone keys hashed).1.

Lemma safe_field_token s : utf8_valid s = true → safe_field s = true → token s.
Proof.
  unfold safe_field. intros Hv H. zbool. split; [by intros ->|done|].
  apply list.Forall_forall. intros c Hc. destruct (char_is_whitespace c) eqn:E; [|done]. exfalso.
  enough (List.existsb (λ c, char_is_whitespace c || char_is_control c || bytes_eqb c [comma]) (chars s) = true) by congruence.
  apply List.existsb_exists. exists c. rewrite E. by apply list_elem_of_In in Hc.
Qed.

Lemma safe_field_front s c : safe_field s = true → c ∈ [Byte.x40; PIPE; HASH] → first_is c s = false.
Proof. unfold safe_field. intros H Hc. zbool. apply list_elem_of_In in Hc. by destruct Hc as [<-|[<-|[<-|[]]]]. Qed.

Lemma safe_field_no_comma s : utf8_valid s = true → safe_field s = true → comma ∉ s.
Proof.
  unfold safe_field. intros Hv H Hin. zbool. rewrite <- (lossy_chars_valid s Hv) in Hin.
  apply ascii_in_chars in Hin; [|done].
  enough (List.existsb (λ c, char_is_whitespace c || char_is_control c || bytes_eqb c [comma]) (chars s) = true) by congruence.
  apply List.existsb_exists. exists [comma]. split; [by apply list_elem_of_In|done].
Qed.

Lemma token_app a b : token a → token b → token (a ++ b).
Proof.
  intros [Ha Va Sa] [Hb Vb Sb]. split; [by destruct a|by rewrite utf8_valid_app|].
  rewrite lossy_chars_app by done. by apply Forall_app.
Qed.

Lemma show_uint_token z : 0 ≤ z → token (show_uint z).
Proof.
  intros Hz. apply ascii_is_token. split; [apply show_digits_nonempty|].
  eapply list.Forall_impl; [by apply show_uint_digits|]. unfold is_digit. intros. lia.
Qed.

Ltac ascii_tok := apply ascii_is_token; split; [done|repeat (constructor; [done|]); constructor].

Lemma format_host_pattern_token host port : token host → 0 ≤ port → token (format_host_pattern host port).
Proof.
  intros Hh Hp. unfold format_host_pattern. destruct (port =? 22); [done|].
  apply token_app; [ascii_tok|]. apply token_app; [done|]. apply token_app; [ascii_tok|by apply show_uint_token].
Qed.

Lemma format_host_pattern_no_comma host port : comma ∉ host → 0 ≤ port → comma ∉ format_host_pattern host port.
Proof.
  intros Hh Hp. unfold format_host_pattern. destruct (port =? 22); [done|]. rewrite !not_elem_of_app.
  split_and!; [set_solver|done|set_solver|]. intros Hin.
  apply (proj1 (list.Forall_forall _ _) (show_uint_digits port Hp)) in Hin. by destruct Hin as [[] _].
Qed.

Lemma format_host_pattern_front host port c :
  first_is c host = false → Byte.eqb LBRACKET c = false → first_is c (format_host_pattern host port) = false.
Proof. intros. unfold format_host_pattern. by destruct (port =? 22). Qed.

Lemma hashed_token salt host : token (encode_hashed salt host).
Proof.
  apply ascii_is_token. split; [done|]. unfold encode_hashed. rewrite !Forall_app.
  split_and!; [repeat (constructor; [done|]); constructor|apply base64_ascii|by repeat constructor|apply base64_ascii].
Qed.

Lemma hashed_spec salt host : host_spec_of (encode_hashed salt host) = Hashed (encode_hashed salt host).
Proof. unfold host_spec_of, encode_hashed. by rewrite (proj2 (starts_with_spec _ _)) by eauto. Qed.

(** *** The operations keep the invariant *)

Lemma first_is_app c (s t : bytes) : s ≠ [] → first_is c (s ++ t) = first_is c s.
Proof. by destruct s. Qed.

Lemma marker_front m : first_is Byte.x40 (marker_as_str m) = true.
Proof. by destruct m. Qed.

(** A host field that does not begin like a marker, a comment or a hashed name. *)
Lemma plain_patterns_printable ps kt kb :
  ps ≠ [] → Forall (λ p, comma ∉ p) ps → token (join [comma] ps) →
  (∀ c, c ∈ [Byte.x40; PIPE; HASH] → first_is c (join [comma] ps) = false) →
  token kt → line_key_type kt = kt → kb ≠ [] →
  printable (plain_entry (Patterns ps) kt kb).
Proof.
  intros Hne Hcm Ht Hf Hk Hr Hb. split; cbn; [done| |intros _; split|done..|by exists []].
  - unfold host_spec_of. destruct (starts_with (bs "|1|") (join [comma] ps)) eqn:E; [|by rewrite split_on_join].
    apply starts_with_spec in E as [t E]. specialize (Hf PIPE). rewrite E in Hf. set_solver.
  - apply Hf. set_solver.
  - intros m E. specialize (Hf Byte.x40). rewrite E, marker_front in Hf. set_solver.
Qed.

Lemma hashed_printable m salt host kt kb ws :
  token kt → line_key_type kt = kt → kb ≠ [] → Forall token ws →
  printable {| e_marker := m; e_host_spec := Hashed (encode_hashed salt host); e_key_type := kt; e_key_blob := kb;
               e_comment := join (bs " ") ws |}.
Proof.
  intros Hk Hr Hb Hw. split; cbn; [apply hashed_token|apply hashed_spec|intros _; split; [done|]|done..|by exists ws].
  by intros [].
Qed.

Lemma safe_pattern_printable host port kt kb :
  utf8_valid host = true → safe_field host = true → 0 ≤ port → key_arg kt kb → token kt →
  printable (plain_entry (Patterns [format_host_pattern host port]) kt kb).
Proof.
  intros Hv Hs Hp (_ & Hr & Hb) Hk. pose proof (safe_field_token _ Hv Hs) as Ht. apply plain_patterns_printable; try done.
  - repeat constructor. apply format_host_pattern_no_comma; [by apply safe_field_no_comma|done].
  - by apply format_host_pattern_token.
  - intros c Hc. apply format_host_pattern_front; [by apply safe_field_front|].
    apply list_elem_of_In in Hc. by destruct Hc as [<-|[<-|[<-|[]]]].
Qed.

Lemma try_add_ok rng kh host port kt kb hashed :
  store_ok kh → utf8_valid host = true → is_u16 port → key_arg kt kb →
  store_ok (try_add rng kh host port kt kb hashed).2.1.
Proof.
  intros Hk Hv Hp Ha. unfold try_add.
  destruct (safe_field kt) eqn:Ek; [|done]. destruct (safe_field host) eqn:Eh; [|done]. cbn [negb].
  assert (Hkt : token kt) by (destruct Ha; by apply safe_field_token).
  destruct hashed; cbn; (apply Forall_app; split; [done|constructor; [|constructor]]); cbn.
  - destruct Ha as (? & ? & ?). by apply (hashed_printable None _ _ _ _ []).
  - apply safe_pattern_printable; [done..|width_lia|done|done].
Qed.

Lemma join_token ps : ps ≠ [] → Forall token ps → token (join [comma] ps).
Proof.
  intros Hn H. induction H as [|p ps Hp _ IH]; [done|]. destruct ps as [|q ps]; [done|].
  rewrite join_cons_cons. apply token_app; [done|]. apply token_app; [ascii_tok|]. by apply IH.
Qed.

Lemma try_add_names_ok kh names kt kb :
  store_ok kh → Forall (λ n, utf8_valid n.1 = true ∧ is_u16 n.2) names → key_arg kt kb →
  store_ok (try_add_names kh names kt kb).2.
Proof.
  intros Hk Hn Ha. unfold try_add_names. destruct (safe_field kt) eqn:Ek; [|done]. cbn [negb].
  destruct (is_nil names || _) eqn:E; [done|]. zbool. apply Forall_app. split; [done|]. constructor; [|constructor]. cbn.
  set (ps := (λ n, format_host_pattern n.1 n.2) <$> names).
  assert (Hs : Forall (λ n, safe_field n.1 = true) names).
  { apply list.Forall_forall. intros n Hin. apply not_false_iff_true. intros Hf.
    enough (List.existsb (λ n : bytes * Z, negb (safe_field n.1)) names = true) by congruence.
    apply List.existsb_exists. exists n. rewrite Hf. by apply list_elem_of_In in Hin. }
  assert (Hps : Forall (λ p, comma ∉ p ∧ token p) ps).
  { apply list.Forall_fmap. apply list.Forall_forall. intros n Hin. cbn.
    destruct (proj1 (list.Forall_forall _ _) Hn n Hin) as [Hv Hp]. pose proof (proj1 (list.Forall_forall _ _) Hs n Hin) as Hf.
    cbn in *. split; [apply format_host_pattern_no_comma; [by apply safe_field_no_comma|width_lia]|].
    apply format_host_pattern_token; [by apply safe_field_token|width_lia]. }
  assert (Hne : ps ≠ []) by (by destruct names).
  rewrite split_on_join; [|done|by eapply list.Forall_impl; [exact Hps|naive_solver]].
  destruct Ha as (Hv & Hr & Hb). apply plain_patterns_printable; try done.
  - by eapply list.Forall_impl; [exact Hps|naive_solver].
  - apply join_token; [done|]. by eapply list.Forall_impl; [exact Hps|naive_solver].
  - intros c Hc. destruct names as [|[h p] names]; [done|]. inversion Hs; inversion Hn; simplify_eq/=.
    assert (Hf : first_is c (format_host_pattern h p) = false).
    { apply format_host_pattern_front; [by apply safe_field_front|].
      apply list_elem_of_In in Hc. by destruct Hc as [<-|[<-|[<-|[]]]]. }
    inversion Hps as [|? ? [_ Ht] _]; subst. cbn in Ht. destruct names; [done|].
    cbn [fmap list_fmap]. rewrite first_is_app; [done|apply Ht].
  - by apply safe_field_token.
Qed.

Lemma remove_slots_ok drop kh : store_ok kh → store_ok (remove_slots drop kh).2.
Proof.
  intros H. cbn. apply list.Forall_fmap. eapply list.Forall_impl; [exact H|]. intros s Hs. cbn. by destruct (drop s).
Qed.

Lemma hash_patterns_ok rng e pats l : printable e → (hash_patterns rng e pats).1 = Some l → Forall printable l.
Proof.
  intros Hp. revert rng l. induction pats as [|pat pats IH]; intros rng l; cbn [hash_patterns]; [by intros [= <-]|].
  destruct (split_host_port pat) as [[host port]|]; [|done].
  destruct (hash_patterns _ e pats) as [[l'|] rng'] eqn:E; [|done]. cbn [fst]. intros [= <-].
  constructor; [|eapply IH; by rewrite E]. destruct (pr_comment _ Hp) as (ws & Hw & ->).
  apply hashed_printable; [apply Hp..|done].
Qed.

Lemma hash_in_place_ok rng kh : store_ok kh → store_ok (hash_in_place rng kh).1.
Proof.
  intros H. revert rng. induction H as [|s kh Hs _ IH]; intros rng; cbn [hash_in_place]; [constructor|].
  assert (Hn : ∀ new rng', (∀ x, x ∈ new → slot_ok x) →
    store_ok (let (rest, rng) := hash_in_place rng' kh in (new ++ rest, rng)).1).
  { intros new rng' Hx. specialize (IH rng'). destruct (hash_in_place rng' kh). apply Forall_app.
    split; [by apply list.Forall_forall|done]. }
  assert (Hself : ∀ x, x ∈ [s] → slot_ok x) by (intros x ->%list_elem_of_singleton; done).
  destruct s as [s|b r|e|]; try (by apply Hn). destruct (e_host_spec e) as [pats|]; [|by apply Hn].
  destruct (hash_patterns rng e pats) as [[l|] rng'] eqn:E; [|by apply Hn]. apply Hn.
  intros x (e' & -> & He')%list_elem_of_fmap.
  pose proof (hash_patterns_ok rng e pats l Hs) as Hl. rewrite E in Hl.
  by apply (proj1 (list.Forall_forall _ _) (Hl eq_refl)).
Qed.

Lemma add_all_ok rng kh host port keys hashed :
  store_ok kh → utf8_valid host = true → is_u16 port → Forall (λ k, key_arg k.1 k.2) keys →
  store_ok (add_all rng kh host port keys hashed).1.
Proof.
  intros Hk Hv Hp Hks. revert rng kh Hk. induction Hks as [|[kt kb] keys Ha _ IH]; intros rng kh Hk; [done|].
  cbn [add_all]. unfold add. pose proof (try_add_ok rng kh host port kt kb hashed Hk Hv Hp Ha) as Hn.
  destruct (try_add rng kh host port kt kb hashed) as [r [kh' rng']]. by apply IH.
Qed.

Lemma filter_ok (f : Slot → bool) kh : store_ok kh → store_ok (List.filter f kh).
Proof.
  induction 1 as [|s kh Hs _ IH]; cbn; [constructor|]. destruct (f s); [by constructor|done].
Qed.

Lemma reachable_ok kh : reachable kh → store_ok kh.
Proof.
  induction 1; auto using from_bytes_ok, try_add_ok, try_add_names_ok, hash_in_place_ok; try (by apply remove_slots_ok).
  unfold update_host_keys. by apply add_all_ok; [apply filter_ok|..].
Qed.
End Answers.

