(* ===== verification/KnownHostsTrust.v ===== *)
(** * What a known_hosts lookup says

    The meaning of [lookup]; a key that was added is found again, hashed or
    not; and two places where revocation does not do what the file says. *)
From S2P Require Import Prelude Wire Text TextFacts Glob Base64 Crypto Cipher Packet HostKey Cert KnownHosts KnownHostsFacts.

Section Lookup.
Context {HH : HostHash}.

(** ** The meaning of a lookup *)

(** The plain entries for [host:port], in file order. *)
Definition for_host (kh : KnownHosts) (host : bytes) (port : Z) : list Entry :=
  omap (λ s, match s with
             | SEntry e => if is_plain e && host_field_matches (e_host_spec e) host port then Some e else None
             | _ => None
             end) kh.

Definition key_of (e : Entry) : bytes * bytes := (e_key_type e, e_key_blob e).

(** A revocation of the key for [host:port]. *)
Definition revoked_for (kh : KnownHosts) (host : bytes) (port : Z) (kt kb : bytes) : Prop :=
  ∃ e, e ∈ revoked_entries kh ∧ host_field_matches (e_host_spec e) host port = true ∧ key_of e = (kt, kb).

Lemma is_key_true kt kb e : is_key kt kb e = true ↔ key_of e = (kt, kb).
Proof. unfold is_key, key_of. rewrite andb_true_iff, !bytes_eqb_true. naive_solver. Qed.

Lemma existsb_elem {A} (f : A → bool) l : List.existsb f l = true ↔ ∃ x, x ∈ l ∧ f x = true.
Proof. rewrite List.existsb_exists. by setoid_rewrite list_elem_of_In. Qed.

Lemma pass2_spec kh host port kt kb m x :
  lookup_pass2 kh host port kt kb m x =
    if List.existsb (is_key kt kb) (for_host kh host port) then None
    else Some (m || negb (is_nil (for_host kh host port)), x ++ (key_of <$> for_host kh host port)).
Proof.
  revert m x. induction kh as [|s kh IH]; intros m x; [cbn; by rewrite orb_false_r, app_nil_r|].
  unfold for_host in *. destruct s as [s|b r|e|]; cbn [lookup_pass2 omap list_omap]; [apply IH..| |apply IH].
  destruct (is_plain e); cbn [negb andb]; [|apply IH]. destruct (host_field_matches _ _ _); cbn [negb]; [|apply IH].
  cbn [List.existsb]. destruct (is_key kt kb e); cbn [orb]; [done|]. rewrite IH.
  destruct (List.existsb _ _); [done|]. cbn [is_nil negb fmap list_fmap]. rewrite orb_true_r, <- app_assoc. done.
Qed.

Lemma plain_has_key_spec kh host kt kb :
  plain_host_has_key kh host kt kb = List.existsb (is_key kt kb) (for_host kh host 22).
Proof.
  unfold plain_host_has_key, for_host. induction kh as [|s kh IH]; [done|]. cbn [List.existsb omap list_omap].
  destruct s as [s|b r|e|]; [apply IH..| |apply IH]. rewrite IH.
  destruct (is_plain e); cbn [andb]; [|done]. destruct (host_field_matches _ _ _); [|by rewrite andb_false_r].
  cbn [List.existsb]. by rewrite andb_true_r.
Qed.

Lemma revoked_test kh host port kt kb :
  List.existsb (λ e, host_field_matches (e_host_spec e) host port && is_key kt kb e) (revoked_entries kh) = true ↔
  revoked_for kh host port kt kb.
Proof.
  rewrite existsb_elem. unfold revoked_for. setoid_rewrite andb_true_iff. setoid_rewrite is_key_true. naive_solver.
Qed.

Lemma has_key_elem kt kb l : List.existsb (is_key kt kb) l = true ↔ (kt, kb) ∈ key_of <$> l.
Proof.
  rewrite existsb_elem, list_elem_of_fmap. setoid_rewrite is_key_true. naive_solver.
Qed.
End Lookup.

(** C21: a lookup is exactly what the file says.  It answers "revoked" when and
    only when an [@revoked] entry names the key for that host and port; if not,
    "match" when a plain entry for the host and port has the key or, for a port
    other than 22 without entries of its own, when an entry of the bare host
    has it; "mismatch" with exactly the keys on file, in their order, when
    there are some and the key is not among them; and "unknown" when there are
    none. *)
Theorem lookup_spec {HH : HostHash} kh host port kt kb :
  match lookup kh host port kt kb with
  | LRevoked => revoked_for kh host port kt kb
  | Match => ¬ revoked_for kh host port kt kb ∧
      ((kt, kb) ∈ key_of <$> for_host kh host port ∨
       port ≠ 22 ∧ for_host kh host port = [] ∧ (kt, kb) ∈ key_of <$> for_host kh host 22)
  | Mismatch expected => ¬ revoked_for kh host port kt kb ∧
      expected = key_of <$> for_host kh host port ∧ expected ≠ [] ∧ (kt, kb) ∉ expected
  | Unknown => ¬ revoked_for kh host port kt kb ∧
      for_host kh host port = [] ∧ (port = 22 ∨ (kt, kb) ∉ key_of <$> for_host kh host 22)
  end.
Proof.
  unfold lookup. pose proof (revoked_test kh host port kt kb) as Hr. destruct (List.existsb _ _); [by apply Hr|].
  assert (Hn : ¬ revoked_for kh host port kt kb) by (rewrite <- Hr; done). clear Hr.
  rewrite pass2_spec, plain_has_key_spec. pose proof (has_key_elem kt kb (for_host kh host port)) as Hk.
  pose proof (has_key_elem kt kb (for_host kh host 22)) as Hp.
  destruct (List.existsb (is_key kt kb) (for_host kh host port)); [naive_solver|]. cbn [orb app].
  destruct (for_host kh host port) as [|e l]; cbn [is_nil negb].
  - destruct (Z.eqb_spec port 22); [naive_solver|]. cbn [negb andb].
    destruct (List.existsb _ _); split; naive_solver.
  - split_and!; [done..|]. intros H%Hk. done.
Qed.

(** ** A name and its own entry *)

Section Names.
Context {HH : HostHash}.

(** A host name the patterns can express: no bracket or negation in front, and
    within the bounds on patterns. *)
Definition plain_name (host : bytes) : Prop :=
  first_is LBRACKET host = false ∧ first_is BANG host = false ∧ len host ≤ MAX_GLOB_PATTERN_LEN ∧
  (length (List.filter (Byte.eqb STAR) host) ≤ MAX_GLOB_STARS)%nat.

Lemma glob_inner_refl cs : glob_inner cs cs = true.
Proof.
  induction cs as [|c cs IH]; [done|]. cbn [glob_inner].
  destruct (bytes_eqb c [STAR]).
  { apply existsb_elem. exists cs. split; [|done]. cbn [suffixes]. apply list_elem_of_further. destruct cs; apply list_elem_of_here. }
  destruct (bytes_eqb c [QUESTION]); [done|]. unfold eq_ignore_ascii_case. by rewrite bytes_eqb_refl.
Qed.

Lemma glob_match_refl host : plain_name host → glob_match_ascii_ci host host = true.
Proof.
  intros (_ & _ & Hl & Hs). unfold glob_match_ascii_ci. rewrite (proj2 (Z.ltb_ge _ _)) by lia.
  rewrite (proj2 (Nat.ltb_ge _ _)) by lia. apply glob_inner_refl.
Qed.

Lemma strip_prefix_first c s : first_is c s = false → strip_prefix [c] s = None.
Proof.
  intros H. unfold strip_prefix. destruct s as [|x s]; [done|]. cbn in *. destruct (byte_eqb_spec c x) as [->|]; [by rewrite byte_eqb_refl in H|done].
Qed.

Lemma digits_not b z : 0 ≤ z → ¬ is_digit b → b ∉ show_uint z.
Proof. intros Hz Hb Hin. by apply (proj1 (list.Forall_forall _ _) (show_uint_digits z Hz)) in Hin. Qed.

(** The pattern of a name at a port matches that name at that port. *)
Lemma own_pattern_matches host port :
  plain_name host → is_u16 port → host_field_matches (Patterns [format_host_pattern host port]) host port = true.
Proof.
  intros Hn Hp. pose proof Hn as (Hb & Hx & _). cbn [host_field_matches]. unfold patterns_match, format_host_pattern.
  destruct (Z.eqb_spec port 22) as [->|Hne]; cbn [patterns_loop].
  { rewrite strip_prefix_first by done. unfold pattern_match_inner. rewrite strip_prefix_first by done.
    by rewrite glob_match_refl. }
  rewrite strip_prefix_first by done. unfold pattern_match_inner. rewrite strip_prefix_app.
  change (host ++ bs "]:" ++ show_uint port) with (host ++ RBRACKET :: (COLON :: show_uint port)).
  rewrite rsplit_once_app.
  - change (COLON :: show_uint port) with ([COLON] ++ show_uint port).
    rewrite strip_prefix_app, parse_show_uint, glob_match_refl, Z.eqb_refl by (done || width_lia). done.
  - apply not_elem_of_cons. split; [done|]. apply digits_not; [width_lia|]. by intros [_ []].
Qed.

Lemma pipe_not_base64 m : PIPE ∉ base64_encode m.
Proof.
  intros Hin. apply (proj1 (list.Forall_forall _ _) (base64_chars m)) in Hin. by destruct Hin as [_ Hin].
Qed.

Lemma parse_encode_hashed salt host : parse_hashed (encode_hashed salt host) = Some (salt, hmac salt host).
Proof.
  unfold parse_hashed, encode_hashed. rewrite strip_prefix_app. cbn [app].
  rewrite split_once_app by apply pipe_not_base64. by rewrite !base64_roundtrip.
Qed.

Lemma check_hashed_spec salt tag host port :
  check_hashed salt tag host port = true ↔ len tag = 20 ∧ hmac salt (format_host host port) = tag.
Proof.
  unfold check_hashed, constant_time_eq. destruct (Z.eqb_spec (len tag) 20); cbn [negb]; [|naive_solver].
  rewrite ct_eq_true. naive_solver.
Qed.

(** A hashed name answers for exactly the names with the same HMAC. *)
Lemma hashed_matches `{!HostHashLaws HH} salt name host port :
  host_field_matches (Hashed (encode_hashed salt name)) host port = true ↔
  hmac salt (format_host host port) = hmac salt name.
Proof.
  cbn [host_field_matches]. rewrite parse_encode_hashed, check_hashed_spec.
  unfold hmac at 1. autorewrite with lens. naive_solver.
Qed.

Lemma for_host_app a b host port : for_host (a ++ b) host port = for_host a host port ++ for_host b host port.
Proof. apply omap_app. Qed.

Lemma revoked_entries_add kh spec kt kb :
  revoked_entries (kh ++ [SEntry (plain_entry spec kt kb)]) = revoked_entries kh.
Proof. unfold revoked_entries. rewrite omap_app. apply app_nil_r. Qed.

(** An entry for the host behind the others decides the lookup of its key. *)
Lemma lookup_added kh spec host port kt kb :
  host_field_matches spec host port = true →
  lookup (kh ++ [SEntry (plain_entry spec kt kb)]) host port kt kb =
    if decide (lookup kh host port kt kb = LRevoked) then LRevoked else Match.
Proof.
  intros Hm. unfold lookup. rewrite revoked_entries_add. destruct (List.existsb _ _) eqn:Er; [by rewrite decide_True|].
  rewrite !pass2_spec, for_host_app. cbn [for_host omap list_omap is_plain e_marker plain_entry e_host_spec andb].
  rewrite Hm, List.existsb_app. cbn [List.existsb]. unfold is_key at 2. cbn [e_key_type e_key_blob].
  rewrite !bytes_eqb_refl. cbn [andb orb]. rewrite orb_true_r. rewrite decide_False; [done|].
  repeat case_match; done.
Qed.
End Names.

(** A key that was added for a host and port is found there at once: the
    lookup answers "match", or "revoked" if it did before.  This holds for a
    hashed entry of any name, whatever the salt, and for a plain one of a name
    within the bounds on patterns. *)
Theorem added_key_found {HH : HostHash} (L : HostHashLaws HH) rng kh host port kt kb hashed kh' rng' :
  try_add rng kh host port kt kb hashed = (Ok tt, (kh', rng')) →
  is_u16 port → (hashed = false → plain_name host) →
  lookup kh' host port kt kb = if decide (lookup kh host port kt kb = LRevoked) then LRevoked else Match.
Proof.
  unfold try_add. intros H Hp Hn. destruct (safe_field kt); [|done]. destruct (safe_field host); [|done].
  cbn [negb] in H. destruct hashed; cbn in H; simplify_eq; apply lookup_added.
  - by apply hashed_matches.
  - by apply own_pattern_matches; [apply Hn|].
Qed.

(** ** Revocation and ports *)

Definition revoked_line (host kt kb : bytes) : Entry :=
  {| e_marker := Some Revoked; e_host_spec := Patterns [host]; e_key_type := kt; e_key_blob := kb; e_comment := [] |}.

Lemma bare_pattern {HH : HostHash} host port :
  plain_name host → host_field_matches (Patterns [host]) host port = (port =? 22).
Proof.
  intros Hn. pose proof Hn as (Hb & Hx & _). cbn [host_field_matches]. unfold patterns_match. cbn [patterns_loop].
  rewrite strip_prefix_first by done. unfold pattern_match_inner. rewrite strip_prefix_first by done.
  rewrite glob_match_refl, andb_true_r by done. by destruct (port =? 22).
Qed.

(** C38: a key that an [@revoked] line forbids for a host is accepted for that
    host on every port but 22 when a plain line of the host has it: the lookup
    falls back to the entries of the bare host, and does not look at their
    revocations. *)
Theorem revocation_lost_off_port {HH : HostHash} host kt kb port :
  plain_name host →
  let kh := [SEntry (revoked_line host kt kb); SEntry (plain_entry (Patterns [host]) kt kb)] in
  lookup kh host 22 kt kb = LRevoked ∧ (port ≠ 22 → lookup kh host port kt kb = Match).
Proof.
  intros Hn kh. unfold lookup.
  assert (Hr : revoked_entries kh = [revoked_line host kt kb]) by done.
  assert (Hf : ∀ p, for_host kh host p =
    if host_field_matches (Patterns [host]) host p then [plain_entry (Patterns [host]) kt kb] else []).
  { intros p. unfold for_host, kh. cbn [omap list_omap is_plain e_marker e_host_spec revoked_line plain_entry andb]. by destruct (host_field_matches _ _ _). }
  assert (Hk : is_key kt kb (revoked_line host kt kb) = true ∧ is_key kt kb (plain_entry (Patterns [host]) kt kb) = true).
  { unfold is_key. cbn. by rewrite !bytes_eqb_refl. }
  destruct Hk as [Hk1 Hk2]. rewrite Hr. cbn [List.existsb e_host_spec revoked_line]. fold (revoked_line host kt kb).
  split; [by rewrite bare_pattern, Hk1|]. intros Hp%Z.eqb_neq.
  rewrite pass2_spec, plain_has_key_spec, !Hf, !bare_pattern, Hp by done. cbn [andb orb Z.eqb Pos.eqb List.existsb]. by rewrite Hk2.
Qed.

(** ** Hashing the file *)

Lemma star_matches {HH : HostHash} host : host_field_matches (Patterns [[STAR]]) host 22 = true.
Proof.
  change (host_field_matches (Patterns [[STAR]]) host 22) with (if glob_inner [[STAR]] (chars host) then true else false).
  cbn [glob_inner]. change (bytes_eqb [STAR] [STAR]) with true. cbn iota.
  rewrite (proj2 (existsb_elem _ _)); [done|]. exists []. split; [|done].
  induction (chars host) as [|c cs IH]; [apply list_elem_of_here|by apply list_elem_of_further].
Qed.

(** C39: hashing the store drops the revocations of patterns: a key revoked for
    every host is unknown afterwards to each host whose name has another HMAC
    than the pattern [*], because the pattern is hashed as if it were a name. *)
Theorem hashing_loses_revocation {HH : HostHash} (L : HostHashLaws HH) rng host kt kb :
  hmac (fill_bytes rng SALT_LEN) host ≠ hmac (fill_bytes rng SALT_LEN) [STAR] →
  let kh := [SEntry (revoked_line [STAR] kt kb)] in
  lookup kh host 22 kt kb = LRevoked ∧ lookup (hash_in_place rng kh).1 host 22 kt kb = Unknown.
Proof.
  intros Hh kh. unfold lookup.
  assert (Hr : revoked_entries kh = [revoked_line [STAR] kt kb]) by done.
  assert (Hk : is_key kt kb (revoked_line [STAR] kt kb) = true) by (unfold is_key; cbn; by rewrite !bytes_eqb_refl).
  split.
  - rewrite Hr. cbn [List.existsb e_host_spec revoked_line]. fold (revoked_line [STAR] kt kb).
    by rewrite star_matches, Hk.
  - set (e := {| e_marker := Some Revoked; e_host_spec := Hashed (encode_hashed (fill_bytes rng SALT_LEN) [STAR]);
                 e_key_type := kt; e_key_blob := kb; e_comment := [] |}).
    assert (Hs : (hash_in_place rng kh).1 = [SEntry e]) by done. rewrite Hs, pass2_spec.
    assert (Hf : for_host [SEntry e] host 22 = []) by done. assert (Hr' : revoked_entries [SEntry e] = [e]) by done.
    rewrite Hf, Hr'. cbn [List.existsb e_host_spec e].
    destruct (host_field_matches _ _ _) eqn:E; [|done]. exfalso.
    apply Hh, (proj1 (hashed_matches _ _ host 22) E).
Qed.
