(* ===== verification/Krl.v ===== *)
(** * Key revocation lists (src/krl/mod.rs)

    The binary format of [RevokedKeys] files: reading, writing, the builder
    methods and the two questions asked of a list.  SHA-1 and SHA-256 are the
    operations of [HostHash] and [PureCrypto]. *)
From stdpp Require Import sorting.
From S2P Require Import Prelude Wire WireLoop Text Crypto HostKey Cert KnownHosts.

Definition KRL_MAGIC : Z := 6004222216555465216.
Definition KRL_FORMAT_VERSION : Z := 1.

Definition SECTION_CERTIFICATES : Z := 1.
Definition SECTION_EXPLICIT_KEY : Z := 2.
Definition SECTION_FINGERPRINT_SHA1 : Z := 3.
Definition SECTION_SIGNATURE : Z := 4.
Definition SECTION_FINGERPRINT_SHA256 : Z := 5.
Definition SECTION_EXTENSION : Z := 255.

Definition CERT_SERIAL_LIST : Z := 32.
Definition CERT_SERIAL_RANGE : Z := 33.
Definition CERT_SERIAL_BITMAP : Z := 34.
Definition CERT_KEY_ID : Z := 35.
Definition CERT_EXTENSION : Z := 57.

Definition MAX_BITMAP_BYTES : Z := 1048576.

Record CaRevocation := {
  ca_key_blob : bytes; serials : list Z; serial_ranges : list (Z * Z); serial_bitmaps : list (Z * bytes);
  key_ids : list bytes
}.
#[export] Instance CaRevocation_eta : Etable CaRevocation := fun c => {|
  ca_key_blob := ca_key_blob c; serials := serials c; serial_ranges := serial_ranges c;
  serial_bitmaps := serial_bitmaps c; key_ids := key_ids c |}.

Definition ca_revocation_new (ca_key_blob : bytes) : CaRevocation :=
  {| ca_key_blob := ca_key_blob; serials := []; serial_ranges := []; serial_bitmaps := []; key_ids := [] |}.

Record Krl := {
  krl_version : Z; krl_comment : bytes; cert_revocations : list CaRevocation; explicit_keys : list bytes;
  fp_sha1 : list bytes; fp_sha256 : list bytes
}.
#[export] Instance Krl_eta : Etable Krl := fun k => {|
  krl_version := krl_version k; krl_comment := krl_comment k; cert_revocations := cert_revocations k;
  explicit_keys := explicit_keys k; fp_sha1 := fp_sha1 k; fp_sha256 := fp_sha256 k |}.

Definition krl_new : Krl :=
  {| krl_version := 0; krl_comment := []; cert_revocations := []; explicit_keys := []; fp_sha1 := []; fp_sha256 := [] |}.

(** ** What a list covers *)

(** [idx / 8] and the magnitude's length fit in a [usize]. *)
Definition bit_is_set (magnitude : bytes) (idx : Z) : bool :=
  let byte_from_end := idx / 8 in
  if len magnitude <=? byte_from_end then false
  else
    let byte := u8 (nth (Z.to_nat (len magnitude - 1 - byte_from_end)) magnitude Byte.x00) in
    Z.land (Z.shiftr byte (idx mod 8)) 1 =? 1.

Definition covers (rev : CaRevocation) (serial : Z) (key_id : bytes) : bool :=
  if List.existsb (Z.eqb serial) (serials rev) then true
  else if List.existsb (λ r, (r.1 <=? serial) && (serial <=? r.2)) (serial_ranges rev) then true
  else if List.existsb (λ b, (b.1 <=? serial) && bit_is_set b.2 (serial - b.1)) (serial_bitmaps rev) then true
  else negb (is_nil key_id) && List.existsb (λ k, bytes_eqb k key_id) (key_ids rev).

Definition is_revoked_cert (k : Krl) (ca : bytes) (serial : Z) (key_id : bytes) : bool :=
  List.existsb (λ rev, (is_nil (ca_key_blob rev) || bytes_eqb (ca_key_blob rev) ca) && covers rev serial key_id)
    (cert_revocations k).

Definition is_revoked_key `{HostHash, PureCrypto} (k : Krl) (pubkey_blob : bytes) : bool :=
  if List.existsb (λ x, bytes_eqb x pubkey_blob) (explicit_keys k) then true
  else if negb (is_nil (fp_sha1 k)) && List.existsb (λ fp, bytes_eqb fp (sha1_digest pubkey_blob)) (fp_sha1 k) then true
  else negb (is_nil (fp_sha256 k)) && List.existsb (λ fp, bytes_eqb fp (sha256_digest pubkey_blob)) (fp_sha256 k).

Definition krl_is_empty (k : Krl) : bool :=
  is_nil (cert_revocations k) && is_nil (explicit_keys k) && is_nil (fp_sha1 k) && is_nil (fp_sha256 k).

(** ** Reading *)

Definition check_extension (body : bytes) : result unit :=
  let? (_, r) := read_string (reader_new body) in
  let? (critical, r) := read_bool r in
  let? _ := read_string r in
  if critical then Err (Format "krl: unsupported critical extension") else Ok tt.

Definition parse_blob_list (body : bytes) (out : list bytes) : result (list bytes) :=
  read_list read_string (reader_new body) out.

(** [h.try_into()] to an array of [n] bytes. *)
Definition read_hash (n : Z) (r : Reader) : result (bytes * Reader) :=
  let? (h, r) := read_string r in
  if len h =? n then Ok (h, r) else Err (Format "krl: bad fingerprint length").

Definition parse_hash_list (n : Z) (body : bytes) (out : list bytes) : result (list bytes) :=
  read_list (read_hash n) (reader_new body) out.

Definition read_key_id (r : Reader) : result (bytes * Reader) :=
  let? (id, r) := read_string r in
  let? s := from_utf8 (Format "krl: non-utf8 key-id") id in Ok (s, r).

(** One subsection of a certificates section. *)
Definition parse_cert_subsection (sub_type : Z) (sub : bytes) (rev : CaRevocation) : result CaRevocation :=
  if sub_type =? CERT_SERIAL_LIST then
    let? l := read_list read_u64 (reader_new sub) (serials rev) in Ok (rev <| serials := l |>)
  else if sub_type =? CERT_SERIAL_RANGE then
    let? (lo, sr) := read_u64 (reader_new sub) in
    let? (hi, sr) := read_u64 sr in
    if negb (reader_is_empty sr) then Err (Format "krl: trailing serial-range data")
    else Ok (rev <| serial_ranges := serial_ranges rev ++ [(lo, hi)] |>)
  else if sub_type =? CERT_SERIAL_BITMAP then
    let? (offset, sr) := read_u64 (reader_new sub) in
    let? (bits, sr) := read_mpint sr in
    if MAX_BITMAP_BYTES <? len bits then Err (Format "krl: serial bitmap too large")
    else if negb (reader_is_empty sr) then Err (Format "krl: trailing serial-bitmap data")
    else Ok (rev <| serial_bitmaps := serial_bitmaps rev ++ [(offset, bits)] |>)
  else if sub_type =? CERT_KEY_ID then
    let? l := read_list read_key_id (reader_new sub) (key_ids rev) in Ok (rev <| key_ids := l |>)
  else if sub_type =? CERT_EXTENSION then let? _ := check_extension sub in Ok rev
  else Err (Format "krl: unsupported certificate section type").

Definition cert_subsection_step (r : Reader) (rev : CaRevocation) : result (Reader * CaRevocation) :=
  let? (sub_type, r) := read_u8 r in
  let? (sub, r) := read_string r in
  let? rev := parse_cert_subsection sub_type sub rev in Ok (r, rev).

Definition parse_certificates (body : bytes) (k : Krl) : result Krl :=
  let? (ca_key_blob, r) := read_string (reader_new body) in
  let? (_, r) := read_string r in
  let? rev := while_nonempty cert_subsection_step r (ca_revocation_new ca_key_blob) in
  Ok (k <| cert_revocations := cert_revocations k ++ [rev] |>).

Definition parse_section (section_type : Z) (body : bytes) (k : Krl) : result Krl :=
  if section_type =? SECTION_CERTIFICATES then parse_certificates body k
  else if section_type =? SECTION_EXPLICIT_KEY then
    let? l := parse_blob_list body (explicit_keys k) in Ok (k <| explicit_keys := l |>)
  else if section_type =? SECTION_FINGERPRINT_SHA1 then
    let? l := parse_hash_list 20 body (fp_sha1 k) in Ok (k <| fp_sha1 := l |>)
  else if section_type =? SECTION_FINGERPRINT_SHA256 then
    let? l := parse_hash_list 32 body (fp_sha256 k) in Ok (k <| fp_sha256 := l |>)
  else if section_type =? SECTION_SIGNATURE then Ok k
  else if section_type =? SECTION_EXTENSION then let? _ := check_extension body in Ok k
  else Err (Format "krl: unsupported section type").

Definition section_step (r : Reader) (k : Krl) : result (Reader * Krl) :=
  let? (section_type, r) := read_u8 r in
  let? (body, r) := read_string r in
  let? k := parse_section section_type body k in Ok (r, k).

Definition krl_parse (blob : bytes) : result Krl :=
  let r := reader_new blob in
  let? (magic, r) := read_u64 r in
  if negb (magic =? KRL_MAGIC) then Err (Format "krl: bad magic") else
  let? (format_version, r) := read_u32 r in
  if negb (format_version =? KRL_FORMAT_VERSION) then Err (Format "krl: unsupported format version") else
  let? (version, r) := read_u64 r in
  let? (_, r) := read_u64 r in
  let? (_, r) := read_u64 r in
  let? (_, r) := read_string r in
  let? (comment, r) := read_string r in
  while_nonempty section_step r
    {| krl_version := version; krl_comment := from_utf8_lossy comment; cert_revocations := []; explicit_keys := [];
       fp_sha1 := []; fp_sha256 := [] |}.

(** ** Building *)

(** [if !v.contains(&x) { v.push(x) }] *)
Definition push_new {A} (eqb : A → A → bool) (x : A) (l : list A) : list A :=
  if List.existsb (eqb x) l then l else l ++ [x].

Definition revoke_key (blob : bytes) (k : Krl) : Krl := k <| explicit_keys := push_new bytes_eqb blob (explicit_keys k) |>.
Definition revoke_sha1 (h : bytes) (k : Krl) : Krl := k <| fp_sha1 := push_new bytes_eqb h (fp_sha1 k) |>.
Definition revoke_sha256 (h : bytes) (k : Krl) : Krl := k <| fp_sha256 := push_new bytes_eqb h (fp_sha256 k) |>.

(** [f] applied to [ca_entry(ca_key_blob)], the first block of that CA or a new last one. *)
Fixpoint on_ca_entry (ca : bytes) (f : CaRevocation → CaRevocation) (l : list CaRevocation) : list CaRevocation :=
  match l with
  | [] => [f (ca_revocation_new ca)]
  | c :: l => if bytes_eqb (ca_key_blob c) ca then f c :: l else c :: on_ca_entry ca f l
  end.

Definition pair_eqb (a b : Z * Z) : bool := (a.1 =? b.1) && (a.2 =? b.2).

Definition revoke_cert_serials (ca : bytes) (lo hi : Z) (k : Krl) : Krl :=
  k <| cert_revocations := on_ca_entry ca (λ c,
    if lo =? hi then c <| serials := push_new Z.eqb lo (serials c) |>
    else if List.existsb (pair_eqb (lo, hi)) (serial_ranges c) then c
    else c <| serial_ranges := serial_ranges c ++ [(Z.min lo hi, Z.max lo hi)] |>) (cert_revocations k) |>.

Definition revoke_cert_key_id (ca key_id : bytes) (k : Krl) : Krl :=
  k <| cert_revocations := on_ca_entry ca (λ c, c <| key_ids := push_new bytes_eqb key_id (key_ids c) |>)
                             (cert_revocations k) |>.

Definition krl_merge (k other : Krl) : Krl :=
  let k := k <| cert_revocations := cert_revocations k ++ cert_revocations other |> in
  let k := fold_left (λ k b, revoke_key b k) (explicit_keys other) k in
  let k := fold_left (λ k h, revoke_sha1 h k) (fp_sha1 other) k in
  fold_left (λ k h, revoke_sha256 h k) (fp_sha256 other) k.

(** ** Writing *)

(** The orders of [u64], of pairs and of byte strings, which [sort] uses. *)
Definition bytes_le (a b : bytes) : Prop := bytes_ltb b a = false.
#[export] Instance bytes_le_dec : RelDecision bytes_le.
Proof. intros a b. unfold bytes_le. apply _. Defined.
Definition pair_le (a b : Z * Z) : Prop := a.1 < b.1 ∨ a.1 = b.1 ∧ a.2 ≤ b.2.
#[export] Instance pair_le_dec : RelDecision pair_le.
Proof. intros a b. unfold pair_le. apply _. Defined.

Definition sort_u64 (l : list Z) : list Z := merge_sort Z.le l.
Definition sort_ranges (l : list (Z * Z)) : list (Z * Z) := merge_sort pair_le l.
Definition sort_bytes (l : list bytes) : list bytes := merge_sort bytes_le l.

(** [w.write_u8(tag); w.write_string(body)] *)
Definition write_section (tag : Z) (body : bytes) (w : Writer) : Writer := w |>> write_u8 tag |>> write_string body.

Definition write_ca (ca : CaRevocation) (w : Writer) : Writer :=
  let body := writer_new |>> write_string (ca_key_blob ca) |>> write_string [] in
  let ss := sort_u64 (serials ca) in
  let body := if is_nil ss then body
              else write_section CERT_SERIAL_LIST (into_vec (write_each write_u64 ss writer_new)) body in
  let body := write_each (λ r, write_section CERT_SERIAL_RANGE
                                 (into_vec (writer_new |>> write_u64 r.1 |>> write_u64 r.2)))
                (sort_ranges (serial_ranges ca)) body in
  let body := write_each (λ b, write_section CERT_SERIAL_BITMAP
                                 (into_vec (writer_new |>> write_u64 b.1 |>> write_mpint b.2)))
                (serial_bitmaps ca) body in
  let body := if is_nil (key_ids ca) then body
              else write_section CERT_KEY_ID (into_vec (write_each write_string (sort_bytes (key_ids ca)) writer_new)) body in
  write_section SECTION_CERTIFICATES (into_vec body) w.

Definition write_blobs (section : Z) (blobs : list bytes) (w : Writer) : Writer :=
  if is_nil blobs then w else write_section section (into_vec (write_each write_string blobs writer_new)) w.

Definition krl_to_bytes (k : Krl) (generated_date : Z) : bytes :=
  let w := writer_new |>> write_u64 KRL_MAGIC |>> write_u32 KRL_FORMAT_VERSION |>> write_u64 (krl_version k)
           |>> write_u64 generated_date |>> write_u64 0 |>> write_string [] |>> write_string (krl_comment k) in
  let w := write_each write_ca (cert_revocations k) w in
  let w := write_blobs SECTION_EXPLICIT_KEY (sort_bytes (explicit_keys k)) w in
  let w := write_blobs SECTION_FINGERPRINT_SHA1 (sort_bytes (fp_sha1 k)) w in
  into_vec (write_blobs SECTION_FINGERPRINT_SHA256 (sort_bytes (fp_sha256 k)) w).
