(* ===== verification/KrlFacts.v ===== *)
(** * A revocation list survives its file, and revokes what it was told to

    The bitmap test is the bit of the integer; a list that is written is read
    back as one with the same answers; the builder methods add exactly what
    they name. *)
From stdpp Require Import sorting.
From S2P Require Import Prelude Wire WireLoop Text TextFacts Crypto HostKey Cert KnownHosts KnownHostsFacts KnownHostsTrust Krl.

(** ** Bitmaps *)

Lemma testbit_split a b n i :
  0 ≤ n → 0 ≤ i → 0 ≤ b < 2 ^ n →
  Z.testbit (a * 2 ^ n + b) i = if i <? n then Z.testbit b i else Z.testbit a (i - n).
Proof.
  intros Hn Hi Hb. pose proof (Z.pow_pos_nonneg 2 n ltac:(lia) ltac:(lia)).
  destruct (Z.ltb_spec i n).
  - rewrite <- (Z.mod_pow2_bits_low (a * 2 ^ n + b) n i) by lia.
    by rewrite Z.add_comm, Z.mod_add, Z.mod_small by lia.
  - replace i with (i - n + n) at 1 by lia. rewrite <- Z.div_pow2_bits by lia.
    by rewrite Z.add_comm, Z.div_add, Z.div_small by lia.
Qed.

Lemma low_bit x n : (Z.land (Z.shiftr x n) 1 =? 1) = Z.testbit x n.
Proof.
  change 1 with (Z.ones 1) at 1. destruct (Z.ltb_spec n 0).
  { rewrite Z.testbit_neg_r, Z.land_ones by lia. rewrite Z.shiftr_mul_pow2 by lia.
    replace (- n) with (1 + (- n - 1)) by lia. rewrite Z.pow_add_r by lia. change (2 ^ 1) with 2.
    rewrite (Z.mul_comm 2), Z.mul_assoc, Z.mod_mul by lia. done. }
  rewrite Z.land_ones by lia. change (2 ^ 1) with 2. rewrite <- Z.bit0_mod, Z.shiftr_spec by lia. rewrite Z.add_0_l.
  by destruct (Z.testbit x n).
Qed.

(** The bit of a bitmap is the bit of the integer it encodes. *)
Lemma bit_is_set_testbit m idx : 0 ≤ idx → bit_is_set m idx = Z.testbit (be_value m) idx.
Proof.
  intros Hi. unfold bit_is_set. pose proof (Z.div_mod idx 8 ltac:(lia)) as Hd.
  pose proof (Z.mod_pos_bound idx 8 ltac:(lia)) as Hm. pose proof (Z.div_pos idx 8 Hi ltac:(lia)) as Hq.
  induction m as [|b m IH].
  { change (len (@nil byte)) with 0. rewrite (proj2 (Z.leb_le _ _)) by lia. by rewrite Z.testbit_0_l. }
  pose proof (be_value_range m) as Hr. pose proof (len_nonneg m) as Hl.
  rewrite be_value_cons, len_cons. change 256 with (2 ^ 8) in *. rewrite <- Z.pow_mul_r in * by lia.
  rewrite testbit_split by lia. destruct (Z.ltb_spec idx (8 * len m)) as [Hlt|Hge].
  - rewrite <- IH. rewrite !(proj2 (Z.leb_gt _ _)) by lia.
    replace (Z.to_nat (1 + len m - 1 - idx / 8)) with (S (Z.to_nat (len m - 1 - idx / 8))) by lia. done.
  - destruct (Z.leb_spec (1 + len m) (idx / 8)).
    + pose proof (u8_range b). symmetry. destruct (Z.eq_dec (u8 b) 0) as [->|]; [apply Z.testbit_0_l|].
      apply Z.bits_above_log2; [lia|]. pose proof (proj1 (Z.log2_lt_pow2 (u8 b) 8 ltac:(lia)) ltac:(cbn; lia)). lia.
    + replace (Z.to_nat (1 + len m - 1 - idx / 8)) with 0%nat by lia. cbn [nth].
      replace (idx - 8 * len m) with (idx mod 8) by lia. apply low_bit.
Qed.

(** ** The answers of a list *)

Definition list_equiv {A} (a b : list A) : Prop := ∀ x, x ∈ a ↔ x ∈ b.

Lemma existsb_equiv {A} (f : A → bool) a b : list_equiv a b → List.existsb f a = List.existsb f b.
Proof. intros H. apply eq_iff_eq_true. rewrite !existsb_elem. unfold list_equiv in H. naive_solver. Qed.

Lemma perm_equiv {A} (a b : list A) : a ≡ₚ b → list_equiv a b.
Proof. intros H x. by rewrite H. Qed.

Lemma sort_equiv {A} (R : relation A) `{!RelDecision R} l : list_equiv (merge_sort R l) l.
Proof. apply perm_equiv, merge_sort_Permutation. Qed.

(** Two lists with the same answers. *)
Record krl_same `{HostHash, PureCrypto} (a b : Krl) : Prop := {
  ks_key blob : is_revoked_key a blob = is_revoked_key b blob;
  ks_cert ca serial id : is_revoked_cert a ca serial id = is_revoked_cert b ca serial id;
}.

(** The block as it is read back: sorted, its bitmaps in the canonical form. *)
Definition normal_ca (c : CaRevocation) : CaRevocation :=
  {| ca_key_blob := ca_key_blob c; serials := sort_u64 (serials c); serial_ranges := sort_ranges (serial_ranges c);
     serial_bitmaps := (λ b, (b.1, mpint_body b.2)) <$> serial_bitmaps c; key_ids := sort_bytes (key_ids c) |}.

Definition normal (k : Krl) : Krl :=
  {| krl_version := krl_version k; krl_comment := krl_comment k; cert_revocations := normal_ca <$> cert_revocations k;
     explicit_keys := sort_bytes (explicit_keys k); fp_sha1 := sort_bytes (fp_sha1 k);
     fp_sha256 := sort_bytes (fp_sha256 k) |}.

Lemma existsb_fmap {A B} (f : B → bool) (g : A → B) l : List.existsb f (g <$> l) = List.existsb (f ∘ g) l.
Proof. induction l as [|x l IH]; [done|]. cbn. by rewrite <- IH. Qed.

Lemma existsb_ext {A} (f g : A → bool) l : (∀ x, f x = g x) → List.existsb f l = List.existsb g l.
Proof. intros H. induction l as [|x l IH]; [done|]. cbn. by rewrite H, IH. Qed.

Lemma covers_normal c serial id : covers (normal_ca c) serial id = covers c serial id.
Proof.
  unfold covers, normal_ca. cbn [serials serial_ranges serial_bitmaps key_ids].
  rewrite (existsb_equiv _ (sort_u64 _) (serials c)) by apply sort_equiv.
  rewrite (existsb_equiv _ (sort_ranges _) (serial_ranges c)) by apply sort_equiv.
  rewrite (existsb_equiv _ (sort_bytes _) (key_ids c)) by apply sort_equiv.
  rewrite existsb_fmap. rewrite (existsb_ext _ (λ b, (b.1 <=? serial) && bit_is_set b.2 (serial - b.1))); [done|].
  intros [o m]. cbn. destruct (Z.leb_spec o serial); [|done]. cbn. by rewrite !bit_is_set_testbit, mpint_body_value by lia.
Qed.

Lemma is_nil_equiv {A} (a b : list A) : list_equiv a b → is_nil a = is_nil b.
Proof.
  intros H. destruct a as [|x a], b as [|y b]; [done| | |done]; exfalso.
  - specialize (H y). set_solver.
  - specialize (H x). set_solver.
Qed.

Lemma normal_same `{HostHash, PureCrypto} k : krl_same (normal k) k.
Proof.
  split; intros.
  - unfold is_revoked_key, normal. cbn [explicit_keys fp_sha1 fp_sha256].
    by rewrite !(is_nil_equiv (sort_bytes _) _ (sort_equiv _ _)), !(existsb_equiv _ (sort_bytes _) _ (sort_equiv _ _)).
  - unfold is_revoked_cert, normal. cbn [cert_revocations]. rewrite existsb_fmap. apply existsb_ext.
    intros c. cbn. by rewrite covers_normal.
Qed.

(** ** A list that is written is read back *)

Inductive sub := SubSerials (l : list Z) | SubRange (r : Z * Z) | SubBitmap (b : Z * bytes) | SubIds (l : list bytes).

Definition tagged (tag : Z) (body : bytes) : bytes := byte_of_Z tag :: str_enc body.

Definition sub_tag (s : sub) : Z :=
  match s with
  | SubSerials _ => CERT_SERIAL_LIST | SubRange _ => CERT_SERIAL_RANGE | SubBitmap _ => CERT_SERIAL_BITMAP
  | SubIds _ => CERT_KEY_ID
  end.
Definition sub_body (s : sub) : bytes :=
  match s with
  | SubSerials l => concat (be_bytes 8 <$> l)
  | SubRange r => be_bytes 8 r.1 ++ be_bytes 8 r.2
  | SubBitmap b => be_bytes 8 b.1 ++ str_enc (mpint_body b.2)
  | SubIds l => concat (str_enc <$> l)
  end.
Definition sub_enc (s : sub) : bytes := tagged (sub_tag s) (sub_body s).

Definition sub_upd (rev : CaRevocation) (s : sub) : CaRevocation :=
  match s with
  | SubSerials l => rev <| serials := serials rev ++ l |>
  | SubRange r => rev <| serial_ranges := serial_ranges rev ++ [r] |>
  | SubBitmap b => rev <| serial_bitmaps := serial_bitmaps rev ++ [(b.1, mpint_body b.2)] |>
  | SubIds l => rev <| key_ids := key_ids rev ++ l |>
  end.

Definition sub_good (s : sub) : Prop :=
  is_u32 (len (sub_body s)) ∧
  match s with
  | SubSerials l => Forall is_u64 l
  | SubRange r => is_u64 r.1 ∧ is_u64 r.2
  | SubBitmap b => is_u64 b.1 ∧ len (mpint_body b.2) ≤ MAX_BITMAP_BYTES
  | SubIds l => Forall (λ id, utf8_valid id = true) l
  end.

(** The blocks [write_ca] writes for a CA. *)
Definition subs_of (c : CaRevocation) : list sub :=
  (if is_nil (sort_u64 (serials c)) then [] else [SubSerials (sort_u64 (serials c))])
  ++ (SubRange <$> sort_ranges (serial_ranges c)) ++ (SubBitmap <$> serial_bitmaps c)
  ++ (if is_nil (key_ids c) then [] else [SubIds (sort_bytes (key_ids c))]).

Lemma write_section_buf tag body w : w_buf (write_section tag body w) = w_buf w ++ tagged tag body.
Proof. unfold write_section, tagged. rewrite write_string_buf. unfold write_u8. cbn [w_buf]. by rewrite <- app_assoc. Qed.

Lemma concat_app_fmap {A} (f : A → bytes) a b : concat (f <$> (a ++ b)) = concat (f <$> a) ++ concat (f <$> b).
Proof. by rewrite fmap_app, concat_app. Qed.

Lemma len_concat_elem {A} (f : A → bytes) x l : x ∈ l → len (f x) ≤ len (concat (f <$> l)).
Proof.
  induction 1 as [x l|x y l _ IH]; cbn [fmap list_fmap concat]; rewrite len_app.
  - pose proof (len_nonneg (concat (f <$> l))). lia.
  - pose proof (len_nonneg (f y)). lia.
Qed.

Definition ca_body (c : CaRevocation) : bytes :=
  str_enc (ca_key_blob c) ++ str_enc [] ++ concat (sub_enc <$> subs_of c).

Lemma write_ca_buf c w :
  Forall (λ b, len b.2 < U32_MAX) (serial_bitmaps c) →
  w_buf (write_ca c w) = w_buf w ++ tagged SECTION_CERTIFICATES (ca_body c).
Proof.
  intros Hb. unfold write_ca. rewrite write_section_buf. do 2 f_equal. unfold into_vec, ca_body, subs_of.
  rewrite !concat_app_fmap.
  set (b0 := write_string [] (write_string (ca_key_blob c) writer_new)).
  assert (E0 : w_buf b0 = str_enc (ca_key_blob c) ++ str_enc []) by (unfold b0; by rewrite !write_string_buf).
  set (b1 := if is_nil (sort_u64 (serials c)) then b0 else _).
  assert (E1 : w_buf b1 = w_buf b0 ++ concat (sub_enc <$> if is_nil (sort_u64 (serials c)) then [] else [SubSerials (sort_u64 (serials c))])).
  { unfold b1. destruct (is_nil _); [by rewrite app_nil_r|]. rewrite write_section_buf.
    rewrite (write_each_buf _ (be_bytes 8)) by done. cbn [fmap list_fmap concat]. by rewrite app_nil_r. }
  set (b2 := write_each _ (sort_ranges (serial_ranges c)) b1).
  assert (E2 : w_buf b2 = w_buf b1 ++ concat (sub_enc <$> (SubRange <$> sort_ranges (serial_ranges c)))).
  { unfold b2. rewrite <- list_fmap_compose. apply write_each_buf. intros r w'. rewrite write_section_buf. done. }
  assert (E3 : ∀ b, w_buf (write_each (λ b, write_section CERT_SERIAL_BITMAP
      (w_buf (write_mpint b.2 (write_u64 b.1 writer_new)))) (serial_bitmaps c) b) =
    w_buf b ++ concat (sub_enc <$> (SubBitmap <$> serial_bitmaps c))).
  { clear -Hb. intros b. revert b. induction Hb as [|x l Hx _ IH]; intros b; [by rewrite app_nil_r|].
    cbn [write_each fold_left fmap list_fmap concat]. unfold write_each in IH.
    rewrite IH, write_section_buf, write_mpint_buf by done. by rewrite <- app_assoc. }
  destruct (is_nil (key_ids c)); [by rewrite E3, E2, E1, E0, app_nil_r, <- !app_assoc|].
  rewrite write_section_buf, E3, E2, E1, E0, (write_each_buf _ str_enc) by (intros; apply write_string_buf).
  cbn [fmap list_fmap concat]. by rewrite app_nil_r, <- !app_assoc.
Qed.

(** *** Subsections *)

Lemma reader_new_done l : reader_new l = reader_at [] (l ++ []).
Proof. by rewrite app_nil_r. Qed.

Lemma fits_u32 l : is_u32 (len l) → fits_mem l.
Proof. unfold fits_mem. width_lia. Qed.

Lemma end_empty pre : reader_is_empty (reader_at pre []) = true.
Proof. unfold reader_is_empty. by rewrite remaining_at. Qed.

Lemma read_u64_list l acc :
  Forall is_u64 l → is_u32 (len (concat (be_bytes 8 <$> l))) →
  read_list read_u64 (reader_new (concat (be_bytes 8 <$> l))) acc = Ok (acc ++ l).
Proof.
  intros Hl Hs. rewrite reader_new_at. apply (read_list_at read_u64 (be_bytes 8) is_u64); try done.
  - intros a pre post Ha Hm. by apply read_u64_at.
  - by apply fits_u32.
Qed.

Lemma len_parts_u32 {A} (f : A → bytes) l x : is_u32 (len (concat (f <$> l))) → x ∈ l → is_u32 (len (f x)).
Proof. intros Hs Hx. pose proof (len_concat_elem f x l Hx). pose proof (len_nonneg (f x)). width_lia. Qed.

Lemma read_string_list l acc :
  is_u32 (len (concat (str_enc <$> l))) →
  read_list read_string (reader_new (concat (str_enc <$> l))) acc = Ok (acc ++ l).
Proof.
  intros Hs. rewrite reader_new_at. apply (read_list_at read_string str_enc (λ s, is_u32 (len s))); try done.
  - intros. by apply read_string_enc.
  - apply list.Forall_forall. intros s Hx. pose proof (len_parts_u32 _ _ _ Hs Hx) as H. autorewrite with lens in H.
    pose proof (len_nonneg s). width_lia.
  - by apply fits_u32.
Qed.

Lemma read_checked_list (f : Reader → result (bytes * Reader)) (P : bytes → Prop) l acc :
  (∀ r s r', f r = Ok (s, r') → read_string r = Ok (s, r')) →
  (∀ r s r', read_string r = Ok (s, r') → P s → f r = Ok (s, r')) →
  Forall P l → is_u32 (len (concat (str_enc <$> l))) →
  read_list f (reader_new (concat (str_enc <$> l))) acc = Ok (acc ++ l).
Proof.
  intros Hf1 Hf2 Hl Hs. rewrite reader_new_at. apply (read_list_at f str_enc (λ s, P s ∧ is_u32 (len s))).
  - intros r a r' H%Hf1. by apply read_string_advances in H.
  - intros. apply str_enc_nonempty.
  - intros a pre post [Ha Hu] Hm. apply Hf2; [by apply read_string_enc|done].
  - apply list.Forall_forall. intros s Hx. pose proof (len_parts_u32 _ _ _ Hs Hx) as H. autorewrite with lens in H.
    pose proof (len_nonneg s). split; [by apply (proj1 (list.Forall_forall _ _) Hl)|width_lia].
  - by apply fits_u32.
Qed.

Lemma read_key_id_list l acc :
  Forall (λ id, utf8_valid id = true) l → is_u32 (len (concat (str_enc <$> l))) →
  read_list read_key_id (reader_new (concat (str_enc <$> l))) acc = Ok (acc ++ l).
Proof.
  apply read_checked_list; unfold read_key_id; intros r s r'.
  - destruct (read_string r) as [[id r1]|]; [|done]. unfold from_utf8. by destruct (utf8_valid id); [intros [= -> ->]|].
  - intros -> H. by rewrite (from_utf8_ok _ _ H).
Qed.

Lemma read_hash_list n l acc :
  Forall (λ h, len h = n) l → is_u32 (len (concat (str_enc <$> l))) →
  parse_hash_list n (concat (str_enc <$> l)) acc = Ok (acc ++ l).
Proof.
  apply read_checked_list; unfold read_hash; intros r s r'.
  - destruct (read_string r) as [[h r1]|]; [|done]. by destruct (len h =? n); [intros [= -> ->]|].
  - intros -> <-. by rewrite Z.eqb_refl.
Qed.

Lemma parse_sub s rev : sub_good s → parse_cert_subsection (sub_tag s) (sub_body s) rev = Ok (sub_upd rev s).
Proof.
  intros [Hs Hg]. unfold parse_cert_subsection. destruct s as [l|[lo hi]|[o m]|l]; cbn [sub_tag sub_body sub_upd fst snd] in *.
  - cbn [Z.eqb Pos.eqb CERT_SERIAL_LIST]. by rewrite read_u64_list.
  - destruct Hg. cbn [Z.eqb Pos.eqb CERT_SERIAL_LIST CERT_SERIAL_RANGE].
    pose proof (fits_u32 _ Hs) as Hm. rewrite reader_new_done, <- app_assoc. rewrite read_u64_at by (done || by rewrite app_nil_r).
    cbn [app]. rewrite read_u64_at by (done || by rewrite app_nil_r). by rewrite end_empty.
  - destruct Hg as [Ho Hl]. cbn [Z.eqb Pos.eqb CERT_SERIAL_LIST CERT_SERIAL_RANGE CERT_SERIAL_BITMAP].
    pose proof (fits_u32 _ Hs) as Hm. rewrite reader_new_done, <- app_assoc. rewrite read_u64_at by (done || by rewrite app_nil_r).
    cbn [app]. unfold read_mpint. autorewrite with lens in Hs. pose proof (len_nonneg (mpint_body m)).
    rewrite read_string_enc by (width_lia || by rewrite app_nil_r).
    rewrite (proj2 (Z.ltb_ge _ _)), end_empty by lia. done.
  - cbn [Z.eqb Pos.eqb CERT_SERIAL_LIST CERT_SERIAL_RANGE CERT_SERIAL_BITMAP CERT_KEY_ID]. by rewrite read_key_id_list.
Qed.

Lemma tagged_nonempty tag body : tagged tag body ≠ [].
Proof. done. Qed.

Lemma read_tagged tag body pre post :
  is_u8 tag → is_u32 (len body) → fits_mem (pre ++ tagged tag body ++ post) →
  ∃ r, read_u8 (reader_at pre (tagged tag body ++ post)) = Ok (tag, r) ∧
       read_string r = Ok (body, reader_at (pre ++ tagged tag body) post).
Proof.
  intros Ht Hb Hm. eexists. unfold tagged in *. cbn [app] in *. split; [by apply read_u8_at|].
  rewrite read_string_enc; [by rewrite <- app_assoc|done|]. by rewrite <- app_assoc.
Qed.

Lemma step_progress {S} (step : Reader → S → result (Reader * S)) (g : Z → bytes → S → result S) :
  (∀ r s, step r s = (let? (t, r) := read_u8 r in let? (b, r) := read_string r in let? s := g t b s in Ok (r, s))) →
  progress step.
Proof.
  intros Hg r s r' s'. rewrite Hg. destruct (read_u8 r) as [[t r1]|] eqn:E1; [|done].
  destruct (read_string r1) as [[b r2]|] eqn:E2; [|done]. destruct (g t b s); [|done]. intros [= <- _].
  apply read_u8_advances in E1 as [H1 H2]. apply read_string_advances in E2 as [H3 H4]. split; [congruence|lia].
Qed.

Lemma sub_step s pre post rev :
  sub_good s → fits_mem (pre ++ sub_enc s ++ post) →
  cert_subsection_step (reader_at pre (sub_enc s ++ post)) rev = Ok (reader_at (pre ++ sub_enc s) post, sub_upd rev s).
Proof.
  intros Hg Hm. unfold cert_subsection_step. pose proof (proj1 Hg) as Hb.
  destruct (read_tagged (sub_tag s) (sub_body s) pre post) as (r & E1 & E2); [by destruct s|done|done|].
  unfold sub_enc. by rewrite E1, E2, parse_sub.
Qed.

Lemma fold_range rs rev :
  fold_left sub_upd (SubRange <$> rs) rev = rev <| serial_ranges := serial_ranges rev ++ rs |>.
Proof.
  revert rev. induction rs as [|r rs IH]; intros rev; cbn [fmap list_fmap fold_left]; [by rewrite app_nil_r; destruct rev|].
  rewrite IH. cbn [sub_upd]. unfold set_field. cbn. by rewrite <- app_assoc.
Qed.
Lemma fold_bitmap bsl rev :
  fold_left sub_upd (SubBitmap <$> bsl) rev =
    rev <| serial_bitmaps := serial_bitmaps rev ++ ((λ b, (b.1, mpint_body b.2)) <$> bsl) |>.
Proof.
  revert rev. induction bsl as [|b bsl IH]; intros rev; cbn [fmap list_fmap fold_left]; [by rewrite app_nil_r; destruct rev|].
  rewrite IH. cbn [sub_upd]. unfold set_field. cbn. by rewrite <- app_assoc.
Qed.

Lemma subs_normal c : fold_left sub_upd (subs_of c) (ca_revocation_new (ca_key_blob c)) = normal_ca c.
Proof.
  unfold subs_of, normal_ca. rewrite !fold_left_app.
  destruct (is_nil (sort_u64 (serials c))) eqn:E1; [apply is_nil_true in E1; rewrite E1|clear E1];
    (destruct (is_nil (key_ids c)) eqn:E2; [apply is_nil_true in E2; rewrite E2|clear E2]);
    cbn [fold_left]; rewrite fold_range, fold_bitmap; cbn [sub_upd]; unfold set_field;
    cbn [serials serial_ranges serial_bitmaps key_ids ca_key_blob ca_revocation_new app]; done.
Qed.

(** *** Sections *)

Inductive section := SecCa (c : CaRevocation) | SecBlobs (tag : Z) (l : list bytes).

Definition sec_tag (s : section) : Z := match s with SecCa _ => SECTION_CERTIFICATES | SecBlobs t _ => t end.
Definition sec_body (s : section) : bytes := match s with SecCa c => ca_body c | SecBlobs _ l => concat (str_enc <$> l) end.
Definition sec_enc (s : section) : bytes := tagged (sec_tag s) (sec_body s).

Definition sec_upd (k : Krl) (s : section) : Krl :=
  match s with
  | SecCa c => k <| cert_revocations := cert_revocations k ++ [normal_ca c] |>
  | SecBlobs t l =>
      if t =? SECTION_EXPLICIT_KEY then k <| explicit_keys := explicit_keys k ++ l |>
      else if t =? SECTION_FINGERPRINT_SHA1 then k <| fp_sha1 := fp_sha1 k ++ l |>
      else k <| fp_sha256 := fp_sha256 k ++ l |>
  end.

Definition sec_good (s : section) : Prop :=
  is_u32 (len (sec_body s)) ∧
  match s with
  | SecCa c => Forall sub_good (subs_of c)
  | SecBlobs t l => t = SECTION_EXPLICIT_KEY ∨ t = SECTION_FINGERPRINT_SHA1 ∧ Forall (λ h, len h = 20) l
                    ∨ t = SECTION_FINGERPRINT_SHA256 ∧ Forall (λ h, len h = 32) l
  end.

Lemma parse_ca c k : is_u32 (len (ca_body c)) → Forall sub_good (subs_of c) →
  parse_certificates (ca_body c) k = Ok (k <| cert_revocations := cert_revocations k ++ [normal_ca c] |>).
Proof.
  intros Hl Hs. unfold parse_certificates. pose proof (fits_u32 _ Hl) as Hm. unfold ca_body in *. rewrite reader_new_at.
  pose proof (len_nonneg (ca_key_blob c)). pose proof (len_nonneg (concat (sub_enc <$> subs_of c))).
  autorewrite with lens in Hl.
  rewrite read_string_enc by (width_lia || done). cbn [app] in *.
  rewrite read_string_enc by (width_lia || done).
  rewrite (while_at cert_subsection_step sub_enc sub_upd sub_good).
  - by rewrite subs_normal.
  - by eapply step_progress.
  - done.
  - intros. by apply sub_step.
  - done.
  - by rewrite <- app_assoc.
Qed.

Lemma parse_sec s k : sec_good s → parse_section (sec_tag s) (sec_body s) k = Ok (sec_upd k s).
Proof.
  intros [Hl Hg]. unfold parse_section, parse_blob_list. destruct s as [c|t l]; cbn [sec_tag sec_body sec_upd] in *.
  - by apply parse_ca.
  - destruct Hg as [->|[[-> Hg]|[-> Hg]]];
      cbn [Z.eqb Pos.eqb SECTION_CERTIFICATES SECTION_EXPLICIT_KEY SECTION_FINGERPRINT_SHA1 SECTION_FINGERPRINT_SHA256];
      by rewrite ?read_string_list, ?read_hash_list.
Qed.

Lemma sec_step s pre post k :
  sec_good s → fits_mem (pre ++ sec_enc s ++ post) →
  section_step (reader_at pre (sec_enc s ++ post)) k = Ok (reader_at (pre ++ sec_enc s) post, sec_upd k s).
Proof.
  intros Hg Hm. unfold section_step.
  destruct (read_tagged (sec_tag s) (sec_body s) pre post) as (r & E1 & E2); [|apply Hg|done|].
  { destruct s; [done|]. by destruct Hg as [_ [->|[[-> _]|[-> _]]]]. }
  unfold sec_enc. by rewrite E1, E2, parse_sec.
Qed.

(** *** The whole list *)

Definition blob_section (t : Z) (l : list bytes) : list section := if is_nil l then [] else [SecBlobs t l].
Definition sections_of (k : Krl) : list section :=
  (SecCa <$> cert_revocations k) ++ blob_section SECTION_EXPLICIT_KEY (sort_bytes (explicit_keys k))
  ++ blob_section SECTION_FINGERPRINT_SHA1 (sort_bytes (fp_sha1 k))
  ++ blob_section SECTION_FINGERPRINT_SHA256 (sort_bytes (fp_sha256 k)).

Definition krl_header (k : Krl) (date : Z) : bytes :=
  be_bytes 8 KRL_MAGIC ++ be_bytes 4 KRL_FORMAT_VERSION ++ be_bytes 8 (krl_version k) ++ be_bytes 8 date
  ++ be_bytes 8 0 ++ str_enc [] ++ str_enc (krl_comment k).

(** A list whose fields have the types of the source, with bitmaps below the
    reader's cap, and whose file stays below the 4 GiB of a length field. *)
Record krl_ok (k : Krl) (date : Z) : Prop := {
  ko_version : is_u64 (krl_version k);
  ko_date : is_u64 date;
  ko_comment : utf8_valid (krl_comment k) = true;
  ko_cas : Forall (λ c, Forall is_u64 (serials c) ∧ Forall (λ r, is_u64 r.1 ∧ is_u64 r.2) (serial_ranges c) ∧
             Forall (λ b, is_u64 b.1 ∧ len b.2 < MAX_BITMAP_BYTES) (serial_bitmaps c) ∧
             Forall (λ id, utf8_valid id = true) (key_ids c)) (cert_revocations k);
  ko_sha1 : Forall (λ h, len h = 20) (fp_sha1 k);
  ko_sha256 : Forall (λ h, len h = 32) (fp_sha256 k);
  ko_size : len (krl_to_bytes k date) ≤ U32_MAX;
}.

Lemma write_blobs_buf t l w : w_buf (write_blobs t l w) = w_buf w ++ concat (sec_enc <$> blob_section t l).
Proof.
  unfold write_blobs, blob_section. destruct (is_nil l); [by rewrite app_nil_r|]. rewrite write_section_buf. unfold into_vec.
  rewrite (write_each_buf _ str_enc) by (intros; apply write_string_buf). cbn [fmap list_fmap concat]. by rewrite app_nil_r.
Qed.

Lemma write_cas_buf l w :
  Forall (λ c, Forall (λ b, len b.2 < U32_MAX) (serial_bitmaps c)) l →
  w_buf (write_each write_ca l w) = w_buf w ++ concat (sec_enc <$> (SecCa <$> l)).
Proof.
  intros H. unfold write_each. revert w. induction H as [|c l Hc _ IH]; intros w; cbn [fold_left fmap list_fmap concat];
    [by rewrite app_nil_r|]. rewrite IH, write_ca_buf by done. by rewrite <- app_assoc.
Qed.

Lemma bitmaps_small k date : krl_ok k date → Forall (λ c, Forall (λ b, len b.2 < U32_MAX) (serial_bitmaps c)) (cert_revocations k).
Proof.
  intros H. eapply list.Forall_impl; [apply (ko_cas _ _ H)|]. intros c (_ & _ & Hb & _).
  eapply list.Forall_impl; [exact Hb|]. intros b [_ ?]. unfold MAX_BITMAP_BYTES in *. lia.
Qed.

Lemma krl_to_bytes_eq k date :
  krl_ok k date → krl_to_bytes k date = krl_header k date ++ concat (sec_enc <$> sections_of k).
Proof.
  intros H. unfold krl_to_bytes, into_vec, sections_of. rewrite !write_blobs_buf, write_cas_buf by (by eapply bitmaps_small).
  rewrite !concat_app_fmap, <- !app_assoc. f_equal.
Qed.

Lemma sub_body_len c s : s ∈ subs_of c → len (sub_body s) ≤ len (ca_body c).
Proof.
  intros Hs. pose proof (len_concat_elem sub_enc s _ Hs) as H. unfold ca_body. autorewrite with lens.
  assert (E : len (sub_enc s) = 5 + len (sub_body s)) by (unfold sub_enc, tagged; autorewrite with lens; lia).
  pose proof (len_nonneg (ca_key_blob c)). lia.
Qed.

Lemma subs_good c :
  is_u32 (len (ca_body c)) →
  Forall is_u64 (serials c) → Forall (λ r, is_u64 r.1 ∧ is_u64 r.2) (serial_ranges c) →
  Forall (λ b, is_u64 b.1 ∧ len b.2 < MAX_BITMAP_BYTES) (serial_bitmaps c) →
  Forall (λ id, utf8_valid id = true) (key_ids c) → Forall sub_good (subs_of c).
Proof.
  intros Hl Hs Hr Hb Hi. apply list.Forall_forall. intros s Hin. pose proof (sub_body_len c s Hin).
  pose proof (len_nonneg (sub_body s)). split; [width_lia|]. unfold subs_of in Hin. rewrite !elem_of_app in Hin.
  destruct Hin as [Hin|[(r & -> & Hin)%list_elem_of_fmap|[(b & -> & Hin)%list_elem_of_fmap|Hin]]].
  - destruct (is_nil _); [by apply not_elem_of_nil in Hin|]. apply list_elem_of_singleton in Hin as ->.
    apply list.Forall_forall. intros x Hx%sort_equiv. by apply (proj1 (list.Forall_forall _ _) Hs).
  - apply sort_equiv in Hin. by apply (proj1 (list.Forall_forall _ _) Hr).
  - destruct (proj1 (list.Forall_forall _ _) Hb b Hin) as [H1 H2]. split; [done|].
    pose proof (mpint_body_len b.2). lia.
  - destruct (is_nil _); [by apply not_elem_of_nil in Hin|]. apply list_elem_of_singleton in Hin as ->.
    apply list.Forall_forall. intros x Hx%sort_equiv. by apply (proj1 (list.Forall_forall _ _) Hi).
Qed.

Lemma sorted_forall (P : bytes → Prop) l : Forall P l → Forall P (sort_bytes l).
Proof. intros H. apply list.Forall_forall. intros x Hx%sort_equiv. by apply (proj1 (list.Forall_forall _ _) H). Qed.

Lemma sections_good k date : krl_ok k date → Forall sec_good (sections_of k).
Proof.
  intros H. pose proof (ko_size _ _ H) as Hs. rewrite krl_to_bytes_eq in Hs by done. rewrite len_app in Hs.
  pose proof (len_nonneg (krl_header k date)). apply list.Forall_forall. intros s Hin.
  pose proof (len_concat_elem sec_enc s _ Hin) as Hl.
  assert (E : len (sec_enc s) = 5 + len (sec_body s)) by (unfold sec_enc, tagged; autorewrite with lens; lia).
  pose proof (len_nonneg (sec_body s)). assert (Hb : is_u32 (len (sec_body s))) by width_lia. split; [done|].
  unfold sections_of, blob_section in Hin. rewrite !elem_of_app in Hin.
  destruct Hin as [(c & -> & Hin)%list_elem_of_fmap|[Hin|[Hin|Hin]]].
  - destruct (proj1 (list.Forall_forall _ _) (ko_cas _ _ H) c Hin) as (? & ? & ? & ?). by apply subs_good.
  - destruct (is_nil _); [by apply not_elem_of_nil in Hin|]. apply list_elem_of_singleton in Hin as ->. by left.
  - destruct (is_nil _); [by apply not_elem_of_nil in Hin|]. apply list_elem_of_singleton in Hin as ->.
    right; left. split; [done|]. apply sorted_forall, H.
  - destruct (is_nil _); [by apply not_elem_of_nil in Hin|]. apply list_elem_of_singleton in Hin as ->.
    right; right. split; [done|]. apply sorted_forall, H.
Qed.

Lemma fold_cas l k :
  fold_left sec_upd (SecCa <$> l) k = k <| cert_revocations := cert_revocations k ++ (normal_ca <$> l) |>.
Proof.
  revert k. induction l as [|c l IH]; intros k; cbn [fmap list_fmap fold_left]; [by rewrite app_nil_r; destruct k|].
  rewrite IH. cbn [sec_upd]. unfold set_field. cbn. by rewrite <- app_assoc.
Qed.

Lemma fold_blobs t l k : fold_left sec_upd (blob_section t l) k = sec_upd k (SecBlobs t l).
Proof.
  unfold blob_section. destruct l as [|b l]; [|done]. cbn [is_nil fold_left sec_upd]. unfold set_field.
  destruct (t =? _); [|destruct (t =? _)]; rewrite app_nil_r; by destruct k.
Qed.

Lemma krl_parse_written k date : krl_ok k date → krl_parse (krl_to_bytes k date) = Ok (normal k).
Proof.
  intros H. pose proof (ko_size _ _ H) as Hs. rewrite krl_to_bytes_eq in * by done.
  assert (Hm : fits_mem (krl_header k date ++ concat (sec_enc <$> sections_of k))) by (unfold fits_mem; lia).
  pose proof (sections_good k date H) as Hg. destruct H as [Hv Hd Hc _ _ _ _].
  assert (Hcl : is_u32 (len (krl_comment k))).
  { unfold krl_header in Hs. autorewrite with lens in Hs. pose proof (len_nonneg (krl_comment k)).
    pose proof (len_nonneg (concat (sec_enc <$> sections_of k))). width_lia. }
  unfold krl_parse, krl_header in *. rewrite <- !app_assoc in *. rewrite reader_new_at.
  rewrite read_u64_at by (done || by vm_compute). cbn [Z.eqb negb KRL_MAGIC Pos.eqb]. cbn [app].
  rewrite read_u32_at by ((rewrite <- ?app_assoc; done) || by vm_compute). cbn [Z.eqb negb KRL_FORMAT_VERSION Pos.eqb].
  rewrite read_u64_at by ((rewrite <- ?app_assoc; done) || done).
  rewrite read_u64_at by ((rewrite <- ?app_assoc; done) || done).
  rewrite read_u64_at by ((rewrite <- ?app_assoc; done) || by vm_compute).
  rewrite read_string_enc by ((rewrite <- ?app_assoc; done) || by vm_compute).
  rewrite read_string_enc by ((rewrite <- ?app_assoc; done) || done).
  rewrite (while_at section_step sec_enc sec_upd sec_good).
  - unfold sections_of. rewrite !fold_left_app, fold_cas, !fold_blobs. unfold from_utf8_lossy. rewrite lossy_chars_valid by done.
    by cbn.
  - by eapply step_progress.
  - done.
  - intros. by apply sec_step.
  - done.
  - by rewrite <- ?app_assoc.
Qed.

(** C29: a revocation list written to a file is read back as one that answers
    every question the same, with the same version and comment: sorting,
    the canonical form of bitmaps and the sectioning lose nothing. *)
Theorem krl_roundtrip `{HostHash, PureCrypto} k date :
  krl_ok k date →
  ∃ k', krl_parse (krl_to_bytes k date) = Ok k' ∧ krl_same k' k ∧
        krl_version k' = krl_version k ∧ krl_comment k' = krl_comment k.
Proof. intros Hk. exists (normal k). split; [by apply krl_parse_written|]. split; [apply normal_same|done]. Qed.

(** ** The builder methods *)

Lemma existsb_push_new {A} (eqb : A → A → bool) (f : A → bool) x l :
  (∀ y, eqb x y = true → x = y) → List.existsb f (push_new eqb x l) = List.existsb f l || f x.
Proof.
  intros He. unfold push_new. destruct (List.existsb (eqb x) l) eqn:E.
  - apply existsb_elem in E as (y & Hy & <-%He). destruct (f x) eqn:Ef; [|by rewrite orb_false_r].
    rewrite orb_true_r. apply existsb_elem. eauto.
  - rewrite List.existsb_app. cbn [List.existsb]. by rewrite orb_false_r.
Qed.

(** What a block of a CA says about a certificate. *)
Definition block_revokes (ca : bytes) (serial : Z) (id : bytes) (rev : CaRevocation) : bool :=
  (is_nil (ca_key_blob rev) || bytes_eqb (ca_key_blob rev) ca) && covers rev serial id.

(** The CA a block is for: its own, or any when its key is empty. *)
Definition for_ca (blob ca : bytes) : bool := is_nil blob || bytes_eqb blob ca.

Lemma on_ca_entry_revokes blob f g l ca serial id :
  (∀ c, ca_key_blob (f c) = ca_key_blob c) →
  (∀ c, covers (f c) serial id = covers c serial id || g) →
  List.existsb (block_revokes ca serial id) (on_ca_entry blob f l) =
    List.existsb (block_revokes ca serial id) l || (for_ca blob ca && g).
Proof.
  intros Hb Hc. induction l as [|c l IH]; cbn [on_ca_entry List.existsb].
  - unfold block_revokes, for_ca. rewrite Hb, Hc. cbn [ca_key_blob ca_revocation_new]. unfold covers. cbn.
    rewrite andb_false_r, !orb_false_r. done.
  - destruct (bytes_eqb_spec (ca_key_blob c) blob) as [<-|]; cbn [List.existsb].
    + unfold block_revokes at 1 3, for_ca. rewrite Hb, Hc.
      destruct (is_nil (ca_key_blob c) || bytes_eqb (ca_key_blob c) ca); cbn [andb]; [|by rewrite orb_false_r].
      by destruct (covers c serial id), g, (List.existsb _ l).
    + by rewrite IH, orb_assoc.
Qed.

Lemma orb_if (a b : bool) : (if a then true else b) = a || b.
Proof. done. Qed.

Lemma covers_serial c lo serial id :
  covers (c <| serials := push_new Z.eqb lo (serials c) |>) serial id = covers c serial id || (lo =? serial).
Proof.
  unfold covers, set_field. cbn [serials serial_ranges serial_bitmaps key_ids]. rewrite !orb_if.
  rewrite existsb_push_new by (intros; by apply Z.eqb_eq). rewrite (Z.eqb_sym lo serial).
  destruct (serial =? lo), (List.existsb (Z.eqb serial) (serials c)); cbn; by rewrite ?orb_true_r, ?orb_false_r.
Qed.

Lemma covers_range c lo hi serial id :
  covers (c <| serial_ranges := serial_ranges c ++ [(lo, hi)] |>) serial id =
    covers c serial id || ((lo <=? serial) && (serial <=? hi)).
Proof.
  unfold covers, set_field. cbn [serials serial_ranges serial_bitmaps key_ids]. rewrite !orb_if.
  rewrite List.existsb_app. cbn [List.existsb fst snd]. rewrite orb_false_r.
  destruct ((lo <=? serial) && (serial <=? hi)); [|by rewrite !orb_false_r]. by rewrite !orb_true_r; cbn; rewrite ?orb_true_r.
Qed.

Lemma covers_in_range c lo hi serial id :
  List.existsb (pair_eqb (lo, hi)) (serial_ranges c) = true → lo ≤ serial ≤ hi → covers c serial id = true.
Proof.
  intros ([a b] & Hin & Heq)%existsb_elem Hs. unfold pair_eqb in Heq. cbn in Heq. zbool. subst.
  unfold covers. rewrite !orb_if.
  assert (List.existsb (λ r, (r.1 <=? serial) && (serial <=? r.2)) (serial_ranges c) = true) as ->.
  { apply existsb_elem. exists (a, b). split; [done|]. cbn. lia. }
  by cbn; rewrite ?orb_true_r.
Qed.

Lemma covers_key_id c key_id serial id :
  covers (c <| key_ids := push_new bytes_eqb key_id (key_ids c) |>) serial id =
    covers c serial id || (negb (is_nil id) && bytes_eqb key_id id).
Proof.
  unfold covers, set_field. cbn [serials serial_ranges serial_bitmaps key_ids]. rewrite !orb_if.
  rewrite existsb_push_new by (intros; by apply bytes_eqb_true). rewrite andb_orb_distrib_r, !orb_assoc. done.
Qed.

(** Revoking serials or a key id of a CA adds exactly the certificates
    named, of that CA or of every CA when none is given, and takes none away. *)
Theorem revoke_cert_exact ca lo hi key_id k ca' serial id :
  lo ≤ hi →
  is_revoked_cert (revoke_cert_serials ca lo hi k) ca' serial id =
    is_revoked_cert k ca' serial id || (for_ca ca ca' && ((lo <=? serial) && (serial <=? hi))) ∧
  is_revoked_cert (revoke_cert_key_id ca key_id k) ca' serial id =
    is_revoked_cert k ca' serial id || (for_ca ca ca' && (negb (is_nil id) && bytes_eqb key_id id)).
Proof.
  intros Hlh. split; apply (on_ca_entry_revokes ca); intros c.
  - destruct (lo =? hi); [done|]. by destruct (List.existsb _ _).
  - destruct (Z.eqb_spec lo hi) as [->|Hne].
    + rewrite covers_serial. f_equal. destruct (Z.eqb_spec hi serial); lia.
    + destruct (List.existsb (pair_eqb (lo, hi)) (serial_ranges c)) eqn:E.
      * destruct ((lo <=? serial) && (serial <=? hi)) eqn:Er; [|by rewrite orb_false_r]. zbool.
        by rewrite (covers_in_range c lo hi serial id E).
      * rewrite Z.min_l, Z.max_r by lia. apply covers_range.
  - done.
  - apply covers_key_id.
Qed.

Section Keys.
Context `{HostHash, PureCrypto}.

Lemma is_revoked_key_eq k blob :
  is_revoked_key k blob = List.existsb (λ x, bytes_eqb x blob) (explicit_keys k)
    || List.existsb (λ fp, bytes_eqb fp (sha1_digest blob)) (fp_sha1 k)
    || List.existsb (λ fp, bytes_eqb fp (sha256_digest blob)) (fp_sha256 k).
Proof.
  unfold is_revoked_key. rewrite !orb_if. rewrite <- orb_assoc. f_equal.
  f_equal; [by destruct (fp_sha1 k)|by destruct (fp_sha256 k)].
Qed.

Lemma merge_fold (f : bytes → bool) (add : bytes → Krl → Krl) (get : Krl → list bytes) l k :
  (∀ b k, List.existsb f (get (add b k)) = List.existsb f (get k) || f b) →
  List.existsb f (get (fold_left (λ k b, add b k) l k)) = List.existsb f (get k) || List.existsb f l.
Proof.
  intros Hadd. revert k. induction l as [|b l IH]; intros k; cbn [fold_left List.existsb]; [by rewrite orb_false_r|].
  by rewrite IH, Hadd, orb_assoc.
Qed.

Lemma fold_keep {A} (P : Krl → A) (add : bytes → Krl → Krl) l k :
  (∀ b k, P (add b k) = P k) → P (fold_left (λ k b, add b k) l k) = P k.
Proof. intros Ha. revert k. induction l as [|b l IH]; intros k; [done|]. cbn [fold_left]. by rewrite IH, Ha. Qed.
End Keys.

(** A merged list revokes exactly what one of the two does. *)
Theorem krl_merge_union `{HostHash, PureCrypto} k other :
  (∀ blob, is_revoked_key (krl_merge k other) blob = is_revoked_key k blob || is_revoked_key other blob) ∧
  (∀ ca serial id, is_revoked_cert (krl_merge k other) ca serial id =
     is_revoked_cert k ca serial id || is_revoked_cert other ca serial id).
Proof.
  assert (Hpush : ∀ f x l, List.existsb f (push_new bytes_eqb x l) = List.existsb f l || f x).
  { intros. apply existsb_push_new. intros. by apply bytes_eqb_true. }
  unfold krl_merge. split; intros.
  - rewrite !is_revoked_key_eq.
    rewrite !(fold_keep explicit_keys revoke_sha256), !(fold_keep explicit_keys revoke_sha1),
      !(fold_keep fp_sha1 revoke_sha256), (merge_fold _ revoke_key explicit_keys), (merge_fold _ revoke_sha1 fp_sha1),
      (merge_fold _ revoke_sha256 fp_sha256), (fold_keep fp_sha1 revoke_key), (fold_keep fp_sha256 revoke_sha1),
      (fold_keep fp_sha256 revoke_key); try (by intros); try (intros b k'; exact (Hpush _ b _)).
    unfold set_field. cbn [explicit_keys fp_sha1 fp_sha256].
    repeat match goal with |- context [List.existsb ?f ?l] => destruct (List.existsb f l) end; done.
  - unfold is_revoked_cert.
    rewrite (fold_keep cert_revocations revoke_sha256), (fold_keep cert_revocations revoke_sha1),
      (fold_keep cert_revocations revoke_key) by done. exact (List.existsb_app _ _ _).
Qed.
