(* ===== verification/Runner.v ===== *)
(** * The key exchange runner (src/hazmat/transport/runner.rs)

    [KexRunner]: the state machine that drives a key exchange, from our
    KEXINIT to both NEWKEYS, for every method, first exchange and re-keys.
    The fields that key installation reads are the record [RunnerKeys] of
    [KexKeys], embedded as [kx_keys]; the others are here.  A method on
    [&mut self] and [&mut PacketCodec] returns its result with both. *)
From S2P Require Import Prelude Wire Crypto Cipher Compress Packet KexInit KexHash KexMethods KexKeys.

Record KexAdvance := { adv_outbound : list bytes; adv_completed : bool }.
Definition advance_default : KexAdvance := {| adv_outbound := []; adv_completed := false |}.

Record GexSizes := { gs_min : Z; gs_n : Z; gs_max : Z; gs_group_bits : Z; gs_bits_set : Z }.

(** [KexBackend::Gex | KexBackend::GexSha1] *)
Definition is_gex (be : KexBackend) : bool := match be with Gex | GexSha1 => true | _ => false end.

Section Runner.
Context {P : CipherPrims} {CC : CompCol} {C : PureCrypto} {H : KexHash} {K : KexPrims}.

Definition default_gex_group (req : GexRequest) : DhGroup :=
  if gr_min req >? 4096 then group18
  else if gr_min req >? 2048 then (if gr_n req >? 4096 then group18 else group16)
  else if (gr_n req <=? 2048) && (gr_max req >=? 2048) then group14
  else if (gr_n req <=? 4096) && (gr_max req >=? 4096) then group16
  else if gr_max req >=? 8192 then group18
  else if gr_max req >=? 4096 then group16
  else group14.

Inductive ClientStateInner :=
  | StCurve (s : X25519Sha256.ClientState)
  | StEcdh (s : EcdhSha2.ClientState)
  | StDh (s : DhFixed.DhClientState)
  | StGex (s : GexSha.GexClientState)
  | StMlKem768X25519 (s : MlKemX25519.ClientState)
  | StMlKem768Nistp256 (s : MlKemP256.ClientState)
  | StSntrup761X25519 (s : SntrupX25519.ClientState).

Inductive Phase :=
  | Idle
  | SentKexInit
  | Negotiated (client_state : option ClientStateInner)
  | GexClientAwaitGroup (client_state : GexSha.GexClientState)
  | GexClientAwaitReply (client_state : GexSha.GexClientState)
  | GexServerAwaitInit (request : GexRequest) (group : DhGroup)
  | AwaitingPeerNewKeys
  | Completed.

Definition GexGroupSelector := GexRequest → option DhGroup.

Record KexRunner := {
  kx_keys : RunnerKeys;
  our_advert_owned : KexInit;
  our_advert_bytes : bytes;
  peer_advert_bytes : option bytes;
  initial_host_key_sig : option (bytes * bytes);
  phase : Phase;
  pending_wrong_guess_discard : bool;
  first_kex : bool;
  ext_info_enabled : bool;
  ext_info_send : bool;
  outbound_ext_info : option ExtInfo;
  peer_ext_info : option ExtInfo;
  accept_ext_info_now : bool;
  gex_sizes : option GexSizes;
  gex_selector : option GexGroupSelector
}.
#[local] Instance eta_KexRunner : Etable KexRunner :=
  λ r, Build_KexRunner (kx_keys r) (our_advert_owned r) (our_advert_bytes r) (peer_advert_bytes r)
         (initial_host_key_sig r) (phase r) (pending_wrong_guess_discard r) (first_kex r)
         (ext_info_enabled r) (ext_info_send r) (outbound_ext_info r) (peer_ext_info r)
         (accept_ext_info_now r) (gex_sizes r) (gex_selector r).

Definition role (r : KexRunner) : Role := kr_role (kx_keys r).
Definition strict_kex_enabled (r : KexRunner) : bool := kr_strict_kex (kx_keys r).
Definition session_id (r : KexRunner) : option bytes := kr_session_id (kx_keys r).

(** An update of the embedded record. *)
Definition with_keys (f : RunnerKeys → RunnerKeys) (r : KexRunner) : KexRunner :=
  r <| kx_keys := f (kx_keys r) |>.

Definition runner_new (role : Role) (advert : KexInit) : KexRunner :=
  {| kx_keys := Build_RunnerKeys role None None None None None None false false false;
     our_advert_owned := advert; our_advert_bytes := kexinit_encode advert; peer_advert_bytes := None;
     initial_host_key_sig := None; phase := Idle; pending_wrong_guess_discard := false; first_kex := true;
     ext_info_enabled := false; ext_info_send := false; outbound_ext_info := None; peer_ext_info := None;
     accept_ext_info_now := false; gex_sizes := None; gex_selector := None |}.

Definition set_gex_selector (selector : option GexGroupSelector) (r : KexRunner) : KexRunner :=
  r <| gex_selector := selector |>.

Definition runner_start (r : KexRunner) : result KexAdvance * KexRunner :=
  match phase r with
  | Idle => (Ok {| adv_outbound := [our_advert_bytes r]; adv_completed := false |}, r <| phase := SentKexInit |>)
  | _ => (Err (Protocol "KexRunner::start called twice"), r)
  end.

Definition restart (advert : KexInit) (r : KexRunner) : result KexAdvance * KexRunner :=
  match phase r with
  | Completed =>
      let r := r <| our_advert_owned := advert |> <| our_advert_bytes := kexinit_encode advert |>
        <| peer_advert_bytes := None |> <| gex_sizes := None |>
        <| kx_keys := (kx_keys r) <| kr_negotiated := None |> <| kr_backend := None |> <| kr_current_h := None |>
             <| kr_current_k := None |> <| kr_installed_keys := None |> <| kr_sent_newkeys := false |>
             <| kr_peer_newkeys := false |> |>
        <| pending_wrong_guess_discard := false |> <| first_kex := false |> <| ext_info_enabled := false |>
        <| ext_info_send := false |> <| outbound_ext_info := None |> <| accept_ext_info_now := false |>
        <| phase := SentKexInit |> in
      (Ok {| adv_outbound := [our_advert_bytes r]; adv_completed := false |}, r)
  | _ => (Err (Protocol "KexRunner::restart from non-Completed"), r)
  end.

Definition is_kexing (r : KexRunner) : bool :=
  match phase r with Idle | Completed => false | _ => true end.
Definition is_completed (r : KexRunner) : bool := match phase r with Completed => true | _ => false end.
Definition awaiting_peer_kexinit (r : KexRunner) : bool :=
  match phase r with SentKexInit => true | _ => false end.
Definition uses_gex (r : KexRunner) : bool :=
  match kr_backend (kx_keys r) with Some be => is_gex be | None => false end.

(** ** EXT_INFO *)

Definition set_outbound_ext_info (ext : ExtInfo) (r : KexRunner) : KexRunner :=
  r <| outbound_ext_info := Some ext |>.
Definition arm_ext_info_post_auth (r : KexRunner) : KexRunner :=
  match role r with
  | Client => if ext_info_enabled r then r <| accept_ext_info_now := true |> else r
  | Server => r
  end.
Definition handle_inbound_ext_info (payload : bytes) (r : KexRunner) : result unit * KexRunner :=
  if negb (accept_ext_info_now r) then (Err (Protocol "unexpected SSH_MSG_EXT_INFO"), r) else
  let! parsed := ext_info_decode payload at r in
  (Ok (), r <| peer_ext_info := Some parsed |> <| accept_ext_info_now := false |>).
Definition note_inbound_other (r : KexRunner) : KexRunner := r <| accept_ext_info_now := false |>.

(** ** The methods by back end *)

Definition method_init (negotiated : option NegotiatedOwned) (backend : KexBackend) (rng : Rng)
    : result (ClientStateInner * bytes) :=
  let dh '(s, payload) := (StDh s, payload) in
  let ecdh '(s, payload) := (StEcdh s, payload) in
  match backend with
  | Curve25519 => let (s, payload) := X25519Sha256.client_init rng in Ok (StCurve s, payload)
  | EcdhP256 => Ok (ecdh (EcdhSha2.client_init P256 rng))
  | EcdhP384 => Ok (ecdh (EcdhSha2.client_init P384 rng))
  | EcdhP521 => Ok (ecdh (EcdhSha2.client_init P521 rng))
  | Dh14 | Dh14Sha1 => Ok (dh (DhFixed.dh_client_init group14 rng))
  | Dh16 => Ok (dh (DhFixed.dh_client_init group16 rng))
  | Dh18 => Ok (dh (DhFixed.dh_client_init group18 rng))
  | Dh1Sha1 => let? g := group1 in Ok (dh (DhFixed.dh_client_init g rng))
  | Gex | GexSha1 =>
      let request := match negotiated with
        | Some n => gex_for_strength (dh_need n) | None => gex_request_default end in
      let (s, payload) := GexSha.client_request request in Ok (StGex s, payload)
  | MlKem768X25519 => let (s, payload) := MlKemX25519.client_init rng in Ok (StMlKem768X25519 s, payload)
  | MlKem768Nistp256 => let (s, payload) := MlKemP256.client_init rng in Ok (StMlKem768Nistp256 s, payload)
  | Sntrup761X25519 => let (s, payload) := SntrupX25519.client_init rng in Ok (StSntrup761X25519 s, payload)
  end.

Definition build_client_init (rng : Rng) (r : KexRunner) : result (ClientStateInner * bytes) :=
  let? be := ok_or (kr_backend (kx_keys r)) (Protocol "backend unset") in
  method_init (kr_negotiated (kx_keys r)) be rng.

Definition method_reply (backend : KexBackend) (rng : Rng) (payload : bytes) (hk : HostKey) (ctx : KexContext)
    : result (bytes * KexOutput) :=
  match backend with
  | Curve25519 => X25519Sha256.server_reply rng payload hk ctx
  | EcdhP256 => EcdhSha2.server_reply_inner KSha256 P256 rng payload hk ctx
  | EcdhP384 => EcdhSha2.server_reply_inner KSha384 P384 rng payload hk ctx
  | EcdhP521 => EcdhSha2.server_reply_inner KSha512 P521 rng payload hk ctx
  | Dh14 => DhFixed.dh_server_reply KSha256 group14 rng payload hk ctx
  | Dh1Sha1 => let? g := group1 in DhFixed.dh_server_reply KSha1 g rng payload hk ctx
  | Dh14Sha1 => DhFixed.dh_server_reply KSha1 group14 rng payload hk ctx
  | Dh16 => DhFixed.dh_server_reply KSha512 group16 rng payload hk ctx
  | Dh18 => DhFixed.dh_server_reply KSha512 group18 rng payload hk ctx
  | MlKem768X25519 => MlKemX25519.server_reply rng payload hk ctx
  | MlKem768Nistp256 => MlKemP256.server_reply rng payload hk ctx
  | Sntrup761X25519 => SntrupX25519.server_reply rng payload hk ctx
  | Gex | GexSha1 => Err (Protocol "GEX routed wrong")
  end.

Definition method_finish (backend : KexBackend) (state : ClientStateInner) (payload : bytes)
    (verify : Verifier) (ctx : KexContext) : result KexOutput :=
  let mismatch := Err (Protocol "client state type mismatch") in
  match backend with
  | Curve25519 =>
      match state with StCurve s => X25519Sha256.client_finish s payload verify ctx | _ => mismatch end
  | EcdhP256 =>
      match state with StEcdh s => EcdhSha2.client_finish P256 KSha256 s payload verify ctx | _ => mismatch end
  | EcdhP384 =>
      match state with StEcdh s => EcdhSha2.client_finish P384 KSha384 s payload verify ctx | _ => mismatch end
  | EcdhP521 =>
      match state with StEcdh s => EcdhSha2.client_finish P521 KSha512 s payload verify ctx | _ => mismatch end
  | Dh14 => match state with StDh s => DhFixed.dh_client_finish KSha256 s payload verify ctx | _ => mismatch end
  | Dh16 | Dh18 =>
      match state with StDh s => DhFixed.dh_client_finish KSha512 s payload verify ctx | _ => mismatch end
  | Dh1Sha1 | Dh14Sha1 =>
      match state with StDh s => DhFixed.dh_client_finish KSha1 s payload verify ctx | _ => mismatch end
  | MlKem768X25519 =>
      match state with StMlKem768X25519 s => MlKemX25519.client_finish s payload verify ctx | _ => mismatch end
  | MlKem768Nistp256 =>
      match state with StMlKem768Nistp256 s => MlKemP256.client_finish s payload verify ctx | _ => mismatch end
  | Sntrup761X25519 =>
      match state with StSntrup761X25519 s => SntrupX25519.client_finish s payload verify ctx | _ => mismatch end
  | Gex | GexSha1 => Err (Protocol "GEX routed wrong")
  end.

(** ** The peer's KEXINIT *)

Definition handle_peer_kexinit (rng : Rng) (seq_in_after_kexinit : Z) (payload : bytes) (r : KexRunner)
    : result KexAdvance * KexRunner :=
  let! peer := kexinit_decode payload at r in
  let r := r <| peer_advert_bytes := Some payload |> in
  let '(client_init, server_init) := match role r with
    | Client => (our_advert_owned r, peer) | Server => (peer, our_advert_owned r) end in
  let! neg := negotiate client_init server_init at r in
  if ng_strict_kex_enabled neg && negb (bool_decide (is_Some (session_id r)))
     && negb (seq_in_after_kexinit =? 1)
  then (Err (Protocol "strict-kex: KEXINIT was not the first packet"), r) else
  let! backend := backend_from_name (ng_kex neg) at r in
  let r := with_keys (λ k, k <| kr_backend := Some backend |>) r in
  let r := with_keys (λ k, k <| kr_strict_kex :=
             if ng_strict_kex_enabled neg then true else kr_strict_kex k |>) r in
  let '(recv, send) := match role r with
    | Client => (ng_client_ext_info neg, ng_server_ext_info neg)
    | Server => (ng_server_ext_info neg, ng_client_ext_info neg) end in
  let r := r <| ext_info_enabled := first_kex r && recv |> <| ext_info_send := first_kex r && send |> in
  let r := r <| pending_wrong_guess_discard :=
             if ki_first_kex_packet_follows peer && ng_wrong_guess neg then true
             else pending_wrong_guess_discard r |> in
  let r := with_keys (λ k, k <| kr_negotiated := Some neg |>) r in
  match role r with
  | Client =>
      let! (state, init_payload) := build_client_init rng r at r in
      let adv := {| adv_outbound := [init_payload]; adv_completed := false |} in
      if is_gex backend then
        match state with
        | StGex s => (Ok adv, r <| phase := GexClientAwaitGroup s |>)
        | _ => (Err (Protocol "GEX backend without GEX state"), r)
        end
      else (Ok adv, r <| phase := Negotiated (Some state) |>)
  | Server => (Ok advance_default, r <| phase := Negotiated None |>)
  end.

(** ** Secret and hash are known *)

Definition advance_after_send_newkeys (r : KexRunner) : KexRunner :=
  if kr_peer_newkeys (kx_keys r) then r <| phase := Completed |> else r <| phase := AwaitingPeerNewKeys |>.

(** The end of the four handlers that compute [(K, H)]: record them, derive
    the keys, queue NEWKEYS after [before], install if both NEWKEYS are seen.
    [reply] is the payload a client takes [initial_host_key_sig] from. *)
Definition finish_exchange (out : KexOutput) (before : list bytes) (reply : option bytes)
    (r : KexRunner) (codec : PacketCodec) : result KexAdvance * (KexRunner * PacketCodec) :=
  let r := with_keys (λ k, k <| kr_current_k := Some (ko_k out) |> <| kr_current_h := Some (ko_h out) |>) r in
  let r := r <| initial_host_key_sig :=
             match session_id r, reply with
             | None, Some payload => host_key_and_sig payload
             | _, _ => initial_host_key_sig r
             end |> in
  let r := with_keys (λ k, k <| kr_session_id :=
             match kr_session_id k with Some sid => Some sid | None => kr_current_h k end |>) r in
  let! keys := derive_keys (kx_keys r) at (r, codec) in
  let r := with_keys (λ _, keys <| kr_sent_newkeys := true |>) r in
  let (res, codec) := maybe_install (kx_keys r) codec in
  let! _ := res at (r, codec) in
  let r := advance_after_send_newkeys r in
  (Ok {| adv_outbound := before ++ [[byte_of_Z SSH_MSG_NEWKEYS]]; adv_completed := false |}, (r, codec)).

Definition server_ctx (v_c v_s : bytes) (r : KexRunner) : KexContext :=
  {| cx_v_c := v_c; cx_v_s := v_s; cx_i_c := default [] (peer_advert_bytes r); cx_i_s := our_advert_bytes r |}.
Definition client_ctx (v_c v_s : bytes) (r : KexRunner) : KexContext :=
  {| cx_v_c := v_c; cx_v_s := v_s; cx_i_c := our_advert_bytes r; cx_i_s := default [] (peer_advert_bytes r) |}.

Definition handle_kex_init_message (rng : Rng) (payload : bytes) (host_key : option HostKey)
    (v_c v_s : bytes) (r : KexRunner) (codec : PacketCodec) : result KexAdvance * (KexRunner * PacketCodec) :=
  let! hk := ok_or host_key (Protocol "server requires host key") at (r, codec) in
  let! backend := ok_or (kr_backend (kx_keys r)) (Protocol "backend unset") at (r, codec) in
  let! (reply_payload, out) := method_reply backend rng payload hk (server_ctx v_c v_s r) at (r, codec) in
  finish_exchange out [reply_payload] None r codec.

Definition handle_kex_reply_message (payload : bytes) (verifier : option Verifier)
    (v_c v_s : bytes) (r : KexRunner) (codec : PacketCodec) : result KexAdvance * (KexRunner * PacketCodec) :=
  let! backend := ok_or (kr_backend (kx_keys r)) (Protocol "backend unset") at (r, codec) in
  let ctx := client_ctx v_c v_s r in
  let old := phase r in
  let r := r <| phase := Idle |> in
  match old with
  | Negotiated (Some state) =>
      let! verify := ok_or verifier (Protocol "client requires host-key verifier") at (r, codec) in
      let! out := method_finish backend state payload verify ctx at (r, codec) in
      finish_exchange out [] (Some payload) r codec
  | _ => (Err (Protocol "no client state for KEX reply"), (r, codec))
  end.

(** ** Group exchange *)

Definition handle_gex_request (payload : bytes) (r : KexRunner) : result KexAdvance * KexRunner :=
  let! (request, group, out) :=
    match gex_selector r with
    | None => GexSha.server_group payload default_gex_group
    | Some select => GexSha.server_group payload (λ req, default (default_gex_group req) (select req))
    end at r in
  let refused := match gex_selector r with
    | None => false | Some select => negb (bool_decide (is_Some (select request))) end in
  if refused then (Err (Protocol "no matching DH grp found"), r) else
  (Ok {| adv_outbound := [out]; adv_completed := false |}, r <| phase := GexServerAwaitInit request group |>).

Definition handle_gex_group (rng : Rng) (payload : bytes) (r : KexRunner) : result KexAdvance * KexRunner :=
  let old := phase r in
  let r := r <| phase := Idle |> in
  match old with
  | GexClientAwaitGroup state =>
      let! (state, out) := GexSha.client_init state payload rng at r in
      let req := GexSha.request state in
      let r := r <| gex_sizes := Some {| gs_min := gr_min req; gs_n := gr_n req; gs_max := gr_max req;
                     gs_group_bits := GexSha.group_bits state; gs_bits_set := GexSha.e_bits_set state |} |> in
      (Ok {| adv_outbound := [out]; adv_completed := false |}, r <| phase := GexClientAwaitReply state |>)
  | _ => (Err (Protocol "GEX_GROUP without prior request"), r)
  end.

Definition gex_hash (r : KexRunner) : KdfHash :=
  match kr_backend (kx_keys r) with Some GexSha1 => KSha1 | _ => KSha256 end.

Definition handle_gex_init (rng : Rng) (payload : bytes) (host_key : option HostKey)
    (v_c v_s : bytes) (r : KexRunner) (codec : PacketCodec) : result KexAdvance * (KexRunner * PacketCodec) :=
  let! hk := ok_or host_key (Protocol "server requires host key") at (r, codec) in
  let old := phase r in
  let r := r <| phase := Idle |> in
  match old with
  | GexServerAwaitInit request group =>
      let! (reply_payload, out) := GexSha.server_reply_with (gex_hash r) rng request group payload hk
                                     (server_ctx v_c v_s r) at (r, codec) in
      finish_exchange out [reply_payload] None r codec
  | _ => (Err (Protocol "GEX_INIT without prior group"), (r, codec))
  end.

Definition handle_gex_reply (payload : bytes) (verifier : option Verifier)
    (v_c v_s : bytes) (r : KexRunner) (codec : PacketCodec) : result KexAdvance * (KexRunner * PacketCodec) :=
  let! verify := ok_or verifier (Protocol "client requires host-key verifier") at (r, codec) in
  let old := phase r in
  let r := r <| phase := Idle |> in
  match old with
  | GexClientAwaitReply state =>
      let! out := GexSha.client_finish_with (gex_hash r) state payload verify (client_ctx v_c v_s r)
        at (r, codec) in
      finish_exchange out [] (Some payload) r codec
  | _ => (Err (Protocol "GEX_REPLY without prior init"), (r, codec))
  end.

(** ** The peer's NEWKEYS *)

Definition handle_peer_newkeys (r : KexRunner) (codec : PacketCodec)
    : result KexAdvance * (KexRunner * PacketCodec) :=
  let r := with_keys (λ k, k <| kr_peer_newkeys := true |>) r in
  let (res, codec) := maybe_install (kx_keys r) codec in
  let! _ := res at (r, codec) in
  let r := r <| phase := Completed |> in
  let r := r <| accept_ext_info_now :=
             if first_kex r && ext_info_enabled r then true else accept_ext_info_now r |> in
  if first_kex r && ext_info_send r then
    match outbound_ext_info r with
    | Some ext =>
        (Ok {| adv_outbound := [ext_info_encode ext]; adv_completed := false |},
         (r <| outbound_ext_info := None |>, codec))
    | None => (Ok advance_default, (r, codec))
    end
  else (Ok advance_default, (r, codec)).

(** ** One inbound payload *)

Definition in_kex_range (msg : Z) : bool := (30 <=? msg) && (msg <=? 49).

(** A step that does not touch the codec. *)
Definition lift_codec {A} (codec : PacketCodec) (x : result A * KexRunner) : result A * (KexRunner * PacketCodec) :=
  (x.1, (x.2, codec)).

(** The arms of the [match] on the phase and the message. *)
Definition on_packet_dispatch (rng : Rng) (payload : bytes) (msg : Z) (host_key : option HostKey)
    (verifier : option Verifier) (v_c v_s : bytes) (r : KexRunner) (codec : PacketCodec)
    : result KexAdvance * (KexRunner * PacketCodec) :=
  let unexpected := (Err (Protocol "unexpected message during KEX"), (r, codec)) in
  let early := (Err (Protocol "NEWKEYS before KEX completion"), (r, codec)) in
  match phase r with
  | SentKexInit =>
      if msg =? SSH_MSG_KEXINIT then lift_codec codec (handle_peer_kexinit rng (seq_in codec) payload r)
      else unexpected
  | Negotiated _ =>
      match role r, uses_gex r with
      | Server, false =>
          if msg =? SSH_MSG_KEX_ECDH_INIT then handle_kex_init_message rng payload host_key v_c v_s r codec
          else if msg =? SSH_MSG_NEWKEYS then early else unexpected
      | Client, false =>
          if msg =? SSH_MSG_KEX_ECDH_REPLY then handle_kex_reply_message payload verifier v_c v_s r codec
          else if msg =? SSH_MSG_NEWKEYS then early else unexpected
      | Server, true =>
          if (msg =? SSH_MSG_KEX_DH_GEX_REQUEST) || (msg =? 30)
          then lift_codec codec (handle_gex_request payload r)
          else if msg =? SSH_MSG_NEWKEYS then early else unexpected
      | Client, true => if msg =? SSH_MSG_NEWKEYS then early else unexpected
      end
  | GexClientAwaitGroup _ =>
      if msg =? SSH_MSG_KEX_DH_GEX_GROUP then lift_codec codec (handle_gex_group rng payload r)
      else if msg =? SSH_MSG_NEWKEYS then early else unexpected
  | GexServerAwaitInit _ _ =>
      if msg =? SSH_MSG_KEX_DH_GEX_INIT then handle_gex_init rng payload host_key v_c v_s r codec
      else if msg =? SSH_MSG_NEWKEYS then early else unexpected
  | GexClientAwaitReply _ =>
      if msg =? SSH_MSG_KEX_DH_GEX_REPLY then handle_gex_reply payload verifier v_c v_s r codec
      else if msg =? SSH_MSG_NEWKEYS then early else unexpected
  | AwaitingPeerNewKeys =>
      if msg =? SSH_MSG_NEWKEYS then handle_peer_newkeys r codec else unexpected
  | Idle | Completed => unexpected
  end.

Definition runner_on_packet (rng : Rng) (payload : bytes) (host_key : option HostKey)
    (verifier : option Verifier) (v_c v_s : bytes) (r : KexRunner) (codec : PacketCodec)
    : result KexAdvance * (KexRunner * PacketCodec) :=
  match payload with
  | [] => (Err (Format "empty payload"), (r, codec))
  | b :: _ =>
      let msg := u8 b in
      let r := r <| accept_ext_info_now := false |> in
      let in_exchange := match phase r with
        | Negotiated _ | GexClientAwaitGroup _ | GexServerAwaitInit _ _ => true | _ => false end in
      if pending_wrong_guess_discard r && in_exchange && in_kex_range msg then
        (Ok advance_default, (r <| pending_wrong_guess_discard := false |>, codec))
      else if strict_kex_enabled r && is_kexing r &&
              negb ((msg =? 20) || (msg =? 21) || in_kex_range msg) then
        (Err (Protocol "non-KEX message during strict-kex window"), (r, codec))
      else
        let (res, rc) := on_packet_dispatch rng payload msg host_key verifier v_c v_s r codec in
        let! adv := res at rc in
        (Ok {| adv_outbound := adv_outbound adv; adv_completed := is_completed rc.1 |}, rc)
  end.
End Runner.
#[export] Existing Instance eta_KexRunner.
