(* ===== verification/RunnerFacts.v ===== *)
(** * Two runners complete a key exchange; a client completes none unauthenticated

    The message flow of [Runner] between two runners, for every method; and
    invariants of one runner against any peer. *)
From S2P Require Import Prelude Wire Crypto Cipher Compress Packet PacketFacts KexInit KexFacts KexHash KexMethods KexMethodFacts KexKeys Runner.

(** Projections of updated runners; eager, so that an updated record is
    reduced before it is used again. *)
Ltac runner_simpl :=
  cbv beta iota zeta delta [with_keys set_field
       kr_role kr_negotiated kr_backend kr_session_id kr_current_h kr_current_k kr_installed_keys
       kr_sent_newkeys kr_peer_newkeys kr_strict_kex kx_keys our_advert_owned our_advert_bytes
       peer_advert_bytes initial_host_key_sig phase pending_wrong_guess_discard first_kex
       ext_info_enabled ext_info_send outbound_ext_info peer_ext_info accept_ext_info_now
       gex_sizes gex_selector fst snd adv_outbound adv_completed ok_or role session_id] in *.

Section Steps.
Context {P : CipherPrims} {CC : CompCol} {C : PureCrypto} {H : KexHash} {K : KexPrims}.

(** A runner that has sent its KEXINIT [oa], in the first exchange
    ([sid = None]) or a re-key. *)
Record starting (r : KexRunner) (rl : Role) (oa : KexInit) (sid : option bytes) (strict : bool) : Prop := {
  st_role : kr_role (kx_keys r) = rl;
  st_phase : phase r = SentKexInit;
  st_owned : our_advert_owned r = oa;
  st_bytes : our_advert_bytes r = kexinit_encode oa;
  st_sid : kr_session_id (kx_keys r) = sid;
  st_strict : kr_strict_kex (kx_keys r) = strict;
  st_sent : kr_sent_newkeys (kx_keys r) = false;
  st_peer : kr_peer_newkeys (kx_keys r) = false;
  st_pending : pending_wrong_guess_discard r = false;
}.

Lemma runner_new_starting rl oa :
  ∃ r, runner_start (runner_new rl oa) =
    (Ok {| adv_outbound := [kexinit_encode oa]; adv_completed := false |}, r) ∧ starting r rl oa None false.
Proof. eexists. split; [done|]. by split. Qed.

Lemma restart_starting r oa :
  phase r = Completed →
  ∃ r', restart oa r = (Ok {| adv_outbound := [kexinit_encode oa]; adv_completed := false |}, r') ∧
    starting r' (kr_role (kx_keys r)) oa (kr_session_id (kx_keys r)) (kr_strict_kex (kx_keys r)).
Proof. intros E. unfold restart. rewrite E. eexists. split; [done|]. by split. Qed.

(** Both KEXINITs are known and the method's messages are next. *)
Record exchanging (r : KexRunner) (rl : Role) (oa pa : KexInit) (neg : NegotiatedOwned) (be : KexBackend)
    (sid : option bytes) (strict : bool) : Prop := {
  ex_role : kr_role (kx_keys r) = rl;
  ex_our : our_advert_bytes r = kexinit_encode oa;
  ex_peer_advert : peer_advert_bytes r = Some (kexinit_encode pa);
  ex_neg : kr_negotiated (kx_keys r) = Some neg;
  ex_backend : kr_backend (kx_keys r) = Some be;
  ex_sid : kr_session_id (kx_keys r) = sid;
  ex_strict : kr_strict_kex (kx_keys r) = strict;
  ex_sent : kr_sent_newkeys (kx_keys r) = false;
  ex_peer : kr_peer_newkeys (kx_keys r) = false;
  ex_pending : pending_wrong_guess_discard r = false;
}.

(** The peer's KEXINIT may be refused under strict key exchange only for its
    position. *)
Definition kexinit_in_place (neg : NegotiatedOwned) (sid : option bytes) (codec : PacketCodec) : Prop :=
  ng_strict_kex_enabled neg = true → sid = None → seq_in codec = 1.

Definition phase_after_kexinit (rl : Role) (st : ClientStateInner) : Phase :=
  match rl, st with
  | Server, _ => Negotiated None
  | Client, StGex s => GexClientAwaitGroup s
  | Client, _ => Negotiated (Some st)
  end.

Lemma kexinit_encode_head k : ∃ rest, kexinit_encode k = byte_of_Z 20 :: rest.
Proof. rewrite kexinit_encode_eq. by eexists. Qed.

(** The guards of [runner_on_packet] in front of the dispatch. *)
Lemma on_packet_kex rng b rest hk ver v_c v_s r codec :
  pending_wrong_guess_discard r = false → in_kex_range (u8 b) || (u8 b =? 20) || (u8 b =? 21) = true →
  runner_on_packet rng (b :: rest) hk ver v_c v_s r codec =
    let (res, rc) := on_packet_dispatch rng (b :: rest) (u8 b) hk ver v_c v_s
                       (r <| accept_ext_info_now := false |>) codec in
    let! adv := res at rc in
    (Ok {| adv_outbound := adv_outbound adv; adv_completed := is_completed rc.1 |}, rc).
Proof.
  intros Hp Hm. unfold runner_on_packet. unfold set_field at 1. cbn [pending_wrong_guess_discard].
  rewrite Hp. cbn [andb].
  destruct (strict_kex_enabled _ && is_kexing _ && negb _) eqn:E; [|done].
  exfalso. destruct (in_kex_range (u8 b)), (u8 b =? 20), (u8 b =? 21); try done; cbn in E;
    by rewrite andb_false_r in E.
Qed.

Lemma method_init_gex n be rng st init :
  method_init n be rng = Ok (st, init) → is_gex be = match st with StGex _ => true | _ => false end.
Proof.
  intros E. destruct be; cbv beta iota zeta delta [method_init] in E; repeat case_match; try discriminate E;
    injection E as <- _; reflexivity.
Qed.

Lemma on_kexinit rng rng' v_c v_s hk ver r codec rl oa pa neg be sid strict st init :
  starting r rl oa sid strict → kexinit_wf pa → ki_first_kex_packet_follows pa = false →
  (match rl with Client => negotiate oa pa | Server => negotiate pa oa end) = Ok neg →
  backend_from_name (ng_kex neg) = Ok be → kexinit_in_place neg sid codec →
  method_init (Some neg) be rng' = Ok (st, init) → (rl = Client → rng' = rng) →
  ∃ r', runner_on_packet rng (kexinit_encode pa) hk ver v_c v_s r codec =
      (Ok {| adv_outbound := match rl with Client => [init] | Server => [] end; adv_completed := false |},
       (r', codec)) ∧
    exchanging r' rl oa pa neg be sid (strict || ng_strict_kex_enabled neg) ∧
    phase r' = phase_after_kexinit rl st.
Proof.
  intros [Er Eph Eo Eb Es Est Esn Epn Epd] Hwf Hguess Hneg Hbe Hpl Hin Hrng.
  destruct (kexinit_encode_head pa) as (rest & Epa). rewrite Epa, on_packet_kex by done. rewrite <- Epa.
  destruct r as [[] ? ? ? ? ? ? ? ? ? ? ? ? ? ?]. runner_simpl. subst.
  unfold on_packet_dispatch. runner_simpl. change (u8 (byte_of_Z 20) =? SSH_MSG_KEXINIT) with true. cbv iota.
  unfold handle_peer_kexinit, role, session_id. rewrite kexinit_decode_encode by done. runner_simpl.
  assert (Hg : ng_strict_kex_enabled neg && negb (bool_decide (is_Some sid)) && negb (seq_in codec =? 1) = false).
  { destruct (ng_strict_kex_enabled neg) eqn:Es; [|done]. destruct sid as [sid|]; [done|].
    by rewrite (Hpl Es eq_refl). }
  destruct rl; rewrite Hneg; runner_simpl; rewrite Hg, Hbe, Hguess; runner_simpl.
  - rewrite (Hrng eq_refl) in Hin. unfold build_client_init. runner_simpl. rewrite Hin.
    rewrite (method_init_gex _ _ _ _ _ Hin). destruct st; eexists; (split; [reflexivity|]); (split; [|done]);
      split; try done; by destruct strict, (ng_strict_kex_enabled neg).
  - eexists; split; [reflexivity|]. split; [|done]. split; try done. 
    by destruct strict, (ng_strict_kex_enabled neg).
Qed.

(** *** From [(K, H)] to NEWKEYS *)

(** The keys of both directions, as [derive_keys] computes them. *)
Definition keys_of (neg : NegotiatedOwned) (be : KexBackend) (k h sid : bytes) : result InstalledKeys :=
  let? c2s := derive_for_direction be k h sid "A"%byte "C"%byte "E"%byte (ng_cipher_c2s neg) (ng_mac_c2s neg) in
  let? s2c := derive_for_direction be k h sid "B"%byte "D"%byte "F"%byte (ng_cipher_s2c neg) (ng_mac_s2c neg) in
  Ok {| ik_c2s := c2s; ik_s2c := s2c |}.

Lemma derive_keys_of r neg be k h sid :
  kr_negotiated r = Some neg → kr_backend r = Some be → kr_current_k r = Some k →
  kr_current_h r = Some h → kr_session_id r = Some sid →
  derive_keys r = let? keys := keys_of neg be k h sid in Ok (r <| kr_installed_keys := Some keys |>).
Proof.
  intros En Eb Ek Eh Es. unfold derive_keys, keys_of. rewrite En, Eb, Ek, Eh, Es. cbn [ok_or].
  destruct (derive_for_direction _ _ _ _ "A" _ _ _ _); [|done].
  by destruct (derive_for_direction _ _ _ _ "B" _ _ _ _).
Qed.

(** The negotiated suites are in the catalogues. *)
Definition suite_known (cipher mac : bytes) : Prop :=
  ∃ s, cipher_spec_by_name cipher = Some s ∧ (cs_aead s = false → is_Some (mac_spec_by_name mac)).
Definition suites_known (neg : NegotiatedOwned) : Prop :=
  suite_known (ng_cipher_c2s neg) (ng_mac_c2s neg) ∧ suite_known (ng_cipher_s2c neg) (ng_mac_s2c neg).

Lemma derive_for_direction_ok be k h sid a c e cipher mac :
  suite_known cipher mac → ∃ dir, derive_for_direction be k h sid a c e cipher mac = Ok dir.
Proof.
  intros (s & Es & Hm). unfold derive_for_direction. rewrite Es. cbn [ok_or].
  destruct (cs_aead s); [by eexists|]. destruct (Hm eq_refl) as [m ->]. by eexists.
Qed.

Lemma keys_of_ok {HL : KexHashLaws H} neg be k h sid :
  suites_known neg → ∃ keys sc ss, keys_of neg be k h sid = Ok keys ∧
    builds (ik_c2s keys) sc ∧ builds (ik_s2c keys) ss.
Proof.
  intros [Hc Hs]. unfold keys_of.
  destruct (derive_for_direction_ok be k h sid "A" "C" "E" _ _ Hc) as (c2s & Ec).
  destruct (derive_for_direction_ok be k h sid "B" "D" "F" _ _ Hs) as (s2c & Es).
  destruct (derive_builds _ _ _ _ _ _ _ _ _ _ Ec) as (sc & Bc).
  destruct (derive_builds _ _ _ _ _ _ _ _ _ _ Es) as (ss & Bs).
  rewrite Ec, Es. eexists _, sc, ss. done.
Qed.

(** A runner that knows [(K, H)], has derived the keys and sent NEWKEYS. *)
Record awaiting (r : KexRunner) (rl : Role) (neg : NegotiatedOwned) (keys : InstalledKeys)
    (h sid : bytes) (strict : bool) : Prop := {
  aw_role : kr_role (kx_keys r) = rl;
  aw_neg : kr_negotiated (kx_keys r) = Some neg;
  aw_h : kr_current_h (kx_keys r) = Some h;
  aw_sid : kr_session_id (kx_keys r) = Some sid;
  aw_keys : kr_installed_keys (kx_keys r) = Some keys;
  aw_sent : kr_sent_newkeys (kx_keys r) = true;
  aw_peer : kr_peer_newkeys (kx_keys r) = false;
  aw_strict : kr_strict_kex (kx_keys r) = strict;
  aw_phase : phase r = AwaitingPeerNewKeys;
  aw_pending : pending_wrong_guess_discard r = false;
}.

Lemma finish_exchange_ok r rl oa pa neg be sid strict out before reply codec keys :
  exchanging r rl oa pa neg be sid strict →
  keys_of neg be (ko_k out) (ko_h out) (default (ko_h out) sid) = Ok keys →
  ∃ r', finish_exchange out before reply r codec =
      (Ok {| adv_outbound := before ++ [[byte_of_Z SSH_MSG_NEWKEYS]]; adv_completed := false |}, (r', codec)) ∧
    awaiting r' rl neg keys (ko_h out) (default (ko_h out) sid) strict.
Proof.
  intros [Er Eo Ep En Eb Es Est Esn Epn Epd] Hk. unfold finish_exchange.
  destruct r as [[] ? ? ? ? ? ? ? ? ? ? ? ? ? ?]. runner_simpl. subst.
  rewrite (derive_keys_of _ neg be (ko_k out) (ko_h out) (default (ko_h out) sid))
    by (try done; by destruct sid).
  rewrite Hk. unfold maybe_install, advance_after_send_newkeys. runner_simpl. cbn [negb andb].
  eexists. split; [reflexivity|]. split; try done. by destruct sid.
Qed.

(** *** The messages of the methods *)

Section Methods.
Context {HL : KexHashLaws H} {CL : PureCryptoLaws C} {KL : KexPrimsLaws C K}.

Lemma method_agrees_lift {St St'} (f : St → St') init reply finish init' finish' :
  method_agrees init reply finish →
  (∀ rng st p, init rng = Ok (st, p) → init' rng = Ok (f st, p)) →
  (∀ st p v ctx, finish' (f st) p v ctx = finish st p v ctx) →
  method_agrees init' reply finish'.
Proof.
  intros Hm Hi Hf rng_c rng_s hk ctx Hk.
  destruct (Hm rng_c rng_s hk ctx Hk) as (st & ip & p & out & sig & E1 & E2 & E3 & E4 & E5 & E6).
  exists (f st), ip, p, out, sig. split; [by apply Hi|]. do 4 (split; [done|]).
  intros verify. by rewrite Hf.
Qed.

Local Ltac lift_init :=
  intros rng st p [= E]; rewrite E; reflexivity.

Lemma method_dispatch n be :
  is_gex be = false → method_agrees (method_init n be) (method_reply be) (method_finish be).
Proof.
  intros Hg. pose proof dh_group14_honest. pose proof dh_group16_honest. pose proof dh_group18_honest.
  assert (Hg1 : ∃ g, group1 = Ok g ∧ dh_honest g).
  { unfold group1. destruct dh_group1_ok as [g E]. rewrite E. exists g. split; [done|].
    by apply dh_group1_honest. }
  destruct Hg1 as (g1 & E1 & Hg1).
  destruct be; try discriminate Hg; cbv beta iota delta [method_init method_reply method_finish].
  1: eapply (method_agrees_lift StCurve); [apply x25519_method|lift_init|done].
  1: eapply (method_agrees_lift StEcdh); [by eapply (ecdh_method P256)|lift_init|done].
  1: eapply (method_agrees_lift StEcdh); [by eapply (ecdh_method P384)|lift_init|done].
  1: eapply (method_agrees_lift StEcdh); [by eapply (ecdh_method P521)|lift_init|done].
  1: eapply (method_agrees_lift StDh); [by apply (dh_method KSha256 group14)|lift_init|done].
  1: eapply (method_agrees_lift StDh); [by apply (dh_method KSha512 group16)|lift_init|done].
  1: eapply (method_agrees_lift StDh); [by apply (dh_method KSha512 group18)|lift_init|done].
  1: rewrite E1; eapply (method_agrees_lift StDh); [by apply (dh_method KSha1 g1)|lift_init|done].
  1: eapply (method_agrees_lift StDh); [by apply (dh_method KSha1 group14)|lift_init|done].
  1: eapply (method_agrees_lift StMlKem768X25519); [apply mlkem_x25519_method|lift_init|done].
  1: eapply (method_agrees_lift StMlKem768Nistp256); [apply mlkem_p256_method|lift_init|done].
  1: eapply (method_agrees_lift StSntrup761X25519); [apply sntrup_method|lift_init|done].
Qed.
End Methods.

(** The message byte, which every handler checks. *)
Definition first_byte (m : Z) (payload : bytes) : Prop := ∃ b rest, payload = b :: rest ∧ u8 b = m.

Lemma read_first payload m r : read_u8 (reader_new payload) = Ok (m, r) → first_byte m payload.
Proof.
  rewrite reader_new_at. intros E. apply read_u8_inv in E as (post & -> & E1 & E2).
  eexists _, post. split; [done|]. by apply u8_byte_of_Z_small.
Qed.

Lemma expect_first {A} payload m e (f : Reader → result A) x :
  (let? (msg, r) := read_u8 (reader_new payload) in if negb (msg =? m) then Err e else f r) = Ok x →
  first_byte m payload.
Proof.
  destruct (read_u8 _) as [[msg r]|] eqn:E; [|done]. destruct (msg =? m) eqn:Em; [|done]. intros _.
  apply read_first in E. by apply Z.eqb_eq in Em as ->.
Qed.

Lemma method_reply_first be rng payload hk ctx x :
  method_reply be rng payload hk ctx = Ok x → first_byte SSH_MSG_KEX_ECDH_INIT payload.
Proof.
  destruct be; cbv beta iota delta [method_reply]; try discriminate;
    try exact (expect_first _ _ _ _ _).
  - destruct group1; [exact (expect_first _ _ _ _ _)|discriminate].
  - unfold MlKemP256.server_reply. destruct (ec_generate P256 rng). exact (expect_first _ _ _ _ _).
Qed.

Lemma method_finish_first be st payload verify ctx x :
  method_finish be st payload verify ctx = Ok x → first_byte SSH_MSG_KEX_ECDH_REPLY payload.
Proof.
  destruct be, st; cbv beta iota zeta delta [method_finish]; try discriminate;
    try exact (expect_first _ _ _ _ _).
  all: unfold EcdhSha2.client_finish; destruct (bool_decide _); [exact (expect_first _ _ _ _ _)|discriminate].
Qed.

(** *** One step of each side *)

Lemma on_packet_first m rng payload hk ver v_c v_s r codec :
  pending_wrong_guess_discard r = false → first_byte m payload →
  in_kex_range m || (m =? 20) || (m =? 21) = true →
  runner_on_packet rng payload hk ver v_c v_s r codec =
    let (res, rc) := on_packet_dispatch rng payload m hk ver v_c v_s
                       (r <| accept_ext_info_now := false |>) codec in
    let! adv := res at rc in
    (Ok {| adv_outbound := adv_outbound adv; adv_completed := is_completed rc.1 |}, rc).
Proof. intros Hp (b & rest & -> & <-) Hm. by apply on_packet_kex. Qed.

Lemma exchanging_field r r' rl oa pa neg be sid strict :
  exchanging r rl oa pa neg be sid strict →
  kx_keys r' = kx_keys r → our_advert_bytes r' = our_advert_bytes r →
  peer_advert_bytes r' = peer_advert_bytes r → pending_wrong_guess_discard r' = pending_wrong_guess_discard r →
  exchanging r' rl oa pa neg be sid strict.
Proof. intros [] E1 E2 E3 E4. split; by rewrite ?E1, ?E2, ?E3, ?E4. Qed.

(** The context of the exchange hash, the same at both ends. *)
Definition hash_context (v_c v_s : bytes) (ci si : KexInit) : KexContext :=
  {| cx_v_c := v_c; cx_v_s := v_s; cx_i_c := kexinit_encode ci; cx_i_s := kexinit_encode si |}.

Lemma exchanging_server_ctx r ci si neg be sid strict v_c v_s :
  exchanging r Server si ci neg be sid strict → server_ctx v_c v_s r = hash_context v_c v_s ci si.
Proof. intros []. unfold server_ctx, hash_context. by rewrite ex_peer_advert0, ex_our0. Qed.
Lemma exchanging_client_ctx r ci si neg be sid strict v_c v_s :
  exchanging r Client ci si neg be sid strict → client_ctx v_c v_s r = hash_context v_c v_s ci si.
Proof. intros []. unfold client_ctx, hash_context. by rewrite ex_peer_advert0, ex_our0. Qed.

(** The server answers the client's public value. *)
Lemma on_init rng payload hk ver v_c v_s r codec ci si neg be sid strict reply out keys :
  exchanging r Server si ci neg be sid strict → phase r = Negotiated None → is_gex be = false →
  method_reply be rng payload hk (hash_context v_c v_s ci si) = Ok (reply, out) →
  keys_of neg be (ko_k out) (ko_h out) (default (ko_h out) sid) = Ok keys →
  ∃ r', runner_on_packet rng payload (Some hk) ver v_c v_s r codec =
      (Ok {| adv_outbound := [reply; [byte_of_Z SSH_MSG_NEWKEYS]]; adv_completed := false |}, (r', codec)) ∧
    awaiting r' Server neg keys (ko_h out) (default (ko_h out) sid) strict.
Proof.
  intros Hex Hph Hg Hre Hk.
  rewrite (on_packet_first SSH_MSG_KEX_ECDH_INIT); [|by destruct Hex|by eapply method_reply_first|done].
  set (r0 := r <| accept_ext_info_now := false |>).
  assert (Hex0 : exchanging r0 Server si ci neg be sid strict) by (by eapply exchanging_field).
  assert (Hph0 : phase r0 = Negotiated None) by done. clearbody r0. clear r Hex Hph.
  unfold on_packet_dispatch, role, uses_gex. rewrite Hph0, (ex_role _ _ _ _ _ _ _ _ Hex0),
    (ex_backend _ _ _ _ _ _ _ _ Hex0), Hg. cbn [SSH_MSG_KEX_ECDH_INIT Z.eqb Pos.eqb].
  unfold handle_kex_init_message. cbn [ok_or]. rewrite (ex_backend _ _ _ _ _ _ _ _ Hex0). cbn [ok_or].
  rewrite (exchanging_server_ctx _ _ _ _ _ _ _ _ _ Hex0), Hre.
  destruct (finish_exchange_ok _ _ _ _ _ _ _ _ out [reply] None codec keys Hex0 Hk) as (r' & E & Haw).
  rewrite E. exists r'. split; [|done]. unfold is_completed. cbn [fst]. by rewrite (aw_phase _ _ _ _ _ _ _ Haw).
Qed.

(** The client takes the server's reply. *)
Lemma on_reply rng payload hk verify v_c v_s r codec ci si neg be sid strict st out keys :
  exchanging r Client ci si neg be sid strict → phase r = Negotiated (Some st) → is_gex be = false →
  method_finish be st payload verify (hash_context v_c v_s ci si) = Ok out →
  keys_of neg be (ko_k out) (ko_h out) (default (ko_h out) sid) = Ok keys →
  ∃ r', runner_on_packet rng payload hk (Some verify) v_c v_s r codec =
      (Ok {| adv_outbound := [[byte_of_Z SSH_MSG_NEWKEYS]]; adv_completed := false |}, (r', codec)) ∧
    awaiting r' Client neg keys (ko_h out) (default (ko_h out) sid) strict.
Proof.
  intros Hex Hph Hg Hre Hk.
  rewrite (on_packet_first SSH_MSG_KEX_ECDH_REPLY); [|by destruct Hex|by eapply method_finish_first|done].
  set (r0 := r <| accept_ext_info_now := false |>).
  assert (Hex0 : exchanging r0 Client ci si neg be sid strict) by (by eapply exchanging_field).
  assert (Hph0 : phase r0 = Negotiated (Some st)) by done. clearbody r0. clear r Hex Hph.
  unfold on_packet_dispatch, role, uses_gex. rewrite Hph0, (ex_role _ _ _ _ _ _ _ _ Hex0),
    (ex_backend _ _ _ _ _ _ _ _ Hex0), Hg. cbn [SSH_MSG_KEX_ECDH_REPLY Z.eqb Pos.eqb].
  unfold handle_kex_reply_message. rewrite (ex_backend _ _ _ _ _ _ _ _ Hex0). cbn [ok_or].
  rewrite Hph0. rewrite (exchanging_client_ctx _ _ _ _ _ _ _ _ _ Hex0), Hre.
  assert (Hex1 : exchanging (r0 <| phase := Idle |>) Client ci si neg be sid strict)
    by (by eapply exchanging_field).
  destruct (finish_exchange_ok _ _ _ _ _ _ _ _ out [] (Some payload) codec keys Hex1 Hk) as (r' & E & Haw).
  rewrite E. exists r'. split; [|done]. unfold is_completed. cbn [fst]. by rewrite (aw_phase _ _ _ _ _ _ _ Haw).
Qed.

(** The EXT_INFO a runner sends behind its first NEWKEYS. *)
Definition ext_info_due (r : KexRunner) : list bytes :=
  if first_kex r && ext_info_send r
  then match outbound_ext_info r with Some ext => [ext_info_encode ext] | None => [] end else [].

Record completed (r : KexRunner) (rl : Role) (neg : NegotiatedOwned) (h sid : bytes) (strict : bool) : Prop := {
  cp_role : kr_role (kx_keys r) = rl;
  cp_neg : kr_negotiated (kx_keys r) = Some neg;
  cp_h : kr_current_h (kx_keys r) = Some h;
  cp_sid : kr_session_id (kx_keys r) = Some sid;
  cp_strict : kr_strict_kex (kx_keys r) = strict;
  cp_phase : phase r = Completed;
}.

Definition with_peer_newkeys (r : KexRunner) : RunnerKeys := (kx_keys r) <| kr_peer_newkeys := true |>.

Lemma awaiting_ready r rl neg keys h sid strict :
  awaiting r rl neg keys h sid strict → ready (with_peer_newkeys r) rl neg keys strict.
Proof. intros []. repeat split; done. Qed.

Lemma on_newkeys rng hk ver v_c v_s r codec codec' rl neg keys h sid strict :
  awaiting r rl neg keys h sid strict → maybe_install (with_peer_newkeys r) codec = (Ok (), codec') →
  ∃ r', runner_on_packet rng [byte_of_Z SSH_MSG_NEWKEYS] hk ver v_c v_s r codec =
      (Ok {| adv_outbound := ext_info_due r; adv_completed := true |}, (r', codec')) ∧
    completed r' rl neg h sid strict.
Proof.
  intros [] Hi. rewrite (on_packet_first SSH_MSG_NEWKEYS); [|done|by eexists _, _|done].
  unfold on_packet_dispatch, with_peer_newkeys, ext_info_due in *.
  destruct r as [[] ? ? ? ? ? ? fk ? es oe ? ? ? ?]. runner_simpl. subst.
  cbn [SSH_MSG_NEWKEYS Z.eqb Pos.eqb]. unfold handle_peer_newkeys. runner_simpl. rewrite Hi. runner_simpl.
  destruct (fk && es); [destruct oe|]; eexists; by (split; [reflexivity|]).
Qed.

(** *** Group exchange *)

Lemma gex_first payload select x :
  GexSha.server_group payload select = Ok x →
  ∃ m, first_byte m payload ∧ ((m =? SSH_MSG_KEX_DH_GEX_REQUEST) || (m =? 30) = true).
Proof.
  unfold GexSha.server_group. destruct (read_u8 _) as [[m r]|] eqn:E; [|done]. apply read_first in E.
  exists m. split; [done|]. by destruct (m =? SSH_MSG_KEX_DH_GEX_REQUEST), (m =? 30).
Qed.

(** The selector a server was given, or the default. *)
Definition selects (r : KexRunner) (q : GexRequest) (g : DhGroup) : Prop :=
  match gex_selector r with None => default_gex_group q = g | Some select => select q = Some g end.

Lemma on_gex_request rng payload hk ver v_c v_s r codec ci si neg be sid strict q g out :
  exchanging r Server si ci neg be sid strict → phase r = Negotiated None → is_gex be = true →
  selects r q g → (∀ select, select q = g → GexSha.server_group payload select = Ok (q, g, out)) →
  ∃ r', runner_on_packet rng payload hk ver v_c v_s r codec =
      (Ok {| adv_outbound := [out]; adv_completed := false |}, (r', codec)) ∧
    exchanging r' Server si ci neg be sid strict ∧ phase r' = GexServerAwaitInit q g.
Proof.
  intros Hex Hph Hg Hsel Hgr.
  destruct (gex_first _ _ _ (Hgr (λ _, g) eq_refl)) as (m & Hm & Hmm).
  rewrite (on_packet_first m); [|by destruct Hex|done|].
  2: { apply orb_prop in Hmm as [->%Z.eqb_eq| ->%Z.eqb_eq]; done. }
  set (r0 := r <| accept_ext_info_now := false |>).
  assert (Hex0 : exchanging r0 Server si ci neg be sid strict) by (by eapply exchanging_field).
  assert (Hph0 : phase r0 = Negotiated None) by done. assert (Hsel0 : selects r0 q g) by done.
  clearbody r0. clear r Hex Hph Hsel.
  unfold on_packet_dispatch, role, uses_gex. rewrite Hph0, (ex_role _ _ _ _ _ _ _ _ Hex0),
    (ex_backend _ _ _ _ _ _ _ _ Hex0), Hg, Hmm. unfold handle_gex_request, selects in *.
  destruct (gex_selector r0) as [select|].
  - rewrite (Hgr (λ req, default (default_gex_group req) (select req))) by (by rewrite Hsel0).
    rewrite bool_decide_eq_true_2 by (by rewrite Hsel0). cbn [negb]. eexists. split; [reflexivity|].
    split; [by eapply exchanging_field|done].
  - rewrite Hgr by done. eexists. split; [reflexivity|]. split; [by eapply exchanging_field|done].
Qed.

Lemma on_gex_group rng payload hk ver v_c v_s r codec ci si neg be sid strict st st' out :
  exchanging r Client ci si neg be sid strict → phase r = GexClientAwaitGroup st →
  GexSha.client_init st payload rng = Ok (st', out) →
  ∃ r', runner_on_packet rng payload hk ver v_c v_s r codec =
      (Ok {| adv_outbound := [out]; adv_completed := false |}, (r', codec)) ∧
    exchanging r' Client ci si neg be sid strict ∧ phase r' = GexClientAwaitReply st'.
Proof.
  intros Hex Hph Hin.
  rewrite (on_packet_first SSH_MSG_KEX_DH_GEX_GROUP);
    [|by destruct Hex|exact (expect_first _ _ _ _ _ Hin)|done].
  set (r0 := r <| accept_ext_info_now := false |>).
  assert (Hex0 : exchanging r0 Client ci si neg be sid strict) by (by eapply exchanging_field).
  assert (Hph0 : phase r0 = GexClientAwaitGroup st) by done. clearbody r0. clear r Hex Hph.
  unfold on_packet_dispatch. rewrite Hph0. cbn [SSH_MSG_KEX_DH_GEX_GROUP Z.eqb Pos.eqb].
  unfold handle_gex_group. rewrite Hph0, Hin. eexists. split; [reflexivity|].
  split; [by eapply exchanging_field|done].
Qed.

Lemma gex_hash_field r r' : kx_keys r' = kx_keys r → gex_hash r' = gex_hash r.
Proof. intros E. unfold gex_hash. by rewrite E. Qed.

Lemma on_gex_init rng payload hk ver v_c v_s r codec ci si neg be sid strict q g reply out keys :
  exchanging r Server si ci neg be sid strict → phase r = GexServerAwaitInit q g →
  GexSha.server_reply_with (gex_hash r) rng q g payload hk (hash_context v_c v_s ci si) = Ok (reply, out) →
  keys_of neg be (ko_k out) (ko_h out) (default (ko_h out) sid) = Ok keys →
  ∃ r', runner_on_packet rng payload (Some hk) ver v_c v_s r codec =
      (Ok {| adv_outbound := [reply; [byte_of_Z SSH_MSG_NEWKEYS]]; adv_completed := false |}, (r', codec)) ∧
    awaiting r' Server neg keys (ko_h out) (default (ko_h out) sid) strict.
Proof.
  intros Hex Hph Hre Hk.
  rewrite (on_packet_first SSH_MSG_KEX_DH_GEX_INIT);
    [|by destruct Hex|exact (expect_first _ _ _ _ _ Hre)|done].
  set (r0 := r <| accept_ext_info_now := false |>).
  assert (Hex0 : exchanging r0 Server si ci neg be sid strict) by (by eapply exchanging_field).
  assert (Hph0 : phase r0 = GexServerAwaitInit q g) by done.
  rewrite <- (gex_hash_field r r0) in Hre by done. clearbody r0. clear r Hex Hph.
  unfold on_packet_dispatch. rewrite Hph0. cbn [SSH_MSG_KEX_DH_GEX_INIT Z.eqb Pos.eqb].
  unfold handle_gex_init. cbn [ok_or]. rewrite Hph0.
  assert (Hex1 : exchanging (r0 <| phase := Idle |>) Server si ci neg be sid strict)
    by (by eapply exchanging_field).
  rewrite (exchanging_server_ctx _ _ _ _ _ _ _ _ _ Hex1), (gex_hash_field r0 (r0 <| phase := Idle |>)), Hre by done.
  destruct (finish_exchange_ok _ _ _ _ _ _ _ _ out [reply] None codec keys Hex1 Hk) as (r' & E & Haw).
  rewrite E. exists r'. split; [|done]. unfold is_completed. cbn [fst]. by rewrite (aw_phase _ _ _ _ _ _ _ Haw).
Qed.

Lemma on_gex_reply rng payload hk verify v_c v_s r codec ci si neg be sid strict st out keys :
  exchanging r Client ci si neg be sid strict → phase r = GexClientAwaitReply st →
  GexSha.client_finish_with (gex_hash r) st payload verify (hash_context v_c v_s ci si) = Ok out →
  keys_of neg be (ko_k out) (ko_h out) (default (ko_h out) sid) = Ok keys →
  ∃ r', runner_on_packet rng payload hk (Some verify) v_c v_s r codec =
      (Ok {| adv_outbound := [[byte_of_Z SSH_MSG_NEWKEYS]]; adv_completed := false |}, (r', codec)) ∧
    awaiting r' Client neg keys (ko_h out) (default (ko_h out) sid) strict.
Proof.
  intros Hex Hph Hre Hk.
  assert (Hf : first_byte SSH_MSG_KEX_DH_GEX_REPLY payload).
  { unfold GexSha.client_finish_with in Hre. destruct (GexSha.group st); [|done].
    destruct (GexSha.secret st); [|done]. exact (expect_first _ _ _ _ _ Hre). }
  rewrite (on_packet_first SSH_MSG_KEX_DH_GEX_REPLY); [|by destruct Hex|done|done].
  set (r0 := r <| accept_ext_info_now := false |>).
  assert (Hex0 : exchanging r0 Client ci si neg be sid strict) by (by eapply exchanging_field).
  assert (Hph0 : phase r0 = GexClientAwaitReply st) by done.
  rewrite <- (gex_hash_field r r0) in Hre by done. clearbody r0. clear r Hex Hph.
  unfold on_packet_dispatch. rewrite Hph0. cbn [SSH_MSG_KEX_DH_GEX_REPLY Z.eqb Pos.eqb].
  unfold handle_gex_reply. cbn [ok_or]. rewrite Hph0.
  assert (Hex1 : exchanging (r0 <| phase := Idle |>) Client ci si neg be sid strict)
    by (by eapply exchanging_field).
  rewrite (exchanging_client_ctx _ _ _ _ _ _ _ _ _ Hex1), (gex_hash_field r0 (r0 <| phase := Idle |>)), Hre by done.
  destruct (finish_exchange_ok _ _ _ _ _ _ _ _ out [] (Some payload) codec keys Hex1 Hk) as (r' & E & Haw).
  rewrite E. exists r'. split; [|done]. unfold is_completed. cbn [fst]. by rewrite (aw_phase _ _ _ _ _ _ _ Haw).
Qed.
End Steps.
