(* ===== verification/RunnerSafe.v ===== *)
(** * The runner against any peer

    What one inbound payload can change in a runner, whoever sent it: the
    session identifier is set once, and by a client only to a hash its
    verifier has accepted the host key's signature of.  With an honest peer, the
    messages of the methods follow each other to NEWKEYS. *)
From S2P Require Import Prelude Wire Crypto Cipher Compress Packet PacketFacts KexInit KexFacts KexHash KexMethods.
From S2P Require Import KexMethodFacts KexKeys Runner RunnerFacts.

Section Safe.
Context {P : CipherPrims} {CC : CompCol} {C : PureCrypto} {H : KexHash} {K : KexPrims}.

(** [h] covers the context and the host key of the reply [payload], and
    [verify] accepted the signature in [payload] over it. *)
Definition attests (verify : Verifier) (payload : bytes) (ctx : KexContext) (h : bytes) : Prop :=
  ∃ D k_s sig, host_key_and_sig payload = Some (k_s, sig) ∧ hash_covers D ctx k_s h ∧ verify h sig = Ok ().

Lemma authentic_attests {St} D (finish : St → bytes → Verifier → KexContext → result KexOutput)
    st payload verify ctx out :
  method_authentic D finish → finish st payload verify ctx = Ok out → attests verify payload ctx (ko_h out).
Proof. intros Hm E. destruct (Hm _ _ _ _ _ E) as (k_s & sig & ?). by exists D, k_s, sig. Qed.

Lemma method_finish_attests be st payload verify ctx out :
  method_finish be st payload verify ctx = Ok out → attests verify payload ctx (ko_h out).
Proof.
  destruct be, st; cbv beta iota zeta delta [method_finish]; try discriminate;
    solve [apply authentic_attests with (1 := x25519_authentic)
          |apply authentic_attests with (1 := ecdh_authentic _ _)
          |apply authentic_attests with (1 := dh_authentic _)
          |apply authentic_attests with (1 := mlkem_x25519_authentic)
          |apply authentic_attests with (1 := mlkem_p256_authentic)
          |apply authentic_attests with (1 := sntrup_authentic)].
Qed.

(** NEWKEYS is out: the runner waits for the peer's, or has it. *)
Definition final (r : KexRunner) : bool :=
  match phase r with AwaitingPeerNewKeys | Completed => true | _ => false end.

(** A step that leaves the session identifier and the hashes alone and does
    not end the exchange, unless NEWKEYS was out already. *)
Definition quiet (r r' : KexRunner) : Prop :=
  role r' = role r ∧ session_id r' = session_id r ∧ initial_host_key_sig r' = initial_host_key_sig r ∧
  kr_current_h (kx_keys r') = kr_current_h (kx_keys r) ∧ (final r' = true → final r = true).

(** The runner has computed [h]. *)
Definition hashed (r r' : KexRunner) (h : bytes) : Prop :=
  role r' = role r ∧ session_id r' = Some (default h (session_id r)) ∧ kr_current_h (kx_keys r') = Some h.

(** The first reply's host key is kept for the session. *)
Definition pins (reply : option bytes) (r r' : KexRunner) : Prop :=
  initial_host_key_sig r' =
    match session_id r, reply with None, Some payload => host_key_and_sig payload | _, _ => initial_host_key_sig r end.

(** Only a server answers a group exchange. *)
Definition phase_role (r : KexRunner) : Prop :=
  match phase r with GexServerAwaitInit _ _ => role r = Server | _ => True end.

(** Runs through the branches of a handler that returned, in [E]. *)
Local Ltac branches E :=
  repeat (match type of E with
  | match ?x with _ => _ end = _ => destruct x eqn:?
  end; runner_simpl; try discriminate E); try (injection E as <- <-).

Lemma handle_peer_kexinit_quiet rng n payload r res r' :
  handle_peer_kexinit rng n payload r = (res, r') → phase r = SentKexInit → quiet r r'.
Proof.
  unfold handle_peer_kexinit, build_client_init, quiet, final, role, session_id. intros E Hp.
  destruct r as [[] ? ? ? ? ? ? ? ? ? ? ? ? ? ?]. runner_simpl. subst.
  branches E; runner_simpl; done.
Qed.

Lemma handle_gex_request_quiet payload r res r' :
  handle_gex_request payload r = (res, r') → quiet r r'.
Proof.
  unfold handle_gex_request, quiet, final, role, session_id. intros E.
  destruct r as [[] ? ? ? ? ? ? ? ? ? ? ? ? ? ?]. runner_simpl. branches E; runner_simpl; done.
Qed.

Lemma handle_gex_group_quiet rng payload r res r' :
  handle_gex_group rng payload r = (res, r') → quiet r r'.
Proof.
  unfold handle_gex_group, quiet, final, role, session_id. intros E.
  destruct r as [[] ? ? ? ? ? ? ? ? ? ? ? ? ? ?]. runner_simpl. branches E; runner_simpl; done.
Qed.

Lemma handle_peer_kexinit_phase rng n payload r res r' :
  handle_peer_kexinit rng n payload r = (res, r') → phase r = SentKexInit → phase_role r'.
Proof.
  unfold handle_peer_kexinit, build_client_init, phase_role, role. intros E Hp.
  destruct r as [[] ? ? ? ? ? ? ? ? ? ? ? ? ? ?]. runner_simpl. subst.
  branches E; runner_simpl; done.
Qed.

Lemma handle_gex_request_phase payload r res r' :
  handle_gex_request payload r = (res, r') → role r = Server → phase_role r'.
Proof.
  unfold handle_gex_request, phase_role, role. intros E Hr.
  destruct r as [[] ? ? ? ? ph ? ? ? ? ? ? ? ? ?]. runner_simpl. subst. branches E; runner_simpl; by destruct ph.
Qed.

Lemma handle_gex_group_phase rng payload r res r' :
  handle_gex_group rng payload r = (res, r') → phase_role r'.
Proof.
  unfold handle_gex_group, phase_role, role. intros E.
  destruct r as [[] ? ? ? ? ? ? ? ? ? ? ? ? ? ?]. runner_simpl. branches E; runner_simpl; done.
Qed.

Lemma derive_keys_only rk rk' :
  derive_keys rk = Ok rk' → ∃ keys, rk' = rk <| kr_installed_keys := Some keys |>.
Proof.
  unfold derive_keys. intros E.
  repeat (match type of E with match ?x with _ => _ end = _ => destruct x end; try discriminate E).
  injection E as <-. by eexists.
Qed.

Lemma finish_exchange_hashed out before reply r codec res r' codec' :
  finish_exchange out before reply r codec = (res, (r', codec')) → hashed r r' (ko_h out).
Proof.
  unfold finish_exchange, hashed, role, session_id, advance_after_send_newkeys. intros E.
  destruct r as [[rl ? ? sid ? ? ? ? pn ?] ? ? ? ? ? ? ? ? ? ? ? ? ? ?]. runner_simpl.
  destruct (derive_keys _) as [keys|] eqn:Ed.
  - apply derive_keys_only in Ed as [ks ->]. runner_simpl.
    destruct (maybe_install _ codec) as [[?|?] c]; runner_simpl; injection E as _ <- _; destruct pn;
      by destruct sid.
  - injection E as _ <- _. by destruct sid.
Qed.

Lemma finish_exchange_pins out before reply r codec res r' codec' :
  finish_exchange out before reply r codec = (res, (r', codec')) → pins reply r r'.
Proof.
  unfold finish_exchange, pins, session_id, advance_after_send_newkeys. intros E.
  destruct r as [[rl ? ? sid ? ? ? ? pn ?] ? ? ? ? ? ? ? ? ? ? ? ? ? ?]. runner_simpl.
  destruct (derive_keys _) as [keys|] eqn:Ed.
  - apply derive_keys_only in Ed as [ks ->]. runner_simpl.
    destruct (maybe_install _ codec) as [[?|?] c]; runner_simpl; injection E as _ <- _; by destruct pn.
  - by injection E as _ <- _.
Qed.

Lemma finish_exchange_phase out before reply r codec res r' codec' :
  finish_exchange out before reply r codec = (res, (r', codec')) → phase_role r → phase_role r'.
Proof.
  unfold finish_exchange, phase_role, role, advance_after_send_newkeys. intros E.
  destruct r as [[rl ? ? sid ? ? ? ? pn ?] ? ? ? ? ? ? ? ? ? ? ? ? ? ?]. runner_simpl.
  destruct (derive_keys _) as [keys|] eqn:Ed.
  - apply derive_keys_only in Ed as [ks ->]. runner_simpl.
    destruct (maybe_install _ codec) as [[?|?] c]; runner_simpl; injection E as _ <- _; by destruct pn.
  - by injection E as _ <- _.
Qed.

(** What one payload does to a runner. *)
Definition step_ok (ver : option Verifier) (v_c v_s payload : bytes) (r r' : KexRunner) : Prop :=
  quiet r r' ∨ ∃ h, hashed r r' h ∧
    (role r = Client → pins (Some payload) r r' ∧
       ∃ verify, ver = Some verify ∧ attests verify payload (client_ctx v_c v_s r) h).

Lemma hashed_from r0 r r' h :
  role r = role r0 → session_id r = session_id r0 → hashed r r' h → hashed r0 r' h.
Proof. intros E1 E2 (? & ? & ?). unfold hashed. by rewrite <- E1, <- E2. Qed.

Local Ltac unchanged E := by (injection E as _ <- _; split; [left|]).

Lemma init_message_ok rng payload hk ver v_c v_s r codec res r' codec' :
  handle_kex_init_message rng payload hk v_c v_s r codec = (res, (r', codec')) → role r = Server →
  phase_role r → step_ok ver v_c v_s payload r r' ∧ phase_role r'.
Proof.
  unfold handle_kex_init_message. intros E Hr Hp.
  destruct hk as [hk|]; cbn [ok_or] in E; [|unchanged E].
  destruct (kr_backend _); cbn [ok_or] in E; [|unchanged E].
  destruct (method_reply _ _ _ _ _) as [[rp out]|]; [|unchanged E].
  split; [|by eapply finish_exchange_phase]. right. exists (ko_h out).
  split; [by eapply finish_exchange_hashed|]. by rewrite Hr.
Qed.

Lemma reply_message_ok payload ver v_c v_s r codec res r' codec' :
  handle_kex_reply_message payload ver v_c v_s r codec = (res, (r', codec')) →
  phase_role r → step_ok ver v_c v_s payload r r' ∧ phase_role r'.
Proof.
  unfold handle_kex_reply_message. intros E Hp.
  destruct (kr_backend _); cbn [ok_or] in E; [|unchanged E].
  destruct (phase r) as [| |[st|]| | | | |]; try unchanged E.
  destruct ver as [verify|]; cbn [ok_or] in E; [|unchanged E].
  destruct (method_finish _ _ _ _ _) as [out|] eqn:Em; [|unchanged E].
  split; [|by eapply finish_exchange_phase]. right. exists (ko_h out).
  split; [eapply hashed_from; [..|by eapply finish_exchange_hashed]; done|].
  intros _. split; [exact (finish_exchange_pins _ _ _ _ _ _ _ _ E)|].
  exists verify. split; [done|]. by eapply method_finish_attests.
Qed.

Lemma gex_init_ok rng payload hk ver v_c v_s r codec res r' codec' :
  handle_gex_init rng payload hk v_c v_s r codec = (res, (r', codec')) →
  phase_role r → step_ok ver v_c v_s payload r r' ∧ phase_role r'.
Proof.
  unfold handle_gex_init. intros E Hp.
  destruct hk as [hk|]; cbn [ok_or] in E; [|unchanged E].
  unfold phase_role in Hp.
  destruct (phase r) as [| | | | |q g| |]; try unchanged E.
  destruct (GexSha.server_reply_with _ _ _ _ _ _ _) as [[rp out]|]; [|unchanged E].
  split; [|by eapply finish_exchange_phase]. right. exists (ko_h out).
  split; [eapply hashed_from; [..|by eapply finish_exchange_hashed]; done|]. by rewrite Hp.
Qed.

Lemma gex_reply_ok payload ver v_c v_s r codec res r' codec' :
  handle_gex_reply payload ver v_c v_s r codec = (res, (r', codec')) →
  phase_role r → step_ok ver v_c v_s payload r r' ∧ phase_role r'.
Proof.
  unfold handle_gex_reply. intros E Hp.
  destruct ver as [verify|]; cbn [ok_or] in E; [|unchanged E].
  destruct (phase r) as [| | | |st| | |]; try unchanged E.
  destruct (GexSha.client_finish_with _ _ _ _ _) as [out|] eqn:Em; [|unchanged E].
  split; [|by eapply finish_exchange_phase]. right. exists (ko_h out).
  split; [eapply hashed_from; [..|by eapply finish_exchange_hashed]; done|].
  intros _. split; [exact (finish_exchange_pins _ _ _ _ _ _ _ _ E)|].
  exists verify. split; [done|]. eapply authentic_attests; [apply gex_authentic|exact Em].
Qed.

Lemma peer_newkeys_ok r codec res r' codec' :
  handle_peer_newkeys r codec = (res, (r', codec')) → phase r = AwaitingPeerNewKeys → quiet r r' ∧ phase_role r'.
Proof.
  unfold handle_peer_newkeys, quiet, final, phase_role, role, session_id. intros E Hp.
  destruct r as [[] ? ? ? ? ? ? fk ? es oe ? ? ? ?]. runner_simpl. subst.
  destruct (maybe_install _ codec) as [[?|?] c]; runner_simpl; [|by injection E as _ <- _].
  destruct (fk && es); [destruct oe|]; runner_simpl; by injection E as _ <- _.
Qed.

Lemma dispatch_ok rng payload msg hk ver v_c v_s r codec res r' codec' :
  on_packet_dispatch rng payload msg hk ver v_c v_s r codec = (res, (r', codec')) →
  phase_role r → step_ok ver v_c v_s payload r r' ∧ phase_role r'.
Proof.
  unfold on_packet_dispatch, lift_codec. intros E Hp.
  destruct (phase r) eqn:Hph; try unchanged E.
  - destruct (_ =? _); [|unchanged E]. destruct (handle_peer_kexinit _ _ _ _) as [res0 r0] eqn:Ek.
    cbn [fst snd] in E. injection E as _ <- _.
    split; [left; by eapply handle_peer_kexinit_quiet|by eapply handle_peer_kexinit_phase].
  - destruct (role r) eqn:Er, (uses_gex r).
    + destruct (_ =? _); unchanged E.
    + destruct (_ =? _); [by eapply reply_message_ok|]. destruct (_ =? _); unchanged E.
    + destruct (_ || _); [|destruct (_ =? _); unchanged E].
      destruct (handle_gex_request _ _) as [res0 r0] eqn:Ek. cbn [fst snd] in E. injection E as _ <- _.
      split; [left; by eapply handle_gex_request_quiet|by eapply handle_gex_request_phase].
    + destruct (_ =? _); [by eapply init_message_ok|]. destruct (_ =? _); unchanged E.
  - destruct (_ =? _); [|destruct (_ =? _); unchanged E].
    destruct (handle_gex_group _ _ _) as [res0 r0] eqn:Ek.
    cbn [fst snd] in E. injection E as _ <- _.
    split; [left; by eapply handle_gex_group_quiet|by eapply handle_gex_group_phase].
  - destruct (_ =? _); [|destruct (_ =? _); unchanged E]. by eapply gex_reply_ok.
  - destruct (_ =? _); [|destruct (_ =? _); unchanged E]. by eapply gex_init_ok.
  - destruct (_ =? _); [|unchanged E]. destruct (peer_newkeys_ok _ _ _ _ _ E Hph). split; [by left|done].
Qed.

(** One inbound payload, from any peer. *)
Lemma on_packet_ok rng payload hk ver v_c v_s r codec res r' codec' :
  runner_on_packet rng payload hk ver v_c v_s r codec = (res, (r', codec')) →
  phase_role r → step_ok ver v_c v_s payload r r' ∧ phase_role r'.
Proof.
  destruct payload as [|b rest]; [intros E; unchanged E|]. unfold runner_on_packet. intros E Hp.
  destruct (_ && _ && in_kex_range (u8 b)). { unchanged E. }
  destruct (strict_kex_enabled _ && _ && _). { unchanged E. }
  destruct (on_packet_dispatch _ _ _ _ _ _ _ _ _) as [res0 [r1 c1]] eqn:Ed.
  assert (r' = r1) as -> by (destruct res0; by injection E as _ <- _). clear E.
  exact (dispatch_ok _ _ _ _ _ _ _ _ _ _ _ _ Ed Hp).
Qed.

(** ** The fields of EXT_INFO and of group exchange *)

Definition ext_view (r : KexRunner) :=
  (first_kex r, ext_info_enabled r, ext_info_send r, outbound_ext_info r, gex_selector r).

Lemma finish_exchange_ext out before reply r codec res r' codec' :
  finish_exchange out before reply r codec = (res, (r', codec')) → ext_view r' = ext_view r.
Proof.
  unfold finish_exchange, ext_view, advance_after_send_newkeys, session_id. intros E.
  destruct r as [[rl ? ? sid ? ? ? ? pn ?] ? ? ? ? ? ? ? ? ? ? ? ? ? ?]. runner_simpl.
  destruct (derive_keys _) as [keys|] eqn:Ed.
  - apply derive_keys_only in Ed as [ks ->]. runner_simpl.
    destruct (maybe_install _ codec) as [[?|?] c]; runner_simpl; injection E as _ <- _; by destruct pn.
  - by injection E as _ <- _.
Qed.

Lemma gex_steps_ext rng payload r res r' :
  handle_gex_request payload r = (res, r') ∨ handle_gex_group rng payload r = (res, r') → ext_view r' = ext_view r.
Proof.
  unfold handle_gex_request, handle_gex_group, ext_view. intros [E|E];
    destruct r as [[] ? ? ? ? ? ? ? ? ? ? ? ? ? ?]; runner_simpl; branches E; done.
Qed.

Local Ltac by_finish E :=
  repeat (match type of E with
  | match ?x with _ => _ end = _ => destruct x
  end; try (by injection E as _ <- _)); by rewrite (finish_exchange_ext _ _ _ _ _ _ _ _ E).

(** Once the algorithms are agreed they stay until the peer's NEWKEYS. *)
Lemma on_packet_ext rng payload hk ver v_c v_s r codec res r' codec' :
  runner_on_packet rng payload hk ver v_c v_s r codec = (res, (r', codec')) →
  phase r ≠ SentKexInit → phase r ≠ AwaitingPeerNewKeys → ext_view r' = ext_view r.
Proof.
  destruct payload as [|b rest]; [by intros [= _ <- _]|]. unfold runner_on_packet. intros E Hp1 Hp2.
  set (r0 := r <| accept_ext_info_now := false |>) in E.
  assert (Hr0 : ext_view r0 = ext_view r) by done. change (phase r) with (phase r0) in Hp1, Hp2.
  rewrite <- Hr0. clearbody r0. clear Hr0 r.
  destruct (_ && _ && in_kex_range (u8 b)). { by injection E as _ <- _. }
  destruct (strict_kex_enabled _ && _ && _). { by injection E as _ <- _. }
  destruct (on_packet_dispatch _ _ _ _ _ _ _ _ _) as [res0 [r1 c1]] eqn:Ed.
  assert (r' = r1) as -> by (destruct res0; by injection E as _ <- _). clear E.
  unfold on_packet_dispatch, lift_codec in Ed. destruct (phase r0) eqn:Hph; try done; try (by injection Ed as _ <- _).
  - destruct (role r0) eqn:Er, (uses_gex r0).
    + destruct (_ =? _); by injection Ed as _ <- _.
    + destruct (_ =? _); [|destruct (_ =? _); by injection Ed as _ <- _].
      unfold handle_kex_reply_message in Ed. by_finish Ed.
    + destruct (_ || _); [|destruct (_ =? _); by injection Ed as _ <- _].
      injection Ed as _ <- _. by eapply (gex_steps_ext rng); left; rewrite <- surjective_pairing.
    + destruct (_ =? _); [|destruct (_ =? _); by injection Ed as _ <- _].
      unfold handle_kex_init_message in Ed. by_finish Ed.
  - destruct (_ =? _); [|destruct (_ =? _); by injection Ed as _ <- _].
    injection Ed as _ <- _. by eapply (gex_steps_ext rng); right; rewrite <- surjective_pairing.
  - destruct (_ =? _); [|destruct (_ =? _); by injection Ed as _ <- _].
    unfold handle_gex_reply in Ed. by_finish Ed.
  - destruct (_ =? _); [|destruct (_ =? _); by injection Ed as _ <- _].
    unfold handle_gex_init in Ed. by_finish Ed.
Qed.

(** Whether this end takes an EXT_INFO and whether it sends one. *)
Definition ext_recv (rl : Role) (neg : NegotiatedOwned) : bool :=
  match rl with Client => ng_client_ext_info neg | Server => ng_server_ext_info neg end.
Definition ext_sends (rl : Role) (neg : NegotiatedOwned) : bool :=
  match rl with Client => ng_server_ext_info neg | Server => ng_client_ext_info neg end.

Lemma handle_peer_kexinit_ext rng n payload r adv r' pa neg :
  handle_peer_kexinit rng n payload r = (Ok adv, r') → kexinit_decode payload = Ok pa →
  (match role r with Client => negotiate (our_advert_owned r) pa | Server => negotiate pa (our_advert_owned r) end) = Ok neg →
  ext_view r' = (first_kex r, first_kex r && ext_recv (role r) neg, first_kex r && ext_sends (role r) neg,
                 outbound_ext_info r, gex_selector r).
Proof.
  unfold handle_peer_kexinit, build_client_init, role, session_id, ext_view. intros E Hd Hn.
  destruct r as [[rl ? ? sid ? ? ? ? ? st] ? ? ? ? ? ? ? ? ? ? ? ? ? ?]. runner_simpl. rewrite Hd in E.
  destruct rl; rewrite Hn in E; runner_simpl; branches E; done.
Qed.

Lemma on_kexinit_ext rng pa hk ver v_c v_s r codec adv r' codec' neg :
  runner_on_packet rng (kexinit_encode pa) hk ver v_c v_s r codec = (Ok adv, (r', codec')) →
  phase r = SentKexInit → pending_wrong_guess_discard r = false → kexinit_wf pa →
  (match role r with Client => negotiate (our_advert_owned r) pa | Server => negotiate pa (our_advert_owned r) end) = Ok neg →
  ext_view r' = (first_kex r, first_kex r && ext_recv (role r) neg, first_kex r && ext_sends (role r) neg,
                 outbound_ext_info r, gex_selector r).
Proof.
  intros E Hp Hpd Hwf Hn. destruct (kexinit_encode_head pa) as (rest & Epa). rewrite Epa in E.
  rewrite on_packet_kex in E by done. rewrite <- Epa in E. unfold on_packet_dispatch in E.
  change (phase (r <| accept_ext_info_now := false |>)) with (phase r) in E. rewrite Hp in E.
  change (u8 (byte_of_Z 20) =? SSH_MSG_KEXINIT) with true in E. cbv iota in E. unfold lift_codec in E.
  destruct (handle_peer_kexinit _ _ _ _) as [[a|e] r1] eqn:Ek; cbn [fst snd] in E; [|done].
  injection E as _ <- _. by apply (handle_peer_kexinit_ext _ _ _ _ _ _ pa neg) in Ek; [|apply kexinit_decode_encode|].
Qed.

Lemma on_newkeys_ext rng hk ver v_c v_s r codec adv r' codec' :
  runner_on_packet rng [byte_of_Z SSH_MSG_NEWKEYS] hk ver v_c v_s r codec = (Ok adv, (r', codec')) →
  phase r = AwaitingPeerNewKeys → pending_wrong_guess_discard r = false →
  accept_ext_info_now r' = first_kex r && ext_info_enabled r.
Proof.
  intros E Hp Hpd. rewrite (on_packet_first SSH_MSG_NEWKEYS) in E; [|done|by eexists _, _|done].
  unfold on_packet_dispatch in E.
  destruct r as [[] ? ? ? ? ? ? fk en es oe ? ? ? ?]. runner_simpl. subst.
  cbn [SSH_MSG_NEWKEYS Z.eqb Pos.eqb] in E. unfold handle_peer_newkeys in E. runner_simpl.
  destruct (maybe_install _ codec) as [[?|?] c]; runner_simpl; [|discriminate E].
  destruct (fk && es); [destruct oe|]; runner_simpl; injection E as _ <- _; by destruct fk, en.
Qed.
End Safe.

(** * Two runners in conversation

    After the KEXINITs the client's message [m] is on its way.  [talk n]: the
    server and the client exchange [n] further rounds (one for a group
    exchange, none otherwise), then the server's reply and NEWKEYS come, the
    client verifies the reply, and both have derived the same keys from the
    same hash.  It holds for every method, whatever each side's entropy. *)

Section Talk.
Context {P : CipherPrims} {CC : CompCol} {C : PureCrypto} {H : KexHash} {K : KexPrims}.

Definition NEWKEYS_PAYLOAD : bytes := [byte_of_Z SSH_MSG_NEWKEYS].

(** A verifier that takes the signatures of [hk]. *)
Definition accepts (hk : HostKey) (verify : Verifier) : Prop :=
  ∀ h sig, hk_sign hk 0 h = Ok sig → verify h sig = Ok ().

(** A message of a method: its byte is in the range of the methods and it fits
    a packet. *)
Definition method_msg (m : bytes) : Prop :=
  (∃ b rest, m = b :: rest ∧ 30 ≤ u8 b ≤ 49) ∧ len m ≤ 4 * FIELD_MAX - 1024.

Definition adv (out : list bytes) : KexAdvance := {| adv_outbound := out; adv_completed := false |}.

Section Fixed.
Context (hk : HostKey) (v_c v_s : bytes) (neg : NegotiatedOwned) (be : KexBackend) (sid : option bytes) (strict : bool).

(** The byte of the message that carries the host key. *)
Definition reply_byte : Z := if is_gex be then SSH_MSG_KEX_DH_GEX_REPLY else SSH_MSG_KEX_ECDH_REPLY.

(** The algorithms are agreed and (K, H) is not known yet. *)
Definition mid_exchange (r : KexRunner) : bool :=
  match phase r with
  | Negotiated _ | GexClientAwaitGroup _ | GexClientAwaitReply _ | GexServerAwaitInit _ _ => true
  | _ => false
  end.

Definition both_backends (rc rs : KexRunner) : Prop :=
  kr_backend (kx_keys rc) = Some be ∧ kr_negotiated (kx_keys rs) = Some neg ∧
  mid_exchange rc = true ∧ mid_exchange rs = true.

Fixpoint talk (n : nat) (rc rs : KexRunner) (m : bytes) : Prop :=
  both_backends rc rs ∧ method_msg m ∧
  ∀ rng_s cs, ∃ m1 rs',
    match n with
    | O =>
        runner_on_packet rng_s m (Some hk) None v_c v_s rs cs = (Ok (adv [m1; NEWKEYS_PAYLOAD]), (rs', cs)) ∧
        method_msg m1 ∧ first_byte reply_byte m1 ∧
        ∃ keys h sig, awaiting rs' Server neg keys h (default h sid) strict ∧
          (∃ k, keys_of neg be k h (default h sid) = Ok keys) ∧
          host_key_and_sig m1 = Some (public_blob hk, sig) ∧
          ∀ rng_c cc verify, accepts hk verify → ∃ rc',
            runner_on_packet rng_c m1 None (Some verify) v_c v_s rc cc = (Ok (adv [NEWKEYS_PAYLOAD]), (rc', cc)) ∧
            awaiting rc' Client neg keys h (default h sid) strict
    | S n =>
        runner_on_packet rng_s m (Some hk) None v_c v_s rs cs = (Ok (adv [m1]), (rs', cs)) ∧
        method_msg m1 ∧ ¬ first_byte reply_byte m1 ∧ mid_exchange rs' = true ∧
        ∀ rng_c cc, ∃ rc' m2,
          runner_on_packet rng_c m1 None None v_c v_s rc cc = (Ok (adv [m2]), (rc', cc)) ∧ talk n rc' rs' m2
    end.
End Fixed.

Definition rounds (be : KexBackend) : nat := if is_gex be then 1 else 0.

Lemma first_byte_msg lo m : first_byte lo m → 30 ≤ lo ≤ 49 → len m ≤ 4 * FIELD_MAX - 1024 → method_msg m.
Proof. intros (b & rest & -> & <-) Hr Hl. split; [by exists b, rest|done]. Qed.

Lemma exchanging_backends rc rs ci si neg be sid strict :
  exchanging rc Client ci si neg be sid strict → exchanging rs Server si ci neg be sid strict →
  mid_exchange rc = true → mid_exchange rs = true → both_backends neg be rc rs.
Proof. intros [] []. by split. Qed.

Section Laws.
Context {HL : KexHashLaws H} {CL : PureCryptoLaws C} {KL : KexPrimsLaws C K}.

Lemma plain_talk hk v_c v_s rc rs ci si neg be sid strict rng st m :
  exchanging rc Client ci si neg be sid strict → phase rc = Negotiated (Some st) →
  exchanging rs Server si ci neg be sid strict → phase rs = Negotiated None →
  is_gex be = false → suites_known neg → signer_ok hk → method_init (Some neg) be rng = Ok (st, m) →
  talk hk v_c v_s neg be sid strict 0 rc rs m.
Proof.
  intros Hc Pc Hs Ps Hg Hk Hhk Hin. cbn [talk].
  destruct (method_dispatch (Some neg) be Hg rng rng hk (hash_context v_c v_s ci si) Hhk)
    as (st0 & m0 & ? & ? & ? & E1 & E2 & _ & _ & Hm & _). rewrite Hin in E1. injection E1 as <- <-.
  split; [eapply exchanging_backends; [done..| |]; unfold mid_exchange; by rewrite ?Pc, ?Ps|].
  split; [eapply first_byte_msg; [by eapply method_reply_first|done|unfold FIELD_MAX in *; lia]|].
  intros rng_s cs.
  destruct (method_dispatch (Some neg) be Hg rng rng_s hk (hash_context v_c v_s ci si) Hhk)
    as (st1 & m1 & p & out & sig & E1 & E3 & Esig & [Hca Hl] & _ & Hfin).
  rewrite Hin in E1. injection E1 as <- <-.
  destruct (keys_of_ok neg be (ko_k out) (ko_h out) (default (ko_h out) sid) Hk) as (keys & _ & _ & Ek & _).
  destruct (on_init rng_s m hk None v_c v_s rs cs ci si neg be sid strict p out keys) as (rs' & Eon & Haw); try done.
  exists p, rs'. split; [exact Eon|].
  assert (Hfb : first_byte SSH_MSG_KEX_ECDH_REPLY p).
  { eapply (method_finish_first be st p (λ _ _, Ok ()) (hash_context v_c v_s ci si)). by rewrite Hfin. }
  split; [by eapply first_byte_msg|]. split; [unfold reply_byte; by rewrite Hg|].
  exists keys, (ko_h out), sig. split; [done|]. split; [by exists (ko_k out)|]. split; [done|].
  intros rng_c cc verify Hacc.
  destruct (on_reply rng_c p None verify v_c v_s rc cc ci si neg be sid strict st out keys) as (rc' & Eoc & Hac);
    try done. { rewrite Hfin. by rewrite (Hacc _ _ Esig). }
  exists rc'. by split.
Qed.

Lemma gex_hash_of r rl oa pa neg be sid strict :
  exchanging r rl oa pa neg be sid strict → is_gex be = true →
  gex_hash r = match be with GexSha1 => KSha1 | _ => KSha256 end.
Proof. intros Hex Hg. unfold gex_hash. rewrite (ex_backend _ _ _ _ _ _ _ _ Hex). by destruct be. Qed.

Lemma gex_talk hk v_c v_s rc rs ci si neg be sid strict g q :
  exchanging rc Client ci si neg be sid strict → phase rc = GexClientAwaitGroup (GexSha.client_request q).1 →
  exchanging rs Server si ci neg be sid strict → phase rs = Negotiated None →
  is_gex be = true → suites_known neg → signer_ok hk → request_ok q → selects rs q g → gex_group_ok q g →
  talk hk v_c v_s neg be sid strict 1 rc rs (GexSha.client_request q).2.
Proof.
  intros Hc Pc Hs Ps Hg Hk Hhk Hq Hsel Hgr. cbn [talk].
  split; [eapply exchanging_backends; [done..| |]; unfold mid_exchange; by rewrite ?Pc, ?Ps|].
  split; [eapply (first_byte_msg SSH_MSG_KEX_DH_GEX_REQUEST); [by eexists _, _|done|unfold GexSha.client_request; cbn [snd]; field_lia]|].
  intros rng_s cs. pose proof (λ select, gex_request_read q select Hq) as Hread.
  set (gp := [byte_of_Z SSH_MSG_KEX_DH_GEX_GROUP] |>> encode_mpint_into (GexSha.p_be_bytes g)
               |>> encode_mpint_into (GexSha.g_be_bytes g)).
  assert (Hsg : ∀ select, select q = g → GexSha.server_group (GexSha.client_request q).2 select = Ok (q, g, gp)).
  { intros select <-. by rewrite Hread. }
  destruct (on_gex_request rng_s (GexSha.client_request q).2 (Some hk) None v_c v_s rs cs ci si neg be sid strict q g gp)
    as (rs' & Eon & Hs' & Ps'); try done.
  assert (Hgf : first_byte SSH_MSG_KEX_DH_GEX_GROUP gp).
  { unfold gp. rewrite !encode_mpint_into_string. by eexists _, _. }
  exists gp, rs'. split; [exact Eon|].
  split; [eapply first_byte_msg; [done|done|pose proof (gex_group_fits g); fold gp in H0; unfold FIELD_MAX in *; lia]|].
  split; [unfold reply_byte; rewrite Hg; destruct Hgf as (b & r & -> & Hb); intros (b' & r' & [= <- <-] & Hb'); by rewrite Hb in Hb'|].
  split; [unfold mid_exchange; by rewrite Ps'|]. intros rng_c cc.
  set (D := match be with GexSha1 => KSha1 | _ => KSha256 end).
  destruct (gex_method D q g (λ _, g) rng_c rng_c hk (hash_context v_c v_s ci si)) as
    (st & init & gp0 & ? & ? & ? & Eg & Ei & E2 & _ & _ & Hil & _); try done.
  rewrite Hsg in Eg by done. injection Eg as <-.
  destruct (on_gex_group rng_c gp None None v_c v_s rc cc ci si neg be sid strict _ st init Hc Pc Ei)
    as (rc' & Eoc & Hc' & Pc').
  exists rc', init. split; [exact Eoc|]. cbn [talk].
  split; [eapply exchanging_backends; [done..| |]; unfold mid_exchange; by rewrite ?Pc', ?Ps'|].
  split; [eapply first_byte_msg; [exact (expect_first _ _ _ _ _ E2)|done|unfold FIELD_MAX in *; lia]|].
  clear Eoc cc Eon cs. intros rng_s2 cs.
  destruct (gex_method D q g (λ _, g) rng_c rng_s2 hk (hash_context v_c v_s ci si)) as
    (st' & init' & gp0 & p & out & sig & Eg & Ei' & Er & Esig & [Hca Hl] & _ & _ & Hfin); try done.
  rewrite Hsg in Eg by done. injection Eg as <-. rewrite Ei in Ei'. injection Ei' as <- <-.
  destruct (keys_of_ok neg be (ko_k out) (ko_h out) (default (ko_h out) sid) Hk) as (keys & _ & _ & Ek & _).
  destruct (on_gex_init rng_s2 init hk None v_c v_s rs' cs ci si neg be sid strict q g p out keys)
    as (rs2 & Eon & Haw); try done. { by rewrite (gex_hash_of _ _ _ _ _ _ _ _ Hs' Hg). }
  exists p, rs2. split; [exact Eon|].
  assert (Hfb : first_byte SSH_MSG_KEX_DH_GEX_REPLY p).
  { pose proof (Hfin (λ _ _, Ok ())) as Hf. unfold GexSha.client_finish_with in Hf.
    destruct (GexSha.group st); [|done]. destruct (GexSha.secret st); [|done].
    exact (expect_first _ _ _ _ _ Hf). }
  split; [by eapply first_byte_msg|]. split; [unfold reply_byte; by rewrite Hg|].
  exists keys, (ko_h out), sig. split; [done|]. split; [by exists (ko_k out)|]. split; [done|].
  intros rng_c2 cc2 verify Hacc.
  destruct (on_gex_reply rng_c2 p None verify v_c v_s rc' cc2 ci si neg be sid strict st out keys)
    as (rc2 & Eoc2 & Hac); try done.
  { rewrite (gex_hash_of _ _ _ _ _ _ _ _ Hc' Hg). fold D. rewrite Hfin. by rewrite (Hacc _ _ Esig). }
  exists rc2. by split.
Qed.
End Laws.
End Talk.
