(* ===== verification/Advert.v ===== *)
(** * What each end offers (src/client.rs, src/server.rs: the KEXINIT builders)

    The KEXINITs a client and a server advertise under their configuration,
    the host key a server signs with, the EXT_INFO it sends and the
    identification strings; built with the [compress] feature on, as the
    crate's defaults are. *)
From S2P Require Import Prelude Wire Text HostKey Cert Crypto Cipher Packet KexInit KexFacts KexHash KexMethods Runner.

(** [owned_or_default] *)
Definition owned_or_default (over : option (list bytes)) (dflt : list bytes) : list bytes := default dflt over.

(** [filter] of the standard library on a [Vec]; also [retain]. *)
Definition retain (f : bytes → bool) (l : list bytes) : list bytes := List.filter f l.

(** ** The client *)

Record AlgoOverrides := {
  ao_ciphers : option (list bytes); ao_macs : option (list bytes); ao_kex_algorithms : option (list bytes);
  ao_host_key_algorithms : option (list bytes); ao_pubkey_accepted_algorithms : option (list bytes);
  ao_ca_signature_algorithms : option (list bytes); ao_compression : option bool;
  ao_version_addendum : option bytes
}.
Definition algo_overrides_default : AlgoOverrides := Build_AlgoOverrides None None None None None None None None.

Definition default_host_key_algorithms : list bytes := CERT_KEY_NAMES ++ DEFAULT_HOST_KEY.

Definition build_default_kexinit (rng : Rng) (over : AlgoOverrides) : KexInit :=
  let default_kex := retain (λ n, negb (is_strict_kex_marker n)) DEFAULT_KEX in
  let kex := owned_or_default (ao_kex_algorithms over) default_kex in
  let kex := retain (λ k, negb (is_strict_kex_marker k)) kex ++ [STRICT_KEX_CLIENT_MARKER] in
  let ciphers := owned_or_default (ao_ciphers over) DEFAULT_CIPHERS in
  let macs := owned_or_default (ao_macs over) DEFAULT_MACS in
  let host_key := default default_host_key_algorithms (ao_host_key_algorithms over) in
  let comp := match ao_compression over with
    | Some true => [bs "zlib@openssh.com"; bs "none"] | _ => DEFAULT_COMP end in
  from_algorithms_owned
    {| ka_kex := kex; ka_server_host_key := host_key; ka_ciphers_c2s := ciphers; ka_ciphers_s2c := ciphers;
       ka_macs_c2s := macs; ka_macs_s2c := macs; ka_comp_c2s := comp; ka_comp_s2c := comp;
       ka_lang_c2s := []; ka_lang_s2c := [] |}
    (fill_bytes rng 16).

(** [base_host_key_type] and the order known hosts give the default offer. *)
Definition base_host_key_type (name : bytes) : bytes :=
  let n := default name (strip_suffix (bs "-cert-v01@openssh.com") name) in
  if bytes_eqb n (bs "rsa-sha2-256") || bytes_eqb n (bs "rsa-sha2-512") || bytes_eqb n (bs "ssh-rsa")
  then bs "ssh-rsa" else n.

Definition order_host_key_algorithms (defaults present_types : list bytes) : list bytes :=
  match present_types with
  | [] => defaults
  | _ =>
      let present := base_host_key_type <$> present_types in
      let known a := list_has present (base_host_key_type a) in
      retain known defaults ++ retain (λ a, negb (known a)) defaults
  end.

(** ** The server *)

Inductive Compression := CompNo | CompYes | CompDelayed.

(** A configured host key: its name, the key, and the trait's [upgraded_for],
    the same key under another algorithm. *)
Record ServerHostKey := {
  shk_algorithm : bytes; shk_key : HostKey; shk_upgraded_for : bytes → option HostKey
}.

(** The fields of the server's [Config] the transport reads;
    [cfg_allow_rsa_sha1] is the process-wide [hostkey::allow_rsa_sha1()]. *)
Record ServerConfig {K : KexPrims} := {
  cfg_host_keys : list ServerHostKey;
  cfg_host_key_algorithms : option (list bytes); cfg_kex_algorithms : option (list bytes);
  cfg_ciphers : option (list bytes); cfg_macs : option (list bytes);
  cfg_compression : option Compression; cfg_pubkey_accepted_algorithms : option (list bytes);
  cfg_gex_group_selector : option GexGroupSelector; cfg_version_addendum : bytes;
  cfg_allow_rsa_sha1 : bool
}.

Definition rsa_family (name : bytes) : option bool :=
  if list_has [bs "ssh-rsa"; bs "rsa-sha2-256"; bs "rsa-sha2-512"] name then Some false
  else if list_has [bs "ssh-rsa-cert-v01@openssh.com"; bs "rsa-sha2-256-cert-v01@openssh.com";
                    bs "rsa-sha2-512-cert-v01@openssh.com"] name then Some true
  else None.
Definition in_family (cert : bool) (name : bytes) : bool :=
  match rsa_family name with Some c => Bool.eqb c cert | None => false end.

Definition pick_host_key (keys : list ServerHostKey) (name : bytes) : option ServerHostKey :=
  match List.find (λ k, bytes_eqb (shk_algorithm k) name) keys with
  | Some k => Some k
  | None =>
      match rsa_family name with
      | None => None
      | Some family => List.find (λ k, in_family family (shk_algorithm k)) keys
      end
  end.

Section Config.
Context {K : KexPrims}.

(** The host-key algorithms the configured keys can sign with. *)
Definition host_key_have (keys : list ServerHostKey) : list bytes :=
  retain (λ n, List.existsb (λ k, bytes_eqb (shk_algorithm k) n ||
            (in_family true n && in_family true (shk_algorithm k))) keys) CERT_KEY_NAMES ++
  retain (λ n, List.existsb (λ k, bytes_eqb (shk_algorithm k) n) keys ||
            ((bytes_eqb n (bs "rsa-sha2-256") || bytes_eqb n (bs "rsa-sha2-512")) &&
             List.existsb (λ k, list_has [bs "ssh-rsa"; bs "rsa-sha2-256"; bs "rsa-sha2-512"] (shk_algorithm k))
               keys)) DEFAULT_HOST_KEY.

Definition build_server_kexinit (rng : Rng) (cfg : ServerConfig) : KexInit :=
  let host_keys := cfg_host_keys cfg in
  let have := host_key_have host_keys in
  let opt_in :=
    if cfg_allow_rsa_sha1 cfg then
      (if List.existsb (λ k, in_family true (shk_algorithm k)) host_keys
       then [bs "ssh-rsa-cert-v01@openssh.com"] else []) ++
      (if List.existsb (λ k, in_family false (shk_algorithm k)) host_keys then [bs "ssh-rsa"] else [])
    else [] in
  let host_key := match cfg_host_key_algorithms cfg with
    | Some pref => retain (λ p, list_has have p || list_has opt_in p) pref
    | None => have end in
  let ed25519_excluded := match cfg_host_key_algorithms cfg with
    | Some pref => negb (list_has pref (bs "ssh-ed25519")) | None => false end in
  let host_key := match host_key with
    | [] => if ed25519_excluded then [] else [bs "ssh-ed25519"] | _ => host_key end in
  let default_kex := retain (λ n, negb (is_strict_kex_marker n)) DEFAULT_KEX in
  let kex := owned_or_default (cfg_kex_algorithms cfg) default_kex in
  let kex := retain (λ k, negb (is_strict_kex_marker k)) kex ++ [STRICT_KEX_SERVER_MARKER] in
  let ciphers := owned_or_default (cfg_ciphers cfg) DEFAULT_CIPHERS in
  let macs := owned_or_default (cfg_macs cfg) DEFAULT_MACS in
  let comp := match default CompDelayed (cfg_compression cfg) with
    | CompNo => [bs "none"]
    | CompYes => [bs "zlib@openssh.com"; bs "zlib"; bs "none"]
    | CompDelayed => [bs "zlib@openssh.com"; bs "none"] end in
  from_algorithms_owned
    {| ka_kex := kex; ka_server_host_key := host_key; ka_ciphers_c2s := ciphers; ka_ciphers_s2c := ciphers;
       ka_macs_c2s := macs; ka_macs_s2c := macs; ka_comp_c2s := comp; ka_comp_s2c := comp;
       ka_lang_c2s := []; ka_lang_s2c := [] |}
    (fill_bytes rng 16).

Definition SIG_ALGS_CERTS : list bytes := [
  bs "ssh-ed25519-cert-v01@openssh.com"; bs "ecdsa-sha2-nistp256-cert-v01@openssh.com";
  bs "ecdsa-sha2-nistp384-cert-v01@openssh.com"; bs "ecdsa-sha2-nistp521-cert-v01@openssh.com";
  bs "rsa-sha2-512-cert-v01@openssh.com"; bs "rsa-sha2-256-cert-v01@openssh.com" ].
Definition SIG_ALGS_PLAIN : list bytes := [
  bs "ssh-ed25519"; bs "ecdsa-sha2-nistp256"; bs "ecdsa-sha2-nistp384"; bs "ecdsa-sha2-nistp521";
  bs "sk-ssh-ed25519@openssh.com"; bs "sk-ecdsa-sha2-nistp256@openssh.com"; bs "rsa-sha2-512";
  bs "rsa-sha2-256"; bs "ssh-mldsa44-ed25519"; bs "webauthn-sk-ecdsa-sha2-nistp256@openssh.com" ].

Definition server_ext_info (cfg : ServerConfig) : ExtInfo :=
  let accepted n := match cfg_pubkey_accepted_algorithms cfg with None => true | Some l => list_has l n end in
  let names := retain accepted (SIG_ALGS_CERTS ++ SIG_ALGS_PLAIN) in
  let names := if cfg_allow_rsa_sha1 cfg then names ++ [bs "ssh-rsa"] else names in
  ext_info_new |>> with_server_sig_algs (join_names names)
    |>> with_extension (bs "publickey-hostbound@openssh.com") (bs "0").
End Config.

(** ** Size and text of what is offered *)

Definition ascii_name (n : bytes) : Prop := Forall (λ b, u8 b < 128) n.
Definition names_total (l : list bytes) : Z := fold_right (λ n t, len n + 1 + t) 0 l.

Lemma join_names_len l : len (join_names l) ≤ names_total l.
Proof.
  induction l as [|n l IH]; [done|]. cbn [names_total fold_right]. fold (names_total l).
  destruct l as [|m l]; cbn [join_names]; [cbn; lia|]. cbn [join_names] in IH. rewrite len_app, len_cons. lia.
Qed.
Lemma join_names_ascii l : Forall ascii_name l → ascii_name (join_names l).
Proof.
  induction 1 as [|n l Hn Hl IH]; [constructor|]. destruct l as [|m l]; [done|].
  cbn [join_names]. apply Forall_app. split; [done|]. constructor; [by vm_compute|done].
Qed.
Lemma names_total_app l m : names_total (l ++ m) = names_total l + names_total m.
Proof. induction l as [|n l IH]; cbn [app names_total fold_right]; [done|]. fold (names_total (l ++ m)) (names_total l). lia. Qed.
Lemma names_total_retain f l : names_total (retain f l) ≤ names_total l.
Proof.
  unfold retain. induction l as [|n l IH]; [done|]. cbn [List.filter names_total fold_right].
  fold (names_total l). pose proof (len_nonneg n). destruct (f n); cbn [names_total fold_right];
    fold (names_total (List.filter f l)); lia.
Qed.
Lemma retain_ascii f l : Forall ascii_name l → Forall ascii_name (retain f l).
Proof. unfold retain. induction 1 as [|n l Hn Hl IH]; [constructor|]. cbn [List.filter]. destruct (f n); by try constructor. Qed.

(** EXT_INFO texts a receiver can read. *)
Definition ext_fits (e : ExtInfo) : Prop :=
  Forall pair_ok (ei_raw e) ∧ len (ei_raw e) ≤ 1024 ∧ len (ext_info_encode e) < MAX_ENCODABLE_PAYLOAD.

Lemma ext_pair_fits name l :
  ascii_name name → is_u32 (len name) → Forall ascii_name l → names_total l < 1000 → pair_ok (name, join_names l).
Proof.
  intros Hn Hl Ha Ht. pose proof (join_names_len l). pose proof (len_nonneg (join_names l)).
  split; [by apply utf8_valid_ascii|]. split; [by apply utf8_valid_ascii, join_names_ascii|].
  split; [done|]. cbn [snd]. width_lia.
Qed.

Definition HOSTBOUND : bytes := bs "publickey-hostbound@openssh.com".

Lemma server_ext_raw {C : PureCrypto} {K : KexPrims} cfg :
  ∃ l, ei_raw (server_ext_info cfg) = [(SERVER_SIG_ALGS, join_names l); (HOSTBOUND, bs "0")] ∧
    Forall ascii_name l ∧ names_total l < 1000.
Proof.
  unfold server_ext_info.
  set (f := λ n, match cfg_pubkey_accepted_algorithms cfg with None => true | Some l => list_has l n end).
  set (l := if cfg_allow_rsa_sha1 cfg then _ else _). exists l. split; [done|].
  pose proof (names_total_retain f (SIG_ALGS_CERTS ++ SIG_ALGS_PLAIN)) as Ht.
  assert (E : names_total (SIG_ALGS_CERTS ++ SIG_ALGS_PLAIN) < 900) by (by vm_compute).
  assert (A : Forall ascii_name (retain f (SIG_ALGS_CERTS ++ SIG_ALGS_PLAIN))).
  { apply retain_ascii. unfold ascii_name. repeat constructor. }
  unfold l. destruct (cfg_allow_rsa_sha1 cfg); [|split; [done|lia]].
  split; [apply Forall_app; split; [done|unfold ascii_name; repeat constructor]|].
  rewrite names_total_app. assert (names_total [bs "ssh-rsa"] = 8) by done. lia.
Qed.

Lemma server_ext_fits {C : PureCrypto} {K : KexPrims} cfg : ext_fits (server_ext_info cfg).
Proof.
  destruct (server_ext_raw cfg) as (l & E & Ha & Ht). unfold ext_fits. rewrite ext_info_encode_eq, E.
  pose proof (join_names_len l) as Hj. split; [|split; [by vm_compute|]].
  - constructor; [|constructor; [|constructor]].
    + apply ext_pair_fits; [unfold ascii_name; repeat constructor|by vm_compute|done|done].
    + apply (ext_pair_fits _ [bs "0"]); [unfold ascii_name; repeat constructor|by vm_compute|
        unfold ascii_name; repeat constructor|by vm_compute].
  - cbn [fmap list_fmap concat]. unfold pair_bytes. cbn [fst snd]. rewrite !len_cons, !len_app, !len_be_bytes.
    assert (len SERVER_SIG_ALGS = 15) by done. assert (len HOSTBOUND = 31) by done.
    assert (len (bs "0") = 1) by done. assert (MAX_ENCODABLE_PAYLOAD > 2000) by done.
    change (len []) with 0. cbn [length Z.of_nat] in *. lia.
Qed.
