(* ===== verification/Driver.v ===== *)
(** * The sans-I/O drivers (src/driver: mod.rs, client.rs, server.rs)

    [ClientDriver] and [ServerDriver] own the codec and the runner and take a
    connection from the identification line to application payloads.  The two
    structs have the same fields but for their configuration, and the same
    methods but for the parts that follow the role: they are one record here,
    with the configuration in [side], and each part that differs is a
    definition of its own.  [entropy] is what [OsRng] returns: [draws] counts
    the values taken, so every draw is fresh.  The client's
    [VerifierFactory] is an [FnMut], so its answer is indexed by [draws] too.
    Times are nanoseconds.  The callbacks told of a finished key exchange
    ([kex_observer], [on_kex]) return nothing and are left out. *)
From S2P Require Import Prelude Wire Text ChannelMsg Crypto Cipher Compress Packet KexInit KexHash KexMethods KexKeys.
From S2P Require Import Runner Advert.

(** ** Shared by both drivers (mod.rs) *)

Definition MAX_DEFERRED_OUT_BYTES : Z := 32 * 1024 * 1024.
Definition MAX_DEFERRED_IN_BYTES : Z := 32 * 1024 * 1024.
Definition MAX_BANNER_LINE : Z := 1024.
Definition MAX_BANNER_LINES : Z := 32.
Definition MAX_BANNER_TOTAL_BYTES : Z := 64 * 1024.

Definition generic_msg_during_initial_kex (strict_kex : bool) : result unit :=
  if strict_kex then Err (Protocol "strict-kex: unexpected message during initial key exchange") else Ok ().

Definition defer_inbound (queue : list bytes) (queued_bytes : Z) (payload : bytes)
    : result unit * (list bytes * Z) :=
  let queued_bytes := sat_add64 queued_bytes (len payload) in
  if queued_bytes >? MAX_DEFERRED_IN_BYTES then
    (Err (Protocol "re-key: deferred ingress buffer too large"), (queue, queued_bytes))
  else (Ok (), (queue ++ [payload], queued_bytes)).

Definition keepalive_request : bytes :=
  into_vec (writer_new |>> write_u8 MSG_GLOBAL_REQUEST
    |>> write_string (GlobalRequest.name GlobalRequest.Keepalive) |>> write_bool true
    |>> GlobalRequest.encode GlobalRequest.Keepalive).

Inductive Event := HandshakeComplete | AppData (payload : bytes).

Definition disconnect_error (payload : bytes) : Error :=
  let r := reader_new (drop 1 payload) in
  let '(reason, r) := match read_u32 r with Ok (n, r) => (n, r) | Err _ => (0, r) end in
  let description := match read_string r with
    | Ok (d, _) => concat ((λ c, if char_is_control c then bs "?" else c) <$> lossy_chars d)
    | Err _ => [] end in
  Disconnected reason description.

(** ** The drivers' state *)

Inductive DPhase := AwaitingVersion | Kex | PostKex.
Definition dphase_eqb (a b : DPhase) : bool :=
  match a, b with
  | AwaitingVersion, AwaitingVersion | Kex, Kex | PostKex, PostKex => true
  | _, _ => false
  end.

Section Driver.
Context {P : CipherPrims} {CC : CompCol} {C : PureCrypto} {H : KexHash} {K : KexPrims}.

(** The verifier for a reply's host key, or a refusal of that key. *)
Definition VerifierFactory := nat → bytes → KexRunner → result Verifier.

Inductive Side :=
  | ClientSide (algo_overrides : AlgoOverrides) (verifier_factory : VerifierFactory)
  | ServerSide (cfg : ServerConfig).

Record Driver := {
  side : Side;
  dphase : DPhase;
  codec : PacketCodec;
  runner : KexRunner;
  draws : nat;
  inbox : bytes;
  outbox : list bytes;
  events : list Event;
  deferred : list bytes;
  deferred_bytes : Z;
  deferred_out : list bytes;
  deferred_out_bytes : Z;
  payloads_enqueued : Z;        (* server only *)
  peer_version : bytes;         (* [v_s] of a client, [v_c] of a server *)
  d_session_id : bytes;
  rekey_policy : RekeyPolicy;
  last_kex : option Z;
  keepalive : option (Z * Z);
  last_activity : Z;
  missed_keepalives : Z;
  banner_lines : Z;             (* client only, with the next two *)
  banner_total : Z;
  authenticated : bool
}.
#[local] Instance eta_Driver : Etable Driver :=
  λ r, Build_Driver (side r) (dphase r) (codec r) (runner r) (draws r) (inbox r) (outbox r) (events r)
         (deferred r) (deferred_bytes r) (deferred_out r) (deferred_out_bytes r) (payloads_enqueued r)
         (peer_version r) (d_session_id r) (rekey_policy r) (last_kex r) (keepalive r) (last_activity r)
         (missed_keepalives r) (banner_lines r) (banner_total r) (authenticated r).

Definition side_role (s : Side) : Role := match s with ClientSide _ _ => Client | ServerSide _ => Server end.
Definition is_client (d : Driver) : bool := match side d with ClientSide _ _ => true | ServerSide _ => false end.

Context (entropy : nat → Rng) (pkg_version : bytes).

(** The KEXINIT of a re-key, and of the first exchange but for the marker. *)
Definition build_advert (s : Side) (rng : Rng) : KexInit :=
  match s with
  | ClientSide over _ => build_default_kexinit rng over
  | ServerSide cfg => build_server_kexinit rng cfg
  end.

(** [ClientDriver::new] and [ServerDriver::new]; [now] is the clock at the call. *)
Definition driver_new (s : Side) (now : Z) : Driver :=
  {| side := s; dphase := AwaitingVersion; codec := packet_codec_new;
     runner := runner_new (side_role s) (build_advert s (entropy 0)); draws := 1;
     inbox := []; outbox := []; events := []; deferred := []; deferred_bytes := 0;
     deferred_out := []; deferred_out_bytes := 0; payloads_enqueued := 0; peer_version := []; d_session_id := [];
     rekey_policy := rekey_policy_default; last_kex := None; keepalive := None; last_activity := now;
     missed_keepalives := 0; banner_lines := 0; banner_total := 0; authenticated := false |}.

Definition set_rekey_policy (policy : RekeyPolicy) (d : Driver) : Driver := d <| rekey_policy := policy |>.
Definition set_keepalive (interval count_max : Z) (d : Driver) : Driver :=
  d <| keepalive := Some (interval, count_max) |>.
Definition handshake_done (d : Driver) : bool := dphase_eqb (dphase d) PostKex.

Definition notify_auth_success (d : Driver) : Driver :=
  match side d with
  | ClientSide _ _ => d <| codec := activate_compress (codec d) |> <| authenticated := true |>
                        <| runner := arm_ext_info_post_auth (runner d) |>
  | ServerSide _ => d <| codec := activate_compress (codec d) |>
  end.

(** ** Output *)

Definition encode_and_queue (payload : bytes) (d : Driver) : result unit * Driver :=
  let (r, c) := encode (codec d) payload (entropy (draws d)) in
  let d := d <| codec := c |> <| draws := S (draws d) |> in
  let! frame := r at d in
  (Ok (), d <| outbox := outbox d ++ [frame] |>).

Definition enqueue_payload (payload : bytes) (d : Driver) : result unit * Driver :=
  let d := d <| payloads_enqueued := wrap64 (payloads_enqueued d + 1) |> in
  let must_wait := match payload with b :: _ => negb (may_send_during_kex (u8 b)) | [] => false end in
  if must_wait && is_kexing (runner d) then
    let d := d <| deferred_out_bytes := deferred_out_bytes d + len payload |> in
    if deferred_out_bytes d >? MAX_DEFERRED_OUT_BYTES
    then (Err (Protocol "re-key: deferred egress buffer too large"), d)
    else (Ok (), d <| deferred_out := deferred_out d ++ [payload] |>)
  else encode_and_queue payload d.

(** [for p in outbound { self.enqueue_payload(&p)?; }] *)
Fixpoint enqueue_all (payloads : list bytes) (d : Driver) : result unit * Driver :=
  match payloads with
  | [] => (Ok (), d)
  | p :: rest => let (r, d) := enqueue_payload p d in let! _ := r at d in enqueue_all rest d
  end.

(** The loop of [drain_deferred_out] over the queue [q]. *)
Fixpoint drain_out_loop (q : list bytes) (d : Driver) : result unit * Driver :=
  match q with
  | [] => (Ok (), d <| deferred_out_bytes := 0 |>)
  | payload :: rest =>
      let (r, d) := encode_and_queue payload (d <| deferred_out := rest |>) in
      let! _ := r at d in drain_out_loop rest d
  end.
Definition drain_deferred_out (d : Driver) : result unit * Driver := drain_out_loop (deferred_out d) d.

Definition poll_transmit (d : Driver) : option bytes * Driver :=
  match outbox d with [] => (None, d) | f :: rest => (Some f, d <| outbox := rest |>) end.
Definition poll_event (d : Driver) : option Event * Driver :=
  match events d with [] => (None, d) | e :: rest => (Some e, d <| events := rest |>) end.

Definition route_app (payload : bytes) (d : Driver) : Driver := d <| events := events d ++ [AppData payload] |>.

(** [drain_deferred]; replaying does not start a key exchange, so the loop's
    test is made once. *)
Fixpoint drain_in_loop (q : list bytes) (d : Driver) : Driver :=
  match q with
  | [] => d
  | payload :: rest =>
      drain_in_loop rest (route_app payload
        (d <| deferred := rest |> <| deferred_bytes := sat_sub (deferred_bytes d) (len payload) |>
           <| runner := note_inbound_other (runner d) |>))
  end.
Definition drain_deferred (d : Driver) : Driver :=
  if is_kexing (runner d) then d else drain_in_loop (deferred d) d.

(** ** Key exchange *)

Definition initiate_rekey (d : Driver) : result unit * Driver :=
  let advert := build_advert (side d) (entropy (draws d)) in
  let d := d <| draws := S (draws d) |> in
  let (r, run) := restart advert (runner d) in
  let d := d <| runner := run |> in
  let! adv := r at d in
  enqueue_all (adv_outbound adv) d.

(** [request_rekey] (the client's [~R]) *)
Definition request_rekey (d : Driver) : result unit * Driver :=
  if is_kexing (runner d) || negb (is_completed (runner d)) then (Ok (), d) else initiate_rekey d.

(** [ClientDriver::local_version] *)
Definition client_local_version (over : AlgoOverrides) : result bytes :=
  let base := LOCAL_VERSION pkg_version in
  match ao_version_addendum over with
  | None | Some [] => Ok base
  | Some a =>
      let line := base ++ bs " " ++ a in
      if List.existsb (λ b, Byte.eqb b Byte.x0d || Byte.eqb b Byte.x0a) line || (len line >? 253)
      then Err (Config "VersionAddendum: invalid identification string") else Ok line
  end.
(** [Config::local_version] of the server *)
Definition server_local_version (cfg : ServerConfig) : bytes :=
  match cfg_version_addendum cfg with
  | [] => LOCAL_VERSION pkg_version
  | a => LOCAL_VERSION pkg_version ++ bs " " ++ a
  end.

(** The verifier and versions the client's [route_kex] hands to the runner. *)
Definition client_kex_env (over : AlgoOverrides) (factory : VerifierFactory) (msg : Z) (payload : bytes)
    (d : Driver) : result (option HostKey * option Verifier * bytes * bytes) :=
  let reply := if uses_gex (runner d) then SSH_MSG_KEX_DH_GEX_REPLY else SSH_MSG_KEX_ECDH_REPLY in
  let? verifier := if msg =? reply then let? v := factory (draws d) payload (runner d) in Ok (Some v)
                   else Ok None in
  let? v_c := client_local_version over in
  Ok (None, verifier, v_c, peer_version d).

(** The host key and versions of the server's [route_kex]. *)
Definition server_kex_env (cfg : ServerConfig) (d : Driver)
    : result (option HostKey * option Verifier * bytes * bytes) :=
  let? hk := match kr_negotiated (kx_keys (runner d)) with
    | Some neg =>
        match pick_host_key (cfg_host_keys cfg) (ng_host_key neg) with
        | None => Err (Protocol "kex: no host key for negotiated algorithm")
        | Some k =>
            Ok (Some (if bytes_eqb (shk_algorithm k) (ng_host_key neg) then shk_key k
                      else default (shk_key k) (shk_upgraded_for k (ng_host_key neg))))
        end
    | None => Ok None
    end in
  Ok (hk, None, peer_version d, server_local_version cfg).

Definition route_kex (payload : bytes) (d : Driver) : result unit * Driver :=
  let! (hk, verifier, v_c, v_s) :=
    match side d with
    | ClientSide over factory =>
        match payload with
        | [] => Err (Format "empty kex payload")
        | b :: _ => client_kex_env over factory (u8 b) payload d
        end
    | ServerSide cfg => server_kex_env cfg d
    end at d in
  let '(r, (run, c)) := runner_on_packet (entropy (draws d)) payload hk verifier v_c v_s (runner d) (codec d) in
  let d := d <| runner := run |> <| codec := c |> <| draws := S (draws d) |> in
  let! adv := r at d in
  enqueue_all (adv_outbound adv) d.

(** What follows a KEX message that completes an exchange. *)
Definition kex_completed (now : Z) (d : Driver) : result unit * Driver :=
  let! d' := match dphase d with
    | Kex =>
        let? sid := ok_or (session_id (runner d)) (Protocol "kex: missing session id") in
        Ok (d <| d_session_id := sid |> <| dphase := PostKex |> <| events := events d ++ [HandshakeComplete] |>)
    | _ => Ok d
    end at d in
  let d := d' <| last_kex := Some now |> in
  let (r, d) := drain_deferred_out d in
  let! _ := r at d in
  (Ok (), drain_deferred d).

(** ** Input *)

Definition note_activity (now : Z) (d : Driver) : Driver :=
  d <| last_activity := now |> <| missed_keepalives := 0 |>.

(** [may_accept_ext_info] of the runner, and its handler. *)
Definition route_ext_info (payload : bytes) (d : Driver) : result unit * Driver :=
  let run := if is_client d && negb (authenticated d) && negb (dphase_eqb (dphase d) Kex)
             then arm_ext_info_post_auth (runner d) else runner d in
  let d := d <| runner := run |> in
  if negb (accept_ext_info_now run) then (Err (Protocol "unexpected SSH_MSG_EXT_INFO"), d) else
  let (r, run) := handle_inbound_ext_info payload run in (r, d <| runner := run |>).

Definition route_kex_msg (b : Z) (payload : bytes) (now : Z) (d : Driver) : result unit * Driver :=
  let (r, d) := if (b =? SSH_MSG_KEXINIT) && negb (is_kexing (runner d)) then initiate_rekey d else (Ok (), d) in
  let! _ := r at d in
  let (r, d) := route_kex payload d in
  let! _ := r at d in
  if is_completed (runner d) then kex_completed now d else (Ok (), d).

Definition route_other (payload : bytes) (d : Driver) : result unit * Driver :=
  if dphase_eqb (dphase d) Kex then (Err (Protocol "non-KEX message before first NEWKEYS"), d)
  else if is_kexing (runner d) then
    if negb (awaiting_peer_kexinit (runner d))
    then (Err (Protocol "non-KEX message during key re-exchange"), d) else
    let '(r, (q, n)) := defer_inbound (deferred d) (deferred_bytes d) payload in
    (r, d <| deferred := q |> <| deferred_bytes := n |>)
  else (Ok (), route_app payload (d <| runner := note_inbound_other (runner d) |>)).

Definition route_packet (payload : bytes) (now : Z) (d : Driver) : result unit * Driver :=
  let d := note_activity now d in
  let initial_kex := dphase_eqb (dphase d) Kex in
  match payload with
  | [] => route_other payload d
  | b0 :: _ =>
      let b := u8 b0 in
      let generic := (b =? 2) || (b =? 3) || (b =? 4) in
      if b =? 1 then (Err (disconnect_error payload), d)
      else if (generic || (b =? SSH_MSG_PING) || (b =? SSH_MSG_PONG)) && initial_kex then
        (generic_msg_during_initial_kex (strict_kex_enabled (runner d)), d)
      else if generic then (Ok (), d)
      else if b =? SSH_MSG_PING then
        let! pong := pong_for_ping payload at d in enqueue_payload pong d
      else if b =? SSH_MSG_PONG then (Ok (), d)
      else if b =? SSH_MSG_EXT_INFO then route_ext_info payload d
      else if is_kex_msg b then route_kex_msg b payload now d
      else route_other payload d
  end.

(** *** The identification line *)

(** [ClientDriver::scan_peer_version]; [line] is the part of the inbox read
    without meeting a line feed, [rest] the part ahead. *)
Fixpoint client_scan (line rest : bytes) (d : Driver) : result bool * Driver :=
  match rest with
  | [] =>
      let d := d <| inbox := line |> in
      if len line >? MAX_BANNER_LINE then (Err (Protocol "banner line too long"), d) else (Ok false, d)
  | b :: rest =>
      let line := line ++ [b] in
      if Byte.eqb b Byte.x0a then
        let d := d <| inbox := rest |> <| banner_total := sat_add64 (banner_total d) (len line) |> in
        if banner_total d >? MAX_BANNER_TOTAL_BYTES then (Err (Protocol "banner too large"), d)
        else if starts_with (bs "SSH-") line then
          let! parsed := parse_remote line at d in
          (Ok true, d <| peer_version := parsed |> <| dphase := Kex |>)
        else
          let d := d <| banner_lines := banner_lines d + 1 |> in
          if banner_lines d >? MAX_BANNER_LINES then (Err (Protocol "peer banner too long"), d)
          else client_scan [] rest d
      else client_scan line rest d
  end.

Definition start_runner (advert : KexInit) (s : Side) (ext : ExtInfo) (d : Driver) : result unit * Driver :=
  let run := runner_new (side_role s) advert in
  let run := match s with ClientSide _ _ => run | ServerSide cfg => set_gex_selector (cfg_gex_group_selector cfg) run end in
  let (r, run) := runner_start (set_outbound_ext_info ext run) in
  let d := d <| runner := run |> in
  let! initial := r at d in
  enqueue_all (adv_outbound initial) d.

(** [ServerDriver::start_kex] *)
Definition start_kex (cfg : ServerConfig) (d : Driver) : result unit * Driver :=
  let advert := with_ext_info_marker Server (build_server_kexinit (entropy (draws d)) cfg) in
  start_runner advert (ServerSide cfg) (server_ext_info cfg) (d <| draws := S (draws d) |>).

(** [self.inbox.iter().position(|&b| b == b'\n')]: the line up to and with
    the line feed, and what follows. *)
Fixpoint split_line (line rest : bytes) : option (bytes * bytes) :=
  match rest with
  | [] => None
  | b :: rest => if Byte.eqb b Byte.x0a then Some (line ++ [b], rest) else split_line (line ++ [b]) rest
  end.

(** [ServerDriver::scan_peer_version] *)
Definition server_scan (cfg : ServerConfig) (d : Driver) : result bool * Driver :=
  match split_line [] (inbox d) with
  | None =>
      if len (inbox d) >? MAX_BANNER_LINE then (Err (Protocol "banner line too long"), d) else (Ok false, d)
  | Some (line, rest) =>
      let d := d <| inbox := rest |> in
      let parsed := if starts_with (bs "SSH-") line then parse_remote line else Err (Protocol "") in
      match parsed with
      | Err _ =>
          (Err (Protocol "invalid SSH identification string"),
           d <| outbox := outbox d ++ [bs "Invalid SSH identification string." ++ CRLF] |>)
      | Ok parsed =>
          let (r, d) := start_kex cfg (d <| peer_version := parsed |> <| dphase := Kex |>) in
          let! _ := r at d in (Ok true, d)
      end
  end.

Definition scan_peer_version (d : Driver) : result bool * Driver :=
  match side d with
  | ClientSide _ _ => client_scan [] (inbox d) d
  | ServerSide cfg => server_scan cfg d
  end.

(** [start] of either driver. *)
Definition client_ext_info : ExtInfo :=
  ext_info_new <| ei_raw := [(bs "ext-info-in-auth@openssh.com", bs "0")] |>.
Definition client_start (over : AlgoOverrides) (factory : VerifierFactory) (now : Z) (d : Driver)
    : result unit * Driver :=
  let d := d <| last_activity := now |> in
  let! line := client_local_version over at d in
  let d := d <| outbox := outbox d ++ [line ++ CRLF] |> in
  let advert := with_ext_info_marker Client (build_default_kexinit (entropy (draws d)) over) in
  start_runner advert (ClientSide over factory) client_ext_info (d <| draws := S (draws d) |>).
Definition server_start (cfg : ServerConfig) (now : Z) (d : Driver) : result unit * Driver :=
  let d := d <| last_activity := now |> in
  (Ok (), d <| outbox := outbox d ++ [server_local_version cfg ++ CRLF] |>).
Definition start (now : Z) (d : Driver) : result unit * Driver :=
  match side d with
  | ClientSide over factory => client_start over factory now d
  | ServerSide cfg => server_start cfg now d
  end.

(** *** [handle_input] *)

(** [route_packet] on the driver with the codec of the inbox loop. *)
Definition route_decoded (now : Z) (cs : PacketCodec * Driver) (payload : bytes)
    : result unit * (PacketCodec * Driver) :=
  let (r, d) := route_packet payload now (cs.2 <| codec := cs.1 |>) in (r, (codec d, d)).

(** The decode loop; [None] cannot happen, as the loop consumes its input. *)
Definition pump_inbox (now : Z) (d : Driver) : option (result unit * Driver) :=
  match drain_inbox (route_decoded now) (S (length (inbox d))) (codec d, d) (inbox d) with
  | Some (r, (c, d'), rest) => Some (r, d' <| codec := c |> <| inbox := rest |>)
  | None => None
  end.

Definition driver_input (data : bytes) (now : Z) (d : Driver) : option (result unit * Driver) :=
  let d := d <| inbox := inbox d ++ data |> in
  if len (inbox d) >? MAX_INBOX_BYTES then Some (Err (Protocol "inbound buffer too large"), d)
  else
    match dphase d with
    | AwaitingVersion =>
        let (r, d) := scan_peer_version d in
        match r with
        | Err e => Some (Err e, d)
        | Ok false => Some (Ok (), d)
        | Ok true => pump_inbox now d
        end
    | _ => pump_inbox now d
    end.

(** ** Timers *)

(** As OpenSSH, a client re-keys only once the user is authenticated. *)
Definition rekey_due (now : Z) (d : Driver) : bool :=
  match last_kex d with
  | Some last => (negb (is_client d) || authenticated d) && should_rekey (rekey_policy d) (codec d) last now
  | None => false
  end.

Definition handle_timeout (now : Z) (d : Driver) : result unit * Driver :=
  if is_kexing (runner d) then (Ok (), d)
  else if rekey_due now d then initiate_rekey d
  else match keepalive d with
       | Some (interval, count_max) =>
           if sat_sub now (last_activity d) >=? interval then
             if missed_keepalives d >=? count_max then (Err (Protocol "keepalive: no response from peer"), d)
             else
               let (r, d) := enqueue_payload keepalive_request d in
               let! _ := r at d in
               (Ok (), d <| missed_keepalives := missed_keepalives d + 1 |> <| last_activity := now |>)
           else (Ok (), d)
       | None => (Ok (), d)
       end.

Definition next_timeout (d : Driver) : option Z :=
  match keepalive d with Some (interval, _) => Some (last_activity d + interval) | None => None end.
End Driver.
#[export] Existing Instance eta_Driver.
