(* ===== verification/DriverFacts.v ===== *)
(** * A client's session is attested by its host-key verifier

    Whatever bytes the network delivers and however the frontend calls the
    driver, a client driver that reports the handshake done, or surfaces
    application data, has had its verifier accept the host key's signature
    over a hash that covers both identification strings, both KEXINITs and
    the host key, and that hash is its session identifier. *)
From S2P Require Import Prelude Wire Text Crypto Cipher Compress Packet PacketFacts PacketSafe KexInit KexFacts.
From S2P Require Import KexHash KexMethods KexMethodFacts KexKeys Runner RunnerFacts RunnerSafe Advert Driver.

Ltac driver_simpl :=
  cbv beta iota zeta delta [fst snd set_field side dphase codec runner draws inbox outbox events deferred deferred_bytes
    deferred_out deferred_out_bytes payloads_enqueued peer_version d_session_id rekey_policy last_kex
    keepalive last_activity missed_keepalives banner_lines banner_total authenticated] in *.

Section Facts.
Context {P : CipherPrims} {CC : CompCol} {C : PureCrypto} {H : KexHash} {K : KexPrims}.
Context (entropy : nat → Rng) (pkg_version : bytes).

(** ** What a frontend may do *)

Inductive DriverOp :=
  | OpInput (data : bytes) (now : Z)
  | OpEnqueue (payload : bytes)
  | OpTimeout (now : Z)
  | OpAuthSuccess
  | OpRekey
  | OpPollTransmit
  | OpPollEvent
  | OpSetRekeyPolicy (policy : RekeyPolicy)
  | OpSetKeepalive (interval count_max : Z).

(** The driver after the call; an error is not the end of it. *)
Definition run_op (op : DriverOp) (d : Driver) : option Driver :=
  match op with
  | OpInput data now => snd <$> driver_input entropy pkg_version data now d
  | OpEnqueue payload => Some (enqueue_payload entropy payload d).2
  | OpTimeout now => Some (handle_timeout entropy now d).2
  | OpAuthSuccess => Some (notify_auth_success d)
  | OpRekey => Some (request_rekey entropy d).2
  | OpPollTransmit => Some (poll_transmit d).2
  | OpPollEvent => Some (poll_event d).2
  | OpSetRekeyPolicy policy => Some (set_rekey_policy policy d)
  | OpSetKeepalive interval count_max => Some (set_keepalive interval count_max d)
  end.

Fixpoint run_ops (ops : list DriverOp) (d : Driver) : option Driver :=
  match ops with
  | [] => Some d
  | op :: rest => match run_op op d with Some d' => run_ops rest d' | None => None end
  end.

(** A driver after [new] and [start]. *)
Definition started (s : Side) (now : Z) : Driver := (start entropy pkg_version now (driver_new entropy s now)).2.

(** ** Fields the output side leaves alone *)

Definition core_eq (d d' : Driver) : Prop :=
  side d' = side d ∧ dphase d' = dphase d ∧ runner d' = runner d ∧ events d' = events d ∧
  deferred d' = deferred d ∧ peer_version d' = peer_version d ∧ d_session_id d' = d_session_id d.

Lemma core_eq_refl d : core_eq d d.
Proof. done. Qed.
Lemma core_eq_trans d1 d2 d3 : core_eq d1 d2 → core_eq d2 d3 → core_eq d1 d3.
Proof. unfold core_eq. intuition congruence. Qed.

Lemma encode_and_queue_core payload d : core_eq d (encode_and_queue entropy payload d).2.
Proof. unfold encode_and_queue. destruct (encode _ _ _) as [[f|e] c]; by destruct d. Qed.

Lemma enqueue_payload_core payload d : core_eq d (enqueue_payload entropy payload d).2.
Proof.
  unfold enqueue_payload. destruct (_ && _).
  - destruct (_ >? _); by destruct d.
  - eapply core_eq_trans; [|apply encode_and_queue_core]. by destruct d.
Qed.

Lemma enqueue_all_core payloads d : core_eq d (enqueue_all entropy payloads d).2.
Proof.
  revert d. induction payloads as [|p rest IH]; intros d; [done|]. cbn [enqueue_all].
  pose proof (enqueue_payload_core p d). destruct (enqueue_payload _ p d) as [[u|e] d1]; [|done].
  eapply core_eq_trans; [done|apply IH].
Qed.

Lemma drain_out_loop_core q d : core_eq d (drain_out_loop entropy q d).2.
Proof.
  revert d. induction q as [|p rest IH]; intros d; [by destruct d|]. cbn [drain_out_loop].
  pose proof (encode_and_queue_core p (d <| deferred_out := rest |>)) as He.
  destruct (encode_and_queue _ p _) as [[u|e] d1]; [|by destruct d].
  eapply core_eq_trans; [|apply IH]. eapply core_eq_trans; [|done]. by destruct d.
Qed.

(** ** The invariant of a client *)

Section Client.
Context (over : AlgoOverrides) (factory : VerifierFactory).

(** The factory gave a verifier for a reply with host key and signature [hk],
    and it accepted the signature over [h]; the runner then had the KEXINITs
    [h] covers, and the host key [prior] of the session's first exchange. *)
Definition signed_reply (v_s : bytes) (prior hk : option (bytes * bytes)) (h : bytes) : Prop :=
  ∃ n payload r verify v_c, client_local_version pkg_version over = Ok v_c ∧
    factory n payload r = Ok verify ∧ initial_host_key_sig r = prior ∧ host_key_and_sig payload = hk ∧
    attests verify payload (client_ctx v_c v_s r) h.

(** [h] is the hash of a first exchange, with host key and signature [hk]. *)
Definition attested (v_s : bytes) (hk : option (bytes * bytes)) (h : bytes) : Prop := signed_reply v_s None hk h.

(** [h] is the hash of the first exchange or of a re-key after it. *)
Definition rekeyed (v_s : bytes) (hk : option (bytes * bytes)) (h : bytes) : Prop :=
  attested v_s hk h ∨ ∃ hk', signed_reply v_s hk hk' h.

Definition is_app (e : Event) : bool := match e with AppData _ => true | HandshakeComplete => false end.

Record client_inv (d : Driver) : Prop := {
  ci_side : side d = ClientSide over factory;
  ci_role : role (runner d) = Client;
  ci_phase : phase_role (runner d);
  ci_sid : ∀ sid, session_id (runner d) = Some sid → attested (peer_version d) (initial_host_key_sig (runner d)) sid;
  ci_cur : ∀ h, kr_current_h (kx_keys (runner d)) = Some h →
    rekeyed (peer_version d) (initial_host_key_sig (runner d)) h;
  ci_first : session_id (runner d) = None → initial_host_key_sig (runner d) = None;
  ci_start : dphase d = AwaitingVersion → session_id (runner d) = None ∧ kr_current_h (kx_keys (runner d)) = None;
  ci_post : dphase d = PostKex → session_id (runner d) ≠ None ∧
    attested (peer_version d) (initial_host_key_sig (runner d)) (d_session_id d);
  ci_events : dphase d ≠ PostKex → Forall (λ e, is_app e = false) (events d) ∧ deferred d = [];
}.

Lemma client_inv_core d d' : core_eq d d' → client_inv d → client_inv d'.
Proof. intros (E1 & E2 & E3 & E4 & E5 & E6 & E7) []. split; by rewrite ?E1, ?E2, ?E3, ?E4, ?E5, ?E6, ?E7. Qed.

(** A runner whose identity and session are the same. *)
Definition runner_kept (r r' : KexRunner) : Prop :=
  role r' = role r ∧ session_id r' = session_id r ∧ initial_host_key_sig r' = initial_host_key_sig r ∧
  (kr_current_h (kx_keys r') = None ∨ kr_current_h (kx_keys r') = kr_current_h (kx_keys r)) ∧
  (phase_role r → phase_role r').

Lemma client_inv_runner d run :
  runner_kept (runner d) run → client_inv d → client_inv (d <| runner := run |>).
Proof.
  intros (E1 & E2 & E3 & E4 & E5) []. destruct d. driver_simpl. split; driver_simpl; rewrite ?E1, ?E2, ?E3; auto.
  - intros h Hh. apply ci_cur0. destruct E4; congruence.
  - intros Hp. destruct (ci_start0 Hp) as [? Hc]. rewrite Hc in E4. by destruct E4.
Qed.

(** The runner is the same but for other fields. *)
Local Ltac kept := unfold runner_kept; split_and!; first [done|by left|by right].

Lemma restart_kept advert r : runner_kept r (restart advert r).2.
Proof. unfold restart. destruct (phase r); kept. Qed.

Lemma initiate_rekey_inv d : client_inv d → client_inv (initiate_rekey entropy d).2.
Proof.
  intros Hd. unfold initiate_rekey.
  pose proof (restart_kept (build_advert (side d) (entropy (draws d))) (runner d)) as Hk.
  change (runner (d <| draws := S (draws d) |>)) with (runner d).
  destruct (restart _ (runner d)) as [res run]. cbn [snd] in Hk.
  assert (H0 : client_inv (d <| draws := S (draws d) |> <| runner := run |>)).
  { eapply client_inv_core; [|apply (client_inv_runner d run Hk Hd)]. by destruct d. }
  destruct res as [adv|e]; [|done]. eapply client_inv_core; [apply enqueue_all_core|done].
Qed.

Lemma route_ext_info_inv payload d : client_inv d → client_inv (route_ext_info payload d).2.
Proof.
  intros Hd. unfold route_ext_info.
  match goal with |- context [if ?b then arm_ext_info_post_auth _ else _] =>
    set (run := if b then arm_ext_info_post_auth (runner d) else runner d) end.
  assert (Hk : runner_kept (runner d) run).
  { unfold run, arm_ext_info_post_auth. destruct (_ && _); [|kept].
    destruct (role (runner d)), (ext_info_enabled (runner d)); kept. }
  clearbody run. destruct (accept_ext_info_now run); cbn [negb]; [|by apply client_inv_runner].
  destruct (handle_inbound_ext_info payload run) as [res run'] eqn:E.
  assert (Hk' : runner_kept run run').
  { unfold handle_inbound_ext_info in E. destruct (negb _); [injection E as _ <-; kept|].
    destruct (ext_info_decode payload); injection E as _ <-; kept. }
  cbn [snd]. apply client_inv_runner; [done|]. by apply client_inv_runner.
Qed.

Lemma client_inv_hashed d run payload h :
  hashed (runner d) run h → pins (Some payload) (runner d) run → phase_role run → dphase d ≠ AwaitingVersion →
  signed_reply (peer_version d) (initial_host_key_sig (runner d)) (host_key_and_sig payload) h →
  client_inv d → client_inv (d <| runner := run |>).
Proof.
  intros (R1 & R2 & R3) Hpin Hph Hp Hs []. unfold pins in Hpin.
  destruct d. driver_simpl. split; driver_simpl; rewrite ?R1, ?R2, ?R3; try done.
  - intros sid [= <-]. destruct (session_id runner) eqn:Es; cbn; rewrite Hpin; [by apply ci_sid0|].
    rewrite (ci_first0 eq_refl) in Hs. done.
  - intros h' [= <-]. destruct (session_id runner) eqn:Es; rewrite Hpin; [right; by eexists|].
    left. by rewrite (ci_first0 eq_refl) in Hs.
  - intros Hq. destruct (ci_post0 Hq) as [Hn ?]. destruct (session_id runner); [by rewrite Hpin|done].
Qed.

Lemma route_kex_inv payload d :
  client_inv d → dphase d ≠ AwaitingVersion → client_inv (route_kex entropy pkg_version payload d).2.
Proof.
  intros Hd Hp. unfold route_kex. rewrite (ci_side d Hd).
  destruct payload as [|b rest]; [done|]. unfold client_kex_env.
  match goal with |- context [match ?v with Ok verifier => _ | Err _ => _ end] =>
    match v with if _ then _ else _ => set (ver := v) end end.
  assert (Hv : ∀ verify, ver = Ok (Some verify) → factory (draws d) (b :: rest) (runner d) = Ok verify).
  { intros verify. unfold ver. destruct (_ =? _); [|done]. destruct (factory _ _ _); [|done]. by intros [= ->]. }
  clearbody ver. destruct ver as [ver|]; [|done].
  destruct (client_local_version pkg_version over) as [v_c|] eqn:Ev; [|done].
  destruct (runner_on_packet _ _ _ _ _ _ _ _) as [res [run c]] eqn:E.
  destruct (on_packet_ok _ _ _ _ _ _ _ _ _ _ _ E (ci_phase d Hd)) as [Hs Hph].
  assert (H0 : client_inv (d <| runner := run |> <| codec := c |> <| draws := S (draws d) |>)).
  { eapply client_inv_core with (d := d <| runner := run |>); [by destruct d|].
    destruct Hs as [(R1 & R2 & R3 & R4 & _)|(h & Hh & Ha)]; [apply client_inv_runner; [split_and!; auto|done]|].
    destruct (Ha (ci_role d Hd)) as (Hpin & verify & -> & Hat).
    assert (Hsr : signed_reply (peer_version d) (initial_host_key_sig (runner d)) (host_key_and_sig (b :: rest)) h)
      by (exists (draws d), (b :: rest), (runner d), verify, v_c; auto).
    by eapply client_inv_hashed. }
  destruct res as [adv|e]; [|done]. eapply client_inv_core; [apply enqueue_all_core|done].
Qed.

(** Steps that leave the phase of the connection alone. *)
Lemma initiate_rekey_phase d : dphase (initiate_rekey entropy d).2 = dphase d.
Proof.
  unfold initiate_rekey. destruct (restart _ _) as [[adv|e] run]; [|by destruct d].
  destruct (enqueue_all_core (adv_outbound adv) (d <| draws := S (draws d) |> <| runner := run |>))
    as (_ & -> & _). by destruct d.
Qed.
Lemma route_kex_phase payload d : dphase (route_kex entropy pkg_version payload d).2 = dphase d.
Proof.
  unfold route_kex.
  match goal with |- dphase (match ?m with Ok _ => _ | Err _ => _ end).2 = _ => destruct m as [[[[hk ver] vc] vs]|] end;
    [|done].
  destruct (runner_on_packet _ _ _ _ _ _ _ _) as [[adv|e] [run c]]; [|by destruct d].
  destruct (enqueue_all_core (adv_outbound adv)
    (d <| runner := run |> <| codec := c |> <| draws := S (draws d) |>)) as (_ & -> & _). by destruct d.
Qed.

Lemma drain_in_loop_fields q d :
  let d' := drain_in_loop q d in
  side d' = side d ∧ dphase d' = dphase d ∧ runner_kept (runner d) (runner d') ∧
  peer_version d' = peer_version d ∧ d_session_id d' = d_session_id d.
Proof.
  revert d. induction q as [|p rest IH]; intros d; [split_and!; first [done|kept]|]. cbn [drain_in_loop].
  destruct (IH (route_app p (d <| deferred := rest |> <| deferred_bytes := sat_sub (deferred_bytes d) (len p) |>
     <| runner := note_inbound_other (runner d) |>))) as (E1 & E2 & E3 & E4 & E5).
  cbn zeta. rewrite E1, E2, E4, E5. destruct d. split; [done|]. split; [done|]. split; [|done].
  destruct E3 as (F1 & F2 & F3 & F4 & F5). by split_and!.
Qed.

Lemma client_inv_post d d' :
  side d' = side d → dphase d' = dphase d → runner_kept (runner d) (runner d') →
  peer_version d' = peer_version d → d_session_id d' = d_session_id d → dphase d = PostKex →
  client_inv d → client_inv d'.
Proof.
  intros E1 E2 (R1 & R2 & R3 & R4 & R5) E4 E5 Hp [].
  split; rewrite ?E1, ?E2, ?E4, ?E5, ?R1, ?R2, ?R3; auto; try (by rewrite Hp).
  intros h Hh. apply ci_cur0. destruct R4; congruence.
Qed.

Lemma kex_completed_inv now d :
  client_inv d → dphase d ≠ AwaitingVersion →
  client_inv (kex_completed entropy now d).2 ∧ dphase (kex_completed entropy now d).2 ≠ AwaitingVersion.
Proof.
  intros Hd Hp. unfold kex_completed.
  assert (Hpost : ∀ d1, client_inv d1 → dphase d1 = PostKex →
    let (r, d2) := drain_deferred_out entropy (d1 <| last_kex := Some now |>) in
    client_inv (let! _ := r at d2 in (Ok (), drain_deferred d2)).2 ∧
    dphase (let! _ := r at d2 in (Ok (), drain_deferred d2)).2 ≠ AwaitingVersion).
  { intros d1 H1 Hp1. unfold drain_deferred_out.
    pose proof (drain_out_loop_core (deferred_out (d1 <| last_kex := Some now |>)) (d1 <| last_kex := Some now |>)) as Hc.
    destruct (drain_out_loop _ _ _) as [r d2]. cbn [snd] in Hc.
    assert (H2 : client_inv d2).
    { eapply client_inv_core; [exact Hc|]. eapply client_inv_core; [|exact H1]. by destruct d1. }
    assert (Hp2 : dphase d2 = PostKex) by (destruct Hc as (_ & -> & _); by destruct d1).
    destruct r as [u|e]; cbn [snd]; [|by rewrite Hp2]. unfold drain_deferred.
    destruct (is_kexing _); [by rewrite Hp2|].
    destruct (drain_in_loop_fields (deferred d2) d2) as (E1 & E2 & E3 & E4 & E5).
    split; [by eapply client_inv_post|by rewrite E2, Hp2]. }
  destruct (dphase d) eqn:Ed; [done| |].
  - destruct (session_id (runner d)) as [sid|] eqn:Es; cbn [ok_or]; [|split; [done|cbn; by rewrite Ed]].
    match goal with |- context [drain_deferred_out _ (?x <| last_kex := _ |>)] =>
      specialize (Hpost x); destruct (drain_deferred_out _ (x <| last_kex := _ |>)) as [r d2] end.
    apply Hpost; [|by destruct d]. destruct Hd, d. driver_simpl.
    split; driver_simpl; try done. intros _. rewrite Es. split; [done|by apply ci_sid0].
  - specialize (Hpost d Hd Ed). by destruct (drain_deferred_out _ _) as [r d2].
Qed.

(** The invariant past the identification line. *)
Definition live (d : Driver) : Prop := client_inv d ∧ dphase d ≠ AwaitingVersion.

Lemma live_core d d' : core_eq d d' → live d → live d'.
Proof. intros Hc [Hi Hp]. split; [by eapply client_inv_core|]. by destruct Hc as (_ & -> & _). Qed.

Lemma route_kex_msg_inv b payload now d :
  live d → live (route_kex_msg entropy pkg_version b payload now d).2.
Proof.
  intros [Hi Hp]. unfold route_kex_msg.
  assert (H0 : ∀ d1, live d1 →
    live (let (r, d2) := route_kex entropy pkg_version payload d1 in
          let! _ := r at d2 in if is_completed (runner d2) then kex_completed entropy now d2 else (Ok (), d2)).2).
  { intros d1 [Hi1 Hp1]. pose proof (route_kex_inv payload d1 Hi1 Hp1) as Hi2.
    pose proof (route_kex_phase payload d1) as Hp2.
    destruct (route_kex _ _ payload d1) as [[u|e] d2]; cbn [snd] in *; [|split; [done|by rewrite Hp2]].
    destruct (is_completed _); [|split; [done|cbn; by rewrite Hp2]].
    apply kex_completed_inv; [done|by rewrite Hp2]. }
  destruct (_ && _); [|by apply H0].
  pose proof (initiate_rekey_inv d Hi) as Hi1. pose proof (initiate_rekey_phase d) as Hp1.
  destruct (initiate_rekey entropy d) as [[u|e] d1]; cbn [snd] in *; [|split; [done|by rewrite Hp1]].
  apply H0. split; [done|by rewrite Hp1].
Qed.

Lemma route_other_inv payload d : live d → live (route_other payload d).2.
Proof.
  intros [Hi Hp]. unfold route_other. destruct (dphase d) eqn:Ed; cbn [dphase_eqb]; [done|by split; [|cbn; rewrite Ed]|].
  destruct (is_kexing (runner d)).
  - destruct (negb _); [by split; [|cbn; rewrite Ed]|].
    destruct (defer_inbound _ _ _) as [r [q n]]. split; [|destruct d; driver_simpl; by subst].
    eapply client_inv_post; [..|exact Hi]; try done; destruct d; first [done|kept].
  - split; [|destruct d; driver_simpl; cbn; by subst].
    eapply client_inv_post; [..|exact Hi]; try done; destruct d; first [done|kept].
Qed.

Lemma route_ext_info_phase payload d : dphase (route_ext_info payload d).2 = dphase d.
Proof.
  unfold route_ext_info.
  match goal with |- context [d <| runner := ?r |>] => generalize r; intros run end.
  destruct (negb _); [by destruct d|].
  destruct (handle_inbound_ext_info _ _). by destruct d.
Qed.

Lemma route_packet_inv payload now d : live d → live (route_packet entropy pkg_version payload now d).2.
Proof.
  intros Hl. unfold route_packet.
  assert (H0 : live (note_activity now d)) by (eapply live_core; [|exact Hl]; by destruct d).
  revert H0. generalize (note_activity now d). clear d Hl. intros d Hl.
  destruct payload as [|b0 rest]; [by apply route_other_inv|].
  destruct (u8 b0 =? 1); [done|]. destruct (_ && _); [done|]. destruct (_ || _); [done|].
  destruct (_ =? SSH_MSG_PING).
  { destruct (pong_for_ping _) as [pong|]; [|done]. eapply live_core; [apply enqueue_payload_core|done]. }
  destruct (_ =? SSH_MSG_PONG); [done|].
  destruct (_ =? SSH_MSG_EXT_INFO).
  { destruct Hl. split; [by apply route_ext_info_inv|by rewrite route_ext_info_phase]. }
  destruct (is_kex_msg _); [by apply route_kex_msg_inv|by apply route_other_inv].
Qed.

Lemma drain_inbox_inv now fuel c d unread r cs' rest :
  live d → drain_inbox (route_decoded entropy pkg_version now) fuel (c, d) unread = Some (r, cs', rest) → live cs'.2.
Proof.
  revert c d unread. induction fuel as [|fuel IH]; intros c d unread Hl; [done|]. cbn [drain_inbox fst snd].
  destruct (decode c unread) as [[[[payload n]|]|e] c1]; try (by intros [= <- <- <-]).
  unfold route_decoded at 1. cbn [fst snd].
  pose proof (route_packet_inv payload now (d <| codec := c1 |>)) as Hr.
  destruct (route_packet _ _ _ _ _) as [[u|e] d1]; cbn [snd] in *.
  - apply IH. apply Hr. eapply live_core; [|exact Hl]. by destruct d.
  - intros [= <- <- <-]. apply Hr. eapply live_core; [|exact Hl]. by destruct d.
Qed.

Lemma pump_inbox_inv now d r d' : live d → pump_inbox entropy pkg_version now d = Some (r, d') → live d'.
Proof.
  intros Hl. unfold pump_inbox. destruct (drain_inbox _ _ _ _) as [[[r1 [c d1]] rest]|] eqn:E; [|done].
  intros [= <- <-]. apply drain_inbox_inv in E; [|done]. eapply live_core; [|exact E]. by destruct d1.
Qed.

Lemma client_scan_inv line rest d :
  client_inv d → dphase d = AwaitingVersion →
  client_inv (client_scan line rest d).2 ∧
  ((client_scan line rest d).1 = Ok true → dphase (client_scan line rest d).2 = Kex).
Proof.
  revert line d. induction rest as [|b rest IH]; intros line d Hi Hp; cbn [client_scan].
  - assert (client_inv (d <| inbox := line |>)) by (eapply client_inv_core; [|exact Hi]; by destruct d).
    by destruct (_ >? _).
  - destruct (Byte.eqb b Byte.x0a); [|by apply IH].
    set (d1 := d <| inbox := rest |> <| banner_total := _ |>).
    assert (H1 : client_inv d1) by (eapply client_inv_core; [|exact Hi]; by destruct d).
    assert (Hp1 : dphase d1 = AwaitingVersion) by (by destruct d).
    clearbody d1. destruct (_ >? _); [done|]. destruct (starts_with _ _).
    + destruct (parse_remote _) as [v|]; [|done]. split; [|by destruct d1].
      destruct H1, d1. driver_simpl. split; driver_simpl; try done.
      * destruct (ci_start0 Hp1). intros sid Hs. congruence.
      * destruct (ci_start0 Hp1). intros h Hs. congruence.
      * intros _. apply ci_events0. by rewrite Hp1.
    + set (d2 := d1 <| banner_lines := _ |>).
      assert (H2 : client_inv d2) by (eapply client_inv_core; [|exact H1]; by destruct d1).
      assert (Hp2 : dphase d2 = AwaitingVersion) by (by destruct d1).
      clearbody d2. destruct (_ >? _); [done|]. by apply IH.
Qed.

Lemma driver_input_inv data now d r d' :
  client_inv d → driver_input entropy pkg_version data now d = Some (r, d') → client_inv d'.
Proof.
  intros Hi. unfold driver_input.
  assert (H0 : client_inv (d <| inbox := inbox d ++ data |>)) by (eapply client_inv_core; [|exact Hi]; by destruct d).
  revert H0. generalize (d <| inbox := inbox d ++ data |>). clear d Hi. intros d Hi.
  destruct (_ >? _); [by intros [= <- <-]|].
  destruct (dphase d) eqn:Ed; [|intros E; apply pump_inbox_inv in E as [? _]; [done|split; [done|by rewrite Ed]]..].
  unfold scan_peer_version. rewrite (ci_side d Hi).
  destruct (client_scan_inv [] (inbox d) d Hi Ed) as [Hi1 Hp1].
  destruct (client_scan [] (inbox d) d) as [[[|]|e] d1]; cbn [fst snd] in *; [|by intros [= <- <-]..].
  intros E. apply pump_inbox_inv in E as [? _]; [done|]. split; [done|by rewrite Hp1].
Qed.

Lemma run_op_inv op d d' : client_inv d → run_op op d = Some d' → client_inv d'.
Proof.
  intros Hi. destruct op as [data now|payload|now| | | | |policy|i c]; cbn [run_op].
  - destruct (driver_input _ _ data now d) as [[r d1]|] eqn:E; [|done]. intros [= <-].
    by eapply driver_input_inv.
  - intros [= <-]. eapply client_inv_core; [apply enqueue_payload_core|done].
  - intros [= <-]. unfold handle_timeout. destruct (is_kexing _); [done|].
    destruct (rekey_due now d); [by apply initiate_rekey_inv|].
    destruct (keepalive d) as [[i c]|]; [|done]. destruct (_ >=? _); [|done]. destruct (_ >=? _); [done|].
    pose proof (enqueue_payload_core keepalive_request d) as Hc.
    destruct (enqueue_payload _ _ d) as [[u|e] d1]; cbn [snd] in *; [|by eapply client_inv_core].
    eapply client_inv_core; [|by eapply client_inv_core]. by destruct d1.
  - intros [= <-]. unfold notify_auth_success. rewrite (ci_side d Hi).
    eapply client_inv_core; [|apply (client_inv_runner d (arm_ext_info_post_auth (runner d))); [|done]];
      [by destruct d|]. unfold arm_ext_info_post_auth. destruct (role (runner d)), (ext_info_enabled (runner d)); kept.
  - intros [= <-]. unfold request_rekey. destruct (_ || _); [done|]. by apply initiate_rekey_inv.
  - intros [= <-]. unfold poll_transmit. destruct (outbox d); [done|]. eapply client_inv_core; [|done]. by destruct d.
  - intros [= <-]. unfold poll_event. destruct (events d) as [|e es] eqn:Ee; [done|].
    destruct Hi, d. driver_simpl. subst. split; driver_simpl; try done. intros Hp.
    destruct (ci_events0 Hp) as [Hf ?]. by inversion Hf.
  - intros [= <-]. eapply client_inv_core; [|done]. by destruct d.
  - intros [= <-]. eapply client_inv_core; [|done]. by destruct d.
Qed.

Lemma run_ops_inv ops d d' : client_inv d → run_ops ops d = Some d' → client_inv d'.
Proof.
  revert d. induction ops as [|op ops IH]; intros d Hi; cbn [run_ops]; [by intros [= <-]|].
  destruct (run_op op d) as [d1|] eqn:E; [|done]. apply IH. by eapply run_op_inv.
Qed.

Lemma started_inv now : client_inv (started (ClientSide over factory) now).
Proof.
  unfold started, start. cbn [driver_new side]. unfold client_start.
  destruct (client_local_version pkg_version over) as [line|]; [|by split].
  unfold start_runner, runner_start. cbn [side_role runner_new set_outbound_ext_info phase].
  eapply client_inv_core; [apply enqueue_all_core|]. by split.
Qed.

(** A client that has something to show is past its first exchange. *)
Lemma done_post d :
  client_inv d → handshake_done d = true ∨ (∃ payload, AppData payload ∈ events d) → dphase d = PostKex.
Proof.
  intros Hi Hd. unfold handshake_done in Hd.
  destruct (dphase d) eqn:Ed; [exfalso..|done];
    (destruct Hd as [?|(p & Hp)]; [done|]); destruct (ci_events _ Hi) as [Hf _]; try (by rewrite Ed);
    by apply (proj1 (list.Forall_forall _ _) Hf) in Hp.
Qed.
End Client.
End Facts.

(** C5: A client never takes an unauthenticated session.  Start a client
    driver with any configuration and entropy, and let a frontend call it in
    any order with any bytes from the network (injected, reordered or
    truncated), carrying on after errors.  If the driver then reports the
    handshake done, or holds application data to surface, its verifier
    factory had returned a verifier for a reply of the first exchange, and
    that verifier accepted the signature over the driver's session identifier,
    which is a hash of a transcript that begins with both identification
    strings (ours and the line received), the two KEXINITs of the runner and
    the reply's host key; the runner still holds that host key and signature,
    the ones a re-key is compared with. *)
Theorem client_session_attested {P : CipherPrims} {CC : CompCol} {C : PureCrypto} {H : KexHash} {K : KexPrims}
    entropy pkg_version over factory now ops d :
  run_ops entropy pkg_version ops (started entropy pkg_version (ClientSide over factory) now) = Some d →
  handshake_done d = true ∨ (∃ payload, AppData payload ∈ events d) →
  attested pkg_version over factory (peer_version d) (initial_host_key_sig (runner d)) (d_session_id d).
Proof.
  intros Hr Hd.
  pose proof (run_ops_inv entropy pkg_version over factory _ _ _ (started_inv entropy pkg_version over factory now) Hr) as Hi.
  by apply (ci_post _ _ _ _ Hi), (done_post _ _ _ _ Hi).
Qed.
