(* ===== verification/DriverRun.v ===== *)
(** * Two drivers complete the handshake

    A client and a server driver wired back to back, as the tests of
    src/driver/mod.rs wire them: [pump] delivers the frames of one to the
    other until both are quiet.  Whatever the method negotiated and the
    entropy of both, the handshake completes at both ends, with the same
    session identifier and codecs that read each other's packets. *)
From S2P Require Import Prelude Wire Text Crypto Cipher Compress Packet PacketFacts PacketSafe KexInit KexFacts.
From S2P Require Import KexHash KexMethods KexMethodFacts KexKeys Runner RunnerFacts RunnerSafe Advert Driver.
From S2P Require Import DriverFacts.

(** ** One direction of a codec *)

Section Views.
Context {P : CipherPrims} {L : CipherLaws P} {CC : CompCol}.

Definition tx_view (c : PacketCodec) := (seq_out c, outbound c, outbound_compress c).
Definition rx_view (c : PacketCodec) := (seq_in c, inbound c, pending_first_block c, inbound_decompress c).

Lemma encode_rx c payload rng r c' : encode c payload rng = (r, c') → rx_view c' = rx_view c.
Proof.
  unfold encode, encode_compress. destruct (_ && _).
  - destruct (compress _ _) as [[z|e] oc]; [|by intros [= <- <-]].
    destruct (encode_slot _ _ _ _) as [[f|e] sl]; by intros [= <- <-].
  - destruct (encode_slot _ _ _ _) as [[f|e] sl]; by intros [= <- <-].
Qed.

Lemma decode_tx c buf r c' : decode c buf = (r, c') → tx_view c' = tx_view c.
Proof.
  unfold decode, decode_decompress. destruct (decode_slot _ _ _ _) as [[[[p n]|]|e] [sl pd]]; try (by intros [= <- <-]).
  destruct (_ && _); [|by intros [= <- <-]].
  destruct (decompress _ _) as [[z|e] oc]; by intros [= <- <-].
Qed.

Lemma paired_views R tx rx tx' rx' :
  tx_view tx' = tx_view tx → rx_view rx' = rx_view rx → paired R tx rx → paired R tx' rx'.
Proof. intros [= E1 E2 E3] [= F1 F2 F3 F4] []. split; by rewrite ?E1, ?E2, ?E3, ?F1, ?F2, ?F3, ?F4. Qed.

(** The receiver is between packets. *)
Definition rx_idle (c : PacketCodec) : Prop := slot_wf (inbound c) ∧ pending_first_block c = None.

Lemma paired_rx_idle R tx rx : paired R tx rx → rx_idle rx.
Proof. intros Hp. split; [rewrite (pair_slot _ _ _ Hp); apply Hp|apply Hp]. Qed.

Lemma rx_idle_decode c : rx_idle c → ∃ c', decode c [] = (Ok None, c') ∧ tx_view c' = tx_view c ∧ rx_view c' = rx_view c.
Proof.
  intros [Hw Hp]. unfold decode. rewrite Hp, decode_slot_nil by done. eexists. split; [done|].
  split; [done|]. unfold rx_view. cbn. by rewrite Hp.
Qed.

(** [frame] is [payload] as [c] sends it. *)
Definition enc (c : PacketCodec) (payload frame : bytes) (c' : PacketCodec) : Prop :=
  ∃ rng, encode c payload rng = (Ok frame, c').

(** Nothing is encrypted or compressed. *)
Definition clear (c : PacketCodec) : Prop := outbound c = SlotNone ∧ compressing (outbound_compress c) = false.

Lemma clear_encodable c payload : clear c → len payload < MAX_ENCODABLE_PAYLOAD → encodable c payload.
Proof. intros [E1 E2] Hl. split; [by rewrite E1|]. split; [done|]. split; [by apply Z.ltb_lt|by rewrite E1]. Qed.

Lemma enc_clear c payload frame c' : enc c payload frame c' → clear c → clear c'.
Proof.
  intros [rng E] [E1 E2]. apply encode_fields in E as (z & c1 & Ec & Es & _ & Eo).
  apply encode_compress_fields in Ec as (_ & _ & Hz). rewrite E2 in Hz. destruct Hz as [_ Hz].
  rewrite E1 in Es. cbn [encode_slot] in Es. injection Es as _ Es. split; [done|]. by rewrite Eo, Hz.
Qed.

Lemma enc_rx c payload frame c' : enc c payload frame c' → rx_view c' = rx_view c.
Proof. intros [rng E]. by eapply encode_rx. Qed.

(** A frame delivered to the receiver that expects it. *)
Lemma deliver_frame R tx rx payload frame tx' :
  compression_sync R → paired R tx rx → enc tx payload frame tx' →
  0 < len frame < MAX_PACKET_LEN ∧
  ∃ rx', decode rx frame = (Ok (Some (payload, len frame)), rx') ∧ paired R tx' rx' ∧ tx_view rx' = tx_view rx ∧
    seq_in rx' = wrap32 (seq_in rx + 1).
Proof.
  intros HR Hp [rng E]. pose proof (paired_expects R HR _ _ _ _ _ _ Hp E) as He.
  destruct (expects_full R _ _ _ _ [] He) as (rx' & Ed & Hp'). rewrite app_nil_r in Ed.
  split; [by destruct He as (z & _ & _ & _ & Hl & _)|]. exists rx'. split; [done|]. split; [done|].
  split; [by eapply decode_tx|]. rewrite (pair_seq _ _ _ Hp'), (pair_seq _ _ _ Hp).
  by apply encode_fields in E as (_ & _ & _ & _ & Hs & _).
Qed.
End Views.

(** ** A driver's steps *)

Section Drivers.
Context {P : CipherPrims} {L : CipherLaws P} {CC : CompCol} {C : PureCrypto} {H : KexHash} {K : KexPrims}.
Context (entropy : nat → Rng) (pkg_version : bytes).

Record dst (d : Driver) (s : Side) (ph : DPhase) (run : KexRunner) (c : PacketCodec) (pv : bytes)
    (out : list bytes) (ev : list Event) : Prop := {
  dst_side : side d = s; dst_phase : dphase d = ph; dst_runner : runner d = run; dst_codec : codec d = c;
  dst_peer : peer_version d = pv; dst_out : outbox d = out; dst_events : events d = ev;
  dst_deferred : deferred d = []; dst_deferred_out : deferred_out d = []
}.

Lemma dst_codec_set d s ph run c c' pv out ev :
  dst d s ph run c pv out ev → dst (d <| codec := c' |>) s ph run c' pv out ev.
Proof. intros []. by destruct d. Qed.

(** A payload that may be sent during a key exchange. *)
Definition transport_msg (payload : bytes) : Prop := ∃ b rest, payload = b :: rest ∧ 1 ≤ u8 b ≤ 49.

Lemma enqueue_ok d s ph run c pv out ev payload :
  dst d s ph run c pv out ev → transport_msg payload → encodable c payload →
  ∃ d' f c', enqueue_payload entropy payload d = (Ok (), d') ∧ enc c payload f c' ∧
    dst d' s ph run c' pv (out ++ [f]) ev ∧ d_session_id d' = d_session_id d ∧ inbox d' = inbox d.
Proof.
  intros Hd (b & rest & -> & Hb) He. unfold enqueue_payload.
  assert (Hm : may_send_during_kex (u8 b) = true) by (apply andb_true_iff; split; apply Z.leb_le; lia).
  rewrite Hm. cbn [negb andb].
  unfold encode_and_queue.
  destruct (encode_total c (b :: rest) (entropy (draws d)) He) as (f & c' & E & _).
  destruct Hd, d. driver_simpl. subst. rewrite E. eexists _, f, c'. split; [reflexivity|].
  split; [by eexists|]. by repeat split.
Qed.

Lemma enqueue_all_ok d s ph run c pv out ev payloads :
  dst d s ph run c pv out ev → clear c → Forall (λ p, transport_msg p ∧ len p < MAX_ENCODABLE_PAYLOAD) payloads →
  ∃ d' l c', enqueue_all entropy payloads d = (Ok (), d') ∧ sent c l c' ∧ fst <$> l = payloads ∧
    dst d' s ph run c' pv (out ++ (snd <$> l)) ev ∧ d_session_id d' = d_session_id d ∧ inbox d' = inbox d.
Proof.
  intros Hd Hc Hall. revert d c out Hd Hc. induction Hall as [|p ps [Ht Hl] _ IH]; intros d c out Hd Hc.
  - exists d, [], c. split; [done|]. split; [constructor|]. cbn. rewrite app_nil_r. done.
  - destruct (enqueue_ok d s ph run c pv out ev p Hd Ht (clear_encodable _ _ Hc Hl)) as (d1 & f & c1 & E & He & Hd1 & S1 & I1).
    destruct (IH d1 c1 (out ++ [f]) Hd1 (enc_clear _ _ _ _ He Hc)) as (d2 & l & c2 & E2 & Hs & Hf & Hd2 & S2 & I2).
    exists d2, ((p, f) :: l), c2. cbn [enqueue_all]. rewrite E. split; [exact E2|].
    destruct He as [rng He]. split; [by econstructor|]. cbn. rewrite Hf. split; [done|].
    rewrite <- app_assoc in Hd2. split; [exact Hd2|]. by rewrite S2, I2.
Qed.

(** A KEX message through [route_packet], with what the runner answers. *)
Definition kex_env (s : Side) (msg : Z) (payload : bytes) (d : Driver) :=
  match s with
  | ClientSide over factory => client_kex_env pkg_version over factory msg payload d
  | ServerSide cfg => server_kex_env pkg_version cfg d
  end.

Lemma route_kex_ok d s ph run c pv out ev b rest hk ver vc vs adv run' c' d' :
  dst d s ph run c pv out ev → kex_env s (u8 b) (b :: rest) d = Ok (hk, ver, vc, vs) →
  runner_on_packet (entropy (draws d)) (b :: rest) hk ver vc vs run c = (Ok adv, (run', c')) →
  enqueue_all entropy (adv_outbound adv) (d <| runner := run' |> <| codec := c' |> <| draws := S (draws d) |>) = (Ok (), d') →
  route_kex entropy pkg_version (b :: rest) d = (Ok (), d').
Proof.
  intros [] He Hr Hq. unfold route_kex. rewrite dst_side0.
  assert (E : (match s with ClientSide over factory => client_kex_env pkg_version over factory (u8 b) (b :: rest) d
    | ServerSide cfg => server_kex_env pkg_version cfg d end) = Ok (hk, ver, vc, vs)) by (by destruct s).
  rewrite E, dst_runner0, dst_codec0, Hr. exact Hq.
Qed.

(** The byte of a KEX message; KEXINIT when ours is out. *)
Definition kex_byte (run : KexRunner) (b : byte) : Prop :=
  is_kex_msg (u8 b) = true ∧ (u8 b = SSH_MSG_KEXINIT → is_kexing run = true).

Lemma dst_touch d s ph run c pv out ev now :
  dst d s ph run c pv out ev → dst (note_activity now d) s ph run c pv out ev.
Proof. intros []. by destruct d. Qed.

(** A KEX message is routed to [route_kex_msg]. *)
Lemma route_packet_kex d b rest now :
  is_kex_msg (u8 b) = true →
  route_packet entropy pkg_version (b :: rest) now d =
  route_kex_msg entropy pkg_version (u8 b) (b :: rest) now (note_activity now d).
Proof.
  intros Hk. unfold route_packet. unfold is_kex_msg in Hk.
  assert (Hb : u8 b = 20 ∨ u8 b = 21 ∨ 30 ≤ u8 b ≤ 49) by (zbool; lia).
  rewrite !(proj2 (Z.eqb_neq (u8 b) _)) by (unfold SSH_MSG_PING, SSH_MSG_PONG, SSH_MSG_EXT_INFO; lia).
  cbn [orb andb]. unfold is_kex_msg. by rewrite Hk.
Qed.

Lemma kex_msg_start d run b rest now :
  runner d = run → kex_byte run b →
  route_kex_msg entropy pkg_version (u8 b) (b :: rest) now d =
  (let (r, d) := route_kex entropy pkg_version (b :: rest) d in
   let! _ := r at d in
   if is_completed (runner d) then kex_completed entropy now d else (Ok (), d)).
Proof.
  intros Er [_ Hk]. unfold route_kex_msg. rewrite Er.
  destruct (u8 b =? SSH_MSG_KEXINIT) eqn:E; [|done]. apply Z.eqb_eq in E. by rewrite (Hk E).
Qed.

Lemma route_quiet d s ph run c pv out ev b rest now hk ver vc vs outs run' :
  dst d s ph run c pv out ev → kex_byte run b →
  kex_env s (u8 b) (b :: rest) (note_activity now d) = Ok (hk, ver, vc, vs) →
  runner_on_packet (entropy (draws d)) (b :: rest) hk ver vc vs run c = (Ok (adv outs), (run', c)) →
  is_completed run' = false → clear c → Forall (λ p, transport_msg p ∧ len p < MAX_ENCODABLE_PAYLOAD) outs →
  ∃ d' l c', route_packet entropy pkg_version (b :: rest) now d = (Ok (), d') ∧ sent c l c' ∧ fst <$> l = outs ∧
    dst d' s ph run' c' pv (out ++ (snd <$> l)) ev ∧ inbox d' = inbox d.
Proof.
  intros Hd Hk Henv Hr Hc Hcl Hout. rewrite route_packet_kex by apply Hk.
  pose proof (dst_touch _ _ _ _ _ _ _ _ now Hd) as Hd1.
  rewrite (kex_msg_start _ run) by (first [apply Hd1 | done]).
  set (d1 := note_activity now d) in *. assert (Edr : draws d1 = draws d) by done.
  assert (Ein : inbox d1 = inbox d) by done. clearbody d1.
  destruct (enqueue_all_ok (d1 <| runner := run' |> <| codec := c |> <| draws := S (draws d1) |>) s ph run' c pv out ev outs)
    as (d2 & l & c' & Eq & Hs & Hl & Hd2 & _ & Hi2); [destruct Hd1, d1; by split|done..|].
  rewrite (route_kex_ok d1 s ph run c pv out ev b rest hk ver vc vs (adv outs) run' c d2);
    [|done|exact Henv|by rewrite Edr|done].
  rewrite (dst_runner _ _ _ _ _ _ _ _ Hd2), Hc. exists d2, l, c'. do 4 (split; [done|]).
  rewrite Hi2. by destruct d1.
Qed.

(** The peer's NEWKEYS, which ends the first exchange. *)
Lemma route_complete d s run c pv out ev b rest now hk ver vc vs outs run' c' sid :
  dst d s Kex run c pv out ev → kex_byte run b →
  kex_env s (u8 b) (b :: rest) (note_activity now d) = Ok (hk, ver, vc, vs) →
  runner_on_packet (entropy (draws d)) (b :: rest) hk ver vc vs run c =
    (Ok {| adv_outbound := outs; adv_completed := true |}, (run', c')) →
  is_completed run' = true → session_id run' = Some sid →
  (outs = [] ∨ ∃ p, outs = [p] ∧ transport_msg p ∧ encodable c' p) →
  ∃ d' l c2, route_packet entropy pkg_version (b :: rest) now d = (Ok (), d') ∧ sent c' l c2 ∧ fst <$> l = outs ∧
    dst d' s PostKex run' c2 pv (out ++ (snd <$> l)) (ev ++ [HandshakeComplete]) ∧
    d_session_id d' = sid ∧ inbox d' = inbox d.
Proof.
  intros Hd Hk Henv Hr Hc Hsid Hout. rewrite route_packet_kex by apply Hk.
  pose proof (dst_touch _ _ _ _ _ _ _ _ now Hd) as Hd1.
  rewrite (kex_msg_start _ run) by (first [apply Hd1 | done]).
  set (d1 := note_activity now d) in *. assert (Edr : draws d1 = draws d) by done.
  assert (Ein : inbox d1 = inbox d) by done. clearbody d1.
  set (d2 := d1 <| runner := run' |> <| codec := c' |> <| draws := S (draws d1) |>).
  assert (Hd2 : dst d2 s Kex run' c' pv out ev) by (destruct Hd1, d1; by split).
  assert (Hq : ∃ d3 l c2, enqueue_all entropy outs d2 = (Ok (), d3) ∧ sent c' l c2 ∧ fst <$> l = outs ∧
    dst d3 s Kex run' c2 pv (out ++ (snd <$> l)) ev ∧ inbox d3 = inbox d2).
  { destruct Hout as [-> |(p & -> & Ht & He)].
    - exists d2, [], c'. cbn. rewrite app_nil_r. split; [done|]. split; [constructor|]. done.
    - destruct (enqueue_ok _ _ _ _ _ _ _ _ p Hd2 Ht He) as (d3 & f & c2 & Eq & [rng Hen] & Hd3 & _ & Hi).
      exists d3, [(p, f)], c2. cbn [enqueue_all]. rewrite Eq. split; [done|].
      split; [econstructor; [exact Hen|constructor]|]. done. }
  destruct Hq as (d3 & l & c2 & Eq & Hs & Hl & Hd3 & Hi3).
  rewrite (route_kex_ok d1 s Kex run c pv out ev b rest hk ver vc vs
    {| adv_outbound := outs; adv_completed := true |} run' c' d3);
    [|done|exact Henv|by rewrite Edr|done].
  rewrite (dst_runner _ _ _ _ _ _ _ _ Hd3), Hc. unfold kex_completed.
  assert (Hi3' : inbox d3 = inbox d) by (rewrite Hi3; unfold d2; destruct d1; exact Ein).
  clear Hi3 Eq d2 Hd2. destruct Hd3, d3. driver_simpl. subst.
  rewrite Hsid. cbn [ok_or]. unfold drain_deferred_out, drain_deferred. driver_simpl. cbn [drain_out_loop].
  driver_simpl. eexists _, l, c2.
  assert (Hnk : is_kexing run' = false). { unfold is_completed, is_kexing in *. by destruct (phase run'). }
  rewrite Hnk. cbn [drain_in_loop]. split; [reflexivity|]. by repeat split.
Qed.

(** EXT_INFO while it is welcome. *)
Lemma route_ext_info_ok d s run c pv out ev ext now :
  dst d s PostKex run c pv out ev → accept_ext_info_now run = true →
  is_Some (match ext_info_decode (ext_info_encode ext) with Ok e => Some e | Err _ => None end) →
  ∃ d' run', route_packet entropy pkg_version (ext_info_encode ext) now d = (Ok (), d') ∧
    dst d' s PostKex run' c pv out ev ∧ kx_keys run' = kx_keys run ∧ phase run' = phase run ∧
    d_session_id d' = d_session_id d ∧ inbox d' = inbox d.
Proof.
  intros Hd Ha [e He]. destruct (ext_info_decode _) as [e'|] eqn:Ed; [|done]. clear He e.
  assert (Hb : ∃ rest, ext_info_encode ext = byte_of_Z 7 :: rest).
  { unfold ext_info_decode in Ed. destruct (read_u8 _) as [[m r]|] eqn:Er; [|done].
    destruct (m =? SSH_MSG_EXT_INFO) eqn:Em; [|done]. apply Z.eqb_eq in Em. subst m.
    rewrite reader_new_at in Er. apply read_u8_inv in Er as (post & -> & _). by exists post. }
  destruct Hb as (rest & Eb). unfold route_packet. rewrite Eb. rewrite <- Eb.
  assert (Eu : u8 (byte_of_Z 7) = 7) by done. rewrite Eu.
  cbn [Z.eqb Pos.eqb SSH_MSG_PING SSH_MSG_PONG SSH_MSG_EXT_INFO orb andb].
  unfold route_ext_info, is_client. destruct Hd, d. driver_simpl. unfold note_activity. driver_simpl. subst.
  set (run' := if _ && _ then _ else _).
  assert (Hr : accept_ext_info_now run' = true ∧ kx_keys run' = kx_keys run ∧ phase run' = phase run).
  { unfold run', arm_ext_info_post_auth. destruct (_ && _); [|done].
    destruct (role run); [|done]. by destruct (ext_info_enabled run). }
  clearbody run'. destruct Hr as (Hr1 & Hr2 & Hr3). rewrite Hr1. cbn [negb].
  unfold handle_inbound_ext_info. rewrite Hr1, Ed. cbn [negb]. eexists _, _. split; [reflexivity|].
  split; [by split|]. done.
Qed.

(** ** [driver_input] on one frame *)

Lemma input_frame R d s ph run c pv out ev tx payload frame tx' now :
  compression_sync R → dst d s ph run c pv out ev → inbox d = [] → ph ≠ AwaitingVersion →
  paired R tx c → enc tx payload frame tx' →
  ∃ c1, paired R tx' c1 ∧ tx_view c1 = tx_view c ∧ seq_in c1 = wrap32 (seq_in c + 1) ∧
  ∀ Q : Driver → Prop,
    (∀ d0, dst d0 s ph run c1 pv out ev → inbox d0 = frame → draws d0 = draws d → d_session_id d0 = d_session_id d →
       ∃ d1, route_packet entropy pkg_version payload now d0 = (Ok (), d1) ∧ inbox d1 = inbox d0 ∧
         rx_idle (codec d1) ∧
         ∀ c2, tx_view c2 = tx_view (codec d1) → rx_view c2 = rx_view (codec d1) →
           Q (d1 <| codec := c2 |> <| inbox := [] |>)) →
    ∃ d2, driver_input entropy pkg_version frame now d = Some (Ok (), d2) ∧ Q d2.
Proof.
  intros HR Hd Hin Hph Hp He. destruct (deliver_frame R tx c payload frame tx' HR Hp He) as ([Hl0 Hl] & c1 & Ed & Hp1 & Hv & Hseq).
  exists c1. do 3 (split; [done|]). intros Q Hroute. unfold driver_input. rewrite Hin. cbn [app].
  set (d0 := d <| inbox := frame |>).
  assert (Hd0 : dst d0 s ph run c pv out ev) by (destruct Hd, d; by split).
  assert (Hlen : (len (inbox d0) >? MAX_INBOX_BYTES) = false).
  { rewrite Z.gtb_ltb. apply Z.ltb_ge. unfold MAX_INBOX_BYTES, MAX_PACKET_LEN in *. change (inbox d0) with frame. lia. }
  assert (Hi0 : inbox d0 = frame) by done. assert (Hdr : draws d0 = draws d) by done.
  assert (Hs0 : d_session_id d0 = d_session_id d) by done.
  change (d <| inbox := frame |>) with d0. rewrite Hlen. clearbody d0.
  assert (Hpump : ∃ d2, pump_inbox entropy pkg_version now d0 = Some (Ok (), d2) ∧ Q d2).
  { destruct (Hroute (d0 <| codec := c1 |>)) as (d1 & Er & Hi1 & Hidle & HQ);
      [by eapply dst_codec_set|done..|].
    destruct (rx_idle_decode _ Hidle) as (c2 & Ed2 & V1 & V2).
    exists (d1 <| codec := c2 |> <| inbox := [] |>). split; [|by apply HQ].
    unfold pump_inbox. rewrite (dst_codec _ _ _ _ _ _ _ _ Hd0), Hi0. clear Hi0 Hlen Hi1 HQ Hroute.
    destruct frame as [|b fr]; [exfalso; revert Hl0; by vm_compute|]. cbn [length].
    set (frame := b :: fr) in *. cbn [drain_inbox fst snd]. rewrite Ed.
    unfold route_decoded at 1. cbn [fst snd]. rewrite Er.
    replace (drop (Z.to_nat (len frame)) frame) with (@nil byte)
      by (unfold len; by rewrite Nat2Z.id, drop_all).
    cbn [drain_inbox fst snd]. by rewrite Ed2. }
  rewrite (dst_phase _ _ _ _ _ _ _ _ Hd0). by destruct ph.
Qed.

(** ** The identification lines *)

(** An identification string the other end takes. *)
Definition version_ok (v : bytes) : Prop :=
  parse_remote (v ++ CRLF) = Ok v ∧ Forall (λ b, Byte.eqb b Byte.x0a = false) v ∧
  starts_with (bs "SSH-") (v ++ CRLF) = true.

Lemma version_len v : version_ok v → len (v ++ CRLF) ≤ 255.
Proof.
  intros (Hp & _). unfold parse_remote in Hp. destruct (len (v ++ CRLF) >? 255) eqn:E; [done|].
  rewrite Z.gtb_ltb in E. by apply Z.ltb_ge in E.
Qed.

Lemma split_line_crlf acc v :
  Forall (λ b, Byte.eqb b Byte.x0a = false) v → split_line acc (v ++ CRLF) = Some (acc ++ v ++ CRLF, []).
Proof.
  intros Hv. revert acc. induction Hv as [|b v Hb _ IH]; intros acc; cbn [app split_line].
  - cbn. by rewrite <- app_assoc.
  - rewrite Hb, IH. by rewrite <- app_assoc.
Qed.

Lemma client_scan_crlf acc v d :
  Forall (λ b, Byte.eqb b Byte.x0a = false) v →
  client_scan acc (v ++ CRLF) d = client_scan (acc ++ v ++ [Byte.x0d]) LF d.
Proof.
  intros Hv. revert acc. induction Hv as [|b v Hb _ IH]; intros acc; cbn [app client_scan].
  - by cbn.
  - rewrite Hb, IH. by rewrite <- app_assoc.
Qed.

Lemma client_scan_ok v d :
  banner_total d = 0 → version_ok v →
  client_scan [] (v ++ CRLF) d =
    (Ok true, d <| inbox := [] |> <| banner_total := len (v ++ CRLF) |> <| peer_version := v |> <| dphase := Kex |>).
Proof.
  intros Hb Hv. pose proof (version_len _ Hv) as Hlen. pose proof (len_nonneg (v ++ CRLF)).
  destruct Hv as (Hp & Hlf & Hst). rewrite client_scan_crlf by done. cbn [app].
  unfold LF. cbn [client_scan]. change (Byte.eqb Byte.x0a Byte.x0a) with true. cbv iota.
  replace ((v ++ [Byte.x0d]) ++ [Byte.x0a]) with (v ++ CRLF) by (by rewrite <- app_assoc).
  rewrite Hst, Hp, Hb. replace (sat_add64 0 (len (v ++ CRLF))) with (len (v ++ CRLF)) by width_lia.
  assert (E : (len (v ++ CRLF) >? MAX_BANNER_TOTAL_BYTES) = false).
  { rewrite Z.gtb_ltb. apply Z.ltb_ge. unfold MAX_BANNER_TOTAL_BYTES. lia. }
  change (banner_total (d <| inbox := [] |> <| banner_total := len (v ++ CRLF) |>)) with (len (v ++ CRLF)).
  by rewrite E.
Qed.

(** The rest of the inbox is empty after the line. *)
Lemma pump_empty d s ph run c pv out ev now :
  dst d s ph run c pv out ev → inbox d = [] → rx_idle c →
  ∃ d' c', pump_inbox entropy pkg_version now d = Some (Ok (), d') ∧ dst d' s ph run c' pv out ev ∧ inbox d' = [] ∧
    tx_view c' = tx_view c ∧ rx_view c' = rx_view c.
Proof.
  intros Hd Hi Hidle. destruct (rx_idle_decode _ Hidle) as (c' & Ed & V1 & V2).
  unfold pump_inbox. rewrite Hi, (dst_codec _ _ _ _ _ _ _ _ Hd). cbn [length drain_inbox fst snd]. rewrite Ed.
  eexists _, c'. split; [done|]. split; [destruct Hd, d; by split|]. by split.
Qed.

Lemma input_not_full d v :
  version_ok v → inbox d = [] →
  ((len (inbox (d <| inbox := inbox d ++ v ++ CRLF |>)) >? MAX_INBOX_BYTES) = false).
Proof.
  intros Hv ->. pose proof (version_len _ Hv). rewrite Z.gtb_ltb. apply Z.ltb_ge.
  change (inbox (d <| inbox := [] ++ v ++ CRLF |>)) with (v ++ CRLF). unfold MAX_INBOX_BYTES. lia.
Qed.

Lemma client_line d over factory run c out ev v now :
  dst d (ClientSide over factory) AwaitingVersion run c [] out ev → inbox d = [] → banner_total d = 0 →
  rx_idle c → version_ok v →
  ∃ d' c', driver_input entropy pkg_version (v ++ CRLF) now d = Some (Ok (), d') ∧
    dst d' (ClientSide over factory) Kex run c' v out ev ∧ inbox d' = [] ∧ tx_view c' = tx_view c ∧ rx_view c' = rx_view c.
Proof.
  intros Hd Hi Hb Hidle Hv. unfold driver_input. rewrite input_not_full, Hi by done. cbn [app].
  set (d0 := d <| inbox := v ++ CRLF |>).
  assert (Hd0 : dst d0 (ClientSide over factory) AwaitingVersion run c [] out ev) by (destruct Hd, d; by split).
  assert (Hb0 : banner_total d0 = 0) by done. assert (Hi0 : inbox d0 = v ++ CRLF) by done. clearbody d0.
  unfold scan_peer_version. rewrite (dst_phase _ _ _ _ _ _ _ _ Hd0), (dst_side _ _ _ _ _ _ _ _ Hd0), Hi0,
    client_scan_ok by done.
  apply pump_empty; [destruct Hd0, d0; by split|done..].
Qed.

(** The server takes the client's line and queues its KEXINIT. *)
Definition server_advert (cfg : ServerConfig) (n : nat) : KexInit :=
  with_ext_info_marker Server (build_server_kexinit (entropy n) cfg).

Lemma runner_started rl oa sel ext :
  starting (set_outbound_ext_info ext (set_gex_selector sel (runner_new rl oa)) <| phase := SentKexInit |>) rl oa None false.
Proof. by split. Qed.

Lemma server_line d cfg run out ev v now :
  dst d (ServerSide cfg) AwaitingVersion run packet_codec_new [] out ev → inbox d = [] → version_ok v →
  len (kexinit_encode (server_advert cfg (draws d))) < MAX_ENCODABLE_PAYLOAD →
  ∃ d' run' c1 c' f, driver_input entropy pkg_version (v ++ CRLF) now d = Some (Ok (), d') ∧
    dst d' (ServerSide cfg) Kex run' c' v (out ++ [f]) ev ∧ inbox d' = [] ∧
    enc packet_codec_new (kexinit_encode (server_advert cfg (draws d))) f c1 ∧
    tx_view c' = tx_view c1 ∧ rx_view c' = rx_view packet_codec_new ∧
    starting run' Server (server_advert cfg (draws d)) None false ∧ gex_selector run' = cfg_gex_group_selector cfg ∧
    kr_negotiated (kx_keys run') = None ∧ first_kex run' = true ∧
    outbound_ext_info run' = Some (server_ext_info cfg).
Proof.
  intros Hd Hi Hv Hl. unfold driver_input. rewrite input_not_full, Hi by done. cbn [app].
  set (d0 := d <| inbox := v ++ CRLF |>).
  assert (Hd0 : dst d0 (ServerSide cfg) AwaitingVersion run packet_codec_new [] out ev) by (destruct Hd, d; by split).
  assert (Hi0 : inbox d0 = v ++ CRLF) by done. assert (Hdr : draws d0 = draws d) by done. clearbody d0.
  unfold scan_peer_version, server_scan. rewrite (dst_phase _ _ _ _ _ _ _ _ Hd0), (dst_side _ _ _ _ _ _ _ _ Hd0), Hi0.
  destruct Hv as (Hp & Hlf & Hst). rewrite split_line_crlf by done. cbn [app]. rewrite Hst, Hp.
  unfold start_kex, start_runner.
  set (d1 := d0 <| inbox := [] |> <| peer_version := v |> <| dphase := Kex |>).
  change (draws d1) with (draws d0). rewrite Hdr. fold (server_advert cfg (draws d)).
  set (ka := server_advert cfg (draws d)) in *. clearbody ka. unfold runner_start. cbn [side_role].
  set (run0 := set_outbound_ext_info _ _). change (phase run0) with Idle. cbv iota beta.
  set (run1 := run0 <| phase := SentKexInit |>). cbn [adv_outbound].
  change (our_advert_bytes run0) with (kexinit_encode ka). cbn [enqueue_all].
  destruct (enqueue_ok (d1 <| draws := S (draws d) |> <| runner := run1 |>) (ServerSide cfg) Kex run1 packet_codec_new v out ev
    (kexinit_encode ka)) as (d2 & f & c1 & Eq & He & Hd2 & _ & Hi2).
  { destruct Hd0, d0. by split. }
  { destruct (kexinit_encode_head ka) as (rest & ->). eexists _, rest. split; [done|]. by vm_compute. }
  { by apply clear_encodable. }
  rewrite Eq.
  destruct (pump_empty d2 _ _ _ _ _ _ _ now Hd2) as (d3 & c' & Ep & Hd3 & Hi3 & V1 & V2).
  { rewrite Hi2. done. }
  { pose proof (enc_rx _ _ _ _ He) as Hrx. injection Hrx as _ E2 E3 _. split; [by rewrite E2|by rewrite E3]. }
  exists d3, run1, c1, c', f. split; [exact Ep|]. split; [exact Hd3|]. split; [done|]. split; [done|].
  split; [done|]. split; [by rewrite V2, (enc_rx _ _ _ _ He)|]. by split.
Qed.
End Drivers.
