(* ===== verification/Strict.v ===== *)
(** * Strict key exchange: nothing slips in before NEWKEYS

    Until the first NEWKEYS the packets are in the clear, and whoever is on
    the wire may add some.  Under strict key exchange ("Terrapin",
    CVE-2023-48795) a driver that has met no error has counted exactly the
    packets of the exchange: its inbound sequence number is the number of
    messages the state of its runner accounts for. *)
From S2P Require Import Prelude Wire Text Crypto Cipher Compress Packet PacketFacts PacketSafe KexInit KexFacts.
From S2P Require Import KexHash KexMethods KexMethodFacts KexKeys Runner RunnerFacts RunnerSafe Advert Driver.
From S2P Require Import DriverFacts DriverRun.

Section Window.
Context {P : CipherPrims} {CC : CompCol} {C : PureCrypto} {H : KexHash} {K : KexPrims}.

(** The peer announced a guessed first message, and guessed wrong. *)
Definition guessed_wrong (r : KexRunner) : bool :=
  match peer_advert_bytes r, kr_negotiated (kx_keys r) with
  | Some payload, Some neg =>
      match kexinit_decode payload with
      | Ok peer => ki_first_kex_packet_follows peer && ng_wrong_guess neg
      | Err _ => false
      end
  | _, _ => false
  end.

(** The messages of the exchange read so far: KEXINIT, those of the method,
    and the guessed one if it has been dropped. *)
Definition exchange_packets (r : KexRunner) : Z :=
  match phase r with
  | Negotiated _ | GexClientAwaitGroup _ => 1
  | GexServerAwaitInit _ _ | GexClientAwaitReply _ => 2
  | AwaitingPeerNewKeys => if uses_gex r then 3 else 2
  | _ => 0
  end + (if guessed_wrong r && negb (pending_wrong_guess_discard r) then 1 else 0).

(** A runner within its first exchange, [n] packets after the start. *)
Record in_window (r : KexRunner) (n : Z) : Prop := {
  iw_ext : accept_ext_info_now r = false;
  iw_peer : kr_peer_newkeys (kx_keys r) = false;
  iw_pending : pending_wrong_guess_discard r = true → guessed_wrong r = true;
  iw_phase : match phase r with
    | Idle | Completed => False
    | SentKexInit => strict_kex_enabled r = false ∧ session_id r = None ∧ pending_wrong_guess_discard r = false
    | GexClientAwaitGroup _ | GexServerAwaitInit _ _ | GexClientAwaitReply _ =>
        uses_gex r = true ∧ (strict_kex_enabled r = true → n = exchange_packets r)
    | _ => strict_kex_enabled r = true → n = exchange_packets r
    end;
}.

Lemma exchange_packets_range r : 0 ≤ exchange_packets r ≤ 4.
Proof. unfold exchange_packets. destruct (phase r), (uses_gex r), (_ && _); lia. Qed.

(** Out of the window, or in it with the codec as it was. *)
Definition stays (codec : PacketCodec) (rc : KexRunner * PacketCodec) : Prop :=
  is_completed rc.1 = true ∨ (rc.2 = codec ∧ in_window rc.1 (seq_in codec)).

Local Ltac branches E :=
  repeat (match type of E with
  | match ?x with _ => _ end = _ => destruct x eqn:?
  end; runner_simpl; try discriminate E).

Lemma peer_kexinit_window rng payload r n adv r' :
  handle_peer_kexinit rng n payload r = (Ok adv, r') → phase r = SentKexInit →
  in_window r n → in_window r' n.
Proof.
  intros E Hp [Ha Hn _ Hw]. rewrite Hp in Hw. destruct Hw as (Hst & Hsid & Hpd).
  unfold handle_peer_kexinit, strict_kex_enabled, session_id in *.
  destruct (kexinit_decode payload) as [peer|] eqn:Ed; [|discriminate E].
  destruct r as [[rl ? ? sid ? ? ? ? pn st] ? ? ? ? ? pd ? ? ? ? ? ? ? ?]. runner_simpl. subst.
  destruct (match rl with Client => _ | Server => _ end) as [ci si].
  destruct (negotiate ci si) as [neg|]; [|discriminate E].
  destruct (ng_strict_kex_enabled neg && _ && _) eqn:Es; [discriminate E|].
  destruct (backend_from_name (ng_kex neg)) as [be|]; [|discriminate E].
  assert (Hseq : ng_strict_kex_enabled neg = true → n = 1) 
    by (intros Hs; rewrite Hs in Es; apply Z.eqb_eq; by destruct (n =? 1)).
  assert (Hg0 : ∀ x y : bool, (if x && y then true else false) = true → x && y = true) by (by intros [] []).
  assert (Hg : ∀ x y : bool, x && y && negb (if x && y then true else false) = false) by (by intros [] []).
  unfold build_client_init in E. destruct (match rl with Client => (_, _) | Server => _ end) as [recv send].
  destruct rl; runner_simpl.
  - destruct (method_init _ _ _) as [[st m]|]; [|discriminate E].
    destruct (is_gex be) eqn:Hge; [destruct st; try discriminate E|]; injection E as _ <-; split; runner_simpl; try done;
      unfold exchange_packets, guessed_wrong, uses_gex, strict_kex_enabled; runner_simpl; rewrite Ed, ?Hg; try apply Hg0.
    + split; [done|]. destruct (ng_strict_kex_enabled neg); [by intros _; rewrite Hseq|done].
    + destruct (ng_strict_kex_enabled neg); [by intros _; rewrite Hseq|done].
  - injection E as _ <-. split; runner_simpl; try done;
      unfold exchange_packets, guessed_wrong, uses_gex, strict_kex_enabled; runner_simpl; rewrite Ed, ?Hg; [apply Hg0|].
    destruct (ng_strict_kex_enabled neg); [by intros _; rewrite Hseq|done].
Qed.

Definition guess_dropped (r : KexRunner) : bool := guessed_wrong r && negb (pending_wrong_guess_discard r).

(** The four handlers that end with NEWKEYS sent. *)
Lemma finish_exchange_window out before reply r codec adv r' codec' n :
  finish_exchange out before reply r codec = (Ok adv, (r', codec')) →
  accept_ext_info_now r = false → kr_peer_newkeys (kx_keys r) = false →
  (pending_wrong_guess_discard r = true → guessed_wrong r = true) →
  (strict_kex_enabled r = true → n = (if uses_gex r then 3 else 2) + (if guess_dropped r then 1 else 0)) →
  codec' = codec ∧ in_window r' n.
Proof.
  unfold finish_exchange, advance_after_send_newkeys, session_id, guess_dropped, guessed_wrong, uses_gex, strict_kex_enabled.
  intros E Ha Hp Hpd Hn.
  destruct r as [[rl ? ? sid ? ? ? ? pn ?] ? ? ? ? ? ? ? ? ? ? ? ? ? ?]. runner_simpl. subst.
  destruct (derive_keys _) as [keys|] eqn:Ed; [|discriminate E]. apply derive_keys_only in Ed as [ks ->].
  unfold maybe_install in E. runner_simpl. cbn [negb andb] in E. injection E as _ <- <-. split; [done|].
  split; runner_simpl; try done.
Qed.

Lemma gex_step_window rng payload r adv r' n :
  handle_gex_request payload r = (Ok adv, r') ∨ handle_gex_group rng payload r = (Ok adv, r') →
  accept_ext_info_now r = false → kr_peer_newkeys (kx_keys r) = false →
  (pending_wrong_guess_discard r = true → guessed_wrong r = true) → uses_gex r = true →
  (strict_kex_enabled r = true → n = 2 + (if guess_dropped r then 1 else 0)) → in_window r' n.
Proof.
  unfold handle_gex_request, handle_gex_group, guess_dropped, guessed_wrong, uses_gex, strict_kex_enabled.
  intros E Ha Hp Hpd Hg Hn. destruct r as [[rl ? ? sid ? ? ? ? pn ?] ? ? ? ? ? ? ? ? ? ? ? ? ? ?]. runner_simpl.
  destruct E as [E|E]; branches E; injection E as _ <-; split; runner_simpl; try done.
Qed.

Local Ltac ends E := by (repeat (match type of E with match ?x with _ => _ end = _ => destruct x end; try discriminate E)).

Local Ltac finishes r E Hm Hg :=
  right; eapply finish_exchange_window; [exact E|..]; try done;
  let Hs := fresh in intros Hs; rewrite (Hm Hs); change (uses_gex _) with (uses_gex r); rewrite Hg;
  change (guess_dropped (r <| phase := Idle |>)) with (guess_dropped r); lia.

(** The handlers of each phase, the packet at hand counted. *)
Lemma dispatch_window rng payload msg hk ver v_c v_s r codec adv r' codec' n :
  on_packet_dispatch rng payload msg hk ver v_c v_s r codec = (Ok adv, (r', codec')) →
  in_window r n →
  (strict_kex_enabled r = true → seq_in codec = exchange_packets r + 1) → stays codec (r', codec').
Proof.
  intros E [Ha Hp Hpd Hw] Hm. unfold on_packet_dispatch, lift_codec, stays in *. cbn [fst snd].
  unfold exchange_packets in Hm. fold (guess_dropped r) in Hm.
  destruct (phase r) as [| |ost|st|st|q g| |] eqn:Hph; try done.
  - destruct (_ =? _); [|done]. destruct (handle_peer_kexinit _ _ _ _) as [res r0] eqn:Ek. cbn [fst snd] in E.
    injection E as -> <- <-. right. split; [done|]. eapply peer_kexinit_window; [exact Ek|done|].
    split; try done. by rewrite Hph.
  - destruct (role r), (uses_gex r) eqn:Hg.
    + ends E.
    + destruct (_ =? _); [|ends E]. unfold handle_kex_reply_message in E. rewrite Hph in E.
      destruct (kr_backend _) as [be|] eqn:Eb; cbn [ok_or] in E; [|done]. destruct ost as [st|]; [|done].
      destruct ver as [verify|]; cbn [ok_or] in E; [|done]. destruct (method_finish _ _ _ _ _) as [out|]; [|done].
      finishes r E Hm Hg.
    + destruct (_ || _); [|ends E]. destruct (handle_gex_request _ _) as [res r0] eqn:Ek. cbn [fst snd] in E.
      injection E as -> <- <-. right. split; [done|]. eapply (gex_step_window rng); [left; exact Ek|..]; try done.
      intros Hs. rewrite (Hm Hs). lia.
    + destruct (_ =? _); [|ends E]. unfold handle_kex_init_message in E.
      destruct hk as [hk|]; cbn [ok_or] in E; [|done]. destruct (kr_backend _) as [be|] eqn:Eb; cbn [ok_or] in E; [|done].
      destruct (method_reply _ _ _ _ _) as [[rp out]|]; [|done].
      finishes r E Hm Hg.
  - destruct Hw as [Hg _]. destruct (_ =? _); [|ends E]. destruct (handle_gex_group _ _ _) as [res r0] eqn:Ek. cbn [fst snd] in E.
    injection E as -> <- <-. right. split; [done|]. eapply (gex_step_window rng); [right; exact Ek|..]; try done.
    intros Hs. rewrite (Hm Hs). lia.
  - destruct Hw as [Hg _]. destruct (_ =? _); [|ends E]. unfold handle_gex_reply in E. rewrite Hph in E.
    destruct ver as [verify|]; cbn [ok_or] in E; [|done]. destruct (GexSha.client_finish_with _ _ _ _ _) as [out|]; [|done].
    finishes r E Hm Hg.
  - destruct Hw as [Hg _]. destruct (_ =? _); [|ends E]. unfold handle_gex_init in E. rewrite Hph in E.
    destruct hk as [hk|]; cbn [ok_or] in E; [|done]. destruct (GexSha.server_reply_with _ _ _ _ _ _ _) as [[rp out]|]; [|done].
    finishes r E Hm Hg.
  - destruct (_ =? _); [|done]. left. unfold handle_peer_newkeys in E.
    destruct r as [[] ? ? ? ? ? ? fk ? es oe ? ? ? ?]. runner_simpl.
    destruct (maybe_install _ codec) as [[?|?] c]; runner_simpl; [|discriminate E].
    destruct (fk && es); [destruct oe|]; runner_simpl; by injection E as _ <- _.
Qed.

Lemma window_is_kexing r n : in_window r n → is_kexing r = true ∧ is_completed r = false.
Proof. intros [_ _ _ Hw]. unfold is_kexing, is_completed. by destruct (phase r). Qed.

Lemma window_counted r n :
  in_window r n → is_kexing r = true → awaiting_peer_kexinit r = false →
  strict_kex_enabled r = true → wrap32 (n + 1) = exchange_packets r + 1.
Proof.
  intros [_ _ _ Hw] Hk Ha Hs. pose proof (exchange_packets_range r). unfold is_kexing, awaiting_peer_kexinit in *.
  assert (n = exchange_packets r) as -> by (destruct (phase r); try done; try (by apply Hw); by destruct Hw as [_ Hw]; apply Hw).
  clear Hw. unfold wrap32. rewrite Z.mod_small by lia. done.
Qed.

(** A payload the runner takes, the codec having counted it. *)
Lemma on_packet_window rng payload hk ver v_c v_s r codec adv r' codec' n :
  runner_on_packet rng payload hk ver v_c v_s r codec = (Ok adv, (r', codec')) →
  in_window r n → seq_in codec = wrap32 (n + 1) → stays codec (r', codec').
Proof.
  destruct payload as [|b rest]; [done|]. unfold runner_on_packet. intros E Hw Hn.
  set (r0 := r <| accept_ext_info_now := false |>) in E.
  assert (Hw0 : in_window r0 n) by (destruct Hw; by split). clearbody r0. clear Hw r.
  assert (Hm : strict_kex_enabled r0 = true → seq_in codec = exchange_packets r0 + 1).
  { intros Hs. rewrite Hn. apply window_counted; [done|by eapply window_is_kexing| |done].
    unfold awaiting_peer_kexinit. destruct Hw0 as [_ _ _ Hp]. destruct (phase r0); try done. destruct Hp. congruence. }
  destruct (_ && _ && in_kex_range (u8 b)) eqn:Eg.
  - injection E as _ <- <-. right. split; [done|]. apply andb_true_iff in Eg as [Eg _].
    apply andb_true_iff in Eg as [Epd Eph]. destruct Hw0 as [Ha Hp Hpd Hw]. specialize (Hpd Epd).
    unfold exchange_packets in Hm. rewrite Hpd, Epd in Hm.
    assert (Hm' : strict_kex_enabled r0 = true → seq_in codec = exchange_packets (r0 <| pending_wrong_guess_discard := false |>)).
    { intros Hs. rewrite (Hm Hs). unfold exchange_packets.
      change (guessed_wrong (r0 <| pending_wrong_guess_discard := false |>)) with (guessed_wrong r0). rewrite Hpd.
      change (phase (r0 <| pending_wrong_guess_discard := false |>)) with (phase r0). destruct (phase r0); try done; cbn [negb andb]; lia. }
    cbn [fst snd]. split; try done.
    change (phase (r0 <| pending_wrong_guess_discard := false |>)) with (phase r0).
    clear Hm. destruct (phase r0); try done; by destruct Hw.
  - destruct (strict_kex_enabled _ && _ && _); [done|].
    destruct (on_packet_dispatch _ _ _ _ _ _ _ _ _) as [[a|e] [r1 c1]] eqn:Ed; [|done]. injection E as _ <- <-.
    by eapply dispatch_window.
Qed.
End Window.

Section Driver.
Context {P : CipherPrims} {CC : CompCol} {C : PureCrypto} {H : KexHash} {K : KexPrims}.
Context (entropy : nat → Rng) (pkg_version : bytes).

(** A frontend's call that succeeds; it reports the authentication of the
    user once there is a session. *)
Definition clean_op (op : DriverOp) (d : Driver) : option Driver :=
  let ok (x : result unit * Driver) := match x with (Ok _, d') => Some d' | (Err _, _) => None end in
  match op with
  | OpInput data now => match driver_input entropy pkg_version data now d with Some x => ok x | None => None end
  | OpEnqueue payload => ok (enqueue_payload entropy payload d)
  | OpTimeout now => ok (handle_timeout entropy now d)
  | OpAuthSuccess => if handshake_done d then Some (notify_auth_success d) else None
  | OpRekey => ok (request_rekey entropy d)
  | _ => run_op entropy pkg_version op d
  end.
Fixpoint clean_ops (ops : list DriverOp) (d : Driver) : option Driver :=
  match ops with
  | [] => Some d
  | op :: rest => match clean_op op d with Some d' => clean_ops rest d' | None => None end
  end.

Definition strict_inv (d : Driver) : Prop :=
  match dphase d with
  | AwaitingVersion =>
      match side d with
      | ClientSide _ _ => phase (runner d) = SentKexInit ∧ ∀ n, in_window (runner d) n
      | ServerSide _ => True
      end
  | Kex => in_window (runner d) (seq_in (codec d))
  | PostKex => True
  end.

(** ** The output side *)

Definition out_eq (d d' : Driver) : Prop := core_eq d d' ∧ seq_in (codec d') = seq_in (codec d).

Lemma out_eq_trans d1 d2 d3 : out_eq d1 d2 → out_eq d2 d3 → out_eq d1 d3.
Proof. intros [H1 E1] [H2 E2]. split; [by eapply core_eq_trans|congruence]. Qed.
Lemma strict_inv_out d d' : out_eq d d' → strict_inv d → strict_inv d'.
Proof. intros [(E1 & E2 & E3 & _) E]. unfold strict_inv. by rewrite E1, E2, E3, E. Qed.

Lemma encode_and_queue_out payload d : out_eq d (encode_and_queue entropy payload d).2.
Proof.
  split; [apply encode_and_queue_core|]. unfold encode_and_queue. destruct (encode _ _ _) as [r c] eqn:E.
  apply encode_rx in E. injection E as E _ _ _. destruct r; by destruct d.
Qed.
Lemma enqueue_payload_out payload d : out_eq d (enqueue_payload entropy payload d).2.
Proof.
  split; [apply enqueue_payload_core|]. unfold enqueue_payload. destruct (_ && _).
  - destruct (_ >? _); by destruct d.
  - etransitivity; [apply encode_and_queue_out|]. by destruct d.
Qed.
Lemma enqueue_all_out payloads d : out_eq d (enqueue_all entropy payloads d).2.
Proof.
  revert d. induction payloads as [|p rest IH]; intros d; [done|]. cbn [enqueue_all].
  pose proof (enqueue_payload_out p d). destruct (enqueue_payload _ p d) as [[u|e] d1]; [|done].
  eapply out_eq_trans; [done|apply IH].
Qed.

(** ** One packet *)

Lemma route_kex_window payload d d' n :
  route_kex entropy pkg_version payload d = (Ok (), d') → in_window (runner d) n →
  seq_in (codec d) = wrap32 (n + 1) →
  is_completed (runner d') = true ∨ in_window (runner d') (seq_in (codec d')).
Proof.
  unfold route_kex. intros E Hw Hn.
  match type of E with match ?m with Ok _ => _ | Err _ => _ end = _ => destruct m as [[[[hk ver] vc] vs]|] end; [|done].
  destruct (runner_on_packet _ _ _ _ _ _ _ _) as [[adv|e] [run c]] eqn:Eon; [|done].
  pose proof (enqueue_all_out (adv_outbound adv) (d <| runner := run |> <| codec := c |> <| draws := S (draws d) |>)) as [Ho Hs].
  rewrite E in Ho, Hs. cbn [snd] in Ho, Hs. destruct Ho as (_ & _ & Er & _). rewrite Er, Hs.
  destruct (on_packet_window _ _ _ _ _ _ _ _ _ _ _ _ Eon Hw Hn) as [Hc|[Hc Hw']]; [by left|right].
  cbn [fst snd] in *. by subst c.
Qed.

Lemma kex_completed_done now d d' :
  kex_completed entropy now d = (Ok (), d') → dphase d = Kex → dphase d' = PostKex.
Proof.
  unfold kex_completed. intros E Hp. rewrite Hp in E. destruct (session_id (runner d)) as [sid|]; cbn [ok_or] in E; [|done].
  unfold drain_deferred_out in E.
  match type of E with context [drain_out_loop _ ?q ?x] =>
    pose proof (drain_out_loop_core entropy q x) as Hc; destruct (drain_out_loop entropy q x) as [[u|e] d2] end; [|done].
  injection E as <-. cbn [snd] in Hc. destruct Hc as (_ & Hc & _). unfold drain_deferred.
  assert (Hd : dphase d2 = PostKex) by (rewrite Hc; by destruct d).
  destruct (is_kexing _); [done|]. by destruct (drain_in_loop_fields (deferred d2) d2) as (_ & -> & _).
Qed.

Lemma window_lenient r n m : in_window r n → strict_kex_enabled r = false → in_window r m.
Proof.
  intros [Ha Hp Hpd Hw] Hs. split; try done. rewrite Hs in *. destruct (phase r); try done; by destruct Hw.
Qed.

Lemma route_kex_msg_strict b payload now d d' n :
  route_kex_msg entropy pkg_version b payload now d = (Ok (), d') → dphase d = Kex → in_window (runner d) n →
  seq_in (codec d) = wrap32 (n + 1) → strict_inv d'.
Proof.
  unfold route_kex_msg. intros E Hp Hw Hn. destruct (window_is_kexing _ _ Hw) as [Hk _].
  rewrite Hk in E. cbn [negb] in E. rewrite andb_false_r in E.
  pose proof (route_kex_phase entropy pkg_version payload d) as Hp1.
  destruct (route_kex entropy pkg_version payload d) as [[[]|e] d1] eqn:Er; [|done]. cbn [snd] in Hp1.
  destruct (is_completed (runner d1)) eqn:Hc.
  - unfold strict_inv. rewrite (kex_completed_done _ _ _ E); [done|congruence].
  - injection E as <-. unfold strict_inv. rewrite Hp1, Hp.
    destruct (route_kex_window _ _ _ _ Er Hw Hn) as [?|?]; [congruence|done].
Qed.

Lemma route_packet_strict payload now d d' n :
  route_packet entropy pkg_version payload now d = (Ok (), d') → dphase d = Kex → in_window (runner d) n →
  seq_in (codec d) = wrap32 (n + 1) → strict_inv d'.
Proof.
  unfold route_packet. intros E Hp Hw Hn. set (d0 := note_activity now d) in *.
  assert (Hd0 : dphase d0 = Kex ∧ runner d0 = runner d ∧ codec d0 = codec d) by (by destruct d).
  clearbody d0. destruct Hd0 as (Hp0 & Er & Ec). rewrite <- Er in Hw. rewrite <- Ec in Hn. clear Er Ec Hp d.
  unfold route_other in E. rewrite Hp0 in E. cbn [dphase_eqb] in E.
  destruct payload as [|b0 rest]; [done|]. destruct (u8 b0 =? 1); [done|].
  rewrite !andb_true_r in E.
  destruct (_ || _ || (u8 b0 =? SSH_MSG_PING) || (u8 b0 =? SSH_MSG_PONG)) eqn:Eg.
  - unfold generic_msg_during_initial_kex in E. destruct (strict_kex_enabled (runner d0)) eqn:Es; [done|].
    injection E as <-. unfold strict_inv. rewrite Hp0. by eapply window_lenient.
  - apply orb_false_iff in Eg as [Eg1 Eg4]. apply orb_false_iff in Eg1 as [Eg1 Eg3]. rewrite Eg1, Eg3, Eg4 in E.
    destruct (_ =? SSH_MSG_EXT_INFO).
    + unfold route_ext_info in E. rewrite Hp0 in E. cbn [dphase_eqb negb] in E. rewrite andb_false_r in E.
      by rewrite (iw_ext _ _ Hw) in E.
    + destruct (is_kex_msg _); [|done]. by eapply route_kex_msg_strict.
Qed.

(** ** The calls *)

Lemma decode_counts c buf r c' :
  decode c buf = (Ok r, c') → seq_in c' = match r with Some _ => wrap32 (seq_in c + 1) | None => seq_in c end.
Proof.
  unfold decode, decode_decompress. destruct (decode_slot _ _ _ _) as [[[[payload n]|]|e] [slot pend]]; try done.
  - set (c1 := c <| inbound := slot |> <| pending_first_block := pend |> <| seq_in := _ |> <| bytes_in := _ |> <| traffic := _ |>).
    assert (Hs : seq_in c1 = wrap32 (seq_in c + 1)) by done. clearbody c1. destruct (_ && _).
    + destruct (decompress _ _) as [[y|e] oc]; [|done]. intros [= <- <-]. by rewrite <- Hs.
    + intros [= <- <-]. done.
  - intros [= <- <-]. done.
Qed.

(** A packet leaves the phase alone or ends the first exchange. *)
Definition onward (ph ph' : DPhase) : Prop := ph' = ph ∨ ph' = PostKex.

Lemma kex_completed_phase now d : onward (dphase d) (dphase (kex_completed entropy now d).2).
Proof.
  unfold kex_completed.
  assert (Hd : ∀ d1, dphase (let (r, d2) := drain_deferred_out entropy (d1 <| last_kex := Some now |>) in
    let! _ := r at d2 in (Ok (), drain_deferred d2)).2 = dphase d1).
  { intros d1. unfold drain_deferred_out.
    pose proof (drain_out_loop_core entropy (deferred_out (d1 <| last_kex := Some now |>)) (d1 <| last_kex := Some now |>)) as Hc.
    destruct (drain_out_loop _ _ _) as [[u|e] d2]; destruct Hc as (_ & Hc & _); cbn [snd] in *; [|rewrite Hc; by destruct d1].
    unfold drain_deferred. destruct (is_kexing _); [rewrite Hc; by destruct d1|].
    destruct (drain_in_loop_fields (deferred d2) d2) as (_ & -> & _). rewrite Hc. by destruct d1. }
  destruct (dphase d) eqn:Ed; [left; by rewrite Hd| |left; by rewrite Hd].
  destruct (session_id (runner d)); cbn [ok_or]; [|by left]. right. rewrite Hd. by destruct d.
Qed.

Lemma route_packet_phase payload now d :
  onward (dphase d) (dphase (route_packet entropy pkg_version payload now d).2).
Proof.
  unfold route_packet. set (d0 := note_activity now d). change (dphase d) with (dphase d0). clearbody d0. clear d.
  assert (Ho : ∀ p, onward (dphase d0) (dphase (route_other p d0).2)).
  { intros p. unfold route_other. destruct (dphase_eqb _ _); [by left|]. destruct (is_kexing _); [|by left; destruct d0].
    destruct (negb _); [by left|]. destruct (defer_inbound _ _ _) as [r [q n]]. left. by destruct d0. }
  destruct payload as [|b0 rest]; [apply Ho|]. destruct (u8 b0 =? 1); [by left|]. destruct (_ && _); [by left|].
  destruct (_ || _); [by left|]. destruct (_ =? SSH_MSG_PING).
  { destruct (pong_for_ping _) as [pong|]; [|by left]. left. apply (enqueue_payload_core entropy pong d0). }
  destruct (_ =? SSH_MSG_PONG); [by left|]. destruct (_ =? SSH_MSG_EXT_INFO); [left; apply route_ext_info_phase|].
  destruct (is_kex_msg _); [|apply Ho]. unfold route_kex_msg.
  match goal with |- context [if ?c then initiate_rekey _ _ else _] =>
    assert (Hr : dphase (if c then initiate_rekey entropy d0 else (Ok (), d0)).2 = dphase d0)
      by (destruct c; [apply initiate_rekey_phase|done]);
    destruct (if c then initiate_rekey entropy d0 else (Ok (), d0)) as [[u|e] d1] end; cbn [snd] in *; [|by left].
  pose proof (route_kex_phase entropy pkg_version (b0 :: rest) d1) as Hk.
  destruct (route_kex _ _ _ d1) as [[v|e] d2]; cbn [snd] in *; [|left; congruence].
  destruct (is_completed _); [|left; cbn [snd]; congruence]. rewrite <- Hr, <- Hk. apply kex_completed_phase.
Qed.

(** Past the identification line. *)
Definition past_line (d : Driver) : Prop := dphase d ≠ AwaitingVersion ∧ strict_inv d.

Lemma drain_inbox_strict now fuel c d unread cs' rest :
  past_line (d <| codec := c |>) →
  drain_inbox (route_decoded entropy pkg_version now) fuel (c, d) unread = Some (Ok (), cs', rest) →
  past_line (cs'.2 <| codec := cs'.1 |>).
Proof.
  revert c d unread. induction fuel as [|fuel IH]; intros c d unread [Hp Hi]; [done|]. cbn [drain_inbox fst snd].
  destruct (decode c unread) as [[[[payload n]|]|e] c1] eqn:Ed; [| |done].
  2: { intros [= <- <-]. apply decode_counts in Ed. split; [by destruct d|].
       destruct d. unfold strict_inv in *. driver_simpl. by rewrite Ed. }
  unfold route_decoded at 1. cbn [fst snd]. apply decode_counts in Ed.
  pose proof (route_packet_phase payload now (d <| codec := c1 |>)) as Ho.
  destruct (route_packet _ _ _ _ _) as [[[]|e] d1] eqn:Er; [|done]. cbn [snd] in Ho. apply IH.
  assert (Hd1 : d1 <| codec := codec d1 |> = d1) by (by destruct d1). rewrite Hd1.
  change (dphase (d <| codec := c |>)) with (dphase d) in Hp. change (dphase (d <| codec := c1 |>)) with (dphase d) in Ho.
  split; [by destruct Ho as [-> | ->]|]. destruct (dphase d) eqn:Eph; [done| |].
  - eapply (route_packet_strict payload now (d <| codec := c1 |>) d1 (seq_in c)); [exact Er|done|..|done].
    unfold strict_inv in Hi. change (dphase (d <| codec := c |>)) with (dphase d) in Hi. by rewrite Eph in Hi.
  - unfold strict_inv. by destruct Ho as [-> | ->].
Qed.

Lemma pump_inbox_strict now d d' :
  past_line d → pump_inbox entropy pkg_version now d = Some (Ok (), d') → past_line d'.
Proof.
  intros Hl. unfold pump_inbox. destruct (drain_inbox _ _ _ _) as [[[r1 [c d1]] rest]|] eqn:E; [|done].
  intros [= -> <-]. apply drain_inbox_strict in E; [exact E|]. by destruct d.
Qed.

Lemma client_scan_strict line rest d :
  dphase d = AwaitingVersion → (∀ n, in_window (runner d) n) → phase (runner d) = SentKexInit →
  is_client d = true → strict_inv (client_scan line rest d).2 ∧
  ((client_scan line rest d).1 = Ok true → dphase (client_scan line rest d).2 = Kex).
Proof.
  revert line d. induction rest as [|b rest IH]; intros line d Hp Hw Hph Hc; cbn [client_scan].
  - assert (strict_inv (d <| inbox := line |>)).
    { destruct d. unfold strict_inv, is_client in *. driver_simpl. subst. by destruct side. }
    by destruct (_ >? _).
  - destruct (Byte.eqb b Byte.x0a); [|by apply IH].
    set (d1 := d <| inbox := rest |> <| banner_total := _ |>).
    assert (Hd1 : dphase d1 = AwaitingVersion ∧ runner d1 = runner d ∧ is_client d1 = true) by (by destruct d).
    destruct Hd1 as (Hp1 & Hr1 & Hc1). clearbody d1.
    assert (Hi1 : strict_inv d1).
    { unfold strict_inv, is_client in *. rewrite Hp1, Hr1. by destruct (side d1). }
    destruct (_ >? _); [done|]. destruct (starts_with _ _).
    + destruct (parse_remote _) as [v|]; [|done]. split; [|by destruct d1].
      destruct d1. unfold strict_inv. driver_simpl. subst. apply Hw.
    + set (d2 := d1 <| banner_lines := _ |>).
      assert (Hd2 : dphase d2 = AwaitingVersion ∧ runner d2 = runner d ∧ is_client d2 = true) by (by destruct d1).
      destruct Hd2 as (Hp2 & Hr2 & Hc2). clearbody d2.
      assert (Hi2 : strict_inv d2).
      { unfold strict_inv, is_client in *. rewrite Hp2, Hr2. by destruct (side d2). }
      destruct (_ >? _); [done|]. apply IH; by rewrite ?Hr2.
Qed.

(** A runner that has sent its KEXINIT and read nothing. *)
Lemma started_window rl advert ext sel r adv r' :
  runner_start (set_outbound_ext_info ext (r (runner_new rl advert))) = (Ok adv, r') →
  r = (λ x, x) ∨ r = set_gex_selector sel → phase r' = SentKexInit ∧ ∀ n, in_window r' n.
Proof. intros E [-> | ->]; injection E as _ <-; split; try done; intros n; by split. Qed.

Lemma start_runner_window advert sd ext d d' :
  start_runner entropy advert sd ext d = (Ok (), d') →
  (phase (runner d') = SentKexInit ∧ ∀ n, in_window (runner d') n) ∧ dphase d' = dphase d ∧ side d' = side d.
Proof.
  unfold start_runner. set (run0 := match sd with ClientSide _ _ => _ | ServerSide _ => _ end).
  destruct (runner_start _) as [[adv|e] run] eqn:E; [|done]. intros Hq.
  assert (Hw : phase run = SentKexInit ∧ ∀ n, in_window run n).
  { destruct sd as [over f|cfg]; unfold run0 in E.
    - exact (started_window _ _ _ None (λ x, x) _ _ E (or_introl eq_refl)).
    - exact (started_window _ _ _ _ (set_gex_selector _) _ _ E (or_intror eq_refl)). }
  pose proof (enqueue_all_core entropy (adv_outbound adv) (d <| runner := run |>)) as Hc.
  rewrite Hq in Hc. destruct Hc as (E1 & E2 & E3 & _). cbn [snd] in *. rewrite E1, E2, E3. by destruct d.
Qed.

Lemma scan_strict d d' b :
  strict_inv d → dphase d = AwaitingVersion → scan_peer_version entropy d = (Ok b, d') →
  if b then past_line d' else strict_inv d'.
Proof.
  intros Hi Hp. unfold scan_peer_version. unfold strict_inv in Hi. rewrite Hp in Hi.
  destruct (side d) as [over f|cfg] eqn:Es.
  - destruct Hi as [Hph Hw]. assert (Hc : is_client d = true) by (unfold is_client; by rewrite Es).
    destruct (client_scan_strict [] (inbox d) d Hp Hw Hph Hc) as [Hs Hk].
    intros E. rewrite E in Hs, Hk. cbn [fst snd] in *. destruct b; [|done]. split; [by rewrite Hk|done].
  - unfold server_scan. destruct (split_line _ _) as [[line rest]|].
    + destruct (if starts_with _ _ then _ else _) as [v|]; [|done]. unfold start_kex.
      destruct (start_runner _ _ _ _ _) as [[[]|e] d1] eqn:E; [|done]. intros [= <- <-].
      apply start_runner_window in E as ([_ Hw] & E2 & E3).
      assert (Hd : dphase d1 = Kex) by (rewrite E2; by destruct d).
      split; [by rewrite Hd|]. unfold strict_inv. by rewrite Hd.
    + destruct (_ >? _); [done|]. intros [= <- <-]. unfold strict_inv. by rewrite Hp, Es.
Qed.

Lemma driver_input_strict data now d d' :
  strict_inv d → driver_input entropy pkg_version data now d = Some (Ok (), d') → strict_inv d'.
Proof.
  intros Hi. unfold driver_input.
  assert (H0 : strict_inv (d <| inbox := inbox d ++ data |>)) by (eapply strict_inv_out; [|exact Hi]; by destruct d).
  revert H0. generalize (d <| inbox := inbox d ++ data |>). clear d Hi. intros d Hi.
  destruct (_ >? _); [done|].
  destruct (dphase d) eqn:Ed; [|intros E; apply pump_inbox_strict in E as [_ ?]; [done|split; [by rewrite Ed|done]]..].
  destruct (scan_peer_version entropy d) as [[[|]|e] d1] eqn:Es; [| |done]; apply scan_strict in Es; try done.
  - intros E. by apply pump_inbox_strict in E as [_ ?].
  - by intros [= <-].
Qed.

(** A driver before the end of its first exchange does not start another. *)
Lemma initiate_rekey_strict d d' :
  initiate_rekey entropy d = (Ok (), d') → strict_inv d → strict_inv d'.
Proof.
  unfold initiate_rekey. change (runner (d <| draws := S (draws d) |>)) with (runner d).
  intros E Hi. destruct (restart _ (runner d)) as [[adv|e] run] eqn:Er; [|done].
  pose proof (initiate_rekey_phase entropy d) as Hp.
  pose proof (enqueue_all_core entropy (adv_outbound adv) (d <| draws := S (draws d) |> <| runner := run |>)) as Hc.
  rewrite E in Hc. cbn [snd] in Hc. destruct Hc as (E1 & E2 & _).
  change (dphase (d <| draws := S (draws d) |> <| runner := run |>)) with (dphase d) in E2.
  change (side (d <| draws := S (draws d) |> <| runner := run |>)) with (side d) in E1.
  unfold strict_inv in *. rewrite E1, E2. unfold restart in Er.
  destruct (dphase d); [destruct (side d); [|done]|..|done].
  - destruct Hi as [Hi _]. by rewrite Hi in Er.
  - destruct Hi as [_ _ _ Hi]. by destruct (phase (runner d)).
Qed.

Lemma clean_op_strict op d d' : strict_inv d → clean_op op d = Some d' → strict_inv d'.
Proof.
  intros Hi. destruct op as [data now|payload|now| | | | |policy|i c]; cbn [clean_op run_op].
  - destruct (driver_input _ _ data now d) as [[[[]|e] d1]|] eqn:E; try done. intros [= <-].
    by eapply driver_input_strict.
  - pose proof (enqueue_payload_out payload d) as Ho. destruct (enqueue_payload _ _ _) as [[u|e] d1]; [|done].
    intros [= <-]. by eapply strict_inv_out.
  - unfold handle_timeout. destruct (is_kexing _); [by intros [= <-]|].
    destruct (rekey_due now d).
    { destruct (initiate_rekey entropy d) as [[[]|e] d1] eqn:E; [|done]. intros [= <-]. by eapply initiate_rekey_strict. }
    destruct (keepalive d) as [[i c]|]; [|by intros [= <-]]. destruct (_ >=? _); [|by intros [= <-]].
    destruct (_ >=? _); [done|]. pose proof (enqueue_payload_out keepalive_request d) as Ho.
    destruct (enqueue_payload _ _ d) as [[u|e] d1]; [|done]. intros [= <-].
    eapply strict_inv_out; [|by eapply strict_inv_out]. by destruct d1.
  - destruct (handshake_done d) eqn:Hd; [|done]. intros [= <-]. unfold handshake_done in Hd.
    unfold strict_inv. replace (dphase (notify_auth_success d)) with PostKex; [done|].
    destruct (dphase d) eqn:Ep; try done. unfold notify_auth_success. by destruct (side d); destruct d.
  - unfold request_rekey. destruct (_ || _); [by intros [= <-]|].
    destruct (initiate_rekey entropy d) as [[[]|e] d1] eqn:E; [|done]. intros [= <-]. by eapply initiate_rekey_strict.
  - intros [= <-]. unfold poll_transmit. destruct (outbox d); [done|]. by destruct d.
  - intros [= <-]. unfold poll_event. destruct (events d); [done|]. by destruct d.
  - intros [= <-]. by destruct d.
  - intros [= <-]. by destruct d.
Qed.

Lemma clean_ops_strict ops d d' : strict_inv d → clean_ops ops d = Some d' → strict_inv d'.
Proof.
  revert d. induction ops as [|op ops IH]; intros d Hi; cbn [clean_ops]; [by intros [= <-]|].
  destruct (clean_op op d) as [d1|] eqn:E; [|done]. apply IH. by eapply clean_op_strict.
Qed.

Lemma started_strict s now d :
  start entropy pkg_version now (driver_new entropy s now) = (Ok (), d) → strict_inv d.
Proof.
  unfold start. cbn [driver_new side]. destruct s as [over f|cfg].
  - unfold client_start. destruct (client_local_version _ _) as [line|]; [|done]. intros E.
    apply start_runner_window in E as (Hw & E2 & E3). unfold strict_inv. by rewrite E2, E3.
  - unfold server_start. by intros [= <-].
Qed.
End Driver.

(** C7: strict key exchange accounts for every packet (the "Terrapin"
    countermeasure).  Start a client or a server, and let its frontend call it
    in any order and with any bytes from the network, as long as no call
    fails.  While the first key exchange is not over, a driver that has agreed
    on strict key exchange has an inbound sequence number equal to the number
    of messages of the exchange its runner has read: KEXINIT, the method's
    messages, and one dropped wrong guess if the peer announced one.  So no
    packet put in before the first NEWKEYS has been let through. *)
Theorem strict_kex_accounts {P : CipherPrims} {CC : CompCol} {C : PureCrypto} {H : KexHash} {K : KexPrims}
    entropy pkg_version s now d0 ops d :
  start entropy pkg_version now (driver_new entropy s now) = (Ok (), d0) →
  clean_ops entropy pkg_version ops d0 = Some d →
  dphase d = Kex → strict_kex_enabled (runner d) = true →
  seq_in (codec d) = exchange_packets (runner d) ∧ 1 ≤ exchange_packets (runner d) ≤ 4.
Proof.
  intros Hs Ho Hp Hst. pose proof (clean_ops_strict _ _ _ _ _ (started_strict _ _ _ _ _ Hs) Ho) as Hi.
  unfold strict_inv in Hi. rewrite Hp in Hi. destruct Hi as [_ _ _ Hw]. split.
  - destruct (phase (runner d)) eqn:Hph; try done; try (by apply Hw); try (by destruct Hw as [_ Hw]; apply Hw).
    destruct Hw. congruence.
  - split; [|apply exchange_packets_range]. unfold exchange_packets.
    destruct (phase (runner d)) eqn:Hph; try done; try (destruct (_ && _); lia).
    + destruct Hw. congruence.
    + destruct (uses_gex _), (_ && _); lia.
Qed.
