(* ===== verification/Handshake.v ===== *)
(** * The handshake of two drivers, from the identification lines to NEWKEYS *)
From S2P Require Import Prelude Wire Text Crypto Cipher Compress Packet PacketFacts PacketSafe KexInit KexFacts.
From S2P Require Import KexHash KexMethods KexMethodFacts KexKeys Runner RunnerFacts RunnerSafe Advert Driver.
From S2P Require Import DriverFacts DriverRun.

(** ** Frames in flight *)

Section Flight.
Context {P : CipherPrims} {L : CipherLaws P} {CC : CompCol}.

Lemma encode_compress_view a b payload z b1 :
  outbound_compress a = outbound_compress b → encode_compress b payload = (Ok z, b1) →
  ∃ a1, encode_compress a payload = (Ok z, a1) ∧ outbound_compress a1 = outbound_compress b1 ∧
    seq_out a1 = seq_out a ∧ outbound a1 = outbound a.
Proof.
  intros E. unfold encode_compress. rewrite E. destruct (_ && _).
  - destruct (compress _ _) as [[y|e] oc]; [|done]. intros [= <- <-]. by eexists.
  - intros [= <- <-]. by exists a.
Qed.

Lemma enc_view a b payload frame b' :
  tx_view a = tx_view b → enc b payload frame b' → ∃ a', enc a payload frame a' ∧ tx_view a' = tx_view b'.
Proof.
  intros [= E1 E2 E3] [rng (z & b1 & Ec & Es & Hs & Ho)%encode_fields].
  destruct (encode_compress_view a b payload z b1 E3 Ec) as (a1 & Ea & F1 & F2 & F3).
  rewrite <- E1, <- E2, <- F2, <- F3 in Es. eexists. split.
  - exists rng. unfold encode. rewrite Ea, Es. reflexivity.
  - transitivity (wrap32 (seq_out a1 + 1), outbound b', outbound_compress a1); [done|].
    unfold tx_view. by rewrite Hs, Ho, F1, F2, E1.
Qed.

(** Payloads sent one after the other from [a], with their frames; [b] sends next. *)
Inductive chain : PacketCodec → list (bytes * bytes) → PacketCodec → Prop :=
  | chain_nil a b : tx_view b = tx_view a → chain a [] b
  | chain_cons a p f a' l b : enc a p f a' → chain a' l b → chain a ((p, f) :: l) b.

Lemma chain_view a l b b' : tx_view b' = tx_view b → chain a l b → chain a l b'.
Proof. intros E. induction 1 as [a b Hv|a p f a' l b He Hc IH]; [constructor; by rewrite E|by econstructor; [|apply IH]]. Qed.

Lemma chain_sent a l b l' b' : chain a l b → sent b l' b' → chain a (l ++ l') b'.
Proof.
  induction 1 as [a b Hv|a p f a' l b He Hc IH]; intros Hs; [|by econstructor; [|apply IH]]. cbn [app].
  revert a Hv. induction Hs as [b|b p rng f b1 l b2 E Hs IH]; intros a Hv; [by constructor|].
  destruct (enc_view a b p f b1) as (a1 & He & Hv1); [done|by exists rng|].
  econstructor; [exact He|]. by apply IH.
Qed.

(** What [rx] has still to read of what [tx] sent. *)
Definition flight (R : Compress → Decompress → Prop) (rx : PacketCodec) (l : list (bytes * bytes)) (tx : PacketCodec) : Prop :=
  ∃ tx0, paired R tx0 rx ∧ chain tx0 l tx.

Lemma flight_nil R rx tx : flight R rx [] tx ↔ paired R tx rx.
Proof.
  split.
  - intros (tx0 & Hp & Hc). inversion Hc; subst. by eapply paired_views.
  - intros Hp. exists tx. split; [done|by constructor].
Qed.
Lemma flight_view R rx rx' l tx tx' :
  rx_view rx' = rx_view rx → tx_view tx' = tx_view tx → flight R rx l tx → flight R rx' l tx'.
Proof.
  intros E1 E2 (tx0 & Hp & Hc). exists tx0. split; [by eapply paired_views|by eapply chain_view].
Qed.
Lemma flight_sent R rx l tx l' tx' : flight R rx l tx → sent tx l' tx' → flight R rx (l ++ l') tx'.
Proof. intros (tx0 & Hp & Hc) Hs. exists tx0. split; [done|by eapply chain_sent]. Qed.

Lemma sent_rx a l b : sent a l b → rx_view b = rx_view a.
Proof.
  induction 1 as [|a p rng f a1 l b E Hs IH]; [done|]. rewrite IH. by eapply encode_rx.
Qed.
Lemma sent_clear a l b : sent a l b → clear a → clear b.
Proof.
  induction 1 as [|a p rng f a1 l b E Hs IH]; [done|]. intros Hc. apply IH. eapply enc_clear; [|done]. by exists rng.
Qed.
Lemma clear_view a b : tx_view b = tx_view a → clear a → clear b.
Proof. intros [= E1 E2 E3] [H1 H2]. split; by rewrite ?E2, ?E3. Qed.
Lemma flight_rx_idle R rx l tx : flight R rx l tx → rx_idle rx.
Proof. intros (tx0 & Hp & _). by eapply paired_rx_idle. Qed.
End Flight.

(** ** A frame of the exchange delivered to a driver *)

Section Steps.
Context {P : CipherPrims} {L : CipherLaws P} {CC : CompCol} {C : PureCrypto} {H : KexHash} {K : KexPrims}.
Context (entropy : nat → Rng) (pkg_version : bytes) (R : Compress → Decompress → Prop) (HR : compression_sync R).

Definition sendable (p : bytes) : Prop := transport_msg p ∧ len p < MAX_ENCODABLE_PAYLOAD.

Lemma flight_head rx p f l tx :
  flight R rx ((p, f) :: l) tx → ∃ tx0 tx1, paired R tx0 rx ∧ enc tx0 p f tx1 ∧ chain tx1 l tx.
Proof. intros (tx0 & Hp & Hc). inversion Hc; subst. by eexists _, _. Qed.

(** The runner answers with [outs] and is not done. *)
Lemma input_quiet d s run c pv out b rest f l tx now (Q : list bytes → KexRunner → Prop) :
  dst d s Kex run c pv out [] → inbox d = [] → flight R c ((b :: rest, f) :: l) tx → kex_byte run b → clear c →
  (∀ d0 c1, dst d0 s Kex run c1 pv out [] → seq_in c1 = wrap32 (seq_in c + 1) → ∃ hk ver vc vs outs run',
     kex_env pkg_version s (u8 b) (b :: rest) d0 = Ok (hk, ver, vc, vs) ∧
     runner_on_packet (entropy (draws d0)) (b :: rest) hk ver vc vs run c1 = (Ok (adv outs), (run', c1)) ∧
     is_completed run' = false ∧ Forall sendable outs ∧ Q outs run') →
  ∃ d' outs run' c' lo, driver_input entropy pkg_version f now d = Some (Ok (), d') ∧
    dst d' s Kex run' c' pv (out ++ (snd <$> lo)) [] ∧ inbox d' = [] ∧ fst <$> lo = outs ∧ Q outs run' ∧
    flight R c' l tx ∧ clear c' ∧ (∀ rx li, flight R rx li c → flight R rx (li ++ lo) c').
Proof.
  intros Hd Hi Hfl Hkb Hcl Hrun. destruct (flight_head _ _ _ _ _ Hfl) as (tx0 & tx1 & Hp & He & Hch).
  destruct (input_frame entropy pkg_version R d s Kex run c pv out [] tx0 (b :: rest) f tx1 now HR Hd Hi ltac:(done) Hp He)
    as (c1 & Hp1 & V1 & Hseq & Hin).
  destruct (Hin (λ d', ∃ outs run' c' lo, dst d' s Kex run' c' pv (out ++ (snd <$> lo)) [] ∧ inbox d' = [] ∧
    fst <$> lo = outs ∧ Q outs run' ∧ rx_view c' = rx_view c1 ∧ clear c' ∧
    ∃ c2, sent c1 lo c2 ∧ tx_view c' = tx_view c2)) as (d' & E & outs & run' & c' & lo & Hd' & Hi' & Hl & HQ & Vr & Hc' & c2 & Hs & Vt).
  { intros d0 Hd0 Hib _ _.
    destruct (Hrun (note_activity now d0) c1 (dst_touch _ _ _ _ _ _ _ _ now Hd0) Hseq)
      as (hk & ver & vc & vs & outs & run' & Henv & Hon & Hnc & Hse & HQ).
    assert (Hcl1 : clear c1) by (by eapply clear_view).
    destruct (route_quiet entropy pkg_version d0 s Kex run c1 pv out [] b rest now hk ver vc vs outs run' Hd0 Hkb Henv Hon Hnc Hcl1 Hse)
      as (d3 & lo & c2 & E3 & Hs & Hl & Hd3 & Hi3).
    exists d3. split; [done|]. split; [done|]. rewrite (dst_codec _ _ _ _ _ _ _ _ Hd3).
    pose proof (sent_rx _ _ _ Hs) as Vs.
    split; [eapply paired_rx_idle, (paired_views R tx1 c1 tx1 c2 eq_refl Vs Hp1)|].
    intros c4 W1 W2. exists outs, run', c4, lo. split; [destruct Hd3, d3; by split|].
    split; [done|]. split; [done|]. split; [done|]. split; [by rewrite W2|].
    split; [eapply clear_view; [exact W1|by eapply sent_clear]|]. by exists c2. }
  exists d', outs, run', c', lo. do 5 (split; [done|]).
  split; [exists tx1; split; [by eapply paired_views|done]|]. split; [done|].
  intros rx li Hf. eapply flight_view; [done|exact Vt|]. eapply flight_sent; [|exact Hs].
  by eapply flight_view.
Qed.

(** The peer's NEWKEYS: the keys change between [c1] and [c2]. *)
Lemma input_complete d s run c pv out b rest f tx now sid (Q : list bytes → KexRunner → PacketCodec → PacketCodec → Prop) :
  dst d s Kex run c pv out [] → inbox d = [] → flight R c [(b :: rest, f)] tx → kex_byte run b →
  (∀ d0 c1, dst d0 s Kex run c1 pv out [] → paired R tx c1 → tx_view c1 = tx_view c →
     ∃ hk ver vc vs outs run' c2,
     kex_env pkg_version s (u8 b) (b :: rest) d0 = Ok (hk, ver, vc, vs) ∧
     runner_on_packet (entropy (draws d0)) (b :: rest) hk ver vc vs run c1 =
       (Ok {| adv_outbound := outs; adv_completed := true |}, (run', c2)) ∧
     is_completed run' = true ∧ session_id run' = Some sid ∧ rx_idle c2 ∧
     (outs = [] ∨ ∃ p, outs = [p] ∧ transport_msg p ∧ encodable c2 p) ∧ Q outs run' c1 c2) →
  ∃ d' outs run' c1 c2 c' lo, driver_input entropy pkg_version f now d = Some (Ok (), d') ∧
    dst d' s PostKex run' c' pv (out ++ (snd <$> lo)) [HandshakeComplete] ∧ inbox d' = [] ∧ d_session_id d' = sid ∧
    fst <$> lo = outs ∧ Q outs run' c1 c2 ∧ paired R tx c1 ∧ tx_view c1 = tx_view c ∧
    chain c2 lo c' ∧ rx_view c' = rx_view c2.
Proof.
  intros Hd Hi Hfl Hkb Hrun. destruct (flight_head _ _ _ _ _ Hfl) as (tx0 & tx1 & Hp & He & Hch).
  destruct (input_frame entropy pkg_version R d s Kex run c pv out [] tx0 (b :: rest) f tx1 now HR Hd Hi ltac:(done) Hp He)
    as (c1 & Hp1 & V1 & Hseq & Hin).
  assert (Hptx : paired R tx c1) by (inversion Hch; subst; by eapply paired_views).
  destruct (Hin (λ d', ∃ outs run' c2 c' lo, dst d' s PostKex run' c' pv (out ++ (snd <$> lo)) [HandshakeComplete] ∧
    inbox d' = [] ∧ d_session_id d' = sid ∧ fst <$> lo = outs ∧ Q outs run' c1 c2 ∧ chain c2 lo c' ∧
    rx_view c' = rx_view c2)) as (d' & E & outs & run' & c2 & c' & lo & Hd' & Hi' & Hsid & Hl & HQ & Hc & Vr).
  { intros d0 Hd0 Hib _ _.
    destruct (Hrun (note_activity now d0) c1 (dst_touch _ _ _ _ _ _ _ _ now Hd0) Hptx V1)
      as (hk & ver & vc & vs & outs & run' & c2 & Henv & Hon & Hcp & Hsid & Hidle & Hout & HQ).
    destruct (route_complete entropy pkg_version d0 s run c1 pv out [] b rest now hk ver vc vs outs run' c2 sid
      Hd0 Hkb Henv Hon Hcp Hsid Hout) as (d3 & lo & c3 & E3 & Hs & Hl & Hd3 & Hsid3 & Hi3).
    exists d3. split; [done|]. split; [done|]. rewrite (dst_codec _ _ _ _ _ _ _ _ Hd3).
    pose proof (sent_rx _ _ _ Hs) as Vs.
    split; [injection Vs as _ W2 W3 _; destruct Hidle; split; by rewrite ?W2, ?W3|].
    intros c4 W1 W2. exists outs, run', c2, c4, lo. split; [destruct Hd3, d3; by split|].
    split; [done|]. split; [done|]. split; [done|]. split; [done|]. split; [|by rewrite W2].
    apply (chain_view _ _ c3); [done|]. apply (chain_sent c2 [] c2); [by constructor|done]. }
  by exists d', outs, run', c1, c2, c', lo.
Qed.
End Steps.

(** ** The wiring *)

Section Pump.
Context {P : CipherPrims} {CC : CompCol} {C : PureCrypto} {H : KexHash} {K : KexPrims}.
Context (ce se : nat → Rng) (pkg_version : bytes).

(** Frames handed to [driver_input] one by one, until an error. *)
Fixpoint feed (entropy : nat → Rng) (frames : list bytes) (now : Z) (d : Driver) : option (result unit * Driver) :=
  match frames with
  | [] => Some (Ok (), d)
  | f :: rest =>
      match driver_input entropy pkg_version f now d with
      | Some (Ok _, d) => feed entropy rest now d
      | other => other
      end
  end.

(** [poll_transmit] until there is no frame. *)
Definition flush (d : Driver) : Driver := d <| outbox := [] |>.

(** All frames of the client to the server, then all of the server's. *)
Definition round (now : Z) (c s : Driver) : option (result unit * (Driver * Driver)) :=
  match feed se (outbox c) now s with
  | Some (Ok _, s) =>
      match feed ce (outbox s) now (flush c) with
      | Some (r, c) => Some (r, (c, flush s))
      | None => None
      end
  | Some (Err e, s) => Some (Err e, (flush c, s))
  | None => None
  end.

Fixpoint pump (n : nat) (now : Z) (c s : Driver) : option (result unit * (Driver * Driver)) :=
  match n with
  | O => Some (Ok (), (c, s))
  | S n =>
      match round now c s with
      | Some (Ok _, (c, s)) => pump n now c s
      | other => other
      end
  end.

(** ** Two ends that fit *)

Definition client_advert (over : AlgoOverrides) (n : nat) : KexInit :=
  with_ext_info_marker Client (build_default_kexinit (ce n) over).

(** The key the server signs with under the negotiated name. *)
Definition signing_key (cfg : ServerConfig) (name : bytes) : option HostKey :=
  match pick_host_key (cfg_host_keys cfg) name with
  | Some k => Some (if bytes_eqb (shk_algorithm k) name then shk_key k
                    else default (shk_key k) (shk_upgraded_for k name))
  | None => None
  end.

(** A compression that is not in use before the user is authenticated. *)
Definition delayed (name : bytes) : Prop := ∀ c, compress_by_name name = Some c → compressing c = false.

(** The AES-GCM counter a derived IV starts at has a value left. *)
Definition counters_left (neg : NegotiatedOwned) (be : KexBackend) : Prop :=
  ∀ k h sid keys slot, keys_of neg be k h sid = Ok keys →
    builds (ik_c2s keys) slot ∨ builds (ik_s2c keys) slot → gcm_left slot.

Record compatible (R : Compress → Decompress → Prop) (over : AlgoOverrides) (factory : VerifierFactory)
    (cfg : ServerConfig) (v_c : bytes) (hk : HostKey) (neg : NegotiatedOwned) (be : KexBackend) : Prop := {
  cm_sync : compression_sync R;
  cm_version : client_local_version pkg_version over = Ok v_c;
  cm_v_c : version_ok v_c;
  cm_v_s : version_ok (server_local_version pkg_version cfg);
  cm_ci : kexinit_wf (client_advert over 1);
  cm_si : kexinit_wf (server_advert se cfg 1);
  cm_ci_len : len (kexinit_encode (client_advert over 1)) < MAX_ENCODABLE_PAYLOAD;
  cm_si_len : len (kexinit_encode (server_advert se cfg 1)) < MAX_ENCODABLE_PAYLOAD;
  cm_neg : negotiate (client_advert over 1) (server_advert se cfg 1) = Ok neg;
  cm_be : backend_from_name (ng_kex neg) = Ok be;
  cm_suites : suites_known neg;
  cm_key : signing_key cfg (ng_host_key neg) = Some hk;
  cm_signer : signer_ok hk;
  cm_factory : ∀ n payload r sig, host_key_and_sig payload = Some (public_blob hk, sig) →
    ∃ verify, factory n payload r = Ok verify ∧ accepts hk verify;
  cm_fresh : R NoneCompress NoneDecompress;
  cm_comp_c2s : fresh_sync R (ng_comp_c2s neg) ∧ delayed (ng_comp_c2s neg);
  cm_comp_s2c : fresh_sync R (ng_comp_s2c neg) ∧ delayed (ng_comp_s2c neg);
  cm_counters : counters_left neg be;
  cm_gex : is_gex be = true → ∃ g, gex_group_ok (gex_for_strength (dh_need neg)) g ∧
    match cfg_gex_group_selector cfg with
    | None => default_gex_group (gex_for_strength (dh_need neg)) = g
    | Some select => select (gex_for_strength (dh_need neg)) = Some g
    end;
}.
End Pump.

Section Run.
Context {P : CipherPrims} {L : CipherLaws P} {CC : CompCol} {C : PureCrypto} {CL : PureCryptoLaws C}
        {H : KexHash} {HL : KexHashLaws H} {K : KexPrims} {KL : KexPrimsLaws C K}.
Context (ce se : nat → Rng) (pkg_version : bytes).
Context (R : Compress → Decompress → Prop) (over : AlgoOverrides) (factory : VerifierFactory)
        (cfg : ServerConfig) (v_c : bytes) (hk : HostKey) (neg : NegotiatedOwned) (be : KexBackend).
Context (Hcm : compatible ce se pkg_version R over factory cfg v_c hk neg be).

Abbreviation ci := (client_advert ce over 1).
Abbreviation si := (server_advert se cfg 1).
Abbreviation v_s := (server_local_version pkg_version cfg).
Abbreviation strict := (ng_strict_kex_enabled neg).
Abbreviation cside := (ClientSide over factory).
Abbreviation sside := (ServerSide cfg).

Lemma no_guess : ki_first_kex_packet_follows ci = false ∧ ki_first_kex_packet_follows si = false.
Proof. unfold client_advert, server_advert, with_ext_info_marker. by split; destruct (negb _). Qed.

Lemma kexinit_transport k : transport_msg (kexinit_encode k).
Proof. destruct (kexinit_encode_head k) as (rest & ->). eexists _, rest. split; [done|]. by vm_compute. Qed.

Lemma paired_new : paired R packet_codec_new packet_codec_new.
Proof. split; try done. exact (cm_fresh _ _ _ _ _ _ _ _ _ _ _ Hcm). Qed.

(** *** Before the first frame *)

Lemma enqueue_banner entropy p d : banner_total (enqueue_payload entropy p d).2 = banner_total d.
Proof.
  unfold enqueue_payload, encode_and_queue. destruct (_ && _); [by destruct (_ >? _)|].
  by destruct (encode _ _ _) as [[f|e] c].
Qed.

Lemma client_started now :
  ∃ rc cc f, let d := started ce pkg_version cside now in
    dst d cside AwaitingVersion rc cc [] [v_c ++ CRLF; f] [] ∧ inbox d = [] ∧ banner_total d = 0 ∧
    enc packet_codec_new (kexinit_encode ci) f cc ∧ starting rc Client ci None false ∧
    first_kex rc = true ∧ outbound_ext_info rc = Some client_ext_info ∧ gex_selector rc = None.
Proof.
  unfold started, start. cbn [driver_new side]. unfold client_start.
  rewrite (cm_version _ _ _ _ _ _ _ _ _ _ _ Hcm). unfold start_runner.
  change (draws _) with 1%nat at 1.
  match goal with |- context [with_ext_info_marker Client ?x] => change (with_ext_info_marker Client x) with ci end.
  unfold runner_start. cbn [side_role]. set (run0 := set_outbound_ext_info _ _).
  change (phase run0) with Idle. cbv iota beta. set (run1 := run0 <| phase := SentKexInit |>).
  cbn [adv_outbound enqueue_all]. change (our_advert_bytes run0) with (kexinit_encode ci).
  match goal with |- context [enqueue_payload ce _ ?x] => set (d1 := x) end.
  destruct (enqueue_ok ce d1 cside AwaitingVersion run1 packet_codec_new [] [v_c ++ CRLF] [] (kexinit_encode ci))
    as (d2 & f & cc & Eq & He & Hd2 & _ & Hi2); [by split|apply kexinit_transport|..].
  { apply clear_encodable; [done|]. apply (cm_ci_len _ _ _ _ _ _ _ _ _ _ _ Hcm). }
  rewrite Eq. cbn [snd]. exists run1, cc, f. split; [exact Hd2|]. split; [by rewrite Hi2|].
  split; [|by repeat split].
  pose proof (enqueue_banner ce (kexinit_encode ci) d1) as Hb. by rewrite Eq in Hb.
Qed.

Lemma server_started now :
  let d := started se pkg_version sside now in
  dst d sside AwaitingVersion (runner_new Server (build_server_kexinit (se 0) cfg)) packet_codec_new []
    [v_s ++ CRLF] [] ∧ inbox d = [] ∧ draws d = 1%nat.
Proof. by repeat split. Qed.

Lemma method_init_ok rng : ∃ st m, method_init (Some neg) be rng = Ok (st, m).
Proof.
  destruct (is_gex be) eqn:Hg.
  - destruct be; try discriminate Hg; by eexists _, _.
  - destruct (method_dispatch (Some neg) be Hg rng rng hk (hash_context v_c v_s ci si)
      (cm_signer _ _ _ _ _ _ _ _ _ _ _ Hcm)) as (st & m & _ & _ & _ & E & _). by exists st, m.
Qed.

(** The state of a runner whose KEXINIT exchange is over. *)
Definition ext_state (rl : Role) (ext : ExtInfo) (sel : option GexGroupSelector) :=
  (true, ext_recv rl neg, ext_sends rl neg, Some ext, sel).

(** *** The server reads the client's line and KEXINIT *)
Lemma server_opens now f cc :
  enc packet_codec_new (kexinit_encode ci) f cc →
  ∃ d rs cs fs, feed pkg_version se [v_c ++ CRLF; f] now (started se pkg_version sside now) = Some (Ok (), d) ∧
    dst d sside Kex rs cs v_c [v_s ++ CRLF; fs] [] ∧ inbox d = [] ∧
    (exchanging rs Server si ci neg be None strict ∧ phase rs = Negotiated None ∧
     ext_view rs = ext_state Server (server_ext_info cfg) (cfg_gex_group_selector cfg)) ∧
    flight R cs [] cc ∧ flight R packet_codec_new [(kexinit_encode si, fs)] cs ∧ clear cs.
Proof.
  intros He. pose proof (cm_sync _ _ _ _ _ _ _ _ _ _ _ Hcm) as HR.
  destruct (server_started now) as (Hd0 & Hi0 & Hdr). cbn zeta in *.
  destruct (server_line se pkg_version _ cfg _ _ _ v_c now Hd0 Hi0 (cm_v_c _ _ _ _ _ _ _ _ _ _ _ Hcm))
    as (d1 & run & c1 & cs & fs & E1 & Hd1 & Hi1 & Hes & Vt & Vr & Hst & Hsel & Hneg & Hfk & Hoe).
  { rewrite Hdr. apply (cm_si_len _ _ _ _ _ _ _ _ _ _ _ Hcm). }
  rewrite Hdr in *. cbn [app] in Hd1.
  assert (Hcs : clear cs) by (eapply clear_view; [exact Vt|eapply enc_clear; [exact Hes|done]]).
  destruct (kexinit_encode_head ci) as (rest & Eci). destruct (method_init_ok (se 0)) as (st & m & Hmi).
  destruct (input_quiet se pkg_version R HR d1 sside run cs v_c _ (byte_of_Z 20) rest f [] cc now
    (λ outs rs, outs = [] ∧ exchanging rs Server si ci neg be None strict ∧ phase rs = Negotiated None ∧
     ext_view rs = ext_state Server (server_ext_info cfg) (cfg_gex_group_selector cfg)) Hd1 Hi1)
    as (d2 & ? & rs & c2 & lo & E2 & Hd2 & Hi2 & Hl & [-> HQ] & Hf & Hc2 & Hfl).
  - exists packet_codec_new. split; [eapply paired_views; [done|exact Vr|apply paired_new]|].
    rewrite <- Eci. econstructor; [exact He|by constructor].
  - split; [done|]. intros _. unfold is_kexing. by rewrite (st_phase _ _ _ _ _ Hst).
  - done.
  - intros d0 c3 Hd Hseq.
    assert (Hpl : kexinit_in_place neg None c3).
    { intros _ _. rewrite Hseq. assert (Es : seq_in cs = 0) by (by injection Vr as -> _). by rewrite Es. }
    destruct (on_kexinit (se (draws d0)) (se 0) v_c v_s None None run c3 Server si ci neg be None false st m)
      as (rs & Eon & Hex & Hph); try done; try apply Hcm; [apply no_guess|].
    pose proof (on_kexinit_ext _ _ _ _ _ _ _ _ _ _ _ neg Eon (st_phase _ _ _ _ _ Hst) (st_pending _ _ _ _ _ Hst)
      (cm_ci _ _ _ _ _ _ _ _ _ _ _ Hcm)) as Hx.
    unfold role in Hx. rewrite (st_role _ _ _ _ _ Hst), (st_owned _ _ _ _ _ Hst), Hfk, Hoe, Hsel in Hx.
    specialize (Hx (cm_neg _ _ _ _ _ _ _ _ _ _ _ Hcm)). rewrite Eci in Eon.
    exists None, None, v_c, v_s, [], rs. split.
    { cbn [kex_env]. unfold server_kex_env.
      by rewrite (dst_runner _ _ _ _ _ _ _ _ Hd), Hneg, (dst_peer _ _ _ _ _ _ _ _ Hd). }
    split; [exact Eon|]. split; [unfold is_completed; by rewrite Hph|]. split; [constructor|]. by do 3 (split; [done|]).
  - apply fmap_nil_inv in Hl. subst lo. cbn [feed]. rewrite E1, E2. cbn [fmap list_fmap app] in Hd2.
    exists d2, rs, c2, fs. do 5 (split; [done|]). split; [|done]. apply (Hfl packet_codec_new [(_, fs)]).
    exists packet_codec_new. split; [apply paired_new|]. econstructor; [exact Hes|]. by constructor.
Qed.

(** Where the two are in the conversation: the client's message is out. *)
Definition talking (n : nat) (c s : Driver) : Prop :=
  ∃ rc rs cc cs m f,
    dst c cside Kex rc cc v_s [f] [] ∧ inbox c = [] ∧ dst s sside Kex rs cs v_c [] [] ∧ inbox s = [] ∧
    flight R cs [(m, f)] cc ∧ flight R cc [] cs ∧ clear cc ∧ clear cs ∧
    talk hk v_c v_s neg be None strict n rc rs m ∧
    ext_view rc = ext_state Client client_ext_info None ∧
    ext_view rs = ext_state Server (server_ext_info cfg) (cfg_gex_group_selector cfg).

Lemma method_msg_sendable m : method_msg m → sendable m.
Proof.
  intros [(b & rest & -> & Hb) Hl]. split; [exists b, rest; split; [done|lia]|].
  eapply Z.le_lt_trans; [exact Hl|]. by vm_compute.
Qed.
Lemma talk_msg n rc rs m sid st : talk hk v_c v_s neg be sid st n rc rs m → method_msg m.
Proof. by destruct n as [|n]; intros (_ & ? & _). Qed.

Lemma gex_for_strength_ok n : request_ok (gex_for_strength n).
Proof.
  unfold request_ok, gex_for_strength. cbn [gr_min gr_n gr_max].
  destruct (n * 8 <=? 112), (n * 8 <=? 128), (n * 8 <=? 192); done.
Qed.

Lemma opened_talk rc rs rng st m :
  exchanging rc Client ci si neg be None strict → phase rc = phase_after_kexinit Client st →
  exchanging rs Server si ci neg be None strict → phase rs = Negotiated None →
  gex_selector rs = cfg_gex_group_selector cfg → method_init (Some neg) be rng = Ok (st, m) →
  talk hk v_c v_s neg be None strict (rounds be) rc rs m.
Proof.
  intros Hc Pc Hs Ps Hsel Hm. unfold rounds. destruct (is_gex be) eqn:Hg.
  - destruct (cm_gex _ _ _ _ _ _ _ _ _ _ _ Hcm Hg) as (g & Hgo & Hgs).
    assert (Em : st = StGex (GexSha.client_request (gex_for_strength (dh_need neg))).1 ∧
      m = (GexSha.client_request (gex_for_strength (dh_need neg))).2)
      by (destruct be; try discriminate Hg; by injection Hm as <- <-).
    destruct Em as [-> ->]. apply (gex_talk hk v_c v_s rc rs ci si neg be None strict g); try done; try apply Hcm.
    + apply gex_for_strength_ok.
    + unfold selects. rewrite Hsel. exact Hgs.
  - apply (plain_talk hk v_c v_s rc rs ci si neg be None strict rng st m); try done; try apply Hcm.
    rewrite Pc. pose proof (method_init_gex _ _ _ _ _ Hm) as Hgx. rewrite Hg in Hgx. by destruct st.
Qed.

(** *** The client reads the server's line and KEXINIT *)
Lemma client_opens d rc cc f cs fs rs s now :
  dst d cside AwaitingVersion rc cc [] [] [] → inbox d = [] → banner_total d = 0 →
  enc packet_codec_new (kexinit_encode ci) f cc → starting rc Client ci None false →
  first_kex rc = true → outbound_ext_info rc = Some client_ext_info → gex_selector rc = None →
  dst s sside Kex rs cs v_c [] [] → inbox s = [] →
  (exchanging rs Server si ci neg be None strict ∧ phase rs = Negotiated None ∧
     ext_view rs = ext_state Server (server_ext_info cfg) (cfg_gex_group_selector cfg)) →
  flight R cs [] cc → flight R packet_codec_new [(kexinit_encode si, fs)] cs → clear cs →
  ∃ c, feed pkg_version ce [v_s ++ CRLF; fs] now d = Some (Ok (), c) ∧ talking (rounds be) c s.
Proof.
  intros Hd Hi Hb He Hst Hfk Hoe Hsel Hs His (Hexs & Hphs & Hxs) Hfl Hfs Hcs.
  pose proof (cm_sync _ _ _ _ _ _ _ _ _ _ _ Hcm) as HR. pose proof (enc_rx _ _ _ _ He) as Vr.
  assert (Hidle : rx_idle cc) by (injection Vr as _ V2 V3 _; split; by rewrite ?V2, ?V3).
  destruct (client_line ce pkg_version d over factory rc cc [] [] v_s now Hd Hi Hb Hidle
    (cm_v_s _ _ _ _ _ _ _ _ _ _ _ Hcm)) as (d1 & c1 & E1 & Hd1 & Hi1 & W1 & W2).
  destruct (kexinit_encode_head si) as (rest & Esi).
  assert (Hsels : gex_selector rs = cfg_gex_group_selector cfg) by (by injection Hxs).
  assert (Hc1 : clear c1) by (eapply clear_view; [exact W1|eapply enc_clear; [exact He|done]]).
  destruct (input_quiet ce pkg_version R HR d1 cside rc c1 v_s [] (byte_of_Z 20) rest fs [] cs now
    (λ outs rc', ∃ rng st m, outs = [m] ∧ method_init (Some neg) be rng = Ok (st, m) ∧
       exchanging rc' Client ci si neg be None strict ∧ phase rc' = phase_after_kexinit Client st ∧
       ext_view rc' = ext_state Client client_ext_info None) Hd1 Hi1)
    as (d2 & outs & rc' & c2 & lo & E2 & Hd2 & Hi2 & Hl & (rng & st & m & -> & Hm & Hex & Hph & Hx) & Hf & Hc2 & Hfo).
  - rewrite <- Esi. eapply flight_view; [|done|exact Hfs]. by rewrite W2.
  - split; [done|]. intros _. unfold is_kexing. by rewrite (st_phase _ _ _ _ _ Hst).
  - done.
  - intros d0 c3 Hd0 Hseq. destruct (method_init_ok (ce (draws d0))) as (st & m & Hmi).
    assert (Hpl : kexinit_in_place neg None c3).
    { intros _ _. rewrite Hseq. assert (Es : seq_in c1 = 0) by (rewrite Vr in W2; by injection W2 as -> _). by rewrite Es. }
    destruct (on_kexinit (ce (draws d0)) (ce (draws d0)) v_c v_s None None rc c3 Client ci si neg be None false st m)
      as (rc' & Eon & Hex & Hph); try done; try apply Hcm; [apply no_guess|].
    pose proof (on_kexinit_ext _ _ _ _ _ _ _ _ _ _ _ neg Eon (st_phase _ _ _ _ _ Hst) (st_pending _ _ _ _ _ Hst)
      (cm_si _ _ _ _ _ _ _ _ _ _ _ Hcm)) as Hx.
    unfold role in Hx. rewrite (st_role _ _ _ _ _ Hst), (st_owned _ _ _ _ _ Hst), Hfk, Hoe, Hsel in Hx.
    specialize (Hx (cm_neg _ _ _ _ _ _ _ _ _ _ _ Hcm)). rewrite Esi in Eon.
    pose proof (opened_talk rc' rs (ce (draws d0)) st m Hex Hph Hexs Hphs Hsels Hmi) as Ht.
    exists None, None, v_c, v_s, [m], rc'. split.
    { cbn [kex_env]. unfold client_kex_env.
      rewrite (cm_version _ _ _ _ _ _ _ _ _ _ _ Hcm), (dst_peer _ _ _ _ _ _ _ _ Hd0).
      assert (Eq : ∀ g : bool, (u8 (byte_of_Z 20) =? (if g then SSH_MSG_KEX_DH_GEX_REPLY else SSH_MSG_KEX_ECDH_REPLY)) = false)
        by (by intros []). by rewrite Eq. }
    split; [exact Eon|]. split; [unfold is_completed; rewrite Hph; by destruct st|].
    split; [|by exists (ce (draws d0)), st, m].
    constructor; [|constructor]. by apply method_msg_sendable, (talk_msg _ _ _ _ _ _ Ht).
  - destruct lo as [|[m' fm] [|? ?]]; try discriminate Hl. injection Hl as ->. cbn [feed]. rewrite E1, E2.
    exists d2. split; [done|]. exists rc', rs, c2, cs, m, fm. cbn [fmap list_fmap app snd] in Hd2.
    do 4 (split; [done|]). split.
    { apply (Hfo cs []). eapply flight_view; [done|exact W1|done]. }
    do 3 (split; [done|]). split; [|done]. by eapply opened_talk.
Qed.

Lemma round_opens now :
  ∃ c s, round ce se pkg_version now (started ce pkg_version cside now) (started se pkg_version sside now) =
    Some (Ok (), (c, s)) ∧ talking (rounds be) c s.
Proof.
  destruct (client_started now) as (rc & cc & f & Hd & Hi & Hb & He & Hst & Hfk & Hoe & Hsel). cbn zeta in *.
  destruct (server_opens now f cc He) as (s1 & rs & cs & fs & Es & Hs & His & Hexs & Hfl & Hfs & Hcs).
  set (c0 := started ce pkg_version cside now) in *.
  destruct (client_opens (flush c0) rc cc f cs fs rs (flush s1) now) as (c1 & Ec & Ht);
    try done; [destruct Hd, c0; by split|destruct Hs, s1; by split|..].
  exists c1, (flush s1). split; [|done]. unfold round.
  by rewrite (dst_out _ _ _ _ _ _ _ _ Hd), Es, (dst_out _ _ _ _ _ _ _ _ Hs), Ec.
Qed.

(** *** What each [route_kex] hands to its runner *)

Lemma server_env d rs cs out ev msg payload :
  dst d sside Kex rs cs v_c out ev → kr_negotiated (kx_keys rs) = Some neg →
  kex_env pkg_version sside msg payload d = Ok (Some hk, None, v_c, v_s).
Proof.
  intros Hd Hn. cbn [kex_env]. unfold server_kex_env.
  rewrite (dst_runner _ _ _ _ _ _ _ _ Hd), Hn, (dst_peer _ _ _ _ _ _ _ _ Hd).
  pose proof (cm_key _ _ _ _ _ _ _ _ _ _ _ Hcm) as Hk. unfold signing_key in Hk.
  destruct (pick_host_key _ _) as [k|]; [|done]. injection Hk as ->. done.
Qed.

Lemma client_env d rc cc out ev b payload :
  dst d cside Kex rc cc v_s out ev → kr_backend (kx_keys rc) = Some be → u8 b ≠ reply_byte be →
  kex_env pkg_version cside (u8 b) payload d = Ok (None, None, v_c, v_s).
Proof.
  intros Hd Hb Hn. cbn [kex_env]. unfold client_kex_env, uses_gex.
  rewrite (dst_runner _ _ _ _ _ _ _ _ Hd), Hb. fold (reply_byte be).
  rewrite (proj2 (Z.eqb_neq _ _) Hn), (cm_version _ _ _ _ _ _ _ _ _ _ _ Hcm), (dst_peer _ _ _ _ _ _ _ _ Hd). done.
Qed.

Lemma client_env_newkeys d rc cc out ev :
  dst d cside Kex rc cc v_s out ev →
  kex_env pkg_version cside (u8 (byte_of_Z SSH_MSG_NEWKEYS)) NEWKEYS_PAYLOAD d = Ok (None, None, v_c, v_s).
Proof.
  intros Hd. cbn [kex_env]. unfold client_kex_env.
  rewrite (cm_version _ _ _ _ _ _ _ _ _ _ _ Hcm), (dst_peer _ _ _ _ _ _ _ _ Hd). by destruct (uses_gex _).
Qed.

Lemma client_env_reply d rc cc out ev b payload sig :
  dst d cside Kex rc cc v_s out ev → kr_backend (kx_keys rc) = Some be → u8 b = reply_byte be →
  host_key_and_sig payload = Some (public_blob hk, sig) →
  ∃ verify, kex_env pkg_version cside (u8 b) payload d = Ok (None, Some verify, v_c, v_s) ∧ accepts hk verify.
Proof.
  intros Hd Hb Hn Hs. cbn [kex_env]. unfold client_kex_env, uses_gex.
  rewrite (dst_runner _ _ _ _ _ _ _ _ Hd), Hb. fold (reply_byte be). rewrite Hn, Z.eqb_refl.
  destruct (cm_factory _ _ _ _ _ _ _ _ _ _ _ Hcm (draws d) payload rc sig Hs) as (verify & -> & Ha).
  exists verify. split; [|done]. by rewrite (cm_version _ _ _ _ _ _ _ _ _ _ _ Hcm), (dst_peer _ _ _ _ _ _ _ _ Hd).
Qed.

Lemma method_kex_byte run b rest : method_msg (b :: rest) → kex_byte run b.
Proof.
  intros [(b' & r' & [= <- <-] & Hb) _]. split.
  - unfold is_kex_msg. apply orb_true_intro. right. apply andb_true_intro. split; apply Z.leb_le; lia.
  - unfold SSH_MSG_KEXINIT. lia.
Qed.

Lemma mid_exchange_facts r :
  mid_exchange r = true → is_completed r = false ∧ phase r ≠ SentKexInit ∧ phase r ≠ AwaitingPeerNewKeys.
Proof. unfold mid_exchange, is_completed. by destruct (phase r). Qed.

(** *** A further round of a group exchange *)
Lemma round_talks n c s now :
  talking (S n) c s → ∃ c' s', round ce se pkg_version now c s = Some (Ok (), (c', s')) ∧ talking n c' s'.
Proof.
  intros (rc & rs & cc & cs & m & f & Hc & Hic & Hs & His & Hf1 & Hf2 & Hcc & Hcs & Ht & Hxc & Hxs).
  pose proof (cm_sync _ _ _ _ _ _ _ _ _ _ _ Hcm) as HR.
  cbn [talk] in Ht. destruct Ht as ((Hbe & Hneg & Hmc & Hms) & Hmm & Ht).
  destruct (mid_exchange_facts _ Hmc) as (_ & Pc1 & Pc2). destruct (mid_exchange_facts _ Hms) as (_ & Ps1 & Ps2).
  assert (Hm : ∃ b rest, m = b :: rest) by (destruct Hmm as [(b & rest & -> & _) _]; by exists b, rest).
  destruct Hm as (b & rest & ->).
  destruct (input_quiet se pkg_version R HR s sside rs cs v_c [] b rest f [] cc now
    (λ outs rs', ∃ m1, outs = [m1] ∧ method_msg m1 ∧ ¬ first_byte (reply_byte be) m1 ∧ ext_view rs' = ext_view rs ∧
       ∀ rng_c cc, ∃ rc' m2, runner_on_packet rng_c m1 None None v_c v_s rc cc = (Ok (adv [m2]), (rc', cc)) ∧
         talk hk v_c v_s neg be None strict n rc' rs' m2) Hs His Hf1)
    as (s1 & ? & rs' & cs1 & lo & Es & Hs1 & His1 & Hl & (m1 & -> & Hm1 & Hnr & Hx1 & Hnext) & Hfa & Hcs1 & Hfo).
  { by eapply method_kex_byte. } { done. }
  { intros d0 c1 Hd0 _. destruct (Ht (se (draws d0)) c1) as (m1 & rs' & Eon & Hm1 & Hnr & Hms' & Hnext).
    exists (Some hk), None, v_c, v_s, [m1], rs'. split; [by eapply server_env|]. split; [exact Eon|].
    split; [by apply mid_exchange_facts|]. split; [constructor; [by apply method_msg_sendable|constructor]|].
    exists m1. do 3 (split; [done|]). split; [by eapply on_packet_ext|done]. }
  destruct lo as [|[m1' f1] [|? ?]]; try discriminate Hl. injection Hl as ->. cbn [fmap list_fmap app snd] in Hs1.
  assert (Hm : ∃ b1 rest1, m1 = b1 :: rest1 ∧ u8 b1 ≠ reply_byte be).
  { destruct Hm1 as [(b1 & rest1 & -> & _) _]. exists b1, rest1. split; [done|]. intros E. apply Hnr. by exists b1, rest1. }
  destruct Hm as (b1 & rest1 & -> & Hnb).
  destruct (input_quiet ce pkg_version R HR (flush c) cside rc cc v_s [] b1 rest1 f1 [] cs1 now
    (λ outs rc', ∃ m2, outs = [m2] ∧ ext_view rc' = ext_view rc ∧ talk hk v_c v_s neg be None strict n rc' rs' m2))
    as (c1 & ? & rc' & cc1 & lo & Ec & Hc1 & Hic1 & Hl & (m2 & -> & Hx2 & Htk) & Hfb & Hcc1 & Hfo2).
  { destruct Hc, c; by split. } { done. } { apply (Hfo cc []). done. } { by eapply method_kex_byte. } { done. }
  { intros d0 c2 Hd0 _. destruct (Hnext (ce (draws d0)) c2) as (rc' & m2 & Eon & Htk).
    exists None, None, v_c, v_s, [m2], rc'. split; [by eapply client_env|]. split; [exact Eon|].
    assert (Hmc' : mid_exchange rc' = true) by (by destruct n; destruct Htk as ((_ & _ & ? & _) & _)).
    split; [by apply mid_exchange_facts|].
    split; [constructor; [by eapply method_msg_sendable, talk_msg|constructor]|].
    exists m2. split; [done|]. split; [by eapply on_packet_ext|done]. }
  destruct lo as [|[m2' f2] [|? ?]]; try discriminate Hl. injection Hl as ->. cbn [fmap list_fmap app snd] in Hc1.
  exists c1, (flush s1). split.
  { unfold round. rewrite (dst_out _ _ _ _ _ _ _ _ Hc). cbn [feed]. rewrite Es. cbn [feed].
    rewrite (dst_out _ _ _ _ _ _ _ _ Hs1). cbn [feed]. by rewrite Ec. }
  exists rc', rs', cc1, cs1, m2, f2. split; [done|]. split; [done|]. split; [destruct Hs1, s1; by split|].
  split; [done|]. split; [apply (Hfo2 cs1 []); done|]. do 4 (split; [done|]). by rewrite Hx1, Hx2.
Qed.

(** *** NEWKEYS *)

Definition ext_out (rl : Role) (ext : ExtInfo) : list bytes := if ext_sends rl neg then [ext_info_encode ext] else [].

Lemma ext_transport ext : transport_msg (ext_info_encode ext).
Proof. rewrite ext_info_encode_eq. eexists _, _. split; [done|]. by vm_compute. Qed.

Lemma newkeys_byte run : kex_byte run (byte_of_Z SSH_MSG_NEWKEYS).
Proof. by split. Qed.
Lemma newkeys_sendable : sendable NEWKEYS_PAYLOAD.
Proof. split; [eexists _, _; split; [done|by vm_compute]|by vm_compute]. Qed.

(** Either end at the peer's NEWKEYS. *)
Lemma newkeys_step rng hko ver rl r c1 keys k h ext sel :
  awaiting r rl neg keys h h strict → keys_of neg be k h h = Ok keys → ext_view r = ext_state rl ext sel →
  ext_fits ext → clear c1 →
  ∃ r' c2, runner_on_packet rng NEWKEYS_PAYLOAD hko ver v_c v_s r c1 =
      (Ok {| adv_outbound := ext_out rl ext; adv_completed := true |}, (r', c2)) ∧
    maybe_install (with_peer_newkeys r) c1 = (Ok (), c2) ∧ is_completed r' = true ∧ session_id r' = Some h ∧
    rx_idle c2 ∧
    (ext_out rl ext = [] ∨ ∃ p, ext_out rl ext = [p] ∧ transport_msg p ∧ encodable c2 p) ∧
    accept_ext_info_now r' = ext_recv rl neg.
Proof.
  intros Haw Hk Hx (_ & _ & Hl) [Hc1 Hc2].
  destruct (keys_of_ok neg be k h h (cm_suites _ _ _ _ _ _ _ _ _ _ _ Hcm)) as (keys' & sc & ss & Ek & Bc & Bs).
  assert (keys' = keys) as -> by congruence.
  destruct (cm_comp_c2s _ _ _ _ _ _ _ _ _ _ _ Hcm) as [(oc & dc & Eoc & Edc & _) Dc].
  destruct (cm_comp_s2c _ _ _ _ _ _ _ _ _ _ _ Hcm) as [(os & ds & Eos & Eds & _) Ds].
  destruct (maybe_install_spec (with_peer_newkeys r) rl neg keys strict c1 sc ss
    (match rl with Client => oc | Server => os end) (match rl with Client => ds | Server => dc end))
    as (c2 & Hi & Ho & Hin & Hp & _ & _ & _ & _ & _ & _ & Hoc & _); [by eapply awaiting_ready|done|done|by destruct rl..|].
  destruct (on_newkeys rng hko ver v_c v_s r c1 c2 rl neg keys h h strict Haw Hi) as (r' & Eon & Hcp).
  pose proof (on_newkeys_ext _ _ _ _ _ _ _ _ _ _ Eon (aw_phase _ _ _ _ _ _ _ Haw) (aw_pending _ _ _ _ _ _ _ Haw)) as Hacc.
  injection Hx as X1 X2 X3 X4 X5.
  assert (Hdue : ext_info_due r = ext_out rl ext) by (unfold ext_info_due, ext_out; by rewrite X1, X3, X4).
  rewrite Hdue in Eon. exists r', c2. split; [exact Eon|]. split; [done|].
  split; [unfold is_completed; by rewrite (cp_phase _ _ _ _ _ _ Hcp)|].
  split; [exact (cp_sid _ _ _ _ _ _ Hcp)|].
  destruct (Bc) as (? & ? & _ & _ & Wc), (Bs) as (? & ? & _ & _ & Ws).
  split; [split; [rewrite Hin; by destruct rl|done]|].
  split; [|by rewrite Hacc, X1, X2].
  unfold ext_out. destruct (ext_sends rl neg); [right|by left]. eexists. split; [done|]. split; [apply ext_transport|].
  rewrite Hc2 in Hoc. split; [rewrite Ho; by destruct rl|].
  split; [rewrite Hoc; destruct rl; [by apply Dc|by apply Ds]|]. split; [by apply Z.ltb_lt|].
  rewrite Ho. destruct rl; eapply (cm_counters _ _ _ _ _ _ _ _ _ _ _ Hcm); [exact Ek|by left|exact Ek|by right].
Qed.

(** The server has answered with its reply and NEWKEYS. *)
Definition replied (rc : KexRunner) (cc : PacketCodec) (s : Driver) (f1 f2 : bytes) : Prop :=
  ∃ rs cs b1 rest1 keys k h sig,
    dst s sside Kex rs cs v_c [f1; f2] [] ∧ inbox s = [] ∧ clear cs ∧ flight R cs [] cc ∧
    flight R cc [(b1 :: rest1, f1); (NEWKEYS_PAYLOAD, f2)] cs ∧
    awaiting rs Server neg keys h h strict ∧ keys_of neg be k h h = Ok keys ∧
    ext_view rs = ext_state Server (server_ext_info cfg) (cfg_gex_group_selector cfg) ∧
    u8 b1 = reply_byte be ∧ method_msg (b1 :: rest1) ∧ host_key_and_sig (b1 :: rest1) = Some (public_blob hk, sig) ∧
    ∀ rng_c cc verify, accepts hk verify → ∃ rc',
      runner_on_packet rng_c (b1 :: rest1) None (Some verify) v_c v_s rc cc = (Ok (adv [NEWKEYS_PAYLOAD]), (rc', cc)) ∧
      awaiting rc' Client neg keys h h strict.

Lemma server_replies c s now :
  talking 0 c s → ∃ rc cc f f1 f2 s', feed pkg_version se [f] now s = Some (Ok (), s') ∧
    dst c cside Kex rc cc v_s [f] [] ∧ inbox c = [] ∧ clear cc ∧ kr_backend (kx_keys rc) = Some be ∧
    mid_exchange rc = true ∧ ext_view rc = ext_state Client client_ext_info None ∧ replied rc cc s' f1 f2.
Proof.
  intros (rc & rs & cc & cs & m & f & Hc & Hic & Hs & His & Hf1 & Hf2 & Hcc & Hcs & Ht & Hxc & Hxs).
  pose proof (cm_sync _ _ _ _ _ _ _ _ _ _ _ Hcm) as HR.
  cbn [talk] in Ht. destruct Ht as ((Hbe & Hneg & Hmc & Hms) & Hmm & Ht).
  destruct (mid_exchange_facts _ Hms) as (_ & Ps1 & Ps2).
  assert (Hm : ∃ b rest, m = b :: rest) by (destruct Hmm as [(b & rest & -> & _) _]; by exists b, rest).
  destruct Hm as (b & rest & ->).
  destruct (input_quiet se pkg_version R HR s sside rs cs v_c [] b rest f [] cc now
    (λ outs rs', ∃ b1 rest1 keys k h sig, outs = [b1 :: rest1; NEWKEYS_PAYLOAD] ∧ ext_view rs' = ext_view rs ∧
       awaiting rs' Server neg keys h h strict ∧ keys_of neg be k h h = Ok keys ∧ u8 b1 = reply_byte be ∧
       method_msg (b1 :: rest1) ∧ host_key_and_sig (b1 :: rest1) = Some (public_blob hk, sig) ∧
       ∀ rng_c cc verify, accepts hk verify → ∃ rc',
         runner_on_packet rng_c (b1 :: rest1) None (Some verify) v_c v_s rc cc = (Ok (adv [NEWKEYS_PAYLOAD]), (rc', cc)) ∧
         awaiting rc' Client neg keys h h strict) Hs His Hf1)
    as (s1 & ? & rs' & cs1 & lo & Es & Hs1 & His1 & Hl &
        (b1 & rest1 & keys & k & h & sig & -> & Hx1 & Haw & Hk & Hb1 & Hm1 & Hsig & Hnext) & Hfa & Hcs1 & Hfo).
  { by eapply method_kex_byte. } { done. }
  { intros d0 c1 Hd0 _.
    destruct (Ht (se (draws d0)) c1) as (m1 & rs' & Eon & Hm1 & (b1 & rest1 & -> & Hb1) & keys & h & sig & Haw & (k & Hk) & Hsig & Hnext).
    exists (Some hk), None, v_c, v_s, [b1 :: rest1; NEWKEYS_PAYLOAD], rs'. split; [by eapply server_env|].
    split; [exact Eon|]. split; [unfold is_completed; by rewrite (aw_phase _ _ _ _ _ _ _ Haw)|].
    split; [repeat constructor; try apply newkeys_sendable; by apply method_msg_sendable|].
    exists b1, rest1, keys, k, h, sig. split; [done|]. split; [by eapply on_packet_ext|]. done. }
  destruct lo as [|[m1' f1] [|[m2' f2] [|? ?]]]; try discriminate Hl. injection Hl as -> ->.
  exists rc, cc, f, f1, f2, s1. cbn [feed]. rewrite Es. do 7 (split; [done|]).
  exists rs', cs1, b1, rest1, keys, k, h, sig. do 4 (split; [done|]).
  split; [by apply (Hfo cc [])|]. do 2 (split; [done|]). by rewrite Hx1.
Qed.

(** The client is done; the server has its NEWKEYS and EXT_INFO to read. *)
Definition closing (c s : Driver) : Prop :=
  ∃ rc0 rc rs cc cs c1 c2 keys k h f lo,
    dst c cside PostKex rc cc v_s (f :: (snd <$> lo)) [HandshakeComplete] ∧ inbox c = [] ∧ d_session_id c = h ∧
    awaiting rc0 Client neg keys h h strict ∧ maybe_install (with_peer_newkeys rc0) c1 = (Ok (), c2) ∧
    fst <$> lo = ext_out Client client_ext_info ∧ chain c2 lo cc ∧ rx_view cc = rx_view c2 ∧
    accept_ext_info_now rc = ext_recv Client neg ∧
    dst s sside Kex rs cs v_c [] [] ∧ inbox s = [] ∧ clear cs ∧ keys_of neg be k h h = Ok keys ∧
    awaiting rs Server neg keys h h strict ∧
    ext_view rs = ext_state Server (server_ext_info cfg) (cfg_gex_group_selector cfg) ∧
    flight R cs [(NEWKEYS_PAYLOAD, f)] c1 ∧ paired R cs c1.

Lemma client_ext_fits : ext_fits client_ext_info.
Proof. split; [by repeat constructor|]. split; by vm_compute. Qed.

Lemma round_last c s now :
  talking 0 c s → ∃ c' s', round ce se pkg_version now c s = Some (Ok (), (c', s')) ∧ closing c' s'.
Proof.
  intros (rc & cc & f & f1 & f2 & s1 & Es & Hc & Hic & Hcc & Hbe & Hmc & Hxc & Hrep)%(server_replies c s now).
  destruct Hrep as (rs & cs & b1 & rest1 & keys & k & h & sig & Hs1 & His1 & Hcs & Hfl & Hf & Haw & Hk & Hxs & Hb1 & Hm1 & Hsig & Hnext).
  pose proof (cm_sync _ _ _ _ _ _ _ _ _ _ _ Hcm) as HR. destruct (mid_exchange_facts _ Hmc) as (_ & Pc1 & Pc2).
  destruct (input_quiet ce pkg_version R HR (flush c) cside rc cc v_s [] b1 rest1 f1 [(NEWKEYS_PAYLOAD, f2)] cs now
    (λ outs rc', outs = [NEWKEYS_PAYLOAD] ∧ awaiting rc' Client neg keys h h strict ∧ ext_view rc' = ext_view rc))
    as (c1 & ? & rc1 & cc1 & lo & Ec1 & Hc1 & Hic1 & Hl & (-> & Hawc & Hx1) & Hfb & Hcc1 & Hfo).
  { destruct Hc, c; by split. } { done. } { done. } { by eapply method_kex_byte. } { done. }
  { intros d0 c2 Hd0 _.
    destruct (client_env_reply d0 rc c2 [] [] b1 (b1 :: rest1) sig Hd0 Hbe Hb1 Hsig) as (verify & Henv & Hacc).
    destruct (Hnext (ce (draws d0)) c2 verify Hacc) as (rc' & Eon & Hawc).
    exists None, (Some verify), v_c, v_s, [NEWKEYS_PAYLOAD], rc'. do 2 (split; [done|]).
    split; [unfold is_completed; by rewrite (aw_phase _ _ _ _ _ _ _ Hawc)|].
    split; [by repeat constructor; apply newkeys_sendable|]. do 2 (split; [done|]). by eapply on_packet_ext. }
  destruct lo as [|[nk f3] [|? ?]]; try discriminate Hl. injection Hl as ->. cbn [fmap list_fmap app snd] in Hc1.
  destruct (input_complete ce pkg_version R HR c1 cside rc1 cc1 v_s [f3] (byte_of_Z SSH_MSG_NEWKEYS) [] f2 cs now h
    (λ outs rc2 ca cb, outs = ext_out Client client_ext_info ∧ maybe_install (with_peer_newkeys rc1) ca = (Ok (), cb) ∧
       accept_ext_info_now rc2 = ext_recv Client neg) Hc1 Hic1 Hfb (newkeys_byte _))
    as (c2 & ? & rc2 & ca & cb & cc2 & lo & Ec2 & Hc2 & Hic2 & Hsid & Hl & (-> & Hi & Ha) & Hpa & Vt & Hch & Vr).
  { intros d0 c2 Hd0 Hp Vt. destruct (newkeys_step (ce (draws d0)) None None Client rc1 c2 keys k h client_ext_info None)
      as (rc2 & cb & Eon & Hi & Hcp & Hsid & Hidle & Hout & Ha);
      [done|done|by rewrite Hx1|apply client_ext_fits|by eapply clear_view|].
    exists None, None, v_c, v_s, (ext_out Client client_ext_info), rc2, cb. split; [by eapply client_env_newkeys|done]. }
  exists c2, (flush s1). split.
  { unfold round. rewrite (dst_out _ _ _ _ _ _ _ _ Hc), Es, (dst_out _ _ _ _ _ _ _ _ Hs1). cbn [feed]. by rewrite Ec1, Ec2. }
  exists rc1, rc2, rs, cc2, cs, ca, cb, keys, k, h, f3, lo. do 9 (split; [done|]).
  split; [destruct Hs1, s1; by split|]. do 5 (split; [done|]).
  split; [|done]. eapply flight_view; [done|exact Vt|]. by apply (Hfo cs []).
Qed.

(** *** EXT_INFO *)

Lemma feed_ext entropy d s run c pv out ev rl ext lo tx now :
  dst d s PostKex run c pv out ev → inbox d = [] → flight R c lo tx → fst <$> lo = ext_out rl ext →
  (ext_sends rl neg = true → accept_ext_info_now run = true) → ext_fits ext →
  ∃ d' run' c', feed pkg_version entropy (snd <$> lo) now d = Some (Ok (), d') ∧
    dst d' s PostKex run' c' pv out ev ∧ inbox d' = [] ∧ d_session_id d' = d_session_id d ∧
    paired R tx c' ∧ tx_view c' = tx_view c.
Proof.
  intros Hd Hi Hf Hl Ha (Hp & Hn & Hlen). unfold ext_out in Hl. destruct (ext_sends rl neg).
  2: { apply fmap_nil_inv in Hl. subst lo. apply flight_nil in Hf. by exists d, run, c. }
  destruct lo as [|[p f] [|? ?]]; try discriminate Hl. injection Hl as ->. cbn [fmap list_fmap snd feed].
  destruct (flight_head _ _ _ _ _ _ Hf) as (tx0 & tx1 & Hp0 & He & Hch).
  destruct (input_frame entropy pkg_version R d s PostKex run c pv out ev tx0 (ext_info_encode ext) f tx1 now
    (cm_sync _ _ _ _ _ _ _ _ _ _ _ Hcm) Hd Hi ltac:(done) Hp0 He) as (c1 & Hp1 & V1 & _ & Hin).
  destruct (Hin (λ d', ∃ run' c', dst d' s PostKex run' c' pv out ev ∧ inbox d' = [] ∧ d_session_id d' = d_session_id d ∧
    tx_view c' = tx_view c1 ∧ rx_view c' = rx_view c1)) as (d' & E & run' & c' & Hd' & Hi' & Hsid & W1 & W2).
  { intros d0 Hd0 _ _ Hs0.
    destruct (route_ext_info_ok entropy pkg_version d0 s run c1 pv out ev ext now Hd0 (Ha eq_refl))
      as (d1 & run' & E1 & Hd1 & _ & _ & Hs1 & Hi1).
    { rewrite ext_info_roundtrip; [by eexists|done|done|]. unfold fits_mem.
      assert (MAX_ENCODABLE_PAYLOAD ≤ U64_MAX) by (by vm_compute). lia. }
    exists d1. split; [done|]. split; [done|]. rewrite (dst_codec _ _ _ _ _ _ _ _ Hd1).
    split; [by eapply paired_rx_idle|]. intros c2 W1 W2. exists run', c2. split; [destruct Hd1, d1; by split|].
    split; [done|]. split; [by rewrite <- Hs0|done]. }
  rewrite E. exists d', run', c'. do 4 (split; [done|]). split; [|by rewrite W1].
  inversion Hch; subst. by eapply paired_views; [..|exact Hp1].
Qed.

(** Both ends are done and their codecs in step. *)
Record finished (c s : Driver) : Prop := {
  fin_done : handshake_done c = true ∧ handshake_done s = true;
  fin_session : d_session_id c = d_session_id s;
  fin_c2s : paired R (codec c) (codec s);
  fin_s2c : paired R (codec s) (codec c);
  fin_outbox : outbox c = [] ∧ outbox s = [];
  fin_events : events c = [HandshakeComplete] ∧ events s = [HandshakeComplete];
}.

Lemma ext_round c s rc rs cc cs c2 cb lo lo2 f now s0 :
  dst c cside PostKex rc cc v_s (f :: (snd <$> lo)) [HandshakeComplete] → inbox c = [] →
  dst s sside PostKex rs cs v_c (snd <$> lo2) [HandshakeComplete] → inbox s = [] → d_session_id s = d_session_id c →
  fst <$> lo = ext_out Client client_ext_info → chain c2 lo cc → rx_view cc = rx_view c2 →
  fst <$> lo2 = ext_out Server (server_ext_info cfg) → chain cb lo2 cs → rx_view cs = rx_view cb →
  accept_ext_info_now rc = ext_recv Client neg → accept_ext_info_now rs = ext_recv Server neg →
  paired R c2 cb → paired R cb c2 → driver_input se pkg_version f now s0 = Some (Ok (), s) →
  ∃ c' s', round ce se pkg_version now c s0 = Some (Ok (), (c', s')) ∧ finished c' s'.
Proof.
  intros Hc Hic Hs His Hsid Hl Hch Vr Hl2 Hch2 Vr2 Hac Has Hp1 Hp2 E0.
  destruct (feed_ext se s sside rs cs v_c (snd <$> lo2) [HandshakeComplete] Client client_ext_info lo cc now Hs His)
    as (s1 & rs1 & cs1 & E1 & Hs1 & His1 & Hsid1 & Hpa & Vt1);
    [exists c2; split; [by eapply paired_views|done]|done|by rewrite Has|apply client_ext_fits|].
  destruct (feed_ext ce (flush c) cside rc cc v_s [] [HandshakeComplete] Server (server_ext_info cfg) lo2 cs1 now)
    as (c1 & rc1 & cc1 & E2 & Hc1 & Hic1 & Hsid2 & Hpb & Vt2);
    [by destruct Hc, c; split|done| |done|by rewrite Hac|apply server_ext_fits|].
  { exists cb. split; [by eapply paired_views|by eapply chain_view]. }
  exists c1, (flush s1). split.
  - unfold round. rewrite (dst_out _ _ _ _ _ _ _ _ Hc). cbn [feed]. by rewrite E0, E1, (dst_out _ _ _ _ _ _ _ _ Hs1), E2.
  - change (d_session_id (flush c)) with (d_session_id c) in Hsid2.
    assert (Hpc : paired R cc1 cs1) by (by eapply paired_views; [exact Vt2|done|exact Hpa]).
    assert (Pc : dphase c1 = PostKex) by apply Hc1. assert (Ps : dphase s1 = PostKex) by apply Hs1.
    destruct Hc1, Hs1. subst rc1 cc1 rs1 cs1. split; try (split; done); try done; try congruence.
    + unfold handshake_done. change (dphase (flush s1)) with (dphase s1).
      by rewrite Pc, Ps.
    + change (d_session_id (flush s1)) with (d_session_id s1). congruence.
Qed.

Lemma round_final c s now :
  closing c s → ∃ c' s', round ce se pkg_version now c s = Some (Ok (), (c', s')) ∧ finished c' s'.
Proof.
  intros (rc0 & rc & rs & cc & cs & c1 & c2 & keys & k & h & f & lo & Hc & Hic & Hsc & Hawc & Hi & Hl & Hch & Vr &
    Hacc & Hs & His & Hcs & Hk & Haws & Hxs & Hf & Hp).
  pose proof (cm_sync _ _ _ _ _ _ _ _ _ _ _ Hcm) as HR.
  destruct (input_complete se pkg_version R HR s sside rs cs v_c [] (byte_of_Z SSH_MSG_NEWKEYS) [] f c1 now h
    (λ outs rs2 ca cb, outs = ext_out Server (server_ext_info cfg) ∧ maybe_install (with_peer_newkeys rs) ca = (Ok (), cb) ∧
       accept_ext_info_now rs2 = ext_recv Server neg) Hs His Hf (newkeys_byte _))
    as (s1 & ? & rs2 & ca & cb & cs2 & lo2 & Es1 & Hs1 & His1 & Hsid & Hl2 & (-> & Hi2 & Ha) & Hpa & Vt & Hch2 & Vr2).
  { intros d0 c3 Hd0 _ Vt.
    destruct (newkeys_step (se (draws d0)) (Some hk) None Server rs c3 keys k h (server_ext_info cfg) (cfg_gex_group_selector cfg))
      as (rs2 & cb & Eon & Hi2 & Hcp & Hsid & Hidle & Hout & Ha);
      [done|done|done|apply server_ext_fits|by eapply clear_view|].
    exists (Some hk), None, v_c, v_s, (ext_out Server (server_ext_info cfg)), rs2, cb. split; [|done].
    eapply server_env; [exact Hd0|]. by rewrite (aw_neg _ _ _ _ _ _ _ Haws). }
  destruct (keys_of_ok neg be k h h (cm_suites _ _ _ _ _ _ _ _ _ _ _ Hcm)) as (keys' & sc & ss & Ek & Bc & Bs).
  assert (keys' = keys) as -> by congruence.
  assert (Hpb : paired R ca c1) by (by eapply paired_views; [exact Vt|done|exact Hp]).
  destruct (install_in_step R (with_peer_newkeys rc0) (with_peer_newkeys rs) neg keys strict sc ss c1 ca)
    as (c2' & cb' & Ei & Ei2 & Hcs2 & Hsc2 & _); try done; try (by eapply awaiting_ready); try apply Hcm;
    try (symmetry; apply pair_seq with (R := R)); try done; try (by eapply pair_compress).
  rewrite Hi in Ei. injection Ei as <-. rewrite Hi2 in Ei2. injection Ei2 as <-. cbn [app] in Hs1.
  by apply (ext_round c s1 rc rs2 cc cs2 c2 cb lo lo2 f now s); try congruence.
Qed.

Lemma pump_step n now c s c' s' :
  round ce se pkg_version now c s = Some (Ok (), (c', s')) →
  pump ce se pkg_version (S n) now c s = pump ce se pkg_version n now c' s'.
Proof. cbn [pump]. by intros ->. Qed.

Lemma pump_talking n c s now :
  talking n c s → ∃ c' s', pump ce se pkg_version (n + 2) now c s = Some (Ok (), (c', s')) ∧ finished c' s'.
Proof.
  revert c s. induction n as [|n IH]; intros c s Ht.
  - destruct (round_last c s now Ht) as (c1 & s1 & E1 & Hc). destruct (round_final c1 s1 now Hc) as (c2 & s2 & E2 & Hf).
    exists c2, s2. cbn [Nat.add]. by rewrite (pump_step _ _ _ _ _ _ E1), (pump_step _ _ _ _ _ _ E2).
  - destruct (round_talks n c s now Ht) as (c1 & s1 & E1 & Ht1). cbn [Nat.add].
    rewrite (pump_step _ _ _ _ _ _ E1). by apply IH.
Qed.
End Run.

