(* ===== verification/PacketDemo.v ===== *)
(** * The packet theorems on concrete codecs

    Instances of the packet layer's theorems with the primitives of
    [demo_prims]: aes128-ctr with hmac-sha2-256 (encrypt-and-MAC), aes256-gcm,
    chacha20-poly1305 and aes128-cbc; then the key exchange on concrete
    values. *)
From S2P Require Import Prelude Wire Cipher Compress Packet PacketFacts PacketSafe.

#[local] Existing Instances demo_prims demo_prims_laws demo_compcol.

Definition demo_key (n : nat) : bytes := (λ i, byte_of_Z (Z.of_nat i)) <$> seq 7 n.
Definition demo_rng : Rng := λ i, byte_of_Z (Z.of_nat i * 3 + 1).

(** A cipher and a MAC of the catalogues. *)
Definition demo_cipher (name : string) (key iv : nat) : SshCipher :=
  match cipher_by_name (bs name) (demo_key key) (demo_key iv) with
  | Some (Ok c) => c
  | _ => CipherCtr (Ctr128 0)
  end.
Definition demo_mac (name : string) (key : nat) : option SshMac := mac_by_name (bs name) (demo_key key).

Definition demo_tx (c : SshCipher) (m : option SshMac) : PacketCodec :=
  (install_outbound c m packet_codec_new).2.
Definition demo_rx (c : SshCipher) (m : option SshMac) : PacketCodec :=
  (install_inbound c m packet_codec_new).2.

Definition demo_encode (tx : PacketCodec) (payload : bytes) : bytes * PacketCodec :=
  match encode tx payload demo_rng with
  | (Ok frame, tx') => (frame, tx')
  | (Err _, tx') => ([], tx')
  end.

(** Evaluating an encoding up to its outcome is enough to know it. *)
Lemma demo_encode_ok tx payload :
  is_ok (encode tx payload demo_rng).1 = true →
  encode tx payload demo_rng = (Ok (demo_encode tx payload).1, (demo_encode tx payload).2).
Proof. unfold demo_encode. by destruct (encode tx payload demo_rng) as [[frame|e] tx']. Qed.

(** No compression on either side. *)
Definition no_compression (c : Compress) (d : Decompress) : Prop :=
  c = NoneCompress ∧ d = NoneDecompress.
Lemma no_compression_sync : compression_sync no_compression.
Proof.
  split.
  - by intros c d [-> ->].
  - intros c d x y c' [-> ->] [= <- <-]. by exists NoneDecompress.
Qed.

Definition ctr_cipher : SshCipher := demo_cipher "aes128-ctr" 16 16.
Definition ctr_tx : PacketCodec := demo_tx ctr_cipher (demo_mac "hmac-sha2-256" 32).
Definition ctr_rx : PacketCodec := demo_rx ctr_cipher (demo_mac "hmac-sha2-256" 32).
Definition ctr_send1 : bytes * PacketCodec := demo_encode ctr_tx (bs "hello").
Definition ctr_send2 : bytes * PacketCodec := demo_encode ctr_send1.2 (bs "second packet, longer").

(** One byte at a time. *)
Definition byte_chunks (b : bytes) : list bytes := (λ x, [x]) <$> b.

Lemma ctr_paired : paired no_compression ctr_tx ctr_rx.
Proof.
  split; try reflexivity.
  - vm_compute. split; [reflexivity|]. split; discriminate.
  - split; reflexivity.
Qed.

Lemma ctr_sent :
  sent ctr_tx [(bs "hello", ctr_send1.1); (bs "second packet, longer", ctr_send2.1)] ctr_send2.2.
Proof.
  apply (sent_cons _ _ demo_rng _ ctr_send1.2); [apply demo_encode_ok; vm_compute; reflexivity|].
  apply (sent_cons _ _ demo_rng _ ctr_send2.2); [apply demo_encode_ok; vm_compute; reflexivity|].
  apply sent_nil.
Qed.

Lemma packets_delivered_witness :
  ∃ rx', deliver collect (ctr_rx, []) [] (byte_chunks (ctr_send1.1 ++ ctr_send2.1)) =
    Some (Ok (), (rx', [bs "hello"; bs "second packet, longer"]), []) ∧
    paired no_compression ctr_send2.2 rx'.
Proof.
  apply (packets_delivered no_compression ctr_tx ctr_rx
    [(bs "hello", ctr_send1.1); (bs "second packet, longer", ctr_send2.1)] ctr_send2.2
    (byte_chunks (ctr_send1.1 ++ ctr_send2.1)) no_compression_sync ctr_paired ctr_sent).
  - vm_compute. reflexivity.
  - apply Forall_fmap, Forall_true. intros x. vm_compute. discriminate.
Defined.

Definition gcm_tx : PacketCodec := demo_tx (demo_cipher "aes256-gcm@openssh.com" 32 12) None.

Lemma encode_succeeds_iff_witness :
  ∃ frame tx', encode gcm_tx (bs "hello") demo_rng = (Ok frame, tx') ∧ len frame < MAX_PACKET_LEN.
Proof.
  apply (encode_succeeds_iff gcm_tx (bs "hello") demo_rng).
  - vm_compute. exact I.
  - vm_compute. reflexivity.
  - split; [vm_compute; reflexivity|]. vm_compute. discriminate.
Defined.

Definition chacha_cipher : SshCipher := demo_cipher "chacha20-poly1305@openssh.com" 64 0.
Definition chacha_tx : PacketCodec := demo_tx chacha_cipher None.
Definition chacha_frame : bytes := (demo_encode chacha_tx (bs "hello")).1.

Lemma decode_authentic_witness :
  decode_slot 0 chacha_frame (SlotChaChaPoly chacha_cipher) None =
    (Ok (Some (bs "hello", len chacha_frame)), (SlotChaChaPoly chacha_cipher, None)) ∧
  authentic 0 chacha_frame (SlotChaChaPoly chacha_cipher) None (bs "hello") (len chacha_frame).
Proof.
  assert (E : decode_slot 0 chacha_frame (SlotChaChaPoly chacha_cipher) None =
    (Ok (Some (bs "hello", len chacha_frame)), (SlotChaChaPoly chacha_cipher, None)))
    by (unfold decode_slot; replace (decode_chachapoly 0 chacha_frame chacha_cipher) with
          (Ok (Some (bs "hello", len chacha_frame))) by (vm_compute; reflexivity); reflexivity).
  split; [exact E|].
  refine (proj1 (decode_authentic 0 chacha_frame (SlotChaChaPoly chacha_cipher) None (bs "hello")
    (len chacha_frame) _ _ E)). vm_compute. exact I.
Defined.

Definition demo_cbc_state : CbcState :=
  match demo_cipher "aes128-cbc" 16 16 with CipherCbc c => c | _ => Cbc128 0 end.
Definition cbc_mac : SshMac := HmacMac Sha1 (demo_key 20) 20 false.
(** Sixteen bytes whose decryption is not a length field. *)
Definition cbc_noise : bytes := replicate 16 Byte.xff.

Lemma cbc_no_length_oracle_witness :
  (decode_stream 0 cbc_noise (CipherCbc demo_cbc_state) cbc_mac None).1 = Ok None ∧
  ((decode_stream 0 cbc_noise (CipherCbc demo_cbc_state) cbc_mac None).1 = Ok None ∨
   (decode_stream 0 cbc_noise (CipherCbc demo_cbc_state) cbc_mac None).1 = Err BadMac ∨
   (mac_verified 0 cbc_noise (CipherCbc demo_cbc_state) cbc_mac None ∧
    ((decode_stream 0 cbc_noise (CipherCbc demo_cbc_state) cbc_mac None).1 = Err BadPadding ∨
     ∃ payload n,
       (decode_stream 0 cbc_noise (CipherCbc demo_cbc_state) cbc_mac None).1 = Ok (Some (payload, n))))).
Proof.
  split; [vm_compute; reflexivity|].
  refine (cbc_no_length_oracle 0 cbc_noise demo_cbc_state cbc_mac None _ _ _ _ (surjective_pairing _)).
  - vm_compute. split; discriminate.
  - vm_compute. reflexivity.
Defined.

Lemma inbox_loop_ends_witness :
  ∃ r cs' inbox', handle_input collect (ctr_rx, []) [] (ctr_send1.1 ++ bs "noise") = Some (r, cs', inbox') ∧
    len inbox' ≤ 0 + len (ctr_send1.1 ++ bs "noise").
Proof.
  refine (inbox_loop_ends collect (ctr_rx, []) [] (ctr_send1.1 ++ bs "noise") _ _).
  - intros cs payload H. exact H.
  - vm_compute. discriminate.
Defined.

(** Two packets across the wrap of the sequence number. *)
Definition wrap_tx : PacketCodec := chacha_tx <| seq_out := U32_MAX |>.
Definition wrap_tx0 : PacketCodec := reset_rekey_epoch wrap_tx.
Definition wrap_send1 : bytes * PacketCodec := demo_encode wrap_tx0 (bs "a").
Definition wrap_send2 : bytes * PacketCodec := demo_encode wrap_send1.2 (bs "b").

Lemma nonces_unique_witness :
  seq_out wrap_send1.2 = 0 ∧ NoDup [packet_nonce wrap_tx0; packet_nonce wrap_send1.2].
Proof.
  split; [vm_compute; reflexivity|].
  apply (nonces_unique rekey_policy_default wrap_tx _ wrap_send2.2).
  - vm_compute. split; discriminate.
  - vm_compute. repeat split; discriminate.
  - apply (epoch_cons _ _ (bs "a") demo_rng wrap_send1.1 wrap_send1.2);
      [vm_compute; reflexivity | apply demo_encode_ok; vm_compute; reflexivity |].
    apply (epoch_cons _ _ (bs "b") demo_rng wrap_send2.1 wrap_send2.2);
      [vm_compute; reflexivity | apply demo_encode_ok; vm_compute; reflexivity |].
    apply epoch_nil.
Defined.

Definition small_policy : RekeyPolicy := {| max_bytes := 1000; max_duration := 60; max_seq := 2 |}.
Definition wrap_tally : tally :=
  Build_tally 0 2 0 (0 + len wrap_send1.1 + len wrap_send2.1).

Lemma should_rekey_exact_witness :
  should_rekey small_policy wrap_send2.2 0 10 = true ∧
  should_rekey small_policy wrap_send1.2 0 10 = false ∧
  should_rekey small_policy (reset_rekey_epoch wrap_send2.2) 10 10 = false.
Proof.
  split; [|split; vm_compute; reflexivity].
  apply (should_rekey_exact small_policy wrap_tx wrap_tally).
  - vm_compute. split; discriminate.
  - vm_compute. split; discriminate.
  - vm_compute. split; discriminate.
  - apply (act_send _ (Build_tally 0 1 0 (0 + len wrap_send1.1)) wrap_send1.2 (bs "b") demo_rng);
      [|apply demo_encode_ok; vm_compute; reflexivity].
    apply (act_send _ (Build_tally 0 0 0 0) wrap_tx0 (bs "a") demo_rng);
      [apply act_start | apply demo_encode_ok; vm_compute; reflexivity].
  - vm_compute. discriminate.
  - vm_compute. discriminate.
  - right; right; right; left. vm_compute. discriminate.
Defined.

(** * A key exchange's end on concrete values

    Two runners that negotiated the default algorithms, with a made-up secret
    and exchange hash, install their keys. *)
From S2P Require Import KexInit KexFacts KexHash KexKeys.

#[local] Existing Instances demo_prims demo_prims_laws demo_compcol demo_hash demo_hash_laws.

Definition demo_negotiated : option NegotiatedOwned :=
  match negotiate default_client default_server with Ok n => Some n | Err _ => None end.

Definition demo_runner (role : Role) : RunnerKeys :=
  Build_RunnerKeys role demo_negotiated (Some MlKem768X25519) (Some (bs "session")) (Some (bs "hash"))
    (Some (mpint_bytes (bs "secret"))) None true true true.

Lemma newkeys_in_step_witness :
  ∃ rc' rs' cc' cs',
    derive_keys (demo_runner Client) = Ok rc' ∧ derive_keys (demo_runner Server) = Ok rs' ∧
    maybe_install rc' packet_codec_new = (Ok (), cc') ∧ maybe_install rs' packet_codec_new = (Ok (), cs') ∧
    paired no_compression cc' cs' ∧ paired no_compression cs' cc'.
Proof.
  destruct demo_negotiated as [neg|] eqn:En; [|vm_compute in En; discriminate En].
  destruct (derive_keys (demo_runner Client)) as [rc'|e] eqn:Ed; [|vm_compute in Ed; discriminate Ed].
  assert (Hf : ∀ name, name = bs "none" → fresh_sync no_compression name).
  { intros name ->. exists NoneCompress, NoneDecompress. repeat split; vm_compute; reflexivity. }
  destruct (newkeys_in_step no_compression (demo_runner Client) (demo_runner Server) rc' neg
    packet_codec_new packet_codec_new no_compression_sync) as (rs' & cc' & cs' & H1 & H2 & H3 & H4 & H5 & _).
  - repeat split; reflexivity.
  - exact En.
  - apply Hf. vm_compute in En. injection En as <-. vm_compute. reflexivity.
  - apply Hf. vm_compute in En. injection En as <-. vm_compute. reflexivity.
  - exact Ed.
  - reflexivity.
  - reflexivity.
  - split; reflexivity.
  - split; reflexivity.
  - exists rc', rs', cc', cs'. split; [reflexivity|]. split; [exact H1|]. split; [exact H2|].
    split; [exact H3|]. split; [exact H4|exact H5].
Defined.
