(* ===== verification/HandshakeDemo.v ===== *)
(** * A handshake on concrete values

    An instance of the key exchange primitives that keeps their laws
    ([demo_kex]) and two drivers with the crate's defaults and an Ed25519 host
    key that meet the hypotheses of the handshake theorems. *)
From S2P Require Import Prelude Wire Text Crypto Cipher Compress Packet PacketFacts KexInit KexFacts KexHash.
From S2P Require Import KexMethods KexMethodFacts KexKeys Runner RunnerFacts RunnerSafe Advert Driver DriverFacts.
From S2P Require Import DriverRun Strict Handshake PacketDemo.

Definition xor_byte (a b : byte) : byte := byte_of_Z (Z.lxor (u8 a) (u8 b)).
Definition filled (n : Z) (b : byte) : bytes := b :: replicate (Z.to_nat n - 1) Byte.x00.
Definition point_len (c : CurveId) : Z := default 1 (sec1_point_len c).
Definition dh_bound : Z := 256 ^ 1024.
Definition dh_in_range (n : Z) : bool := (0 <=? n) && (n <? dh_bound).

(** A private value is one byte, its public value that byte, and two ends
    agree on the exclusive or. *)
Definition demo_kex : KexPrims := {|
  x25519_generate r := (fill_bytes r 32, rng_skip 32 r);
  ec_priv := CurveId * byte; ec_point := CurveId * byte;
  ec_generate c r := ((c, r 0%nat), rng_skip 1 r);
  ec_public_key a := a;
  ec_to_sec1 p := filled (point_len p.1) p.2;
  ec_from_sec1 c m := match m with b :: _ => Some (c, b) | [] => None end;
  ec_diffie_hellman a p := Some [xor_byte a.2 p.2];
  DhGroup := Z * Z; DhPriv := byte; DhPub := byte;
  dh_p g := g.1 mod dh_bound; dh_g g := g.2 mod dh_bound; dh_byte_size _ := 1024;
  group14 := (2 ^ 2047 + 1, 2); group16 := (2 ^ 4095 + 1, 2); group18 := (2 ^ 8191 + 1, 2);
  dh_from_custom_unchecked p g _ := if dh_in_range p && dh_in_range g then Some (p, g) else None;
  dh_generate _ r := (r 0%nat, rng_skip 1 r);
  dh_public_bytes a := [a];
  dh_pub_from_bytes _ m := Some (byte_of_Z (be_value m));
  dh_shared_secret a b := Some [xor_byte a b];
  MlKemDk := unit; MlKemEk := unit;
  mlkem_generate r := ((tt, tt), r);
  mlkem_ek_to_bytes _ := filled EK_PQ_LEN Byte.x01;
  mlkem_ek_from_bytes_validated _ := Some tt;
  mlkem_encapsulate _ r := ((filled CT_PQ_LEN (r 0%nat), pad_to 32 [r 0%nat]), rng_skip 1 r);
  mlkem_decapsulate _ ct := pad_to 32 (take 1 ct);
  sntrup_keypair r := ((filled SNTRUP_PUBLIC_KEY_BYTES (r 0%nat), []), rng_skip 1 r);
  sntrup_encapsulate r _ := ((filled SNTRUP_CIPHERTEXT_BYTES (r 0%nat), pad_to 32 [r 0%nat]), rng_skip 1 r);
  sntrup_decapsulate ct _ := pad_to 32 (take 1 ct);
|}.

Lemma xor_byte_comm a b : xor_byte a b = xor_byte b a.
Proof. unfold xor_byte. by rewrite Z.lxor_comm. Qed.
Lemma len_filled n b : 0 < n → len (filled n b) = n.
Proof. intros Hn. unfold filled, len. cbn [length]. rewrite length_replicate. lia. Qed.
Lemma be_value_byte b : byte_of_Z (be_value [b]) = b.
Proof. by destruct b. Qed.
Lemma dh_bound_pos : 0 < dh_bound.
Proof. by vm_compute. Qed.

Lemma demo_dh_honest (g : @DhGroup demo_kex) : dh_honest g.
Proof.
  intros g' r r' _ _. cbn [dh_generate dh_public_bytes dh_pub_from_bytes dh_shared_secret demo_kex fst].
  split; [done|]. split; [done|]. rewrite !be_value_byte.
  eexists _, _, _. split; [done|]. split; [done|]. split; [done|]. by rewrite xor_byte_comm.
Qed.

Lemma demo_kex_laws : KexPrimsLaws demo_crypto demo_kex.
Proof.
  split.
  - intros a b. by eexists.
  - intros c r n E. cbn. unfold point_len. rewrite E. cbn [default]. apply len_filled. destruct c; cbv in E; simplify_eq; lia.
  - intros c r _. done.
  - intros c r r' _. eexists. split; [done|]. cbn. by rewrite xor_byte_comm.
  - intros g m m' E. cbn. by rewrite E.
  - intros g. change (256 ^ dh_byte_size g) with dh_bound. cbn [dh_p dh_g dh_byte_size demo_kex].
    split; [by apply Z.mod_pos_bound|]. split; [by apply Z.mod_pos_bound|by vm_compute].
  - intros p g n G. cbn. destruct (dh_in_range p && dh_in_range g) eqn:E; [|done]. intros [= <-].
    apply andb_true_iff in E as [E1 E2]. unfold dh_in_range in *. apply andb_true_iff in E1 as [? ?], E2 as [? ?].
    cbn [fst snd]. rewrite !Z.mod_small by lia. done.
  - cbn [dh_from_custom_unchecked demo_kex]. replace (dh_in_range _ && _) with true by (by vm_compute). by eexists.
  - intros G _. apply demo_dh_honest.
  - apply demo_dh_honest.
  - apply demo_dh_honest.
  - apply demo_dh_honest.
  - intros ek. by apply len_filled.
  - done.
  - intros ek r. by apply len_filled.
  - intros r r'. done.
  - intros r. by apply len_filled.
  - intros r pk. by apply len_filled.
  - intros r r'. done.
Qed.

#[local] Existing Instances demo_prims demo_prims_laws demo_compcol demo_hash demo_hash_laws demo_crypto demo_crypto_laws
  demo_kex demo_kex_laws.

Definition hs_client_rng (n : nat) : Rng := λ i, byte_of_Z (Z.of_nat (i + n)).
Definition hs_server_rng (n : nat) : Rng := λ i, byte_of_Z (Z.of_nat (3 * i + n)).
Definition hs_pkg : bytes := bs "0.1.0".
Definition hs_key : HostKey := {| public_blob := bs "host key"; hk_sign _ m := Ok (pad_to 64 m) |}.
Definition hs_verify : Verifier := λ h sig, if bytes_eqb sig (pad_to 64 h) then Ok () else Err (Crypto "bad signature").
Definition hs_factory : VerifierFactory := λ _ payload _,
  match host_key_and_sig payload with
  | Some (k_s, _) => if bytes_eqb k_s (public_blob hs_key) then Ok hs_verify else Err (HostKeyRejected)
  | None => Err HostKeyRejected
  end.
Definition hs_config : ServerConfig :=
  Build_ServerConfig _ [ {| shk_algorithm := bs "ssh-ed25519"; shk_key := hs_key; shk_upgraded_for _ := None |} ]
    None None None None None None None [] false.

Abbreviation hs_client := (started hs_client_rng hs_pkg (ClientSide algo_overrides_default hs_factory) 0).
Abbreviation hs_server := (started hs_server_rng hs_pkg (ServerSide hs_config) 0).

Definition hs_client_advert : KexInit := client_advert hs_client_rng algo_overrides_default 1.
Definition hs_server_advert : KexInit := server_advert hs_server_rng hs_config 1.
Definition hs_chacha : bytes := bs "chacha20-poly1305@openssh.com".

(** ChaCha20-Poly1305 has no counter to run out. *)
Lemma chacha_built iv key mac mac_key slot : builds (Build_DirKeys hs_chacha iv key mac mac_key) slot → gcm_left slot.
Proof.
  intros (ci & m & Eb & Ec & _). unfold build_cipher_mac in Eb. cbn [dk_cipher dk_key dk_iv dk_mac dk_mac_key] in Eb.
  change (cipher_by_name hs_chacha key iv) with (Some (let? c := chachapoly_new key in Ok (CipherChaChaPoly c))) in Eb.
  cbn [ok_or] in Eb. destruct (chachapoly_new key) as [c|]; [|discriminate Eb].
  assert (ci = CipherChaChaPoly c) as -> by (destruct (if is_nil mac then _ else _) in Eb; [by injection Eb|discriminate Eb]).
  by injection Ec as <-.
Qed.

Lemma chacha_counters neg be :
  ng_cipher_c2s neg = hs_chacha → ng_cipher_s2c neg = hs_chacha → counters_left neg be.
Proof.
  assert (Hd : ∀ k h sid a c e mac dir slot,
    derive_for_direction be k h sid a c e hs_chacha mac = Ok dir → builds dir slot → gcm_left slot).
  { intros k h sid a c e mac dir slot Ed Hb. unfold derive_for_direction in Ed.
    destruct (cipher_spec_by_name hs_chacha) as [spec|]; [|discriminate Ed]. cbn [ok_or] in Ed.
    destruct (if cs_aead spec then _ else _) as [[mn mk]|]; [|discriminate Ed]. injection Ed as <-.
    by eapply chacha_built. }
  intros Ec Es k h sid keys slot Hk. unfold keys_of in Hk. rewrite Ec, Es in Hk.
  destruct (derive_for_direction _ _ _ _ "A" _ _ _ _) as [c2s|] eqn:E1; [|done].
  destruct (derive_for_direction _ _ _ _ "B" _ _ _ _) as [s2c|] eqn:E2; [|done].
  injection Hk as <-. intros [Hb|Hb]; [exact (Hd _ _ _ _ _ _ _ _ _ E1 Hb)|exact (Hd _ _ _ _ _ _ _ _ _ E2 Hb)].
Qed.

Lemma hs_none_sync : fresh_sync no_compression (bs "none") ∧ delayed (bs "none").
Proof.
  split; [exists NoneCompress, NoneDecompress; repeat split; vm_compute; reflexivity|].
  intros c E. vm_compute in E. by injection E as <-.
Qed.

Lemma hs_negotiated :
  ∃ neg, negotiate hs_client_advert hs_server_advert = Ok neg ∧
    backend_from_name (ng_kex neg) = Ok MlKem768X25519 ∧
    ng_host_key neg = bs "ssh-ed25519" ∧ ng_cipher_c2s neg = hs_chacha ∧ ng_cipher_s2c neg = hs_chacha ∧
    ng_comp_c2s neg = bs "none" ∧ ng_comp_s2c neg = bs "none".
Proof.
  destruct (negotiate hs_client_advert hs_server_advert) as [neg|e] eqn:E; [|vm_compute in E; discriminate E].
  exists neg. split; [reflexivity|]. vm_compute in E. injection E as <-. vm_compute. repeat split; reflexivity.
Qed.

Lemma hs_adverts_wf : kexinit_wf hs_client_advert ∧ kexinit_wf hs_server_advert.
Proof.
  split; (split; [vm_compute; reflexivity|]; split;
    [repeat (apply Forall_cons_2; [split; [apply name_okb_ok; vm_compute; reflexivity
       | vm_compute; split; discriminate]|]); apply Forall_nil_2
    | vm_compute; discriminate]).
Qed.

Lemma hs_factory_accepts n payload r sig :
  host_key_and_sig payload = Some (public_blob hs_key, sig) →
  ∃ verify, hs_factory n payload r = Ok verify ∧ accepts hs_key verify.
Proof.
  intros E. unfold hs_factory. rewrite E, bytes_eqb_refl. exists hs_verify. split; [done|].
  intros h s [= <-]. unfold hs_verify. by rewrite bytes_eqb_refl.
Qed.

Lemma hs_version_ok : version_ok (LOCAL_VERSION hs_pkg).
Proof. split; [by vm_compute|]. split; [vm_compute; repeat constructor|by vm_compute]. Qed.

Lemma hs_compatible :
  ∃ neg, compatible hs_client_rng hs_server_rng hs_pkg no_compression algo_overrides_default hs_factory hs_config
    (LOCAL_VERSION hs_pkg) hs_key neg MlKem768X25519.
Proof.
  destruct hs_negotiated as (neg & En & Eb & Ehk & Ec & Es & Ecc & Ecs). exists neg.
  split.
  - apply no_compression_sync.
  - reflexivity.
  - apply hs_version_ok.
  - apply hs_version_ok.
  - apply hs_adverts_wf.
  - apply hs_adverts_wf.
  - vm_compute. reflexivity.
  - vm_compute. reflexivity.
  - exact En.
  - exact Eb.
  - unfold suites_known. rewrite Ec, Es. split; (eexists; split; [vm_compute; reflexivity|discriminate]).
  - rewrite Ehk. vm_compute. reflexivity.
  - split; [vm_compute; discriminate|]. intros m. eexists. split; [reflexivity|]. rewrite len_pad_to. vm_compute. discriminate.
  - intros n payload r sig. apply hs_factory_accepts.
  - split; reflexivity.
  - rewrite Ecc. apply hs_none_sync.
  - rewrite Ecs. apply hs_none_sync.
  - by apply chacha_counters.
  - discriminate.
Qed.


(** The frames the server sends while the two talk. *)
Fixpoint hs_frames (n : nat) (c s : Driver) : list bytes :=
  match n with
  | O => []
  | S n =>
      match feed hs_pkg hs_server_rng (outbox c) 0 s with
      | Some (Ok _, s') =>
          match round hs_client_rng hs_server_rng hs_pkg 0 c s with
          | Some (Ok _, (c, s)) => outbox s' ++ hs_frames n c s
          | _ => []
          end
      | _ => []
      end
  end.
Definition hs_ops : list DriverOp := (λ f, OpInput f 0) <$> hs_frames 3 hs_client hs_server.

Lemma hs_run : option_map handshake_done (run_ops hs_client_rng hs_pkg hs_ops hs_client) = Some true.
Proof. vm_compute. reflexivity. Qed.

Lemma client_session_attested_witness :
  ∃ d, run_ops hs_client_rng hs_pkg hs_ops hs_client = Some d ∧ handshake_done d = true ∧
    attested hs_pkg algo_overrides_default hs_factory (peer_version d) (initial_host_key_sig (runner d)) (d_session_id d).
Proof.
  pose proof hs_run as Hd. destruct (run_ops hs_client_rng hs_pkg hs_ops hs_client) as [d|] eqn:E; [|discriminate Hd].
  injection Hd as Hd. exists d. split; [reflexivity|]. split; [exact Hd|].
  exact (client_session_attested hs_client_rng hs_pkg algo_overrides_default hs_factory 0 hs_ops d E (or_introl Hd)).
Defined.

Definition hs_side : Side := ClientSide algo_overrides_default hs_factory.
Definition hs_midway (ops : list DriverOp) (x : result unit * Driver) : option (DPhase * bool * Z) :=
  match x with
  | (Ok _, d0) => option_map (λ d, (dphase d, strict_kex_enabled (runner d), seq_in (codec d)))
                    (clean_ops hs_client_rng hs_pkg ops d0)
  | (Err _, _) => None
  end.
Lemma hs_midway_inv ops x v :
  hs_midway ops x = Some v → ∃ d0 d, x = (Ok (), d0) ∧ clean_ops hs_client_rng hs_pkg ops d0 = Some d ∧
    v = (dphase d, strict_kex_enabled (runner d), seq_in (codec d)).
Proof.
  destruct x as [[[]|e] d0]; [|done]. cbn [hs_midway].
  destruct (clean_ops hs_client_rng hs_pkg ops d0) as [d|] eqn:E; [|done]. intros [= <-]. by exists d0, d.
Qed.
Lemma hs_midway_run :
  hs_midway (take 2 hs_ops) (start hs_client_rng hs_pkg 0 (driver_new hs_client_rng hs_side 0)) = Some (Kex, true, 1).
Proof. vm_compute. reflexivity. Qed.

(** The client has read the server's line and its KEXINIT. *)
Lemma strict_kex_accounts_witness :
  ∃ d0 d, clean_ops hs_client_rng hs_pkg (take 2 hs_ops) d0 = Some d ∧ dphase d = Kex ∧
    strict_kex_enabled (runner d) = true ∧ seq_in (codec d) = 1 ∧ exchange_packets (runner d) = 1.
Proof.
  destruct (hs_midway_inv _ _ _ hs_midway_run) as (d0 & d & E0 & E & Ev). injection Ev as Hp Hs Hn.
  exists d0, d. split; [exact E|]. symmetry in Hp, Hs, Hn. split; [exact Hp|]. split; [exact Hs|]. split; [exact Hn|].
  destruct (strict_kex_accounts hs_client_rng hs_pkg hs_side 0 d0 (take 2 hs_ops) d E0 E Hp Hs) as [Hq _].
  rewrite <- Hq. exact Hn.
Defined.
