(* ===== verification/Scp.v ===== *)
(** * SCP (src/scp: protocol.rs, receiver.rs, sender.rs)

    A stream is the bytes that will arrive and how they end, and the writes
    made so far; a read of a payload may return less than asked for, and a
    write may fail.  Operations on a stream are in a small state-and-error
    monad, with the library's notation for its sequencing. *)
From stdpp Require Import sorting.
From S2P Require Import Prelude Wire Text TextFacts.

Inductive ScpError :=
  | ScpIo (e : string)
  | BadHeader (s : string)
  | Remote (m : bytes)
  | Warning (m : bytes)
  | BadName (s : string)
  | PathEscape
  | Unexpected (s : string).

Inductive outcome (A : Type) := Done (a : A) | Fail (e : ScpError).
Arguments Done {A} a.
Arguments Fail {A} e.

Definition ScpM (St A : Type) : Type := St → outcome A * St.
#[export] Instance scp_ret St : MRet (ScpM St) := λ A a s, (Done a, s).
#[export] Instance scp_bind St : MBind (ScpM St) := λ A B f m s,
  match m s with (Done a, s') => f a s' | (Fail e, s') => (Fail e, s') end.
Definition fail {St A} (e : ScpError) : ScpM St A := λ s, (Fail e, s).
(** [let _ = m] *)
Definition ignore {St A} (m : ScpM St A) : ScpM St unit := λ s, (Done tt, (m s).2).

(** ** Streams *)

Inductive ReadEnd := REof | RUnexpectedEof (e : string) | RFails (e : string).

Record Stream := {
  s_in : bytes;
  s_end : ReadEnd;
  s_chunk : nat → nat;               (* at most so much for the n-th payload read *)
  s_reads : nat;
  s_out : list bytes;
  s_write_fails : nat → option string
}.
#[export] Instance Stream_eta : Etable Stream := fun s => {|
  s_in := s_in s; s_end := s_end s; s_chunk := s_chunk s; s_reads := s_reads s; s_out := s_out s;
  s_write_fails := s_write_fails s |}.

(** [w.write_all(b)?; w.flush()?] *)
Definition stream_write (b : bytes) : ScpM Stream unit := λ s,
  match s_write_fails s (length (s_out s)) with
  | Some e => (Fail (ScpIo e), s)
  | None => (Done tt, s <| s_out := s_out s ++ [b] |>)
  end.

(** A read that finds nothing: what [Ok(0)] gives, or the error. *)
Definition read_ended {A} (eof : ScpError) (s : Stream) : outcome A :=
  match s_end s with REof => Fail eof | RUnexpectedEof e | RFails e => Fail (ScpIo e) end.

(** [r.read(&mut byte)] with an error [eof] at the end. *)
Definition read_byte (eof : ScpError) : ScpM Stream byte := λ s,
  match s_in s with
  | b :: rest => (Done b, s <| s_in := rest |>)
  | [] => (read_ended eof s, s)
  end.

Definition MAX_LINE : Z := 4096.

Fixpoint line_loop (input out : bytes) (s : Stream) : outcome bytes * Stream :=
  match input with
  | [] => (read_ended (BadHeader "EOF mid-line") s, s <| s_in := [] |>)
  | b :: rest =>
      if Byte.eqb b Byte.x0a then
        ((if utf8_valid out then Done out else Fail (BadHeader "non-UTF-8 line")), s <| s_in := rest |>)
      else if MAX_LINE <=? len out then (Fail (BadHeader "line too long"), s <| s_in := rest |>)
      else line_loop rest (out ++ [b]) s
  end.
Definition read_line : ScpM Stream bytes := λ s, line_loop (s_in s) [] s.

(** ** Integers of a header *)

(** [from_str_radix(s, 8)]. *)
Fixpoint parse_octal_digits (max acc : Z) (s : bytes) : option Z :=
  match s with
  | [] => Some acc
  | b :: s' =>
      if in_range 48 (u8 b) 55 then
        let v := acc * 8 + (u8 b - 48) in
        if max <? v then None else parse_octal_digits max v s'
      else None
  end.
Definition parse_octal (max : Z) (s : bytes) : option Z :=
  let digits := match s with Byte.x2b :: s' => s' | _ => s end in
  match digits with [] => None | _ => parse_octal_digits max 0 digits end.

(** [str::parse::<i64>]: a sign, at least one digit, no overflow. *)
Definition I64_MAX : Z := 2 ^ 63 - 1.
Definition parse_i64 (s : bytes) : option Z :=
  match s with
  | Byte.x2d :: s' => match s' with [] => None | _ => Z.opp <$> parse_digits (2 ^ 63) 0 s' end
  | _ => parse_uint I64_MAX s
  end.
Definition show_i64 (z : Z) : bytes := if z <? 0 then Byte.x2d :: show_uint (- z) else show_uint z.

(** [{:04o}] of a mode below [0o10000]. *)
Definition show_mode (m : Z) : bytes :=
  (λ k, byte_of_Z (48 + Z.land (Z.shiftr m (3 * k)) 7)) <$> [3; 2; 1; 0].

(** ** Headers *)

Inductive Header :=
  | HFile (mode size : Z) (name : bytes)
  | HDir (mode : Z) (name : bytes)
  | HEndDir
  | HTimes (mtime atime : Z).

Definition SPACE : byte := Byte.x20.

Definition validate_name (name : bytes) : outcome unit :=
  if is_nil name then Fail (BadName "empty")
  else if List.existsb (λ b, (u8 b <? 32) || (u8 b =? 127)) name then Fail (BadName "contains control character")
  else if first_is Byte.x2d name then Fail (BadName "starts with '-'")
  else if bytes_eqb name (bs ".") || bytes_eqb name (bs "..") || List.existsb (Byte.eqb SLASH) name
  then Fail (BadName "path component")
  else Done tt.

Definition lift {St A} (r : outcome A) : ScpM St A := λ s, (r, s).
Definition some_or {A} (o : option A) (e : ScpError) : outcome A := match o with Some a => Done a | None => Fail e end.

Definition MODE_MASK : Z := 4095.

Definition header_line (h : Header) : bytes :=
  match h with
  | HFile mode size name => bs "C" ++ show_mode (Z.land mode MODE_MASK) ++ bs " " ++ show_uint size ++ bs " " ++ name
  | HDir mode name => bs "D" ++ show_mode (Z.land mode MODE_MASK) ++ bs " 0 " ++ name
  | HEndDir => bs "E"
  | HTimes mtime atime => bs "T" ++ show_i64 mtime ++ bs " 0 " ++ show_i64 atime ++ bs " 0"
  end.

Definition write_header (h : Header) : ScpM Stream unit :=
  _ ← lift (match h with HFile _ _ name | HDir _ name => validate_name name | _ => Done tt end);
  stream_write (header_line h ++ [Byte.x0a]).

(** [rest.splitn(3, ' ')] *)
Definition splitn3 (s : bytes) : bytes * option (bytes * option bytes) :=
  match split_once SPACE s with
  | None => (s, None)
  | Some (a, r) => (a, Some (match split_once SPACE r with None => (r, None) | Some (b, c) => (b, Some c) end))
  end.

(** The arms [C] and [D] of [read_header]. *)
Definition parse_entry (is_file : bool) (rest : bytes) : outcome Header :=
  match splitn3 rest with
  | (_, None) => Fail (BadHeader "missing size")
  | (_, Some (_, None)) => Fail (BadHeader "missing name")
  | (mode_s, Some (size_s, Some name)) =>
      match parse_octal U32_MAX mode_s with
      | None => Fail (BadHeader "bad mode")
      | Some mode =>
          match parse_uint U64_MAX size_s with
          | None => Fail (BadHeader "bad size")
          | Some size =>
              match validate_name name with
              | Fail e => Fail e
              | Done _ =>
                  if is_file then Done (HFile mode size name)
                  else if negb (size =? 0) then Fail (BadHeader "D header with non-zero size")
                  else Done (HDir mode name)
              end
          end
      end
  end.

(** The arm [T]. *)
Definition parse_times (rest : bytes) : outcome Header :=
  match split_on SPACE rest with
  | [mtime_s; zero1; atime_s; zero2] =>
      if negb (bytes_eqb zero1 (bs "0")) || negb (bytes_eqb zero2 (bs "0"))
      then Fail (BadHeader "T non-zero microseconds") else
      match parse_i64 mtime_s with
      | None => Fail (BadHeader "T bad mtime")
      | Some mtime =>
          match parse_i64 atime_s with
          | None => Fail (BadHeader "T bad atime")
          | Some atime => Done (HTimes mtime atime)
          end
      end
  | [] => Fail (BadHeader "T missing mtime")
  | [_] => Fail (BadHeader "T missing zero")
  | [_; _] => Fail (BadHeader "T missing atime")
  | [_; _; _] => Fail (BadHeader "T missing trailing zero")
  | _ => Fail (BadHeader "T trailing junk")
  end.

Definition parse_header (kind : byte) (rest : bytes) : outcome Header :=
  if Byte.eqb kind Byte.x45 then
    if is_nil rest then Done HEndDir else Fail (BadHeader "E has trailing data")
  else if Byte.eqb kind Byte.x54 then parse_times rest
  else parse_entry (Byte.eqb kind Byte.x43) rest.

(** [Ok(None)] is a hang-up before the first byte. *)
Definition read_header : ScpM Stream (option Header) := λ s,
  match s_in s with
  | [] => match s_end s with REof | RUnexpectedEof _ => (Done None, s) | RFails e => (Fail (ScpIo e), s) end
  | first :: rest =>
      let s := s <| s_in := rest |> in
      (if (u8 first =? 1) || (u8 first =? 2) then
         msg ← read_line; fail (if u8 first =? 2 then Remote msg else Warning msg)
       else if negb (List.existsb (Byte.eqb first) [Byte.x43; Byte.x44; Byte.x45; Byte.x54])
       then fail (BadHeader "unknown header kind")
       else line ← read_line; h ← lift (parse_header first line); mret (Some h)) s
  end.

(** ** Acknowledgements *)

Definition write_ok : ScpM Stream unit := stream_write [Byte.x00].

Definition write_fatal (msg : bytes) : ScpM Stream unit :=
  stream_write ([Byte.x02] ++ ((λ b, if Byte.eqb b Byte.x0a || Byte.eqb b Byte.x00 then SPACE else b) <$> msg) ++ [Byte.x0a]).

Definition read_ack : ScpM Stream unit :=
  b ← read_byte (Unexpected "EOF awaiting ack");
  if u8 b =? 0 then mret tt
  else if u8 b =? 1 then (m ← read_line; fail (Warning m))
  else if u8 b =? 2 then (m ← read_line; fail (Remote m))
  else fail (BadHeader "non-ack byte").

(** * SCP receiver and sender (src/scp/receiver.rs, src/scp/sender.rs)

    A path is its list of components.  The file system is a class: the calls
    the receiver makes, each with its result.  A call whose result the source
    drops ([let _ = ...]) is still made here, for what it changes. *)

(** ** Paths *)

(** [dir.join(name)] for a name without [/]. *)
Definition join_name (dir : path) (name : bytes) : path :=
  if is_nil name || bytes_eqb name (bs ".") then dir
  else if bytes_eqb name (bs "..") then dir ++ [ParentDir]
  else dir ++ [Normal name].

Fixpoint normalize_loop (p : path) (out : path) : path :=
  match p with
  | [] => out
  | ParentDir :: p =>
      match rev out with
      | Normal _ :: up => normalize_loop p (rev up)
      | _ => normalize_loop p (out ++ [ParentDir])
      end
  | CurDir :: p => normalize_loop p out
  | c :: p => normalize_loop p (out ++ [c])
  end.
Definition lexical_normalize (p : path) : path := normalize_loop p [].

(** ** The file system *)

Inductive FileKind := KSymlink | KDirectory | KOther.
Inductive MetaResult := MetaOk (k : FileKind) | MetaNotFound | MetaError (e : string).

(** The calls of the receiver; [None] is success, [Some e] an error.  Others
    may change the file system meanwhile: every call returns it. *)
Class ScpFs (F : Type) := {
  Fd : Type;
  fs_symlink_metadata : path → F → MetaResult * F;
  fs_create_dir : path → F → option string * F;
  fs_create_dir_all : path → F → F;
  (** [create(true).write(true).truncate(false)] with [O_NOFOLLOW] *)
  fs_open : path → F → (Fd + string) * F;
  (** read or write an existing entry, with [O_NOFOLLOW] ([O_DIRECTORY]) *)
  fs_open_dir : path → F → option Fd * F;
  fs_open_write : path → F → option Fd * F;
  fs_write : Fd → bytes → F → option string * F;
  fs_is_file : Fd → F → bool;
  fs_set_len : Fd → Z → F → F;
  fs_set_permissions : Fd → Z → F → F;
  fs_set_modified : Fd → Z → F → F;
}.

(** ** Receiver *)

Record ScpRecvOptions := { recursive : bool; preserve_times : bool; target_is_file : bool }.

Definition DEFAULT_MAX_FILE_SIZE : Z := 64 * 1024 * 1024 * 1024.

Record Receiver (F : Type) := {
  rx_stream : Stream;
  rx_fs : F;
  rx_base : path;
  rx_stack : list path;           (* innermost first *)
  pending_times : option (Z * Z);
  rx_opts : ScpRecvOptions;
  max_file_size : option Z;
  expected_name : option bytes;
  received_one : bool;
  top_level_filter : option (bytes → bool)
}.
Arguments rx_stream {F}. Arguments rx_fs {F}. Arguments rx_base {F}. Arguments rx_stack {F}. Arguments pending_times {F}.
Arguments rx_opts {F}. Arguments max_file_size {F}. Arguments expected_name {F}. Arguments received_one {F}.
Arguments top_level_filter {F}.
#[export] Instance Receiver_eta F : Etable (Receiver F) := fun r => {|
  rx_stream := rx_stream r; rx_fs := rx_fs r; rx_base := rx_base r; rx_stack := rx_stack r;
  pending_times := pending_times r; rx_opts := rx_opts r; max_file_size := max_file_size r;
  expected_name := expected_name r; received_one := received_one r; top_level_filter := top_level_filter r |}.

(** What [fs::canonicalize] answered for a path. *)
Inductive CanonResult := CanonOk (p : path) | CanonNotFound | CanonError (e : string).

Section Receiver.
Context {F : Type} `{!ScpFs F}.
Implicit Types r : Receiver F.

(** [Receiver::new]; [canonicalize] is the call of that name, [.] an empty path. *)
Definition receiver_new (canonicalize : path → CanonResult) (stream : Stream) (fs : F) (base_path : path)
    (opts : ScpRecvOptions) : outcome (Receiver F) * Stream :=
  let canon_base :=
    match canonicalize base_path with
    | CanonOk p => Done p
    | CanonNotFound =>
        match file_name base_path with
        | None => Fail (Unexpected "scp: destination has no file name")
        | Some name =>
            let up := match parent base_path with Some p => if is_nil p then [CurDir] else p | None => [CurDir] end in
            match canonicalize up with
            | CanonOk p => Done (join_name p name)
            | CanonNotFound => Fail (ScpIo "not found")
            | CanonError e => Fail (ScpIo e)
            end
        end
    | CanonError e => Fail (ScpIo e)
    end in
  match canon_base with
  | Fail e => (Fail e, stream)
  | Done base =>
      match write_ok stream with
      | (Fail e, stream) => (Fail e, stream)
      | (Done _, stream) =>
          (Done {| rx_stream := stream; rx_fs := fs; rx_base := base; rx_stack := []; pending_times := None;
                   rx_opts := opts; max_file_size := Some DEFAULT_MAX_FILE_SIZE; expected_name := None;
                   received_one := false; top_level_filter := None |}, stream)
      end
  end.

Definition with_max_file_size (cap : option Z) r : Receiver F := r <| max_file_size := cap |>.
Definition with_expected_name (name : option bytes) r : Receiver F := r <| expected_name := name |>.
Definition with_top_level_filter (filter : bytes → bool) r : Receiver F := r <| top_level_filter := Some filter |>.

Definition on_stream {A} (m : ScpM Stream A) : ScpM (Receiver F) A := λ r,
  let (res, s) := m (rx_stream r) in (res, r <| rx_stream := s |>).
Definition on_fs {A} (f : F → A * F) : ScpM (Receiver F) A := λ r,
  let (a, fs) := f (rx_fs r) in (Done a, r <| rx_fs := fs |>).
Definition on_fs_ (f : F → F) : ScpM (Receiver F) unit := on_fs (λ fs, (tt, f fs)).
Definition gets {A} (f : Receiver F → A) : ScpM (Receiver F) A := λ r, (Done (f r), r).
Definition modify (f : Receiver F → Receiver F) : ScpM (Receiver F) unit := λ r, (Done tt, f r).

(** [let _ = write_fatal(..); return Err(e)] *)
Definition refuse {A} (msg : bytes) (e : ScpError) : ScpM (Receiver F) A :=
  _ ← ignore (on_stream (write_fatal msg)); fail e.

Definition check_top_level_name (name : bytes) : ScpM (Receiver F) unit :=
  r ← gets id;
  match rx_stack r, top_level_filter r with
  | [], Some filter =>
      if filter name then mret tt
      else refuse (bs "filename does not match request") (Unexpected "filename does not match request")
  | _, _ => mret tt
  end.

Definition current_dir r : path := match rx_stack r with d :: _ => d | [] => rx_base r end.

Definition resolve_file_target (name : bytes) r : path :=
  if is_nil (rx_stack r) && target_is_file (rx_opts r) then rx_base r else join_name (current_dir r) name.

Definition guard_path (target : path) : ScpM (Receiver F) unit :=
  let norm := lexical_normalize target in
  if List.existsb (λ c, bool_decide (c = ParentDir)) norm
  then refuse (bs "path escapes base directory") PathEscape else
  base ← gets rx_base;
  let base_norm := lexical_normalize base in
  if negb (path_starts_with base_norm norm) && negb (bool_decide (norm = base_norm))
  then refuse (bs "path escapes base directory") PathEscape else mret tt.

(** The error is dropped by both callers. *)
Definition set_times (p : path) (mtime : Z) : ScpM (Receiver F) unit :=
  fd ← on_fs (fs_open_write p);
  match fd with Some fd => on_fs_ (fs_set_modified fd (Z.max mtime 0)) | None => mret tt end.

(** [if let Some((mtime, atime)) = self.pending_times.take() && preserve_times] *)
Definition apply_times (target : path) : ScpM (Receiver F) unit :=
  r ← gets id;
  _ ← modify (λ r, r <| pending_times := None |>);
  match pending_times r with
  | Some (mtime, _) => if preserve_times (rx_opts r) then set_times target mtime else mret tt
  | None => mret tt
  end.

Definition io_message (e : string) : bytes := bs e.

Definition recv_dir (mode : Z) (name : bytes) : ScpM (Receiver F) unit :=
  target ← gets (resolve_file_target name);
  _ ← guard_path target;
  md ← on_fs (fs_symlink_metadata target);
  _ ← match md with
      | MetaOk KSymlink => refuse (bs "directory target is an existing symlink") PathEscape
      | MetaOk KDirectory => mret tt
      | MetaOk KOther => refuse (bs "directory target collides with a non-directory")
                           (Unexpected "directory target collides with non-directory")
      | MetaNotFound =>
          res ← on_fs (fs_create_dir target);
          match res with None => mret tt | Some e => refuse (io_message e) (ScpIo e) end
      | MetaError e => refuse (io_message e) (ScpIo e)
      end;
  dir ← on_fs (fs_open_dir target);
  _ ← match dir with Some fd => on_fs_ (fs_set_permissions fd (Z.land mode MODE_MASK)) | None => mret tt end;
  _ ← apply_times target;
  _ ← modify (λ r, r <| rx_stack := target :: rx_stack r |>);
  on_stream write_ok.

(** *** Payload *)

Definition BUF_LEN : Z := 32 * 1024.

(** [read_payload_term] into an open file.  Each round reads at least a byte,
    so as many rounds as there are bytes are enough. *)
Fixpoint payload_loop (rounds : nat) (fd : Fd) (left : Z) : ScpM (Receiver F) unit := λ r,
  if left <=? 0 then (Done tt, r) else
  match rounds with
  | O => (Fail (Unexpected "EOF mid-payload"), r)
  | S rounds =>
      let s := rx_stream r in
      match s_in s with
      | [] => (read_ended (Unexpected "EOF mid-payload") s, r)
      | input =>
          let n := Nat.max 1 (Nat.min (s_chunk s (s_reads s)) (Z.to_nat (Z.min left BUF_LEN))) in
          let chunk := take n input in
          let r := r <| rx_stream := s <| s_in := drop n input |> <| s_reads := Datatypes.S (s_reads s) |> |> in
          let (res, fs) := fs_write fd chunk (rx_fs r) in
          let r := r <| rx_fs := fs |> in
          match res with
          | Some e => (Fail (ScpIo e), r)
          | None => payload_loop rounds fd (left - len chunk) r
          end
      end
  end.

Definition read_payload_term (fd : Fd) (size : Z) : ScpM (Receiver F) unit :=
  r ← gets id;
  _ ← payload_loop (length (s_in (rx_stream r))) fd size;
  term ← on_stream (read_byte (Unexpected "EOF awaiting payload terminator"));
  if u8 term =? 0 then mret tt else fail (BadHeader "payload terminator was not 0x00").

(** The message of an error on the wire; [Display] of [ScpError]. *)
Definition error_text (e : ScpError) : bytes :=
  match e with
  | ScpIo e => bs "scp: io: " ++ bs e
  | BadHeader m => bs "scp: bad header: " ++ bs m
  | Remote m => bs "scp: remote error: " ++ m
  | Warning m => bs "scp: remote warning: " ++ m
  | BadName m => bs "scp: bad name: " ++ bs m
  | PathEscape => bs "scp: path escapes base directory"
  | Unexpected m => bs "scp: unexpected: " ++ bs m
  end.

(** [if let Err(e) = m { let _ = write_fatal(e.to_string()); return Err(e) }] *)
Definition or_fatal {A} (m : ScpM (Receiver F) A) : ScpM (Receiver F) A := λ r,
  match m r with
  | (Done a, r) => (Done a, r)
  | (Fail e, r) => refuse (error_text e) e r
  end.

(** The guards of single-file mode and of the size, in front of [recv_file]. *)
Definition check_expected (name : bytes) : ScpM (Receiver F) unit :=
  r ← gets id;
  match expected_name r with
  | None => mret tt
  | Some expected =>
      if received_one r then
        refuse (bs "server sent more than one file for a single-file request")
          (Unexpected "server sent more than one file for a single-file request")
      else
        let expected_base := match rsplit_once SLASH expected with Some (_, base) => base | None => expected end in
        if bytes_eqb name expected_base then mret tt
        else refuse (bs "server sent a file with an unexpected name")
               (Unexpected "server sent a file with an unexpected name")
  end.

Definition check_size (size : Z) : ScpM (Receiver F) unit :=
  cap ← gets max_file_size;
  match cap with
  | Some cap => if cap <? size then refuse (bs "file size exceeds configured maximum")
                                      (Unexpected "file size exceeds configured maximum") else mret tt
  | None => mret tt
  end.

Definition recv_file (mode size : Z) (name : bytes) : ScpM (Receiver F) unit :=
  _ ← check_expected name;
  _ ← check_size size;
  target ← gets (resolve_file_target name);
  _ ← guard_path target;
  md ← on_fs (fs_symlink_metadata target);
  _ ← match md with
      | MetaOk KSymlink => refuse (bs "refusing to overwrite a symlink") PathEscape
      | _ => mret tt
      end;
  _ ← on_stream write_ok;
  _ ← match parent target with Some up => on_fs_ (fs_create_dir_all up) | None => mret tt end;
  f ← on_fs (fs_open target);
  match f with
  | inr e => refuse (io_message e) (ScpIo e)
  | inl fd =>
      _ ← or_fatal (read_payload_term fd size);
      fs ← gets rx_fs;
      _ ← (if fs_is_file fd fs then on_fs_ (fs_set_len fd size) else mret tt);
      _ ← on_fs_ (fs_set_permissions fd (Z.land mode MODE_MASK));
      _ ← apply_times target;
      _ ← on_stream write_ok;
      modify (λ r, r <| received_one := true |>)
  end.

(** One round of [run]; [false] is the hang-up. *)
Definition recv_step : ScpM (Receiver F) bool :=
  h ← or_fatal (on_stream read_header);
  match h with
  | None => mret false
  | Some (HTimes mtime atime) =>
      _ ← modify (λ r, r <| pending_times := Some (mtime, atime) |>);
      _ ← on_stream write_ok; mret true
  | Some (HDir mode name) =>
      opts ← gets rx_opts;
      if negb (recursive opts)
      then refuse (bs "directory entry but -r not set") (Unexpected "directory entry but -r not set")
      else _ ← check_top_level_name name; _ ← recv_dir mode name; mret true
  | Some HEndDir =>
      stack ← gets rx_stack;
      match stack with
      | [] => refuse (bs "E at top level") (Unexpected "E at top level")
      | _ :: up =>
          _ ← modify (λ r, r <| rx_stack := up |> <| pending_times := None |>);
          _ ← on_stream write_ok; mret true
      end
  | Some (HFile mode size name) =>
      _ ← check_top_level_name name; _ ← recv_file mode size name; mret true
  end.

(** [run]: every round but the last consumes a byte ([recv_total]). *)
Fixpoint recv_run (fuel : nat) r : option (outcome unit * Receiver F) :=
  match fuel with
  | O => None
  | S fuel =>
      match recv_step r with
      | (Done true, r) => recv_run fuel r
      | (Done false, r) => Some (Done tt, r)
      | (Fail e, r) => Some (Fail e, r)
      end
  end.
Definition receiver_run r : option (outcome unit * Receiver F) := recv_run (Datatypes.S (length (s_in (rx_stream r)))) r.
End Receiver.

(** ** Sender *)

(** [fs::metadata]; a time is absent when the platform has none or it lies
    before 1970. *)
Record Metadata := { md_mode : Z; md_len : Z; md_modified : option Z; md_accessed : option Z }.

(** What the sender finds at a path: the answers of [metadata], [open] and its
    reads, and of [read_dir] (whose failing entries are dropped). *)
Inductive Tree :=
  | TError (e : string)
  | TFile (md : Metadata) (content : bytes + string)
  | TDir (md : Metadata) (entries : list (bytes * Tree) + string)
  | TOther.

Record ScpSendOptions := { send_recursive : bool; send_preserve_times : bool }.

(** [as i64] of a [u64]. *)
Definition as_i64 (z : Z) : Z := if z <? 2 ^ 63 then z else z - 2 ^ 64.

Definition mode_of (md : Metadata) : Z := Z.land (md_mode md) MODE_MASK.
Definition times_of (md : Metadata) : Z * Z :=
  let mtime := match md_modified md with Some t => as_i64 t | None => 0 end in
  (mtime, match md_accessed md with Some t => as_i64 t | None => mtime end).

(** [basename_or], of a path that ends in [name]. *)
Definition basename_or (name : bytes) : outcome bytes :=
  if utf8_valid name && negb (is_nil name || bytes_eqb name (bs ".."))
  then Done name else Fail (BadName "non-UTF-8 basename").

(** [write_payload_term] from a regular file, whose reads return what is asked
    for as long as there is so much. *)
Fixpoint payload_send (rounds : nat) (src : bytes) (left : Z) : ScpM Stream unit :=
  if left <=? 0 then stream_write [Byte.x00] else
  match rounds, src with
  | S rounds, _ :: _ =>
      let chunk := take (Z.to_nat (Z.min left BUF_LEN)) src in
      _ ← stream_write chunk;
      payload_send rounds (drop (Z.to_nat (Z.min left BUF_LEN)) src) (left - len chunk)
  | _, _ => fail (Unexpected "local payload shorter than header")
  end.

Definition send_times (md : Metadata) (opts : ScpSendOptions) : ScpM Stream unit :=
  if send_preserve_times opts then
    let (mtime, atime) := times_of md in _ ← write_header (HTimes mtime atime); read_ack
  else mret tt.

Definition send_file (name : bytes) (md : Metadata) (content : bytes + string) (opts : ScpSendOptions)
    : ScpM Stream unit :=
  _ ← send_times md opts;
  name ← lift (basename_or name);
  _ ← write_header (HFile (mode_of md) (md_len md) name);
  _ ← read_ack;
  match content with
  | inr e => fail (ScpIo e)
  | inl src => _ ← payload_send (length src) src (md_len md); read_ack
  end.

(** [entries.sort()]: siblings are ordered by their names. *)
Definition name_le {A} (a b : bytes * A) : Prop := bytes_ltb b.1 a.1 = false.
#[export] Instance name_le_dec {A} : RelDecision (@name_le A).
Proof. intros a b. unfold name_le. apply _. Defined.

Fixpoint sequence (l : list (ScpM Stream unit)) : ScpM Stream unit :=
  match l with [] => mret tt | m :: l => _ ← m; sequence l end.

(** A child of a directory, [send_dir] and [send_file] included. *)
Fixpoint send_child (opts : ScpSendOptions) (name : bytes) (t : Tree) : ScpM Stream unit :=
  match t with
  | TError e => fail (ScpIo e)
  | TFile md content => send_file name md content opts
  | TOther => mret tt
  | TDir md entries =>
      _ ← send_times md opts;
      base ← lift (basename_or name);
      _ ← write_header (HDir (mode_of md) base);
      _ ← read_ack;
      _ ← match entries with
          | inr e => fail (ScpIo e)
          | inl entries =>
              sequence (snd <$> merge_sort name_le ((λ e, (e.1, send_child opts e.1 e.2)) <$> entries))
          end;
      _ ← write_header HEndDir;
      read_ack
  end.

(** [Sender::new], then [send_path]. *)
Definition send_path (opts : ScpSendOptions) (name : bytes) (t : Tree) : ScpM Stream unit :=
  match t with
  | TError e => fail (ScpIo e)
  | TDir _ _ => if send_recursive opts then send_child opts name t
                else fail (Unexpected "source is a directory but -r not set")
  | TFile md content => send_file name md content opts
  | TOther => fail (Unexpected "source is neither file nor directory")
  end.
Definition sender_new : ScpM Stream unit := read_ack.
