(* ===== verification/ScpFacts.v ===== *)
(** * An SCP receiver stays where it was put

    Whatever the sender says, the receiver's calls of the file system are about
    its base path and what lies under it by the names received, through
    directories it has made or has seen to be directories. *)
From S2P Require Import Prelude Wire Text TextFacts Scp.

(** ** A file system that keeps a record *)

Inductive FsEvent :=
  | EvMeta (p : path) (res : MetaResult)
  | EvCreateDir (p : path) (ok : bool)
  | EvCreateAll (p : path)
  | EvOpen (p : path)
  | EvOpenDir (p : path)
  | EvOpenWrite (p : path)
  | EvWrite (p : path) (chunk : bytes)
  | EvSetLen (p : path) (n : Z)
  | EvPermissions (p : path) (mode : Z)
  | EvModified (p : path) (t : Z).

Definition ev_path (e : FsEvent) : path :=
  match e with
  | EvMeta p _ | EvCreateDir p _ | EvCreateAll p | EvOpen p | EvOpenDir p | EvOpenWrite p | EvWrite p _ | EvSetLen p _
  | EvPermissions p _ | EvModified p _ => p
  end.

(** The calls made, the last one first. *)
Definition Logged (F : Type) : Type := F * list FsEvent.

Section Logged.
Context {F : Type} `{!ScpFs F}.

Definition log_call {A} (e : A → FsEvent) (f : F → A * F) (x : Logged F) : A * Logged F :=
  let (a, fs) := f x.1 in (a, (fs, e a :: x.2)).
Definition log_open {A} (p : path) (e : path → FsEvent) (f : F → A * F) (x : Logged F) : A * Logged F :=
  log_call (λ _, e p) f x.
Definition log_do (e : FsEvent) (f : F → F) (x : Logged F) : Logged F := (f x.1, e :: x.2).

(** A file descriptor remembers the path it was opened by. *)
#[export] Instance logged_fs : ScpFs (Logged F) := {|
  Fd := Fd * path;
  fs_symlink_metadata p := log_call (EvMeta p) (fs_symlink_metadata p);
  fs_create_dir p := log_call (λ e, EvCreateDir p (match e with None => true | _ => false end)) (fs_create_dir p);
  fs_create_dir_all p := log_do (EvCreateAll p) (fs_create_dir_all p);
  fs_open p x := let (fd, x) := log_open p EvOpen (fs_open p) x in
                 ((match fd with inl fd => inl (fd, p) | inr e => inr e end), x);
  fs_open_dir p x := let (fd, x) := log_open p EvOpenDir (fs_open_dir p) x in ((λ fd, (fd, p)) <$> fd, x);
  fs_open_write p x := let (fd, x) := log_open p EvOpenWrite (fs_open_write p) x in ((λ fd, (fd, p)) <$> fd, x);
  fs_write fd b := log_call (λ _, EvWrite fd.2 b) (fs_write fd.1 b);
  fs_is_file fd x := fs_is_file fd.1 x.1;
  fs_set_len fd n := log_do (EvSetLen fd.2 n) (fs_set_len fd.1 n);
  fs_set_permissions fd m := log_do (EvPermissions fd.2 m) (fs_set_permissions fd.1 m);
  fs_set_modified fd t := log_do (EvModified fd.2 t) (fs_set_modified fd.1 t);
|}.
End Logged.

(** ** Where a call may go *)

(** A name that [validate_name] lets through. *)
Definition good_name (n : bytes) : Prop := validate_name n = Done tt.

(** [p] was made by the receiver, or seen to be a directory. *)
Definition vouched (log : list FsEvent) (p : path) : Prop :=
  EvMeta p (MetaOk KDirectory) ∈ log ∨ EvCreateDir p true ∈ log.

(** [p] is [base] with names under it, and all on the way was vouched for. *)
Definition under (base : path) (log : list FsEvent) (p : path) : Prop :=
  ∃ ns, p = base ++ (Normal <$> ns) ∧ Forall good_name ns ∧
    ∀ k, (0 < k < length ns)%nat → vouched log (base ++ (Normal <$> take k ns)).

(** The one exception is the parent of the base, when the base is the file to
    be received. *)
Definition safe_event (base : path) (log : list FsEvent) (e : FsEvent) : Prop :=
  under base log (ev_path e) ∨ ∃ up, parent base = Some up ∧ e = EvCreateAll up.

Fixpoint safe_log (base : path) (log : list FsEvent) : Prop :=
  match log with [] => True | e :: log => safe_event base log e ∧ safe_log base log end.

Lemma vouched_more base log e : vouched log base → vouched (e :: log) base.
Proof. intros [H|H]; [left|right]; by apply list_elem_of_further. Qed.
Lemma under_more base log e p : under base log p → under base (e :: log) p.
Proof. intros (ns & -> & Hg & Hv). exists ns. split_and!; [done..|]. intros k Hk. by apply vouched_more, Hv. Qed.

Lemma under_base base log : under base log base.
Proof. exists []. split_and!; [by rewrite fmap_nil, app_nil_r|done|]. intros k Hk. cbn in Hk. lia. Qed.

Lemma good_name_join dir n : good_name n → join_name dir n = dir ++ [Normal n].
Proof.
  unfold good_name, validate_name, join_name. intros H.
  destruct (is_nil n); [done|]. destruct (List.existsb _ n); [done|]. destruct (first_is _ n); [done|].
  destruct (bytes_eqb n (bs ".")); [done|]. by destruct (bytes_eqb n (bs "..")).
Qed.

Lemma under_join base log dir n :
  under base log dir → (dir = base ∨ vouched log dir) → good_name n → under base log (join_name dir n).
Proof.
  intros (ns & -> & Hg & Hv) Hd Hn. rewrite good_name_join by done. exists (ns ++ [n]).
  split_and!; [by rewrite fmap_app, app_assoc|by apply Forall_app; split; [|apply list.Forall_singleton]|].
  intros k Hk. rewrite length_app in Hk. cbn in Hk. destruct (decide (k < length ns)%nat) as [Hl|Hl].
  - rewrite take_app_le by lia. apply Hv. lia.
  - rewrite take_app_le, take_ge by lia. destruct Hd as [Hd|Hd]; [|done].
    assert (ns = []) as ->; [|cbn in *; lia]. destruct ns; [done|]. apply (f_equal length) in Hd.
    rewrite length_app, length_fmap in Hd. cbn in Hd. lia.
Qed.

Lemma under_parent base log p :
  under base log p → p ≠ base → ∃ up, parent p = Some up ∧ under base log up.
Proof.
  intros (ns & -> & Hg & Hv) Hn. destruct (decide (ns = [])) as [->|Hns]; [by rewrite fmap_nil, app_nil_r in Hn|].
  destruct (exists_last Hns) as (ms & n & ->). apply Forall_app in Hg as [Hg _].
  exists (base ++ (Normal <$> ms)). split.
  - unfold parent. rewrite fmap_app, app_assoc, rev_app_distr. cbn. by rewrite rev_involutive.
  - exists ms. split_and!; [done..|]. intros k Hk. specialize (Hv k). rewrite length_app, take_app_le in Hv by lia.
    apply Hv. cbn. lia.
Qed.

(** ** Reasoning about the receiver *)

Section Hoare.
Context {St : Type}.
Implicit Types P I : St → Prop.

(** From [P], [m] ends well in [Q] or fails in [I]. *)
Definition triple {A} P (m : ScpM St A) (Q : A → St → Prop) I : Prop :=
  ∀ s, P s → match m s with (Done a, s') => Q a s' | (Fail _, s') => I s' end.

Lemma triple_ret {A} P (a : A) Q I : (∀ s, P s → Q a s) → triple P (mret a) Q I.
Proof. intros H s Hs. by apply H. Qed.
Lemma triple_fail {A} P e (Q : A → St → Prop) I : (∀ s, P s → I s) → triple P (fail e) Q I.
Proof. intros H s Hs. by apply H. Qed.
Lemma triple_lift {A} P (o : outcome A) Q I :
  (∀ s a, P s → o = Done a → Q a s) → (∀ s, P s → I s) → triple P (lift o) Q I.
Proof. intros H1 H2 s Hs. unfold lift. destruct o; [by apply H1|by apply H2]. Qed.
Lemma triple_bind {A B} P (m : ScpM St A) R (f : A → ScpM St B) Q I :
  triple P m R I → (∀ a, triple (R a) (f a) Q I) → triple P (m ≫= f) Q I.
Proof.
  intros Hm Hf s Hs. specialize (Hm s Hs). unfold mbind, scp_bind. destruct (m s) as [[a|e] s']; [by apply Hf|done].
Qed.
Lemma triple_pre {A} P P' (m : ScpM St A) Q I : triple P' m Q I → (∀ s, P s → P' s) → triple P m Q I.
Proof. intros Hm H s Hs. by apply Hm, H. Qed.
Lemma triple_post {A} P (m : ScpM St A) Q Q' I : triple P m Q' I → (∀ a s, Q' a s → Q a s) → triple P m Q I.
Proof. intros Hm H s Hs. specialize (Hm s Hs). destruct (m s) as [[a|e] s']; [by apply H|done]. Qed.
End Hoare.

Section Confined.
Context {F : Type} `{!ScpFs F} (base : path).
Implicit Types r : Receiver (Logged F).

Definition log_of r : list FsEvent := (rx_fs r).2.

Record confined r : Prop := {
  cf_base : rx_base r = base;
  cf_stack : Forall (λ d, under base (log_of r) d ∧ vouched (log_of r) d) (rx_stack r);
  cf_log : safe_log base (log_of r);
}.

(** A fact that a longer record does not undo. *)
Definition grows (G : list FsEvent → Prop) : Prop := ∀ e l, G l → G (e :: l).

(** A receiver about to use the path [t], with a fact of its record. *)
Definition aims (t : path) (G : list FsEvent → Prop) r : Prop :=
  confined r ∧ under base (log_of r) t ∧ G (log_of r).

Lemma confined_ext r r' : rx_base r' = rx_base r → rx_stack r' = rx_stack r → log_of r' = log_of r → confined r → confined r'.
Proof. intros E1 E2 E3 []. split; by rewrite ?E1, ?E2, ?E3. Qed.

Lemma confined_event r r' e :
  rx_base r' = rx_base r → rx_stack r' = rx_stack r → log_of r' = e :: log_of r → safe_event base (log_of r) e →
  confined r → confined r'.
Proof.
  intros E1 E2 E3 He []. split; rewrite ?E1, ?E2, ?E3; [done| |by split].
  eapply list.Forall_impl; [exact cf_stack0|]. intros d [? ?]. split; [by apply under_more|by apply vouched_more].
Qed.

(** *** Steps that keep the record *)

Lemma on_stream_aims {A} (m : ScpM Stream A) t G : triple (aims t G) (on_stream m) (λ _, aims t G) confined.
Proof.
  intros r (Hc & Hu & HG). unfold on_stream. destruct (m (rx_stream r)) as [[a|e] s]; [split_and!|]; try done;
    by eapply confined_ext; [..|exact Hc].
Qed.

Lemma on_stream_confined {A} (m : ScpM Stream A) : triple confined (on_stream m) (λ _, confined) confined.
Proof.
  intros r Hc. unfold on_stream. destruct (m (rx_stream r)) as [[a|e] s]; by eapply confined_ext; [..|exact Hc].
Qed.

Lemma modify_aims f t G :
  (∀ r, rx_base (f r) = rx_base r ∧ rx_stack (f r) = rx_stack r ∧ rx_fs (f r) = rx_fs r) →
  triple (aims t G) (modify f) (λ _, aims t G) confined.
Proof.
  intros Hf r (Hc & Hu & HG). cbn. destruct (Hf r) as (E1 & E2 & E3). unfold aims, log_of in *. rewrite E3.
  split_and!; [|done..]. by eapply confined_ext; [exact E1|exact E2|unfold log_of; by rewrite E3|].
Qed.

Lemma gets_aims {A} (f : Receiver (Logged F) → A) t G : triple (aims t G) (gets f) (λ _, aims t G) confined.
Proof. by intros r Hr. Qed.

Lemma refuse_confined {A} msg e (Q : A → _) : triple confined (refuse msg e) Q confined.
Proof.
  intros r Hc. unfold refuse, ignore, mbind, scp_bind, on_stream, fail. destruct (write_fatal msg _) as [? s]. cbn.
  by eapply confined_ext; [..|exact Hc].
Qed.
Lemma refuse_aims {A} msg e t G (Q : A → _) : triple (aims t G) (refuse msg e) Q confined.
Proof. eapply triple_pre; [apply refuse_confined|by intros s [? _]]. Qed.

(** *** Calls of the file system about [t] *)

Lemma aims_event r r' e t G :
  rx_base r' = rx_base r → rx_stack r' = rx_stack r → log_of r' = e :: log_of r → ev_path e = t → grows G →
  aims t G r → aims t G r'.
Proof.
  intros E1 E2 E3 Hp HG (Hc & Hu & Hg). unfold aims. rewrite E3. split_and!; [|by apply under_more|by apply HG].
  apply (confined_event r r' e); try done. left. by rewrite Hp.
Qed.

Lemma on_fs_aims {A} (f : Logged F → A * Logged F) (e : A → FsEvent) t G :
  (∀ x, (f x).2.2 = e (f x).1 :: x.2) → (∀ a, ev_path (e a) = t) → grows G →
  triple (aims t G) (on_fs f) (λ a, aims t (λ l, G l ∧ e a ∈ l)) confined.
Proof.
  intros He Hp HG r Hr. unfold on_fs. specialize (He (rx_fs r)). destruct (f (rx_fs r)) as [a x].
  cbn [fst snd] in He. set (r' := r <| rx_fs := x |>).
  assert (El : log_of r' = e a :: log_of r) by exact He.
  destruct (aims_event r r' (e a) t G) as (? & ? & ?); try done.
  split_and!; try done. rewrite El. apply list_elem_of_here.
Qed.

Lemma on_fs_do_aims (f : F → F) (e : FsEvent) t G :
  ev_path e = t → grows G → triple (aims t G) (on_fs_ (log_do e f)) (λ _, aims t G) confined.
Proof.
  intros Hp HG. eapply triple_post; [apply (on_fs_aims _ (λ _, e)); done|]. intros ? ? (? & ? & ? & _). by split_and!.
Qed.

Lemma grows_true : grows (λ _, True).
Proof. done. Qed.
Lemma grows_vouched t : grows (λ l, vouched l t).
Proof. intros e l. apply vouched_more. Qed.
#[local] Hint Resolve grows_true grows_vouched : core.

(** ** The operations *)

Lemma resolve_aims n :
  good_name n → triple confined (gets (resolve_file_target n)) (λ t, aims t (λ _, True)) confined.
Proof.
  intros Hn r Hc. cbn. split_and!; [done| |done]. unfold resolve_file_target, current_dir.
  destruct (_ && _); [rewrite (cf_base _ Hc); apply under_base|]. destruct (rx_stack r) as [|d ds] eqn:Es.
  - rewrite (cf_base _ Hc). apply under_join; [apply under_base|by left|done].
  - pose proof (cf_stack _ Hc) as Hs. rewrite Es in Hs. inversion Hs as [|? ? [? ?] _]; subst.
    apply under_join; [done|by right|done].
Qed.

Lemma guard_path_aims x t G : triple (aims t G) (guard_path x) (λ _, aims t G) confined.
Proof.
  unfold guard_path. destruct (List.existsb _ _); [apply refuse_aims|].
  eapply triple_bind; [apply gets_aims|]. intros b. destruct (_ && _); [apply refuse_aims|by apply triple_ret].
Qed.

(** Opening [t]: the descriptor is one of [t]. *)
Lemma open_aims {A B} (f : F → A * F) (e : path → FsEvent) (wrap : A → B) t G :
  ev_path (e t) = t → grows G →
  triple (aims t G) (on_fs (λ x, let (a, x) := log_open t e f x in (wrap a, x))) (λ b r, aims t G r ∧ ∃ a, b = wrap a)
    confined.
Proof.
  intros He HG r Hr. unfold on_fs, log_open, log_call. destruct (f _) as [a fs]. cbn. split; [|by exists a].
  by apply (aims_event r _ (e t)).
Qed.

Lemma set_times_aims t G mtime : grows G → triple (aims t G) (set_times t mtime) (λ _, aims t G) confined.
Proof.
  intros HG. unfold set_times. eapply triple_bind; [by apply (open_aims _ EvOpenWrite)|].
  intros [fd|] r [Hr (a & E)]; [|exact Hr]. destruct a as [fd0|]; [|done]. injection E as ->.
  by apply (on_fs_do_aims _ (EvModified t _)).
Qed.

Lemma apply_times_aims t G : grows G → triple (aims t G) (apply_times t) (λ _, aims t G) confined.
Proof.
  intros HG. unfold apply_times. eapply triple_bind; [apply gets_aims|]. intros r0.
  eapply triple_bind; [by apply modify_aims|]. intros ?. destruct (pending_times r0) as [[mtime atime]|]; [|by apply triple_ret].
  destruct (preserve_times _); [by apply set_times_aims|by apply triple_ret].
Qed.

Lemma push_confined t : triple (aims t (λ l, vouched l t)) (modify (λ r, r <| rx_stack := t :: rx_stack r |>)) (λ _, confined) confined.
Proof. intros r ([] & Hu & Hv). split; [done|by apply Forall_cons_2|done]. Qed.

Lemma recv_dir_confined mode n : good_name n → triple confined (recv_dir mode n) (λ _, confined) confined.
Proof.
  intros Hn. unfold recv_dir. eapply triple_bind; [by apply resolve_aims|]. intros t.
  eapply triple_bind; [apply guard_path_aims|]. intros ?.
  eapply triple_bind; [apply (on_fs_aims _ (EvMeta t)); [|done|done]; intros x; cbn; unfold log_call; by destruct (fs_symlink_metadata _ _)|].
  intros md. eapply triple_bind with (R := λ _, aims t (λ l, vouched l t)).
  { destruct md as [[| |]| |e]; try apply refuse_aims.
    - apply triple_ret. intros r (Hc & Hu & _ & He). split_and!; [done..|by left].
    - eapply triple_bind.
      { apply (on_fs_aims _ (λ e, EvCreateDir t (match e with None => true | _ => false end))); [|done|].
        - intros x; cbn; unfold log_call; by destruct (fs_create_dir _ _).
        - intros e l [_ He]. split; [done|by apply list_elem_of_further]. }
      intros [e|]; [apply refuse_aims|]. apply triple_ret. intros r (Hc & Hu & _ & He). split_and!; [done..|by right]. }
  intros ?. eapply triple_bind; [by apply (open_aims _ EvOpenDir)|]. intros dir.
  eapply triple_bind with (R := λ _, aims t (λ l, vouched l t)).
  { destruct dir as [fd|]; [|apply triple_ret; by intros r [? _]]. intros r [Hr ([fd0|] & E)]; [|done]. injection E as ->.
    by apply (on_fs_do_aims _ (EvPermissions t _)). }
  intros ?. eapply triple_bind; [by apply apply_times_aims|]. intros ?.
  eapply triple_bind; [apply push_confined|]. intros ?. apply on_stream_confined.
Qed.

Definition fd_path (fd : @Fd (Logged F) _) : path := snd fd.

Lemma payload_loop_aims rounds (fd : @Fd (Logged F) _) left t G :
  fd_path fd = t → grows G → triple (aims t G) (payload_loop rounds fd left) (λ _, aims t G) confined.
Proof.
  intros Hf HG. revert left. induction rounds as [|rounds IH]; intros left r Hr; cbn [payload_loop].
  { destruct (left <=? 0); [done|]. by destruct Hr. }
  destruct (left <=? 0); [done|]. destruct (s_in (rx_stream r)) as [|b input].
  { unfold read_ended. destruct (s_end _); by destruct Hr. }
  cbn [fs_write logged_fs]. unfold log_call. cbn [fst snd].
  destruct (fs_write (fst fd) _ _) as [res fs]. set (r' := (_ : Receiver (Logged F)) <| rx_fs := _ |>).
  assert (Hr' : aims t G r') by (by apply (aims_event r r' (EvWrite (fd_path fd) (take (Nat.max 1 (Nat.min (s_chunk (rx_stream r)
    (s_reads (rx_stream r))) (Z.to_nat (Z.min left BUF_LEN)))) (b :: input))))).
  destruct res; [by destruct Hr'|]. by apply IH.
Qed.

Lemma or_fatal_triple {A} (P : _ → Prop) (m : ScpM (Receiver (Logged F)) A) Q :
  triple P m Q confined → triple P (or_fatal m) Q confined.
Proof.
  intros Hm r Hr. specialize (Hm r Hr). unfold or_fatal. destruct (m r) as [[a|e] r']; [done|].
  exact (refuse_confined (error_text e) e Q r' Hm).
Qed.

Lemma read_payload_aims (fd : @Fd (Logged F) _) size t G :
  fd_path fd = t → grows G → triple (aims t G) (read_payload_term fd size) (λ _, aims t G) confined.
Proof.
  intros Hf HG. unfold read_payload_term. eapply triple_bind; [apply gets_aims|]. intros r0.
  eapply triple_bind; [by apply payload_loop_aims|]. intros ?. eapply triple_bind; [apply on_stream_aims|]. intros b.
  destruct (_ =? 0); [by apply triple_ret|]. apply triple_fail. by intros r [? _].
Qed.

Lemma create_parent_aims t G :
  grows G →
  triple (aims t G) (match parent t with Some up => on_fs_ (fs_create_dir_all up) | None => mret tt end) (λ _, aims t G) confined.
Proof.
  intros HG. destruct (parent t) as [up|] eqn:E; [|by apply triple_ret].
  intros r (Hc & Hu & Hg). unfold on_fs_, on_fs. cbn. unfold log_do. set (r' := r <| rx_fs := _ |>).
  assert (El : log_of r' = EvCreateAll up :: log_of r) by done. unfold aims. rewrite El.
  split_and!; [|by apply under_more|by apply HG]. apply (confined_event r r' (EvCreateAll up)); try done.
  destruct (decide (t = base)) as [->|Hn]; [right; by exists up|]. left.
  destruct (under_parent _ _ _ Hu Hn) as (up' & E' & Hu'). cbn. rewrite E in E'. by injection E' as ->.
Qed.

Lemma check_expected_confined n : triple confined (check_expected n) (λ _, confined) confined.
Proof.
  intros r Hc. unfold check_expected, mbind at 1, scp_bind, gets, id. cbn. destruct (expected_name r); [|done].
  destruct (received_one r); [by apply (refuse_confined (A := unit))|].
  destruct (bytes_eqb _ _); [done|by apply (refuse_confined (A := unit))].
Qed.
Lemma check_size_confined size : triple confined (check_size size) (λ _, confined) confined.
Proof.
  intros r Hc. unfold check_size, mbind at 1, scp_bind, gets. cbn. destruct (max_file_size r); [|done].
  destruct (_ <? _); [by apply (refuse_confined (A := unit))|done].
Qed.
Lemma check_top_level_confined n : triple confined (check_top_level_name n) (λ _, confined) confined.
Proof.
  intros r Hc. unfold check_top_level_name, mbind at 1, scp_bind, gets, id. cbn. destruct (rx_stack r); [|done].
  destruct (top_level_filter r) as [f|]; [|done]. destruct (f n); [done|by apply (refuse_confined (A := unit))].
Qed.

Lemma recv_file_confined mode size n : good_name n → triple confined (recv_file mode size n) (λ _, confined) confined.
Proof.
  intros Hn. unfold recv_file. eapply triple_bind; [apply check_expected_confined|]. intros ?.
  eapply triple_bind; [apply check_size_confined|]. intros ?. eapply triple_bind; [by apply resolve_aims|]. intros t.
  eapply triple_bind; [apply guard_path_aims|]. intros ?.
  eapply triple_bind with (R := λ _, aims t (λ _, True)).
  { eapply triple_post; [apply (on_fs_aims _ (EvMeta t)); [|done|done]; intros x; cbn; unfold log_call;
      by destruct (fs_symlink_metadata _ _)|]. by intros md r (? & ? & _). }
  intros md. eapply triple_bind with (R := λ _, aims t (λ _, True)).
  { destruct md as [[| |]| |]; try (by apply triple_ret). apply refuse_aims. }
  intros ?. eapply triple_bind; [apply on_stream_aims|]. intros ?.
  eapply triple_bind; [by apply create_parent_aims|]. intros ?.
  eapply triple_bind; [by apply (open_aims _ EvOpen)|]. intros [fd|e]; [|eapply triple_pre; [apply refuse_aims|by intros r [? _]]].
  intros r [Hr ([fd0|] & E)]; [|done]. assert (Hf : fd_path fd = t) by (by injection E as ->). revert r Hr. clear E.
  change (triple (aims t (λ _, True)) (_ ← or_fatal (read_payload_term fd size); fs ← gets rx_fs;
    _ ← (if fs_is_file fd fs then on_fs_ (fs_set_len fd size) else mret tt);
    _ ← on_fs_ (fs_set_permissions fd (Z.land mode MODE_MASK)); _ ← apply_times t; _ ← on_stream write_ok;
    modify (λ r, r <| received_one := true |>)) (λ _, confined) confined).
  eapply triple_bind; [by apply or_fatal_triple, read_payload_aims|]. intros ?.
  eapply triple_bind; [apply gets_aims|]. intros fs.
  eapply triple_bind with (R := λ _, aims t (λ _, True)).
  { destruct (fs_is_file _ _); [by apply (on_fs_do_aims _ (EvSetLen (fd_path fd) _))|by apply triple_ret]. }
  intros ?. eapply triple_bind; [by apply (on_fs_do_aims _ (EvPermissions (fd_path fd) _))|]. intros ?.
  eapply triple_bind; [by apply apply_times_aims|]. intros ?. eapply triple_bind; [apply on_stream_aims|]. intros ?.
  eapply triple_post; [by apply modify_aims|]. by intros ? r [? _].
Qed.

(** The names of a header were checked. *)
Definition header_checked (h : option Header) : Prop :=
  match h with Some (HFile _ _ n) | Some (HDir _ n) => good_name n | _ => True end.

Lemma parse_header_checked kind line h : parse_header kind line = Done h → header_checked (Some h).
Proof.
  unfold parse_header, parse_entry, parse_times. intros H.
  repeat (match type of H with
    | (if ?b then _ else _) = _ => destruct b
    | match ?x with _ => _ end = _ => destruct x eqn:?
    end; try discriminate H); injection H as <-; try exact I;
  match goal with E : validate_name _ = Done ?u |- _ => destruct u; exact E end.
Qed.

Lemma read_header_checked : triple confined (on_stream read_header) (λ h r, confined r ∧ header_checked h) confined.
Proof.
  intros r Hc. unfold on_stream. destruct (read_header (rx_stream r)) as [[h|e] s] eqn:E; [split|];
    [by eapply confined_ext; [..|exact Hc]| |by eapply confined_ext; [..|exact Hc]].
  unfold read_header in E. destruct (s_in (rx_stream r)) as [|b rest].
  { destruct (s_end _); [by injection E as <- _..|done]. }
  destruct (_ || _ : bool). { unfold mbind, scp_bind, fail in E. by destruct (read_line _) as [[m|] ?]. }
  destruct (negb _); [done|]. unfold mbind, scp_bind, lift in E. destruct (read_line _) as [[m|] s1]; [|done].
  destruct (parse_header b m) as [h'|] eqn:Ep; [|done]. injection E as <- _. by eapply parse_header_checked.
Qed.

Lemma recv_step_confined : triple confined recv_step (λ _, confined) confined.
Proof.
  unfold recv_step. eapply triple_bind; [apply or_fatal_triple, read_header_checked|]. intros h.
  destruct h as [[mode size n|mode n| |mtime atime]|]; intros r [Hc Hh]; revert r Hc; cbn [header_checked] in Hh.
  - eapply triple_bind; [apply check_top_level_confined|]. intros ?.
    eapply triple_bind; [by apply recv_file_confined|]. intros ?. by apply triple_ret.
  - intros r Hc. unfold mbind at 1, scp_bind, gets. cbn. destruct (recursive _); cbn [negb].
    + revert r Hc. eapply triple_bind; [apply check_top_level_confined|]. intros ?.
      eapply triple_bind; [by apply recv_dir_confined|]. intros ?. by apply triple_ret.
    + by apply (refuse_confined (A := bool)).
  - intros r Hc. unfold mbind at 1, scp_bind, gets. cbn. destruct (rx_stack r) as [|d up] eqn:Es.
    { by apply (refuse_confined (A := bool)). }
    apply (triple_bind (λ r0, r0 = r) _ (λ _, confined)); [|intros ?|done].
    + intros ? ->. destruct Hc. rewrite Es in *. split; [done|by inversion cf_stack0|done].
    + eapply triple_bind; [apply on_stream_confined|]. intros ?. by apply triple_ret.
  - apply (triple_bind _ _ (λ _, confined)); [|intros ?].
    + intros r Hc. by eapply confined_ext; [..|exact Hc].
    + eapply triple_bind; [apply on_stream_confined|]. intros ?. by apply triple_ret.
  - by apply triple_ret.
Qed.

Lemma recv_run_confined fuel r res r' : recv_run fuel r = Some (res, r') → confined r → confined r'.
Proof.
  revert r. induction fuel as [|fuel IH]; intros r; cbn [recv_run]; [done|]. intros E Hc.
  pose proof (recv_step_confined r Hc) as Hs. destruct (recv_step r) as [[[]|e] r1];
    [by eapply IH|by injection E as <- <-..].
Qed.
End Confined.

(** ** The loop ends *)

Section Total.
Context {F : Type} `{!ScpFs F}.
Implicit Types r : Receiver F.

Definition input_left r : nat := length (s_in (rx_stream r)).

(** [m] takes from the input, if anything. *)
Definition shrinks {A} (m : ScpM (Receiver F) A) : Prop := ∀ r, (input_left (m r).2 ≤ input_left r)%nat.
Definition stream_shrinks {A} (m : ScpM Stream A) : Prop := ∀ s, (length (s_in (m s).2) ≤ length (s_in s))%nat.

Lemma shrinks_bind {A B} (m : ScpM (Receiver F) A) (f : A → ScpM (Receiver F) B) :
  shrinks m → (∀ a, shrinks (f a)) → shrinks (m ≫= f).
Proof.
  intros Hm Hf r. specialize (Hm r). unfold mbind, scp_bind. destruct (m r) as [[a|e] r']; [|done].
  specialize (Hf a r'). cbn in *. lia.
Qed.
Lemma stream_shrinks_bind {A B} (m : ScpM Stream A) (f : A → ScpM Stream B) :
  stream_shrinks m → (∀ a, stream_shrinks (f a)) → stream_shrinks (m ≫= f).
Proof.
  intros Hm Hf r. specialize (Hm r). unfold mbind, scp_bind. destruct (m r) as [[a|e] r']; [|done].
  specialize (Hf a r'). cbn in *. lia.
Qed.
Lemma shrinks_ret {A} (a : A) : shrinks (mret a).
Proof. intros r. done. Qed.
Lemma shrinks_fail {A} e : shrinks (fail (A := A) e).
Proof. intros r. done. Qed.
Lemma shrinks_gets {A} (f : Receiver F → A) : shrinks (gets f).
Proof. intros r. done. Qed.
Lemma shrinks_on_fs {A} (f : F → A * F) : shrinks (on_fs f).
Proof. intros r. unfold on_fs. by destruct (f _). Qed.
Lemma shrinks_on_fs_ f : shrinks (on_fs_ f).
Proof. apply shrinks_on_fs. Qed.
Lemma shrinks_modify f : (∀ r, rx_stream (f r) = rx_stream r) → shrinks (modify f).
Proof. intros Hf r. unfold input_left. cbn. by rewrite Hf. Qed.
Lemma shrinks_on_stream {A} (m : ScpM Stream A) : stream_shrinks m → shrinks (on_stream m).
Proof. intros Hm r. specialize (Hm (rx_stream r)). unfold on_stream, input_left. by destruct (m _). Qed.
Lemma shrinks_ignore {A} (m : ScpM (Receiver F) A) : shrinks m → shrinks (ignore m).
Proof. intros Hm r. apply Hm. Qed.

Lemma write_shrinks b : stream_shrinks (stream_write b).
Proof. intros s. unfold stream_write. by destruct (s_write_fails _ _). Qed.
Lemma read_byte_shrinks e : stream_shrinks (read_byte e).
Proof. intros s. unfold read_byte. destruct (s_in s) eqn:E; unfold set_field; cbn; rewrite ?E; cbn; lia. Qed.
Lemma line_loop_shrinks input out s : (length (s_in (line_loop input out s).2) ≤ length input)%nat.
Proof.
  revert out. induction input as [|b input IH]; intros out; cbn [line_loop]; [done|].
  destruct (Byte.eqb b _); [unfold set_field; cbn; lia|]. destruct (_ <=? _); [unfold set_field; cbn; lia|]. specialize (IH (out ++ [b])). cbn. lia.
Qed.
Lemma read_line_shrinks : stream_shrinks read_line.
Proof. intros s. apply line_loop_shrinks. Qed.

(** A header takes a byte. *)
Lemma read_header_takes s h s' :
  read_header s = (Done (Some h), s') → (length (s_in s') < length (s_in s))%nat.
Proof.
  unfold read_header. destruct (s_in s) as [|b rest] eqn:E; [destruct (s_end s); by intros [= <-]|].
  destruct (_ || _ : bool). { unfold mbind, scp_bind, fail. by destruct (read_line _) as [[m|] ?]. }
  destruct (negb _); [done|]. unfold mbind, scp_bind, lift.
  pose proof (read_line_shrinks (s <| s_in := rest |>)) as Hl. destruct (read_line _) as [[m|] s1]; [|done].
  destruct (parse_header b m); [|done]. intros [= _ <-]. unfold set_field in *. cbn in *. lia.
Qed.
Lemma read_header_shrinks : stream_shrinks read_header.
Proof.
  intros s. unfold read_header. destruct (s_in s) as [|b rest] eqn:E; [by destruct (s_end s); cbn; rewrite E|].
  transitivity (length (s_in (s <| s_in := rest |>))); [|unfold set_field; cbn; lia]. destruct (_ || _ : bool).
  - apply stream_shrinks_bind; [apply read_line_shrinks|by intros m s'].
  - destruct (negb _); [done|]. apply stream_shrinks_bind; [apply read_line_shrinks|]. intros m.
    apply stream_shrinks_bind; [by intros s'|by intros h s'].
Qed.

Lemma payload_loop_shrinks rounds fd left : shrinks (payload_loop rounds fd left).
Proof.
  revert left. induction rounds as [|rounds IH]; intros left r; cbn [payload_loop]; destruct (left <=? 0); try done.
  destruct (s_in (rx_stream r)) as [|b input] eqn:E; [done|]. set (n := Nat.max _ _). clearbody n.
  set (r1 := r <| rx_stream := _ |>). assert (H1 : (input_left r1 ≤ input_left r)%nat).
  { unfold input_left. rewrite E. unfold r1, set_field. cbn -[drop length]. rewrite length_drop. lia. }
  destruct (fs_write fd _ _) as [[e|] fs]; [done|]. etrans; [apply IH|done].
Qed.
End Total.

Create HintDb scp_shrinks.
#[export] Hint Resolve shrinks_bind shrinks_ret shrinks_fail shrinks_gets shrinks_on_fs shrinks_on_fs_ shrinks_ignore
  shrinks_on_stream write_shrinks read_byte_shrinks read_line_shrinks read_header_shrinks payload_loop_shrinks : scp_shrinks.
#[export] Hint Extern 1 (shrinks (modify _)) => apply shrinks_modify; done : scp_shrinks.

(** Cases of the scrutinees in front of the steps. *)
Ltac shrink :=
  repeat first
    [ progress eauto 5 with scp_shrinks
    | apply shrinks_bind; [|intros ?]
    | match goal with |- shrinks (match ?x with _ => _ end) => destruct x end
    | progress cbv zeta ].

Section Total2.
Context {F : Type} `{!ScpFs F}.
Implicit Types r : Receiver F.

Lemma refuse_shrinks {A} msg e : shrinks (F := F) (A := A) (refuse msg e).
Proof. unfold refuse, write_fatal. shrink. Qed.
Lemma or_fatal_shrinks {A} (m : ScpM (Receiver F) A) : shrinks m → shrinks (or_fatal m).
Proof.
  intros Hm r. specialize (Hm r). unfold or_fatal. destruct (m r) as [[a|e] r']; [done|].
  pose proof (refuse_shrinks (A := A) (error_text e) e r'). cbn in *. lia.
Qed.
#[local] Hint Resolve refuse_shrinks or_fatal_shrinks : scp_shrinks.

Lemma guard_path_shrinks t : shrinks (F := F) (guard_path t).
Proof. unfold guard_path. shrink. Qed.
Lemma apply_times_shrinks t : shrinks (F := F) (apply_times t).
Proof. unfold apply_times, set_times. shrink. Qed.
#[local] Hint Resolve guard_path_shrinks apply_times_shrinks : scp_shrinks.
Lemma recv_dir_shrinks mode n : shrinks (F := F) (recv_dir mode n).
Proof. unfold recv_dir, write_ok. shrink. Qed.
Lemma read_payload_shrinks fd size : shrinks (F := F) (read_payload_term fd size).
Proof. unfold read_payload_term. shrink. Qed.
#[local] Hint Resolve read_payload_shrinks : scp_shrinks.
Lemma recv_file_shrinks mode size n : shrinks (F := F) (recv_file mode size n).
Proof. unfold recv_file, check_expected, check_size, write_ok. shrink. Qed.
#[local] Hint Resolve recv_dir_shrinks recv_file_shrinks : scp_shrinks.

Lemma recv_step_takes r r' : recv_step r = (Done true, r') → (input_left r' < input_left r)%nat.
Proof.
  unfold recv_step. unfold mbind at 1, scp_bind at 1. unfold or_fatal at 1, on_stream at 1.
  destruct (read_header (rx_stream r)) as [[[h|]|e] s] eqn:E; [|done|by cbn].
  apply read_header_takes in E. set (r1 := r <| rx_stream := s |>).
  assert (H1 : (input_left r1 < input_left r)%nat) by exact E. clearbody r1. intros H2.
  match type of H2 with ?m r1 = _ => assert (Hm : shrinks m) end.
  { unfold check_top_level_name, write_ok. shrink. }
  specialize (Hm r1). rewrite H2 in Hm. cbn in Hm. lia.
Qed.

Lemma recv_run_total fuel r : (input_left r < fuel)%nat → is_Some (recv_run fuel r).
Proof.
  revert r. induction fuel as [|fuel IH]; intros r Hf; [lia|]. cbn [recv_run].
  destruct (recv_step r) as [[[]|e] r1] eqn:E; [|by eexists..]. apply IH. apply recv_step_takes in E. lia.
Qed.
End Total2.

