(* ===== verification/ScpCopy.v ===== *)
(** * What the SCP sender writes

    A header is read back as it was written; a file system in memory; the bytes
    of a tree, and that the sender writes them. *)
From stdpp Require Import sorting.
From S2P Require Import Prelude Wire Text TextFacts Scp ScpFacts.

(** ** Headers are read back *)

Definition octal_digit (b : byte) : Prop := 48 ≤ u8 b ≤ 55.

Lemma show_mode_digits m : 0 ≤ m ≤ MODE_MASK →
  ∃ a b c d, show_mode m = byte_of_Z <$> [48 + a; 48 + b; 48 + c; 48 + d] ∧
    0 ≤ a < 8 ∧ 0 ≤ b < 8 ∧ 0 ≤ c < 8 ∧ 0 ≤ d < 8 ∧ m = ((a * 8 + b) * 8 + c) * 8 + d.
Proof.
  intros Hm. unfold MODE_MASK in Hm.
  assert (Hd : ∀ k, 0 ≤ k → Z.land (Z.shiftr m (3 * k)) 7 = (m / 8 ^ k) mod 8).
  { intros k Hk. rewrite (Z.land_ones _ 3), Z.shiftr_div_pow2 by lia. by rewrite Z.pow_mul_r. }
  exists ((m / 512) mod 8), ((m / 64) mod 8), ((m / 8) mod 8), (m mod 8). split_and!; try (apply Z.mod_pos_bound; lia).
  - unfold show_mode. cbn [fmap list_fmap]. rewrite !Hd by lia. change (8 ^ 0) with 1. by rewrite Z.div_1_r.
  - pose proof (Z.div_mod m 8). pose proof (Z.div_mod (m / 8) 8). pose proof (Z.div_mod (m / 64) 8).
    rewrite !Z.div_div in * by lia. change (8 * 8) with 64 in *. change (64 * 8) with 512 in *.
    rewrite (Z.mod_small (m / 512)); [lia|]. split; [apply Z.div_pos; lia|apply Z.div_lt_upper_bound; lia].
Qed.

Lemma parse_show_mode m : 0 ≤ m ≤ MODE_MASK → parse_octal U32_MAX (show_mode m) = Some m.
Proof.
  intros Hm. destruct (show_mode_digits m Hm) as (a & b & c & d & -> & Ha & Hb & Hc & Hd & ->).
  unfold parse_octal. cbn [fmap list_fmap].
  assert (Hu : ∀ x, 0 ≤ x < 8 → u8 (byte_of_Z (48 + x)) = 48 + x) by (intros; apply u8_byte_of_Z_small; lia).
  rewrite plus_absent; [|intros E; apply (f_equal u8) in E; rewrite Hu in E by lia; change (u8 Byte.x2b) with 43 in E; lia].
  cbn [parse_octal_digits]. rewrite !Hu by lia. unfold in_range.
  rewrite !(proj2 (Z.leb_le _ _)) by lia. cbn [andb]. rewrite !(proj2 (Z.ltb_ge _ _)) by lia.
  f_equal. lia.
Qed.

Lemma show_mode_octal m : 0 ≤ m ≤ MODE_MASK → Forall octal_digit (show_mode m).
Proof.
  intros Hm. destruct (show_mode_digits m Hm) as (a & b & c & d & -> & Ha & Hb & Hc & Hd & _).
  unfold octal_digit. repeat apply Forall_cons_2; try (rewrite u8_byte_of_Z_small by lia; lia). by apply Forall_nil_2.
Qed.

Lemma parse_show_i64 z : 0 ≤ z ≤ I64_MAX → parse_i64 (show_i64 z) = Some z ∧ Forall is_digit (show_i64 z).
Proof.
  intros Hz. unfold show_i64. rewrite (proj2 (Z.ltb_ge _ _)) by lia. split; [|apply show_uint_digits; lia].
  pose proof (parse_show_uint I64_MAX z ltac:(lia) ltac:(unfold I64_MAX in *; lia)) as Hp.
  pose proof (show_uint_digits z ltac:(lia)) as Hd. unfold parse_i64.
  destruct (show_uint z) as [|b l]; [done|]. inversion Hd as [|? ? Hb _]; subst.
  assert (b ≠ Byte.x2d) by (intros ->; by destruct Hb). by destruct b.
Qed.

(** A header that a stream carries whole: what the writer checks, and what fits
    the reader's line. *)
Definition header_ok (h : Header) : Prop :=
  len (header_line h) ≤ MAX_LINE ∧
  match h with
  | HFile mode size name => 0 ≤ mode ≤ MODE_MASK ∧ is_u64 size ∧ good_name name ∧ utf8_valid name = true
  | HDir mode name => 0 ≤ mode ≤ MODE_MASK ∧ good_name name ∧ utf8_valid name = true
  | HEndDir => True
  | HTimes mtime atime => 0 ≤ mtime ≤ I64_MAX ∧ 0 ≤ atime ≤ I64_MAX
  end.

Definition printable_ascii (l : bytes) : Prop := Forall (λ b, 32 ≤ u8 b < 127) l.

Lemma ascii_valid l : printable_ascii l → utf8_valid l = true.
Proof.
  induction 1 as [|b l Hb _ IH]; [done|]. cbn [utf8_valid]. by rewrite (proj2 (Z.ltb_lt _ _)) by lia.
Qed.

Lemma digits_printable l : Forall is_digit l → printable_ascii l.
Proof. intros H. eapply list.Forall_impl; [exact H|]. unfold is_digit. intros b ?. lia. Qed.
Lemma octal_printable l : Forall octal_digit l → printable_ascii l.
Proof. intros H. eapply list.Forall_impl; [exact H|]. unfold octal_digit. intros b ?. lia. Qed.

Lemma line_loop_line line out rest s :
  Byte.x0a ∉ line → len out + len line ≤ MAX_LINE → utf8_valid (out ++ line) = true →
  line_loop (line ++ Byte.x0a :: rest) out s = (Done (out ++ line), s <| s_in := rest |>).
Proof.
  revert out. induction line as [|b line IH]; intros out Hn Hl Hv; cbn [app line_loop].
  - rewrite app_nil_r in *. cbn. by rewrite Hv.
  - apply not_elem_of_cons in Hn as [Hb Hn]. rewrite byte_eqb_neq by done. autorewrite with lens in Hl.
    rewrite (proj2 (Z.leb_gt _ _)) by (pose proof (len_nonneg line); lia).
    rewrite IH; [by rewrite <- app_assoc|done|autorewrite with lens; lia|by rewrite <- app_assoc].
Qed.

Lemma good_name_no_newline n : good_name n → Byte.x0a ∉ n.
Proof.
  unfold good_name, validate_name. destruct (is_nil n); [done|]. destruct (List.existsb _ n) eqn:E; [done|].
  intros _ Hin. enough (List.existsb (λ b, (u8 b <? 32) || (u8 b =? 127)) n = true) by congruence.
  apply List.existsb_exists. exists Byte.x0a. by rewrite <- list_elem_of_In.
Qed.

Lemma no_byte (P : byte → Prop) b l : Forall P l → ¬ P b → b ∉ l.
Proof. intros H Hb Hin. by apply Hb, (proj1 (list.Forall_forall _ _) H). Qed.

Lemma entry_parsed is_file mode_s size_s name mode size :
  SPACE ∉ mode_s → SPACE ∉ size_s → parse_octal U32_MAX mode_s = Some mode → parse_uint U64_MAX size_s = Some size →
  good_name name → (is_file = false → size = 0) →
  parse_entry is_file (mode_s ++ SPACE :: size_s ++ SPACE :: name) =
    Done (if is_file then HFile mode size name else HDir mode name).
Proof.
  intros H1 H2 Hm Hs Hn Hz. unfold parse_entry, splitn3. rewrite !split_once_app, Hm, Hs, Hn by done.
  destruct is_file; [done|]. by rewrite Hz.
Qed.

(** A text without a line break. *)
Definition clean (l : bytes) : Prop := Byte.x0a ∉ l ∧ utf8_valid l = true.

Lemma clean_app a b : clean a → clean b → clean (a ++ b).
Proof. intros [H1 H2] [H3 H4]. split; [by apply not_elem_of_app|by rewrite utf8_valid_app]. Qed.
Lemma clean_ascii l : printable_ascii l → clean l.
Proof. intros H. split; [eapply no_byte; [exact H|by intros []]|by apply ascii_valid]. Qed.
Lemma clean_name n : good_name n → utf8_valid n = true → clean n.
Proof. intros H ?. split; [by apply good_name_no_newline|done]. Qed.

Lemma no_space_digits l : Forall is_digit l → SPACE ∉ l.
Proof. intros H. eapply no_byte; [exact H|]. by intros []. Qed.
Lemma no_space_octal l : Forall octal_digit l → SPACE ∉ l.
Proof. intros H. eapply no_byte; [exact H|]. by intros []. Qed.

Lemma mode_masked m : 0 ≤ m ≤ MODE_MASK → Z.land m MODE_MASK = m.
Proof. unfold MODE_MASK. intros H. rewrite (Z.land_ones _ 12) by lia. apply Z.mod_small. lia. Qed.

Ltac clean_parts := repeat first [apply clean_app|apply clean_ascii; first [apply digits_printable; assumption
  |apply octal_printable; assumption|repeat constructor; fail|by repeat (apply Forall_cons_2; [done|])]|by apply clean_name].

(** The kind and the rest of a header's line. *)
Lemma header_parts h : header_ok h →
  ∃ kind body, header_line h = kind :: body ∧ kind ∈ [Byte.x43; Byte.x44; Byte.x45; Byte.x54] ∧
    parse_header kind body = Done h ∧ clean body.
Proof.
  intros [_ Hh]. destruct h as [mode size name|mode name| |mtime atime]; cbn [header_line].
  - destruct Hh as (Hm & Hs & Hn & Hu). rewrite mode_masked by done.
    pose proof (show_mode_octal mode Hm) as Ho. pose proof (show_uint_digits size ltac:(width_lia)) as Hd.
    exists Byte.x43, (show_mode mode ++ [SPACE] ++ show_uint size ++ [SPACE] ++ name).
    split_and!; [done|by repeat constructor| |by clean_parts].
    apply (entry_parsed true); auto using no_space_digits, no_space_octal, parse_show_mode.
    + apply parse_show_uint; width_lia.
    + done.
  - destruct Hh as (Hm & Hn & Hu). rewrite mode_masked by done. pose proof (show_mode_octal mode Hm) as Ho.
    exists Byte.x44, (show_mode mode ++ [SPACE] ++ bs "0" ++ [SPACE] ++ name).
    split_and!; [done|by repeat constructor| |by clean_parts].
    apply (entry_parsed false _ _ _ _ 0); auto using no_space_octal, parse_show_mode.
    intros H%list_elem_of_singleton. done.
  - exists Byte.x45, []. split_and!; [done|by repeat constructor|done|by clean_parts].
  - destruct Hh as (Hm & Ha). destruct (parse_show_i64 mtime Hm) as [Em Dm], (parse_show_i64 atime Ha) as [Ea Da].
    exists Byte.x54, (show_i64 mtime ++ [SPACE] ++ bs "0" ++ [SPACE] ++ show_i64 atime ++ [SPACE] ++ bs "0").
    split_and!; [done|by repeat constructor| |by clean_parts].
    unfold parse_header. cbn [Byte.eqb]. unfold parse_times. cbn [app]. change (bs "0") with [Byte.x30]. cbn [app].
    rewrite split_on_app by (by apply no_space_digits).
    change (Byte.x30 :: SPACE :: show_i64 atime ++ [SPACE; Byte.x30]) with ([Byte.x30] ++ SPACE :: show_i64 atime ++ [SPACE; Byte.x30]).
    rewrite !split_on_app; [|by apply no_space_digits|by intros H%list_elem_of_singleton].
    change (split_on SPACE [Byte.x30]) with [[Byte.x30]]. cbn. by rewrite Em, Ea.
Qed.

Lemma read_header_line h rest s :
  header_ok h → s_in s = header_line h ++ Byte.x0a :: rest → read_header s = (Done (Some h), s <| s_in := rest |>).
Proof.
  intros Hh Es. destruct (header_parts h Hh) as (kind & body & El & Hk & Hp & Hn & Hu). unfold read_header.
  rewrite Es, El. cbn [app].
  assert (Hkind : (u8 kind =? 1) || (u8 kind =? 2) = false ∧
    List.existsb (Byte.eqb kind) [Byte.x43; Byte.x44; Byte.x45; Byte.x54] = true).
  { rewrite !elem_of_cons, elem_of_nil in Hk. by destruct Hk as [->|[->|[->|[->|[]]]]]. }
  destruct Hkind as [-> ->]. cbn [negb]. unfold mbind, scp_bind, lift, read_line.
  replace (s_in (s <| s_in := body ++ Byte.x0a :: rest |>)) with (body ++ Byte.x0a :: rest) by done.
  rewrite line_loop_line; [|done| |done].
  - cbn [app]. rewrite Hp. by destruct s.
  - destruct Hh as [Hl _]. rewrite El in Hl. autorewrite with lens in *. lia.
Qed.

(** ** A file system in memory

    A map of paths; [mem_cursor] is where the open file is written next.  There
    are no symbolic links on the way to a path. *)

Inductive Node := NFile (content : bytes) (mode : Z) (mtime : option Z) | NDir (mode : Z) | NLink.
Record MemFs := { mem_nodes : path → option Node; mem_cursor : nat }.

Definition mem_set (p : path) (n : Node) (fs : MemFs) : MemFs :=
  {| mem_nodes q := if decide (q = p) then Some n else mem_nodes fs q; mem_cursor := mem_cursor fs |}.
Definition mem_is_dir (p : path) (fs : MemFs) : bool := match mem_nodes fs p with Some (NDir _) => true | _ => false end.
Definition mem_parent_dir (p : path) (fs : MemFs) : bool :=
  match parent p with Some up => mem_is_dir up fs | None => false end.
Definition NEW_FILE_MODE : Z := 420.
Definition NEW_DIR_MODE : Z := 493.

Definition mem_update (f : bytes → Z → option Z → Node) (p : path) (fs : MemFs) : MemFs :=
  match mem_nodes fs p with Some (NFile c m t) => mem_set p (f c m t) fs | _ => fs end.

#[export] Instance mem_fs : ScpFs MemFs := {|
  Fd := path;
  fs_symlink_metadata p fs :=
    (match mem_nodes fs p with
     | Some (NFile _ _ _) => MetaOk KOther
     | Some (NDir _) => MetaOk KDirectory
     | Some NLink => MetaOk KSymlink
     | None => MetaNotFound
     end, fs);
  fs_create_dir p fs :=
    match mem_nodes fs p with
    | Some _ => (Some "file exists"%string, fs)
    | None => if mem_parent_dir p fs then (None, mem_set p (NDir NEW_DIR_MODE) fs) else (Some "not found"%string, fs)
    end;
  fs_create_dir_all p fs :=
    if mem_is_dir p fs then fs else
    {| mem_nodes q := match mem_nodes fs q with
                      | None => if bool_decide (take (length q) p = q) then Some (NDir NEW_DIR_MODE) else None
                      | n => n
                      end;
       mem_cursor := mem_cursor fs |};
  fs_open p fs :=
    let fs0 := {| mem_nodes := mem_nodes fs; mem_cursor := 0 |} in
    match mem_nodes fs p with
    | Some (NFile _ _ _) => (inl p, fs0)
    | Some (NDir _) => (inr "is a directory"%string, fs)
    | Some NLink => (inr "too many levels of symbolic links"%string, fs)
    | None => if mem_parent_dir p fs then (inl p, mem_set p (NFile [] NEW_FILE_MODE None) fs0)
              else (inr "not found"%string, fs)
    end;
  fs_open_dir p fs := (if mem_is_dir p fs then Some p else None, fs);
  fs_open_write p fs := (match mem_nodes fs p with Some (NFile _ _ _) => Some p | _ => None end, fs);
  fs_write p b fs :=
    let fs := mem_update (λ c m t, NFile (take (mem_cursor fs) c ++ b ++ drop (mem_cursor fs + length b) c) m t) p fs in
    (None, {| mem_nodes := mem_nodes fs; mem_cursor := mem_cursor fs + length b |});
  fs_is_file p fs := match mem_nodes fs p with Some (NFile _ _ _) => true | _ => false end;
  fs_set_len p n := mem_update (λ c m t, NFile (take (Z.to_nat n) (c ++ replicate (Z.to_nat n - length c) Byte.x00)) m t) p;
  fs_set_permissions p m fs :=
    match mem_nodes fs p with
    | Some (NFile c _ t) => mem_set p (NFile c m t) fs
    | Some (NDir _) => mem_set p (NDir m) fs
    | _ => fs
    end;
  fs_set_modified p t := mem_update (λ c m _, NFile c m (Some t)) p;
|}.

(** ** Trees *)

Definition find_entry {A} (n : bytes) (es : list (bytes * A)) : option A := snd <$> List.find (λ e, bytes_eqb e.1 n) es.

(** The node of a tree at a path of names; [preserve] is whether times arrive. *)
Fixpoint tree_at (preserve : bool) (p : list bytes) (t : Tree) : option Node :=
  match p, t with
  | [], TFile md (inl content) => Some (NFile content (mode_of md) (if preserve then Some (times_of md).1 else None))
  | [], TDir md _ => Some (NDir (mode_of md))
  | n :: p, TDir _ (inl es) => match find_entry n es with Some t => tree_at preserve p t | None => None end
  | _, _ => None
  end.

(** The size limit of the receiver, and what the sender's header says. *)
Definition size_ok (cap : option Z) (size : Z) : Prop := match cap with Some c => size ≤ c | None => True end.
Definition time_ok (t : option Z) : Prop := match t with Some z => 0 ≤ z ≤ I64_MAX | None => True end.

(** A tree that can be read and whose names can be sent. *)
Inductive tree_ok (cap : option Z) : bytes → Tree → Prop :=
  | ok_file n md content :
      good_name n → utf8_valid n = true → md_len md = len content → is_u64 (len content) → size_ok cap (len content) →
      time_ok (md_modified md) → time_ok (md_accessed md) → len n ≤ 4000 →
      tree_ok cap n (TFile md (inl content))
  | ok_dir n md es :
      good_name n → utf8_valid n = true → time_ok (md_modified md) → time_ok (md_accessed md) → len n ≤ 4000 →
      NoDup es.*1 → Forall (λ e, tree_ok cap e.1 e.2) es →
      tree_ok cap n (TDir md (inl es))
  | ok_other n : tree_ok cap n TOther.

(** Sorting looks at the names only. *)
Section SortMap.
Context {A B : Type} (f : A → B) (R : relation A) (R' : relation B)
  `{∀ x y, Decision (R x y), ∀ x y, Decision (R' x y)} (HR : ∀ x y, R' (f x) (f y) ↔ R x y).

Lemma list_merge_fmap l1 l2 : list_merge R' (f <$> l1) (f <$> l2) = f <$> list_merge R l1 l2.
Proof.
  revert l2. induction l1 as [|x1 l1 IH1]; intros l2; [by rewrite fmap_nil, !list_merge_nil_l|].
  induction l2 as [|x2 l2 IH2]; [by rewrite fmap_nil, !list_merge_nil_r|]. rewrite !fmap_cons, !list_merge_cons.
  rewrite <- !fmap_cons. destruct (decide (R x1 x2)) as [Hd|Hd].
  - rewrite decide_True by (by apply HR). by rewrite IH1.
  - rewrite decide_False by (by rewrite HR). by rewrite IH2.
Qed.
Definition stack_map (st : list (option (list A))) : list (option (list B)) := List.map (option_map (List.map f)) st.

Lemma merge_to_stack_fmap st (l : list A) :
  merge_list_to_stack R' (stack_map st) (f <$> l) = stack_map (merge_list_to_stack R st l).
Proof.
  revert l. induction st as [|[l'|] st IH]; intros l; [done| |done]. cbn. f_equal.
  rewrite <- IH. f_equal. apply list_merge_fmap.
Qed.
Lemma merge_stack_fmap st : merge_stack R' (stack_map st) = f <$> merge_stack R st.
Proof. induction st as [|[l'|] st IH]; [done| |done]. cbn. rewrite <- list_merge_fmap. f_equal. exact IH. Qed.
Lemma merge_sort_fmap l : merge_sort R' (f <$> l) = f <$> merge_sort R l.
Proof.
  unfold merge_sort. change (@nil (option (list B))) with (stack_map []).
  generalize (@nil (option (list A))). induction l as [|x l IH]; intros st; cbn [fmap list_fmap merge_sort_aux].
  - apply merge_stack_fmap.
  - change [f x] with (f <$> [x]). by rewrite merge_to_stack_fmap, IH.
Qed.
End SortMap.

(** ** The bytes of a tree *)

Definition line (h : Header) : bytes := header_line h ++ [Byte.x0a].
Definition sorted_entries {A} (es : list (bytes * A)) : list (bytes * A) := merge_sort name_le es.

Definition wire_times (preserve : bool) (md : Metadata) : bytes :=
  if preserve then line (HTimes (times_of md).1 (times_of md).2) else [].

Fixpoint wire (preserve : bool) (n : bytes) (t : Tree) : bytes :=
  match t with
  | TFile md (inl content) => wire_times preserve md ++ line (HFile (mode_of md) (md_len md) n) ++ content ++ [Byte.x00]
  | TDir md (inl es) =>
      wire_times preserve md ++ line (HDir (mode_of md) n) ++
      concat (snd <$> sorted_entries ((λ e, (e.1, wire preserve e.1 e.2)) <$> es)) ++ line HEndDir
  | _ => []
  end.

(** The acknowledgements the sender waits for. *)
Definition acks_times (preserve : bool) : nat := if preserve then 1 else 0.
Fixpoint acks (preserve : bool) (t : Tree) : nat :=
  match t with
  | TFile _ (inl _) => acks_times preserve + 2
  | TDir _ (inl es) => acks_times preserve + 2 + sum_list_with (λ e, acks preserve e.2) es
  | _ => 0
  end.

Lemma sorted_entries_fmap {A B} (g : bytes * A → B) es :
  sorted_entries ((λ e, (e.1, g e)) <$> es) = (λ e, (e.1, g e)) <$> sorted_entries es.
Proof. apply merge_sort_fmap. intros x y. done. Qed.

Lemma sorted_entries_perm {A} (es : list (bytes * A)) : sorted_entries es ≡ₚ es.
Proof. apply merge_sort_Permutation. Qed.

(** Induction over trees that can be sent. *)
Lemma tree_ok_induction cap (P : bytes → Tree → Prop) :
  (∀ n md content, tree_ok cap n (TFile md (inl content)) → P n (TFile md (inl content))) →
  (∀ n md es, tree_ok cap n (TDir md (inl es)) → Forall (λ e, tree_ok cap e.1 e.2 ∧ P e.1 e.2) es → P n (TDir md (inl es))) →
  (∀ n, P n TOther) → ∀ n t, tree_ok cap n t → P n t.
Proof.
  intros Hf Hd Ho. fix IH 3. intros n t Ht. pose proof Ht as Ht'. destruct Ht as [n md content| n md es ? ? ? ? ? ? Hes|n].
  - by apply Hf.
  - apply Hd; [done|]. clear -Hes IH. induction Hes as [|e es He _ IHes]; constructor; [split; [done|by apply IH]|done].
  - apply Ho.
Qed.

(** *** The sender writes them *)

(** [m] takes [k] acknowledgements, writes [w] and returns [a]. *)
Definition writes {A} (m : ScpM Stream A) (a : A) (k : nat) (w : bytes) : Prop :=
  ∀ s rest, s_in s = replicate k Byte.x00 ++ rest → (∀ i, s_write_fails s i = None) →
  ∃ out, m s = (Done a, s <| s_in := rest |> <| s_out := s_out s ++ out |>) ∧ concat out = w.

Lemma writes_bind {A B} (m : ScpM Stream A) (f : A → ScpM Stream B) a b k1 k2 w1 w2 :
  writes m a k1 w1 → writes (f a) b k2 w2 → writes (m ≫= f) b (k1 + k2) (w1 ++ w2).
Proof.
  intros Hm Hf s rest Es Hw. rewrite replicate_add, <- app_assoc in Es.
  destruct (Hm s _ Es Hw) as (out1 & E1 & C1). unfold mbind, scp_bind. rewrite E1.
  set (s1 := s <| s_in := _ |> <| s_out := _ |>).
  destruct (Hf s1 rest) as (out2 & E2 & C2); [by destruct s|by destruct s|]. exists (out1 ++ out2).
  split; [|by rewrite concat_app, C1, C2]. rewrite E2. unfold s1. destruct s. unfold set_field. cbn. by rewrite app_assoc.
Qed.

Lemma writes_ret {A} (a : A) : writes (mret a) a 0 [].
Proof.
  intros s rest Es _. cbn in Es. exists []. split; [|done]. unfold mret, scp_ret, set_field. destruct s. cbn in *. subst. by rewrite app_nil_r.
Qed.
Lemma writes_write b : writes (stream_write b) tt 0 b.
Proof.
  intros s rest Es Hw. cbn in Es. exists [b]. split; [|by rewrite concat_cons, app_nil_r]. unfold stream_write. rewrite Hw.
  unfold set_field. destruct s. cbn in *. by subst.
Qed.
Lemma writes_ack : writes read_ack tt 1 [].
Proof.
  intros s rest Es _. cbn in Es. exists []. split; [|done]. unfold read_ack, read_byte, mbind, scp_bind. rewrite Es.
  unfold set_field. destruct s. cbn. by rewrite app_nil_r.
Qed.
Lemma writes_lift {A} (a : A) : writes (lift (Done a)) a 0 [].
Proof. apply (writes_ret a). Qed.

(** The next step is [m], which takes [k] and writes [w]. *)
Ltac writes_step k w := eapply (writes_bind _ _ _ _ k _ w).

Lemma writes_header h :
  match h with HFile _ _ n | HDir _ n => good_name n | _ => True end → writes (write_header h) tt 0 (line h).
Proof.
  intros Hh. unfold write_header. change (line h) with ([] ++ line h). writes_step 0%nat (@nil byte); [|apply writes_write].
  destruct h; rewrite ?Hh; apply writes_lift.
Qed.

Lemma payload_rounds rounds src :
  (length src ≤ rounds)%nat → writes (payload_send rounds src (len src)) tt 0 (src ++ [Byte.x00]).
Proof.
  revert src. induction rounds as [|rounds IH]; intros src Hr.
  { destruct src; [|cbn in Hr; lia]. apply writes_write. }
  cbn [payload_send]. destruct src as [|b src]; [apply writes_write|].
  rewrite (proj2 (Z.leb_gt _ _)) by (autorewrite with lens; pose proof (len_nonneg src); lia).
  set (l := b :: src) in *. set (k := Z.to_nat (Z.min (len l) BUF_LEN)).
  assert (Hk : (1 ≤ k ≤ length l)%nat).
  { unfold k, BUF_LEN, len, l. cbn [length]. lia. }
  replace (l ++ [Byte.x00]) with (take k l ++ drop k l ++ [Byte.x00]) by (by rewrite app_assoc, take_drop).
  writes_step 0%nat (take k l); [apply writes_write|].
  replace (len l - len (take k l)) with (len (drop k l)) by (unfold len; rewrite length_take, length_drop; lia).
  apply IH. rewrite length_drop. lia.
Qed.

(** A header and its acknowledgement. *)
Lemma writes_header_ack h :
  match h with HFile _ _ n | HDir _ n => good_name n | _ => True end →
  writes (_ ← write_header h; read_ack) tt 1 (line h).
Proof.
  intros Hh. rewrite <- (app_nil_r (line h)). writes_step 0%nat (line h); [by apply writes_header|apply writes_ack].
Qed.

Lemma writes_times md opts :
  writes (send_times md opts) tt (acks_times (send_preserve_times opts)) (wire_times (send_preserve_times opts) md).
Proof.
  unfold send_times, wire_times, acks_times. destruct (send_preserve_times opts); [|apply writes_ret].
  destruct (times_of md) as [m a]. cbn [fst snd]. by apply writes_header_ack.
Qed.

Lemma basename_good n : good_name n → utf8_valid n = true → basename_or n = Done n.
Proof.
  unfold good_name, validate_name, basename_or. intros H ->. destruct (is_nil n); [done|].
  destruct (List.existsb _ n); [done|]. destruct (first_is _ n); [done|]. destruct (bytes_eqb n (bs ".")); [done|].
  by destruct (bytes_eqb n (bs "..")).
Qed.

Lemma writes_file opts n md content :
  good_name n → utf8_valid n = true → md_len md = len content →
  writes (send_file n md (inl content) opts) tt (acks (send_preserve_times opts) (TFile md (inl content)))
    (wire (send_preserve_times opts) n (TFile md (inl content))).
Proof.
  intros Hn Hu Hl. unfold send_file. cbn [acks wire]. eapply writes_bind; [apply writes_times|].
  rewrite basename_good by done. change 2%nat with (0 + (0 + (1 + 1)))%nat.
  rewrite <- (app_nil_l (line _ ++ _)). eapply writes_bind; [apply writes_lift|].
  eapply writes_bind; [by apply writes_header|]. rewrite <- (app_nil_l (content ++ _)).
  eapply writes_bind; [apply writes_ack|]. rewrite Hl. rewrite <- (app_nil_r (content ++ _)).
  change 1%nat with (0 + 1)%nat. eapply writes_bind; [by apply payload_rounds|apply writes_ack].
Qed.

Lemma writes_sequence (es : list (bytes * Tree)) pr (g : bytes * Tree → ScpM Stream unit) :
  Forall (λ e, writes (g e) tt (acks pr e.2) (wire pr e.1 e.2)) es →
  writes (sequence (g <$> es)) tt (sum_list_with (λ e, acks pr e.2) es) (concat ((λ e, wire pr e.1 e.2) <$> es)).
Proof.
  induction 1 as [|e es He _ IH]; [apply writes_ret|]. cbn [fmap list_fmap sequence sum_list_with concat].
  by eapply writes_bind.
Qed.

Lemma sum_list_perm {A} (f : A → nat) l l' : l ≡ₚ l' → sum_list_with f l = sum_list_with f l'.
Proof. induction 1; cbn; lia. Qed.

Lemma writes_tree cap opts n t :
  tree_ok cap n t → writes (send_child opts n t) tt (acks (send_preserve_times opts) t) (wire (send_preserve_times opts) n t).
Proof.
  revert n t. refine (tree_ok_induction cap (λ n t, writes _ tt (acks _ t) (wire _ n t)) _ _ _).
  - intros n md content Ht. inversion Ht; subst. by apply writes_file.
  - intros n md es Ht IH. inversion Ht; subst. cbn [send_child acks wire].
    rewrite <- Nat.add_assoc. eapply writes_bind; [apply writes_times|]. rewrite basename_good by done.
    rewrite <- (app_nil_l (line _ ++ _)). change (2 + ?k)%nat with (0 + (0 + (1 + (1 + k))))%nat.
    eapply writes_bind; [apply writes_lift|]. eapply writes_bind; [by apply writes_header|].
    rewrite <- (app_nil_l (concat _ ++ _)). eapply writes_bind; [apply writes_ack|]. rewrite Nat.add_comm.
    change (merge_sort name_le ?l) with (sorted_entries l).
    rewrite (sorted_entries_fmap (λ e, send_child opts e.1 e.2)), (sorted_entries_fmap (λ e, wire _ e.1 e.2)).
    rewrite <- !list_fmap_compose.
    rewrite <- (sum_list_perm _ _ _ (sorted_entries_perm es)).
    eapply writes_bind; [|by apply writes_header_ack]. apply writes_sequence.
    apply list.Forall_forall. intros e He. rewrite sorted_entries_perm in He.
    by destruct (proj1 (list.Forall_forall _ _) IH e He).
  - intros n. apply writes_ret.
Qed.
