(* ===== verification/ScpTree.v ===== *)
(** * SCP copies a tree

    What the sender writes for a file or directory, the receiver reads as the
    same file or directory, and acknowledges as the sender expects. *)
From stdpp Require Import sorting.
From S2P Require Import Prelude Wire Text TextFacts Scp ScpFacts ScpCopy.

(** ** Headers of a tree that can be sent *)

Lemma show_digits_length fuel z : (length (show_digits fuel z []) ≤ fuel)%nat.
Proof.
  revert z. induction fuel as [|fuel IH]; intros z; cbn [show_digits]; [done|].
  destruct (z <? 10); [cbn; lia|]. rewrite show_digits_app, length_app. cbn [length]. specialize (IH (z / 10)). lia.
Qed.
Lemma show_uint_length z : len (show_uint z) ≤ 20.
Proof. unfold len, show_uint. pose proof (show_digits_length 20 z). lia. Qed.
Lemma show_i64_length z : len (show_i64 z) ≤ 21.
Proof. unfold show_i64. destruct (z <? 0); autorewrite with lens; pose proof (show_uint_length z); pose proof (show_uint_length (- z)); lia. Qed.

Lemma show_mode_length m : len (show_mode m) = 4.
Proof. done. Qed.

Lemma mode_of_range md : 0 ≤ mode_of md ≤ MODE_MASK.
Proof. unfold mode_of, MODE_MASK. rewrite (Z.land_ones _ 12) by lia. pose proof (Z.mod_pos_bound (md_mode md) (2 ^ 12)). lia. Qed.

Lemma as_i64_small z : 0 ≤ z ≤ I64_MAX → as_i64 z = z.
Proof. unfold as_i64, I64_MAX. intros. by rewrite (proj2 (Z.ltb_lt _ _)) by lia. Qed.

Lemma times_of_range md :
  time_ok (md_modified md) → time_ok (md_accessed md) → 0 ≤ (times_of md).1 ≤ I64_MAX ∧ 0 ≤ (times_of md).2 ≤ I64_MAX.
Proof.
  assert (0 ≤ I64_MAX) by done. unfold times_of, time_ok.
  destruct (md_modified md), (md_accessed md); cbn [fst snd]; intros; rewrite ?as_i64_small by done; lia.
Qed.

Lemma header_file_ok md n size : good_name n → utf8_valid n = true → is_u64 size → len n ≤ 4000 → header_ok (HFile (mode_of md) size n).
Proof.
  intros ? ? ? ?. pose proof (mode_of_range md). split; [|done]. cbn [header_line]. autorewrite with lens.
  rewrite show_mode_length. pose proof (show_uint_length size). unfold MAX_LINE.
  change (len (bs "C")) with 1. change (len (bs " ")) with 1. lia.
Qed.
Lemma header_dir_ok md n : good_name n → utf8_valid n = true → len n ≤ 4000 → header_ok (HDir (mode_of md) n).
Proof.
  intros ? ? ?. pose proof (mode_of_range md). split; [|done]. cbn [header_line]. autorewrite with lens.
  rewrite show_mode_length. unfold MAX_LINE. change (len (bs "D")) with 1. change (len (bs " 0 ")) with 3. lia.
Qed.
Lemma header_times_ok md :
  time_ok (md_modified md) → time_ok (md_accessed md) → header_ok (HTimes (times_of md).1 (times_of md).2).
Proof.
  intros H1 H2. pose proof (times_of_range md H1 H2). split; [|done]. cbn [header_line]. autorewrite with lens.
  pose proof (show_i64_length (times_of md).1). pose proof (show_i64_length (times_of md).2). unfold MAX_LINE.
  change (len (bs "T")) with 1. change (len (bs " 0 ")) with 3. change (len (bs " 0")) with 2. lia.
Qed.
Lemma header_end_ok : header_ok HEndDir.
Proof. by split. Qed.

(** ** Running a round *)

(** [m] succeeds from [r], and what it leaves satisfies [Q]. *)
Definition wp {A} (m : ScpM (Receiver MemFs) A) (r : Receiver MemFs) (Q : A → Receiver MemFs → Prop) : Prop :=
  ∃ a r', m r = (Done a, r') ∧ Q a r'.

Lemma wp_bind {A B} (m : ScpM _ A) (f : A → ScpM _ B) r Q : wp m r (λ a r', wp (f a) r' Q) → wp (m ≫= f) r Q.
Proof. intros (a & r' & E & b & r'' & E' & HQ). exists b, r''. split; [|done]. unfold mbind, scp_bind. by rewrite E. Qed.
Lemma wp_ret {A} (a : A) r Q : Q a r → wp (mret a) r Q.
Proof. intros H. by exists a, r. Qed.
Lemma wp_gets {A} (f : Receiver MemFs → A) r Q : Q (f r) r → wp (gets f) r Q.
Proof. intros H. by exists (f r), r. Qed.
Lemma wp_modify f r (Q : unit → Receiver MemFs → Prop) : Q tt (f r) → wp (modify f) r Q.
Proof. intros H. by exists tt, (f r). Qed.
Lemma wp_on_fs {A} (f : MemFs → A * MemFs) r Q : Q (f (rx_fs r)).1 (r <| rx_fs := (f (rx_fs r)).2 |>) → wp (on_fs f) r Q.
Proof. intros H. unfold wp, on_fs. destruct (f (rx_fs r)) as [a fs]. by exists a, (r <| rx_fs := fs |>). Qed.
Lemma wp_on_fs_ (f : MemFs → MemFs) r (Q : unit → Receiver MemFs → Prop) :
  Q tt (r <| rx_fs := f (rx_fs r) |>) → wp (on_fs_ f) r Q.
Proof. intros H. by apply wp_on_fs. Qed.
Lemma wp_or_fatal {A} (m : ScpM _ A) r Q : wp m r Q → wp (or_fatal m) r Q.
Proof. intros (a & r' & E & HQ). exists a, r'. unfold or_fatal. by rewrite E. Qed.
Lemma wp_mono {A} (m : ScpM _ A) r (Q Q' : A → Receiver MemFs → Prop) : wp m r Q → (∀ a r', Q a r' → Q' a r') → wp m r Q'.
Proof. intros (a & r' & E & HQ) H. exists a, r'. auto. Qed.

(** The settings under which nothing is refused. *)
Record accepts (pr : bool) (cap : option Z) (r : Receiver MemFs) : Prop := {
  ac_times : preserve_times (rx_opts r) = pr;
  ac_cap : max_file_size r = cap;
  ac_expected : expected_name r = None;
  ac_filter : top_level_filter r = None;
  ac_writes : ∀ i, s_write_fails (rx_stream r) i = None
}.

(** From [r] to [r'], [k] acknowledgements were written, and [rest] is to come. *)
Record moved (rest : bytes) (k : nat) (r r' : Receiver MemFs) : Prop := {
  mv_base : rx_base r' = rx_base r;
  mv_opts : rx_opts r' = rx_opts r;
  mv_cap : max_file_size r' = max_file_size r;
  mv_expected : expected_name r' = expected_name r;
  mv_filter : top_level_filter r' = top_level_filter r;
  mv_fails : s_write_fails (rx_stream r') = s_write_fails (rx_stream r);
  mv_end : s_end (rx_stream r') = s_end (rx_stream r);
  mv_in : s_in (rx_stream r') = rest;
  mv_out : s_out (rx_stream r') = s_out (rx_stream r) ++ replicate k [Byte.x00]
}.

Lemma moved_trans r1 r2 r3 i2 i3 k1 k2 : moved i2 k1 r1 r2 → moved i3 k2 r2 r3 → moved i3 (k1 + k2) r1 r3.
Proof.
  intros [] []. split; try congruence. rewrite replicate_add, app_assoc. congruence.
Qed.
Lemma moved_accepts pr cap rest k r r' : moved rest k r r' → accepts pr cap r → accepts pr cap r'.
Proof. intros [] []. split; try congruence. Qed.

Lemma wp_write_ok r (Q : unit → Receiver MemFs → Prop) :
  (∀ i, s_write_fails (rx_stream r) i = None) →
  Q tt (r <| rx_stream := (rx_stream r) <| s_out := s_out (rx_stream r) ++ [[Byte.x00]] |> |>) → wp (on_stream write_ok) r Q.
Proof.
  intros Hw H. unfold wp, on_stream, write_ok, stream_write. rewrite Hw. by eexists _, _.
Qed.

Lemma wp_header h rest r Q :
  header_ok h → s_in (rx_stream r) = line h ++ rest →
  Q (Some h) (r <| rx_stream := (rx_stream r) <| s_in := rest |> |>) → wp (or_fatal (on_stream read_header)) r Q.
Proof.
  intros Hh Es H. apply wp_or_fatal. unfold wp, on_stream. unfold line in Es. rewrite <- app_assoc in Es.
  rewrite (read_header_line h rest) by done. by eexists _, _.
Qed.

(** ** Paths under the base *)

Definition plain_component (c : Component) : Prop := match c with RootDir | Normal _ => True | _ => False end.
Definition canonical (p : path) : Prop := Forall plain_component p.

Lemma normalize_loop_plain p out : canonical p → normalize_loop p out = out ++ p.
Proof.
  intros Hp. revert out. induction Hp as [|c p Hc _ IH]; intros out; [by rewrite app_nil_r|].
  destruct c; try done; cbn [normalize_loop]; by rewrite IH, <- app_assoc.
Qed.
Lemma canonical_normal p : canonical p → lexical_normalize p = p.
Proof. intros Hp. unfold lexical_normalize. by rewrite normalize_loop_plain. Qed.
Lemma canonical_snoc p n : canonical p → canonical (p ++ [Normal n]).
Proof. intros Hp. apply Forall_app. split; [done|by apply list.Forall_singleton]. Qed.
Lemma parent_snoc p n : parent (p ++ [Normal n]) = Some p.
Proof. unfold parent. rewrite rev_app_distr. cbn. by rewrite rev_involutive. Qed.

Lemma wp_guard target s r (Q : unit → Receiver MemFs → Prop) :
  canonical target → target = rx_base r ++ s → Q tt r → wp (guard_path target) r Q.
Proof.
  intros Ht E H. unfold guard_path. rewrite canonical_normal by done.
  assert (List.existsb (λ c, bool_decide (c = ParentDir)) target = false) as ->.
  { apply not_true_is_false. intros (c & Hc & Hd)%List.existsb_exists. apply bool_decide_eq_true in Hd. subst c.
    apply list_elem_of_In in Hc. by apply (proj1 (list.Forall_forall _ _) Ht) in Hc. }
  apply wp_bind, wp_gets. rewrite canonical_normal by (subst; by apply Forall_app in Ht as [? _]).
  unfold path_starts_with. rewrite bool_decide_true by (by rewrite E, take_app_length). by apply wp_ret.
Qed.

(** Where an entry goes: a directory under the base, which exists. *)
Record placed (cur : path) (r : Receiver MemFs) : Prop := {
  pl_cur : current_dir r = cur;
  pl_into : rx_stack r ≠ [] ∨ target_is_file (rx_opts r) = false;
  pl_dir : mem_is_dir cur (rx_fs r) = true;
  pl_under : ∃ s, cur = rx_base r ++ s;
  pl_canon : canonical cur
}.

Lemma placed_target cur n r : placed cur r → good_name n → resolve_file_target n r = cur ++ [Normal n].
Proof.
  intros [<- Hi _ _ _] Hn. unfold resolve_file_target. rewrite good_name_join by done.
  destruct Hi as [Hi| ->]; [by destruct (rx_stack r)|by rewrite andb_false_r].
Qed.

Lemma wp_placed_guard cur n r (Q : unit → Receiver MemFs → Prop) :
  placed cur r → Q tt r → wp (guard_path (cur ++ [Normal n])) r Q.
Proof.
  intros [_ _ _ (s & E) Hc]. eapply (wp_guard _ (s ++ [Normal n])); [by apply canonical_snoc|by rewrite E, app_assoc].
Qed.

Lemma wp_unfiltered pr cap n r (Q : unit → Receiver MemFs → Prop) :
  accepts pr cap r → Q tt r → wp (check_top_level_name n) r Q.
Proof. intros Ha H. apply wp_bind, wp_gets. cbn. rewrite (ac_filter _ _ _ Ha). destruct (rx_stack r); by apply wp_ret. Qed.

Lemma wp_expected pr cap n r (Q : unit → Receiver MemFs → Prop) :
  accepts pr cap r → Q tt r → wp (check_expected n) r Q.
Proof. intros Ha H. apply wp_bind, wp_gets. cbn. rewrite (ac_expected _ _ _ Ha). by apply wp_ret. Qed.
Lemma wp_size pr cap size r (Q : unit → Receiver MemFs → Prop) :
  accepts pr cap r → size_ok cap size → Q tt r → wp (check_size size) r Q.
Proof.
  intros Ha Hs H. apply wp_bind, wp_gets. cbn. rewrite (ac_cap _ _ _ Ha). destruct cap as [c|]; [|by apply wp_ret].
  rewrite (proj2 (Z.ltb_ge _ _)) by exact Hs. by apply wp_ret.
Qed.

(** ** Times, directories and the end of one *)

Lemma step_times pr cap md rest r :
  accepts pr cap r → time_ok (md_modified md) → time_ok (md_accessed md) →
  s_in (rx_stream r) = line (HTimes (times_of md).1 (times_of md).2) ++ rest →
  wp recv_step r (λ more r', more = true ∧ moved rest 1 r r' ∧ rx_stack r' = rx_stack r ∧ rx_fs r' = rx_fs r ∧
    pending_times r' = Some (times_of md)).
Proof.
  intros Ha Hm Hc Es. unfold recv_step. eapply wp_bind, wp_header; [by apply header_times_ok|done|].
  apply wp_bind, wp_modify, wp_bind, wp_write_ok; [apply Ha|]. apply wp_ret. by split_and!.
Qed.

Lemma step_end pr cap d up rest r :
  accepts pr cap r → rx_stack r = d :: up → s_in (rx_stream r) = line HEndDir ++ rest →
  wp recv_step r (λ more r', more = true ∧ moved rest 1 r r' ∧ rx_stack r' = up ∧ rx_fs r' = rx_fs r ∧ pending_times r' = None).
Proof.
  intros Ha Hs Es. unfold recv_step. eapply wp_bind, wp_header; [apply header_end_ok|done|].
  apply wp_bind, wp_gets. cbn [rx_stack]. change (rx_stack (r <| rx_stream := _ |>)) with (rx_stack r). rewrite Hs.
  apply wp_bind, wp_modify, wp_bind, wp_write_ok; [apply Ha|]. by apply wp_ret.
Qed.

(** What is at [p] afterwards; elsewhere nothing changed. *)
Definition changed_at (p : path) (n : Node) (fs fs' : MemFs) : Prop :=
  ∀ q, mem_nodes fs' q = if decide (q = p) then Some n else mem_nodes fs q.

Lemma set_changed p n fs : changed_at p n fs (mem_set p n fs).
Proof. done. Qed.
Lemma changed_twice p n1 n2 fs fs1 fs2 : changed_at p n1 fs fs1 → changed_at p n2 fs1 fs2 → changed_at p n2 fs fs2.
Proof. intros H1 H2 q. rewrite H2, H1. by destruct (decide _). Qed.
Lemma changed_here p n fs fs' : changed_at p n fs fs' → mem_nodes fs' p = Some n.
Proof. intros H. by rewrite H, decide_True. Qed.

(** The times of an entry that was just opened for it. *)
Lemma wp_apply_times pr cap target md n fs r (Q : unit → Receiver MemFs → Prop) :
  accepts pr cap r → pending_times r = (if pr then Some (times_of md) else None) → 0 ≤ (times_of md).1 →
  changed_at target n fs (rx_fs r) →
  (∀ fs', changed_at target (match n with
     | NFile c m t => NFile c m (if pr then Some (times_of md).1 else t)
     | n => n end) fs fs' → Q tt (r <| pending_times := None |> <| rx_fs := fs' |>)) →
  wp (apply_times target) r Q.
Proof.
  intros Ha Hp Ht Hc HQ. apply wp_bind, wp_gets, wp_bind, wp_modify. cbn [id].
  assert (Hsame : wp (mret tt) (r <| pending_times := None |>) Q ↔ Q tt (r <| pending_times := None |> <| rx_fs := rx_fs r |>)).
  { split; [by intros (? & ? & [= <- <-] & ?)|]. intros H. apply wp_ret. by destruct r. }
  rewrite Hp. destruct pr; [|by apply Hsame, HQ; destruct n].
  rewrite (ac_times _ _ _ Ha). destruct (times_of md) as [mt at'] eqn:E. cbn [fst snd] in *.
  apply wp_bind, wp_on_fs. cbn [fs_open_write mem_fs fst snd]. cbn.
  change (rx_fs (r <| pending_times := None |>)) with (rx_fs r). rewrite (changed_here _ _ _ _ Hc).
  destruct n as [c m t|m|].
  - apply wp_on_fs_. unfold fs_set_modified, mem_fs, mem_update, set_field. cbn. rewrite (changed_here _ _ _ _ Hc).
    rewrite Z.max_l by done. apply (HQ (mem_set target (NFile c m (Some mt)) (rx_fs r))). eapply changed_twice; [done|apply set_changed].
  - apply wp_ret. by apply (HQ (rx_fs r)).
  - apply wp_ret. by apply (HQ (rx_fs r)).
Qed.

Lemma dir_changed p n q fs fs' : changed_at p n fs fs' → q ≠ p → mem_is_dir q fs' = mem_is_dir q fs.
Proof. intros H Hq. unfold mem_is_dir. by rewrite H, decide_False. Qed.
Lemma snoc_ne (cur : path) c : cur ≠ cur ++ [c].
Proof. intros E. apply (f_equal length) in E. rewrite length_app in E. cbn in E. lia. Qed.

Lemma wp_create_dir cur n r (Q : unit → Receiver MemFs → Prop) :
  mem_is_dir cur (rx_fs r) = true → mem_nodes (rx_fs r) (cur ++ [Normal n]) = None →
  (∀ fs', changed_at (cur ++ [Normal n]) (NDir NEW_DIR_MODE) (rx_fs r) fs' → Q tt (r <| rx_fs := fs' |>)) →
  wp (res ← on_fs (fs_create_dir (cur ++ [Normal n]));
      match res with None => mret tt | Some e => refuse (io_message e) (ScpIo e) end) r Q.
Proof.
  intros Hd Hn HQ. apply wp_bind, wp_on_fs. unfold fs_create_dir, mem_fs, mem_parent_dir. rewrite Hn, parent_snoc, Hd.
  apply wp_ret, HQ, set_changed.
Qed.
Lemma wp_chmod_dir t m0 mode fs r (Q : unit → Receiver MemFs → Prop) :
  changed_at t (NDir m0) fs (rx_fs r) →
  (∀ fs', changed_at t (NDir mode) fs fs' → Q tt (r <| rx_fs := fs' |>)) →
  wp (dir ← on_fs (fs_open_dir t);
      match dir with Some fd => on_fs_ (fs_set_permissions fd mode) | None => mret tt end) r Q.
Proof.
  intros Hc HQ. apply wp_bind, wp_on_fs. unfold fs_open_dir, mem_fs, mem_is_dir. cbn [fst snd].
  rewrite (changed_here _ _ _ _ Hc). apply wp_on_fs_. unfold fs_set_permissions, set_field. cbn.
  rewrite (changed_here _ _ _ _ Hc). apply HQ. eapply changed_twice; [exact Hc|apply set_changed].
Qed.
Lemma mem_missing p (fs : MemFs) : mem_nodes fs p = None → fs_symlink_metadata p fs = (MetaNotFound, fs).
Proof. intros H. cbn. by rewrite H. Qed.
Lemma wp_assoc {A B C} (m : ScpM _ A) (f : A → ScpM _ B) (g : B → ScpM _ C) r Q :
  wp ((m ≫= f) ≫= g) r Q → wp (m ≫= λ a, f a ≫= g) r Q.
Proof. unfold wp, mbind, scp_bind. destruct (m r) as [[a|e] r']; [done|]. by intros (? & ? & ? & _). Qed.

Lemma step_dir pr cap cur md n rest r :
  accepts pr cap r → recursive (rx_opts r) = true → placed cur r → good_name n → utf8_valid n = true → len n ≤ 4000 →
  time_ok (md_modified md) → time_ok (md_accessed md) →
  pending_times r = (if pr then Some (times_of md) else None) → mem_nodes (rx_fs r) (cur ++ [Normal n]) = None →
  s_in (rx_stream r) = line (HDir (mode_of md) n) ++ rest →
  wp recv_step r (λ more r', more = true ∧ moved rest 1 r r' ∧ rx_stack r' = (cur ++ [Normal n]) :: rx_stack r ∧
    changed_at (cur ++ [Normal n]) (NDir (mode_of md)) (rx_fs r) (rx_fs r') ∧ pending_times r' = None).
Proof.
  intros Ha Hrec Hpl Hn Hu Hl Hm Hac Hp Hnone Es. unfold recv_step. eapply wp_bind, wp_header; [by apply header_dir_ok|done|].
  set (r1 := r <| rx_stream := _ |>).
  assert (Ha1 : accepts pr cap r1) by (by destruct Ha). assert (Hpl1 : placed cur r1) by (by destruct Hpl).
  apply wp_bind, wp_gets. change (rx_opts r1) with (rx_opts r). rewrite Hrec. cbn [negb]. eapply wp_bind, wp_unfiltered; [done|].
  apply wp_bind. unfold recv_dir. apply wp_bind, wp_gets. rewrite (placed_target cur) by done.
  apply wp_bind, (wp_placed_guard cur); [done|]. apply wp_bind, wp_on_fs. rewrite mem_missing by done. cbn [fst snd].
  apply wp_bind, wp_create_dir; [apply Hpl|done|]. intros fs1 Hc1.
  apply wp_assoc, wp_bind. eapply wp_chmod_dir; [exact Hc1|]. intros fs2 Hc2. rewrite mode_masked in Hc2 by apply mode_of_range.
  apply wp_bind. eapply (wp_apply_times pr cap _ md); [by destruct Ha|done|by apply times_of_range|exact Hc2|].
  intros fs3 Hc3. apply wp_bind, wp_modify, wp_write_ok; [apply Ha|]. by apply wp_ret.
Qed.

(** ** A file *)

(** The open file ends where it is written next. *)
Definition open_at (p : path) (c : bytes) (m : Z) (t : option Z) (fs0 fs : MemFs) : Prop :=
  changed_at p (NFile c m t) fs0 fs ∧ mem_cursor fs = length c.

Lemma write_at_end p c m t fs0 fs b :
  open_at p c m t fs0 fs → ∃ fs', fs_write p b fs = (None, fs') ∧ open_at p (c ++ b) m t fs0 fs'.
Proof.
  intros [Hc Hk]. eexists. split; [done|]. unfold mem_update. rewrite (changed_here _ _ _ _ Hc), Hk.
  split; [|cbn; rewrite length_app, Hk; done]. rewrite firstn_all, drop_ge, app_nil_r by lia. cbn [mem_nodes].
  eapply changed_twice; [exact Hc|]. apply set_changed.
Qed.

(** The bytes of the payload, however they are cut into reads. *)
Lemma payload_received rounds p content c m t fs0 rest r :
  (length content ≤ rounds)%nat → s_in (rx_stream r) = content ++ rest → open_at p c m t fs0 (rx_fs r) →
  ∃ n fs', payload_loop rounds p (len content) r =
      (Done tt, r <| rx_stream := (rx_stream r) <| s_in := rest |> <| s_reads := n |> |> <| rx_fs := fs' |>) ∧
    open_at p (c ++ content) m t fs0 fs'.
Proof.
  revert content c r. induction rounds as [|rounds IH]; intros content c r Hr Es Ho.
  { destruct content; [|cbn in Hr; lia]. exists (s_reads (rx_stream r)), (rx_fs r). rewrite app_nil_r. split; [|done].
    cbn in *. unfold set_field. destruct r as [[]]. cbn in *. by subst. }
  cbn [payload_loop]. destruct content as [|b content'] eqn:E.
  { exists (s_reads (rx_stream r)), (rx_fs r). rewrite app_nil_r. split; [|done].
    cbn in *. unfold set_field. destruct r as [[]]. cbn in *. by subst. }
  rewrite <- E in *. rewrite (proj2 (Z.leb_gt _ _)) by (subst; autorewrite with lens; pose proof (len_nonneg content'); lia).
  destruct (s_in (rx_stream r)) as [|x input] eqn:Ei; [by rewrite E in Es|]. rewrite Es.
  set (k := Nat.max 1 _). assert (Hk : (1 ≤ k ≤ length content)%nat).
  { unfold k, BUF_LEN, len. rewrite E. cbn [length]. lia. }
  rewrite take_app_le, drop_app_le by lia.
  set (r1 := r <| rx_stream := _ |>).
  destruct (write_at_end p c m t fs0 (rx_fs r1) (take k content) Ho) as (fs1 & -> & Ho1).
  replace (len content - len (take k content)) with (len (drop k content)) by (unfold len; rewrite length_take, length_drop; lia).
  destruct (IH (drop k content) (c ++ take k content) (r1 <| rx_fs := fs1 |>)) as (n & fs' & -> & Ho').
  - rewrite length_drop. lia.
  - done.
  - done.
  - exists n, fs'. rewrite <- app_assoc, take_drop in Ho'. split; [|done]. by destruct r as [[]].
Qed.

Lemma wp_payload p content m t fs0 rest r (Q : unit → Receiver MemFs → Prop) :
  s_in (rx_stream r) = content ++ Byte.x00 :: rest → open_at p [] m t fs0 (rx_fs r) →
  (∀ n fs', open_at p content m t fs0 fs' →
     Q tt (r <| rx_stream := (rx_stream r) <| s_in := rest |> <| s_reads := n |> |> <| rx_fs := fs' |>)) →
  wp (read_payload_term (F := MemFs) p (len content)) r Q.
Proof.
  intros Es Ho HQ. apply wp_bind, wp_gets, wp_bind. cbn [id].
  destruct (payload_received (length (s_in (rx_stream r))) p content [] m t fs0 (Byte.x00 :: rest) r) as (n & fs' & E & Ho').
  - rewrite Es, length_app. lia.
  - done.
  - done.
  - eexists _, _. split; [exact E|]. eexists _, _. split; [done|]. apply (HQ n fs' Ho').
Qed.

Lemma mem_dir_exists p (fs : MemFs) : mem_is_dir p fs = true → fs_create_dir_all p fs = fs.
Proof. intros H. cbn. by rewrite H. Qed.

Lemma wp_open_new cur n r (Q : _ → Receiver MemFs → Prop) :
  mem_is_dir cur (rx_fs r) = true → mem_nodes (rx_fs r) (cur ++ [Normal n]) = None →
  (∀ fs', open_at (cur ++ [Normal n]) [] NEW_FILE_MODE None (rx_fs r) fs' → Q (inl (cur ++ [Normal n])) (r <| rx_fs := fs' |>)) →
  wp (_ ← match parent (cur ++ [Normal n]) with Some up => on_fs_ (fs_create_dir_all up) | None => mret tt end;
      on_fs (fs_open (cur ++ [Normal n]))) r Q.
Proof.
  intros Hd Hn HQ. rewrite parent_snoc. apply wp_bind, wp_on_fs_. rewrite mem_dir_exists by done.
  apply wp_on_fs. unfold fs_open, mem_fs, set_field. cbn [rx_fs]. rewrite Hn. unfold mem_parent_dir.
  rewrite parent_snoc, Hd. cbn [fst snd]. by apply HQ.
Qed.

Lemma wp_set_len p content m t fs0 r (Q : unit → Receiver MemFs → Prop) :
  changed_at p (NFile content m t) fs0 (rx_fs r) →
  (∀ fs', changed_at p (NFile content m t) fs0 fs' → Q tt (r <| rx_fs := fs' |>)) →
  wp (if fs_is_file (F := MemFs) p (rx_fs r) then on_fs_ (fs_set_len (F := MemFs) p (len content)) else mret tt) r Q.
Proof.
  intros Hc HQ. unfold fs_is_file, mem_fs at 1. rewrite (changed_here _ _ _ _ Hc). apply wp_on_fs_.
  unfold fs_set_len, mem_fs, mem_update. rewrite (changed_here _ _ _ _ Hc). apply HQ. unfold len. rewrite Nat2Z.id, Nat.sub_diag.
  rewrite app_nil_r, firstn_all. eapply changed_twice; [exact Hc|apply set_changed].
Qed.
Lemma wp_chmod p content m t mode fs0 r (Q : unit → Receiver MemFs → Prop) :
  changed_at p (NFile content m t) fs0 (rx_fs r) →
  (∀ fs', changed_at p (NFile content mode t) fs0 fs' → Q tt (r <| rx_fs := fs' |>)) →
  wp (on_fs_ (fs_set_permissions (F := MemFs) p mode)) r Q.
Proof.
  intros Hc HQ. apply wp_on_fs_. unfold fs_set_permissions, mem_fs. rewrite (changed_here _ _ _ _ Hc).
  apply HQ. eapply changed_twice; [exact Hc|apply set_changed].
Qed.

Lemma step_file pr cap cur md n content rest r :
  accepts pr cap r → placed cur r → good_name n → utf8_valid n = true → len n ≤ 4000 → is_u64 (len content) → size_ok cap (len content) →
  time_ok (md_modified md) → time_ok (md_accessed md) →
  pending_times r = (if pr then Some (times_of md) else None) → mem_nodes (rx_fs r) (cur ++ [Normal n]) = None →
  s_in (rx_stream r) = line (HFile (mode_of md) (len content) n) ++ content ++ Byte.x00 :: rest →
  wp recv_step r (λ more r', more = true ∧ moved rest 2 r r' ∧ rx_stack r' = rx_stack r ∧
    changed_at (cur ++ [Normal n]) (NFile content (mode_of md) (if pr then Some (times_of md).1 else None)) (rx_fs r) (rx_fs r') ∧
    pending_times r' = None).
Proof.
  intros Ha Hpl Hn Hu Hl H64 Hsz Hm Hac Hp Hnone Es. unfold recv_step. eapply wp_bind, wp_header; [by apply header_file_ok|done|].
  set (r1 := r <| rx_stream := _ |>).
  assert (Ha1 : accepts pr cap r1) by (by destruct Ha). assert (Hpl1 : placed cur r1) by (by destruct Hpl).
  eapply wp_bind, wp_unfiltered; [done|]. apply wp_bind. unfold recv_file.
  apply wp_bind. eapply wp_expected; [done|]. apply wp_bind. eapply wp_size; [done|done|].
  apply wp_bind, wp_gets. rewrite (placed_target cur) by done.
  apply wp_bind, (wp_placed_guard cur); [done|]. apply wp_bind, wp_on_fs. rewrite mem_missing by done. cbn [fst snd].
  apply wp_bind, wp_ret, wp_bind, wp_write_ok; [apply Ha|]. apply wp_assoc, wp_bind, wp_open_new; [apply Hpl|done|]. intros fs1 Ho1.
  apply wp_bind, wp_or_fatal. eapply wp_payload; [done|exact Ho1|]. intros reads fs2 [Hc2 _].
  change (rx_fs _) with (rx_fs r) in Hc2.
  apply wp_bind, wp_gets, wp_bind. eapply wp_set_len; [exact Hc2|]. intros fs3 Hc3.
  apply wp_bind. eapply wp_chmod; [exact Hc3|]. intros fs4 Hc4. rewrite mode_masked in Hc4 by apply mode_of_range.
  apply wp_bind. eapply (wp_apply_times pr cap _ md); [by destruct Ha|done|by apply times_of_range|exact Hc4|].
  intros fs5 Hc5. apply wp_bind, wp_write_ok; [apply Ha|]. apply wp_modify, wp_ret.
  split_and!; [done|split; try done|done|done|done]. symmetry. exact (app_assoc (s_out (rx_stream r)) [[Byte.x00]] [[Byte.x00]]).
Qed.

(** ** A tree *)

Definition recv_round (r r' : Receiver MemFs) : Prop := recv_step r = (Done true, r').

Lemma wp_round r (P : Receiver MemFs → Prop) : wp recv_step r (λ more r', more = true ∧ P r') → ∃ r', rtc recv_round r r' ∧ P r'.
Proof. intros (a & r' & E & -> & HP). exists r'. split; [by apply rtc_once|done]. Qed.

Definition names (p : list bytes) : path := Normal <$> p.

(** The tree is at [base], and nothing changed elsewhere. *)
Definition arrives (pr : bool) (base : path) (t : Tree) (fs fs' : MemFs) : Prop :=
  (∀ p, mem_nodes fs' (base ++ names p) = tree_at pr p t) ∧
  (∀ q, (∀ p, q ≠ base ++ names p) → mem_nodes fs' q = mem_nodes fs q).
Definition fresh (base : path) (fs : MemFs) : Prop := ∀ p, mem_nodes fs (base ++ names p) = None.

(** The receiver goes from [r] to [r'] and is where it was. *)
Definition returns (rest : bytes) (k : nat) (r r' : Receiver MemFs) : Prop :=
  rtc recv_round r r' ∧ moved rest k r r' ∧ rx_stack r' = rx_stack r.

Definition is_dir (t : Tree) : bool := match t with TDir _ _ => true | _ => false end.

Definition received (pr : bool) (cap : option Z) (n : bytes) (t : Tree) : Prop := ∀ r cur rest,
  accepts pr cap r → implb (is_dir t) (recursive (rx_opts r)) = true → placed cur r → pending_times r = None →
  fresh (cur ++ [Normal n]) (rx_fs r) → s_in (rx_stream r) = wire pr n t ++ rest →
  ∃ r', returns rest (acks pr t) r r' ∧ pending_times r' = None ∧ arrives pr (cur ++ [Normal n]) t (rx_fs r) (rx_fs r').

Lemma returns_refl r : returns (s_in (rx_stream r)) 0 r r.
Proof. split_and!; [done|split; try done; by rewrite app_nil_r|done]. Qed.
Lemma returns_trans i2 i3 k1 k2 r1 r2 r3 : returns i2 k1 r1 r2 → returns i3 k2 r2 r3 → returns i3 (k1 + k2) r1 r3.
Proof.
  intros (H1 & M1 & S1) (H2 & M2 & S2). split_and!; [by etrans|by eapply moved_trans|by rewrite S2].
Qed.
Lemma returns_placed cur rest k r r' :
  returns rest k r r' → mem_is_dir cur (rx_fs r') = true → placed cur r → placed cur r'.
Proof.
  intros (_ & [] & Es) Hd []. split; try done; [|by rewrite Es, mv_opts0|by rewrite mv_base0].
  unfold current_dir in *. by rewrite Es, mv_base0.
Qed.

Lemma times_received pr cap md rest r :
  accepts pr cap r → time_ok (md_modified md) → time_ok (md_accessed md) → pending_times r = None →
  s_in (rx_stream r) = wire_times pr md ++ rest →
  ∃ r', returns rest (acks_times pr) r r' ∧ rx_fs r' = rx_fs r ∧ pending_times r' = if pr then Some (times_of md) else None.
Proof.
  intros Ha Hm Hc Hp Es. destruct pr; [|exists r; split_and!; [|done|done]; cbn in Es; rewrite <- Es; apply returns_refl].
  destruct (wp_round _ _ (step_times true cap md rest r Ha Hm Hc Es)) as (r' & ? & ? & ? & ? & ?). by exists r'.
Qed.

Lemma base_names_cons (base : path) n p : base ++ names (n :: p) = (base ++ [Normal n]) ++ names p.
Proof. unfold names. rewrite fmap_cons, <- app_assoc. done. Qed.
#[local] Instance normal_inj : Inj eq eq Normal.
Proof. by intros ? ? [=]. Qed.
Lemma names_inj (base : path) p p' : base ++ names p = base ++ names p' → p = p'.
Proof. intros E%app_inv_head. apply (inj (fmap Normal)) in E. done. Qed.

Lemma file_arrives (pr : bool) base md content fs fs' :
  fresh base fs → changed_at base (NFile content (mode_of md) (if pr then Some (times_of md).1 else None)) fs fs' →
  arrives pr base (TFile md (inl content)) fs fs'.
Proof.
  intros Hf Hc. split.
  - intros p. rewrite Hc. destruct p as [|n p]; [by rewrite app_nil_r, decide_True|].
    rewrite decide_False; [apply Hf|]. intros E. rewrite <- (app_nil_r base) in E at 2. by apply (names_inj base _ []) in E.
  - intros q Hq. rewrite Hc, decide_False; [done|]. intros ->. apply (Hq []). by rewrite app_nil_r.
Qed.

Lemma received_file pr cap n md content : tree_ok cap n (TFile md (inl content)) → received pr cap n (TFile md (inl content)).
Proof.
  intros Ht r cur rest Ha _ Hpl Hp Hf Es. inversion Ht as [? ? ? Hn Hu Hl H64 Hsz Hm Hc Hlen| |]; subst. cbn [wire] in Es.
  rewrite <- !app_assoc in Es. destruct (times_received pr cap md _ r Ha Hm Hc Hp Es) as (r1 & H1 & Hfs & Hp1).
  assert (Hpl1 : placed cur r1) by (eapply returns_placed; [exact H1|rewrite Hfs; apply Hpl|done]).
  destruct H1 as (Hr1 & M1 & S1). rewrite <- Hfs in *.
  assert (Hnone : mem_nodes (rx_fs r1) (cur ++ [Normal n]) = None) by (specialize (Hf []); by rewrite app_nil_r in Hf).
  pose proof (mv_in _ _ _ _ M1) as Ei. rewrite Hl in Ei.
  destruct (wp_round _ _ (step_file pr cap cur md n content rest r1 (moved_accepts _ _ _ _ _ _ M1 Ha) Hpl1 Hn Hu Hlen H64 Hsz Hm Hc Hp1 Hnone Ei))
    as (r2 & Hr2 & M2 & S2 & C2 & P2).
  exists r2. split_and!; [|done|by apply file_arrives]. eapply (returns_trans _ _ (acks_times pr) 2); by split_and!.
Qed.

(** The entries of a directory arrive in it. *)
Definition entries_arrive (pr : bool) (d : path) (es : list (bytes * Tree)) (fs fs' : MemFs) : Prop :=
  (∀ n p, mem_nodes fs' (d ++ names (n :: p)) =
     match find_entry n es with Some t => tree_at pr p t | None => mem_nodes fs (d ++ names (n :: p)) end) ∧
  (∀ q, (∀ n p, q ≠ d ++ names (n :: p)) → mem_nodes fs' q = mem_nodes fs q).

Lemma find_entry_cons {A} n (e : bytes * A) es :
  find_entry n (e :: es) = if decide (e.1 = n) then Some e.2 else find_entry n es.
Proof.
  unfold find_entry. cbn [List.find]. destruct (decide (e.1 = n)) as [->|H]; [by rewrite bytes_eqb_refl|].
  by rewrite (proj2 (bytes_eqb_false _ _) H).
Qed.
Lemma find_entry_none {A} n (es : list (bytes * A)) : n ∉ es.*1 → find_entry n es = None.
Proof.
  induction es as [|e es IH]; [done|]. intros Hn. rewrite fmap_cons, not_elem_of_cons in Hn. destruct Hn as [Hn Hes].
  rewrite find_entry_cons, decide_False by congruence. by apply IH.
Qed.
Lemma find_entry_elem {A} n t (es : list (bytes * A)) : NoDup es.*1 → (n, t) ∈ es → find_entry n es = Some t.
Proof.
  induction es as [|e es IH]; [by intros _ ?%not_elem_of_nil|]. intros Hd. apply list.NoDup_cons in Hd as [Hn Hd]. rewrite elem_of_cons.
  rewrite find_entry_cons. intros [<-|Hin]; [by rewrite decide_True|].
  rewrite decide_False; [by apply IH|]. intros E. apply Hn. rewrite E. apply list_elem_of_fmap. by exists (n, t).
Qed.
Lemma find_entry_perm {A} n (es es' : list (bytes * A)) : NoDup es.*1 → es ≡ₚ es' → find_entry n es = find_entry n es'.
Proof.
  intros Hd Hp. assert (Hd' : NoDup es'.*1) by (by rewrite <- Hp).
  destruct (decide (n ∈ es.*1)) as [Hin|Hin].
  - pose proof Hin as ((m & t) & -> & Ht)%list_elem_of_fmap. cbn [fst].
    by rewrite (find_entry_elem m t es), (find_entry_elem m t es') by (first [done|by rewrite <- Hp]).
  - by rewrite !find_entry_none by (first [done|by rewrite <- Hp]).
Qed.

Lemma names_head_ne (d : path) n n' p p' : n ≠ n' → d ++ names (n :: p) ≠ (d ++ [Normal n']) ++ names p'.
Proof. intros H. rewrite <- base_names_cons. intros E%names_inj. congruence. Qed.

Lemma entries_arrive_cons pr d e es fs fs1 fs2 :
  e.1 ∉ es.*1 → arrives pr (d ++ [Normal e.1]) e.2 fs fs1 → entries_arrive pr d es fs1 fs2 → entries_arrive pr d (e :: es) fs fs2.
Proof.
  intros Hn [A1 A2] [B1 B2]. split.
  - intros n p. rewrite B1, find_entry_cons. destruct (decide (e.1 = n)) as [<-|Hne].
    + rewrite find_entry_none by done. rewrite base_names_cons. apply A1.
    + destruct (find_entry n es); [done|]. apply A2. intros p'. by apply names_head_ne.
  - intros q Hq. rewrite B2 by done. apply A2. intros p E. apply (Hq e.1 p). by rewrite base_names_cons.
Qed.

Lemma dir_untouched pr d n t fs fs' : arrives pr (d ++ [Normal n]) t fs fs' → mem_is_dir d fs' = mem_is_dir d fs.
Proof.
  intros [_ H]. unfold mem_is_dir. rewrite H; [done|]. intros p E. apply (f_equal length) in E. rewrite !length_app in E. cbn in E. lia.
Qed.

Lemma received_entries pr cap d es : Forall (λ e, received pr cap e.1 e.2) es → NoDup es.*1 → ∀ r rest,
  accepts pr cap r → recursive (rx_opts r) = true → placed d r → pending_times r = None → (∀ n, n ∈ es.*1 → fresh (d ++ [Normal n]) (rx_fs r)) →
  s_in (rx_stream r) = concat ((λ e, wire pr e.1 e.2) <$> es) ++ rest →
  ∃ r', returns rest (sum_list_with (λ e, acks pr e.2) es) r r' ∧ pending_times r' = None ∧
    entries_arrive pr d es (rx_fs r) (rx_fs r').
Proof.
  induction 1 as [|e es He _ IH]; intros Hd r rest Ha Hrec Hpl Hp Hf Es.
  { exists r. cbn in *. subst rest. split_and!; [apply returns_refl|done|done]. }
  rewrite fmap_cons in Hd. apply list.NoDup_cons in Hd as [Hn Hd].
  rewrite fmap_cons in Es. cbn [concat] in Es. rewrite <- app_assoc in Es.
  destruct (He r d _ Ha ltac:(rewrite Hrec; apply implb_true_r) Hpl Hp ltac:(apply Hf; rewrite fmap_cons; constructor) Es) as (r1 & R1 & P1 & A1).
  pose proof R1 as (_ & M1 & _).
  destruct (IH Hd r1 rest) as (r2 & R2 & P2 & A2).
  - by eapply moved_accepts.
  - by rewrite (mv_opts _ _ _ _ M1).
  - eapply returns_placed; [exact R1| |done]. rewrite (dir_untouched _ _ _ _ _ _ A1). apply Hpl.
  - done.
  - intros n Hin p. rewrite (proj2 A1); [apply Hf; rewrite fmap_cons; by constructor|].
    intros p'. rewrite <- base_names_cons. apply names_head_ne. intros ->. done.
  - apply (mv_in _ _ _ _ M1).
  - exists r2. split_and!; [by eapply returns_trans|done|by eapply entries_arrive_cons].
Qed.

Lemma dir_arrives pr base md es fs fs1 fs2 :
  NoDup es.*1 → fresh base fs → changed_at base (NDir (mode_of md)) fs fs1 → entries_arrive pr base (sorted_entries es) fs1 fs2 →
  arrives pr base (TDir md (inl es)) fs fs2.
Proof.
  intros Hd Hf Hc [A1 A2]. assert (Hbase : ∀ n p, base ++ names (n :: p) ≠ base).
  { intros n p E. rewrite <- (app_nil_r base) in E at 2. by apply (names_inj base _ []) in E. }
  split.
  - intros [|n p].
    + rewrite app_nil_r, A2 by (intros n p E; by apply (Hbase n p)). by apply changed_here in Hc.
    + rewrite A1. cbn [tree_at]. rewrite <- (find_entry_perm n es) by (first [done|by rewrite sorted_entries_perm]).
      destruct (find_entry n es); [done|]. rewrite Hc, decide_False by apply Hbase. apply Hf.
  - intros q Hq. rewrite A2, Hc, decide_False; [done| |].
    + intros ->. apply (Hq []). by rewrite app_nil_r.
    + intros n p. apply Hq.
Qed.

(** Inside the new directory: its entries, and the end of it. *)
Lemma dir_body_received pr cap d es up rest r :
  accepts pr cap r → recursive (rx_opts r) = true → placed d r → rx_stack r = d :: up → pending_times r = None →
  Forall (λ e, received pr cap e.1 e.2) es → NoDup es.*1 → (∀ n, fresh (d ++ [Normal n]) (rx_fs r)) →
  s_in (rx_stream r) = concat ((λ e, wire pr e.1 e.2) <$> sorted_entries es) ++ line HEndDir ++ rest →
  ∃ r', rtc recv_round r r' ∧ moved rest (sum_list_with (λ e, acks pr e.2) es + 1) r r' ∧ rx_stack r' = up ∧
    pending_times r' = None ∧ entries_arrive pr d (sorted_entries es) (rx_fs r) (rx_fs r').
Proof.
  intros Ha Hrec Hpl Hs Hp Hes Hd Hf Es.
  destruct (received_entries pr cap d (sorted_entries es)) with (r := r) (rest := line HEndDir ++ rest)
    as (r1 & (Hr1 & M1 & S1) & P1 & A1); auto.
  { by rewrite sorted_entries_perm. }
  { by rewrite sorted_entries_perm. }
  rewrite Hs in S1.
  destruct (wp_round _ _ (step_end pr cap d up rest r1 (moved_accepts _ _ _ _ _ _ M1 Ha) S1 (mv_in _ _ _ _ M1)))
    as (r2 & Hr2 & M2 & S2 & Hfs & P2).
  exists r2. rewrite Hfs. rewrite (sum_list_perm _ _ _ (sorted_entries_perm es)) in M1.
  split_and!; [by etrans|by eapply moved_trans|done|done|done].
Qed.

Lemma received_dir pr cap n md es :
  tree_ok cap n (TDir md (inl es)) → Forall (λ e, received pr cap e.1 e.2) es → received pr cap n (TDir md (inl es)).
Proof.
  intros Ht Hes r cur rest Ha Hrec Hpl Hp Hf Es. inversion Ht as [|? ? ? Hn Hu Hm Hc Hlen Hd _|]; subst. cbn [wire] in Es.
  rewrite (sorted_entries_fmap (λ e, wire pr e.1 e.2)), <- list_fmap_compose, <- !app_assoc in Es.
  destruct (times_received pr cap md _ r Ha Hm Hc Hp Es) as (r1 & H1 & Hfs & Hp1).
  assert (Hpl1 : placed cur r1) by (eapply returns_placed; [exact H1|rewrite Hfs; apply Hpl|done]).
  destruct H1 as (Hr1 & M1 & S1). rewrite <- Hfs in *. pose proof (moved_accepts _ _ _ _ _ _ M1 Ha) as Ha1.
  cbn in Hrec. rewrite <- (mv_opts _ _ _ _ M1) in Hrec.
  assert (Hnone : mem_nodes (rx_fs r1) (cur ++ [Normal n]) = None) by (specialize (Hf []); by rewrite app_nil_r in Hf).
  destruct (wp_round _ _ (step_dir pr cap cur md n _ r1 Ha1 Hrec Hpl1 Hn Hu Hlen Hm Hc Hp1 Hnone (mv_in _ _ _ _ M1)))
    as (r2 & Hr2 & M2 & S2 & C2 & P2).
  assert (Hpl2 : placed (cur ++ [Normal n]) r2).
  { destruct Hpl1 as [_ _ _ (s & Hs) Hcan]. split; [by unfold current_dir; rewrite S2|left; by rewrite S2| | |by apply canonical_snoc].
    - unfold mem_is_dir. by rewrite (changed_here _ _ _ _ C2).
    - exists (s ++ [Normal n]). by rewrite (mv_base _ _ _ _ M2), app_assoc, <- Hs. }
  destruct (dir_body_received pr cap (cur ++ [Normal n]) es (rx_stack r1) rest r2) as (r3 & Hr3 & M3 & S3 & P3 & A3); auto.
  - by eapply moved_accepts.
  - by rewrite (mv_opts _ _ _ _ M2).
  - intros m p. rewrite <- base_names_cons, C2, decide_False; [apply Hf|]. rewrite base_names_cons. intros E.
    apply (f_equal length) in E. rewrite !length_app in E. cbn in E. lia.
  - apply (mv_in _ _ _ _ M2).
  - exists r3. split_and!; [|done|by eapply dir_arrives]. cbn [acks].
    split_and!; [by etrans; [exact Hr1|]; etrans| |congruence].
    replace (acks_times pr + 2 + _)%nat with (acks_times pr + (1 + (sum_list_with (λ e, acks pr e.2) es + 1)))%nat by lia.
    eapply moved_trans; [exact M1|]. by eapply moved_trans.
Qed.

Lemma tree_received pr cap n t : tree_ok cap n t → received pr cap n t.
Proof.
  revert n t. apply (tree_ok_induction cap (received pr cap)).
  - apply received_file.
  - intros n md es Ht Hes. apply received_dir; [done|]. eapply list.Forall_impl; [exact Hes|]. by intros e [_ ?].
  - intros n r cur rest _ _ _ Hp Hf Es. exists r. cbn in Es. subst rest. split_and!; [apply returns_refl|done|].
    split; [|done]. intros [|m p]; apply Hf.
Qed.

(** ** Both sides *)

Lemma rounds_run r r' r'' fuel x :
  rtc recv_round r r' → recv_step r' = (Done false, r'') → recv_run fuel r = Some x → x = (Done tt, r'').
Proof.
  intros Hr Hs. revert fuel. induction Hr as [r|r r1 r2 E _ IH]; intros [|fuel]; cbn [recv_run]; try done.
  - rewrite Hs. by intros [= <-].
  - rewrite E. by apply IH.
Qed.

Lemma hung_up r : s_in (rx_stream r) = [] → s_end (rx_stream r) = REof → recv_step r = (Done false, r).
Proof.
  intros Ei Ee. unfold recv_step, mbind, scp_bind, or_fatal, on_stream, read_header. rewrite Ei, Ee. by destruct r.
Qed.

Lemma concat_singles k : concat (replicate k [Byte.x00]) = replicate k Byte.x00.
Proof. induction k as [|k IH]; [done|]. cbn. by rewrite IH. Qed.

(** A stream with [input] to come, cut into reads by [chunk]. *)
Definition idle_stream (chunk : nat → nat) (input : bytes) : Stream :=
  {| s_in := input; s_end := REof; s_chunk := chunk; s_reads := 0; s_out := []; s_write_fails _ := None |}.

(** What both sides were started for. *)
Definition agreed (opts : ScpSendOptions) (ropts : ScpRecvOptions) (t : Tree) : Prop :=
  preserve_times ropts = send_preserve_times opts ∧ target_is_file ropts = false ∧
  match t with
  | TFile _ _ => True
  | TDir _ _ => send_recursive opts = true ∧ recursive ropts = true
  | _ => False
  end.

