(* ===== verification/SftpPacket.v ===== *)
(** * SFTP packets (src/sftp/types.rs, src/sftp/packet.rs)

    Attributes, status codes and the messages of version 3 with their codec.
    Every error of the decoder is a [Format] error of the reader or of its own
    limits, so it is in [result]. *)
From S2P Require Import Prelude Wire WireLoop.

(** ** Types (types.rs) *)

Definition SFTP_VERSION : Z := 3.

Definition FXF_READ : Z := 1.
Definition FXF_WRITE : Z := 2.
Definition FXF_APPEND : Z := 4.
Definition FXF_CREAT : Z := 8.
Definition FXF_TRUNC : Z := 16.
Definition FXF_EXCL : Z := 32.

Definition ATTR_SIZE : Z := 1.
Definition ATTR_UIDGID : Z := 2.
Definition ATTR_PERMISSIONS : Z := 4.
Definition ATTR_ACMODTIME : Z := 8.
Definition ATTR_EXTENDED : Z := 2147483648.

Inductive FxpStatus :=
  | FxOk | FxEof | FxNoSuchFile | FxPermissionDenied | FxFailure | FxBadMessage | FxNoConnection | FxConnectionLost
  | FxOpUnsupported.
#[export] Instance FxpStatus_eq_dec : EqDecision FxpStatus.
Proof. solve_decision. Defined.

Definition status_code (s : FxpStatus) : Z :=
  match s with
  | FxOk => 0 | FxEof => 1 | FxNoSuchFile => 2 | FxPermissionDenied => 3 | FxFailure => 4 | FxBadMessage => 5
  | FxNoConnection => 6 | FxConnectionLost => 7 | FxOpUnsupported => 8
  end.
Definition status_from_code (code : Z) : FxpStatus :=
  if code =? 0 then FxOk else if code =? 1 then FxEof else if code =? 2 then FxNoSuchFile
  else if code =? 3 then FxPermissionDenied else if code =? 5 then FxBadMessage else if code =? 6 then FxNoConnection
  else if code =? 7 then FxConnectionLost else if code =? 8 then FxOpUnsupported else FxFailure.

Record Attrs := {
  a_size : option Z;
  a_uid_gid : option (Z * Z);
  a_permissions : option Z;
  a_atime_mtime : option (Z * Z);
  a_extended : list (bytes * bytes)
}.
#[export] Instance Attrs_eta : Etable Attrs := fun a => {|
  a_size := a_size a; a_uid_gid := a_uid_gid a; a_permissions := a_permissions a; a_atime_mtime := a_atime_mtime a;
  a_extended := a_extended a |}.
Definition attrs_default : Attrs :=
  {| a_size := None; a_uid_gid := None; a_permissions := None; a_atime_mtime := None; a_extended := [] |}.

(** [io::Error]: its kind, the number of the operating system and the text. *)
Inductive IoKind :=
  | KNotFound | KPermissionDenied | KAlreadyExists | KUnsupported | KUnexpectedEof | KBrokenPipe | KConnectionReset
  | KOtherKind.
Record IoError := { io_kind : IoKind; io_errno : option Z; io_text : bytes }.

Definition status_from_io (e : IoError) : FxpStatus :=
  match io_kind e with
  | KNotFound => FxNoSuchFile
  | KPermissionDenied => FxPermissionDenied
  | KAlreadyExists => FxFailure
  | KUnsupported => FxOpUnsupported
  | _ => FxFailure
  end.

Inductive SftpError :=
  | SIo (e : IoError)
  | SFormat (s : string)
  | SProtocol (s : string)
  | SStatus (code : FxpStatus) (message : bytes).

Inductive sftp_result (A : Type) := SOk (a : A) | SErr (e : SftpError).
Arguments SOk {A} a.
Arguments SErr {A} e.

(** [From<crate::Error>]; the readers' errors are [Format] errors. *)
Definition sftp_from_error (e : Error) : SftpError :=
  match e with
  | Format s => SFormat s
  | Io s => SIo {| io_kind := KOtherKind; io_errno := None; io_text := bs s |}
  | Protocol s => SProtocol s
  | _ => SProtocol "transport error"
  end.
Definition sftp_from_result {A} (r : result A) : sftp_result A :=
  match r with Ok a => SOk a | Err e => SErr (sftp_from_error e) end.

Record NameEntry := { filename : bytes; longname : bytes; ne_attrs : Attrs }.

(** ** Messages *)

Definition SSH_FXP_INIT : Z := 1.
Definition SSH_FXP_VERSION : Z := 2.
Definition SSH_FXP_OPEN : Z := 3.
Definition SSH_FXP_CLOSE : Z := 4.
Definition SSH_FXP_READ : Z := 5.
Definition SSH_FXP_WRITE : Z := 6.
Definition SSH_FXP_LSTAT : Z := 7.
Definition SSH_FXP_FSTAT : Z := 8.
Definition SSH_FXP_SETSTAT : Z := 9.
Definition SSH_FXP_FSETSTAT : Z := 10.
Definition SSH_FXP_OPENDIR : Z := 11.
Definition SSH_FXP_READDIR : Z := 12.
Definition SSH_FXP_REMOVE : Z := 13.
Definition SSH_FXP_MKDIR : Z := 14.
Definition SSH_FXP_RMDIR : Z := 15.
Definition SSH_FXP_REALPATH : Z := 16.
Definition SSH_FXP_STAT : Z := 17.
Definition SSH_FXP_RENAME : Z := 18.
Definition SSH_FXP_READLINK : Z := 19.
Definition SSH_FXP_SYMLINK : Z := 20.
Definition SSH_FXP_STATUS : Z := 101.
Definition SSH_FXP_HANDLE : Z := 102.
Definition SSH_FXP_DATA : Z := 103.
Definition SSH_FXP_NAME : Z := 104.
Definition SSH_FXP_ATTRS : Z := 105.
Definition SSH_FXP_EXTENDED : Z := 200.
Definition SSH_FXP_EXTENDED_REPLY : Z := 201.

Definition MAX_PACKET_SIZE : Z := 256 * 1024.

Definition Extensions : Type := list (bytes * bytes).

Inductive Packet :=
  | PInit (version : Z) (extensions : Extensions)
  | PVersion (version : Z) (extensions : Extensions)
  | POpen (id : Z) (path : bytes) (pflags : Z) (attrs : Attrs)
  | PClose (id : Z) (handle : bytes)
  | PRead (id : Z) (handle : bytes) (offset len : Z)
  | PWrite (id : Z) (handle : bytes) (offset : Z) (data : bytes)
  | PLstat (id : Z) (path : bytes)
  | PFstat (id : Z) (handle : bytes)
  | PSetstat (id : Z) (path : bytes) (attrs : Attrs)
  | PFsetstat (id : Z) (handle : bytes) (attrs : Attrs)
  | POpendir (id : Z) (path : bytes)
  | PReaddir (id : Z) (handle : bytes)
  | PRemove (id : Z) (path : bytes)
  | PMkdir (id : Z) (path : bytes) (attrs : Attrs)
  | PRmdir (id : Z) (path : bytes)
  | PRealpath (id : Z) (path : bytes)
  | PStat (id : Z) (path : bytes)
  | PRename (id : Z) (oldpath newpath : bytes)
  | PReadlink (id : Z) (path : bytes)
  | PSymlink (id : Z) (target_path link_path : bytes)
  | PExtended (id : Z) (request data : bytes)
  | PStatus (id : Z) (code : FxpStatus) (message lang : bytes)
  | PHandle (id : Z) (handle : bytes)
  | PData (id : Z) (data : bytes)
  | PName (id : Z) (entries : list NameEntry)
  | PAttrs (id : Z) (attrs : Attrs)
  | PExtendedReply (id : Z) (data : bytes).

Definition packet_id (p : Packet) : option Z :=
  match p with
  | PInit _ _ | PVersion _ _ => None
  | POpen id _ _ _ | PClose id _ | PRead id _ _ _ | PWrite id _ _ _ | PLstat id _ | PFstat id _ | PSetstat id _ _
  | PFsetstat id _ _ | POpendir id _ | PReaddir id _ | PRemove id _ | PMkdir id _ _ | PRmdir id _ | PRealpath id _
  | PStat id _ | PRename id _ _ | PReadlink id _ | PSymlink id _ _ | PExtended id _ _ | PStatus id _ _ _ | PHandle id _
  | PData id _ | PName id _ | PAttrs id _ | PExtendedReply id _ => Some id
  end.

(** ** Attributes on the wire *)

Definition flag (b : bool) (v : Z) : Z := if b then v else 0.
Definition attrs_flags (a : Attrs) : Z :=
  Z.lor (Z.lor (Z.lor (Z.lor (flag (is_some (a_size a)) ATTR_SIZE) (flag (is_some (a_uid_gid a)) ATTR_UIDGID))
    (flag (is_some (a_permissions a)) ATTR_PERMISSIONS)) (flag (is_some (a_atime_mtime a)) ATTR_ACMODTIME))
    (flag (negb (is_nil (a_extended a))) ATTR_EXTENDED).

Definition write_pair (kv : bytes * bytes) (w : Writer) : Writer := w |>> write_string kv.1 |>> write_string kv.2.

Definition encode_attrs (a : Attrs) (w : Writer) : Writer :=
  let w := w |>> write_u32 (attrs_flags a) in
  let w := match a_size a with Some sz => w |>> write_u64 sz | None => w end in
  let w := match a_uid_gid a with Some (uid, gid) => w |>> write_u32 uid |>> write_u32 gid | None => w end in
  let w := match a_permissions a with Some p => w |>> write_u32 p | None => w end in
  let w := match a_atime_mtime a with Some (at_, mt) => w |>> write_u32 at_ |>> write_u32 mt | None => w end in
  if is_nil (a_extended a) then w
  else w |>> write_u32 (wrap32 (len (a_extended a))) |>> write_each write_pair (a_extended a).

Definition read_pair (r : Reader) : result ((bytes * bytes) * Reader) :=
  let? (k, r) := read_string r in
  let? (v, r) := read_string r in
  Ok ((k, v), r).

Definition read_u32_pair (r : Reader) : result ((Z * Z) * Reader) :=
  let? (a, r) := read_u32 r in
  let? (b, r) := read_u32 r in
  Ok ((a, b), r).

Definition has_flag (flags bit : Z) : bool := negb (Z.land flags bit =? 0).

Definition decode_attrs (r : Reader) : result (Attrs * Reader) :=
  let? (flags, r) := read_u32 r in
  let? (size, r) := read_if (has_flag flags ATTR_SIZE) read_u64 r in
  let? (uid_gid, r) := read_if (has_flag flags ATTR_UIDGID) read_u32_pair r in
  let? (permissions, r) := read_if (has_flag flags ATTR_PERMISSIONS) read_u32 r in
  let? (atime_mtime, r) := read_if (has_flag flags ATTR_ACMODTIME) read_u32_pair r in
  let? (extended, r) :=
    (if has_flag flags ATTR_EXTENDED then
       let? (n, r) := read_u32 r in
       if 1024 <? n then Err (Format "sftp: too many extended attrs") else read_n read_pair (Z.to_nat n) r
     else Ok ([], r)) in
  Ok ({| a_size := size; a_uid_gid := uid_gid; a_permissions := permissions; a_atime_mtime := atime_mtime;
         a_extended := extended |}, r).

(** ** Extensions of INIT and VERSION *)

Definition encode_extensions (exts : Extensions) (w : Writer) : Writer := write_each write_pair exts w.

Definition extension_step (r : Reader) (out : Extensions) : result (Reader * Extensions) :=
  let? (kv, r) := read_pair r in
  let out := out ++ [kv] in
  if 1024 <? len out then Err (Format "sftp: too many extensions") else Ok (r, out).
Definition decode_extensions (r : Reader) : result Extensions := while_nonempty extension_step r [].

(** ** Packets on the wire *)

Definition write_name_entry (e : NameEntry) (w : Writer) : Writer :=
  w |>> write_string (filename e) |>> write_string (longname e) |>> encode_attrs (ne_attrs e).

(** A type, an id and a string: what many packets start with, or are. *)
Definition write_head (typ id : Z) (s : bytes) (w : Writer) : Writer :=
  w |>> write_u8 typ |>> write_u32 id |>> write_string s.

Definition encode_body (p : Packet) (w : Writer) : Writer :=
  match p with
  | PInit version extensions => w |>> write_u8 SSH_FXP_INIT |>> write_u32 version |>> encode_extensions extensions
  | PVersion version extensions => w |>> write_u8 SSH_FXP_VERSION |>> write_u32 version |>> encode_extensions extensions
  | POpen id path pflags attrs => w |>> write_head SSH_FXP_OPEN id path |>> write_u32 pflags |>> encode_attrs attrs
  | PClose id handle => w |>> write_head SSH_FXP_CLOSE id handle
  | PRead id handle offset len => w |>> write_head SSH_FXP_READ id handle |>> write_u64 offset |>> write_u32 len
  | PWrite id handle offset data => w |>> write_head SSH_FXP_WRITE id handle |>> write_u64 offset |>> write_string data
  | PLstat id path => w |>> write_head SSH_FXP_LSTAT id path
  | PFstat id handle => w |>> write_head SSH_FXP_FSTAT id handle
  | PSetstat id path attrs => w |>> write_head SSH_FXP_SETSTAT id path |>> encode_attrs attrs
  | PFsetstat id handle attrs => w |>> write_head SSH_FXP_FSETSTAT id handle |>> encode_attrs attrs
  | POpendir id path => w |>> write_head SSH_FXP_OPENDIR id path
  | PReaddir id handle => w |>> write_head SSH_FXP_READDIR id handle
  | PRemove id path => w |>> write_head SSH_FXP_REMOVE id path
  | PMkdir id path attrs => w |>> write_head SSH_FXP_MKDIR id path |>> encode_attrs attrs
  | PRmdir id path => w |>> write_head SSH_FXP_RMDIR id path
  | PRealpath id path => w |>> write_head SSH_FXP_REALPATH id path
  | PStat id path => w |>> write_head SSH_FXP_STAT id path
  | PRename id oldpath newpath => w |>> write_head SSH_FXP_RENAME id oldpath |>> write_string newpath
  | PReadlink id path => w |>> write_head SSH_FXP_READLINK id path
  | PSymlink id target_path link_path => w |>> write_head SSH_FXP_SYMLINK id target_path |>> write_string link_path
  | PExtended id request data => w |>> write_head SSH_FXP_EXTENDED id request |>> write_raw data
  | PStatus id code message lang =>
      w |>> write_u8 SSH_FXP_STATUS |>> write_u32 id |>> write_u32 (status_code code) |>> write_string message
        |>> write_string lang
  | PHandle id handle => w |>> write_head SSH_FXP_HANDLE id handle
  | PData id data => w |>> write_head SSH_FXP_DATA id data
  | PName id entries =>
      w |>> write_u8 SSH_FXP_NAME |>> write_u32 id |>> write_u32 (wrap32 (len entries))
        |>> write_each write_name_entry entries
  | PAttrs id attrs => w |>> write_u8 SSH_FXP_ATTRS |>> write_u32 id |>> encode_attrs attrs
  | PExtendedReply id data => w |>> write_u8 SSH_FXP_EXTENDED_REPLY |>> write_u32 id |>> write_raw data
  end.

Definition packet_encode (p : Packet) : bytes :=
  let body := encode_body p writer_new in
  into_vec (writer_new |>> write_u32 (wrap32 (len (w_buf body))) |>> write_raw (w_buf body)).

(** [body[body.len() - r.remaining()..].to_vec()] *)
Definition read_rest (r : Reader) : bytes := slice (r_buf r) (r_pos r) (len (r_buf r)).

Definition read_head (r : Reader) : result (Z * bytes * Reader) :=
  let? (id, r) := read_u32 r in
  let? (s, r) := read_string r in
  Ok (id, s, r).

Definition read_name_entry (r : Reader) : result (NameEntry * Reader) :=
  let? (filename, r) := read_string r in
  let? (longname, r) := read_string r in
  let? (attrs, r) := decode_attrs r in
  Ok ({| filename := filename; longname := longname; ne_attrs := attrs |}, r).

(** A string that may be missing at the end. *)
Definition read_trailing (r : Reader) : result (bytes * Reader) :=
  if reader_is_empty r then Ok ([], r) else read_string r.

(** The packets with an id, a string and no more. *)
Definition decode_simple (mk : Z → bytes → Packet) (r : Reader) : result Packet :=
  let? (id, s, r) := read_head r in Ok (mk id s).
(** ... and attributes after it. *)
Definition decode_with_attrs (mk : Z → bytes → Attrs → Packet) (r : Reader) : result Packet :=
  let? (id, s, r) := read_head r in
  let? (attrs, r) := decode_attrs r in
  Ok (mk id s attrs).
(** ... or a second string. *)
Definition decode_two (mk : Z → bytes → bytes → Packet) (r : Reader) : result Packet :=
  let? (id, s, r) := read_head r in
  let? (t, r) := read_string r in
  Ok (mk id s t).

Definition packet_decode (body : bytes) : result Packet :=
  let? (typ, r) := read_u8 (reader_new body) in
  if typ =? SSH_FXP_INIT then
    let? (version, r) := read_u32 r in let? extensions := decode_extensions r in Ok (PInit version extensions)
  else if typ =? SSH_FXP_VERSION then
    let? (version, r) := read_u32 r in let? extensions := decode_extensions r in Ok (PVersion version extensions)
  else if typ =? SSH_FXP_OPEN then
    let? (id, path, r) := read_head r in
    let? (pflags, r) := read_u32 r in
    let? (attrs, r) := decode_attrs r in
    Ok (POpen id path pflags attrs)
  else if typ =? SSH_FXP_CLOSE then decode_simple PClose r
  else if typ =? SSH_FXP_READ then
    let? (id, handle, r) := read_head r in
    let? (offset, r) := read_u64 r in
    let? (len, r) := read_u32 r in
    Ok (PRead id handle offset len)
  else if typ =? SSH_FXP_WRITE then
    let? (id, handle, r) := read_head r in
    let? (offset, r) := read_u64 r in
    let? (data, r) := read_string r in
    Ok (PWrite id handle offset data)
  else if typ =? SSH_FXP_LSTAT then decode_simple PLstat r
  else if typ =? SSH_FXP_FSTAT then decode_simple PFstat r
  else if typ =? SSH_FXP_SETSTAT then decode_with_attrs PSetstat r
  else if typ =? SSH_FXP_FSETSTAT then decode_with_attrs PFsetstat r
  else if typ =? SSH_FXP_OPENDIR then decode_simple POpendir r
  else if typ =? SSH_FXP_READDIR then decode_simple PReaddir r
  else if typ =? SSH_FXP_REMOVE then decode_simple PRemove r
  else if typ =? SSH_FXP_MKDIR then decode_with_attrs PMkdir r
  else if typ =? SSH_FXP_RMDIR then decode_simple PRmdir r
  else if typ =? SSH_FXP_REALPATH then decode_simple PRealpath r
  else if typ =? SSH_FXP_STAT then decode_simple PStat r
  else if typ =? SSH_FXP_RENAME then decode_two PRename r
  else if typ =? SSH_FXP_READLINK then decode_simple PReadlink r
  else if typ =? SSH_FXP_SYMLINK then decode_two PSymlink r
  else if typ =? SSH_FXP_EXTENDED then
    let? (id, request, r) := read_head r in Ok (PExtended id request (read_rest r))
  else if typ =? SSH_FXP_STATUS then
    let? (id, r) := read_u32 r in
    let? (code, r) := read_u32 r in
    let? (message, r) := read_trailing r in
    let? (lang, r) := read_trailing r in
    Ok (PStatus id (status_from_code code) message lang)
  else if typ =? SSH_FXP_HANDLE then decode_simple PHandle r
  else if typ =? SSH_FXP_DATA then decode_simple PData r
  else if typ =? SSH_FXP_NAME then
    let? (id, r) := read_u32 r in
    let? (count, r) := read_u32 r in
    if 2 ^ 20 <? count then Err (Format "sftp: NAME count too large") else
    let? (entries, r) := read_n read_name_entry (Z.to_nat count) r in
    Ok (PName id entries)
  else if typ =? SSH_FXP_ATTRS then
    let? (id, r) := read_u32 r in
    let? (attrs, r) := decode_attrs r in
    Ok (PAttrs id attrs)
  else if typ =? SSH_FXP_EXTENDED_REPLY then
    let? (id, r) := read_u32 r in Ok (PExtendedReply id (read_rest r))
  else Err (Format "sftp: unknown packet type").

(** ** Streams *)

(** What will arrive, and the error the stream ends with, if it is not a plain
    end. *)
Record Input := { i_bytes : bytes; i_end : option IoError }.
Definition input_of (b : bytes) : Input := {| i_bytes := b; i_end := None |}.

Definition UNEXPECTED_EOF : IoError :=
  {| io_kind := KUnexpectedEof; io_errno := None; io_text := bs "failed to fill whole buffer" |}.

(** [r.read_exact(&mut buf)] *)
Definition read_exact (n : Z) (i : Input) : sftp_result bytes * Input :=
  if len (i_bytes i) <? n
  then (SErr (SIo (default UNEXPECTED_EOF (i_end i))), {| i_bytes := []; i_end := i_end i |})
  else (SOk (take (Z.to_nat n) (i_bytes i)), {| i_bytes := drop (Z.to_nat n) (i_bytes i); i_end := i_end i |}).

Definition read_packet (i : Input) : sftp_result bytes * Input :=
  match read_exact 4 i with
  | (SErr e, i) => (SErr e, i)
  | (SOk len_buf, i) =>
      let n := be_value len_buf in
      if (n =? 0) || (MAX_PACKET_SIZE <? n) then (SErr (SFormat "sftp: invalid packet length"), i)
      else read_exact n i
  end.
