(* ===== verification/SftpPacketFacts.v ===== *)
(** * SFTP packets: the codec is a codec *)
From S2P Require Import Prelude Wire WireLoop SftpPacket.

(** ** What Rust's types and the limits of the decoder ask of a packet *)

Definition str_ok (s : bytes) : Prop := is_u32 (len s).
Definition pair_ok (kv : bytes * bytes) : Prop := str_ok kv.1 ∧ str_ok kv.2.
Definition if_some {A} (o : option A) (P : A → Prop) : Prop := match o with Some a => P a | None => True end.

Definition attrs_ok (a : Attrs) : Prop :=
  if_some (a_size a) is_u64 ∧ if_some (a_uid_gid a) (λ p, is_u32 p.1 ∧ is_u32 p.2) ∧ if_some (a_permissions a) is_u32 ∧
  if_some (a_atime_mtime a) (λ p, is_u32 p.1 ∧ is_u32 p.2) ∧ Forall pair_ok (a_extended a) ∧ len (a_extended a) ≤ 1024.
Definition entry_ok (e : NameEntry) : Prop := str_ok (filename e) ∧ str_ok (longname e) ∧ attrs_ok (ne_attrs e).

Definition packet_ok (p : Packet) : Prop :=
  match p with
  | PInit v exts | PVersion v exts => is_u32 v ∧ Forall pair_ok exts ∧ len exts ≤ 1024
  | POpen id path pflags attrs => is_u32 id ∧ str_ok path ∧ is_u32 pflags ∧ attrs_ok attrs
  | PClose id s | PLstat id s | PFstat id s | POpendir id s | PReaddir id s | PRemove id s | PRmdir id s | PRealpath id s
  | PStat id s | PReadlink id s | PHandle id s | PData id s => is_u32 id ∧ str_ok s
  | PRead id handle offset len => is_u32 id ∧ str_ok handle ∧ is_u64 offset ∧ is_u32 len
  | PWrite id handle offset data => is_u32 id ∧ str_ok handle ∧ is_u64 offset ∧ str_ok data
  | PSetstat id s attrs | PFsetstat id s attrs | PMkdir id s attrs => is_u32 id ∧ str_ok s ∧ attrs_ok attrs
  | PRename id s t | PSymlink id s t => is_u32 id ∧ str_ok s ∧ str_ok t
  | PExtended id request data => is_u32 id ∧ str_ok request
  | PStatus id code message lang => is_u32 id ∧ str_ok message ∧ str_ok lang
  | PName id entries => is_u32 id ∧ Forall entry_ok entries ∧ len entries ≤ 2 ^ 20
  | PAttrs id attrs => is_u32 id ∧ attrs_ok attrs
  | PExtendedReply id data => is_u32 id
  end.

(** ** Pairs and attributes *)

Definition pair_enc (kv : bytes * bytes) : bytes := str_enc kv.1 ++ str_enc kv.2.

Lemma len_pair_enc kv : len (pair_enc kv) = 8 + len kv.1 + len kv.2.
Proof. unfold pair_enc. autorewrite with lens. lia. Qed.

Lemma write_pair_buf kv w : w_buf (write_pair kv w) = w_buf w ++ pair_enc kv.
Proof. unfold write_pair, pair_enc. by rewrite !write_string_buf, app_assoc. Qed.

Lemma read_pair_at kv pre post :
  pair_ok kv → fits_mem (pre ++ pair_enc kv ++ post) →
  read_pair (reader_at pre (pair_enc kv ++ post)) = Ok (kv, reader_at (pre ++ pair_enc kv) post).
Proof.
  intros [Hk Hv] Hm. unfold read_pair, pair_enc in *. rewrite <- app_assoc in *.
  rewrite read_string_enc by done. rewrite read_string_enc by (first [done|solve_mem]).
  rewrite <- app_assoc. by destruct kv.
Qed.

Definition opt_enc {A} (enc : A → bytes) (o : option A) : bytes := match o with Some a => enc a | None => [] end.
Definition u32_pair_enc (p : Z * Z) : bytes := be_bytes 4 p.1 ++ be_bytes 4 p.2.
Definition extended_enc (l : list (bytes * bytes)) : bytes :=
  if is_nil l then [] else be_bytes 4 (wrap32 (len l)) ++ concat (pair_enc <$> l).
Definition attrs_enc (a : Attrs) : bytes :=
  be_bytes 4 (attrs_flags a) ++ opt_enc (be_bytes 8) (a_size a) ++ opt_enc u32_pair_enc (a_uid_gid a) ++
  opt_enc (be_bytes 4) (a_permissions a) ++ opt_enc u32_pair_enc (a_atime_mtime a) ++ extended_enc (a_extended a).

Lemma encode_attrs_buf a w : w_buf (encode_attrs a w) = w_buf w ++ attrs_enc a.
Proof.
  unfold encode_attrs, attrs_enc, extended_enc.
  destruct (is_nil (a_extended a)); rewrite ?(write_each_buf write_pair pair_enc) by apply write_pair_buf;
    destruct (a_size a), (a_uid_gid a) as [[]|], (a_permissions a), (a_atime_mtime a) as [[]|];
    unfold write_u32, write_u64, opt_enc, u32_pair_enc; cbn [w_buf fst snd app]; rewrite ?app_nil_r, <- ?app_assoc; done.
Qed.

Lemma read_if_at {A} (f : Reader → result (A * Reader)) enc o pre post :
  (∀ a, o = Some a → fits_mem (pre ++ enc a ++ post) → f (reader_at pre (enc a ++ post)) = Ok (a, reader_at (pre ++ enc a) post)) →
  fits_mem (pre ++ opt_enc enc o ++ post) →
  read_if (is_some o) f (reader_at pre (opt_enc enc o ++ post)) = Ok (o, reader_at (pre ++ opt_enc enc o) post).
Proof. intros Hf Hm. destruct o as [a|]; cbn in *; [by rewrite Hf|by rewrite app_nil_r]. Qed.

Lemma read_u32_pair_at p pre post :
  is_u32 p.1 ∧ is_u32 p.2 → fits_mem (pre ++ u32_pair_enc p ++ post) →
  read_u32_pair (reader_at pre (u32_pair_enc p ++ post)) = Ok (p, reader_at (pre ++ u32_pair_enc p) post).
Proof.
  intros [H1 H2] Hm. unfold read_u32_pair, u32_pair_enc in *. rewrite <- app_assoc in *.
  rewrite read_u32_at by done. rewrite read_u32_at by (first [done|solve_mem]). rewrite <- app_assoc. by destruct p.
Qed.

(** The flags say which fields are there. *)
Lemma attrs_flags_spec a :
  is_u32 (attrs_flags a) ∧ has_flag (attrs_flags a) ATTR_SIZE = is_some (a_size a) ∧
  has_flag (attrs_flags a) ATTR_UIDGID = is_some (a_uid_gid a) ∧
  has_flag (attrs_flags a) ATTR_PERMISSIONS = is_some (a_permissions a) ∧
  has_flag (attrs_flags a) ATTR_ACMODTIME = is_some (a_atime_mtime a) ∧
  has_flag (attrs_flags a) ATTR_EXTENDED = negb (is_nil (a_extended a)).
Proof.
  unfold attrs_flags. destruct (is_some (a_size a)), (is_some (a_uid_gid a)), (is_some (a_permissions a)),
    (is_some (a_atime_mtime a)), (is_nil (a_extended a)); vm_compute; intuition congruence.
Qed.

Lemma decode_attrs_at a pre post :
  attrs_ok a → fits_mem (pre ++ attrs_enc a ++ post) →
  decode_attrs (reader_at pre (attrs_enc a ++ post)) = Ok (a, reader_at (pre ++ attrs_enc a) post).
Proof.
  intros (Hs & Hu & Hp & Ht & He & Hn) Hm. destruct (attrs_flags_spec a) as (H32 & F1 & F2 & F3 & F4 & F5).
  unfold decode_attrs, attrs_enc in *. rewrite <- !app_assoc in *. rewrite read_u32_at by done.
  rewrite F1, F2, F3, F4, F5.
  rewrite read_if_at; [|intros v E; rewrite E in Hs; intros; by apply read_u64_at|solve_mem].
  rewrite read_if_at; [|intros v E; rewrite E in Hu; intros; by apply read_u32_pair_at|solve_mem].
  rewrite read_if_at; [|intros v E; rewrite E in Hp; intros; by apply read_u32_at|solve_mem].
  rewrite read_if_at; [|intros v E; rewrite E in Ht; intros; by apply read_u32_pair_at|solve_mem].
  unfold extended_enc in *. destruct (is_nil (a_extended a)) eqn:En; cbn [negb].
  { destruct a as [? ? ? ? ext]. cbn in *. destruct ext; [|done]. by rewrite ?app_nil_r, <- !app_assoc. }
  pose proof (len_nonneg (a_extended a)). rewrite wrap32_small in * by width_lia. rewrite <- !app_assoc in *.
  rewrite read_u32_at; [|solve_mem|width_lia]. rewrite (proj2 (Z.ltb_ge _ _)) by done.
  unfold len at 1. rewrite Nat2Z.id. rewrite (read_n_at read_pair pair_enc pair_ok); [|by intros; apply read_pair_at|done|solve_mem].
  rewrite <- !app_assoc. by destruct a.
Qed.

(** ** Extensions *)

Lemma extension_step_progress : progress extension_step.
Proof.
  intros r out r' out'. unfold extension_step, read_pair.
  destruct (read_string r) as [[k r1]|] eqn:E1; [|done]. destruct (read_string r1) as [[v r2]|] eqn:E2; [|done].
  destruct (1024 <? _); [done|]. intros [= <- _]. apply read_string_advances in E1 as [? ?], E2 as [? ?]. split; [congruence|lia].
Qed.

Lemma extensions_at exts pre acc :
  Forall pair_ok exts → len acc + len exts ≤ 1024 → fits_mem (pre ++ concat (pair_enc <$> exts)) →
  while_nonempty extension_step (reader_at pre (concat (pair_enc <$> exts))) acc = Ok (acc ++ exts).
Proof.
  intros He. revert pre acc. induction He as [|kv exts Hkv _ IH]; intros pre acc Hn Hm;
    rewrite while_unfold by apply extension_step_progress; unfold reader_is_empty; rewrite remaining_at;
    cbn [fmap list_fmap concat] in *; [by rewrite app_nil_r|].
  autorewrite with lens in *. rewrite len_pair_enc.
  pose proof (len_nonneg kv.1). pose proof (len_nonneg kv.2). pose proof (len_nonneg (concat (pair_enc <$> exts))).
  pose proof (len_nonneg exts). rewrite (proj2 (Z.eqb_neq _ _)) by lia. unfold extension_step at 1.
  rewrite read_pair_at by done. rewrite (proj2 (Z.ltb_ge _ _)) by (autorewrite with lens; cbn; lia).
  rewrite IH; [by rewrite <- app_assoc|autorewrite with lens; cbn; lia|by rewrite <- app_assoc].
Qed.

(** ** Packets *)

Definition head_enc (id : Z) (s : bytes) : bytes := be_bytes 4 id ++ str_enc s.

Lemma write_head_buf typ id s w : w_buf (write_head typ id s w) = w_buf w ++ byte_of_Z typ :: head_enc id s.
Proof. unfold write_head, head_enc. rewrite write_string_buf. unfold write_u32, write_u8. cbn [w_buf]. by rewrite <- !app_assoc. Qed.

Lemma read_id_head_at id s pre post :
  is_u32 id → str_ok s → fits_mem (pre ++ head_enc id s ++ post) →
  read_head (reader_at pre (head_enc id s ++ post)) = Ok (id, s, reader_at (pre ++ head_enc id s) post).
Proof.
  intros Hi Hs Hm. unfold read_head, head_enc in *. rewrite <- app_assoc in *. rewrite read_u32_at by done.
  rewrite read_string_enc by (first [done|solve_mem]). by rewrite <- app_assoc.
Qed.

Lemma rest_at pre post : read_rest (reader_at pre post) = post.
Proof.
  unfold read_rest, reader_at. cbn [r_buf r_pos]. pose proof (slice_at pre post []) as H. rewrite app_nil_r in H.
  by rewrite len_app.
Qed.

Definition entry_enc (e : NameEntry) : bytes := str_enc (filename e) ++ str_enc (longname e) ++ attrs_enc (ne_attrs e).

Lemma write_entry_buf e w : w_buf (write_name_entry e w) = w_buf w ++ entry_enc e.
Proof. unfold write_name_entry, entry_enc. by rewrite encode_attrs_buf, !write_string_buf, <- !app_assoc. Qed.

Lemma read_entry_at e pre post :
  entry_ok e → fits_mem (pre ++ entry_enc e ++ post) →
  read_name_entry (reader_at pre (entry_enc e ++ post)) = Ok (e, reader_at (pre ++ entry_enc e) post).
Proof.
  intros (Hf & Hl & Ha) Hm. unfold read_name_entry, entry_enc in *. rewrite <- !app_assoc in *.
  rewrite read_string_enc by done. rewrite read_string_enc by (first [done|solve_mem]).
  rewrite decode_attrs_at by (first [done|solve_mem]). rewrite <- !app_assoc. by destruct e.
Qed.

Lemma status_code_roundtrip s : status_from_code (status_code s) = s ∧ is_u32 (status_code s).
Proof. destruct s; vm_compute; intuition congruence. Qed.

Lemma write_entries_buf l w : w_buf (write_each write_name_entry l w) = w_buf w ++ concat (entry_enc <$> l).
Proof. apply write_each_buf, write_entry_buf. Qed.
Lemma encode_extensions_buf l w : w_buf (encode_extensions l w) = w_buf w ++ concat (pair_enc <$> l).
Proof. apply write_each_buf, write_pair_buf. Qed.

Create Rewrite HintDb bufs.
#[local] Hint Rewrite write_u8_buf write_u32_buf write_u64_buf write_raw_buf write_string_buf write_head_buf encode_attrs_buf
  write_entries_buf encode_extensions_buf : bufs.

(** The body of a packet, by its encoding. *)
Definition body_enc (p : Packet) : bytes := w_buf (encode_body p writer_new).

(** The type byte is read, and the branch of the decoder taken. *)
Ltac take_type :=
  rewrite reader_new_end; app_norm; rewrite read_u8_at by (first [solve_mem|by vm_compute]); cbn beta iota;
  repeat match goal with |- context [?a =? ?b] => let v := eval vm_compute in (a =? b) in change (a =? b) with v; cbn match end.

Ltac field_side := lazymatch goal with |- fits_mem _ => solve_mem | |- _ => assumption end.
Ltac read_packet_fields :=
  repeat (first
    [ rewrite read_id_head_at by field_side
    | rewrite decode_attrs_at by field_side
    | rewrite read_u32_at by field_side
    | rewrite read_u64_at by field_side
    | rewrite read_string_enc by field_side
    | rewrite rest_at ]; cbn beta iota).

Ltac unpack_ok := repeat match goal with H : _ ∧ _ |- _ => destruct H end.

Lemma trailing_at s pre post :
  str_ok s → fits_mem (pre ++ str_enc s ++ post) →
  read_trailing (reader_at pre (str_enc s ++ post)) = Ok (s, reader_at (pre ++ str_enc s) post).
Proof.
  intros Hs Hm. unfold read_trailing, reader_is_empty. rewrite remaining_at. autorewrite with lens.
  pose proof (len_nonneg s). pose proof (len_nonneg post). rewrite (proj2 (Z.eqb_neq _ _)) by lia. by apply read_string_enc.
Qed.

Lemma packet_body_roundtrip p : packet_ok p → fits_mem (body_enc p) → packet_decode (body_enc p) = Ok p.
Proof.
  unfold packet_decode, body_enc. intros Hp Hm.
  destruct p; cbn [packet_ok encode_body] in *; unpack_ok; revert Hm; autorewrite with bufs; cbn [w_buf writer_new app];
    app_norm; intros Hm; take_type; unfold decode_simple, decode_with_attrs, decode_two.
  all: try (by read_packet_fields).
  - rewrite read_u32_at by field_side. rewrite app_nil_r. unfold decode_extensions. by rewrite extensions_at by (first [done|solve_mem]).
  - rewrite read_u32_at by field_side. rewrite app_nil_r. unfold decode_extensions. by rewrite extensions_at by (first [done|solve_mem]).
  - read_packet_fields. by rewrite app_nil_r.
  - destruct (status_code_roundtrip code) as [Ec Hc]. read_packet_fields.
    rewrite trailing_at by field_side. rewrite trailing_at by field_side. by rewrite Ec.
  - pose proof (len_nonneg entries). rewrite wrap32_small in * by width_lia. read_packet_fields.
    rewrite read_u32_at; [|solve_mem|width_lia]. rewrite (proj2 (Z.ltb_ge _ _)) by done. unfold len at 1. rewrite Nat2Z.id.
    by rewrite (read_n_at read_name_entry entry_enc entry_ok); [|by intros; apply read_entry_at|done|solve_mem].
  - read_packet_fields. by rewrite app_nil_r.
Qed.

(** ** Frames *)

Lemma read_exact_app n b rest : n = len b → read_exact n (input_of (b ++ rest)) = (SOk b, input_of rest).
Proof.
  intros ->. unfold read_exact. cbn [i_bytes i_end input_of]. pose proof (len_nonneg rest).
  rewrite (proj2 (Z.ltb_ge _ _)) by (autorewrite with lens; lia). unfold len. rewrite Nat2Z.id.
  by rewrite take_app_length, drop_app_length.
Qed.

Lemma read_packet_frame p rest :
  0 < len (body_enc p) ≤ MAX_PACKET_SIZE → read_packet (input_of (packet_encode p ++ rest)) = (SOk (body_enc p), input_of rest).
Proof.
  intros Hl. unfold packet_encode, into_vec. rewrite write_raw_buf, write_u32_buf. cbn [w_buf writer_new app].
  fold (body_enc p). rewrite <- app_assoc. unfold read_packet. rewrite read_exact_app by (autorewrite with lens; done).
  unfold MAX_PACKET_SIZE in *. rewrite wrap32_small by width_lia.
  rewrite be_value_be_bytes_small by (change (256 ^ Z.of_nat 4) with 4294967296; lia).
  rewrite (proj2 (Z.eqb_neq _ _)), (proj2 (Z.ltb_ge _ _)) by lia. cbn [orb]. by apply read_exact_app.
Qed.

(** A packet whose frame can be read back. *)
Definition frame_ok (p : Packet) : Prop := packet_ok p ∧ 0 < len (body_enc p) ≤ MAX_PACKET_SIZE.

Lemma read_frame p rest :
  frame_ok p → read_packet (input_of (packet_encode p ++ rest)) = (SOk (body_enc p), input_of rest) ∧ packet_decode (body_enc p) = Ok p.
Proof.
  intros [Hp Hl]. split; [by apply read_packet_frame|].
  apply packet_body_roundtrip; [done|unfold fits_mem, MAX_PACKET_SIZE in *; lia].
Qed.

Lemma encode_length p : (0 < length (packet_encode p))%nat.
Proof. unfold packet_encode, into_vec. rewrite write_raw_buf, write_u32_buf, !length_app, length_be_bytes. lia. Qed.

Lemma frames_length (reqs : list Packet) : (length reqs ≤ length (concat (packet_encode <$> reqs)))%nat.
Proof.
  induction reqs as [|p reqs IH]; [done|]. cbn [fmap list_fmap concat length]. rewrite length_app. pose proof (encode_length p). lia.
Qed.

(** The next packets of a stream. *)
Fixpoint read_packets (n : nat) (i : Input) : sftp_result (list Packet) * Input :=
  match n with
  | O => (SOk [], i)
  | Datatypes.S n =>
      match read_packet i with
      | (SErr e, i) => (SErr e, i)
      | (SOk body, i) =>
          match sftp_from_result (packet_decode body) with
          | SErr e => (SErr e, i)
          | SOk p => match read_packets n i with (SOk ps, i) => (SOk (p :: ps), i) | (SErr e, i) => (SErr e, i) end
          end
      end
  end.

(** What one side writes as SFTP packets the other side reads.  The frames
    of packets whose fields have the widths of their types and which respect
    the decoder's limits, one after the other on a stream, are read back as
    those packets, in order, whatever follows on the stream. *)
Theorem sftp_roundtrip ps rest :
  Forall frame_ok ps →
  read_packets (length ps) (input_of (concat (packet_encode <$> ps) ++ rest)) = (SOk ps, input_of rest).
Proof.
  induction 1 as [|p ps Hp _ IH]; [done|]. cbn [length read_packets fmap list_fmap concat]. rewrite <- app_assoc.
  destruct (read_frame p (concat (packet_encode <$> ps) ++ rest) Hp) as [-> ->]. cbn [sftp_from_result]. by rewrite IH.
Qed.
