(* ===== verification/SftpPath.v ===== *)
(** * Path resolution of the SFTP server (src/sftp/path.rs)

    A request's path is made absolute and cleaned of [.] and [..] without
    looking at the file system; with a jail, the result must lie in it. *)
From S2P Require Import Prelude Wire Text TextFacts SftpPacket.

Fixpoint clean_loop (cs : path) (out : Abs) : Abs :=
  match cs with
  | [] => out
  | ParentDir :: cs => clean_loop cs (removelast out)
  | Normal c :: cs => clean_loop cs (out ++ [c])
  | (RootDir | CurDir) :: cs => clean_loop cs out
  end.
Definition lexically_clean (p : bytes) : Abs := clean_loop (components p) [].

(** The two paths are absolute, so their first components agree. *)
Fixpoint is_inside (child parent : Abs) : bool :=
  match child, parent with
  | ca :: child, pa :: parent => if bytes_eqb ca pa then is_inside child parent else false
  | _, [] => true
  | _, _ => false
  end.

Definition resolve (cwd raw : bytes) (root : option bytes) : sftp_result Abs :=
  if utf8_valid raw then
    let joined := if is_absolute raw then raw else path_join cwd raw in
    let clean := lexically_clean joined in
    match root with
    | Some jail =>
        if is_inside clean (lexically_clean jail) then SOk clean
        else SErr (SStatus FxPermissionDenied (bs "path escapes jail root"))
    | None => SOk clean
    end
  else SErr (SStatus FxBadMessage []).

(** ** Names *)

(** What a component of a path can be called. *)
Definition path_name (n : bytes) : Prop := n ≠ [] ∧ n ≠ DOT ∧ n ≠ DOTDOT ∧ SLASH ∉ n.

Lemma segment_name s : path_name s → segment s = Some (Normal s).
Proof.
  intros (H1 & H2 & H3 & _). unfold segment. destruct s; [done|]. cbn [is_nil orb].
  by rewrite (proj2 (bytes_eqb_false _ _) H2), (proj2 (bytes_eqb_false _ _) H3).
Qed.

Lemma segment_inv s n : SLASH ∉ s → segment s = Some (Normal n) → path_name n.
Proof.
  unfold segment. intros Hs. destruct (is_nil s) eqn:E1; [done|]. destruct (bytes_eqb_spec s DOT) as [|H2]; [done|].
  destruct (bytes_eqb_spec s DOTDOT) as [|H3]; [done|]. intros [= <-]. split_and!; try done. by intros ->.
Qed.

Lemma components_names p n : Normal n ∈ components p → path_name n.
Proof.
  pose proof (split_on_parts SLASH p) as Hs. rewrite list.Forall_forall in Hs.
  assert (Ho : ∀ l : list bytes, (∀ s, s ∈ l → SLASH ∉ s) → Normal n ∈ omap segment l → path_name n).
  { intros l Hl (s & Hin & E)%list_elem_of_omap. by eapply segment_inv; [apply Hl|]. }
  unfold components. destruct (is_absolute p).
  - rewrite elem_of_cons. intros [[=]|H]. by apply (Ho _ Hs).
  - destruct (split_on SLASH p) as [|first rest]; [by intros ?%not_elem_of_nil|].
    rewrite elem_of_app. intros [H|H]; [|apply (Ho rest); [intros; apply Hs; by constructor|done]].
    destruct (bytes_eqb first DOT); [by apply list_elem_of_singleton in H|].
    destruct (segment first) as [c|] eqn:E; [|by apply not_elem_of_nil in H].
    apply list_elem_of_singleton in H as <-. eapply segment_inv; [apply Hs; by constructor|done].
Qed.

Lemma removelast_sub {A} (l : list A) x : x ∈ removelast l → x ∈ l.
Proof.
  induction l as [|y l IH]; [done|]. cbn [removelast]. destruct l as [|z l]; [by intros ?%not_elem_of_nil|].
  rewrite !elem_of_cons in *. intros [->|H]; [by left|]. right. by apply IH.
Qed.

Lemma clean_loop_names cs out :
  (∀ n, Normal n ∈ cs → path_name n) → Forall path_name out → Forall path_name (clean_loop cs out).
Proof.
  revert out. induction cs as [|c cs IH]; intros out Hc Ho; [done|].
  assert (Hcs : ∀ n, Normal n ∈ cs → path_name n) by (intros n Hn; apply Hc; by constructor).
  destruct c; cbn [clean_loop]; apply IH; try done.
  - apply list.Forall_forall. intros x Hx%removelast_sub. by apply (proj1 (list.Forall_forall _ _) Ho).
  - apply Forall_app. split; [done|]. apply list.Forall_singleton, Hc. by constructor.
Qed.

Lemma clean_names p : Forall path_name (lexically_clean p).
Proof. apply clean_loop_names; [apply components_names|done]. Qed.

(** ** Cleaning a clean path *)

Lemma components_abs p : Forall path_name p → components (abs_bytes p) = RootDir :: (Normal <$> p).
Proof.
  intros Hp. unfold components, abs_bytes. cbn [is_absolute first_is]. change (is_absolute (SLASH :: _)) with true. cbn match. f_equal.
  change (SLASH :: join [SLASH] p) with ([] ++ SLASH :: join [SLASH] p). rewrite split_on_app by apply not_elem_of_nil.
  cbn [omap list_omap segment is_nil orb]. destruct (decide (p = [])) as [->|Hne]; [done|].
  rewrite split_on_join; [|done|eapply list.Forall_impl; [exact Hp|]; by intros x (_ & _ & _ & ?)]. clear Hne.
  induction Hp as [|s l Hs _ IH]; [done|]. cbn [omap list_omap fmap list_fmap]. rewrite segment_name by done. f_equal. exact IH.
Qed.

Lemma clean_loop_normal p out : clean_loop (Normal <$> p) out = out ++ p.
Proof. revert out. induction p as [|n p IH]; intros out; cbn; [by rewrite app_nil_r|]. by rewrite IH, <- app_assoc. Qed.

Lemma clean_abs p : Forall path_name p → lexically_clean (abs_bytes p) = p.
Proof. intros Hp. unfold lexically_clean. rewrite components_abs by done. cbn [clean_loop]. by rewrite clean_loop_normal. Qed.

(** ** The jail *)

Lemma is_inside_spec child up : is_inside child up = true ↔ up `prefix_of` child.
Proof.
  revert up. induction child as [|c child IH]; intros [|p up]; cbn [is_inside]; try done.
  - split; [done|]. intros ?%prefix_nil_not. done.
  - split; [intros _; apply prefix_nil|done].
  - destruct (bytes_eqb_spec c p) as [->|H].
    + rewrite IH. split; [apply prefix_cons|apply prefix_cons_inv_2].
    + split; [done|]. intros ?%prefix_cons_inv_1. congruence.
Qed.

Lemma resolve_inside cwd raw jail p :
  resolve cwd raw (Some jail) = SOk p → lexically_clean jail `prefix_of` p.
Proof.
  unfold resolve. destruct (utf8_valid raw); [|done]. destruct (is_inside _ _) eqn:E; [|done].
  intros [= <-]. by apply is_inside_spec.
Qed.

Lemma resolve_names cwd raw root p : resolve cwd raw root = SOk p → Forall path_name p.
Proof.
  unfold resolve. destruct (utf8_valid raw); [|done]. destruct root as [jail|]; [destruct (is_inside _ _); [|done]|];
    intros [= <-]; apply clean_names.
Qed.
