(* ===== verification/SftpServer.v ===== *)
(** * The SFTP server session (src/sftp/server.rs, src/sftp/extensions.rs)

    The calls of the operating system are the constructors of [Call], each with
    the type of its answer, and a class that executes them; the session is in a
    state-and-error monad over it.  Paths are absolute and clean ([Abs]), as
    [resolve] makes them. *)
From S2P Require Import Prelude Wire WireLoop Text TextFacts SftpPacket SftpPath.

(** ** The operating system *)

Inductive FileType := FtSymlink | FtDir | FtFile | FtOther.
Record Metadata := {
  m_type : FileType; m_len : Z; m_uid : Z; m_gid : Z; m_mode : Z; m_atime : Z; m_mtime : Z; m_dev : Z; m_ino : Z
}.

(** The flags and mode of open(2). *)
Record OpenFlags := {
  f_read : bool; f_write : bool; f_append : bool; f_creat : bool; f_trunc : bool; f_excl : bool; f_nofollow : bool; f_mode : Z
}.

Definition Errno : Type := Z.
Definition io (A : Type) : Type := A + IoError.
Definition sys (A : Type) : Type := A + Errno.

(** [StatvfsReply], which [from_nix] makes of what the system answers. *)
Record Statvfs := {
  bsize : Z; frsize : Z; blocks : Z; bfree : Z; bavail : Z; files : Z; ffree : Z; favail : Z; fsid : Z;
  rdonly : bool; nosuid : bool; namemax : Z
}.

Section Call.
Context (File ReadDir DirEntry : Type).

Inductive Call : Type → Type :=
  | COpen (p : Abs) (o : OpenFlags) : Call (io File)
  | CSeek (f : File) (offset : Z) : Call (io unit)
  | CRead (f : File) (n : Z) : Call (io bytes)
  | CWriteAll (f : File) (data : bytes) : Call (io unit)
  | CFileMetadata (f : File) : Call (io Metadata)
  | CSetLen (f : File) (n : Z) : Call (io unit)
  | CFileSetPermissions (f : File) (mode : Z) : Call (io unit)
  | CSyncAll (f : File) : Call (io unit)
  | CTryClone (f : File) : Call (io File)
  | CMetadata (p : Abs) : Call (io Metadata)
  | CSymlinkMetadata (p : Abs) : Call (io Metadata)
  | CExists (p : Abs) : Call bool
  | CReadDir (p : Abs) : Call (io ReadDir)
  | CNext (it : ReadDir) : Call (option (io DirEntry))
  | CEntryMetadata (de : DirEntry) : Call (io Metadata)
  | CRemoveFile (p : Abs) : Call (io unit)
  | CCreateDir (p : Abs) : Call (io unit)
  | CRemoveDir (p : Abs) : Call (io unit)
  | CRename (from to : Abs) : Call (io unit)
  | CReadLink (p : Abs) : Call (io bytes)
  | CSymlink (target : bytes) (link : Abs) : Call (io unit)
  | CHardLink (src dst : Abs) : Call (io unit)
  | CSetPermissions (p : Abs) (mode : Z) : Call (io unit)
  | CFchmodat (p : Abs) (mode : Z) : Call (sys unit)
  | CFchownat (p : Abs) (uid gid : Z) (follow : bool) : Call (sys unit)
  | CUtimensat (p : Abs) (atime mtime : Z) (follow : bool) : Call (sys unit)
  | CStatvfs (p : Abs) : Call (sys Statvfs)
  | CFstatvfs (f : File) : Call (sys Statvfs)
  | CUserName (uid : Z) : Call (option bytes)
  | CGroupName (gid : Z) : Call (option bytes)
  | CHome (user : bytes) : Call (option bytes).
End Call.

Class SftpOs (W : Type) := {
  File : Type;
  ReadDir : Type;
  DirEntry : Type;
  de_name : DirEntry → bytes;
  os_error : Errno → IoError;                   (* io::Error::from_raw_os_error *)
  exec : ∀ A, Call File ReadDir DirEntry A → W → A * W
}.
Arguments exec {W _} {A} c w.

Definition EPERM : Errno := 1.
Definition ENOENT : Errno := 2.
Definition EACCES : Errno := 13.
Definition EINVAL : Errno := 22.
Definition ELOOP : Errno := 40.
Definition EOPNOTSUPP : Errno := 95.

(** ** Options and session *)

Definition DEFAULT_MAX_SET_LEN : Z := 1024 * 1024 * 1024.
Definition DEFAULT_MAX_HANDLES : Z := 256.

Record SftpServerOptions := {
  cwd : bytes; root : option bytes; read_only : bool; max_set_len : Z; allow_special_bits : bool;
  hide_jail_in_realpath : bool; max_handles : Z
}.
#[export] Instance SftpServerOptions_eta : Etable SftpServerOptions := fun o => {|
  cwd := cwd o; root := root o; read_only := read_only o; max_set_len := max_set_len o;
  allow_special_bits := allow_special_bits o; hide_jail_in_realpath := hide_jail_in_realpath o; max_handles := max_handles o |}.

Definition options_new (dir : bytes) : SftpServerOptions := {|
  cwd := dir; root := None; read_only := false; max_set_len := DEFAULT_MAX_SET_LEN; allow_special_bits := false;
  hide_jail_in_realpath := true; max_handles := DEFAULT_MAX_HANDLES |}.
Definition with_root (dir : bytes) (o : SftpServerOptions) : SftpServerOptions := o <| root := Some dir |>.
Definition as_read_only (o : SftpServerOptions) : SftpServerOptions := o <| read_only := true |>.
Definition with_max_set_len (max : Z) (o : SftpServerOptions) : SftpServerOptions := o <| max_set_len := max |>.
Definition with_special_bits (allow : bool) (o : SftpServerOptions) : SftpServerOptions := o <| allow_special_bits := allow |>.
Definition with_hidden_jail (hide : bool) (o : SftpServerOptions) : SftpServerOptions := o <| hide_jail_in_realpath := hide |>.
Definition with_max_handles (max : Z) (o : SftpServerOptions) : SftpServerOptions := o <| max_handles := max |>.

Section Server.
Context {W : Type} `{!SftpOs W}.

Inductive FileHandle :=
  | HFile (file : File) (path : Abs) (append : bool)
  | HDir (iter : ReadDir) (path : Abs) (eof_sent : bool).

Record SftpServerSession := { opts : SftpServerOptions; handles : gmap Z FileHandle; next : Z }.

Definition session_new (o : SftpServerOptions) : SftpServerSession := {| opts := o; handles := ∅; next := 1 |}.

(** ** The monad *)

Definition SftpM (A : Type) : Type := SftpServerSession * W → sftp_result A * (SftpServerSession * W).
#[global] Instance sftp_ret : MRet SftpM := λ A a s, (SOk a, s).
#[global] Instance sftp_bind : MBind SftpM := λ A B f m s,
  match m s with (SOk a, s) => f a s | (SErr e, s) => (SErr e, s) end.
Definition throw {A} (e : SftpError) : SftpM A := λ s, (SErr e, s).
Definition of_result {A} (r : sftp_result A) : SftpM A := λ s, (r, s).
Definition call {A} (c : Call File ReadDir DirEntry A) : SftpM A := λ s, let (a, w) := exec c s.2 in (SOk a, (s.1, w)).
Definition get : SftpM SftpServerSession := λ s, (SOk s.1, s).
Definition put (se : SftpServerSession) : SftpM unit := λ s, (SOk tt, (se, s.2)).
(** [let _ = m] *)
Definition attempt {A} (m : SftpM A) : SftpM unit := λ s, (SOk tt, (m s).2).

(** [f()?] of a call. *)
Definition io_ok {A} (r : io A) : SftpM A := match r with inl a => mret a | inr e => throw (SIo e) end.
Definition call_ok {A} (c : Call File ReadDir DirEntry (io A)) : SftpM A := r ← call c; io_ok r.

Definition status_err {A} (code : FxpStatus) (msg : string) : SftpM A := throw (SStatus code (bs msg)).

Definition status_ok (id : Z) : Packet := PStatus id FxOk (bs "ok") [].
Definition status_pkt (id : Z) (code : FxpStatus) (msg : string) : Packet := PStatus id code (bs msg) [].
Definition status_from_err (id : Z) (e : SftpError) : Packet :=
  match e with
  | SStatus code message => PStatus id code message []
  | SIo io_err => PStatus id (status_from_io io_err) (io_text io_err) []
  | SFormat s => status_pkt id FxBadMessage s
  | SProtocol s => status_pkt id FxBadMessage s
  end.

(** ** Opening files (std::fs::OpenOptions) *)

Record OpenOptions := {
  o_read : bool; o_write : bool; o_append : bool; o_truncate : bool; o_create : bool; o_create_new : bool;
  o_nofollow : bool; o_mode : Z
}.

(** The flags of open(2), or [EINVAL] for a combination it has none for. *)
Definition open_flags (o : OpenOptions) : option OpenFlags :=
  if negb (o_read o || o_write o || o_append o) then None
  else if negb (o_append o) && negb (o_write o) && (o_truncate o || o_create o || o_create_new o) then None
  else if o_append o && o_truncate o && negb (o_create_new o) then None
  else Some {|
    f_read := o_read o;
    f_write := o_write o || o_append o;
    f_append := o_append o;
    f_creat := o_create o || o_create_new o;
    f_trunc := o_truncate o && negb (o_create_new o);
    f_excl := o_create_new o;
    f_nofollow := o_nofollow o;
    f_mode := o_mode o |}.

Definition std_open (p : Abs) (o : OpenOptions) : SftpM (io File) :=
  match open_flags o with
  | None => mret (inr (os_error EINVAL))
  | Some flags => call (COpen _ _ _ p flags)
  end.

(** ** Helpers *)

Definition alloc_handle_loop := fix loop (fuel : nat) (hs : gmap Z FileHandle) (nx : Z) : option (Z * Z) :=
  match fuel with
  | O => None
  | Datatypes.S fuel =>
      let nx' := Z.max (wrap64 (nx + 1)) 1 in
      match hs !! nx with None => Some (nx, nx') | Some _ => loop fuel hs nx' end
  end.

(** Among as many ids as there are handles and one more there is a free one
    ([alloc_finds]). *)
Definition alloc_handle (h : FileHandle) : SftpM bytes :=
  se ← get;
  if max_handles (opts se) <=? Z.of_nat (size (handles se)) then status_err FxFailure "too many open handles" else
  match alloc_handle_loop (Datatypes.S (size (handles se))) (handles se) (next se) with
  | None => status_err FxFailure "too many open handles"
  | Some (id, nx) =>
      _ ← put {| opts := opts se; handles := <[id := h]> (handles se); next := nx |};
      mret (rev (be_bytes 8 id))
  end.

Definition parse_handle (raw : bytes) : SftpM Z :=
  if len raw =? 8 then mret (be_value (rev raw)) else status_err FxFailure "invalid handle".

Definition get_handle (h : Z) : SftpM FileHandle :=
  se ← get;
  match handles se !! h with Some x => mret x | None => status_err FxFailure "invalid handle" end.

Definition sess_resolve (raw : bytes) : SftpM Abs := se ← get; of_result (resolve (cwd (opts se)) raw (root (opts se))).

Definition require_writable : SftpM unit :=
  se ← get; if read_only (opts se) then status_err FxPermissionDenied "read-only server" else mret tt.

Definition is_symlink (md : Metadata) : bool := match m_type md with FtSymlink => true | _ => false end.
Definition is_jailed (se : SftpServerSession) : bool := is_some (root (opts se)).

Definition reject_symlink_when_jailed (p : Abs) : SftpM unit :=
  se ← get;
  if is_jailed se then
    md ← call_ok (CSymlinkMetadata _ _ _ p);
    if is_symlink md then status_err FxNoSuchFile "symlink rejected" else mret tt
  else mret tt.

Definition mask_mode (mode : Z) (special : bool) : Z := if special then Z.land mode 4095 else Z.land mode 511.

Definition map_open_err (e : IoError) : SftpError :=
  match io_errno e with
  | Some n => if (n =? 40) || (n =? 62) then SStatus FxNoSuchFile (bs "symlink rejected") else SIo e
  | None => SIo e
  end.

Definition U32_CLAMP (z : Z) : Z := Z.max 0 (Z.min z U32_MAX).
Definition attrs_from_metadata (md : Metadata) : Attrs := {|
  a_size := Some (m_len md); a_uid_gid := Some (m_uid md, m_gid md); a_permissions := Some (m_mode md);
  a_atime_mtime := Some (U32_CLAMP (m_atime md), U32_CLAMP (m_mtime md)); a_extended := [] |}.

(** ** Setting attributes *)

Definition EMPTY_OPTIONS : OpenOptions := {|
  o_read := false; o_write := false; o_append := false; o_truncate := false; o_create := false; o_create_new := false;
  o_nofollow := false; o_mode := 438 |}.
Definition write_options (nofollow : bool) : OpenOptions := {|
  o_read := false; o_write := true; o_append := false; o_truncate := false; o_create := false; o_create_new := false;
  o_nofollow := nofollow; o_mode := 438 |}.
Definition read_options (nofollow : bool) : OpenOptions := {|
  o_read := true; o_write := false; o_append := false; o_truncate := false; o_create := false; o_create_new := false;
  o_nofollow := nofollow; o_mode := 438 |}.

Definition errno_to_sftp (e : Errno) : SftpError :=
  if (e =? EPERM) || (e =? EACCES) then SStatus FxPermissionDenied (bs "permission denied")
  else if e =? ELOOP then SStatus FxNoSuchFile (bs "symlink rejected")
  else SIo (os_error e).
Definition sys_ok {A} (err : Errno → SftpError) (r : sys A) : SftpM A :=
  match r with inl a => mret a | inr e => throw (err e) end.

Definition apply_size (p : Abs) (size : Z) (jailed : bool) (max : Z) : SftpM unit :=
  if max <? size then status_err FxPermissionDenied "set_len above configured maximum" else
  f ← std_open p (write_options jailed);
  match f with
  | inl f => call_ok (CSetLen _ _ _ f size)
  | inr e => throw (map_open_err e)
  end.

Definition apply_mode (p : Abs) (mode : Z) (jailed special : bool) : SftpM unit :=
  let masked := mask_mode mode special in
  if jailed then
    f ← std_open p (read_options true);
    match f with
    | inl f => call_ok (CFileSetPermissions _ _ _ f masked)
    | inr e =>
        if bool_decide (io_errno e = Some 40 ∨ io_errno e = Some 62) then throw (map_open_err e) else
        r ← call (CFchmodat _ _ _ p masked);
        sys_ok (λ e, if (e =? ELOOP) || (e =? EOPNOTSUPP) then SStatus FxNoSuchFile (bs "symlink rejected")
                     else SIo (os_error e)) r
    end
  else call_ok (CSetPermissions _ _ _ p masked).

(** [if let Some(x) = o { f(x)? }] *)
Definition for_some {A} (o : option A) (f : A → SftpM unit) : SftpM unit := match o with Some a => f a | None => mret tt end.

Definition apply_attrs (p : Abs) (a : Attrs) (jailed : bool) (max : Z) (special : bool) : SftpM unit :=
  _ ← for_some (a_size a) (λ size, apply_size p size jailed max);
  _ ← for_some (a_permissions a) (λ mode, apply_mode p mode jailed special);
  _ ← for_some (a_uid_gid a) (λ ids,
        r ← call (CFchownat _ _ _ p ids.1 ids.2 (negb jailed)); sys_ok errno_to_sftp r);
  for_some (a_atime_mtime a) (λ times,
        r ← call (CUtimensat _ _ _ p times.1 times.2 (negb jailed)); sys_ok errno_to_sftp r).

Definition apply_session_attrs (p : Abs) (a : Attrs) : SftpM unit :=
  se ← get; apply_attrs p a (is_jailed se) (max_set_len (opts se)) (allow_special_bits (opts se)).

(** ** Files *)

Definition op_open (id : Z) (path : bytes) (pflags : Z) (attrs : Attrs) : SftpM Packet :=
  p ← sess_resolve path;
  let want_write := has_flag pflags (Z.lor FXF_WRITE FXF_APPEND) in
  _ ← (if want_write then require_writable else mret tt);
  se ← get;
  let opt := {|
    o_read := has_flag pflags FXF_READ; o_write := want_write; o_append := has_flag pflags FXF_APPEND;
    o_truncate := has_flag pflags FXF_TRUNC; o_create := negb (has_flag pflags FXF_EXCL) && has_flag pflags FXF_CREAT;
    o_create_new := has_flag pflags FXF_EXCL; o_nofollow := is_jailed se;
    o_mode := match a_permissions attrs with Some perm => mask_mode perm (allow_special_bits (opts se)) | None => 438 end |} in
  f ← std_open p opt;
  match f with
  | inr e => throw (map_open_err e)
  | inl file =>
      handle ← alloc_handle (HFile file p (has_flag pflags FXF_APPEND));
      mret (PHandle id handle)
  end.

Definition op_close (id : Z) (handle : bytes) : SftpM Packet :=
  h ← parse_handle handle;
  se ← get;
  match handles se !! h with
  | None => mret (status_pkt id FxFailure "invalid handle")
  | Some _ => _ ← put {| opts := opts se; handles := delete h (handles se); next := next se |}; mret (status_ok id)
  end.

(** [file.read(&mut buf)] with room for [n] bytes. *)
Definition read_upto (f : File) (n : Z) : SftpM bytes :=
  data ← call_ok (CRead _ _ _ f n); mret (take (Z.to_nat n) data).

Definition op_read (id : Z) (handle : bytes) (offset n : Z) : SftpM Packet :=
  h ← parse_handle handle;
  entry ← get_handle h;
  match entry with
  | HFile file _ _ =>
      _ ← call_ok (CSeek _ _ _ file offset);
      let cap := Z.min n (MAX_PACKET_SIZE / 2) in
      data ← read_upto file cap;
      if is_nil data then mret (status_pkt id FxEof "eof") else mret (PData id data)
  | _ => mret (status_pkt id FxFailure "handle is not a file")
  end.

Definition op_write (id : Z) (handle : bytes) (offset : Z) (data : bytes) : SftpM Packet :=
  _ ← require_writable;
  h ← parse_handle handle;
  entry ← get_handle h;
  match entry with
  | HFile file _ append =>
      _ ← (if append then mret tt else call_ok (CSeek _ _ _ file offset));
      _ ← call_ok (CWriteAll _ _ _ file data);
      mret (status_ok id)
  | _ => mret (status_pkt id FxFailure "handle is not a file")
  end.

Definition op_stat (id : Z) (path : bytes) (follow : bool) : SftpM Packet :=
  p ← sess_resolve path;
  se ← get;
  md ← (if follow && negb (is_jailed se) then call_ok (CMetadata _ _ _ p) else call_ok (CSymlinkMetadata _ _ _ p));
  mret (PAttrs id (attrs_from_metadata md)).

Definition op_fstat (id : Z) (handle : bytes) : SftpM Packet :=
  h ← parse_handle handle;
  se ← get;
  entry ← get_handle h;
  md ← match entry with
       | HFile file _ _ => call_ok (CFileMetadata _ _ _ file)
       | HDir _ path _ => if is_jailed se then call_ok (CSymlinkMetadata _ _ _ path) else call_ok (CMetadata _ _ _ path)
       end;
  mret (PAttrs id (attrs_from_metadata md)).

Definition op_setstat (id : Z) (path : bytes) (attrs : Attrs) : SftpM Packet :=
  _ ← require_writable;
  p ← sess_resolve path;
  _ ← apply_session_attrs p attrs;
  mret (status_ok id).

Definition op_fsetstat (id : Z) (handle : bytes) (attrs : Attrs) : SftpM Packet :=
  _ ← require_writable;
  h ← parse_handle handle;
  entry ← get_handle h;
  let p := match entry with HFile _ path _ => path | HDir _ path _ => path end in
  _ ← apply_session_attrs p attrs;
  mret (status_ok id).

(** ** Directories *)

Definition op_opendir (id : Z) (path : bytes) : SftpM Packet :=
  p ← sess_resolve path;
  _ ← reject_symlink_when_jailed p;
  iter ← call_ok (CReadDir _ _ _ p);
  handle ← alloc_handle (HDir iter p false);
  mret (PHandle id handle).

(** [format!("{z:>w}")]: right-aligned. *)
Definition pad_left (w : nat) (s : bytes) : bytes := replicate (w - length s) Byte.x20 ++ s.

Definition sanitize_display (name : bytes) : bytes :=
  concat ((λ c, if char_is_control c then bs "?" else c) <$> lossy_chars name).

Definition kind_char (mode : Z) : bytes :=
  let t := Z.land mode 61440 in
  if t =? 16384 then bs "d" else if t =? 40960 then bs "l" else if t =? 8192 then bs "c" else if t =? 24576 then bs "b"
  else if t =? 4096 then bs "p" else if t =? 49152 then bs "s" else bs "-".

Definition format_long_name (name : bytes) (a : Attrs) : bytes :=
  let mode := default 0 (a_permissions a) in
  let perm bit ch := if has_flag mode bit then bs ch else bs "-" in
  let p := kind_char mode ++ perm 256 "r"%string ++ perm 128 "w"%string ++ perm 64 "x"%string ++ perm 32 "r"%string
    ++ perm 16 "w"%string ++ perm 8 "x"%string ++ perm 4 "r"%string ++ perm 2 "w"%string ++ perm 1 "x"%string in
  let size := default 0 (a_size a) in
  let ids := default (0, 0) (a_uid_gid a) in
  p ++ bs " 1 " ++ pad_left 8 (show_uint ids.1) ++ bs " " ++ pad_left 8 (show_uint ids.2) ++ bs " "
    ++ pad_left 10 (show_uint size) ++ bs " Jan  1 00:00 " ++ sanitize_display name.

Definition READDIR_BATCH : nat := 128.

(** At most [rounds] turns of the iterator: the entries, and whether it ended. *)
Fixpoint readdir_loop (rounds : nat) (it : ReadDir) (entries : list NameEntry) : SftpM (list NameEntry * bool) :=
  match rounds with
  | O => mret (entries, false)
  | Datatypes.S rounds =>
      x ← call (CNext _ _ _ it);
      match x with
      | Some (inl de) =>
          let filename := concat (lossy_chars (de_name de)) in
          md ← call (CEntryMetadata _ _ _ de);
          match md with
          | inl md =>
              let attrs := attrs_from_metadata md in
              readdir_loop rounds it
                (entries ++ [{| filename := filename; longname := format_long_name filename attrs; ne_attrs := attrs |}])
          | inr _ => readdir_loop rounds it entries
          end
      | Some (inr _) => readdir_loop rounds it entries
      | None => mret (entries, true)
      end
  end.

Definition set_eof (h : Z) (iter : ReadDir) (path : Abs) : SftpM unit :=
  se ← get; put {| opts := opts se; handles := <[h := HDir iter path true]> (handles se); next := next se |}.

Definition op_readdir (id : Z) (handle : bytes) : SftpM Packet :=
  h ← parse_handle handle;
  entry ← get_handle h;
  match entry with
  | HDir iter path eof_sent =>
      if eof_sent then mret (status_pkt id FxEof "eof") else
      res ← readdir_loop READDIR_BATCH iter [];
      let (entries, ended) := (res : list NameEntry * bool) in
      _ ← (if ended || is_nil entries then set_eof h iter path else mret tt);
      if is_nil entries then mret (status_pkt id FxEof "eof") else mret (PName id entries)
  | _ => mret (status_pkt id FxFailure "handle is not a dir")
  end.

Definition op_remove (id : Z) (path : bytes) : SftpM Packet :=
  _ ← require_writable;
  p ← sess_resolve path;
  _ ← reject_symlink_when_jailed p;
  _ ← call_ok (CRemoveFile _ _ _ p);
  mret (status_ok id).

Definition op_mkdir (id : Z) (path : bytes) (attrs : Attrs) : SftpM Packet :=
  _ ← require_writable;
  p ← sess_resolve path;
  _ ← call_ok (CCreateDir _ _ _ p);
  _ ← attempt (apply_session_attrs p attrs);
  mret (status_ok id).

Definition op_rmdir (id : Z) (path : bytes) : SftpM Packet :=
  _ ← require_writable;
  p ← sess_resolve path;
  _ ← reject_symlink_when_jailed p;
  _ ← call_ok (CRemoveDir _ _ _ p);
  mret (status_ok id).

(** ** Names *)

Definition to_string_lossy (s : bytes) : bytes := concat (lossy_chars s).

(** [p.strip_prefix(root)] of two absolute paths, under [/] again. *)
Definition strip_root (p root : Abs) : option Abs := if is_inside p root then Some (drop (length root) p) else None.

Definition name_reply (id : Z) (display : bytes) : Packet :=
  let b := to_string_lossy display in PName id [{| filename := b; longname := b; ne_attrs := attrs_default |}].

Definition op_realpath (id : Z) (path : bytes) : SftpM Packet :=
  p ← sess_resolve path;
  se ← get;
  let display :=
    match hide_jail_in_realpath (opts se), root (opts se) with
    | true, Some dir => default [] (strip_root p (lexically_clean dir))
    | _, _ => p
    end in
  mret (name_reply id (abs_bytes display)).

Definition op_rename (id : Z) (oldpath newpath : bytes) : SftpM Packet :=
  _ ← require_writable;
  from ← sess_resolve oldpath;
  to ← sess_resolve newpath;
  _ ← reject_symlink_when_jailed from;
  md ← call (CSymlinkMetadata _ _ _ to);
  _ ← match md with inl _ => reject_symlink_when_jailed to | inr _ => mret tt end;
  there ← call (CExists _ _ _ to);
  if (there : bool) then mret (status_pkt id FxFailure "destination exists") else
  _ ← call_ok (CRename _ _ _ from to);
  mret (status_ok id).

Definition op_readlink (id : Z) (path : bytes) : SftpM Packet :=
  p ← sess_resolve path;
  tgt ← call_ok (CReadLink _ _ _ p);
  se ← get;
  match root (opts se) with
  | None => mret (name_reply id tgt)
  | Some dir =>
      let root_clean := lexically_clean dir in
      let escapes := status_pkt id FxPermissionDenied "symlink target escapes jail" in
      if is_absolute tgt then
        let cleaned := lexically_clean tgt in
        if negb (is_inside cleaned root_clean) then mret escapes
        else if hide_jail_in_realpath (opts se)
        then mret (name_reply id (abs_bytes (default [] (strip_root cleaned root_clean))))
        else mret (name_reply id (abs_bytes cleaned))
      else
        (* no [..] is left of a clean path *)
        let cleaned := lexically_clean (path_join (abs_bytes (removelast p)) tgt) in
        if negb (is_inside cleaned root_clean) then mret escapes
        else mret (name_reply id tgt)
  end.

Definition op_symlink (id : Z) (target_path link_path : bytes) : SftpM Packet :=
  _ ← require_writable;
  link ← sess_resolve link_path;
  if negb (utf8_valid target_path) then throw (SStatus FxBadMessage []) else
  se ← get;
  if is_jailed se && is_absolute target_path
  then mret (status_pkt id FxPermissionDenied "absolute symlink target rejected by jail")
  else if is_jailed se && List.existsb (λ c, bool_decide (c = ParentDir)) (components target_path)
  then mret (status_pkt id FxPermissionDenied "symlink target escapes jail")
  else
    _ ← call_ok (CSymlink _ _ _ target_path link);
    mret (status_ok id).

(** ** Extensions *)

Definition EXT_POSIX_RENAME : string := "posix-rename@openssh.com".
Definition EXT_STATVFS : string := "statvfs@openssh.com".
Definition EXT_FSTATVFS : string := "fstatvfs@openssh.com".
Definition EXT_HARDLINK : string := "hardlink@openssh.com".
Definition EXT_FSYNC : string := "fsync@openssh.com".
Definition EXT_USERS_GROUPS_BY_ID : string := "users-groups-by-id@openssh.com".
Definition EXT_LSETSTAT : string := "lsetstat@openssh.com".
Definition EXT_LIMITS : string := "limits@openssh.com".
Definition EXT_EXPAND_PATH : string := "expand-path@openssh.com".
Definition EXT_COPY_DATA : string := "copy-data".
Definition EXT_HOME_DIRECTORY : string := "home-directory".

Definition ADVERTISED_EXTENSIONS : list (string * string) :=
  [(EXT_POSIX_RENAME, "1"); (EXT_STATVFS, "2"); (EXT_FSTATVFS, "2"); (EXT_HARDLINK, "1"); (EXT_FSYNC, "1");
   (EXT_LSETSTAT, "1"); (EXT_LIMITS, "1"); (EXT_EXPAND_PATH, "1"); (EXT_COPY_DATA, "1"); (EXT_HOME_DIRECTORY, "1");
   (EXT_USERS_GROUPS_BY_ID, "1")]%string.

(** [r.read_..()?] *)
Definition rd {A} (r : result A) : SftpM A := of_result (sftp_from_result r).

Definition MAX_IDS : Z := 1024.

(** [ids.chunks(4)], of a multiple of four bytes. *)
Fixpoint ids_of (ids : bytes) : list Z :=
  match ids with
  | a :: b :: c :: d :: rest => be_value [a; b; c; d] :: ids_of rest
  | _ => []
  end.
Fixpoint names_of (look : Z → Call File ReadDir DirEntry (option bytes)) (ids : list Z) : SftpM bytes :=
  match ids with
  | [] => mret []
  | i :: ids =>
      n ← call (look i);
      rest ← names_of look ids;
      mret (str_enc (default [] n) ++ rest)
  end.

Definition op_ext_users_groups_by_id (id : Z) (data : bytes) : SftpM Packet :=
  x ← rd (read_string (reader_new data));
  let (uids, r) := (x : bytes * Reader) in
  y ← rd (read_string r);
  let gids := (y : bytes * Reader).1 in
  if negb (len uids mod 4 =? 0) || negb (len gids mod 4 =? 0) || (MAX_IDS <? (len uids + len gids) / 4)
  then mret (status_pkt id FxBadMessage "bad id list") else
  users ← names_of (CUserName _ _ _) (ids_of uids);
  groups ← names_of (CGroupName _ _ _) (ids_of gids);
  mret (PExtendedReply id (str_enc users ++ str_enc groups)).

Definition op_ext_limits (id : Z) : SftpM Packet :=
  se ← get;
  mret (PExtendedReply id (be_bytes 8 MAX_PACKET_SIZE ++ be_bytes 8 (MAX_PACKET_SIZE / 2) ++ be_bytes 8 (MAX_PACKET_SIZE / 2)
    ++ be_bytes 8 (max_handles (opts se)))).

Definition home_in_jail (user : bytes) : SftpM (option Abs) :=
  home ← call (CHome _ _ _ user);
  se ← get;
  match home with
  | None => mret None
  | Some dir =>
      let home := lexically_clean dir in
      match root (opts se) with
      | Some jail => mret (if is_inside home (lexically_clean jail) then Some home else None)
      | None => mret (Some home)
      end
  end.

Definition op_ext_expand_path (id : Z) (data : bytes) : SftpM Packet :=
  x ← rd (read_string (reader_new data));
  let path := (x : bytes * Reader).1 in
  match strip_prefix (bs "~") path with
  | Some rest =>
      let (user, tail) := match split_once SLASH rest with Some p => p | None => (rest, []) end in
      home ← home_in_jail (to_string_lossy user);
      match home with
      | None => status_err FxNoSuchFile "no such user"
      | Some home =>
          let p := to_string_lossy (abs_bytes home) in
          op_realpath id (if is_nil tail then p else p ++ SLASH :: tail)
      end
  | None => op_realpath id path
  end.

Definition op_ext_home_directory (id : Z) (data : bytes) : SftpM Packet :=
  x ← rd (read_string (reader_new data));
  home ← home_in_jail (to_string_lossy (x : bytes * Reader).1);
  match home with
  | Some home => op_realpath id (to_string_lossy (abs_bytes home))
  | None => mret (status_pkt id FxNoSuchFile "no such user")
  end.

Definition COPY_BUF : Z := 64 * 1024.

(** Every turn but the last copies at least a byte, so [left] turns are enough. *)
Fixpoint copy_loop (fuel : nat) (rf wf : File) (roff woff left : Z) : SftpM unit :=
  match fuel with
  | O => mret tt
  | Datatypes.S fuel =>
      if left <=? 0 then mret tt else
      let want := Z.min COPY_BUF left in
      _ ← call_ok (CSeek _ _ _ rf roff);
      data ← read_upto rf want;
      if is_nil data then mret tt else
      _ ← call_ok (CSeek _ _ _ wf woff);
      _ ← call_ok (CWriteAll _ _ _ wf data);
      copy_loop fuel rf wf (roff + len data) (woff + len data) (left - len data)
  end.

Definition is_regular (md : Metadata) : bool := match m_type md with FtFile => true | _ => false end.

Definition copy_between (id rh wh : Z) (rf wf : File) (roff n woff : Z) : SftpM Packet :=
  rmd ← call_ok (CFileMetadata _ _ _ rf);
  wmd ← call_ok (CFileMetadata _ _ _ wf);
  let same := (m_dev rmd =? m_dev wmd) && (m_ino rmd =? m_ino wmd) in
  if (rh =? wh) || same then mret (status_pkt id FxFailure "same file")
  else if negb (is_regular rmd) then mret (status_pkt id FxFailure "copy source is not a regular file")
  else
    rf ← call_ok (CTryClone _ _ _ rf);
    wf ← call_ok (CTryClone _ _ _ wf);
    let avail := sat_sub (m_len rmd) roff in
    let left := if n =? 0 then avail else Z.min n avail in
    _ ← copy_loop (Z.to_nat left) rf wf roff woff left;
    mret (status_ok id).

Definition op_ext_copy_data (id : Z) (data : bytes) : SftpM Packet :=
  _ ← require_writable;
  x ← rd (read_string (reader_new data));
  rh ← parse_handle (x : bytes * Reader).1;
  y ← rd (read_u64 x.2);
  z ← rd (read_u64 (y : Z * Reader).2);
  u ← rd (read_string (z : Z * Reader).2);
  wh ← parse_handle (u : bytes * Reader).1;
  v ← rd (read_u64 u.2);
  se ← get;
  match handles se !! rh, handles se !! wh with
  | Some (HFile rf _ _), Some (HFile wf _ _) => copy_between id rh wh rf wf y.1 z.1 (v : Z * Reader).1
  | _, _ => mret (status_pkt id FxFailure "invalid handle")
  end.

Definition fxp_status_from_errno (e : Errno) : FxpStatus :=
  if e =? ENOENT then FxNoSuchFile else if (e =? EACCES) || (e =? EPERM) then FxPermissionDenied else FxFailure.
Definition errno_msg (msg : string) (e : Errno) : SftpError := SStatus (fxp_status_from_errno e) (bs msg).

Definition op_ext_lsetstat (id : Z) (data : bytes) : SftpM Packet :=
  _ ← require_writable;
  x ← rd (read_string (reader_new data));
  y ← rd (decode_attrs (x : bytes * Reader).2);
  let attrs := (y : Attrs * Reader).1 in
  p ← sess_resolve x.1;
  md ← call_ok (CSymlinkMetadata _ _ _ p);
  if negb (is_symlink md) then
    se ← get;
    _ ← apply_attrs p attrs true (max_set_len (opts se)) (allow_special_bits (opts se));
    mret (status_ok id)
  else if is_some (a_size attrs) || is_some (a_permissions attrs)
  then mret (status_pkt id FxOpUnsupported "cannot set the size or mode of a symlink")
  else
    _ ← for_some (a_uid_gid attrs) (λ ids,
          r ← call (CFchownat _ _ _ p ids.1 ids.2 false); sys_ok (errno_msg "lchown failed") r);
    _ ← for_some (a_atime_mtime attrs) (λ times,
          r ← call (CUtimensat _ _ _ p times.1 times.2 false); sys_ok (errno_msg "lutimes failed") r);
    mret (status_ok id).

Definition op_ext_posix_rename (id : Z) (data : bytes) : SftpM Packet :=
  _ ← require_writable;
  x ← rd (read_string (reader_new data));
  y ← rd (read_string (x : bytes * Reader).2);
  from ← sess_resolve x.1;
  to ← sess_resolve (y : bytes * Reader).1;
  _ ← reject_symlink_when_jailed from;
  md ← call (CSymlinkMetadata _ _ _ to);
  _ ← match md with inl _ => reject_symlink_when_jailed to | inr _ => mret tt end;
  _ ← call_ok (CRename _ _ _ from to);
  mret (status_ok id).

Definition op_ext_hardlink (id : Z) (data : bytes) : SftpM Packet :=
  _ ← require_writable;
  x ← rd (read_string (reader_new data));
  y ← rd (read_string (x : bytes * Reader).2);
  src ← sess_resolve x.1;
  dst ← sess_resolve (y : bytes * Reader).1;
  _ ← reject_symlink_when_jailed src;
  _ ← call_ok (CHardLink _ _ _ src dst);
  mret (status_ok id).

Definition op_ext_fsync (id : Z) (data : bytes) : SftpM Packet :=
  x ← rd (read_string (reader_new data));
  h ← parse_handle (x : bytes * Reader).1;
  entry ← get_handle h;
  match entry with
  | HFile file _ _ => _ ← call_ok (CSyncAll _ _ _ file); mret (status_ok id)
  | _ => mret (status_pkt id FxFailure "handle is not a file")
  end.

Definition SSH_FXE_STATVFS_ST_RDONLY : Z := 1.
Definition SSH_FXE_STATVFS_ST_NOSUID : Z := 2.
Definition statvfs_encode (s : Statvfs) : bytes :=
  let flag := Z.lor (flag (rdonly s) SSH_FXE_STATVFS_ST_RDONLY) (flag (nosuid s) SSH_FXE_STATVFS_ST_NOSUID) in
  concat (be_bytes 8 <$> [bsize s; frsize s; blocks s; bfree s; bavail s; files s; ffree s; favail s; fsid s; flag; namemax s]).

Definition op_ext_statvfs (id : Z) (data : bytes) : SftpM Packet :=
  x ← rd (read_string (reader_new data));
  p ← sess_resolve (x : bytes * Reader).1;
  r ← call (CStatvfs _ _ _ p);
  s ← sys_ok (errno_msg "statvfs failed") r;
  mret (PExtendedReply id (statvfs_encode s)).

Definition op_ext_fstatvfs (id : Z) (data : bytes) : SftpM Packet :=
  x ← rd (read_string (reader_new data));
  h ← parse_handle (x : bytes * Reader).1;
  entry ← get_handle h;
  r ← match entry with
      | HFile file _ _ => call (CFstatvfs _ _ _ file)
      | HDir _ path _ => call (CStatvfs _ _ _ path)
      end;
  s ← sys_ok (errno_msg "fstatvfs failed") r;
  mret (PExtendedReply id (statvfs_encode s)).

Definition op_extended (id : Z) (request data : bytes) : SftpM Packet :=
  let named name := bytes_eqb request (bs name) in
  if negb (utf8_valid request) then mret (status_pkt id FxOpUnsupported "unknown extension")
  else if named EXT_POSIX_RENAME then op_ext_posix_rename id data
  else if named EXT_HARDLINK then op_ext_hardlink id data
  else if named EXT_FSYNC then op_ext_fsync id data
  else if named EXT_STATVFS then op_ext_statvfs id data
  else if named EXT_FSTATVFS then op_ext_fstatvfs id data
  else if named EXT_USERS_GROUPS_BY_ID then op_ext_users_groups_by_id id data
  else if named EXT_LSETSTAT then op_ext_lsetstat id data
  else if named EXT_LIMITS then op_ext_limits id
  else if named EXT_EXPAND_PATH then op_ext_expand_path id data
  else if named EXT_COPY_DATA then op_ext_copy_data id data
  else if named EXT_HOME_DIRECTORY then op_ext_home_directory id data
  else mret (status_pkt id FxOpUnsupported "unknown extension").

(** ** Requests *)

Definition dispatch (pkt : Packet) : SftpM Packet :=
  match pkt with
  | POpen id path pflags attrs => op_open id path pflags attrs
  | PClose id handle => op_close id handle
  | PRead id handle offset n => op_read id handle offset n
  | PWrite id handle offset data => op_write id handle offset data
  | PLstat id path => op_stat id path false
  | PStat id path => op_stat id path true
  | PFstat id handle => op_fstat id handle
  | PSetstat id path attrs => op_setstat id path attrs
  | PFsetstat id handle attrs => op_fsetstat id handle attrs
  | POpendir id path => op_opendir id path
  | PReaddir id handle => op_readdir id handle
  | PRemove id path => op_remove id path
  | PMkdir id path attrs => op_mkdir id path attrs
  | PRmdir id path => op_rmdir id path
  | PRealpath id path => op_realpath id path
  | PRename id oldpath newpath => op_rename id oldpath newpath
  | PReadlink id path => op_readlink id path
  | PSymlink id target_path link_path => op_symlink id target_path link_path
  | PExtended id request data => op_extended id request data
  | _ => throw (SProtocol "sftp: unexpected packet from client")
  end.

Definition handle_packet (pkt : Packet) (s : SftpServerSession * W) : Packet * (SftpServerSession * W) :=
  match dispatch pkt s with
  | (SOk reply, s) => (reply, s)
  | (SErr e, s) => (status_from_err (default 0 (packet_id pkt)) e, s)
  end.

(** ** The session *)

Record Served := {
  sv_input : Input;
  sv_out : list Packet;                      (* the packets written *)
  sv_write_fails : nat → option IoError;     (* the n-th write *)
  sv_state : SftpServerSession * W
}.
Definition served (i : Input) (out : list Packet) (fails : nat → option IoError) (s : SftpServerSession * W) : Served :=
  {| sv_input := i; sv_out := out; sv_write_fails := fails; sv_state := s |}.

(** [write_packet(&mut t, &reply)]. *)
Definition serve_write (p : Packet) (v : Served) : sftp_result unit * Served :=
  match sv_write_fails v (length (sv_out v)) with
  | Some e => (SErr (SIo e), v)
  | None => (SOk tt, served (sv_input v) (sv_out v ++ [p]) (sv_write_fails v) (sv_state v))
  end.

Definition is_hangup (e : SftpError) : bool :=
  match e with
  | SIo e => match io_kind e with KUnexpectedEof | KBrokenPipe | KConnectionReset => true | _ => false end
  | _ => false
  end.

(** One turn of the loop: [None] when it goes on. *)
Definition serve_step (v : Served) : option (sftp_result unit) * Served :=
  match read_packet (sv_input v) with
  | (SErr e, i) =>
      (Some (if is_hangup e then SOk tt else SErr e), served i (sv_out v) (sv_write_fails v) (sv_state v))
  | (SOk body, i) =>
      let v := served i (sv_out v) (sv_write_fails v) (sv_state v) in
      match sftp_from_result (packet_decode body) with
      | SErr e => (Some (SErr e), v)
      | SOk pkt =>
          let (reply, s) := handle_packet pkt (sv_state v) in
          match serve_write reply (served (sv_input v) (sv_out v) (sv_write_fails v) s) with
          | (SErr e, v) => (Some (SErr e), v)
          | (SOk _, v) => (None, v)
          end
      end
  end.

(** A turn that goes on has read at least five bytes. *)
Fixpoint serve_loop (fuel : nat) (v : Served) : option (sftp_result unit) * Served :=
  match fuel with
  | O => (None, v)
  | Datatypes.S fuel => match serve_step v with (None, v) => serve_loop fuel v | done => done end
  end.

Definition VERSION_REPLY : Packet :=
  PVersion SFTP_VERSION ((λ e, (bs e.1, bs e.2)) <$> ADVERTISED_EXTENSIONS).

Definition run (v : Served) : option (sftp_result unit) * Served :=
  match read_packet (sv_input v) with
  | (SErr e, i) => (Some (SErr e), served i (sv_out v) (sv_write_fails v) (sv_state v))
  | (SOk body, i) =>
      let v := served i (sv_out v) (sv_write_fails v) (sv_state v) in
      match sftp_from_result (packet_decode body) with
      | SErr e => (Some (SErr e), v)
      | SOk (PInit version _) =>
          if version <? 3 then (Some (SErr (SProtocol "sftp: client version < 3")), v) else
          match serve_write VERSION_REPLY v with
          | (SErr e, v) => (Some (SErr e), v)
          | (SOk _, v) => serve_loop (Datatypes.S (length (i_bytes (sv_input v)))) v
          end
      | SOk _ => (Some (SErr (SProtocol "sftp: expected INIT")), v)
      end
  end.
End Server.
