(* ===== verification/SftpServerFacts.v ===== *)
(** * What an SFTP session does to the file system

    A record of the calls a session makes, and a rule for each part of the
    session's monad, by which the two properties of the session's calls are
    proved: a read-only session changes nothing, and a jailed one stays inside
    its jail. *)
From S2P Require Import Prelude Wire WireLoop Text TextFacts SftpPacket SftpPath SftpServer.

(** ** A record of calls *)

Section Logged.
Context {W : Type} `{!SftpOs W}.

(** A call with its answer. *)
Definition Event : Type := {A : Type & (Call File ReadDir DirEntry A * A)%type}.
Definition event {A} (c : Call File ReadDir DirEntry A) (a : A) : Event := existT A (c, a).

(** The calls made, the last one first. *)
Definition Logged : Type := W * list Event.
#[global] Instance logged_os : SftpOs Logged := {|
  File := File; ReadDir := ReadDir; DirEntry := DirEntry; de_name := de_name; os_error := os_error;
  exec A c w := let (a, w') := exec c w.1 in (a, (w', event c a :: w.2))
|}.
End Logged.
Arguments Event W {_}.
Arguments Logged W {_}.

(** ** Ids of handles *)

Section Ids.
Context {W : Type} `{!SftpOs W}.

Definition IDS : Z := 2 ^ 64 - 1.
Definition next_id (z : Z) : Z := Z.max (wrap64 (z + 1)) 1.
Definition id_ok (z : Z) : Prop := 1 ≤ z ≤ IDS.

(** The ids go round. *)
Definition id_after (z : Z) (k : nat) : Z := 1 + (z - 1 + Z.of_nat k) mod IDS.

Lemma next_id_after z : id_ok z → next_id z = id_after z 1 ∧ id_ok (next_id z).
Proof.
  unfold id_ok, next_id, id_after, IDS, wrap64. intros Hz. change (Z.of_nat 1) with 1. replace (z - 1 + 1) with z by lia.
  destruct (decide (z = 2 ^ 64 - 1)) as [->|Hne]; [vm_compute; intuition congruence|].
  rewrite !Z.mod_small by lia. lia.
Qed.
Lemma id_after_shift z k : id_ok z → id_after (next_id z) k = id_after z (Datatypes.S k).
Proof.
  intros Hz. destruct (next_id_after z Hz) as [-> _]. unfold id_after. f_equal.
  replace (1 + (z - 1 + Z.of_nat 1) mod IDS - 1 + Z.of_nat k) with ((z - 1 + Z.of_nat 1) mod IDS + Z.of_nat k) by lia.
  rewrite Zplus_mod_idemp_l. f_equal. lia.
Qed.
Lemma id_after_inj z k1 k2 : Z.of_nat k1 < IDS → Z.of_nat k2 < IDS → id_after z k1 = id_after z k2 → k1 = k2.
Proof.
  unfold id_after. intros H1 H2 E. assert (0 < IDS) by done.
  assert (E' : (z - 1 + Z.of_nat k1) mod IDS = (z - 1 + Z.of_nat k2) mod IDS) by lia.
  assert (Hd : (z - 1 + Z.of_nat k1 - (z - 1 + Z.of_nat k2)) mod IDS = 0) by (by rewrite Zminus_mod, E', Z.sub_diag).
  apply Z.mod_divide in Hd as [q Hq]; [|lia]. destruct (Z.eq_dec q 0) as [->|Hne]; [lia|].
  exfalso. assert (IDS ≤ Z.abs (q * IDS)) by (rewrite Z.abs_mul; nia). lia.
Qed.

Lemma alloc_none fuel (hs : gmap Z FileHandle) z :
  id_ok z → alloc_handle_loop fuel hs z = None → ∀ k, (k < fuel)%nat → is_Some (hs !! id_after z k).
Proof.
  revert z. induction fuel as [|fuel IH]; intros z Hz E k Hk; [lia|]. cbn [alloc_handle_loop] in E.
  destruct (hs !! z) as [x|] eqn:Ex; [|done]. destruct k as [|k].
  - unfold id_after. replace (z - 1 + Z.of_nat 0) with (z - 1) by lia. unfold id_ok, IDS in *.
    rewrite Z.mod_small by lia. replace (1 + (z - 1)) with z by lia. by rewrite Ex.
  - rewrite <- id_after_shift by done. apply IH; [by apply next_id_after|exact E|lia].
Qed.

Lemma alloc_some fuel (hs : gmap Z FileHandle) z id nx :
  id_ok z → alloc_handle_loop fuel hs z = Some (id, nx) → hs !! id = None ∧ id_ok id ∧ id_ok nx.
Proof.
  revert z. induction fuel as [|fuel IH]; intros z Hz E; [done|]. cbn [alloc_handle_loop] in E.
  destruct (hs !! z) as [x|] eqn:Ex; [by apply (IH (next_id z)); [apply next_id_after|]|].
  injection E as <- <-. split_and!; [done|done|apply (next_id_after z Hz)].
Qed.

(** The loop finds a free id. *)
Lemma alloc_finds (hs : gmap Z FileHandle) z :
  id_ok z → Z.of_nat (size hs) < IDS → is_Some (alloc_handle_loop (Datatypes.S (size hs)) hs z).
Proof.
  intros Hz Hs. destruct (alloc_handle_loop _ hs z) as [[id nx]|] eqn:E; [by eexists|].
  exfalso. pose proof (alloc_none _ hs z Hz E) as Hall.
  assert (Hsub : list_to_set (id_after z <$> seq 0 (Datatypes.S (size hs))) ⊆ dom hs).
  { intros x Hx. apply elem_of_list_to_set, list_elem_of_fmap in Hx as (k & -> & Hk). apply elem_of_dom, Hall.
    apply elem_of_seq in Hk. lia. }
  apply subseteq_size in Hsub. rewrite size_dom in Hsub. rewrite size_list_to_set, length_fmap, length_seq in Hsub; [lia|].
  apply NoDup_fmap_2_strong; [|apply NoDup_seq]. intros k1 k2 H1%elem_of_seq H2%elem_of_seq. apply id_after_inj; lia.
Qed.
End Ids.

(** ** Rules

    [allowed log e] says that [e] may happen after [log], [path_fine p] that [p] may be
    the path of a handle. *)

Section Rules.
Context {W : Type} `{!SftpOs W} (o : SftpServerOptions) (allowed : list (Event W) → Event W → Prop) (path_fine : Abs → Prop).

Abbreviation LM := (SftpM (W := Logged W)).
Abbreviation LCall := (Call (@File (Logged W) _) (@ReadDir (Logged W) _) (@DirEntry (Logged W) _)).
Definition St : Type := @SftpServerSession (Logged W) _ * Logged W.

Fixpoint log_fine (log : list (Event W)) : Prop :=
  match log with [] => True | e :: log => allowed log e ∧ log_fine log end.

Definition handle_path (h : @FileHandle (Logged W) _) : Abs := match h with HFile _ p _ => p | HDir _ p _ => p end.

Record fine (s : St) : Prop := {
  fn_opts : opts s.1 = o;
  fn_log : log_fine s.2.2;
  fn_handles : map_Forall (λ id h, id_ok id ∧ path_fine (handle_path h)) (handles s.1);
  fn_next : id_ok (next s.1);
  fn_size : Z.of_nat (size (handles s.1)) ≤ Z.max 0 (max_handles o)
}.

Definition wp {A} (m : LM A) (Q : A → St → Prop) (s : St) : Prop :=
  match m s with (SOk a, s') => Q a s' | (SErr e, s') => fine s' end.

Lemma call_wp_bind {A B} (m : LM A) (f : A → LM B) Q s : wp m (λ a, wp (f a) Q) s → wp (m ≫= f) Q s.
Proof. unfold wp, mbind, sftp_bind. by destruct (m s) as [[a|e] s']. Qed.
Lemma call_wp_ret {A} (a : A) (Q : A → St → Prop) s : Q a s → wp (mret a) Q s.
Proof. done. Qed.
Lemma wp_throw {A} e (Q : A → St → Prop) s : fine s → wp (throw e) Q s.
Proof. done. Qed.
Lemma wp_status {A} code msg (Q : A → St → Prop) s : fine s → wp (status_err code msg) Q s.
Proof. done. Qed.
Lemma wp_result {A} (r : sftp_result A) (Q : A → St → Prop) s : fine s → (∀ a, r = SOk a → Q a s) → wp (of_result r) Q s.
Proof. intros H HQ. unfold wp, of_result. destruct r; [by apply HQ|done]. Qed.
Lemma wp_get (Q : _ → St → Prop) s : Q s.1 s → wp get Q s.
Proof. done. Qed.
Lemma call_wp_mono {A} (m : LM A) (Q Q' : A → St → Prop) s : wp m Q s → (∀ a s', Q a s' → Q' a s') → wp m Q' s.
Proof. unfold wp. destruct (m s) as [[a|e] s']; auto. Qed.

(** After a call: the session as before, and the call in the log. *)
Lemma wp_call {A} (c : LCall A) (Q : A → St → Prop) s :
  fine s → (∀ a, allowed s.2.2 (event c a)) →
  (∀ a s', fine s' → s'.1 = s.1 → s'.2.2 = event c a :: s.2.2 → Q a s') → wp (call (W := Logged W) c) Q s.
Proof.
  intros [H1 H2 H3 H4 H5] Ha HQ. unfold wp, call. cbn [exec logged_os]. destruct (exec (W := W) c s.2.1) as [a w'] eqn:E.
  apply HQ; [|done|done]. split; [done|split; [apply Ha|done]|done..].
Qed.
Lemma wp_io_ok {A} (r : io A) (Q : A → St → Prop) s : fine s → (∀ a, r = inl a → Q a s) → wp (io_ok r) Q s.
Proof. intros H HQ. destruct r; [by apply HQ|done]. Qed.
Lemma wp_sys_ok {A} f (r : sys A) (Q : A → St → Prop) s : fine s → (∀ a, r = inl a → Q a s) → wp (sys_ok f r) Q s.
Proof. intros H HQ. destruct r; [by apply HQ|done]. Qed.
Lemma wp_call_ok {A} (c : LCall (io A)) (Q : A → St → Prop) s :
  fine s → (∀ a, allowed s.2.2 (event c a)) →
  (∀ a s', fine s' → s'.1 = s.1 → s'.2.2 = event c (inl a) :: s.2.2 → Q a s') → wp (call_ok (W := Logged W) c) Q s.
Proof.
  intros H Ha HQ. apply call_wp_bind, wp_call; [done|done|]. intros r s' H' E1 E2. apply wp_io_ok; [done|]. intros a ->. by apply HQ.
Qed.

Lemma wp_attempt {A} (m : LM A) (Q : unit → St → Prop) s :
  wp m (λ _, fine) s → (∀ s', fine s' → Q tt s') → wp (attempt m) Q s.
Proof. unfold wp, attempt. intros H HQ. apply HQ. by destruct (m s) as [[a|e] s']. Qed.

(** ** The parts that make no call *)

Lemma wp_parse_handle raw (Q : Z → St → Prop) s : fine s → (∀ h, Q h s) → wp (parse_handle raw) Q s.
Proof. intros H HQ. unfold parse_handle. destruct (len raw =? 8); [apply HQ|done]. Qed.

Lemma wp_get_handle h (Q : _ → St → Prop) s :
  fine s → (∀ x, handles s.1 !! h = Some x → path_fine (handle_path x) → Q x s) → wp (get_handle h) Q s.
Proof.
  intros H HQ. apply call_wp_bind, wp_get. destruct (handles s.1 !! h) as [x|] eqn:E; [|done].
  apply call_wp_ret, HQ; [done|]. by apply (fn_handles s H h) in E as [_ ?].
Qed.

Lemma wp_rd {A} (r : result A) (Q : A → St → Prop) s : fine s → (∀ a, r = Ok a → Q a s) → wp (rd r) Q s.
Proof. intros H HQ. destruct r; [by apply HQ|done]. Qed.

Lemma wp_alloc x (Q : bytes → St → Prop) s :
  fine s → path_fine (handle_path x) →
  (∀ id s', fine s' → s'.2 = s.2 → handles s.1 !! id = None → handles s'.1 = <[id := x]> (handles s.1) →
    Q (rev (be_bytes 8 id)) s') → wp (alloc_handle x) Q s.
Proof.
  intros H Hx HQ. apply call_wp_bind, wp_get. rewrite (fn_opts s H). destruct (max_handles o <=? _) eqn:Hm; [done|].
  destruct (alloc_handle_loop _ _ _) as [[id nx]|] eqn:E; [|done].
  destruct (alloc_some (W := Logged W) _ _ _ _ _ (fn_next s H) E) as (Hn & Hid & Hnx).
  apply call_wp_bind. unfold wp at 1, put. apply call_wp_ret, (HQ id); [|done|done|done].
  destruct H. split; [done|done| |done|].
  - by apply map_Forall_insert_2.
  - cbn [fst handles]. rewrite map_size_insert_None by done. zbool. lia.
Qed.

Lemma wp_set_eof h it p (Q : unit → St → Prop) s :
  fine s → path_fine p → is_Some (handles s.1 !! h) → (∀ s', fine s' → Q tt s') → wp (set_eof h it p) Q s.
Proof.
  intros H Hp [x Hx] HQ. apply call_wp_bind, wp_get. unfold wp, put. apply HQ. destruct H as [H1 H2 H3 H4 H5]. split; [done|done| |done|].
  - apply map_Forall_insert_2; [|done]. split; [by apply H3 in Hx as [? _]|done].
  - cbn [fst handles]. by rewrite map_size_insert_Some by (by eexists).
Qed.

Lemma wp_delete h (Q : unit → St → Prop) s :
  fine s → (∀ s', fine s' → Q tt s') →
  wp (put {| opts := opts s.1; handles := delete h (handles s.1); next := next s.1 |}) Q s.
Proof.
  intros H HQ. unfold wp, put. apply HQ. destruct H. split; [done|done|by apply map_Forall_delete|done|].
  cbn [fst handles]. rewrite map_size_delete. destruct (handles s.1 !! h); cbn; lia.
Qed.

Lemma wp_sess_resolve raw (Q : Abs → St → Prop) s :
  fine s → (∀ p, resolve (cwd o) raw (root o) = SOk p → Q p s) → wp (sess_resolve raw) Q s.
Proof. intros H HQ. apply call_wp_bind, wp_get, wp_result; [done|]. by rewrite (fn_opts s H). Qed.

Lemma wp_writable (Q : unit → St → Prop) s : fine s → (read_only o = false → Q tt s) → wp require_writable Q s.
Proof. intros H HQ. apply call_wp_bind, wp_get. rewrite (fn_opts s H). destruct (read_only o); [done|by apply HQ]. Qed.
End Rules.

(** ** What a session may call

    By its options: a read-only session nothing that changes a file, a jailed
    one nothing outside its jail and nothing that follows a symbolic link at
    the end of a path. *)

Section Policy.
Context {W : Type} `{!SftpOs W} (o : SftpServerOptions).
Abbreviation LM := (SftpM (W := Logged W)).
Abbreviation LCall := (Call (@File (Logged W) _) (@ReadDir (Logged W) _) (@DirEntry (Logged W) _)).
Abbreviation Sess := (SftpServerSession (W := Logged W)).
Abbreviation Handle := (FileHandle (W := Logged W)).

Definition writable : Prop := read_only o = false.
Definition jailed : Prop := is_Some (root o).
Definition in_jail (p : Abs) : Prop := ∀ dir, root o = Some dir → lexically_clean dir `prefix_of` p.

(** The session has seen that [p] is no symbolic link. *)
Definition seen_plain (log : list (Event W)) (p : Abs) : Prop :=
  ∃ ans : io Metadata, event (CSymlinkMetadata _ _ _ p) ans ∈ log ∧ match ans with inl md => is_symlink md = false | inr _ => True end.

Definition changes_no_file (f : OpenFlags) : Prop := f_write f = false ∧ f_creat f = false ∧ f_trunc f = false.

Definition permitted (log : list (Event W)) {A} (c : Call File ReadDir DirEntry A) : Prop :=
  match c with
  | COpen _ _ _ p f => in_jail p ∧ (¬ writable → changes_no_file f) ∧ (jailed → f_nofollow f = true)
  | CSeek _ _ _ _ _ | CRead _ _ _ _ _ | CFileMetadata _ _ _ _ | CSyncAll _ _ _ _ | CTryClone _ _ _ _ | CNext _ _ _ _
  | CEntryMetadata _ _ _ _ | CFstatvfs _ _ _ _ | CUserName _ _ _ _ | CGroupName _ _ _ _ | CHome _ _ _ _ => True
  | CWriteAll _ _ _ _ _ | CSetLen _ _ _ _ _ | CFileSetPermissions _ _ _ _ _ => writable
  | CMetadata _ _ _ p => ¬ jailed
  | CSymlinkMetadata _ _ _ p | CReadLink _ _ _ p | CStatvfs _ _ _ p => in_jail p
  | CExists _ _ _ p | CReadDir _ _ _ p => in_jail p ∧ (jailed → seen_plain log p)
  | CRemoveFile _ _ _ p | CRemoveDir _ _ _ p => writable ∧ in_jail p ∧ (jailed → seen_plain log p)
  | CCreateDir _ _ _ p | CFchmodat _ _ _ p _ => writable ∧ in_jail p
  | CRename _ _ _ from to =>
      writable ∧ in_jail from ∧ in_jail to ∧ (jailed → seen_plain log from ∧ seen_plain log to)
  | CSymlink _ _ _ target link =>
      writable ∧ in_jail link ∧ (jailed → is_absolute target = false ∧ ParentDir ∉ components target)
  | CHardLink _ _ _ src dst => writable ∧ in_jail src ∧ in_jail dst ∧ (jailed → seen_plain log src)
  | CSetPermissions _ _ _ p _ => writable ∧ ¬ jailed
  | CFchownat _ _ _ p _ _ follow | CUtimensat _ _ _ p _ _ follow => writable ∧ in_jail p ∧ (jailed → follow = false)
  end.
Definition may (log : list (Event W)) (e : Event W) : Prop := permitted log (projT2 e).1.

Abbreviation good := (fine (W := W) o may in_jail).
Abbreviation run_wp := (wp (W := W) o may in_jail).

(** [m] keeps to it. *)
Definition keeps {A} (m : LM A) : Prop := ∀ s, good s → run_wp m (λ _, good) s.

Lemma keeps_then {A B} (m : LM A) (f : A → LM B) : keeps m → (∀ a, keeps (f a)) → keeps (m ≫= f).
Proof. intros Hm Hf s Hs. apply call_wp_bind. eapply call_wp_mono; [by apply Hm|]. intros a s' Hs'. by apply Hf. Qed.
Lemma keeps_ret {A} (a : A) : keeps (mret a).
Proof. by intros s Hs. Qed.
Lemma keeps_throw {A} e : keeps (throw (A := A) e).
Proof. by intros s Hs. Qed.
Lemma keeps_status {A} code msg : keeps (status_err (A := A) code msg).
Proof. by intros s Hs. Qed.

Lemma seen_more log e p : seen_plain log p → seen_plain (e :: log) p.
Proof. intros (a & Hin & Ha). exists a. split; [by constructor|done]. Qed.

Lemma jailed_by se : opts (W := Logged W) se = o → is_jailed se = true ↔ jailed.
Proof. intros E. unfold is_jailed, jailed. rewrite E. destruct (root o); cbn; [split; [intros _; by eexists|done]|]. split; [done|intros [? [=]]]. Qed.

Lemma resolve_in_jail raw p : resolve (cwd o) raw (root o) = SOk p → in_jail p.
Proof. intros H dir E. rewrite E in H. by eapply resolve_inside. Qed.

(** The calls that are always permitted. *)
Lemma keeps_call_ok {A} (c : LCall (io A)) : (∀ log, permitted log c) → keeps (call_ok (W := Logged W) c).
Proof. intros Hc s Hs. apply wp_call_ok; [done| |done]. intros a. apply Hc. Qed.
Lemma keeps_call {A} (c : LCall A) : (∀ log, permitted log c) → keeps (call (W := Logged W) c).
Proof. intros Hc s Hs. apply wp_call; [done| |done]. intros a. apply Hc. Qed.

(** *** What a part of an operation gives to the next *)

Lemma keeps_get {A} (f : Sess → LM A) : (∀ se, opts se = o → keeps (f se)) → keeps (get ≫= f).
Proof. intros Hf s Hs. apply call_wp_bind, wp_get. apply Hf; [apply Hs|done]. Qed.
Lemma keeps_resolve {A} raw (f : Abs → LM A) : (∀ p, in_jail p → keeps (f p)) → keeps (sess_resolve raw ≫= f).
Proof. intros Hf s Hs. apply call_wp_bind, wp_sess_resolve; [done|]. intros p Hp. apply Hf; [by eapply resolve_in_jail|done]. Qed.
Lemma keeps_writable {A} (f : unit → LM A) : (writable → keeps (f tt)) → keeps (require_writable ≫= f).
Proof. intros Hf s Hs. apply call_wp_bind, wp_writable; [done|]. intros Hw. by apply Hf. Qed.
Lemma keeps_handle {A} h (f : Handle → LM A) : (∀ x, in_jail (handle_path x) → keeps (f x)) → keeps (get_handle h ≫= f).
Proof. intros Hf s Hs. apply call_wp_bind, wp_get_handle; [done|]. intros x _ Hx. by apply Hf. Qed.
Lemma keeps_parse raw : keeps (parse_handle raw).
Proof. intros s Hs. by apply wp_parse_handle. Qed.
Lemma keeps_rd {A} (r : result A) : keeps (rd r).
Proof. intros s Hs. by apply wp_rd. Qed.
Lemma keeps_alloc x : in_jail (handle_path x) → keeps (alloc_handle x).
Proof. intros Hx s Hs. by apply wp_alloc. Qed.
Lemma keeps_io {A} (r : io A) : keeps (io_ok r).
Proof. intros s Hs. by apply wp_io_ok. Qed.
Lemma keeps_sys {A} f (r : sys A) : keeps (sys_ok f r).
Proof. intros s Hs. by apply wp_sys_ok. Qed.
Lemma keeps_attempt {A} (m : LM A) : keeps m → keeps (attempt m).
Proof. intros Hm s Hs. apply wp_attempt; [by apply Hm|done]. Qed.
Lemma keeps_for_some {A} (x : option A) (f : A → LM unit) : (∀ a, keeps (f a)) → keeps (for_some x f).
Proof. intros Hf. destruct x; [apply Hf|apply keeps_ret]. Qed.

(** A step with a result of its own. *)
Lemma keeps_then_post {A B} (Q : A → Prop) (m : LM A) (f : A → LM B) :
  (∀ s, good s → run_wp m (λ a s', good s' ∧ Q a) s) → (∀ a, Q a → keeps (f a)) → keeps (m ≫= f).
Proof. intros Hm Hf s Hs. apply call_wp_bind. eapply call_wp_mono; [by apply Hm|]. intros a s' [Hs' Ha]. by apply Hf. Qed.

(** After the check of a symbolic link, the path has been seen to be none. *)
Lemma wp_reject p (Q : unit → St → Prop) s :
  good s → in_jail p → (∀ s', good s' → (∀ q, seen_plain s.2.2 q → seen_plain s'.2.2 q) → (jailed → seen_plain s'.2.2 p) → Q tt s') →
  run_wp (reject_symlink_when_jailed p) Q s.
Proof.
  intros Hs Hp HQ. apply call_wp_bind, wp_get. pose proof (jailed_by s.1 (fn_opts _ _ _ _ Hs)) as Hj.
  destruct (is_jailed s.1).
  - apply call_wp_bind, wp_call_ok; [done|by intros a|]. intros md s' Hs' _ El. destruct (is_symlink md) eqn:E; [done|].
    apply call_wp_ret, HQ; [done|rewrite El; intros q; apply seen_more|]. intros _. rewrite El. exists (inl md). by split; [constructor|].
  - apply call_wp_ret, HQ; [done|done|]. intros J. by apply Hj in J.
Qed.

(** Opening keeps to it when the options do. *)
Lemma keeps_open p opt :
  in_jail p → (¬ writable → o_write opt = false ∧ o_append opt = false) → (jailed → o_nofollow opt = true) → keeps (std_open (W := Logged W) p opt).
Proof.
  intros Hp Hw Hj. unfold std_open. destruct (open_flags opt) as [fl|] eqn:E; [|apply keeps_ret].
  apply keeps_call. intros log. split; [done|]. unfold open_flags in E. split.
  - intros [Ew Ea]%Hw. rewrite Ew, Ea in E. cbn [orb negb andb] in E.
    destruct (o_read opt); [|done]. cbn [orb negb andb] in E.
    destruct (o_truncate opt), (o_create opt), (o_create_new opt); try discriminate E. by injection E as <-.
  - intros J. specialize (Hj J).
    repeat match type of E with (if ?b then _ else _) = _ => destruct b; [discriminate E|] end. by injection E as <-.
Qed.

(** A call whose permission follows from what is known. *)
Local Ltac permit := intros ?; cbn [permitted]; first [done|by split_and!|tauto].
Local Ltac keep_step :=
  first
  [ apply keeps_ret | apply keeps_throw | apply keeps_status | apply keeps_parse | apply keeps_rd | apply keeps_io
  | apply keeps_sys
  | simple apply keeps_get; intros ? ? | simple apply keeps_resolve; intros ? ? | simple apply keeps_writable; intros ?
  | simple apply keeps_handle; intros ? ?
  | simple apply keeps_then; [|intros ?]
  | apply keeps_for_some; intros ?
  | apply keeps_call_ok; permit
  | apply keeps_call; permit
  | apply keeps_alloc; done ].
Local Ltac keep := repeat keep_step.

(** *** Attributes *)

Lemma keeps_apply_size p size jl max : writable → in_jail p → (jailed → jl = true) → keeps (apply_size p size jl max).
Proof.
  intros Hw Hp Hj. unfold apply_size. destruct (max <? size); [keep|].
  apply keeps_then; [by apply keeps_open|]. intros [f|e]; keep.
Qed.
Lemma keeps_apply_mode p mode jl special : writable → in_jail p → (jailed → jl = true) → keeps (apply_mode p mode jl special).
Proof.
  intros Hw Hp Hj. unfold apply_mode. destruct jl.
  - apply keeps_then; [by apply keeps_open|]. intros [f|e]; [keep|]. destruct (bool_decide _); keep.
  - assert (¬ jailed) by (intros J; by specialize (Hj J)). keep.
Qed.
Lemma keeps_apply_attrs p a jl max special : writable → in_jail p → (jailed → jl = true) → keeps (apply_attrs p a jl max special).
Proof.
  intros Hw Hp Hj. unfold apply_attrs.
  assert (Hf : jailed → negb jl = false) by (intros J; by rewrite (Hj J)).
  apply keeps_then; [apply keeps_for_some; intros; by apply keeps_apply_size|intros _].
  apply keeps_then; [apply keeps_for_some; intros; by apply keeps_apply_mode|intros _]. keep.
Qed.
Lemma keeps_session_attrs p a : writable → in_jail p → keeps (apply_session_attrs p a).
Proof.
  intros Hw Hp. unfold apply_session_attrs. keep. apply keeps_apply_attrs; [done|done|]. by apply jailed_by.
Qed.

(** *** Operations *)

Lemma flag_subset v : has_flag v (Z.lor FXF_WRITE FXF_APPEND) = false → has_flag v FXF_APPEND = false.
Proof.
  unfold has_flag. rewrite !negb_false_iff, !Z.eqb_eq, Z.land_lor_distr_r, Z.lor_eq_0_iff. by intros [_ ?].
Qed.

Lemma keeps_op_open id path pflags attrs : keeps (op_open id path pflags attrs).
Proof.
  unfold op_open. keep_step.
  apply keeps_then_post with (Q := λ _, has_flag pflags (Z.lor FXF_WRITE FXF_APPEND) = true → writable).
  { intros s Hs. destruct (has_flag _ _); [|by apply call_wp_ret]. apply wp_writable; done. }
  intros _ Hw. keep_step. apply keeps_then.
  - apply keeps_open; [done| |by apply jailed_by]. cbn [o_write o_append]. intros Hnw.
    assert (E : has_flag pflags (Z.lor FXF_WRITE FXF_APPEND) = false) by (destruct (has_flag _ _); [by destruct Hnw; apply Hw|done]).
    split; [done|]. by apply flag_subset in E.
  - intros [f|e]; keep.
Qed.
Lemma keeps_op_close id handle : keeps (op_close id handle).
Proof.
  unfold op_close. keep_step; [keep|]. intros s Hs. apply call_wp_bind, wp_get. destruct (handles s.1 !! a); [|by apply call_wp_ret].
  apply call_wp_bind, wp_delete; done.
Qed.
Lemma keeps_read_upto f n : keeps (read_upto (W := Logged W) f n).
Proof. unfold read_upto. keep. Qed.
Lemma keeps_op_read id handle offset n : keeps (op_read id handle offset n).
Proof.
  unfold op_read. keep. destruct x; keep; [apply keeps_read_upto|]. destruct (is_nil _); keep.
Qed.
Lemma keeps_op_write id handle offset data : keeps (op_write id handle offset data).
Proof. unfold op_write. keep. destruct x as [? ? []|]; keep. Qed.
(** Following the last symbolic link, only outside a jail. *)
Lemma keeps_metadata (se : Sess) p (follow : bool) :
  opts se = o → in_jail p →
  keeps (if follow && negb (is_jailed se) then call_ok (W := Logged W) (CMetadata _ _ _ p)
         else call_ok (W := Logged W) (CSymlinkMetadata _ _ _ p)).
Proof.
  intros Hse Hp. pose proof (jailed_by _ Hse) as Hj. destruct follow, (is_jailed se); cbn [andb negb]; apply keeps_call_ok; intros log; try done.
  intros J. by apply Hj in J.
Qed.
Lemma keeps_op_stat id path follow : keeps (op_stat id path follow).
Proof. unfold op_stat. keep. by apply keeps_metadata. Qed.
Lemma keeps_op_fstat id handle : keeps (op_fstat id handle).
Proof.
  unfold op_fstat. keep. destruct x as [f p ap|it p e]; [keep|]. pose proof (keeps_metadata se p true H H0) as Hk.
  by destruct (is_jailed se).
Qed.
Lemma keeps_op_setstat id path attrs : keeps (op_setstat id path attrs).
Proof. unfold op_setstat. keep. by apply keeps_session_attrs. Qed.
Lemma keeps_op_fsetstat id handle attrs : keeps (op_fsetstat id handle attrs).
Proof. unfold op_fsetstat. keep. apply keeps_session_attrs; [done|]. by destruct x. Qed.

Lemma keeps_op_opendir id path : keeps (op_opendir id path).
Proof.
  unfold op_opendir. keep_step. intros s Hs. apply call_wp_bind, wp_reject; [done|done|]. intros s1 Hs1 _ Hseen.
  apply call_wp_bind, wp_call_ok; [done|by intros a|]. intros it s2 Hs2 _ _.
  apply call_wp_bind, wp_alloc; [done|done|]. intros b s3 Hs3 _ _ _. by apply call_wp_ret.
Qed.
Lemma wp_readdir_loop rounds it entries s :
  good s → run_wp (readdir_loop (W := Logged W) rounds it entries) (λ _ s', good s' ∧ s'.1 = s.1) s.
Proof.
  revert entries s. induction rounds as [|rounds IH]; intros entries s Hs; cbn [readdir_loop]; [by apply call_wp_ret|].
  assert (Hnext : ∀ entries s', good s' → s'.1 = s.1 → run_wp (readdir_loop (W := Logged W) rounds it entries) (λ _ s', good s' ∧ s'.1 = s.1) s')
    by (intros es s' Hs' E; rewrite <- E; by apply IH).
  apply call_wp_bind, wp_call; [done|by intros a|]. intros [[de|e]|] s1 Hs1 E1 _; [|by apply Hnext|by apply call_wp_ret].
  apply call_wp_bind, wp_call; [done|by intros a|]. intros [md|e] s2 Hs2 E2 _; (apply Hnext; [done|congruence]).
Qed.
Lemma keeps_op_readdir id handle : keeps (op_readdir id handle).
Proof.
  unfold op_readdir. keep_step; [keep|]. intros s Hs. apply call_wp_bind, wp_get_handle; [done|]. intros x Hx Hp.
  destruct x as [f p ap|it p []]; [by apply call_wp_ret..|]. apply call_wp_bind. eapply call_wp_mono; [by apply wp_readdir_loop|].
  intros [entries ended] s1 [Hs1 E1]. apply call_wp_bind.
  destruct (ended || is_nil entries).
  - apply wp_set_eof; [done|done|rewrite E1; by eexists|]. intros s2 Hs2. by destruct (is_nil entries); apply call_wp_ret.
  - apply call_wp_ret. by destruct (is_nil entries); apply call_wp_ret.
Qed.

Lemma keeps_op_remove id path : keeps (op_remove id path).
Proof.
  unfold op_remove. do 2 keep_step. intros s Hs. apply call_wp_bind, wp_reject; [done|done|]. intros s1 Hs1 _ Hseen.
  apply call_wp_bind, wp_call_ok; [done|by intros a|]. intros [] s2 Hs2 _ _. by apply call_wp_ret.
Qed.
Lemma keeps_op_rmdir id path : keeps (op_rmdir id path).
Proof.
  unfold op_rmdir. do 2 keep_step. intros s Hs. apply call_wp_bind, wp_reject; [done|done|]. intros s1 Hs1 _ Hseen.
  apply call_wp_bind, wp_call_ok; [done|by intros a|]. intros [] s2 Hs2 _ _. by apply call_wp_ret.
Qed.
Lemma keeps_op_mkdir id path attrs : keeps (op_mkdir id path attrs).
Proof. unfold op_mkdir. keep. apply keeps_attempt. by apply keeps_session_attrs. Qed.
Lemma keeps_op_realpath id path : keeps (op_realpath id path).
Proof. unfold op_realpath. keep. Qed.

(** The checks of both paths of a rename. *)
Lemma wp_rename_checks from to {A} (f : unit → LM A) (Q : A → St → Prop) s :
  good s → in_jail from → in_jail to →
  (∀ s', good s' → (jailed → seen_plain s'.2.2 from ∧ seen_plain s'.2.2 to) → run_wp (f tt) Q s') →
  run_wp (_ ← reject_symlink_when_jailed from;
          md ← call (W := Logged W) (CSymlinkMetadata _ _ _ to);
          x ← match md with inl _ => reject_symlink_when_jailed to | inr _ => mret tt end; f x) Q s.
Proof.
  intros Hs Hf Ht HQ. apply call_wp_bind, wp_reject; [done|done|]. intros s1 Hs1 _ Hseen1.
  apply call_wp_bind, wp_call; [done|by intros a|]. intros [md|e] s2 Hs2 _ El.
  - apply call_wp_bind, wp_reject; [done|done|]. intros s3 Hs3 Hmore Hseen3. apply HQ; [done|]. intros J. split; [|by apply Hseen3].
    apply Hmore. rewrite El. by apply seen_more, Hseen1.
  - apply call_wp_bind, call_wp_ret, HQ; [done|]. intros J. rewrite El. split; [by apply seen_more, Hseen1|].
    exists (inr e). by split; [constructor|].
Qed.
Lemma keeps_op_rename id oldpath newpath : keeps (op_rename id oldpath newpath).
Proof.
  unfold op_rename. do 3 keep_step. intros s Hs. apply wp_rename_checks; [done..|]. intros s1 Hs1 Hseen.
  apply call_wp_bind, wp_call; [done|intros a; split; [done|apply Hseen]|]. intros there s2 Hs2 _ El. destruct there; [by apply call_wp_ret|].
  apply call_wp_bind, wp_call_ok; [done| |intros [] s3 Hs3 _ _; by apply call_wp_ret].
  intros a. split_and!; try done. intros J. rewrite El. destruct (Hseen J). split; by apply seen_more.
Qed.
Lemma keeps_op_readlink id path : keeps (op_readlink id path).
Proof.
  unfold op_readlink. keep. destruct (root (opts se)) as [dir|]; [|keep]. destruct (is_absolute a).
  - destruct (negb _); [keep|]. destruct (hide_jail_in_realpath _); keep.
  - destruct (negb _); keep.
Qed.
Lemma keeps_op_symlink id target link : keeps (op_symlink id target link).
Proof.
  unfold op_symlink. do 2 keep_step. destruct (negb (utf8_valid target)); [keep|]. keep_step.
  pose proof (jailed_by se H1) as Hj. destruct (is_jailed se && is_absolute target) eqn:E1; [keep|].
  destruct (is_jailed se && List.existsb _ _) eqn:E2; [keep|]. keep_step; [|keep]. apply keeps_call_ok. intros log.
  split_and!; [done|done|]. intros J%Hj. rewrite J in *. cbn [andb] in *. split; [done|]. intros Hin.
  enough (List.existsb (λ c, bool_decide (c = ParentDir)) (components target) = true) by congruence.
  apply List.existsb_exists. exists ParentDir. rewrite <- list_elem_of_In. by rewrite bool_decide_true.
Qed.

(** *** Extensions *)

Lemma keeps_names_of look ids :
  (∀ i log, permitted log (look i)) → keeps (names_of (W := Logged W) look ids).
Proof.
  intros Hl. induction ids as [|i ids IH]; cbn [names_of]; [keep|]. keep_step; [by apply keeps_call|]. keep_step; [apply IH|keep].
Qed.
Lemma keeps_users_groups id data : keeps (op_ext_users_groups_by_id id data).
Proof.
  unfold op_ext_users_groups_by_id. keep_step; [keep|]. destruct a as [uids r]. keep_step; [keep|]. destruct (_ || _ || _); [keep|].
  keep_step; [by apply keeps_names_of|]. keep_step; [by apply keeps_names_of|keep].
Qed.
Lemma keeps_home user : keeps (home_in_jail (W := Logged W) user).
Proof. unfold home_in_jail. keep. destruct a as [dir|]; [|keep]. destruct (root (opts se)); keep. Qed.
Lemma keeps_expand_path id data : keeps (op_ext_expand_path id data).
Proof.
  unfold op_ext_expand_path. keep_step; [keep|]. destruct (strip_prefix _ _) as [rest|]; [|apply keeps_op_realpath].
  destruct (match split_once SLASH rest with Some p => p | None => (rest, []) end) as [user tail].
  keep_step; [apply keeps_home|]. destruct a0; [apply keeps_op_realpath|keep].
Qed.
Lemma keeps_home_directory id data : keeps (op_ext_home_directory id data).
Proof.
  unfold op_ext_home_directory. keep_step; [keep|]. keep_step; [apply keeps_home|]. destruct a0; [apply keeps_op_realpath|keep].
Qed.
Lemma keeps_copy_loop fuel rf wf roff woff left : writable → keeps (copy_loop (W := Logged W) fuel rf wf roff woff left).
Proof.
  intros Hw. revert roff woff left. induction fuel as [|fuel IH]; intros roff woff left; cbn [copy_loop]; [keep|].
  destruct (left <=? 0); [keep|]. keep_step; [keep|]. keep_step; [apply keeps_read_upto|]. destruct (is_nil _); [keep|].
  keep_step; [keep|]. keep_step; [keep|]. apply IH.
Qed.
Lemma keeps_copy_between id rh wh rf wf roff n woff : writable → keeps (copy_between (W := Logged W) id rh wh rf wf roff n woff).
Proof.
  intros Hw. unfold copy_between. keep_step; [keep|]. keep_step; [keep|]. destruct (_ || _); [keep|]. destruct (negb _); [keep|].
  keep_step; [keep|]. keep_step; [keep|]. keep_step; [by apply keeps_copy_loop|keep].
Qed.
Lemma keeps_copy_data id data : keeps (op_ext_copy_data id data).
Proof.
  unfold op_ext_copy_data. keep. destruct (handles se !! _) as [[]|]; [|keep|keep].
  destruct (handles se !! _) as [[]|]; [by apply keeps_copy_between|keep|keep].
Qed.
Lemma keeps_lsetstat id data : keeps (op_ext_lsetstat id data).
Proof.
  unfold op_ext_lsetstat. keep_step. keep_step; [keep|]. keep_step; [keep|]. keep_step. keep_step; [keep|]. destruct (negb _).
  - keep_step. keep_step; [by apply keeps_apply_attrs|keep].
  - destruct (_ || _); keep.
Qed.
Lemma keeps_posix_rename id data : keeps (op_ext_posix_rename id data).
Proof.
  unfold op_ext_posix_rename. keep_step. keep_step; [keep|]. keep_step; [keep|]. do 2 keep_step.
  intros s Hs. apply wp_rename_checks; [done..|]. intros s1 Hs1 Hseen.
  apply call_wp_bind, wp_call_ok; [done|by intros r|]. intros [] s2 Hs2 _ _. by apply call_wp_ret.
Qed.
Lemma keeps_hardlink id data : keeps (op_ext_hardlink id data).
Proof.
  unfold op_ext_hardlink. keep_step. keep_step; [keep|]. keep_step; [keep|]. do 2 keep_step.
  intros s Hs. apply call_wp_bind, wp_reject; [done|done|]. intros s1 Hs1 _ Hseen.
  apply call_wp_bind, wp_call_ok; [done|by intros r|]. intros [] s2 Hs2 _ _. by apply call_wp_ret.
Qed.
Lemma keeps_fsync id data : keeps (op_ext_fsync id data).
Proof. unfold op_ext_fsync. keep. destruct x; keep. Qed.
Lemma keeps_statvfs id data : keeps (op_ext_statvfs id data).
Proof. unfold op_ext_statvfs. keep. Qed.
Lemma keeps_fstatvfs id data : keeps (op_ext_fstatvfs id data).
Proof. unfold op_ext_fstatvfs. keep. destruct x as [f p ap|it p e]; [keep|]. cbn [handle_path] in *. keep. Qed.
Lemma keeps_limits id : keeps (op_ext_limits (W := Logged W) id).
Proof. unfold op_ext_limits. keep. Qed.

Lemma keeps_op_extended id request data : keeps (op_extended id request data).
Proof.
  unfold op_extended.
  repeat match goal with |- keeps (if ?b then _ else _) => destruct b end;
    auto using keeps_ret, keeps_posix_rename, keeps_hardlink, keeps_fsync, keeps_statvfs, keeps_fstatvfs, keeps_users_groups,
      keeps_lsetstat, keeps_limits, keeps_expand_path, keeps_copy_data, keeps_home_directory.
Qed.

(** *** Sessions *)

Lemma keeps_dispatch pkt : keeps (dispatch pkt).
Proof.
  destruct pkt; cbn [dispatch]; auto using keeps_throw, keeps_op_open, keeps_op_close, keeps_op_read, keeps_op_write, keeps_op_stat,
    keeps_op_fstat, keeps_op_setstat, keeps_op_fsetstat, keeps_op_opendir, keeps_op_readdir, keeps_op_remove, keeps_op_mkdir,
    keeps_op_rmdir, keeps_op_realpath, keeps_op_rename, keeps_op_readlink, keeps_op_symlink, keeps_op_extended.
Qed.

Lemma handle_packet_good pkt s : good s → good (handle_packet pkt s).2.
Proof.
  intros Hs. pose proof (keeps_dispatch pkt s Hs) as H. unfold wp in H. unfold handle_packet.
  by destruct (dispatch pkt s) as [[reply|e] s'].
Qed.

Abbreviation LServed := (Served (W := Logged W)).

Lemma serve_step_good (v : LServed) : good (sv_state v) → good (sv_state (serve_step v).2).
Proof.
  intros Hv. unfold serve_step. destruct (read_packet (sv_input v)) as [[body|e] i]; [|done].
  destruct (sftp_from_result (packet_decode body)) as [pkt|e]; [|done]. cbn [sv_state served].
  pose proof (handle_packet_good pkt (sv_state v) Hv) as Hs. destruct (handle_packet pkt (sv_state v)) as [reply s'].
  unfold serve_write. cbn. by destruct (sv_write_fails v _).
Qed.
Lemma serve_loop_good fuel (v : LServed) : good (sv_state v) → good (sv_state (serve_loop fuel v).2).
Proof.
  revert v. induction fuel as [|fuel IH]; intros v Hv; [done|]. cbn [serve_loop]. pose proof (serve_step_good v Hv) as H.
  destruct (serve_step v) as [[r|] v']; [done|by apply IH].
Qed.
Lemma run_good (v : LServed) : good (sv_state v) → good (sv_state (run v).2).
Proof.
  intros Hv. unfold run. destruct (read_packet (sv_input v)) as [[body|e] i]; [|done].
  destruct (sftp_from_result (packet_decode body)) as [pkt|e]; [|done]. destruct pkt; try done. destruct (version <? 3); [done|].
  unfold serve_write. cbn [sv_write_fails served sv_out]. destruct (sv_write_fails v _); [done|]. by apply serve_loop_good.
Qed.

End Policy.

(** *** Sessions end *)

Section Ends.
Context {W : Type} `{!SftpOs W}.
Abbreviation left v := (length (i_bytes (sv_input v))).

Lemma read_exact_takes n i b i' : read_exact n i = (SOk b, i') → 0 ≤ n → (length (i_bytes i') + Z.to_nat n ≤ length (i_bytes i))%nat.
Proof.
  unfold read_exact. destruct (len (i_bytes i) <? n) eqn:E; [done|]. intros [= _ <-] Hn. cbn [i_bytes]. rewrite length_drop.
  zbool. unfold len in E. lia.
Qed.
Lemma read_packet_takes i b i' : read_packet i = (SOk b, i') → (length (i_bytes i') < length (i_bytes i))%nat.
Proof.
  unfold read_packet. destruct (read_exact 4 i) as [[lb|e] i1] eqn:E1; [|done]. apply read_exact_takes in E1; [|lia].
  destruct ((be_value lb =? 0) || (MAX_PACKET_SIZE <? be_value lb)); [done|]. intros E2.
  apply read_exact_takes in E2; [|apply be_value_range]. lia.
Qed.

Lemma serve_step_takes (v : Served) v' : serve_step v = (None, v') → (left v' < left v)%nat.
Proof.
  unfold serve_step. destruct (read_packet (sv_input v)) as [[body|e] i] eqn:E; [|done]. apply read_packet_takes in E.
  destruct (sftp_from_result (packet_decode body)) as [pkt|e]; [|done]. cbn [sv_state served].
  destruct (handle_packet pkt (sv_state v)) as [reply s']. unfold serve_write. cbn.
  destruct (sv_write_fails v _); [done|]. intros [= <-]. done.
Qed.
Lemma serve_loop_ends fuel (v : Served) : (left v < fuel)%nat → is_Some (serve_loop fuel v).1.
Proof.
  revert v. induction fuel as [|fuel IH]; intros v Hf; [lia|]. cbn [serve_loop].
  destruct (serve_step v) as [[r|] v'] eqn:E; [by eexists|]. apply IH. apply serve_step_takes in E. lia.
Qed.
Lemma run_ends (v : Served) : is_Some (run v).1.
Proof.
  unfold run. destruct (read_packet (sv_input v)) as [[body|e] i]; [|by eexists].
  destruct (sftp_from_result (packet_decode body)) as [pkt|e]; [|by eexists]. destruct pkt; try by eexists.
  destruct (version <? 3); [by eexists|]. unfold serve_write. cbn [sv_write_fails served sv_out].
  destruct (sv_write_fails v _); [by eexists|]. apply serve_loop_ends. cbn. lia.
Qed.
End Ends.

(** ** The theorems *)

Section Theorems.
Context {W : Type} `{!SftpOs W}.

(** The session before its first byte, on a system in state [w]. *)
Definition fresh_session (o : SftpServerOptions) (w : W) (input : Input) (fails : nat → option IoError) : Served (W := Logged W) :=
  served input [] fails (session_new o, (w, [])).
(** The calls of a session, the last one first. *)
Definition calls_of (v : Served (W := Logged W)) : list (Event W) := (sv_state v).2.2.

Lemma fresh_good o w input fails : fine (W := W) o (may o) (in_jail o) (sv_state (fresh_session o w input fails)).
Proof. split; [done|done|apply map_Forall_empty|done|]. unfold fresh_session. cbn [sv_state served fst session_new handles]. rewrite map_size_empty. lia. Qed.

Lemma calls_permitted o w input fails l1 e l2 :
  calls_of (run (fresh_session o w input fails)).2 = l1 ++ e :: l2 → permitted o l2 (projT2 e).1.
Proof.
  pose proof (run_good o _ (fresh_good o w input fails)) as [_ H _]. unfold calls_of. revert H.
  generalize (sv_state (run (fresh_session o w input fails)).2).2.2. intros log H ->.
  induction l1 as [|e' l1 IH]; destruct H as [H1 H2]; [exact H1|by apply IH].
Qed.

(** Calls that change a file, a directory or their attributes. *)
Definition mutates {A} (c : Call (@File W _) (@ReadDir W _) (@DirEntry W _) A) : bool :=
  match c with
  | COpen _ _ _ _ f => f_write f || f_creat f || f_trunc f
  | CWriteAll _ _ _ _ _ | CSetLen _ _ _ _ _ | CFileSetPermissions _ _ _ _ _ | CRemoveFile _ _ _ _ | CCreateDir _ _ _ _
  | CRemoveDir _ _ _ _ | CRename _ _ _ _ _ | CSymlink _ _ _ _ _ | CHardLink _ _ _ _ _ | CSetPermissions _ _ _ _ _
  | CFchmodat _ _ _ _ _ | CFchownat _ _ _ _ _ _ _ | CUtimensat _ _ _ _ _ _ _ => true
  | _ => false
  end.

(** C18: a read-only SFTP session changes nothing.  Whatever the client sends,
    on any operating system and however its writes fail, the session ends, and
    no call it has made opens a file for writing, creates, truncates, removes,
    renames or links anything or sets an attribute. *)
Theorem sftp_read_only o w input fails :
  read_only o = true →
  is_Some (run (fresh_session o w input fails)).1 ∧
  Forall (λ e : Event W, mutates (projT2 e).1 = false) (calls_of (run (fresh_session o w input fails)).2).
Proof.
  intros Hro. split; [apply run_ends|]. apply list.Forall_forall. intros e (l1 & l2 & E)%list_elem_of_split.
  apply calls_permitted in E. destruct e as [A [c a]]. cbn [projT2 fst] in *.
  assert (Hw : ¬ writable o) by (unfold writable; congruence).
  destruct c; cbn [permitted mutates] in *; try done; try (exfalso; tauto).
  destruct E as (_ & Hf & _). destruct (Hf Hw) as (-> & -> & ->). done.
Qed.

(** The paths a call is about. *)
Definition call_paths {A} (c : Call (@File W _) (@ReadDir W _) (@DirEntry W _) A) : list Abs :=
  match c with
  | COpen _ _ _ p _ | CMetadata _ _ _ p | CSymlinkMetadata _ _ _ p | CExists _ _ _ p | CReadDir _ _ _ p | CRemoveFile _ _ _ p
  | CCreateDir _ _ _ p | CRemoveDir _ _ _ p | CReadLink _ _ _ p | CSymlink _ _ _ _ p | CSetPermissions _ _ _ p _
  | CFchmodat _ _ _ p _ | CFchownat _ _ _ p _ _ _ | CUtimensat _ _ _ p _ _ _ | CStatvfs _ _ _ p => [p]
  | CRename _ _ _ p q | CHardLink _ _ _ p q => [p; q]
  | _ => []
  end.
(** Calls that act on what a symbolic link at the end of the path points to. *)
Definition follows_link {A} (c : Call (@File W _) (@ReadDir W _) (@DirEntry W _) A) : bool :=
  match c with
  | COpen _ _ _ _ f => negb (f_nofollow f)
  | CMetadata _ _ _ _ | CExists _ _ _ _ | CReadDir _ _ _ _ | CSetPermissions _ _ _ _ _ | CStatvfs _ _ _ _ => true
  | CFchownat _ _ _ _ _ _ follow | CUtimensat _ _ _ _ _ _ follow => follow
  | _ => false
  end.

(** What a jailed session calls after [log]. *)
Definition confined (jail : Abs) (log : list (Event W)) (e : Event W) : Prop :=
  Forall (λ p, jail `prefix_of` p) (call_paths (projT2 e).1) ∧
  match (projT2 e).1 with
  | CStatvfs _ _ _ _ => True
  | CSymlink _ _ _ target _ => is_absolute target = false ∧ ParentDir ∉ components target
  | c => follows_link c = true → Forall (seen_plain log) (call_paths c)
  end.

(** C8: a jailed SFTP session stays in its jail.  Whatever the client sends and
    whatever the system answers, the session ends, and of every call it has
    made each path lies in the jail; a call that would follow a symbolic link
    at the end of its path is made only after the session has seen that there
    is none (but for statvfs, which is not checked); and the symbolic links it
    creates point downward. *)
Theorem sftp_jailed o dir w input fails :
  root o = Some dir →
  is_Some (run (fresh_session o w input fails)).1 ∧
  ∀ l1 e l2, calls_of (run (fresh_session o w input fails)).2 = l1 ++ e :: l2 → confined (lexically_clean dir) l2 e.
Proof.
  intros Hr. split; [apply run_ends|]. intros l1 e l2 E%calls_permitted. destruct e as [A [c a]]. unfold confined. cbn [projT2 fst] in *.
  assert (Hj : jailed o) by (by eexists). assert (Hin : ∀ p, in_jail o p → lexically_clean dir `prefix_of` p) by auto.
  destruct c; cbn [permitted call_paths follows_link] in *; destruct_and?; rewrite ?list.Forall_cons, ?list.Forall_nil; try done;
    try (exfalso; tauto); repeat match goal with H : jailed o → _ |- _ => specialize (H Hj) end; destruct_and?; split_and!; auto; try done.
  all: intros Hf; exfalso.
  - by rewrite H2 in Hf.
  - congruence.
  - congruence.
Qed.

(** The states of a session between its requests. *)
Inductive reached (o : SftpServerOptions) : St (W := W) → Prop :=
  | reached_new w : reached o (session_new o, (w, []))
  | reached_next s pkt : reached o s → reached o (handle_packet pkt s).2.

Lemma reached_good o s : reached o s → fine (W := W) o (may o) (in_jail o) s.
Proof. induction 1 as [w|s pkt _ IH]; [apply (fresh_good o w (input_of []) (λ _, None))|by apply handle_packet_good]. Qed.

(** Handles of an SFTP session.  In every state of a session that allows
    fewer than 2^64 - 1 handles, there are at most as many as allowed; a new
    handle is refused exactly when there are that many, and otherwise gets an
    id that no open handle has, which is what its eight bytes are read as. *)
Theorem sftp_handles o s x :
  reached o s → 0 ≤ max_handles o < IDS →
  Z.of_nat (size (handles s.1)) ≤ max_handles o ∧
  (Z.of_nat (size (handles s.1)) = max_handles o →
     alloc_handle x s = (SErr (SStatus FxFailure (bs "too many open handles")), s)) ∧
  (Z.of_nat (size (handles s.1)) < max_handles o →
     ∃ id nx, alloc_handle x s = (SOk (rev (be_bytes 8 id)), ({| opts := o; handles := <[id := x]> (handles s.1); next := nx |}, s.2)) ∧
       handles s.1 !! id = None ∧ ∀ s', parse_handle (rev (be_bytes 8 id)) s' = (SOk id, s')).
Proof.
  intros Hr Hm. apply reached_good in Hr as [Ho _ _ Hn Hs]. unfold alloc_handle, mbind, sftp_bind, get. rewrite Ho. split_and!; [lia| |].
  - intros E. rewrite (proj2 (Z.leb_le _ _)) by lia. done.
  - intros Hlt. rewrite (proj2 (Z.leb_gt _ _)) by lia.
    destruct (alloc_finds (W := Logged W) (handles s.1) (next s.1) Hn ltac:(lia)) as [[id nx] E]. rewrite E.
    destruct (alloc_some (W := Logged W) _ _ _ _ _ Hn E) as (Hnone & Hid & _). exists id, nx. split_and!; [done|done|].
    intros s'. unfold parse_handle, len. rewrite length_rev, length_be_bytes, rev_involutive. cbn.
    rewrite be_value_be_bytes_small; [done|]. change (256 ^ Z.of_nat 8) with (2 ^ 64). unfold id_ok, IDS in Hid. lia.
Qed.
End Theorems.
