(* ===== verification/SftpReplies.v ===== *)
(** * The answers of an SFTP session

    Every request is answered once, under its id and with a packet of a kind
    the client expects. *)
From S2P Require Import Prelude Wire WireLoop Text TextFacts SftpPacket SftpPacketFacts SftpPath SftpServer SftpServerFacts.

Section Replies.
Context {W : Type} `{!SftpOs W}.
Abbreviation M := (SftpM (W := W)).
Abbreviation St := (SftpServerSession (W := W) * W)%type.

(** ** Kinds of answers *)

Definition failed (e : SftpError) : Prop := match e with SStatus FxOk _ => False | _ => True end.

(** [m] answers with [Q], or fails with an error that is none of success. *)
Definition yields {A} (m : M A) (Q : A → Prop) : Prop :=
  ∀ s, match m s with (SOk a, _) => Q a | (SErr e, _) => failed e end.

Lemma yields_bind {A B} (m : M A) (f : A → M B) P Q : yields m P → (∀ a, P a → yields (f a) Q) → yields (m ≫= f) Q.
Proof. intros Hm Hf s. unfold mbind, sftp_bind. specialize (Hm s). destruct (m s) as [[a|e] s']; [by apply Hf|done]. Qed.
Lemma yields_then {A B} (m : M A) (f : A → M B) Q : yields m (λ _, True) → (∀ a, yields (f a) Q) → yields (m ≫= f) Q.
Proof. intros Hm Hf. eapply yields_bind; [done|auto]. Qed.
Lemma yields_ret {A} (a : A) (Q : A → Prop) : Q a → yields (mret a) Q.
Proof. by intros H s. Qed.
Lemma yields_throw {A} e (Q : A → Prop) : failed e → yields (throw e) Q.
Proof. by intros H s. Qed.
Lemma yields_status {A} code msg (Q : A → Prop) : code ≠ FxOk → yields (status_err code msg) Q.
Proof. intros H s. cbn. by destruct code. Qed.
Lemma yields_get : yields get (λ _, True).
Proof. done. Qed.
Lemma yields_put se : yields (put se) (λ _, True).
Proof. done. Qed.
Lemma yields_call {A} (c : Call File ReadDir DirEntry A) : yields (call c) (λ _, True).
Proof. intros s. unfold call. by destruct (exec c s.2). Qed.
Lemma yields_io {A} (r : io A) : yields (io_ok r) (λ _, True).
Proof. intros s. by destruct r. Qed.
Lemma yields_call_ok {A} (c : Call File ReadDir DirEntry (io A)) : yields (call_ok c) (λ _, True).
Proof. apply yields_then; [apply yields_call|apply yields_io]. Qed.
Lemma yields_sys {A} f (r : sys A) : (∀ e, failed (f e)) → yields (sys_ok f r) (λ _, True).
Proof. intros Hf s. destruct r; [done|apply Hf]. Qed.
Lemma yields_rd {A} (r : result A) : yields (rd r) (λ _, True).
Proof. intros s. destruct r as [a|e]; [done|]. cbn. by destruct e. Qed.
Lemma yields_attempt {A} (m : M A) : yields (attempt m) (λ _, True).
Proof. done. Qed.
Lemma yields_resolve raw : yields (sess_resolve raw) (λ _, True).
Proof.
  intros s. unfold sess_resolve, mbind, sftp_bind, get, of_result, resolve. cbn.
  destruct (utf8_valid raw); [|done]. destruct (root _); [by destruct (is_inside _ _)|done].
Qed.
Lemma yields_writable : yields require_writable (λ _, True).
Proof. apply yields_then; [done|]. intros se. destruct (read_only _); [by apply yields_status|done]. Qed.
Lemma yields_parse raw : yields (parse_handle raw) (λ _, True).
Proof. unfold parse_handle. destruct (len raw =? 8); [done|by apply yields_status]. Qed.
Lemma yields_handle h : yields (get_handle h) (λ _, True).
Proof. apply yields_then; [done|]. intros se. destruct (handles se !! h); [done|by apply yields_status]. Qed.
Lemma yields_alloc x : yields (alloc_handle x) (λ b, length b = 8%nat).
Proof.
  eapply yields_then; [done|]. intros se. destruct (_ <=? _); [by apply yields_status|].
  destruct (alloc_handle_loop _ _ _) as [[id nx]|]; [|by apply yields_status].
  apply yields_then; [done|]. intros _. apply yields_ret. by rewrite length_rev, length_be_bytes.
Qed.
Lemma yields_open p o : yields (std_open p o) (λ _, True).
Proof. unfold std_open. destruct (open_flags o); [apply yields_call|done]. Qed.
Lemma yields_reject p : yields (reject_symlink_when_jailed p) (λ _, True).
Proof.
  apply yields_then; [done|]. intros se. destruct (is_jailed se); [|done]. apply yields_then; [apply yields_call_ok|].
  intros md. destruct (is_symlink md); [by apply yields_status|done].
Qed.
Lemma map_open_failed e : failed (map_open_err e).
Proof. unfold map_open_err. destruct (io_errno e); [by destruct (_ || _)|done]. Qed.
Lemma errno_failed e : failed (errno_to_sftp e).
Proof. unfold errno_to_sftp. destruct (_ || _); [done|]. by destruct (_ =? _). Qed.
Lemma errno_msg_failed msg e : failed (errno_msg msg e).
Proof. unfold errno_msg, fxp_status_from_errno. destruct (_ =? _); [done|]. by destruct (_ || _). Qed.
Lemma yields_for_some {A} (o : option A) (f : A → M unit) : (∀ a, yields (f a) (λ _, True)) → yields (for_some o f) (λ _, True).
Proof. intros Hf. destruct o; [apply Hf|done]. Qed.

Local Ltac yield_step :=
  first
  [ apply yields_get | apply yields_put | apply yields_resolve | apply yields_writable | apply yields_parse | apply yields_handle
  | apply yields_call_ok | apply yields_call | apply yields_io | apply yields_rd | apply yields_reject | apply yields_open
  | apply yields_attempt
  | apply yields_sys; intros ?; first [apply errno_failed|apply errno_msg_failed]
  | apply yields_status; done
  | apply yields_throw; first [done|apply map_open_failed]
  | simple apply yields_then; [|intros ?]
  | apply yields_for_some; intros ? ].
Local Ltac yield := repeat yield_step.

Lemma yields_apply_attrs p a jl max special : yields (apply_attrs p a jl max special) (λ _, True).
Proof.
  unfold apply_attrs. apply yields_then; [apply yields_for_some; intros size|intros _; apply yields_then; [apply yields_for_some; intros mode|intros _; yield]].
  - unfold apply_size. destruct (max <? size); [yield|]. yield_step; [yield|]. destruct a0; yield.
  - unfold apply_mode. destruct jl; [|yield]. yield_step; [yield|]. destruct a0; [yield|].
    destruct (bool_decide _); [yield|]. yield_step; [yield|]. apply yields_sys. intros e. by destruct (_ || _).
Qed.
Lemma yields_session_attrs p a : yields (apply_session_attrs p a) (λ _, True).
Proof. unfold apply_session_attrs. yield_step; [yield|]. apply yields_apply_attrs. Qed.

(** ** What a request may be answered with *)

(** A status that is no success, or an answer that satisfies [P]. *)
Definition status_or (id : Z) (P : Packet → Prop) (reply : Packet) : Prop :=
  match reply with PStatus i code _ _ => i = id ∧ code ≠ FxOk | _ => P reply end.
Definition any_status (id : Z) (reply : Packet) : Prop := match reply with PStatus i _ _ _ => i = id | _ => False end.

Definition is_handle (id : Z) (p : Packet) : Prop := match p with PHandle i h => i = id ∧ length h = 8%nat | _ => False end.
Definition is_attrs (id : Z) (p : Packet) : Prop := match p with PAttrs i _ => i = id | _ => False end.
Definition is_names (id : Z) (p : Packet) : Prop := match p with PName i es => i = id ∧ es ≠ [] | _ => False end.
Definition is_data (id n : Z) (p : Packet) : Prop :=
  match p with PData i d => i = id ∧ d ≠ [] ∧ len d ≤ Z.max 0 n ∧ len d ≤ MAX_PACKET_SIZE / 2 | _ => False end.
Definition is_reply (id : Z) (p : Packet) : Prop :=
  match p with PExtendedReply i _ => i = id | PName i es => i = id ∧ es ≠ [] | PStatus i _ _ _ => i = id | _ => False end.

Definition answers (req reply : Packet) : Prop :=
  match req with
  | POpen id _ _ _ | POpendir id _ => status_or id (is_handle id) reply
  | PRead id _ _ n => status_or id (is_data id n) reply
  | PLstat id _ | PStat id _ | PFstat id _ => status_or id (is_attrs id) reply
  | PReaddir id _ | PRealpath id _ | PReadlink id _ => status_or id (is_names id) reply
  | PExtended id _ _ => is_reply id reply
  | PClose id _ | PWrite id _ _ _ | PSetstat id _ _ | PFsetstat id _ _ | PRemove id _ | PMkdir id _ _ | PRmdir id _
  | PRename id _ _ | PSymlink id _ _ => any_status id reply
  | _ => match reply with PStatus _ FxBadMessage _ _ => True | _ => False end
  end.

Lemma yields_mono {A} (m : M A) (P Q : A → Prop) : yields m P → (∀ a, P a → Q a) → yields m Q.
Proof. intros Hm H s. specialize (Hm s). destruct (m s) as [[a|e] s']; auto. Qed.

Lemma op_open_answers id path pflags attrs : yields (op_open id path pflags attrs) (status_or id (is_handle id)).
Proof.
  unfold op_open. yield_step; [yield|]. yield_step; [destruct (has_flag _ _); yield|].
  do 2 (yield_step; [yield|]). destruct a2 as [f|e]; [|yield].
  eapply yields_bind; [apply yields_alloc|]. intros b Hb. by apply yields_ret.
Qed.
Lemma op_opendir_answers id path : yields (op_opendir id path) (status_or id (is_handle id)).
Proof.
  unfold op_opendir. do 3 (yield_step; [yield|]). eapply yields_bind; [apply yields_alloc|]. intros b Hb. by apply yields_ret.
Qed.
Lemma op_close_answers id handle : yields (op_close id handle) (any_status id).
Proof.
  unfold op_close. do 2 (yield_step; [yield|]). destruct (handles _ !! _); [yield_step; [yield|]|]; by apply yields_ret.
Qed.
Lemma op_read_answers id handle offset n : yields (op_read id handle offset n) (status_or id (is_data id n)).
Proof.
  unfold op_read. do 2 (yield_step; [yield|]). destruct a0; [|by apply yields_ret]. yield_step; [yield|].
  set (cap := Z.min n (MAX_PACKET_SIZE / 2)).
  eapply (yields_bind _ _ (λ d, len d ≤ Z.max 0 cap)).
  - unfold read_upto. yield_step; [yield|]. apply yields_ret. unfold len. rewrite length_take. lia.
  - intros d Hd. destruct (is_nil d) eqn:E; [by apply yields_ret|]. apply yields_ret. split_and!; [done|by intros ->|lia|].
    unfold cap in Hd. assert (0 < MAX_PACKET_SIZE / 2) by done. lia.
Qed.
Lemma op_write_answers id handle offset data : yields (op_write id handle offset data) (any_status id).
Proof.
  unfold op_write. do 3 (yield_step; [yield|]). destruct a1 as [f p []|]; [| |by apply yields_ret].
  - do 2 (yield_step; [first [done|yield]|]). by apply yields_ret.
  - do 2 (yield_step; [yield|]). by apply yields_ret.
Qed.
Lemma op_stat_answers id path follow : yields (op_stat id path follow) (status_or id (is_attrs id)).
Proof. unfold op_stat. do 2 (yield_step; [yield|]). yield_step; [destruct (_ && _); yield|by apply yields_ret]. Qed.
Lemma op_fstat_answers id handle : yields (op_fstat id handle) (status_or id (is_attrs id)).
Proof.
  unfold op_fstat. do 3 (yield_step; [yield|]). yield_step; [|by apply yields_ret].
  destruct a1; [yield|]. destruct (is_jailed _); yield.
Qed.
Lemma op_setstat_answers id path attrs : yields (op_setstat id path attrs) (any_status id).
Proof. unfold op_setstat. do 2 (yield_step; [yield|]). yield_step; [apply yields_session_attrs|by apply yields_ret]. Qed.
Lemma op_fsetstat_answers id handle attrs : yields (op_fsetstat id handle attrs) (any_status id).
Proof. unfold op_fsetstat. do 3 (yield_step; [yield|]). yield_step; [apply yields_session_attrs|by apply yields_ret]. Qed.
Lemma yields_readdir_loop rounds it entries : yields (readdir_loop rounds it entries) (λ _, True).
Proof.
  revert entries. induction rounds as [|rounds IH]; intros entries; cbn [readdir_loop]; [by apply yields_ret|].
  yield_step; [yield|]. destruct a as [[de|e]|]; [|apply IH|by apply yields_ret]. yield_step; [yield|]. destruct a; apply IH.
Qed.
Lemma op_readdir_answers id handle : yields (op_readdir id handle) (status_or id (is_names id)).
Proof.
  unfold op_readdir. do 2 (yield_step; [yield|]). destruct a0 as [|it p []]; [by apply yields_ret..|].
  yield_step; [apply yields_readdir_loop|]. destruct a0 as [entries ended].
  yield_step; [destruct (ended || _); [unfold set_eof; yield|done]|].
  destruct entries; by apply yields_ret.
Qed.
Lemma op_remove_answers id path : yields (op_remove id path) (any_status id).
Proof. unfold op_remove. do 4 (yield_step; [yield|]). by apply yields_ret. Qed.
Lemma op_rmdir_answers id path : yields (op_rmdir id path) (any_status id).
Proof. unfold op_rmdir. do 4 (yield_step; [yield|]). by apply yields_ret. Qed.
Lemma op_mkdir_answers id path attrs : yields (op_mkdir id path attrs) (any_status id).
Proof. unfold op_mkdir. do 4 (yield_step; [yield|]). by apply yields_ret. Qed.
Lemma op_realpath_answers id path : yields (op_realpath id path) (status_or id (is_names id)).
Proof. unfold op_realpath. do 2 (yield_step; [yield|]). by apply yields_ret. Qed.
Lemma op_rename_answers id oldpath newpath : yields (op_rename id oldpath newpath) (any_status id).
Proof.
  unfold op_rename. do 5 (yield_step; [yield|]). yield_step; [destruct a3; [yield|done]|]. yield_step; [yield|].
  destruct a5; [by apply yields_ret|]. yield_step; [yield|]. by apply yields_ret.
Qed.
Lemma op_readlink_answers id path : yields (op_readlink id path) (status_or id (is_names id)).
Proof.
  unfold op_readlink. do 3 (yield_step; [yield|]). destruct (root _); [|by apply yields_ret]. destruct (is_absolute _).
  - destruct (negb _); [by apply yields_ret|]. destruct (hide_jail_in_realpath _); by apply yields_ret.
  - destruct (negb _); by apply yields_ret.
Qed.
Lemma op_symlink_answers id target link : yields (op_symlink id target link) (any_status id).
Proof.
  unfold op_symlink. do 2 (yield_step; [yield|]). destruct (negb _); [yield|]. yield_step; [yield|].
  destruct (_ && _); [by apply yields_ret|]. destruct (_ && _); [by apply yields_ret|]. yield_step; [yield|]. by apply yields_ret.
Qed.

(** *** Extensions *)

Lemma status_is_reply id reply : any_status id reply → is_reply id reply.
Proof. by destruct reply. Qed.
Lemma names_is_reply id reply : status_or id (is_names id) reply → is_reply id reply.
Proof. destruct reply; cbn; try done. by intros [? _]. Qed.
Lemma yields_names_of look ids : yields (names_of look ids) (λ _, True).
Proof. induction ids as [|i ids IH]; cbn [names_of]; [done|]. yield_step; [yield|]. yield_step; [apply IH|done]. Qed.
Lemma yields_home user : yields (home_in_jail user) (λ _, True).
Proof. unfold home_in_jail. do 2 (yield_step; [yield|]). destruct a; [|done]. by destruct (root _). Qed.
Lemma yields_copy_loop fuel rf wf roff woff left : yields (copy_loop fuel rf wf roff woff left) (λ _, True).
Proof.
  revert roff woff left. induction fuel as [|fuel IH]; intros roff woff left; cbn [copy_loop]; [done|].
  destruct (left <=? 0); [done|]. yield_step; [yield|]. yield_step; [unfold read_upto; yield_step; [yield|done]|].
  destruct (is_nil _); [done|]. do 2 (yield_step; [yield|]). apply IH.
Qed.

Lemma op_extended_answers id request data : yields (op_extended id request data) (is_reply id).
Proof.
  unfold op_extended. cbn zeta.
  repeat match goal with |- yields (if ?b then _ else _) _ => destruct b end; try by apply yields_ret.
  - unfold op_ext_posix_rename. do 7 (yield_step; [first [done|yield]|]).
    yield_step; [destruct a5; [yield|done]|]. yield_step; [yield|]. by apply yields_ret.
  - unfold op_ext_hardlink. do 7 (yield_step; [yield|]). by apply yields_ret.
  - unfold op_ext_fsync. do 3 (yield_step; [yield|]). destruct a1; [yield_step; [yield|]|]; by apply yields_ret.
  - unfold op_ext_statvfs. do 4 (yield_step; [yield|]). by apply yields_ret.
  - unfold op_ext_fstatvfs. do 3 (yield_step; [yield|]). yield_step; [destruct a1; yield|]. yield_step; [yield|]. by apply yields_ret.
  - unfold op_ext_users_groups_by_id. yield_step; [yield|]. destruct a as [uids r]. yield_step; [yield|].
    destruct (_ || _ || _); [by apply yields_ret|]. do 2 (yield_step; [apply yields_names_of|]). by apply yields_ret.
  - unfold op_ext_lsetstat. do 5 (yield_step; [yield|]). destruct (negb _).
    + yield_step; [yield|]. yield_step; [apply yields_apply_attrs|]. by apply yields_ret.
    + destruct (_ || _); [by apply yields_ret|]. do 2 (yield_step; [yield|]). by apply yields_ret.
  - unfold op_ext_expand_path. yield_step; [yield|]. destruct (strip_prefix _ _) as [rest|].
    + destruct (match split_once SLASH rest with Some p => p | None => (rest, []) end) as [user tail].
      yield_step; [apply yields_home|]. destruct a0; [|yield]. eapply yields_mono; [apply op_realpath_answers|apply names_is_reply].
    + eapply yields_mono; [apply op_realpath_answers|apply names_is_reply].
  - unfold op_ext_copy_data. do 9 (yield_step; [yield|]). destruct (handles _ !! _) as [[]|]; [|by apply yields_ret..].
    destruct (handles _ !! _) as [[]|]; [|by apply yields_ret..]. unfold copy_between. do 2 (yield_step; [yield|]).
    destruct (_ || _); [by apply yields_ret|]. destruct (negb _); [by apply yields_ret|]. do 2 (yield_step; [yield|]).
    yield_step; [apply yields_copy_loop|]. by apply yields_ret.
  - unfold op_ext_home_directory. yield_step; [yield|]. yield_step; [apply yields_home|]. destruct a0; [|by apply yields_ret].
    eapply yields_mono; [apply op_realpath_answers|apply names_is_reply].
Qed.

(** ** Requests and sessions *)

Definition is_request (p : Packet) : bool :=
  match p with
  | PInit _ _ | PVersion _ _ | PStatus _ _ _ _ | PHandle _ _ | PData _ _ | PName _ _ | PAttrs _ _ | PExtendedReply _ _ => false
  | _ => true
  end.

Lemma dispatch_answers pkt : is_request pkt = true → yields (dispatch pkt) (answers pkt).
Proof.
  destruct pkt; try done; intros _; cbn [dispatch answers];
    auto using op_open_answers, op_opendir_answers, op_close_answers, op_read_answers, op_write_answers, op_stat_answers,
      op_fstat_answers, op_setstat_answers, op_fsetstat_answers, op_readdir_answers, op_remove_answers, op_rmdir_answers,
      op_mkdir_answers, op_realpath_answers, op_rename_answers, op_readlink_answers, op_symlink_answers, op_extended_answers.
Qed.

Lemma error_status id e : failed e → ∃ code msg, status_from_err id e = PStatus id code msg [] ∧ code ≠ FxOk.
Proof.
  destruct e as [e|s|s|code msg]; cbn; intros Hf; eexists _, _; (split; [done|]); try done.
  - unfold status_from_io. by destruct (io_kind e).
  - by destruct code.
Qed.

Lemma handle_packet_answers pkt s : answers pkt (handle_packet pkt s).1.
Proof.
  unfold handle_packet. destruct (is_request pkt) eqn:Hr.
  - pose proof (dispatch_answers pkt Hr s) as H. destruct (dispatch pkt s) as [[reply|e] s']; [done|]. cbn [fst].
    destruct (error_status (default 0 (packet_id pkt)) e H) as (code & msg & -> & Hc). by destruct pkt.
  - by destruct pkt.
Qed.

(** The states of a session, from request to request. *)
Fixpoint session_replies (reqs : list Packet) (s : St) : list Packet :=
  match reqs with
  | [] => []
  | req :: reqs => let (reply, s') := handle_packet req s in reply :: session_replies reqs s'
  end.

Lemma serve_loop_frames reqs (v : Served) fuel :
  Forall frame_ok reqs → (∀ i, sv_write_fails v i = None) → (length reqs < fuel)%nat →
  sv_input v = input_of (concat (packet_encode <$> reqs)) →
  ∃ v', serve_loop fuel v = (Some (SOk tt), v') ∧ sv_out v' = sv_out v ++ session_replies reqs (sv_state v).
Proof.
  intros Hok. revert v fuel. induction Hok as [|p reqs Hp _ IH]; intros v fuel Hw Hf Ei;
    (destruct fuel as [|fuel]; [cbn in Hf; lia|]); cbn [serve_loop session_replies]; unfold serve_step; rewrite Ei; cbn [fmap list_fmap concat].
  - eexists. split; [done|]. cbn. by rewrite app_nil_r.
  - destruct (read_frame p (concat (packet_encode <$> reqs)) Hp) as [-> ->].
    cbn [sftp_from_result sv_state served]. destruct (handle_packet p (sv_state v)) as [reply s'].
    unfold serve_write. cbn [sv_write_fails served sv_out sv_input]. rewrite Hw. cbn [sv_state served].
    edestruct (IH (served (input_of (concat (packet_encode <$> reqs))) (sv_out v ++ [reply]) (sv_write_fails v) s') fuel)
      as (v' & -> & Ho); [done|cbn in Hf; lia|done|].
    exists v'. split; [done|]. cbn in Ho. by rewrite Ho, <- app_assoc.
Qed.

Lemma session_replies_answer reqs s : Forall2 answers reqs (session_replies reqs s).
Proof.
  revert s. induction reqs as [|req reqs IH]; intros s; cbn [session_replies]; [constructor|].
  pose proof (handle_packet_answers req s) as H. destruct (handle_packet req s) as [reply s']. constructor; [done|apply IH].
Qed.

(** C34: an SFTP session answers every request, in order.  On the bytes of an
    INIT and of any well-formed packets after it, the session writes its
    VERSION and then one packet for each of them, under the same id and of a
    kind that answers it (data of at most the length asked for, a handle of
    eight bytes, a status that is no success, ...), and returns when the client
    hangs up. *)
Theorem sftp_answers (s : St) version exts reqs fails :
  3 ≤ version → frame_ok (PInit version exts) → Forall frame_ok reqs → (∀ i, fails i = None) →
  ∃ v' replies,
    run (served (input_of (concat (packet_encode <$> PInit version exts :: reqs))) [] fails s) = (Some (SOk tt), v') ∧
    sv_out v' = VERSION_REPLY :: replies ∧ Forall2 answers reqs replies.
Proof.
  intros Hv Hi Hr Hw. unfold run. cbn [sv_input served fmap list_fmap concat].
  destruct (read_frame _ (concat (packet_encode <$> reqs)) Hi) as [-> ->]. cbn [sftp_from_result].
  rewrite (proj2 (Z.ltb_ge _ _)) by done. unfold serve_write. cbn [sv_write_fails served sv_out]. rewrite Hw.
  cbn [sv_input served app sv_state].
  edestruct (serve_loop_frames reqs) as (v' & -> & Ho); [done| | | |exists v', (session_replies reqs s); split_and!]; try done.
  - cbn [input_of i_bytes]. pose proof (frames_length reqs). lia.
  - apply session_replies_answer.
Qed.

(** ** The names a jailed session tells *)

(** The answer to REALPATH for a path [p] of the jail [jail]. *)
Definition told (jail p : Abs) : bytes := abs_bytes (drop (length jail) p).

End Replies.
