(* ===== verification/SftpClient.v ===== *)
(** * The SFTP client (src/sftp/client.rs)

    A client is its transport (the bytes that will arrive, the packets written
    and the writes that fail), its id counter and what the server said of
    itself.  [read_to] and [write_from] keep several requests in flight. *)
From S2P Require Import Prelude Wire WireLoop Text TextFacts SftpPacket.

Record SftpClient := {
  c_in : Input;
  c_out : list Packet;
  c_fails : nat → option IoError;
  c_next_id : Z;
  c_extensions : Extensions;
  c_server_version : Z
}.
#[export] Instance SftpClient_eta : Etable SftpClient := fun c => {|
  c_in := c_in c; c_out := c_out c; c_fails := c_fails c; c_next_id := c_next_id c; c_extensions := c_extensions c;
  c_server_version := c_server_version c |}.

Definition ClientM (A : Type) : Type := SftpClient → sftp_result A * SftpClient.
#[export] Instance client_ret : MRet ClientM := λ A a c, (SOk a, c).
#[export] Instance client_bind : MBind ClientM := λ A B f m c,
  match m c with (SOk a, c) => f a c | (SErr e, c) => (SErr e, c) end.
Definition c_throw {A} (e : SftpError) : ClientM A := λ c, (SErr e, c).
Definition c_result {A} (r : sftp_result A) : ClientM A := λ c, (r, c).

(** [write_packet(&mut self.transport, &pkt)], [read_packet(..)] and [Packet::decode]. *)
Definition c_write (p : Packet) : ClientM unit := λ c,
  match c_fails c (length (c_out c)) with
  | Some e => (SErr (SIo e), c)
  | None => (SOk tt, c <| c_out := c_out c ++ [p] |>)
  end.
Definition c_read : ClientM Packet := λ c,
  let (r, i) := read_packet (c_in c) in
  let c := c <| c_in := i |> in
  match r with SOk body => (sftp_from_result (packet_decode body), c) | SErr e => (SErr e, c) end.

Definition transport (i : Input) (fails : nat → option IoError) : SftpClient :=
  {| c_in := i; c_out := []; c_fails := fails; c_next_id := 1; c_extensions := []; c_server_version := 0 |}.

(** [SftpClient::new] on a transport. *)
Definition client_new : ClientM unit :=
  _ ← c_write (PInit SFTP_VERSION []);
  p ← c_read;
  match p with
  | PVersion version extensions =>
      if version <? 3 then c_throw (SProtocol "sftp: server version < 3")
      else λ c, (SOk tt, c <| c_next_id := 1 |> <| c_extensions := extensions |> <| c_server_version := version |>)
  | _ => c_throw (SProtocol "sftp: expected VERSION")
  end.

Definition client_next_id : ClientM Z := λ c,
  (SOk (c_next_id c), c <| c_next_id := Z.max (wrap32 (c_next_id c + 1)) 1 |>).

Definition set_id (p : Packet) (id : Z) : Packet :=
  match p with
  | POpen _ path pflags attrs => POpen id path pflags attrs
  | PClose _ handle => PClose id handle
  | PRead _ handle offset n => PRead id handle offset n
  | PWrite _ handle offset data => PWrite id handle offset data
  | PLstat _ path => PLstat id path
  | PFstat _ handle => PFstat id handle
  | PSetstat _ path attrs => PSetstat id path attrs
  | PFsetstat _ handle attrs => PFsetstat id handle attrs
  | POpendir _ path => POpendir id path
  | PReaddir _ handle => PReaddir id handle
  | PRemove _ path => PRemove id path
  | PMkdir _ path attrs => PMkdir id path attrs
  | PRmdir _ path => PRmdir id path
  | PRealpath _ path => PRealpath id path
  | PStat _ path => PStat id path
  | PRename _ oldpath newpath => PRename id oldpath newpath
  | PReadlink _ path => PReadlink id path
  | PSymlink _ target_path link_path => PSymlink id target_path link_path
  | PExtended _ request data => PExtended id request data
  | p => p
  end.

(** Send a request without waiting for its reply. *)
Definition send (p : Packet) : ClientM Z :=
  id ← client_next_id;
  _ ← c_write (set_id p id);
  mret id.

Definition recv : ClientM (Z * Packet) :=
  resp ← c_read;
  match packet_id resp with
  | Some id => mret (id, resp)
  | None => c_throw (SProtocol "sftp: reply without an id")
  end.

Definition request (p : Packet) : ClientM Packet :=
  id ← send p;
  resp ← c_read;
  match packet_id resp with
  | Some rid => if rid =? id then mret resp else c_throw (SProtocol "sftp: response id mismatch")
  | None => c_throw (SProtocol "sftp: response id mismatch")
  end.

(** ** One request at a time *)

Definition lossy (m : bytes) : bytes := concat (lossy_chars m).
Definition expect_handle (p : Packet) : sftp_result bytes :=
  match p with
  | PHandle _ handle => SOk handle
  | PStatus _ code message _ => SErr (SStatus code (lossy message))
  | _ => SErr (SProtocol "sftp: expected HANDLE")
  end.
Definition expect_ok (p : Packet) : sftp_result unit :=
  match p with
  | PStatus _ FxOk _ _ => SOk tt
  | PStatus _ code message _ => SErr (SStatus code (lossy message))
  | _ => SErr (SProtocol "sftp: expected STATUS")
  end.
Definition expect_attrs (p : Packet) : sftp_result Attrs :=
  match p with
  | PAttrs _ attrs => SOk attrs
  | PStatus _ code message _ => SErr (SStatus code (lossy message))
  | _ => SErr (SProtocol "sftp: expected ATTRS")
  end.
Definition expect_name (p : Packet) : sftp_result bytes :=
  match p with
  | PName _ (e :: _) => SOk (filename e)
  | PStatus _ code message _ => SErr (SStatus code (lossy message))
  | _ => SErr (SProtocol "sftp: expected NAME")
  end.
Definition expect_data (p : Packet) : sftp_result bytes :=
  match p with
  | PData _ data => SOk data
  | PStatus _ FxEof _ _ => SOk []
  | PStatus _ code message _ => SErr (SStatus code (lossy message))
  | _ => SErr (SProtocol "sftp: expected DATA or STATUS")
  end.
Definition expect_entries (p : Packet) : sftp_result (option (list NameEntry)) :=
  match p with
  | PName _ entries => SOk (Some entries)
  | PStatus _ FxEof _ _ => SOk None
  | PStatus _ code message _ => SErr (SStatus code (lossy message))
  | _ => SErr (SProtocol "sftp: expected NAME or STATUS")
  end.

Definition ask {A} (p : Packet) (expect : Packet → sftp_result A) : ClientM A := resp ← request p; c_result (expect resp).

Definition client_open (path : bytes) (pflags : Z) (attrs : Attrs) : ClientM bytes := ask (POpen 0 path pflags attrs) expect_handle.
Definition client_close (handle : bytes) : ClientM unit := ask (PClose 0 handle) expect_ok.
Definition client_read (handle : bytes) (offset n : Z) : ClientM bytes := ask (PRead 0 handle offset n) expect_data.
Definition client_write (handle : bytes) (offset : Z) (data : bytes) : ClientM unit := ask (PWrite 0 handle offset data) expect_ok.
Definition client_stat (path : bytes) : ClientM Attrs := ask (PStat 0 path) expect_attrs.
Definition client_lstat (path : bytes) : ClientM Attrs := ask (PLstat 0 path) expect_attrs.
Definition client_fstat (handle : bytes) : ClientM Attrs := ask (PFstat 0 handle) expect_attrs.
Definition client_setstat (path : bytes) (attrs : Attrs) : ClientM unit := ask (PSetstat 0 path attrs) expect_ok.
Definition client_fsetstat (handle : bytes) (attrs : Attrs) : ClientM unit := ask (PFsetstat 0 handle attrs) expect_ok.
Definition client_opendir (path : bytes) : ClientM bytes := ask (POpendir 0 path) expect_handle.
Definition client_readdir (handle : bytes) : ClientM (option (list NameEntry)) := ask (PReaddir 0 handle) expect_entries.
Definition client_mkdir (path : bytes) (attrs : Attrs) : ClientM unit := ask (PMkdir 0 path attrs) expect_ok.
Definition client_rmdir (path : bytes) : ClientM unit := ask (PRmdir 0 path) expect_ok.
Definition client_remove (path : bytes) : ClientM unit := ask (PRemove 0 path) expect_ok.
Definition client_rename (oldpath newpath : bytes) : ClientM unit := ask (PRename 0 oldpath newpath) expect_ok.
Definition client_realpath (path : bytes) : ClientM bytes := ask (PRealpath 0 path) expect_name.
Definition client_symlink (target_path link_path : bytes) : ClientM unit := ask (PSymlink 0 target_path link_path) expect_ok.
Definition client_readlink (path : bytes) : ClientM bytes := ask (PReadlink 0 path) expect_name.

(** ** Extensions *)

Definition has_extension (name : string) (c : SftpClient) : bool := List.existsb (λ e, bytes_eqb e.1 (bs name)) (c_extensions c).

Definition expect_extended (p : Packet) : sftp_result (option bytes) :=
  match p with
  | PExtendedReply _ data => SOk (Some data)
  | other => match expect_ok other with SOk _ => SOk None | SErr e => SErr e end
  end.
Definition extended (name : string) (data : bytes) : ClientM (option bytes) := ask (PExtended 0 (bs name) data) expect_extended.
Definition extended_ (name : string) (data : bytes) : ClientM unit := _ ← extended name data; mret tt.

Definition client_posix_rename (oldpath newpath : bytes) : ClientM unit :=
  extended_ "posix-rename@openssh.com" (str_enc oldpath ++ str_enc newpath).
Definition client_copy_data (read_handle : bytes) (read_offset n : Z) (write_handle : bytes) (write_offset : Z) : ClientM unit :=
  extended_ "copy-data"
    (str_enc read_handle ++ be_bytes 8 read_offset ++ be_bytes 8 n ++ str_enc write_handle ++ be_bytes 8 write_offset).
Definition client_hardlink (oldpath newpath : bytes) : ClientM unit :=
  extended_ "hardlink@openssh.com" (str_enc oldpath ++ str_enc newpath).
Definition client_lsetstat (path : bytes) (attrs : Attrs) : ClientM unit :=
  extended_ "lsetstat@openssh.com" (str_enc path ++ into_vec (encode_attrs attrs writer_new)).
Definition client_fsync (handle : bytes) : ClientM unit := extended_ "fsync@openssh.com" (str_enc handle).

Definition name_list (n : nat) (r : Reader) : sftp_result (list bytes * Reader) :=
  match read_string r with
  | Ok (blob, r) =>
      match read_n read_string n (reader_new blob) with
      | Ok (l, _) => SOk (l, r)
      | Err _ => SErr (SFormat "sftp: bad name list")
      end
  | Err _ => SErr (SFormat "sftp: bad name list")
  end.
Definition pack_ids (ids : list Z) : bytes := concat (be_bytes 4 <$> ids).
Definition client_users_groups_by_id (uids gids : list Z) : ClientM (list bytes * list bytes) :=
  reply ← extended "users-groups-by-id@openssh.com" (str_enc (pack_ids uids) ++ str_enc (pack_ids gids));
  match reply with
  | None => c_throw (SProtocol "sftp: users-groups-by-id without a reply")
  | Some data =>
      x ← c_result (name_list (length uids) (reader_new data));
      y ← c_result (name_list (length gids) (x : list bytes * Reader).2);
      mret (x.1, (y : list bytes * Reader).1)
  end.

Definition client_statvfs (path : bytes) : ClientM (list Z) :=
  reply ← extended "statvfs@openssh.com" (str_enc path);
  match reply with
  | None => c_throw (SProtocol "sftp: statvfs without a reply")
  | Some data =>
      if len data <? 88 then c_throw (SProtocol "sftp: short statvfs reply")
      else mret ((λ i, be_value (slice data (i * 8) (i * 8 + 8))) <$> [0; 1; 2; 3; 4; 5; 6; 7; 8; 9; 10])
  end.

(** Read replies to outstanding requests and discard them. *)
Fixpoint drain (outstanding : nat) (c : SftpClient) : SftpClient :=
  match outstanding with
  | O => c
  | Datatypes.S n => match recv c with (SOk _, c) => drain n c | (SErr _, c) => c end
  end.
(** [self.drain(n); return Err(e)] *)
Definition drained {A} (n : nat) (e : SftpError) : ClientM A := λ c, (SErr e, drain n c).

(** ** Downloads *)

Record ReadTo := {
  rt_outstanding : gmap Z (Z * Z);      (* id: offset and length *)
  rt_received : gmap Z bytes;           (* offset: data *)
  rt_next : Z;
  rt_written : Z;
  rt_eof : option Z;
  rt_sink : list bytes                  (* the writes to the sink *)
}.
#[export] Instance ReadTo_eta : Etable ReadTo := fun r => {|
  rt_outstanding := rt_outstanding r; rt_received := rt_received r; rt_next := rt_next r; rt_written := rt_written r;
  rt_eof := rt_eof r; rt_sink := rt_sink r |}.

Section ReadTo.
Context (handle : bytes) (offset chunk depth : Z) (sink_fails : nat → option IoError).

Definition read_window : Z := wrap64 (depth * chunk).

(** [eof.is_none_or(|e| x < e)] *)
Definition before_eof (x : Z) (st : ReadTo) : bool := match rt_eof st with None => true | Some e => x <? e end.

Definition may_send (st : ReadTo) : bool :=
  (Z.of_nat (size (rt_outstanding st)) <? depth) && (wrap64 (rt_next st - rt_written st) <? read_window)
    && before_eof (rt_next st) st.

(** Every turn moves [next] a chunk ahead, and [depth] chunks fill the window. *)
Fixpoint read_fill (fuel : nat) (st : ReadTo) : ClientM ReadTo :=
  match fuel with
  | O => mret st
  | Datatypes.S fuel =>
      if may_send st then
        id ← send (PRead 0 handle (rt_next st) chunk);
        read_fill fuel (st <| rt_outstanding := <[id := (rt_next st, chunk)]> (rt_outstanding st) |>
                           <| rt_next := wrap64 (rt_next st + chunk) |>)
      else mret st
  end.

(** [while let Some(data) = received.remove(&written)]: every turn removes one. *)
Fixpoint read_flush (fuel : nat) (st : ReadTo) : ClientM ReadTo :=
  match fuel with
  | O => mret st
  | Datatypes.S fuel =>
      match rt_received st !! rt_written st with
      | None => mret st
      | Some data =>
          match sink_fails (length (rt_sink st)) with
          | Some e => drained (size (rt_outstanding st)) (SIo e)
          | None =>
              read_flush fuel (st <| rt_received := delete (rt_written st) (rt_received st) |>
                                  <| rt_sink := rt_sink st ++ [data] |>
                                  <| rt_written := wrap64 (rt_written st + len data) |>)
          end
      end
  end.

(** The reply [resp] to the request for [n] bytes at [off], which has been
    taken out of the outstanding ones. *)
Definition read_reply (resp : Packet) (off n : Z) (st : ReadTo) : ClientM ReadTo :=
  let stop e := drained (size (rt_outstanding st)) e in
  let at_eof := mret (st <| rt_eof := Some (match rt_eof st with None => off | Some e => Z.min e off end) |>) in
  match resp with
  | PData _ data =>
      if is_nil data then at_eof else
      let got := len data in
      if n <? got then stop (SProtocol "sftp: oversized DATA") else
      st ← (if (got <? n) && before_eof (off + got) st then
              id ← send (PRead 0 handle (off + got) (n - got));
              mret (st <| rt_outstanding := <[id := (off + got, n - got)]> (rt_outstanding st) |>)
            else mret st);
      mret (st <| rt_received := <[off := data]> (rt_received st) |>)
  | PStatus _ FxEof _ _ => at_eof
  | PStatus _ code message _ => stop (SStatus code (lossy message))
  | _ => stop (SProtocol "sftp: expected DATA or STATUS")
  end.

Definition read_round (st : ReadTo) : ClientM ReadTo :=
  x ← recv;
  let (id, resp) := (x : Z * Packet) in
  match rt_outstanding st !! id with
  | None => drained (size (rt_outstanding st)) (SProtocol "sftp: unexpected reply id")
  | Some (off, n) =>
      st ← read_reply resp off n (st <| rt_outstanding := delete id (rt_outstanding st) |>);
      read_flush (Datatypes.S (size (rt_received st))) st
  end.

Fixpoint read_loop (fuel : nat) (st : ReadTo) : ClientM ReadTo :=
  match fuel with
  | O => c_throw (SProtocol "loop bound")
  | Datatypes.S fuel =>
      st ← read_fill (Datatypes.S (Z.to_nat depth)) st;
      if decide (rt_outstanding st = ∅) then mret st
      else st ← read_round st; read_loop fuel st
  end.
End ReadTo.

(** [read_to]: the bytes copied and the writes to the sink. *)
Definition read_to (handle : bytes) (offset chunk depth : Z) (sink_fails : nat → option IoError) : ClientM (Z * list bytes) :=
  let chunk := Z.max chunk 1 in
  let depth := Z.max depth 1 in
  let st := {| rt_outstanding := ∅; rt_received := ∅; rt_next := offset; rt_written := offset; rt_eof := None; rt_sink := [] |} in
  st ← (λ c, read_loop handle chunk depth sink_fails (Datatypes.S (length (i_bytes (c_in c)))) st c);
  if decide (rt_received st = ∅) then mret (wrap64 (rt_written st - offset), rt_sink st)
  else c_throw (SProtocol "sftp: gap in file data").

(** ** Uploads *)

(** What [src] yields: bytes, and the error it ends with, if it does. *)
Record WriteFrom := {
  wf_src : bytes;
  wf_src_end : option IoError;
  wf_outstanding : list (Z * Z);        (* id and length *)
  wf_next : Z;
  wf_acked : Z;
  wf_done : bool
}.
#[export] Instance WriteFrom_eta : Etable WriteFrom := fun w => {|
  wf_src := wf_src w; wf_src_end := wf_src_end w; wf_outstanding := wf_outstanding w; wf_next := wf_next w;
  wf_acked := wf_acked w; wf_done := wf_done w |}.

(** [v.swap_remove(pos)] *)
Definition swap_remove {A} (pos : nat) (l : list A) : list A :=
  match list.last l with
  | Some x => if Nat.eqb (Datatypes.S pos) (length l) then removelast l else removelast (<[pos := x]> l)
  | None => []
  end.
(** [v.iter().position(|(i, _)| *i == id)] and the element. *)
Fixpoint position (id : Z) (l : list (Z * Z)) (pos : nat) : option (nat * Z) :=
  match l with
  | [] => None
  | (i, n) :: l => if i =? id then Some (pos, n) else position id l (Datatypes.S pos)
  end.

Section WriteFrom.
Context (handle : bytes) (chunk depth : Z).

(** Every turn but the last sends a request, and there is room for [depth]. *)
Fixpoint write_fill (fuel : nat) (w : WriteFrom) : ClientM WriteFrom :=
  match fuel with
  | O => mret w
  | Datatypes.S fuel =>
      if negb (wf_done w) && (len (wf_outstanding w) <? depth) then
        match wf_src_end w with
        | Some e => if len (wf_src w) <? chunk then drained (length (wf_outstanding w)) (SIo e) else mret w
        | None => mret w
        end ≫= λ w,
        let data := take (Z.to_nat chunk) (wf_src w) in
        if is_nil data then mret (w <| wf_done := true |>) else
        id ← send (PWrite 0 handle (wf_next w) data);
        write_fill fuel (w <| wf_src := drop (Z.to_nat chunk) (wf_src w) |>
                           <| wf_outstanding := wf_outstanding w ++ [(id, len data)] |>
                           <| wf_next := wrap64 (wf_next w + len data) |>
                           <| wf_done := len data <? chunk |>)
      else mret w
  end.

Definition write_round (w : WriteFrom) : ClientM WriteFrom :=
  x ← recv;
  let (id, resp) := (x : Z * Packet) in
  match position id (wf_outstanding w) 0 with
  | None => drained (length (wf_outstanding w)) (SProtocol "sftp: unexpected reply id")
  | Some (pos, n) =>
      let w := w <| wf_outstanding := swap_remove pos (wf_outstanding w) |> in
      match expect_ok resp with
      | SErr e => drained (length (wf_outstanding w)) e
      | SOk _ => mret (w <| wf_acked := wrap64 (wf_acked w + n) |>)
      end
  end.

Fixpoint write_loop (fuel : nat) (w : WriteFrom) : ClientM WriteFrom :=
  match fuel with
  | O => c_throw (SProtocol "loop bound")
  | Datatypes.S fuel =>
      w ← write_fill (Datatypes.S (Z.to_nat depth)) w;
      if is_nil (wf_outstanding w) then mret w else w ← write_round w; write_loop fuel w
  end.
End WriteFrom.

Definition write_from (handle : bytes) (offset chunk depth : Z) (src : bytes) (src_end : option IoError) : ClientM Z :=
  let chunk := Z.max chunk 1 in
  let depth := Z.max depth 1 in
  let w := {| wf_src := src; wf_src_end := src_end; wf_outstanding := []; wf_next := offset; wf_acked := 0; wf_done := false |} in
  w ← (λ c, write_loop handle chunk depth (Datatypes.S (length (i_bytes (c_in c)))) w c);
  mret (wrap64 (wf_next w - offset)).
