(* ===== verification/SftpDownload.v ===== *)
(** * SFTP downloads are complete

    [read_to] keeps several reads in flight.  Whatever order the server answers
    them in, and however little it answers each time, the file arrives whole.
    The server's session gives such answers when its files are read as the
    operating system documents it ([FileLaws]). *)
From S2P Require Import Prelude Wire WireLoop Text TextFacts SftpPacket SftpPacketFacts SftpClient.

(** ** Pieces of a range

    The requests in flight and the data that waits are pieces of the range from
    what was written to what was asked for.  They do not overlap, and they cover
    of the range what the file has. *)

Definition piece : Type := (Z * Z)%type.       (* from, to *)
Definition disjoint_pieces (p q : piece) : Prop := p.2 ≤ q.1 ∨ q.2 ≤ p.1.

Lemma pairs_perm {A} (R : A → A → Prop) `{!Symmetric R} l l' : l ≡ₚ l' → ForallOrdPairs R l → ForallOrdPairs R l'.
Proof.
  induction 1 as [|x l l' Hp IH|x y l|l1 l2 l3 _ IH1 _ IH2]; intros H; [done| | |auto].
  - inversion H; subst. constructor; [by rewrite <- Hp|by apply IH].
  - inversion H as [|? ? Hy H']; subst. inversion H' as [|? ? Hx H'']; subst. inversion Hy; subst.
    constructor; [constructor; [by symmetry|done]|by constructor].
Qed.
#[local] Instance disjoint_sym : Symmetric disjoint_pieces.
Proof. unfold disjoint_pieces. intros p q. tauto. Qed.

Record tiles (size lo hi : Z) (l : list piece) : Prop := {
  tl_apart : ForallOrdPairs disjoint_pieces l;
  tl_within : Forall (λ p, lo ≤ p.1 < p.2 ∧ p.2 ≤ hi) l;
  tl_cover : ∀ x, lo ≤ x < hi → x < size → ∃ p, p ∈ l ∧ p.1 ≤ x < p.2
}.

Lemma tiles_perm size lo hi l l' : l ≡ₚ l' → tiles size lo hi l → tiles size lo hi l'.
Proof.
  intros Hp [H1 H2 H3]. split; [eapply pairs_perm; [apply _|exact Hp|done]|by rewrite <- Hp|].
  intros x Hx Hs. destruct (H3 x Hx Hs) as (p & Hin & Hpx). exists p. by rewrite <- Hp.
Qed.
Lemma tiles_head size lo hi p l q : tiles size lo hi (p :: l) → q ∈ l → disjoint_pieces p q.
Proof. intros [H _ _] Hq. inversion H as [|? ? Hp _]; subst. by apply (proj1 (list.Forall_forall _ _) Hp). Qed.

Lemma tiles_head_in size lo hi a b l : tiles size lo hi ((a, b) :: l) → lo ≤ a < b ∧ b ≤ hi.
Proof. intros [_ H _]. inversion H. done. Qed.

(** A request at the end of the range. *)
Lemma tiles_grow size lo hi hi' l : lo ≤ hi < hi' → tiles size lo hi l → tiles size lo hi' ((hi, hi') :: l).
Proof.
  intros Hh [H1 H2 H3]. split.
  - constructor; [|done]. eapply list.Forall_impl; [exact H2|]. cbn. intros p Hp. right. cbn. lia.
  - constructor; [cbn; lia|]. eapply list.Forall_impl; [exact H2|]. cbn. intros p Hp. lia.
  - intros x Hx Hs. destruct (decide (x < hi)) as [Hlt|Hge].
    + destruct (H3 x ltac:(lia) Hs) as (p & Hin & Hp). exists p. split; [by right|done].
    + exists (hi, hi'). split; [by left|cbn; lia].
Qed.
(** A piece falls in two. *)
Lemma tiles_split size lo hi a b c l : a < b < c → tiles size lo hi ((a, c) :: l) → tiles size lo hi ((a, b) :: (b, c) :: l).
Proof.
  intros Hb [H1 H2 H3]. inversion H1 as [|? ? Ha H1']; subst. inversion H2 as [|? ? Hac H2']; subst. cbn in Hac. split.
  - constructor; [constructor; [left; cbn; lia|]|constructor; [|done]].
    + eapply list.Forall_impl; [exact Ha|]. unfold disjoint_pieces. cbn. intros p Hp. lia.
    + eapply list.Forall_impl; [exact Ha|]. unfold disjoint_pieces. cbn. intros p Hp. lia.
  - repeat (constructor; [cbn; lia|]). done.
  - intros x Hx Hs. destruct (H3 x Hx Hs) as (p & [->|Hin]%elem_of_cons & Hp).
    + destruct (decide (x < b)); [exists (a, b)|exists (b, c)]; (split; [set_solver|cbn in *; lia]).
    + exists p. split; [set_solver|done].
Qed.
(** The end of a piece is past the end of the file. *)
Lemma tiles_cut size lo hi a b c l : a < b ≤ c → (b < c → size ≤ b) → tiles size lo hi ((a, c) :: l) → tiles size lo hi ((a, b) :: l).
Proof.
  intros Hb Hs [H1 H2 H3]. inversion H1 as [|? ? Ha H1']; subst. inversion H2 as [|? ? Hac H2']; subst. cbn in Hac. split.
  - constructor; [|done]. eapply list.Forall_impl; [exact Ha|]. unfold disjoint_pieces. cbn. intros p Hp. lia.
  - constructor; [cbn; lia|done].
  - intros x Hx Hsx. destruct (H3 x Hx Hsx) as (p & [->|Hin]%elem_of_cons & Hp).
    + exists (a, b). split; [by left|]. cbn in *. lia.
    + exists p. split; [by right|done].
Qed.
(** A piece past the end of the file. *)
Lemma tiles_drop size lo hi a b l : size ≤ a → tiles size lo hi ((a, b) :: l) → tiles size lo hi l.
Proof.
  intros Hs [H1 H2 H3]. inversion H1; subst. inversion H2; subst. split; [done|done|].
  intros x Hx Hsx. destruct (H3 x Hx Hsx) as (p & [->|Hin]%elem_of_cons & Hp); [cbn in *; lia|]. by exists p.
Qed.
(** The first piece is done. *)
Lemma tiles_advance size lo hi b l : tiles size lo hi ((lo, b) :: l) → tiles size b hi l.
Proof.
  intros [H1 H2 H3]. inversion H1 as [|? ? Ha H1']; subst. inversion H2 as [|? ? Hb H2']; subst. cbn in Hb. split.
  - done.
  - apply list.Forall_forall. intros p Hp. pose proof (proj1 (list.Forall_forall _ _) Ha p Hp) as Hd.
    pose proof (proj1 (list.Forall_forall _ _) H2' p Hp) as Hw. unfold disjoint_pieces in Hd. cbn in *. lia.
  - intros x Hx Hs. destruct (H3 x ltac:(lia) Hs) as (p & [->|Hin]%elem_of_cons & Hp); [cbn in *; lia|]. by exists p.
Qed.
(** What holds the first byte starts there. *)
Lemma tiles_first size lo hi l : lo < hi → lo < size → tiles size lo hi l → ∃ b, (lo, b) ∈ l.
Proof.
  intros Hh Hs [_ H2 H3]. destruct (H3 lo ltac:(lia) Hs) as ([a b] & Hin & Hp). cbn in Hp. exists b.
  pose proof (proj1 (list.Forall_forall _ _) H2 _ Hin) as Hw. cbn in Hw. by replace lo with a by lia.
Qed.

(** ** The state of a download *)

Definition out_pieces (m : gmap Z (Z * Z)) : list piece := (λ e, (e.2.1, e.2.1 + e.2.2)) <$> map_to_list m.
Definition data_pieces (m : gmap Z bytes) : list piece := (λ e, (e.1, e.1 + len e.2)) <$> map_to_list m.
Definition pieces (st : ReadTo) : list piece := out_pieces (rt_outstanding st) ++ data_pieces (rt_received st).

Lemma out_insert m id off n : m !! id = None → out_pieces (<[id := (off, n)]> m) ≡ₚ (off, off + n) :: out_pieces m.
Proof. intros H. unfold out_pieces. by rewrite map_to_list_insert. Qed.
Lemma out_delete m id off n : m !! id = Some (off, n) → out_pieces m ≡ₚ (off, off + n) :: out_pieces (delete id m).
Proof. intros H. rewrite <- (insert_delete_id m id (off, n) H) at 1. apply out_insert, lookup_delete_eq. Qed.
Lemma data_insert m off d : m !! off = None → data_pieces (<[off := d]> m) ≡ₚ (off, off + len d) :: data_pieces m.
Proof. intros H. unfold data_pieces. by rewrite map_to_list_insert. Qed.
Lemma data_delete m off d : m !! off = Some d → data_pieces m ≡ₚ (off, off + len d) :: data_pieces (delete off m).
Proof. intros H. rewrite <- (insert_delete_id m off d H) at 1. apply data_insert, lookup_delete_eq. Qed.
Lemma data_in m off d : m !! off = Some d → (off, off + len d) ∈ data_pieces m.
Proof. intros H. rewrite data_delete by done. by left. Qed.

(** The bytes of the data that waits. *)
Definition total (l : list piece) : Z := foldr (λ p acc, p.2 - p.1 + acc) 0 l.
Lemma total_perm l l' : l ≡ₚ l' → total l = total l'.
Proof. unfold total. induction 1; cbn in *; lia. Qed.

Lemma total_cons a b l : total ((a, b) :: l) = b - a + total l.
Proof. done. Qed.

(** Pieces of a range that do not overlap have no more bytes than the range. *)
Lemma total_packed lo hi l :
  ForallOrdPairs disjoint_pieces l → Forall (λ p, lo ≤ p.1 < p.2 ∧ p.2 ≤ hi) l → lo ≤ hi → total l ≤ hi - lo.
Proof.
  intros Hd Hw Hle. set (points (p : piece) := seqZ p.1 (p.2 - p.1)).
  assert (Hlen : total l = len (mjoin (points <$> l))).
  { clear Hd. induction Hw as [|[a b] l Hp _ IH]; [done|]. rewrite total_cons, IH. cbn [fmap list_fmap mjoin list_join]. rewrite len_app.
    cbn in Hp. unfold len at 2, points at 2. rewrite length_seqZ. cbn [fst snd]. by rewrite Z2Nat.id by lia. }
  assert (Hin : ∀ x, x ∈ mjoin (points <$> l) → ∃ p, p ∈ l ∧ p.1 ≤ x < p.2).
  { intros x (q & Hx & Hq)%list_elem_of_join. apply list_elem_of_fmap in Hq as (p & -> & Hp). exists p. split; [done|].
    unfold points in Hx. apply elem_of_seqZ in Hx. lia. }
  assert (Hnd : NoDup (mjoin (points <$> l))).
  { clear Hlen Hin. induction Hd as [|p l Hp _ IH]; [constructor|]. inversion Hw; subst. cbn [fmap list_fmap mjoin list_join].
    apply list.NoDup_app. split_and!; [apply NoDup_seqZ| |by apply IH]. intros x Hx (q & Hx' & Hq)%list_elem_of_join.
    apply list_elem_of_fmap in Hq as (p' & -> & Hp'). pose proof (proj1 (list.Forall_forall _ _) Hp p' Hp') as Hdis.
    unfold points in *. apply elem_of_seqZ in Hx, Hx'. unfold disjoint_pieces in Hdis. lia. }
  rewrite Hlen. assert (Hsub : mjoin (points <$> l) ⊆+ seqZ lo (hi - lo)).
  { apply NoDup_submseteq; [done|]. intros x (p & Hp & Hx)%Hin. pose proof (proj1 (list.Forall_forall _ _) Hw p Hp).
    apply elem_of_seqZ. cbn in *. lia. }
  apply submseteq_length in Hsub. rewrite length_seqZ in Hsub. unfold len. lia.
Qed.
Lemma pairs_app_r {A} (R : A → A → Prop) l l' : ForallOrdPairs R (l ++ l') → ForallOrdPairs R l'.
Proof. induction l as [|x l IH]; [done|]. intros H. inversion H; subst. by apply IH. Qed.

(** The state a download starts in. *)
Definition read_start (offset : Z) : ReadTo :=
  {| rt_outstanding := ∅; rt_received := ∅; rt_next := offset; rt_written := offset; rt_eof := None; rt_sink := [] |}.

Section Download.
Context (file handle : bytes) (offset chunk depth : Z) (id0 : Z).
Context (Hoff : 0 ≤ offset) (Hchunk : 1 ≤ chunk) (Hdepth : 1 ≤ depth).
Context (Hroom : Z.max offset (len file) + (depth + 1) * chunk ≤ U64_MAX).

Definition flen : Z := len file.

(** The data of the file from [off] on. *)
Definition file_at (off : Z) (d : bytes) : Prop := d `prefix_of` drop (Z.to_nat off) file.

(** What has not come yet, and the replies that can say so. *)
Definition unread (st : ReadTo) : Z := Z.max offset flen - rt_written st - total (data_pieces (rt_received st)).
Definition budget (st : ReadTo) : Z := match rt_eof st with None => depth | Some _ => Z.of_nat (size (rt_outstanding st)) end.

(** [answered] replies have come, and [nx] is the next id. *)
Record inv (answered nx : Z) (st : ReadTo) : Prop := {
  i_ids : map_Forall (λ id _, id0 ≤ id < nx) (rt_outstanding st);
  i_count : nx = id0 + answered + Z.of_nat (size (rt_outstanding st));
  i_depth : Z.of_nat (size (rt_outstanding st)) ≤ depth;
  i_order : offset ≤ rt_written st ≤ rt_next st;
  i_ahead : rt_next st ≤ Z.max offset flen + (depth + 1) * chunk;
  i_tiles : tiles flen (rt_written st) (rt_next st) (pieces st);
  i_data : map_Forall (λ off d, file_at off d) (rt_received st);
  i_eof : match rt_eof st with None => True | Some e => flen ≤ e < rt_next st end;
  i_size : rt_written st ≤ Z.max offset flen;
  i_sink : concat (rt_sink st) = take (Z.to_nat (rt_written st - offset)) (drop (Z.to_nat offset) file);
  i_measure : answered + unread st + budget st ≤ Z.max offset flen - offset + depth
}.

Lemma inv_start : inv 0 id0 (read_start offset).
Proof.
  split; cbn; try done; try (rewrite ?map_size_empty; lia).
  - split; [constructor|constructor|]. intros x Hx. lia.
  - by rewrite Z.sub_diag.
  - unfold unread, budget. cbn. unfold data_pieces, total. rewrite map_to_list_empty. cbn. lia.
Qed.

(** The requests [L], each an id with an offset and a length, have been sent. *)
Definition requests (L : list (Z * (Z * Z))) : list Packet := (λ q, PRead q.1 handle q.2.1 q.2.2) <$> L.
Definition sent (L : list (Z * (Z * Z))) (c : SftpClient) : SftpClient :=
  c <| c_out := c_out c ++ requests L |> <| c_next_id := c_next_id c + len L |>.
Definition quiet (c : SftpClient) : Prop := ∀ i, c_fails c i = None.
(** The requests in flight, in the order they were sent in. *)
Definition queued (Q : list (Z * (Z * Z))) (st : ReadTo) : Prop := rt_outstanding st = list_to_map Q ∧ NoDup Q.*1.

Lemma sent_nil c : sent [] c = c.
Proof. unfold sent, set_field. destruct c. cbn. by rewrite app_nil_r, Z.add_0_r. Qed.
Lemma sent_app L L' c : sent L' (sent L c) = sent (L ++ L') c.
Proof. unfold sent, requests, set_field. cbn. by rewrite fmap_app, app_assoc, len_app, Z.add_assoc. Qed.
Lemma queued_snoc Q st id p st' :
  queued Q st → rt_outstanding st !! id = None → rt_outstanding st' = <[id := p]> (rt_outstanding st) → queued (Q ++ [(id, p)]) st'.
Proof.
  intros [E Hn] Hid E'. assert (Hnot : id ∉ Q.*1) by (rewrite E in Hid; by apply not_elem_of_list_to_map).
  split; [by rewrite E', E, list_to_map_snoc|]. rewrite fmap_app. apply list.NoDup_app. split_and!; [done| |apply NoDup_singleton].
  intros x Hx ->%list_elem_of_singleton. done.
Qed.
Lemma queued_tail id p Q st st' :
  queued ((id, p) :: Q) st → rt_outstanding st' = delete id (rt_outstanding st) → queued Q st'.
Proof.
  intros [E Hn] E'. cbn in Hn. apply list.NoDup_cons in Hn as [Hid Hn]. split; [|done]. rewrite E', E. cbn.
  apply delete_insert_id. by apply not_elem_of_list_to_map.
Qed.

(** Sending, while the ids do not wrap. *)
Lemma send_ok off n c :
  0 ≤ c_next_id c < U32_MAX → quiet c → send (PRead 0 handle off n) c = (SOk (c_next_id c), sent [(c_next_id c, (off, n))] c).
Proof.
  intros Hid Hf. unfold send, mbind, client_bind, client_next_id, c_write, mret, client_ret, sent, requests, set_field. cbn.
  rewrite Hf. unfold wrap32. rewrite Z.mod_small, Z.max_l by lia. done.
Qed.
Lemma sent_next L c : c_next_id (sent L c) = c_next_id c + len L.
Proof. done. Qed.

Lemma window_eq : read_window chunk depth = depth * chunk.
Proof. unfold read_window, wrap64. apply Z.mod_small. pose proof (len_nonneg file). nia. Qed.

(** The loop that sends: it ends with no more to send. *)
Lemma fill_ok fuel answered nx st :
  inv answered nx st → 0 ≤ id0 → 0 ≤ answered → id0 + answered + depth ≤ U32_MAX →
  depth < Z.of_nat fuel + Z.of_nat (size (rt_outstanding st)) →
  ∃ st' L, (∀ c, c_next_id c = nx → quiet c → read_fill handle chunk depth fuel st c = (SOk st', sent L c)) ∧
    inv answered (nx + len L) st' ∧ may_send chunk depth st' = false ∧
    rt_received st' = rt_received st ∧ rt_written st' = rt_written st ∧ (∀ Q, queued Q st → queued (Q ++ L) st') ∧
    Forall (λ q, q.2.2 ≤ chunk) L.
Proof.
  intros Hi Hid0 Ha Hids. revert nx st Hi. induction fuel as [|fuel IH]; intros nx st Hi Hf; [pose proof (i_depth _ _ _ Hi); lia|].
  cbn [read_fill]. destruct (may_send chunk depth st) eqn:Em.
  2:{ exists st, []. rewrite len_nil, Z.add_0_r. split_and!; try done; [intros; by rewrite sent_nil|intros; by rewrite app_nil_r]. }
  unfold may_send in Em. apply andb_true_iff in Em as [Em Ee]. apply andb_true_iff in Em as [Es Ew].
  rewrite window_eq in Ew. pose proof Hi as [I1 I2 I3 I4 I5 I6 I7 I8 I9 I10 I11]. zbool.
  pose proof (len_nonneg file) as Hn. unfold wrap64 in Ew. unfold flen in *. rewrite Z.mod_small in Ew by nia.
  assert (Hfresh : rt_outstanding st !! nx = None).
  { destruct (rt_outstanding st !! nx) as [p|] eqn:E; [|done]. apply I1 in E. lia. }
  set (st1 := st <| rt_outstanding := <[nx := (rt_next st, chunk)]> (rt_outstanding st) |> <| rt_next := wrap64 (rt_next st + chunk) |>).
  assert (Hnext : rt_next st1 = rt_next st + chunk) by (apply Z.mod_small; nia).
  assert (Hsize : size (rt_outstanding st1) = Datatypes.S (size (rt_outstanding st))) by (by apply map_size_insert_None).
  destruct (IH (nx + 1) st1) as (st' & L & Hc & Hinv & Hm & Hr & Hw & Hq & Hl).
  - split; try change (rt_written st1) with (rt_written st); rewrite ?Hnext, ?Hsize; try eassumption; try lia.
    + apply map_Forall_insert_2; [lia|]. eapply map_Forall_impl; [exact I1|]. cbn. intros. lia.
    + unfold flen. nia.
    + eapply tiles_perm; [|apply (tiles_grow _ _ (rt_next st) (rt_next st + chunk)); [lia|exact I6]].
      unfold pieces. change (rt_outstanding st1) with (<[nx := (rt_next st, chunk)]> (rt_outstanding st)). by rewrite out_insert.
    + change (rt_eof st1) with (rt_eof st). destruct (rt_eof st); [|done]. unfold flen in *; lia.
    + unfold before_eof in Ee. unfold unread, budget in *. change (rt_eof st1) with (rt_eof st). destruct (rt_eof st); [zbool; lia|exact I11].
  - rewrite Hsize. lia.
  - exists st', ((nx, (rt_next st, chunk)) :: L). rewrite len_cons, Z.add_assoc. split_and!; try done.
    + intros c Ec Hqc. unfold mbind, client_bind. rewrite send_ok, Ec by (first [done|lia]). fold st1.
      rewrite Hc by (first [done|by rewrite sent_next, Ec]). by rewrite sent_app.
    + intros Q HQ. rewrite cons_middle, app_assoc. apply Hq. by eapply queued_snoc.
    + by constructor.
Qed.

(** The loop that writes: it ends when the next byte is not there. *)
Lemma flush_ok fuel answered nx st :
  inv answered nx st → (size (rt_received st) < fuel)%nat →
  ∃ st', (∀ c, read_flush (λ _, None) fuel st c = (SOk st', c)) ∧ inv answered nx st' ∧ rt_received st' !! rt_written st' = None ∧
    rt_outstanding st' = rt_outstanding st.
Proof.
  revert st. induction fuel as [|fuel IH]; intros st Hi Hf; [lia|]. cbn [read_flush].
  destruct (rt_received st !! rt_written st) as [d|] eqn:Ed; [|by exists st].
  pose proof Hi as [I1 I2 I3 I4 I5 I6 I7 I8 I9 I10 I11].
  assert (Ht : tiles flen (rt_written st) (rt_next st)
    ((rt_written st, rt_written st + len d) :: out_pieces (rt_outstanding st) ++ data_pieces (delete (rt_written st) (rt_received st)))).
  { eapply tiles_perm; [|exact I6]. unfold pieces. by rewrite (data_delete _ _ _ Ed), Permutation_middle. }
  pose proof (tiles_head_in _ _ _ _ _ _ Ht) as Hd.
  pose proof (I7 _ _ Ed) as [k Hk]. cbn in Hk.
  assert (Hlen : len d + rt_written st ≤ flen).
  { apply (f_equal length) in Hk. rewrite length_drop, length_app in Hk. unfold flen, len in *. lia. }
  pose proof (len_nonneg file). unfold wrap64. rewrite Z.mod_small by (unfold flen in *; nia).
  match goal with |- context [read_flush _ _ ?s _] => destruct (IH s) as (st' & E & Hinv & Hn & Ho) end.
  - split; unfold set_field; cbn; try eassumption.
    + lia.
    + eapply tiles_advance. exact Ht.
    + by apply map_Forall_delete.
    + lia.
    + rewrite concat_app, I10. cbn. rewrite app_nil_r.
      replace (Z.to_nat (rt_written st + len d - offset)) with (Z.to_nat (rt_written st - offset) + length d)%nat by (unfold len; lia).
      rewrite <- take_take_drop. f_equal. rewrite drop_drop. replace (Z.to_nat offset + _)%nat with (Z.to_nat (rt_written st)) by lia.
      by rewrite Hk, take_app_length.
    + unfold unread, budget in *. cbn. rewrite (total_perm _ _ (data_delete _ _ _ Ed)), total_cons in I11. lia.
  - unfold set_field; cbn. rewrite map_size_delete, Ed. cbn.
    assert (size (rt_received st) ≠ 0%nat) by (intros E0; apply map_size_empty_inv in E0; by rewrite E0, lookup_empty in Ed). lia.
  - by exists st'.
Qed.

(** A server's answer [p] to the request for [n] bytes at [off]: bytes of the
    file from there, at least one and at most [n], or the end of the file. *)
Definition read_answer (p : Packet) (off n : Z) : Prop :=
  match p with
  | PData _ d => (d ≠ [] ∧ len d ≤ n ∧ file_at off d) ∨ (d = [] ∧ flen ≤ off)
  | PStatus _ FxEof _ _ => flen ≤ off
  | _ => False
  end.

Lemma file_at_len off d : 0 ≤ off → file_at off d → d ≠ [] → off + len d ≤ flen.
Proof.
  intros Ho [k Hk] Hd. apply (f_equal length) in Hk. rewrite length_drop, length_app in Hk.
  destruct d; [done|]. unfold flen, len in *. cbn in *. lia.
Qed.

(** The piece of a request, taken out. *)
Lemma tiles_request answered nx st id off n :
  inv answered nx st → rt_outstanding st !! id = Some (off, n) →
  tiles flen (rt_written st) (rt_next st)
    ((off, off + n) :: out_pieces (delete id (rt_outstanding st)) ++ data_pieces (rt_received st)).
Proof. intros Hi He. eapply tiles_perm; [|exact (i_tiles _ _ _ Hi)]. unfold pieces. by rewrite (out_delete _ _ _ _ He). Qed.

Lemma size_delete (m : gmap Z (Z * Z)) id p : m !! id = Some p → Z.of_nat (size (delete id m)) = Z.of_nat (size m) - 1.
Proof.
  intros E. rewrite map_size_delete, E. assert (size m ≠ 0%nat) by (intros E0; apply map_size_empty_inv in E0; by rewrite E0, lookup_empty in E). lia.
Qed.

(** The end of the file. *)
Lemma eof_ok answered nx st id off n :
  inv answered nx st → rt_outstanding st !! id = Some (off, n) → flen ≤ off →
  inv (answered + 1) nx (st <| rt_outstanding := delete id (rt_outstanding st) |>
    <| rt_eof := Some (match rt_eof st with None => off | Some e => Z.min e off end) |>).
Proof.
  intros Hi He Ho. pose proof (tiles_request _ _ _ _ _ _ Hi He) as Ht. pose proof (size_delete _ _ _ He) as Hs.
  pose proof (tiles_head_in _ _ _ _ _ _ Ht) as Hd.
  destruct Hi as [I1 I2 I3 I4 I5 I6 I7 I8 I9 I10 I11]. split; unfold set_field; cbn; try eassumption.
  - by apply map_Forall_delete.
  - rewrite Hs. lia.
  - rewrite Hs. lia.
  - by eapply tiles_drop.
  - destruct (rt_eof st); lia.
  - unfold unread, budget in *. cbn. rewrite Hs. destruct (rt_eof st); lia.
Qed.

(** Data, and the request for the rest of the range where there is one. *)
Lemma data_ok answered nx nx' st out off d :
  inv answered nx st → 0 ≤ off →
  tiles flen (rt_written st) (rt_next st) ((off, off + len d) :: out_pieces out ++ data_pieces (rt_received st)) →
  file_at off d → d ≠ [] →
  map_Forall (λ id _, id0 ≤ id < nx') out → nx' = id0 + (answered + 1) + Z.of_nat (size out) →
  Z.of_nat (size out) ≤ Z.of_nat (size (rt_outstanding st)) →
  inv (answered + 1) nx' (st <| rt_outstanding := out |> <| rt_received := <[off := d]> (rt_received st) |>).
Proof.
  intros Hi Ho Ht Hd Hne Hids Hn Hs. pose proof (file_at_len _ _ Ho Hd Hne) as Hl.
  assert (Hlen : 1 ≤ len d) by (destruct d; [done|unfold len; cbn; lia]).
  assert (Hfresh : rt_received st !! off = None).
  { destruct (rt_received st !! off) as [d'|] eqn:E; [|done]. pose proof (data_in _ _ _ E) as Hin.
    assert (Hin' : (off, off + len d') ∈ out_pieces out ++ data_pieces (rt_received st)) by (apply elem_of_app; by right).
    pose proof (tiles_head _ _ _ _ _ _ Ht Hin') as Hdis.
    pose proof (proj1 (list.Forall_forall _ _) (tl_within _ _ _ _ Ht) _ (list_elem_of_further _ _ _ Hin')) as Hw.
    unfold disjoint_pieces in Hdis. cbn in *. lia. }
  destruct Hi as [I1 I2 I3 I4 I5 I6 I7 I8 I9 I10 I11]. split; unfold set_field; cbn; try eassumption.
  - lia.
  - eapply tiles_perm; [|exact Ht]. unfold pieces. cbn. by rewrite data_insert, Permutation_middle.
  - by apply map_Forall_insert_2.
  - unfold unread, budget in *. cbn. rewrite (total_perm _ _ (data_insert _ _ _ Hfresh)), total_cons. destruct (rt_eof st); lia.
Qed.

Lemma not_nil_is_nil {A} (l : list A) : l ≠ [] → is_nil l = false.
Proof. by destruct l. Qed.

Lemma reply_ok answered nx st id off n p :
  inv answered nx st → rt_outstanding st !! id = Some (off, n) → read_answer p off n →
  0 ≤ id0 → 0 ≤ answered → id0 + answered + depth < U32_MAX →
  let st0 := st <| rt_outstanding := delete id (rt_outstanding st) |> in
  ∃ st' L, (∀ c, c_next_id c = nx → quiet c → read_reply handle p off n st0 c = (SOk st', sent L c)) ∧
    inv (answered + 1) (nx + len L) st' ∧ (∀ Q, queued ((id, (off, n)) :: Q) st → queued (Q ++ L) st') ∧ Forall (λ q, q.2.2 ≤ n) L.
Proof.
  intros Hi He Ha Hid0 Hans Hids st0. pose proof (tiles_request _ _ _ _ _ _ Hi He) as Ht. pose proof (size_delete _ _ _ He) as Hs.
  set (st1 := st0 <| rt_eof := Some (match rt_eof st0 with None => off | Some e => Z.min e off end) |>).
  assert (Heof : flen ≤ off → ∃ st' L, (∀ c, c_next_id c = nx → quiet c → mret (M := ClientM) st1 c = (SOk st', sent L c)) ∧
    inv (answered + 1) (nx + len L) st' ∧ (∀ Q, queued ((id, (off, n)) :: Q) st → queued (Q ++ L) st') ∧ Forall (λ q, q.2.2 ≤ n) L).
  { intros Ho. exists st1, []. rewrite len_nil, Z.add_0_r. split_and!; [intros; by rewrite sent_nil|exact (eof_ok _ _ _ _ _ _ Hi He Ho)| |constructor].
    intros Q HQ. rewrite app_nil_r. by eapply queued_tail. }
  destruct p; try done; cbn in Ha; [by destruct code; try done; apply Heof|].
  unfold read_reply. destruct Ha as [(Hne & Hl & Hd)|[-> Ho]]; [|by apply Heof].
  rewrite (not_nil_is_nil _ Hne). cbv zeta. rewrite (proj2 (Z.ltb_ge _ _)) by done.
  pose proof (tiles_head_in _ _ _ _ _ _ Ht) as Hoff'.
  pose proof (i_order _ _ _ Hi) as Hord. pose proof (i_count _ _ _ Hi) as Hcnt. pose proof (i_depth _ _ _ Hi) as Hdep.
  assert (Hids' : map_Forall (λ i _, id0 ≤ i < nx) (delete id (rt_outstanding st))) by (apply map_Forall_delete, Hi).
  assert (Hlen : 1 ≤ len data) by (destruct data; [done|unfold len; cbn; lia]).
  unfold mbind, client_bind. destruct ((len data <? n) && _) eqn:Er.
  - apply andb_true_iff in Er as [Er _]. zbool.
    assert (Hfresh : delete id (rt_outstanding st) !! nx = None).
    { destruct (delete id (rt_outstanding st) !! nx) eqn:E; [|done]. apply Hids' in E. lia. }
    eexists _, [(nx, (off + len data, n - len data))]. split_and!.
    + intros c Ec Hq. rewrite send_ok, Ec by (first [done|lia]). done.
    + refine (data_ok answered nx (nx + 1) st (<[nx := (off + len data, n - len data)]> (delete id (rt_outstanding st)))
        off data Hi _ _ Hd Hne _ _ _); rewrite ?map_size_insert_None by done; try lia.
      * eapply tiles_perm; [|apply (tiles_split _ _ _ off (off + len data) (off + n)); [lia|exact Ht]].
        rewrite out_insert by done. by replace (off + len data + (n - len data)) with (off + n) by lia.
      * apply map_Forall_insert_2; [lia|]. eapply map_Forall_impl; [exact Hids'|]. cbn. intros. lia.
    + intros Q HQ. eapply (queued_snoc Q st0); [by eapply queued_tail|done|done].
    + constructor; [cbn; lia|constructor].
  - eexists _, []. rewrite len_nil, Z.add_0_r. split_and!; [intros; by rewrite sent_nil| |intros Q HQ; rewrite app_nil_r; by eapply queued_tail|constructor].
    refine (data_ok answered nx nx st (delete id (rt_outstanding st)) off data Hi _ _ Hd Hne Hids' _ _); try lia.
    apply (tiles_cut _ _ _ off (off + len data) (off + n)); [lia| |done]. intros Hlt. apply andb_false_iff in Er as [Er|Er]; zbool; [lia|].
    pose proof (i_eof _ _ _ Hi) as Hieof. unfold before_eof in Er. change (rt_eof st0) with (rt_eof st) in Er.
    destruct (rt_eof st); [zbool; lia|done].
Qed.

(** A client that will read the replies [ps]. *)
Definition reading (ps : list Packet) (c : SftpClient) : SftpClient := c <| c_in := input_of (concat (packet_encode <$> ps)) |>.

Lemma recv_ok p ps id c :
  frame_ok p → packet_id p = Some id → recv (reading (p :: ps) c) = (SOk (id, p), reading ps c).
Proof.
  intros Hp Hid. unfold recv, mbind, client_bind, c_read, reading, set_field. cbn [c_in fmap list_fmap concat].
  destruct (read_frame p (concat (packet_encode <$> ps)) Hp) as [-> ->]. cbn. by rewrite Hid.
Qed.

Lemma round_ok answered nx st id off n p :
  inv answered nx st → rt_outstanding st !! id = Some (off, n) → packet_id p = Some id → read_answer p off n → frame_ok p →
  0 ≤ id0 → 0 ≤ answered → id0 + answered + depth < U32_MAX →
  ∃ st' L, (∀ c ps, c_next_id c = nx → quiet c →
      read_round handle (λ _, None) st (reading (p :: ps) c) = (SOk st', sent L (reading ps c))) ∧
    inv (answered + 1) (nx + len L) st' ∧ rt_received st' !! rt_written st' = None ∧
    (∀ Q, queued ((id, (off, n)) :: Q) st → queued (Q ++ L) st') ∧ Forall (λ q, q.2.2 ≤ n) L.
Proof.
  intros Hi He Hid Ha Hp Hid0 Hans Hids.
  destruct (reply_ok answered nx st id off n p Hi He Ha Hid0 Hans Hids) as (st2 & L & Hc & Hi2 & Hq & Hl).
  destruct (flush_ok (Datatypes.S (size (rt_received st2))) _ _ _ Hi2) as (st3 & E3 & Hi3 & Hn3 & Ho3); [lia|].
  exists st3, L. split_and!; try done.
  - intros c ps Ec Hqc. unfold read_round, mbind, client_bind. rewrite (recv_ok p ps id), He, Hc by done. by rewrite E3.
  - intros Q [E HN]%Hq. split; [by rewrite Ho3|done].
Qed.

Lemma unread_nonneg answered nx st : inv answered nx st → 0 ≤ unread st ∧ 0 ≤ budget st.
Proof.
  intros [I1 I2 I3 I4 I5 [Hd Hw _] I7 I8 I9 I10 I11]. split; [|unfold budget; destruct (rt_eof st); lia].
  unfold unread. apply pairs_app_r in Hd. apply Forall_app in Hw as [_ Hw].
  assert (total (data_pieces (rt_received st)) ≤ Z.max offset flen - rt_written st); [|lia].
  apply total_packed; [done| |done]. apply list.Forall_forall. intros p Hp. pose proof (proj1 (list.Forall_forall _ _) Hw p Hp) as Hpw.
  apply list_elem_of_fmap in Hp as ([off d] & -> & Hp). apply elem_of_map_to_list in Hp. apply I7 in Hp. cbn in *.
  assert (Hne : d ≠ []) by (intros ->; rewrite len_nil in Hpw; lia). pose proof (file_at_len off d ltac:(lia) Hp Hne). lia.
Qed.

(** A server that answers the requests of a download, in any order: each of its
    replies answers a request that is in flight when the client reads it, and
    it stops only when none is. *)
Inductive honest : ReadTo → SftpClient → list Packet → Prop :=
| honest_done st c st' c' :
    read_fill handle chunk depth (Datatypes.S (Z.to_nat depth)) st c = (SOk st', c') → rt_outstanding st' = ∅ → honest st c []
| honest_reply st c st' c' id off n p ps :
    read_fill handle chunk depth (Datatypes.S (Z.to_nat depth)) st c = (SOk st', c') →
    rt_outstanding st' !! id = Some (off, n) → packet_id p = Some id → read_answer p off n →
    (∀ st'' c'', read_round handle (λ _, None) st' c' = (SOk st'', c'') → honest st'' c'' ps) →
    honest st c (p :: ps).

(** With nothing in flight and no more to ask for, the file is written. *)
Lemma all_written answered nx st :
  inv answered nx st → may_send chunk depth st = false → rt_outstanding st = ∅ → rt_received st !! rt_written st = None →
  rt_written st = Z.max offset flen ∧ rt_received st = ∅.
Proof.
  intros Hi Hm Ho Hn. destruct Hi as [I1 I2 I3 I4 I5 I6 I7 I8 I9 I10 I11].
  unfold pieces in I6. rewrite Ho in *. unfold out_pieces in I6. rewrite map_to_list_empty in I6. cbn in I6.
  assert (Hlt : rt_written st < flen → rt_written st < rt_next st).
  { intros Hlt. unfold may_send in Hm. rewrite Ho, map_size_empty, window_eq in Hm. pose proof (len_nonneg file).
    unfold flen, wrap64, before_eof in *. rewrite Z.mod_small in Hm by nia. destruct (rt_eof st); [lia|].
    rewrite andb_true_r in Hm. apply andb_false_iff in Hm as [Hm|Hm]; zbool; nia. }
  assert (Hw : rt_written st = Z.max offset flen).
  { destruct (decide (flen ≤ rt_written st)); [lia|]. assert (Hl : rt_written st < flen) by lia.
    destruct (tiles_first _ _ _ _ (Hlt Hl) Hl I6) as [b Hb].
    unfold data_pieces in Hb. apply list_elem_of_fmap in Hb as ([off d] & E & Hb). apply elem_of_map_to_list in Hb.
    cbn in E. injection E as <- _. by rewrite Hn in Hb. }
  split; [done|]. apply map_empty. intros off. destruct (rt_received st !! off) as [d|] eqn:E; [exfalso|done].
  pose proof (data_in _ _ _ E) as Hin. pose proof (proj1 (list.Forall_forall _ _) (tl_within _ _ _ _ I6) _ Hin) as Hb. cbn in Hb.
  assert (Hne : d ≠ []) by (intros ->; rewrite len_nil in Hb; lia). pose proof (file_at_len off d ltac:(lia) (I7 _ _ E) Hne). lia.
Qed.

Lemma reading_in c ps : c_in c = input_of (concat (packet_encode <$> ps)) → c = reading ps c.
Proof. destruct c. cbn. by intros ->. Qed.

Lemma loop_ok replies fuel answered c st :
  inv answered (c_next_id c) st → honest st c replies → Forall frame_ok replies → rt_received st !! rt_written st = None →
  c_in c = input_of (concat (packet_encode <$> replies)) → quiet c → 0 ≤ id0 → 0 ≤ answered →
  id0 + answered + len replies + depth < U32_MAX → (length replies < fuel)%nat →
  ∃ st' c', read_loop handle chunk depth (λ _, None) fuel st c = (SOk st', c') ∧ inv (answered + len replies) (c_next_id c') st' ∧
    rt_written st' = Z.max offset flen ∧ rt_received st' = ∅.
Proof.
  revert fuel answered c st. induction replies as [|p ps IH]; intros fuel answered c st Hi Hh Hp Hn Hin Hqc Hid0 Ha Hids Hf;
    (destruct fuel as [|fuel]; [cbn in Hf; lia|]); cbn [read_loop]; unfold mbind, client_bind;
    rewrite ?len_cons, ?len_nil in *; try pose proof (len_nonneg ps) as Hps;
    (destruct (fill_ok (Datatypes.S (Z.to_nat depth)) answered _ st Hi) as (st1 & L & E1 & Hi1 & Hm1 & Hr1 & Hw1 & _); [lia..|]);
    rewrite E1 by done; inversion Hh as [? ? ? ? E Ho|? ? ? ? id off n ? ? E Ho Hid Hans Hnext]; subst;
    rewrite E1 in E by done; injection E as <- <-.
  - rewrite decide_True by done. exists st1, (sent L c). split; [done|]. rewrite Z.add_0_r. split; [done|].
    eapply all_written; [done..|]. by rewrite Hr1, Hw1.
  - rewrite decide_False by (intros E0; by rewrite E0, lookup_empty in Ho).
    inversion Hp as [|? ? Hp1 Hps']; subst. apply (reading_in (sent L c)) in Hin.
    destruct (round_ok answered _ st1 id off n p Hi1) as (st2 & L2 & E2 & Hi2 & Hn2 & _); try done; [lia|].
    specialize (E2 (sent L c) ps eq_refl Hqc). rewrite <- Hin in E2. rewrite E2.
    destruct (IH fuel (answered + 1) (sent L2 (reading ps (sent L c))) st2) as (st3 & c3 & -> & Hi3 & Hd3);
      try done; try lia; [by apply Hnext|cbn in Hf; lia|].
    exists st3, c3. split; [done|]. split; [|done]. by replace (answered + (1 + len ps)) with (answered + 1 + len ps) by lia.
Qed.
End Download.

(** C24: an SFTP download is complete.  Whatever order the server answers the
    reads in flight in, and however little it answers each of them, as long as
    every reply is a part of what was asked for or says that the file has ended,
    [read_to] writes to its sink exactly the file from the offset on, counts its
    bytes, and needs no more replies than there are bytes and reads in flight. *)
Theorem sftp_download file handle offset chunk depth replies c :
  0 ≤ offset → 1 ≤ chunk → 1 ≤ depth → Z.max offset (len file) + (depth + 1) * chunk ≤ U64_MAX →
  0 ≤ c_next_id c → c_next_id c + len replies + depth < U32_MAX → quiet c →
  c_in c = input_of (concat (packet_encode <$> replies)) → Forall frame_ok replies →
  honest file handle chunk depth (read_start offset) c replies →
  ∃ sink c', read_to handle offset chunk depth (λ _, None) c = (SOk (Z.max 0 (len file - offset), sink), c') ∧
    concat sink = drop (Z.to_nat offset) file ∧ len replies ≤ Z.max 0 (len file - offset) + depth.
Proof.
  intros Ho Hc Hd Hroom Hid Hids Hf Hin Hp Hh. unfold read_to. rewrite !Z.max_l by lia. cbv zeta.
  destruct (loop_ok file handle offset chunk depth (c_next_id c) Ho Hc Hd Hroom replies
    (Datatypes.S (length (i_bytes (c_in c)))) 0 c (read_start offset)) as (st & c' & E & Hi & Hw & Hr); try done; try lia.
  - by apply inv_start.
  - rewrite Hin. cbn [i_bytes input_of]. pose proof (frames_length replies). lia.
  - unfold mbind, client_bind. fold (read_start offset). rewrite E, decide_True by done.
    eexists _, c'. unfold mret, client_ret. destruct Hi as [_ _ I3 _ _ _ _ _ _ I10 I11]. pose proof (len_nonneg file).
    unfold flen in *. split; [|split].
    + unfold wrap64. rewrite Hw, Z.mod_small by nia. by replace (Z.max offset (len file) - offset) with (Z.max 0 (len file - offset)) by lia.
    + rewrite I10, Hw. apply take_ge. rewrite length_drop. unfold len in *. lia.
    + unfold unread, budget in I11. rewrite Hr, Hw in I11. unfold data_pieces in I11. rewrite map_to_list_empty in I11. cbn in I11.
      unfold flen in I11. destruct (rt_eof st); lia.
Qed.

(** * A download from the server

    The client's [read_to] against the server's session: the server reads the
    client's requests and the client the server's replies. *)
From S2P Require Import SftpPath SftpServer SftpServerFacts SftpReplies.

(** What the server relies on of an open file with the content [content]:
    in the worlds [at_ p] its cursor is at [p]. *)
Class FileLaws {W} `{!SftpOs W} (f : File) (content : bytes) (at_ : Z → W → Prop) := {
  fl_seek p w off : at_ p w → 0 ≤ off → ∃ w', exec (CSeek _ _ _ f off) w = (inl tt, w') ∧ at_ off w';
  fl_read p w n : at_ p w → 0 ≤ p → 1 ≤ n → ∃ d w', exec (CRead _ _ _ f n) w = (inl d, w') ∧ at_ (p + len d) w' ∧
    d `prefix_of` drop (Z.to_nat p) content ∧ len d ≤ n ∧ (d = [] → len content ≤ p)
}.

Section Get.
Context {W : Type} `{!SftpOs W} (f : File) (content : bytes) (at_ : Z → W → Prop) `{!FileLaws f content at_}.
Context (handle : bytes) (h : Z) (Hhandle : len handle = 8) (Hh : be_value (rev handle) = h).
Abbreviation St := (SftpServerSession (W := W) * W)%type.

(** The session has the file open under the handle. *)
Definition serves (s : St) : Prop := (∃ p a, handles s.1 !! h = Some (HFile f p a)) ∧ ∃ pos, at_ pos s.2.

(** The length of a body. *)
Ltac body_len := unfold body_enc, encode_body, write_head;
  repeat (rewrite write_string_buf || rewrite write_u64_buf || rewrite write_u32_buf || rewrite write_u8_buf); unfold str_enc; cbn [w_buf writer_new]; autorewrite with lens.

Lemma data_frame id d : is_u32 id → len d ≤ MAX_PACKET_SIZE / 2 → frame_ok (PData id d).
Proof.
  intros Hid Hd. pose proof (len_nonneg d). unfold MAX_PACKET_SIZE in *. change (256 * 1024 / 2) with 131072 in Hd.
  split; [split; [done|unfold str_ok; width_lia]|]. body_len. unfold MAX_PACKET_SIZE. lia.
Qed.
Lemma eof_frame id : is_u32 id → frame_ok (status_pkt id FxEof "eof").
Proof. intros Hid. split; [split_and!; [done|by vm_compute..]|]. unfold status_pkt. body_len. by vm_compute. Qed.
Lemma read_frame_ok id off n : is_u32 id → is_u64 off → is_u32 n → frame_ok (PRead id handle off n).
Proof. intros Hid Ho Hn. split; [split_and!; try done; unfold str_ok; width_lia|]. body_len. unfold MAX_PACKET_SIZE. lia. Qed.

(** The server's answer to a read is one the download understands. *)
Lemma read_answered s id off n :
  serves s → is_u32 id → 0 ≤ off → 1 ≤ n →
  ∃ reply s', handle_packet (PRead id handle off n) s = (reply, s') ∧ serves s' ∧ packet_id reply = Some id ∧
    read_answer content reply off n ∧ frame_ok reply.
Proof.
  intros [(p & a & Eh) [pos Hpos]] Hid Hoff Hn. destruct s as [se w]. cbn [fst snd] in *.
  destruct (fl_seek _ _ off Hpos Hoff) as (w1 & E1 & H1).
  assert (Hcap : 1 ≤ Z.min n (MAX_PACKET_SIZE / 2)) by (change (MAX_PACKET_SIZE / 2) with 131072; lia).
  destruct (fl_read _ _ _ H1 Hoff Hcap) as (d & w2 & E2 & H2 & Hpre & Hlen & Hend).
  assert (Hserves : serves (se, w2)) by (split; [by exists p, a|by eexists]).
  unfold handle_packet. cbn [dispatch]. unfold op_read, parse_handle, get_handle, get, read_upto, call_ok, call, mbind, sftp_bind.
  rewrite Hhandle. cbn [Z.eqb Pos.eqb mret sftp_ret fst snd]. unfold mret, sftp_ret. cbn [fst snd]. rewrite Hh, Eh. cbv zeta.
  cbn [fst snd]. rewrite E1. cbn [io_ok]. unfold mret, sftp_ret. cbn [fst snd]. rewrite E2. cbn [io_ok]. unfold mret, sftp_ret.
  rewrite take_ge by (unfold len in *; lia). destruct d as [|b d]; cbn [is_nil].
  - eexists _, _. split; [done|]. split_and!; [done|done|by apply Hend|by apply eof_frame].
  - eexists _, _. split; [done|]. split_and!; [done|done| |apply data_frame; [done|lia]].
    left. split_and!; [done|lia|done].
Qed.

Section Loop.
Context (offset chunk depth : Z) (id0 : Z).
Context (Hoff : 0 ≤ offset) (Hchunk : 1 ≤ chunk ≤ U32_MAX) (Hdepth : 1 ≤ depth).
Context (Hroom : Z.max offset (len content) + (depth + 1) * chunk ≤ U64_MAX).
Context (Hid0 : 0 ≤ id0) (Hids : id0 + Z.max 0 (len content - offset) + 2 * depth < U32_MAX).
Abbreviation inv := (inv content offset chunk depth id0).
Abbreviation requests := (requests handle).

(** A request of the queue. *)
Lemma queued_request answered nx st id off n Q :
  inv answered nx st → queued ((id, (off, n)) :: Q) st → rt_outstanding st !! id = Some (off, n) ∧ 0 ≤ off ∧ 1 ≤ n.
Proof.
  intros Hi [E _]. assert (El : rt_outstanding st !! id = Some (off, n)) by (rewrite E; apply lookup_insert_eq). split; [done|].
  pose proof (tiles_head_in _ _ _ _ _ _ (tiles_request content offset chunk depth id0 _ _ _ _ _ _ Hi El)).
  pose proof (i_order _ _ _ _ _ _ _ _ Hi). lia.
Qed.

(** The bound on the replies, from the measure. *)
Lemma answered_bound answered nx st : inv answered nx st → answered ≤ Z.max 0 (len content - offset) + depth.
Proof.
  intros Hi. pose proof (unread_nonneg content offset chunk depth id0 Hoff Hdepth _ _ _ Hi). pose proof (i_measure _ _ _ _ _ _ _ _ Hi).
  unfold flen in *. lia.
Qed.

Lemma requests_ok answered nx st Q L :
  inv answered nx st → queued (Q ++ L) st → Forall (λ q, q.2.2 ≤ chunk) (Q ++ L) → 0 ≤ answered → Forall frame_ok (requests L).
Proof.
  intros Hi [E HN] [_ Hl]%Forall_app Ha. apply list.Forall_fmap, list.Forall_forall. intros [id [off n]] Hin. cbn.
  pose proof (answered_bound _ _ _ Hi). pose proof (i_count _ _ _ _ _ _ _ _ Hi). pose proof (i_depth _ _ _ _ _ _ _ _ Hi).
  pose proof (proj1 (list.Forall_forall _ _) Hl _ Hin) as Hn. cbn in Hn.
  assert (El : rt_outstanding st !! id = Some (off, n)) by (rewrite E; apply elem_of_list_to_map; [done|apply elem_of_app; by right]).
  pose proof (tiles_head_in _ _ _ _ _ _ (tiles_request content offset chunk depth id0 _ _ _ _ _ _ Hi El)).
  pose proof (i_order _ _ _ _ _ _ _ _ Hi). pose proof (i_ahead _ _ _ _ _ _ _ _ Hi). pose proof (i_ids _ _ _ _ _ _ _ _ Hi _ _ El).
  unfold flen in *. cbn in *. apply read_frame_ok; unfold is_u32, is_u64; lia.
Qed.

Lemma reading_sent ps L c : sent handle L (reading ps c) = reading ps (sent handle L c).
Proof. done. Qed.

(** The download and the session, from any point on: [Q] is in flight. *)
Lemma get_loop k answered nx st Q (s : St) :
  inv answered nx st → queued Q st → Forall (λ q, q.2.2 ≤ chunk) Q → rt_received st !! rt_written st = None → serves s →
  0 ≤ answered → Z.max 0 (len content - offset) + depth - answered < Z.of_nat k →
  ∃ st' replies L, Forall frame_ok replies ∧ Forall frame_ok (requests L) ∧ session_replies (requests (Q ++ L)) s = replies ∧
    (∀ c fuel, c_next_id c = nx → quiet c → (length replies < fuel)%nat →
       read_loop handle chunk depth (λ _, None) fuel st (reading replies c) = (SOk st', sent handle L (reading [] c))) ∧
    inv (answered + len replies) (nx + len L) st' ∧ rt_written st' = Z.max offset (len content) ∧ rt_received st' = ∅.
Proof.
  revert answered nx st Q s. induction k as [|k IH]; intros answered nx st Q s Hi HQ Hl Hn Hs Ha Hk;
    pose proof (answered_bound _ _ _ Hi) as Hb; [lia|].
  destruct (fill_ok content handle offset chunk depth id0 Hoff ltac:(lia) Hdepth Hroom (Datatypes.S (Z.to_nat depth)) answered nx st Hi)
    as (st1 & L1 & E1 & Hi1 & Hm1 & Hr1 & Hw1 & Hq1 & Hl1); [lia..|].
  pose proof (answered_bound _ _ _ Hi1) as Hb1. pose proof (i_count _ _ _ _ _ _ _ _ Hi1) as Hc1. pose proof (i_depth _ _ _ _ _ _ _ _ Hi1) as Hd1.
  specialize (Hq1 Q HQ). assert (Hl' : Forall (λ q, q.2.2 ≤ chunk) (Q ++ L1)) by (by apply Forall_app).
  pose proof (requests_ok _ _ _ _ _ Hi1 Hq1 Hl' Ha) as Hf1.
  destruct (Q ++ L1) as [|[id [off n]] Q1] eqn:EQ.
  - assert (Ho : rt_outstanding st1 = ∅) by apply Hq1. assert (Hn1 : rt_received st1 !! rt_written st1 = None) by (by rewrite Hr1, Hw1).
    destruct (all_written content offset chunk depth id0 Hoff ltac:(lia) Hdepth Hroom _ _ _ Hi1 Hm1 Ho Hn1) as [Hwr Hre].
    exists st1, [], L1. rewrite len_nil, Z.add_0_r, EQ. split_and!; try done.
    + intros c fuel Ec Hqc Hf. destruct fuel as [|fuel]; [cbn in Hf; lia|]. cbn [read_loop]. unfold mbind, client_bind.
      rewrite E1 by done. by rewrite decide_True by done.
  - destruct (queued_request _ _ _ _ _ _ _ Hi1 Hq1) as (El & Ho & Hn1).
    pose proof (i_ids _ _ _ _ _ _ _ _ Hi1 _ _ El) as Hid. cbn in Hid.
    destruct (read_answered s id off n Hs) as (p & s' & Ep & Hs' & Hpid & Hans & Hpf); [unfold is_u32; lia|lia|lia|].
    destruct (round_ok content handle offset chunk depth id0 Hoff ltac:(lia) Hdepth Hroom answered _ st1 id off n p Hi1)
      as (st2 & L2 & E2 & Hi2 & Hn2 & Hq2 & Hl2); try done; [lia|].
    inversion Hl' as [|? ? Hl1' Hl'']; subst. cbn in Hl1'.
    assert (HlQ : Forall (λ q, q.2.2 ≤ chunk) (Q1 ++ L2)).
    { apply Forall_app. split; [done|]. eapply list.Forall_impl; [exact Hl2|]. cbn. intros; lia. }
    destruct (IH (answered + 1) _ st2 (Q1 ++ L2) s' Hi2) as (st3 & replies & L3 & Hf & Hf3 & Es & E3 & Hi3 & Hend); try done; try lia.
    { by apply Hq2. }
    pose proof (requests_ok _ _ _ _ _ Hi2 (Hq2 Q1 Hq1) HlQ ltac:(lia)) as Hf2. unfold SftpDownload.requests in *.
    exists st3, (p :: replies), (L1 ++ L2 ++ L3). split_and!.
    + by constructor.
    + rewrite !fmap_app. by rewrite !Forall_app.
    + rewrite app_assoc, EQ, app_assoc in *. cbn [fmap list_fmap app session_replies fst snd]. by rewrite <- app_assoc, Ep, app_assoc, Es.
    + intros c fuel Ec Hqc Hf'. destruct fuel as [|fuel]; [cbn in Hf'; lia|]. cbn [read_loop]. unfold mbind, client_bind.
      rewrite E1 by done. rewrite decide_False by (intros E0; by rewrite E0, lookup_empty in El).
      rewrite reading_sent, E2, reading_sent, E3, <- !reading_sent, !sent_app; rewrite ?sent_next, ?Ec; try done; cbn in Hf'; lia.
    + rewrite len_cons, !len_app. by replace (answered + (1 + len replies)) with (answered + 1 + len replies) by lia;
        replace (nx + (len L1 + (len L2 + len L3))) with (nx + len L1 + len L2 + len L3) by lia.
    + apply Hend.
    + apply Hend.
Qed.
End Loop.

(** C4: a download from this server with this client gets the file.  The session
    has a file open under the handle; a client that asks for it with any chunk,
    any number of reads in flight and from any offset writes requests to which
    the session's replies are just those that the client reads, and with them
    its sink gets exactly the rest of the file, although the session cuts its
    answers to half a packet and the system reads as little as it likes. *)
Theorem sftp_get (s : St) offset chunk depth c fails :
  serves s → 0 ≤ offset → 1 ≤ chunk ≤ U32_MAX → 1 ≤ depth →
  Z.max offset (len content) + (depth + 1) * chunk ≤ U64_MAX →
  0 ≤ c_next_id c → c_next_id c + Z.max 0 (len content - offset) + 2 * depth < U32_MAX →
  quiet c → (∀ i, fails i = None) →
  ∃ reqs replies sink c' v',
    let requests := input_of (concat (packet_encode <$> reqs)) in
    serve_loop (Datatypes.S (length (i_bytes requests))) (served requests [] fails s) = (Some (SOk tt), v') ∧ sv_out v' = replies ∧
    read_to handle offset chunk depth (λ _, None) (reading replies c) = (SOk (Z.max 0 (len content - offset), sink), c') ∧
    c_out c' = c_out c ++ reqs ∧ concat sink = drop (Z.to_nat offset) content.
Proof.
  intros Hs Ho Hc Hd Hroom Hid Hids Hq Hw.
  pose proof (inv_start content offset chunk depth (c_next_id c) (proj1 Hc) Hd) as Hi.
  destruct (get_loop offset chunk depth (c_next_id c) Ho Hc Hd Hroom Hid Hids
    (Datatypes.S (Z.to_nat (Z.max 0 (len content - offset) + depth))) 0 _ _ [] s Hi) as (st & replies & L & Hf & HfL & Es & El & Hi' & Hwr & Hre);
    try done; try lia.
  { split; [done|constructor]. }
  destruct (serve_loop_frames (requests handle L) (served (input_of (concat (packet_encode <$> requests handle L))) [] fails s)
    (Datatypes.S (length (concat (packet_encode <$> requests handle L))))) as (v' & Ev & Eo); try done.
  { pose proof (frames_length (requests handle L)). lia. }
  exists (requests handle L), replies, (rt_sink st), (sent handle L (reading [] c)), v'. cbn zeta. split_and!; try done.
  - by rewrite Eo.
  - unfold read_to. rewrite !Z.max_l by lia. cbv zeta. fold (read_start offset). unfold mbind, client_bind. rewrite El.
    + rewrite decide_True by done. unfold mret, client_ret, wrap64. rewrite Hwr, Z.mod_small by (pose proof (len_nonneg content); nia).
      by replace (Z.max offset (len content) - offset) with (Z.max 0 (len content - offset)) by lia.
    + done.
    + done.
    + unfold reading, set_field. cbn [c_in i_bytes input_of]. pose proof (frames_length replies). lia.
  - rewrite (i_sink _ _ _ _ _ _ _ _ Hi'), Hwr. apply take_ge. rewrite length_drop. unfold len in *. lia.
Qed.
End Get.
