(* ===== verification/TransferDemo.v ===== *)
(** * File transfer on concrete inputs

    SCP: a directory with two files and a directory is sent to a file system
    with one directory; a sender that names the parent directory is refused.
    SFTP: sessions over a system with one file. *)
From S2P Require Import Prelude Wire Text Scp ScpFacts ScpCopy ScpTree.

Definition demo_base : path := [RootDir; Normal (bs "dst")].
Definition demo_target : MemFs :=
  {| mem_nodes q := if decide (q = demo_base) then Some (NDir NEW_DIR_MODE) else None; mem_cursor := 0 |}.

Definition demo_md (mode size : Z) : Metadata :=
  {| md_mode := mode; md_len := size; md_modified := Some 1700000000; md_accessed := None |}.
Definition demo_tree : Tree :=
  TDir (demo_md 493 0) (inl [
    (bs "notes", TFile (demo_md 420 5) (inl (bs "hello")));
    (bs "empty", TFile (demo_md 384 0) (inl []));
    (bs "fifo", TOther);
    (bs "sub", TDir (demo_md 448 0) (inl [(bs "x y", TFile (demo_md 511 2) (inl (bs "ok")))]))]).

Definition demo_send : ScpSendOptions := {| send_recursive := true; send_preserve_times := true |}.
Definition demo_recv : ScpRecvOptions := {| recursive := true; preserve_times := true; target_is_file := false |}.

(** Everything about a node of [demo_tree] but its place in the tree. *)
Ltac tree_fact := first [done|vm_compute; intuition congruence].

Lemma demo_tree_ok : tree_ok (Some DEFAULT_MAX_FILE_SIZE) (bs "dir") demo_tree.
Proof.
  constructor; try tree_fact.
  - apply (bool_decide_unpack _). by vm_compute.
  - repeat (apply Forall_cons_2 || apply Forall_nil_2); cbn [fst snd]; constructor; try tree_fact.
    + apply NoDup_singleton.
    + repeat (apply Forall_cons_2 || apply Forall_nil_2). cbn [fst snd]. constructor; tree_fact.
Qed.

Lemma demo_target_fresh : fresh (demo_base ++ [Normal (bs "dir")]) demo_target.
Proof. intros p. cbn [mem_nodes demo_target]. rewrite decide_False; [done|]. by intros [=]. Qed.


(** A receiver whose sender says [lines]. *)
Definition demo_receiver (lines : bytes) : Receiver (Logged MemFs) :=
  {| rx_stream := idle_stream (λ _, 1%nat) lines; rx_fs := (demo_target, []); rx_base := demo_base; rx_stack := [];
     pending_times := None; rx_opts := demo_recv; max_file_size := None; expected_name := None; received_one := false;
     top_level_filter := None |}.
Definition demo_lines : bytes :=
  bs "D0755 0 a" ++ [Byte.x0a] ++ bs "C0644 1 f" ++ [Byte.x0a] ++ bs "x" ++ [Byte.x00] ++ bs "D0755 0 .." ++ [Byte.x0a].


(** * SFTP on a concrete system

    A system with one file, which it reads three bytes at a time, under a
    read-only session, a jailed one, and one that a client downloads from. *)
From S2P Require Import WireLoop TextFacts SftpPacket SftpPacketFacts SftpPath SftpServer SftpServerFacts SftpReplies.
From S2P Require Import SftpClient SftpDownload.

Definition fox : bytes := bs "the quick brown fox jumps".

(** The state of the system is the cursor of the file. *)
Definition fox_error (e : Errno) : IoError := {| io_kind := KOtherKind; io_errno := Some e; io_text := bs "error" |}.
Definition fox_metadata : Metadata :=
  {| m_type := FtFile; m_len := len fox; m_uid := 0; m_gid := 0; m_mode := 33188; m_atime := 0; m_mtime := 0; m_dev := 1; m_ino := 2 |}.
Definition fox_exec A (c : Call unit unit unit A) (pos : Z) : A * Z :=
  match c in Call _ _ _ A return A * Z with
  | COpen _ _ _ _ _ => (inl tt, 0)
  | CSeek _ _ _ _ off => (inl tt, off)
  | CRead _ _ _ _ n =>
      let d := take (Z.to_nat (Z.min n 3)) (drop (Z.to_nat pos) fox) in (inl d, pos + len d)
  | CFileMetadata _ _ _ _ | CMetadata _ _ _ _ | CSymlinkMetadata _ _ _ _ | CEntryMetadata _ _ _ _ => (inl fox_metadata, pos)
  | CExists _ _ _ _ => (true, pos)
  | CReadDir _ _ _ _ | CTryClone _ _ _ _ => (inl tt, pos)
  | CNext _ _ _ _ => (None, pos)
  | CReadLink _ _ _ _ => (inl [], pos)
  | CWriteAll _ _ _ _ _ | CSetLen _ _ _ _ _ | CFileSetPermissions _ _ _ _ _ | CSyncAll _ _ _ _ | CRemoveFile _ _ _ _
  | CCreateDir _ _ _ _ | CRemoveDir _ _ _ _ | CRename _ _ _ _ _ | CSymlink _ _ _ _ _ | CHardLink _ _ _ _ _
  | CSetPermissions _ _ _ _ _ => (inr (fox_error EACCES), pos)
  | CFchmodat _ _ _ _ _ | CFchownat _ _ _ _ _ _ _ | CUtimensat _ _ _ _ _ _ _ => (inr EACCES, pos)
  | CStatvfs _ _ _ _ | CFstatvfs _ _ _ _ => (inr EACCES, pos)
  | CUserName _ _ _ _ | CGroupName _ _ _ _ | CHome _ _ _ _ => (None, pos)
  end.
#[local] Instance fox_os : SftpOs Z :=
  {| File := unit; ReadDir := unit; DirEntry := unit; de_name _ := bs "fox"; os_error := fox_error; exec := fox_exec |}.

#[local] Instance fox_laws : FileLaws (W := Z) tt fox (λ p w, w = p ∧ 0 ≤ p).
Proof.
  split.
  - intros p w off _ Ho. by exists off.
  - intros p w n [-> _] Hp Hn. set (d := take (Z.to_nat (Z.min n 3)) (drop (Z.to_nat p) fox)). exists d, (p + len d). pose proof (len_nonneg d).
    split_and!; [done|done|lia|eexists; symmetry; apply take_drop| |].
    + unfold d, len. rewrite length_take. lia.
    + intros E. apply (f_equal length) in E. unfold d in E. rewrite length_take, length_drop in E. unfold len. cbn in E |- *. lia.
Qed.

Definition demo_options : SftpServerOptions := with_root (bs "/srv") (options_new (bs "/srv/ftp")).

Lemma frame_ok_intro p : packet_ok p → bool_decide (0 < len (body_enc p) ≤ MAX_PACKET_SIZE) = true → frame_ok p.
Proof. intros Hp Hl. split; [done|]. by apply bool_decide_eq_true in Hl. Qed.

(** ** Packets *)

Definition demo_requests : list Packet :=
  [POpen 7 (bs "fox") FXF_READ attrs_default; POpen 8 (bs "fox") FXF_WRITE attrs_default; PRemove 9 (bs "../x");
   PRead 10 (bs "handle") 0 100; PStat 11 (bs "/srv/ftp/fox"); PRealpath 12 (bs "fox")].
Lemma demo_requests_ok : Forall frame_ok demo_requests.
Proof.
  repeat (apply Forall_cons_2 || apply Forall_nil_2); (apply frame_ok_intro; [|by vm_compute]); cbn;
    unfold str_ok, is_u32, is_u64; repeat split; try done; vm_compute; try congruence.
Qed.
Lemma demo_init_ok : frame_ok (PInit 3 []).
Proof. apply frame_ok_intro; [|by vm_compute]. cbn. unfold is_u32. split_and!; [lia|lia|constructor|vm_compute; congruence]. Qed.

Definition demo_input : Input := input_of (concat (packet_encode <$> PInit 3 [] :: demo_requests)).

Lemma sftp_roundtrip_witness :
  read_packets 6 (input_of (concat (packet_encode <$> demo_requests) ++ bs "rest")) = (SOk demo_requests, input_of (bs "rest")).
Proof. exact (sftp_roundtrip demo_requests (bs "rest") demo_requests_ok). Defined.

(** ** Sessions *)

Abbreviation demo_run o := (run (fresh_session (W := Z) o 0 demo_input (λ _, None))).

Lemma sftp_read_only_witness :
  length (calls_of (demo_run (as_read_only demo_options)).2) = 2%nat ∧
  Forall (λ e : Event Z, mutates (projT2 e).1 = false) (calls_of (demo_run (as_read_only demo_options)).2).
Proof. split; [by vm_compute|]. exact (proj2 (sftp_read_only (as_read_only demo_options) 0 demo_input (λ _, None) eq_refl)). Defined.

Lemma sftp_jailed_witness :
  match calls_of (demo_run demo_options).2 with
  | e :: log => confined (lexically_clean (bs "/srv")) log e
  | [] => False
  end.
Proof.
  destruct (sftp_jailed demo_options (bs "/srv") 0 demo_input (λ _, None) eq_refl) as [_ H]. revert H.
  destruct (calls_of (demo_run demo_options).2) as [|e log] eqn:E; [by vm_compute in E|]. intros H. by apply (H [] e log).
Defined.

Lemma sftp_answers_witness :
  ∃ v' replies,
    run (served (W := Z) demo_input [] (λ _, None) (session_new demo_options, 0)) = (Some (SOk tt), v') ∧
    sv_out v' = VERSION_REPLY :: replies ∧ Forall2 answers demo_requests replies.
Proof.
  apply (sftp_answers (session_new demo_options, 0) 3 [] demo_requests (λ _, None)); [lia|apply demo_init_ok|apply demo_requests_ok|done].
Defined.


(** ** Downloads *)

Definition demo_handle : bytes := rev (be_bytes 8 1).
Definition demo_session : SftpServerSession (W := Z) * Z :=
  ({| opts := demo_options; handles := {[ 1 := HFile tt [bs "srv"; bs "ftp"; bs "fox"] false ]}; next := 2 |}, 5).

Lemma sftp_get_witness :
  ∃ reqs replies sink c' v',
    let requests := input_of (concat (packet_encode <$> reqs)) in
    serve_loop (Datatypes.S (length (i_bytes requests))) (served requests [] (λ _, None) demo_session) = (Some (SOk tt), v') ∧
    sv_out v' = replies ∧
    read_to demo_handle 4 10 4 (λ _, None) (reading replies (transport (input_of []) (λ _, None))) = (SOk (21, sink), c') ∧
    c_out c' = [] ++ reqs ∧ concat sink = bs "quick brown fox jumps".
Proof.
  apply (sftp_get (SftpOs0 := fox_os) tt fox (λ p w, w = p ∧ 0 ≤ p) demo_handle 1 eq_refl eq_refl demo_session 4 10 4 (transport (input_of []) (λ _, None)) (λ _, None));
    try done; try (vm_compute; intuition congruence).
  split; [by eexists _, _|by exists 5].
Defined.

(** A server that answers the second read first, and in part. *)
Definition demo_replies : list Packet :=
  [PData 2 (bs "br"); PData 1 (bs "quick "); PData 3 (bs "own "); PStatus 4 FxEof (bs "eof") []; PData 5 []].
Lemma demo_replies_ok : Forall frame_ok demo_replies.
Proof.
  repeat (apply Forall_cons_2 || apply Forall_nil_2); (apply frame_ok_intro; [|by vm_compute]); cbn;
    unfold str_ok, is_u32; repeat split; try done; vm_compute; try congruence.
Qed.

Abbreviation demo_client := (reading demo_replies (transport (input_of []) (λ _, None))).

(** The next reply, to the read of [n] bytes at [off]. *)
Ltac answers_read :=
  eapply honest_reply; [vm_compute; reflexivity| |reflexivity| |];
  [vm_compute; reflexivity
  |vm_compute; first [left; split_and!; [discriminate|discriminate|by eexists]|right; split; [reflexivity|discriminate]|discriminate]
  |intros ? ? E; vm_compute in E; injection E as <- <-].

Lemma demo_honest : honest (bs "quick brown ") demo_handle 6 2 (read_start 0) demo_client demo_replies.
Proof. do 5 answers_read. eapply honest_done; vm_compute; reflexivity. Qed.

Lemma sftp_download_witness :
  ∃ sink c', read_to demo_handle 0 6 2 (λ _, None) demo_client = (SOk (Z.max 0 (len (bs "quick brown ") - 0), sink), c') ∧
    concat sink = drop (Z.to_nat 0) (bs "quick brown ") ∧ len demo_replies ≤ Z.max 0 (len (bs "quick brown ") - 0) + 2.
Proof.
  apply (sftp_download (bs "quick brown ") demo_handle 0 6 2 demo_replies demo_client).
  1-6: vm_compute; congruence.
  - intros i. reflexivity.
  - reflexivity.
  - apply demo_replies_ok.
  - apply demo_honest.
Defined.
