(* ===== verification/HostTrust.v ===== *)
(** * The client's decision to trust a host key (src/client.rs, src/known_hosts/revoked.rs)

    [build_verifier]: what a client does with the host key of a key exchange
    reply before it checks its signature.  The store of known hosts is behind a
    mutex in the source; here it is part of [TrustState], and a callback that
    runs while the lock is released is given the store and returns it, so that
    it may have changed.  Files that are written are recorded; messages to the
    user are not modelled, nor a poisoned mutex. *)
From S2P Require Import Prelude Wire Text Base64 Crypto Cipher Compress Packet KexInit KexHash KexMethods KexKeys.
From S2P Require Import HostKey Cert Runner Advert KnownHosts Krl.

(** ** [RevokedHostKeys] (known_hosts/revoked.rs) *)

Inductive RevokedHostKeys := RKrl (k : Krl) | RKeys (keys : list bytes).

(** [str::lines]: a carriage return in front of a newline goes with it. *)
Fixpoint lines_of (parts : list bytes) : list bytes :=
  match parts with
  | [] => []
  | [last] => if is_nil last then [] else [last]
  | p :: parts => strip_cr p :: lines_of parts
  end.
Definition str_lines (s : bytes) : list bytes := lines_of (split_on NEWLINE s).

Section Trust.
Context {HH : HostHash} {C : PureCrypto} {S : SigPrims} (allow_rsa_sha1 : bool).

Fixpoint revoked_lines (lines : list bytes) (keys : list bytes) : result (list bytes) :=
  match lines with
  | [] => Ok keys
  | line :: lines =>
      let line := str_trim line in
      if is_nil line || first_is HASH line then revoked_lines lines keys else
      match split_whitespace line with
      | _ :: b64 :: _ =>
          let? blob := base64_decode b64 in
          match certificate_parse blob with
          | Ok cert => revoked_lines lines (keys ++ [embedded_pubkey_blob cert])
          | Err _ => revoked_lines lines (keys ++ [blob])
          end
      | _ => Err (Format "revoked host keys: bad line")
      end
  end.

Definition revoked_parse (data : bytes) : result RevokedHostKeys :=
  match krl_parse data with
  | Ok krl => Ok (RKrl krl)
  | Err _ =>
      let? text := from_utf8 (Format "revoked host keys: not a KRL or key list") data in
      let? keys := revoked_lines (str_lines text) [] in Ok (RKeys keys)
  end.

Definition host_key_revoked (r : RevokedHostKeys) (blob : bytes) : bool :=
  match r with
  | RKrl krl => is_revoked_key krl blob
  | RKeys keys => List.existsb (λ k, bytes_eqb k blob) keys
  end.

Definition host_cert_revoked (r : RevokedHostKeys) (cert : Certificate) : bool :=
  if host_key_revoked r (embedded_pubkey_blob cert) || host_key_revoked r (signature_key_blob cert) then true
  else match r with
       | RKrl krl => is_revoked_cert krl (signature_key_blob cert) (serial cert) (key_id cert)
       | RKeys _ => false
       end.

(** ** The policy *)

Inductive AddressStatus := AddrUnknown | AddrKnown | AddrChanged.
Inductive HostKeyChange := KeyUnknown | KeyChanged | AddressChanged.

Record HostKeyPrompt := {
  hkp_change : HostKeyChange; hkp_host : bytes; hkp_port : Z; hkp_key_type : bytes; hkp_key_blob : bytes;
  hkp_fingerprint : bytes; hkp_existing : list (bytes * bytes); hkp_address : option (bytes * AddressStatus)
}.

Inductive TofuAction :=
  | TReject
  | TAccept
  | TPrompt (cb : (* host *) bytes → (* port *) Z → (* key_type *) bytes → (* key_blob *) bytes →
                  KnownHosts → bool * KnownHosts)
  | TAcceptWithWarning
  | TPromptDetailed (cb : HostKeyPrompt → KnownHosts → bool * KnownHosts).

Record KnownHostsPolicy := {
  save_path : option bytes; hash_new_entries : bool; on_unknown : TofuAction; on_mismatch : TofuAction;
  global : list KnownHosts; host_key_alias : option bytes; revoked : option RevokedHostKeys;
  command : option ((* key_type *) bytes → (* key_blob *) bytes → option bytes); check_host_ip : option bytes;
  on_address_change : TofuAction; pre_check : option ((* key_type *) bytes → (* key_blob *) bytes → option bool);
  on_known : option ((* key_type *) bytes → (* key_blob *) bytes → KnownHosts → KnownHosts)
}.

Inductive HostKeyPolicy := AcceptAny | AcceptFingerprint (fp : bytes) | PKnownHosts (kh : KnownHostsPolicy).

Record TrustState := {
  ts_store : KnownHosts;
  ts_mismatched : bool;
  ts_saved : list (bytes * bytes);
  ts_rng : Rng
}.
#[export] Instance TrustState_eta : Etable TrustState := fun s => {|
  ts_store := ts_store s; ts_mismatched := ts_mismatched s; ts_saved := ts_saved s; ts_rng := ts_rng s |}.

(** ** Helpers *)

(** The base64 of [host_key_fingerprint] has no padding. *)
Fixpoint base64_nopad (input : bytes) : bytes :=
  match input with
  | [] => []
  | [a] => let n := Z.shiftl (u8 a) 16 in [sextet n 18; sextet n 12]
  | [a; b] => let n := Z.lor (Z.shiftl (u8 a) 16) (Z.shiftl (u8 b) 8) in [sextet n 18; sextet n 12; sextet n 6]
  | a :: b :: c :: rest =>
      let n := Z.lor (Z.lor (Z.shiftl (u8 a) 16) (Z.shiftl (u8 b) 8)) (u8 c) in
      sextet n 18 :: sextet n 12 :: sextet n 6 :: sextet n 0 :: base64_nopad rest
  end.
Definition host_key_fingerprint (blob : bytes) : bytes := bs "SHA256:" ++ base64_nopad (sha256_digest blob).

Definition known_hosts_key_type (alg : bytes) : bytes :=
  let plain := default alg (cert_name_to_plain alg) in
  if bytes_eqb plain (bs "rsa-sha2-256") || bytes_eqb plain (bs "rsa-sha2-512") then bs "ssh-rsa" else plain.

Definition combine_lookups (a b : LookupResult) : LookupResult :=
  match a, b with
  | LRevoked, _ | _, LRevoked => LRevoked
  | Match, _ | _, Match => Match
  | Mismatch expected, Mismatch more => Mismatch (expected ++ more)
  | Mismatch e, _ | _, Mismatch e => Mismatch e
  | Unknown, Unknown => Unknown
  end.

Definition DEV_NULL : bytes := bs "/dev/null".

Definition save_known_hosts (path : bytes) (st : TrustState) : TrustState :=
  if bytes_eqb path DEV_NULL then st else st <| ts_saved := ts_saved st ++ [(path, to_bytes (ts_store st))] |>.

(** [if let Some(path) = &kh.save_path { save_known_hosts(..) }] *)
Definition save_store (kh : KnownHostsPolicy) (st : TrustState) : TrustState :=
  match save_path kh with Some path => save_known_hosts path st | None => st end.

Definition reply_host_key (reply_payload : bytes) : result bytes :=
  let? (_, r) := read_u8 (reader_new reply_payload) in
  let? (k, _) := read_string r in Ok k.

Definition pinned_host_key_algorithms (pin : bytes) (over : option (list bytes)) : result (list bytes) :=
  let? (key_alg, _) := read_string (reader_new pin) in
  let? algs := ok_or (match_name
      [(bs "ssh-rsa", [bs "rsa-sha2-512"; bs "rsa-sha2-256"]); (bs "ssh-ed25519", [bs "ssh-ed25519"]);
       (bs "ecdsa-sha2-nistp256", [bs "ecdsa-sha2-nistp256"]); (bs "ecdsa-sha2-nistp384", [bs "ecdsa-sha2-nistp384"]);
       (bs "ecdsa-sha2-nistp521", [bs "ecdsa-sha2-nistp521"]); (MLDSA, [MLDSA])] key_alg)
      (Unsupported "pinned host key type") in
  let out := match over with
             | Some l => List.filter (λ a, List.existsb (bytes_eqb a) algs) l
             | None => algs
             end in
  if is_nil out then Err (Config "HostKeyAlgorithms excludes the pinned host key's algorithm") else Ok out.

(** The store keeps its lock for the whole lookup, so one value of it answers. *)
Definition prioritize_known_host_key_algorithms (over : AlgoOverrides) (policy : HostKeyPolicy) (store : KnownHosts)
    (host : bytes) (port : Z) : option (list bytes) :=
  match ao_host_key_algorithms over with
  | Some l => Some l
  | None =>
      match policy with
      | PKnownHosts kh =>
          let '(lh, lp) := match host_key_alias kh with Some alias => (alias, 22) | None => (host, port) end in
          let types g := e_key_type <$> List.filter is_plain (find g lh lp) in
          let present := types store ++ concat (types <$> global kh) in
          if is_nil present then None else Some (order_host_key_algorithms default_host_key_algorithms present)
      | _ => None
      end
  end.

(** ** The decision *)

(** [K_S] of the reply, read by hand. *)
Definition reply_k_s (reply_payload : bytes) : result bytes :=
  if len reply_payload <? 5 then Err (Format "kex-ecdh-reply too short") else
  let k_s_len := be_value (slice reply_payload 1 5) in
  if len reply_payload <? 5 + k_s_len then Err (Format "kex-ecdh-reply truncated")
  else Ok (slice reply_payload 5 (5 + k_s_len)).

(** The [pre_check] block: [Ok true] is its [return Ok(verifier)]. *)
Definition pre_check_stage (kh : KnownHostsPolicy) (alg k_s : bytes) : result bool :=
  match pre_check kh with
  | None => Ok false
  | Some pre =>
      let revoked_by f := match revoked kh with Some r => f r | None => false end in
      let? (plain, is_revoked) :=
        (if is_cert_name alg then
           let? cert := certificate_parse k_s in
           Ok (embedded_pubkey_blob cert,
               revoked_by (λ r, host_cert_revoked r cert || host_key_revoked r (embedded_pubkey_blob cert)))
         else Ok (k_s, revoked_by (λ r, host_key_revoked r k_s))) in
      if is_revoked : bool then Err HostKeyRejected else
      match pre (known_hosts_key_type alg) plain with
      | Some true => Ok true
      | Some false => Err HostKeyRejected
      | None => Ok false
      end
  end.

(** The closure [command_hosts]. *)
Definition command_hosts (kh : KnownHostsPolicy) (blob : bytes) : option KnownHosts :=
  match command kh with
  | None => None
  | Some f =>
      match read_string (reader_new blob) with
      | Ok (t, _) => if utf8_valid t then from_bytes <$> f t blob else None
      | Err _ => None
      end
  end.

(** [kh.global.iter().chain(from_command.iter())] *)
Definition other_files (kh : KnownHostsPolicy) (from_command : option KnownHosts) : list KnownHosts :=
  global kh ++ match from_command with Some g => [g] | None => [] end.

Definition lookup_name (kh : KnownHostsPolicy) (host : bytes) (port : Z) : bytes * Z :=
  match host_key_alias kh with Some alias => (alias, 22) | None => (host, port) end.

(** The certificate's own constraints, checked without a known_hosts file. *)
Definition check_host_cert (cert : Certificate) (now : Z) : result unit :=
  let? _ := check_type cert Host in
  let? _ := check_validity cert now in
  require_known_critical_options cert.

(** The certificate block.  [Ok None] is its [return Ok(verifier)], [Ok (Some
    k)] leaves the certified key [k] to be checked as a plain one. *)
Definition cert_stage (policy : HostKeyPolicy) (k_s : bytes) (host : bytes) (port : Z) (ca_algos : list bytes) (now : Z)
    (store : KnownHosts) : result (option bytes) :=
  let? cert := certificate_parse k_s in
  match policy with
  | AcceptAny => let? _ := check_host_cert cert now in Ok None
  | AcceptFingerprint fp =>
      if negb (bytes_eqb (sha256_digest k_s) fp) then Err HostKeyRejected else
      let? _ := check_host_cert cert now in Ok None
  | PKnownHosts kh =>
      let others := other_files kh (command_hosts kh k_s) in
      let '(host, port) := lookup_name kh host port in
      if match revoked kh with Some r => host_cert_revoked r cert | None => false end then Err HostKeyRejected else
      if revokes_cert store host port cert || List.existsb (λ g, revokes_cert g host port cert) others
      then Err HostKeyRejected else
      let has_ca := has_ca_for store host port cert || List.existsb (λ g, has_ca_for g host port cert) others in
      if negb has_ca then Ok (Some (embedded_pubkey_blob cert)) else
      let user := verify_host_cert allow_rsa_sha1 store host port cert ca_algos now in
      if negb (is_ok user)
         && List.existsb (λ g, is_ok (verify_host_cert allow_rsa_sha1 g host port cert ca_algos now)) others
      then Ok None
      else let? _ := user in Ok None
  end.

Definition st_try_add (host : bytes) (port : Z) (key_type key_blob : bytes) (hashed : bool) (st : TrustState)
    : result unit * TrustState :=
  let '(res, (store, rng)) := try_add (ts_rng st) (ts_store st) host port key_type key_blob hashed in
  (res, st <| ts_store := store |> <| ts_rng := rng |>).

(** A callback runs with the lock released. *)
Definition unlocked (cb : KnownHosts → bool * KnownHosts) (st : TrustState) : bool * TrustState :=
  let (ok, store) := cb (ts_store st) in (ok, st <| ts_store := store |>).

Definition ask_mismatch (a : TofuAction) (p : HostKeyPrompt) (st : TrustState) : bool * TrustState :=
  match a with
  | TReject => (false, st)
  | TAccept => (true, st)
  | TAcceptWithWarning => (true, st <| ts_mismatched := true |>)
  | TPrompt cb => unlocked (cb (hkp_host p) (hkp_port p) (hkp_key_type p) (hkp_key_blob p)) st
  | TPromptDetailed cb => unlocked (cb p) st
  end.

Definition ask_unknown (a : TofuAction) (p : HostKeyPrompt) (st : TrustState) : bool * TrustState :=
  match a with
  | TReject => (false, st)
  | TAccept | TAcceptWithWarning => (true, st)
  | TPrompt cb => unlocked (cb (hkp_host p) (hkp_port p) (hkp_key_type p) (hkp_key_blob p)) st
  | TPromptDetailed cb => unlocked (cb p) st
  end.

(** [TofuAction::Accept | Prompt(_) | PromptDetailed(_)] *)
Definition rotates (a : TofuAction) : bool :=
  match a with TAccept | TPrompt _ | TPromptDetailed _ => true | _ => false end.

(** The arm of a host that is known with this key. *)
Definition on_match (kh : KnownHostsPolicy) (new_address : option (bytes * Z)) (key_type k_s : bytes) (st : TrustState)
    : TrustState :=
  match new_address with
  | Some (ip, port) =>
      match save_path kh with
      | Some path =>
          if bytes_eqb path DEV_NULL then st else
          let (res, st) := st_try_add ip port key_type k_s (hash_new_entries kh) st in
          if is_ok res then save_known_hosts path st else st
      | None => st
      end
  | None => match on_known kh with Some f => st <| ts_store := f key_type k_s (ts_store st) |> | None => st end
  end.

(** The arm of a changed key. *)
Definition on_changed (kh : KnownHostsPolicy) (p : HostKeyPrompt) (st : TrustState) : result unit * TrustState :=
  let (accept, st) := ask_mismatch (on_mismatch kh) p st in
  if negb accept then (Err HostKeyRejected, st) else
  if rotates (on_mismatch kh) then
    let st := st <| ts_store := (remove_exact (ts_store st) (hkp_host p) (hkp_port p)).2 |> in
    let (res, st) := st_try_add (hkp_host p) (hkp_port p) (hkp_key_type p) (hkp_key_blob p) (hash_new_entries kh) st in
    if is_ok res then (Ok tt, save_store kh st) else (Err HostKeyRejected, st)
  else (Ok tt, st).

(** The arm of an unknown host; the address goes in with the name. *)
Definition on_new (kh : KnownHostsPolicy) (p : HostKeyPrompt) (new_address : option (bytes * Z)) (st : TrustState)
    : result unit * TrustState :=
  let (accept, st) := ask_unknown (on_unknown kh) p st in
  if negb accept then (Err HostKeyRejected, st) else
  let (res, st) :=
    match new_address with
    | Some (ip, port) =>
        if hash_new_entries kh then
          let (r1, st) := st_try_add (hkp_host p) (hkp_port p) (hkp_key_type p) (hkp_key_blob p) true st in
          if is_ok r1 then st_try_add ip port (hkp_key_type p) (hkp_key_blob p) true st else (r1, st)
        else
          let (r1, store) := try_add_names (ts_store st) [(hkp_host p, hkp_port p); (ip, port)] (hkp_key_type p)
                               (hkp_key_blob p) in
          (r1, st <| ts_store := store |>)
    | None => st_try_add (hkp_host p) (hkp_port p) (hkp_key_type p) (hkp_key_blob p) (hash_new_entries kh) st
    end in
  if is_ok res then (Ok tt, save_store kh st) else (Err HostKeyRejected, st).

(** The last block: a trusted host whose address has another key. *)
Definition address_stage (kh : KnownHostsPolicy) (p : HostKeyPrompt) (st : TrustState) : result unit * TrustState :=
  let (accept, st) :=
    match on_address_change kh with
    | TAccept | TAcceptWithWarning => (true, st)
    | TPrompt cb => unlocked (cb (hkp_host p) (hkp_port p) (hkp_key_type p) (hkp_key_blob p)) st
    | TPromptDetailed cb => unlocked (cb p) st
    | TReject => (false, st)
    end in
  if accept then (Ok tt, st) else (Err HostKeyRejected, st).

Definition lookup_all (store : KnownHosts) (others : list KnownHosts) (host : bytes) (port : Z) (key_type k_s : bytes)
    : LookupResult :=
  fold_left (λ l g, combine_lookups l (lookup g host port key_type k_s)) others (lookup store host port key_type k_s).

Definition address_status (l : LookupResult) : AddressStatus :=
  match l with Match => AddrKnown | Unknown => AddrUnknown | _ => AddrChanged end.

(** The known_hosts block for a plain key, or the key of a certificate of an
    unlisted CA ([from_cert]). *)
Definition known_stage (kh : KnownHostsPolicy) (alg k_s : bytes) (from_cert : bool) (target_host : bytes) (target_port : Z)
    (st : TrustState) : result unit * TrustState :=
  let from_command := command_hosts kh k_s in
  let key_type := known_hosts_key_type alg in
  if negb (match read_string (reader_new k_s) with Ok (t, _) => bytes_eqb t key_type | Err _ => false end)
  then (Err HostKeyRejected, st) else
  let address := if from_cert then None else (λ ip, (ip, target_port)) <$> check_host_ip kh in
  let '(host, port) := lookup_name kh target_host target_port in
  if match revoked kh with Some r => host_key_revoked r k_s | None => false end then (Err HostKeyRejected, st) else
  let lookup := lookup_all (ts_store st) (other_files kh from_command) host port key_type k_s in
  let ip_lookup := (λ a, lookup_all (ts_store st) (global kh) a.1 a.2 key_type k_s) <$> address in
  let ip_name := match address with Some (ip, p) => format_host_pattern ip p | None => [] end in
  let ip_prompt := (λ l, (ip_name, address_status l)) <$> ip_lookup in
  let new_address := match ip_lookup with Some Unknown => address | _ => None end in
  let prompt change existing :=
    {| hkp_change := change; hkp_host := host; hkp_port := port; hkp_key_type := key_type; hkp_key_blob := k_s;
       hkp_fingerprint := host_key_fingerprint k_s; hkp_existing := existing; hkp_address := ip_prompt |} in
  let '(res, st) :=
    match lookup with
    | Match => (Ok tt, on_match kh new_address key_type k_s st)
    | LRevoked => (Err HostKeyRejected, st)
    | Mismatch expected => on_changed kh (prompt KeyChanged expected) st
    | Unknown => on_new kh (prompt KeyUnknown []) new_address st
    end in
  let! _ := res at st in
  match lookup, ip_lookup with
  | Mismatch _, _ => (Ok tt, st)
  | _, Some (Mismatch expected) => address_stage kh (prompt AddressChanged expected) st
  | _, _ => (Ok tt, st)
  end.
End Trust.

(** ** The verifier of a connection *)

Section Connect.
Context {P : CipherPrims} {CC : CompCol} {C : PureCrypto} {H : KexHash} {K : KexPrims} {HH : HostHash} {S : SigPrims}.
Context (allow_rsa_sha1 : bool).

(** The decision for the reply of a first exchange, from the negotiated
    algorithm on. *)
Definition first_decision (policy : HostKeyPolicy) (alg k_s target_host : bytes) (target_port : Z)
    (ca_signature_algorithms : option (list bytes)) (now : Z) (st : TrustState) : result Cert.Verifier * TrustState :=
  let! verifier := host_key_verify_by_name allow_rsa_sha1 alg k_s at st in
  let! trusted := match policy with PKnownHosts kh => pre_check_stage kh alg k_s | _ => Ok false end at st in
  if trusted then (Ok verifier, st) else
  let ca_algos := default CA_SIGNATURE_DEFAULTS ca_signature_algorithms in
  let! plain_from_cert :=
    (if is_cert_name alg
     then let? p := cert_stage allow_rsa_sha1 policy k_s target_host target_port ca_algos now (ts_store st) in Ok (Some p)
     else Ok None) at st in
  match plain_from_cert with
  | Some None => (Ok verifier, st)
  | _ =>
      let plain := match plain_from_cert with Some p => p | None => None end in
      let k_s := default k_s plain in
      match policy with
      | AcceptAny => (Ok verifier, st)
      | AcceptFingerprint fp =>
          if negb (bytes_eqb (sha256_digest k_s) fp) then (Err HostKeyRejected, st) else (Ok verifier, st)
      | PKnownHosts kh =>
          let (res, st) := known_stage kh alg k_s (bool_decide (is_Some plain)) target_host target_port st in
          let! _ := res at st in (Ok verifier, st)
      end
  end.

Definition known_hosts_policy (policy : HostKeyPolicy) : bool :=
  match policy with PKnownHosts _ => true | _ => false end.

Definition build_verifier (reply_payload : bytes) (policy : HostKeyPolicy) (runner : KexRunner) (target_host : bytes)
    (target_port : Z) (ca_signature_algorithms : option (list bytes)) (now : Z) (st : TrustState)
    : result Cert.Verifier * TrustState :=
  let! k_s := reply_k_s reply_payload at st in
  match initial_host_key_sig runner with
  | Some (initial, _) =>
      if negb (bytes_eqb k_s initial) then (Err HostKeyRejected, st) else
      let! neg := ok_or (kr_negotiated (kx_keys runner)) (Protocol "kex: no negotiated algorithms") at st in
      (host_key_verify_by_name allow_rsa_sha1 (ng_host_key neg) k_s, st)
  | None =>
      if known_hosts_policy policy && (is_nil target_host || (target_port =? 0))
      then (Err (Config "HostKeyPolicy::KnownHosts requires Client::connect_to_host"), st) else
      let! neg := ok_or (kr_negotiated (kx_keys runner)) (Protocol "kex: no negotiated algorithms") at st in
      first_decision policy (ng_host_key neg) k_s target_host target_port ca_signature_algorithms now st
  end.

(** The closure [verifier_factory] of the client's constructor. *)
Definition connect_verifier (pinned : option bytes) (policy : HostKeyPolicy) (target_host : bytes) (port : Z)
    (ca_sig_algos : option (list bytes)) (now : Z) (reply : bytes) (runner : KexRunner) (st : TrustState)
    : result Cert.Verifier * TrustState :=
  let! _ := match pinned with
            | Some pin =>
                let? k := reply_host_key reply in if negb (bytes_eqb k pin) then Err HostKeyRejected else Ok tt
            | None => Ok tt
            end at st in
  build_verifier reply policy runner target_host port ca_sig_algos now st.
End Connect.
