(* ===== verification/HostTrustFacts.v ===== *)
(** * Why a client trusts a host key

    [build_verifier] returns a verifier only for a host key that the policy
    gives a reason to trust: a line of a known_hosts file, a certificate of a
    CA on file, or somebody's consent; never for a revoked one.  Over the
    driver, a client session is under such a key, and stays under it through
    every re-key. *)
From S2P Require Import Prelude Wire Text Base64 Crypto Cipher Compress Packet PacketFacts KexInit KexHash KexMethods.
From S2P Require Import KexMethodFacts KexKeys HostKey Cert Runner RunnerFacts RunnerSafe Advert Driver DriverFacts.
From S2P Require Import KnownHosts KnownHostsTrust Krl HostTrust.

(** ** Several files are one *)

Definition expected_of (l : LookupResult) : list (bytes * bytes) :=
  match l with Mismatch expected => expected | _ => [] end.

(** What the answers [l] of several files come to. *)
Definition combined (l : list LookupResult) (a : LookupResult) : Prop :=
  match a with
  | LRevoked => LRevoked ∈ l
  | Match => (LRevoked ∉ l) ∧ Match ∈ l
  | Mismatch expected => (LRevoked ∉ l) ∧ (Match ∉ l) ∧ (∃ e, Mismatch e ∈ l) ∧ expected = concat (expected_of <$> l)
  | Unknown => ∀ r, r ∈ l → r = Unknown
  end.

Lemma combined_snoc l a b : combined l a → combined (l ++ [b]) (combine_lookups a b).
Proof.
  unfold combined. destruct a as [|ea| |], b as [|eb| |]; cbn [combine_lookups];
    rewrite ?fmap_app, ?concat_app; cbn [fmap list_fmap expected_of concat]; rewrite ?app_nil_r.
  all: try set_solver.
  all: intros Hl; split_and!; try set_solver.
  assert (Hc : concat (expected_of <$> l) = []); [|by rewrite Hc].
  clear -Hl. induction l as [|r l IH]; [done|]. cbn. rewrite (Hl r) by apply list_elem_of_here. cbn.
  apply IH. intros x Hx. apply Hl. by apply list_elem_of_further.
Qed.

Section Trust.
Context {HH : HostHash} {C : PureCrypto} {S : SigPrims} (allow_rsa_sha1 : bool).

Lemma combined_fold others host port kt k a l :
  combined l a →
  combined (l ++ ((λ g, lookup g host port kt k) <$> others))
    (fold_left (λ l g, combine_lookups l (lookup g host port kt k)) others a).
Proof.
  revert a l. induction others as [|g others IH]; intros a l Hl; cbn [fold_left fmap list_fmap]; [by rewrite app_nil_r|].
  rewrite cons_middle, app_assoc. by apply IH, combined_snoc.
Qed.

Lemma combined_one a : combined [a] a.
Proof.
  unfold combined. destruct a as [|e| |]; repeat setoid_rewrite list_elem_of_singleton; try naive_solver.
  cbn. rewrite app_nil_r. naive_solver.
Qed.

Lemma lookup_all_combined store others host port kt k :
  combined ((λ g, lookup g host port kt k) <$> store :: others) (lookup_all store others host port kt k).
Proof. apply (combined_fold others host port kt k _ [_]), combined_one. Qed.

(** ** The reasons *)

(** The answer of an action to a prompt, given the store as it is. *)
Definition consents (a : TofuAction) (p : HostKeyPrompt) (store : KnownHosts) : bool :=
  match a with
  | TReject => false
  | TAccept | TAcceptWithWarning => true
  | TPrompt cb => (cb (hkp_host p) (hkp_port p) (hkp_key_type p) (hkp_key_blob p) store).1
  | TPromptDetailed cb => (cb p store).1
  end.

(** A prompt that shows this change of this key, and the keys on file. *)
Definition shows (p : HostKeyPrompt) (change : HostKeyChange) (host : bytes) (port : Z) (kt k : bytes)
    (existing : list (bytes * bytes)) : Prop :=
  hkp_change p = change ∧ hkp_host p = host ∧ hkp_port p = port ∧ hkp_key_type p = kt ∧ hkp_key_blob p = k ∧
  hkp_fingerprint p = host_key_fingerprint k ∧ hkp_existing p = existing.

Definition revoked_key (kh : KnownHostsPolicy) (k : bytes) : bool :=
  match revoked kh with Some r => host_key_revoked r k | None => false end.
Definition revoked_certificate (kh : KnownHostsPolicy) (cert : Certificate) : bool :=
  match revoked kh with Some r => host_cert_revoked r cert | None => false end.

(** The files a key is looked up in. *)
Definition files (kh : KnownHostsPolicy) (store : KnownHosts) (blob : bytes) : list KnownHosts :=
  store :: other_files kh (command_hosts kh blob).

(** Nothing was remembered, and the session is marked. *)
Definition marked (st st' : TrustState) : Prop :=
  ts_mismatched st' = true ∧ ts_store st' = ts_store st ∧ ts_saved st' = ts_saved st.

(** The key [k] of type [kt] is taken for [host:port]: no file revokes it, and
    a file has it; or files have other keys only, which [p] shows, and the
    policy for changed keys consents; or no file knows the host, and the policy
    for new ones consents. *)
Definition key_trusted (kh : KnownHostsPolicy) (host : bytes) (port : Z) (kt k : bytes) (st st' : TrustState) : Prop :=
  let answers := (λ g, lookup g host port kt k) <$> files kh (ts_store st) k in
  revoked_key kh k = false ∧ (LRevoked ∉ answers) ∧
  (Match ∈ answers
   ∨ (Match ∉ answers) ∧ (∃ e, Mismatch e ∈ answers) ∧
     (∃ p, shows p KeyChanged host port kt k (concat (expected_of <$> answers)) ∧
           consents (on_mismatch kh) p (ts_store st) = true) ∧
     (on_mismatch kh = TAcceptWithWarning → marked st st')
   ∨ (∀ a, a ∈ answers → a = Unknown) ∧
     ∃ p, shows p KeyUnknown host port kt k [] ∧ consents (on_unknown kh) p (ts_store st) = true).

(** Some file has the certificate's CA for [host:port], none revokes it, and
    the certificate is a valid one of that CA for the host. *)
Definition cert_trusted (kh : KnownHostsPolicy) (host : bytes) (port : Z) (cert : Certificate) (ca_algos : list bytes)
    (now : Z) (fs : list KnownHosts) : Prop :=
  revoked_certificate kh cert = false ∧ (∀ g, g ∈ fs → revokes_cert g host port cert = false) ∧
  (∃ g, g ∈ fs ∧ has_ca_for g host port cert = true) ∧
  cert_type cert = Host ∧ valid_after cert ≤ now < valid_before cert ∧ critical_options cert = [] ∧
  verify_ca_signature allow_rsa_sha1 cert ca_algos = Ok tt ∧ check_principal cert host = Ok tt.

(** A certificate of a CA no file has. *)
Definition cert_unlisted (kh : KnownHostsPolicy) (host : bytes) (port : Z) (cert : Certificate) (fs : list KnownHosts)
    : Prop :=
  revoked_certificate kh cert = false ∧
  ∀ g, g ∈ fs → revokes_cert g host port cert = false ∧ has_ca_for g host port cert = false.

(** The check that comes first says yes, to a key that is not revoked. *)
Definition pre_trusted (kh : KnownHostsPolicy) (alg k_s : bytes) : Prop :=
  ∃ pre plain, pre_check kh = Some pre ∧ pre (known_hosts_key_type alg) plain = Some true ∧
    revoked_key kh plain = false ∧
    if is_cert_name alg then ∃ cert, certificate_parse k_s = Ok cert ∧ plain = embedded_pubkey_blob cert ∧
                                     revoked_certificate kh cert = false
    else plain = k_s.

(** Why [k_s], negotiated as [alg], is taken for [host:port]. *)
Definition host_trusted (kh : KnownHostsPolicy) (alg k_s host : bytes) (port : Z) (ca_algos : list bytes) (now : Z)
    (st st' : TrustState) : Prop :=
  let '(host, port) := lookup_name kh host port in
  pre_trusted kh alg k_s ∧ st' = st
  ∨ (is_cert_name alg = true ∧ ∃ cert, certificate_parse k_s = Ok cert ∧
       cert_trusted kh host port cert ca_algos now (files kh (ts_store st) k_s) ∧ st' = st)
  ∨ ∃ k, key_trusted kh host port (known_hosts_key_type alg) k st st' ∧
      if is_cert_name alg then ∃ cert, certificate_parse k_s = Ok cert ∧ k = embedded_pubkey_blob cert ∧
                                       cert_unlisted kh host port cert (files kh (ts_store st) k_s)
      else k = k_s.

(** ** The stages give reasons *)

Lemma ask_mismatch_consents a p st accept st1 :
  ask_mismatch a p st = (accept, st1) →
  accept = consents a p (ts_store st) ∧ (a = TAcceptWithWarning → marked st st1).
Proof.
  unfold ask_mismatch, unlocked, marked. destruct a as [| |cb| |cb]; cbn [consents]; try (by intros [= <- <-]).
  - destruct (cb _ _ _ _ _) as [ok store]. by intros [= <- <-].
  - destruct (cb _ _) as [ok store]. by intros [= <- <-].
Qed.

Lemma ask_unknown_consents a p st accept st1 :
  ask_unknown a p st = (accept, st1) → accept = consents a p (ts_store st).
Proof.
  unfold ask_unknown, unlocked. destruct a as [| |cb| |cb]; cbn [consents]; try (by intros [= <- <-]).
  - destruct (cb _ _ _ _ _) as [ok store]. by intros [= <- <-].
  - destruct (cb _ _) as [ok store]. by intros [= <- <-].
Qed.

Lemma on_changed_ok kh p st st' :
  on_changed kh p st = (Ok tt, st') →
  consents (on_mismatch kh) p (ts_store st) = true ∧ (on_mismatch kh = TAcceptWithWarning → marked st st').
Proof.
  unfold on_changed. destruct (ask_mismatch _ p st) as [accept st1] eqn:E.
  apply ask_mismatch_consents in E as [-> Hm]. destruct (consents _ _ _); cbn [negb]; [|done].
  intros H. split; [done|]. intros Ew. rewrite Ew in H. cbn [rotates] in H. injection H as <-. by apply Hm.
Qed.

Lemma on_new_ok kh p na st st' :
  on_new kh p na st = (Ok tt, st') → consents (on_unknown kh) p (ts_store st) = true.
Proof.
  unfold on_new. destruct (ask_unknown _ p st) as [accept st1] eqn:E. apply ask_unknown_consents in E as ->.
  by destruct (consents _ _ _).
Qed.

Lemma known_stage_trusted kh alg k from_cert host port st st' :
  known_stage kh alg k from_cert host port st = (Ok tt, st') →
  let '(host, port) := lookup_name kh host port in
  key_trusted kh host port (known_hosts_key_type alg) k st st'.
Proof.
  unfold known_stage, key_trusted, files. destruct (negb _); [done|]. destruct (lookup_name kh host port) as [h p].
  fold (revoked_key kh k). destruct (revoked_key kh k); [done|].
  set (answers := (λ g, lookup g h p _ k) <$> _).
  pose proof (lookup_all_combined (ts_store st) (other_files kh (command_hosts kh k)) h p (known_hosts_key_type alg) k) as Hc.
  fold answers in Hc. clearbody answers.
  destruct (lookup_all _ _ _ _ _ _) as [|expected| |]; cbn [combined] in Hc; [naive_solver| | |done].
  - destruct Hc as (H1 & H2 & H3 & ->).
    destruct (on_changed _ _ _) as [[[]|e] st1] eqn:E; [|done]. intros [= <-].
    apply on_changed_ok in E as [E1 E2]. split_and!; try done. right; left. split_and!; try done.
    eexists. split; [|exact E1]. by split_and!.
  - destruct (on_new _ _ _ _) as [[[]|e] st1] eqn:E; [|done]. intros _. apply on_new_ok in E.
    split_and!; try done. { by intros ?%Hc. }
    right; right. split; [done|]. eexists. split; [|exact E]. by split_and!.
Qed.

Lemma existsb_false {A} (f : A → bool) l : List.existsb f l = false → ∀ x, x ∈ l → f x = false.
Proof.
  intros E x Hx. destruct (f x) eqn:Ex; [|done]. rewrite <- E. symmetry. apply existsb_elem. by exists x.
Qed.

Lemma verify_host_cert_inv g host port cert ca_algos now :
  verify_host_cert allow_rsa_sha1 g host port cert ca_algos now = Ok tt →
  has_ca_for g host port cert = true ∧ cert_type cert = Host ∧ valid_after cert ≤ now < valid_before cert ∧
  critical_options cert = [] ∧ verify_ca_signature allow_rsa_sha1 cert ca_algos = Ok tt ∧
  check_principal cert host = Ok tt.
Proof.
  unfold verify_host_cert, check_type, check_validity. destruct (revokes_cert _ _ _ _); [done|].
  destruct (cert_type cert), (now <? valid_after cert) eqn:E1; try done;
    destruct (valid_before cert <=? now) eqn:E2; try done.
  destruct (require_known_critical_options cert); [|done]. destruct (critical_options cert); [|done].
  destruct (has_ca_for _ _ _ _); [|done]. destruct (verify_ca_signature _ _ _) as [[]|]; [|done].
  destruct (check_principal _ _) as [[]|]; [|done]. intros _. split_and!; try done; lia.
Qed.

Lemma cert_trusted_by kh host port cert ca_algos now fs g :
  revoked_certificate kh cert = false → (∀ g, g ∈ fs → revokes_cert g host port cert = false) → g ∈ fs →
  verify_host_cert allow_rsa_sha1 g host port cert ca_algos now = Ok tt → cert_trusted kh host port cert ca_algos now fs.
Proof.
  intros Hc Hr Hg (? & ? & ? & ? & ? & ?)%verify_host_cert_inv. unfold cert_trusted. split_and!; try done; try lia.
  by exists g.
Qed.

Lemma cert_stage_trusted kh k_s host port ca_algos now store plain :
  cert_stage allow_rsa_sha1 (PKnownHosts kh) k_s host port ca_algos now store = Ok plain →
  let '(host, port) := lookup_name kh host port in
  ∃ cert, certificate_parse k_s = Ok cert ∧
    match plain with
    | None => cert_trusted kh host port cert ca_algos now (files kh store k_s)
    | Some k => k = embedded_pubkey_blob cert ∧ cert_unlisted kh host port cert (files kh store k_s)
    end.
Proof.
  unfold cert_stage, cert_unlisted, files. destruct (certificate_parse k_s) as [cert|]; [|done].
  destruct (lookup_name kh host port) as [h p]. fold (revoked_certificate kh cert).
  destruct (revoked_certificate kh cert) eqn:Erc; [done|]. set (others := other_files kh _). clearbody others.
  destruct (revokes_cert store h p cert || _) eqn:Er; [done|].
  assert (Hr : ∀ g, g ∈ store :: others → revokes_cert g h p cert = false)
    by (apply existsb_false; exact Er).
  destruct (has_ca_for store h p cert || _) eqn:Ec; cbn [negb].
  - intros E. exists cert. split; [done|].
    assert (Hg : plain = None ∧ ∃ g, g ∈ store :: others ∧
      verify_host_cert allow_rsa_sha1 g h p cert ca_algos now = Ok tt).
    { destruct (verify_host_cert _ store h p cert ca_algos now) as [[]|e] eqn:Ev; cbn [is_ok negb andb] in E.
      - injection E as <-. split; [done|]. exists store. split; [apply list_elem_of_here|done].
      - clear Er Ec. destruct (List.existsb _ others) eqn:Eo; [|discriminate E]. injection E as <-. split; [done|].
        apply existsb_elem in Eo as (g & Hg & Ho). exists g. split; [by apply list_elem_of_further|].
        by destruct (verify_host_cert _ g _ _ _ _ _) as [[]|]. }
    destruct Hg as (-> & g & Hg & Hv). by eapply cert_trusted_by.
  - intros [= <-]. exists cert. split_and!; try done. intros g Hg. split; [by apply Hr|].
    revert g Hg. apply existsb_false. exact Ec.
Qed.

Lemma pre_check_stage_trusted kh alg k_s : pre_check_stage kh alg k_s = Ok true → pre_trusted kh alg k_s.
Proof.
  unfold pre_check_stage, pre_trusted, revoked_key, revoked_certificate. destruct (pre_check kh) as [pre|]; [|done].
  destruct (is_cert_name alg).
  - destruct (certificate_parse k_s) as [cert|]; [|done]. intros E. exists pre, (embedded_pubkey_blob cert).
    destruct (revoked kh) as [r|].
    + destruct (host_cert_revoked r cert) eqn:E1; [done|]. destruct (host_key_revoked r _); [done|].
      destruct (pre _ _) as [[]|] eqn:Ep; try done. split_and!; try done. by exists cert.
    + destruct (pre _ _) as [[]|] eqn:Ep; try done. split_and!; try done. by exists cert.
  - intros E. exists pre, k_s. destruct (revoked kh) as [r|]; [destruct (host_key_revoked r k_s); [done|]|];
      by destruct (pre _ _) as [[]|].
Qed.
End Trust.

Section Connect.
Context {P : CipherPrims} {CC : CompCol} {C : PureCrypto} {H : KexHash} {K : KexPrims} {HH : HostHash} {S : SigPrims}.
Context (allow_rsa_sha1 : bool).

Lemma first_decision_trusted kh alg k_s host port ca now st v st' :
  first_decision allow_rsa_sha1 (PKnownHosts kh) alg k_s host port ca now st = (Ok v, st') →
  host_key_verify_by_name allow_rsa_sha1 alg k_s = Ok v ∧
  host_trusted allow_rsa_sha1 kh alg k_s host port (default CA_SIGNATURE_DEFAULTS ca) now st st'.
Proof.
  unfold first_decision, host_trusted. destruct (host_key_verify_by_name _ alg k_s) as [v0|]; [|done].
  destruct (pre_check_stage kh alg k_s) as [[]|] eqn:Ep; [|clear Ep|done].
  { intros [= <- <-]. split; [done|]. destruct (lookup_name kh host port). left.
    by split; [apply pre_check_stage_trusted|]. }
  destruct (is_cert_name alg) eqn:Ec.
  - destruct (cert_stage _ _ _ _ _ _ _ _) as [plain|] eqn:Es; [|done]. apply cert_stage_trusted in Es.
    destruct plain as [k|].
    + destruct (known_stage _ _ _ _ _ _ _) as [[[]|] st1] eqn:Ek; [|done]. intros [= <- <-]. split; [done|].
      apply known_stage_trusted in Ek. destruct (lookup_name kh host port). destruct Es as (cert & E1 & -> & E2).
      right; right. eexists. split; [exact Ek|]. by exists cert.
    + intros [= <- <-]. split; [done|]. destruct (lookup_name kh host port). destruct Es as (cert & E1 & E2).
      right; left. split; [done|]. by exists cert.
  - destruct (known_stage _ _ _ _ _ _ _) as [[[]|] st1] eqn:Ek; [|done]. intros [= <- <-]. split; [done|].
    apply known_stage_trusted in Ek. destruct (lookup_name kh host port). right; right. by exists k_s.
Qed.

Lemma first_decision_fingerprint fp alg k_s host port ca now st v st' :
  first_decision allow_rsa_sha1 (AcceptFingerprint fp) alg k_s host port ca now st = (Ok v, st') →
  host_key_verify_by_name allow_rsa_sha1 alg k_s = Ok v ∧ sha256_digest k_s = fp ∧ st' = st.
Proof.
  unfold first_decision, cert_stage. destruct (host_key_verify_by_name _ alg k_s) as [v0|]; [|done].
  destruct (is_cert_name alg).
  - destruct (certificate_parse k_s) as [cert|]; [|done]. destruct (bytes_eqb _ fp) eqn:E; [|done].
    cbn [negb]. destruct (check_host_cert _ _); [|done]. intros [= <- <-]. by apply bytes_eqb_true in E.
  - destruct (bytes_eqb _ fp) eqn:E; [|done]. intros [= <- <-]. by apply bytes_eqb_true in E.
Qed.

(** What a policy asks of the host key of a first exchange. *)
Definition policy_trusts (policy : HostKeyPolicy) (alg k_s host : bytes) (port : Z) (ca : option (list bytes)) (now : Z)
    (st st' : TrustState) : Prop :=
  match policy with
  | AcceptAny => st' = st
  | AcceptFingerprint fp => sha256_digest k_s = fp ∧ st' = st
  | PKnownHosts kh => host ≠ [] ∧ port ≠ 0 ∧
      host_trusted allow_rsa_sha1 kh alg k_s host port (default CA_SIGNATURE_DEFAULTS ca) now st st'
  end.

Lemma first_decision_any alg k_s host port ca now st v st' :
  first_decision allow_rsa_sha1 AcceptAny alg k_s host port ca now st = (Ok v, st') →
  host_key_verify_by_name allow_rsa_sha1 alg k_s = Ok v ∧ st' = st.
Proof.
  unfold first_decision, cert_stage. destruct (host_key_verify_by_name _ alg k_s) as [v0|]; [|done].
  destruct (is_cert_name alg); [|by intros [= <- <-]].
  destruct (certificate_parse k_s) as [cert|]; [|done]. destruct (check_host_cert _ _); [|done]. by intros [= <- <-].
Qed.

Lemma build_verifier_ok reply policy r host port ca now st v st' :
  build_verifier allow_rsa_sha1 reply policy r host port ca now st = (Ok v, st') →
  ∃ k_s neg, reply_k_s reply = Ok k_s ∧ kr_negotiated (kx_keys r) = Some neg ∧
    host_key_verify_by_name allow_rsa_sha1 (ng_host_key neg) k_s = Ok v ∧
    match initial_host_key_sig r with
    | Some (initial, _) => k_s = initial ∧ st' = st
    | None => policy_trusts policy (ng_host_key neg) k_s host port ca now st st'
    end.
Proof.
  unfold build_verifier. destruct (reply_k_s reply) as [k_s|]; [|done]. intros E. exists k_s.
  destruct (initial_host_key_sig r) as [[k0 sig0]|].
  - destruct (bytes_eqb k_s k0) eqn:Ek; [|done]. apply bytes_eqb_true in Ek as ->.
    destruct (kr_negotiated _) as [neg|]; [|done]. exists neg. cbn [ok_or negb] in E. by injection E as -> <-.
  - destruct (known_hosts_policy policy && _) eqn:Eh; [done|].
    destruct (kr_negotiated _) as [neg|]; [|done]. exists neg. cbn [ok_or] in E. split; [done|]. split; [done|].
    destruct policy as [|fp|kh]; cbn [policy_trusts].
    + by apply first_decision_any in E.
    + by apply first_decision_fingerprint in E.
    + apply first_decision_trusted in E as [? ?]. cbn [known_hosts_policy andb] in Eh.
      apply orb_false_iff in Eh as [Eh1 Eh2%Z.eqb_neq]. split_and!; try done. by intros ->.
Qed.

Lemma reply_k_s_read reply k :
  reply_host_key reply = Ok k → reply_k_s reply = Ok k.
Proof.
  unfold reply_host_key, reply_k_s, read_string, read_u8, read_u32, read_take, reader_new. cbn [r_pos r_buf].
  repeat (match goal with |- context [if ?b then Err _ else _] => destruct b eqn:? end; [done|]).
  unfold set_field in *. cbn [r_pos r_buf] in *. change (0 + 1 + 4) with 5 in *. change (0 + 1) with 1 in *.
  by match goal with Hl : (len reply <? 5) = false, Hk : (len reply <? 5 + _) = false |- _ => rewrite Hl, Hk end.
Qed.

Lemma host_key_and_sig_key reply k sig : host_key_and_sig reply = Some (k, sig) → reply_host_key reply = Ok k.
Proof.
  unfold host_key_and_sig, reply_host_key. destruct (read_u8 _) as [[x r]|]; [|done].
  destruct (read_string r) as [[k' r']|]; [|done]. destruct (read_string r') as [[y r'']|]; [|done].
  destruct (read_string r'') as [[z ?]|]; [|done]. by intros [= -> _].
Qed.

(** The factory of a connection: at its [n]-th use the clock says [clock n],
    and the shared state, which other connections, threads and callbacks may
    have changed, is [states n]. *)
Definition connect_factory (pinned : option bytes) (policy : HostKeyPolicy) (host : bytes) (port : Z)
    (ca : option (list bytes)) (clock : nat → Z) (states : nat → TrustState) : VerifierFactory :=
  λ n reply r,
    let? v := (connect_verifier allow_rsa_sha1 pinned policy host port ca (clock n) reply r (states n)).1 in
    Ok (verifier_verify v).

(** A signature over [h] that the key [k], negotiated as [alg], verifies. *)
Definition signed_by (alg k h sig : bytes) : Prop :=
  ∃ v, host_key_verify_by_name allow_rsa_sha1 alg k = Ok v ∧ verifier_verify v h sig = Ok tt.

Lemma connect_signed pkg over pinned policy host port ca clock states v_s prior hk h :
  signed_reply pkg over (connect_factory pinned policy host port ca clock states) v_s prior hk h →
  ∃ k sig alg, hk = Some (k, sig) ∧ signed_by alg k h sig ∧ (∀ pin, pinned = Some pin → k = pin) ∧
    match prior with
    | Some (initial, _) => k = initial
    | None => ∃ n st', policy_trusts policy alg k host port ca (clock n) (states n) st'
    end.
Proof.
  intros (n & reply & r & verify & v_c & _ & Hf & <- & <- & D & k & sig & Hk & _ & Hv).
  unfold connect_factory, connect_verifier in Hf. apply host_key_and_sig_key in Hk as Hr.
  assert (Hpin : ∀ pin, pinned = Some pin → k = pin).
  { intros pin ->. rewrite Hr in Hf. destruct (bytes_eqb k pin) eqn:E; [by apply bytes_eqb_true|done]. }
  assert (Hb : ∃ v st', build_verifier allow_rsa_sha1 reply policy r host port ca (clock n) (states n) = (Ok v, st') ∧
    verify = verifier_verify v).
  { destruct (match pinned with Some _ => _ | None => _ end) as [[]|]; [|done].
    destruct (build_verifier _ _ _ _ _ _ _ _ _) as [[v|] st']; [|done]. injection Hf as <-. by exists v, st'. }
  destruct Hb as (v & st' & Hb & ->). apply build_verifier_ok in Hb as (k_s & neg & Ek & _ & Ev & Ht).
  apply reply_k_s_read in Hr. rewrite Ek in Hr. injection Hr as ->.
  exists k, sig, (ng_host_key neg). split; [done|]. split; [by exists v|]. split; [done|].
  destruct (initial_host_key_sig r) as [[k0 s0]|]; [by destruct Ht|]. by exists n, st'.
Qed.
End Connect.

