(* ===== verification/HostTrustDemo.v ===== *)
(** * Known hosts, revocation lists and trust on concrete inputs

    A hash of names with the right lengths, files, a server with an Ed25519
    host key, and a client that knows it, on which the theorems about trust are
    applied. *)
From S2P Require Import Prelude Wire Text TextFacts Glob Base64 Crypto Cipher Compress Packet PacketFacts PacketDemo.
From S2P Require Import KexInit KexHash KexMethods KexKeys HostKey Cert SignKey AuthDemo Runner Advert Driver.
From S2P Require Import DriverFacts Handshake HandshakeDemo KnownHosts KnownHostsFacts KnownHostsTrust Krl KrlFacts.
From S2P Require Import HostTrust HostTrustFacts.

Definition demo_host_hash : HostHash := {| hmac_sha1 _ m := pad_to 20 m; sha1_digest := pad_to 20 |}.
Lemma demo_host_hash_laws : HostHashLaws demo_host_hash.
Proof. split; intros; apply len_pad_to. Qed.

#[local] Existing Instances demo_prims demo_prims_laws demo_compcol demo_hash demo_hash_laws demo_crypto demo_crypto_laws
  demo_kex demo_kex_laws demo_sig demo_host_hash demo_host_hash_laws.

(** ** Files *)

Definition ht_host : bytes := bs "example.com".
Definition ht_type : bytes := bs "ssh-ed25519".
Definition ht_blob : bytes := Eval vm_compute in key_public_blob (HostKeyTrait := soft_key_trait false) demo_key.
Definition ht_file : bytes :=
  bs "# my hosts" ++ [NEWLINE] ++ bs "example.com ssh-ed25519 " ++ base64_encode ht_blob ++ [NEWLINE] ++
  bs "@revoked * ssh-ed25519 AAAA" ++ [NEWLINE].
Definition ht_rng : Rng := λ i, byte_of_Z (Z.of_nat (7 * i + 1)).


Definition ht_added : KnownHosts := Eval vm_compute in (try_add ht_rng [] ht_host 2222 ht_type ht_blob true).2.1.

Lemma ht_plain_name : KnownHostsTrust.plain_name ht_host.
Proof. split_and!; [done|done|by vm_compute|cbn; lia]. Qed.

Lemma added_key_found_witness : lookup ht_added ht_host 2222 ht_type ht_blob = Match.
Proof.
  exact (added_key_found demo_host_hash_laws ht_rng [] ht_host 2222 ht_type ht_blob true ht_added
    (try_add ht_rng [] ht_host 2222 ht_type ht_blob true).2.2 ltac:(vm_compute; reflexivity) ltac:(width_lia) ltac:(discriminate)).
Defined.

Lemma revocation_lost_off_port_witness :
  let kh := [SEntry (revoked_line ht_host ht_type ht_blob); SEntry (plain_entry (Patterns [ht_host]) ht_type ht_blob)] in
  lookup kh ht_host 22 ht_type ht_blob = LRevoked ∧ lookup kh ht_host 2222 ht_type ht_blob = Match.
Proof.
  destruct (revocation_lost_off_port ht_host ht_type ht_blob 2222 ht_plain_name) as [H1 H2].
  split; [exact H1|]. apply H2. discriminate.
Defined.

Lemma hashing_loses_revocation_witness :
  let kh := [SEntry (revoked_line [STAR] ht_type ht_blob)] in
  lookup kh ht_host 22 ht_type ht_blob = LRevoked ∧ lookup (hash_in_place ht_rng kh).1 ht_host 22 ht_type ht_blob = Unknown.
Proof. apply (hashing_loses_revocation demo_host_hash_laws). vm_compute. discriminate. Defined.

(** ** A revocation list *)

Definition ht_krl : Krl :=
  revoke_cert_key_id [] (bs "mallory") (revoke_cert_serials ht_blob 5 70 (revoke_cert_serials ht_blob 3 3
    krl_new)).

Lemma krl_roundtrip_witness :
  ∃ k', krl_parse (krl_to_bytes ht_krl 1000) = Ok k' ∧ krl_same k' ht_krl ∧ krl_version k' = 0.
Proof.
  destruct (krl_roundtrip ht_krl 1000) as (k' & H1 & H2 & H3 & _).
  - split; [by vm_compute|by vm_compute|done| |constructor|constructor|by vm_compute].
    repeat constructor; by vm_compute.
  - exists k'. exact (conj H1 (conj H2 H3)).
Defined.

Lemma revoke_cert_exact_witness :
  is_revoked_cert (revoke_cert_serials ht_blob 5 70 ht_krl) ht_blob 71 (bs "alice") = false.
Proof. exact (proj1 (revoke_cert_exact ht_blob 5 70 [] ht_krl ht_blob 71 (bs "alice") ltac:(lia))). Defined.

(** ** A client that knows its server *)

Definition ht_key : HostKey := {| public_blob := ht_blob; hk_sign _ m := key_sign (HostKeyTrait := soft_key_trait false) 0 demo_key m |}.
Definition ht_config : ServerConfig :=
  Build_ServerConfig _ [ {| shk_algorithm := ht_type; shk_key := ht_key; shk_upgraded_for _ := None |} ]
    None None None None None None None [] false.

Definition ht_policy : HostKeyPolicy := PKnownHosts {|
  save_path := Some (bs "known_hosts"); hash_new_entries := true; on_unknown := TReject; on_mismatch := TReject;
  global := []; host_key_alias := None; revoked := None; command := None; check_host_ip := None;
  on_address_change := TReject; pre_check := None; on_known := None |}.
Definition ht_state : TrustState :=
  {| ts_store := from_bytes ht_file; ts_mismatched := false; ts_saved := []; ts_rng := ht_rng |}.

Abbreviation ht_factory := (connect_factory false None ht_policy ht_host 22 None (λ _, 0) (λ _, ht_state)).
Abbreviation ht_client := (started hs_client_rng hs_pkg (ClientSide algo_overrides_default ht_factory) 0).
Abbreviation ht_server := (started hs_server_rng hs_pkg (ServerSide ht_config) 0).

Definition ht_ops : list DriverOp := (λ f, OpInput f 0) <$> hs_frames 3 ht_client ht_server.

Lemma ht_run : option_map handshake_done (run_ops hs_client_rng hs_pkg ht_ops ht_client) = Some true.
Proof. vm_compute. reflexivity. Qed.

