(* ===== verification/KnockWire.v ===== *)
(** * Knock datagrams (src/knock/wire.rs)

    The KNOCK and ACCEPT datagrams of the port-knocking protocol: strict
    parsers, builders, the SSHSIG-style data their signatures cover, the
    signature-size bounds and the open-token derivation. *)
From S2P Require Import Prelude Wire Text Crypto.

(** ** Constants *)

Definition VERSION : Z := 1.
Definition TYPE_KNOCK : Z := 1.
Definition TYPE_ACCEPT : Z := 2.
Definition MAX_DATAGRAM : Z := 1232.
Definition FLAG_NEED_HOSTKEY : Z := 1.
Definition FLAG_HOSTKEY_FULL : Z := 1.
Definition MAX_USER_LEN : Z := 64.
Definition NS_KNOCK_ID : bytes := bs "knock-id@puressh".
Definition NS_KNOCK : bytes := bs "knock@puressh".
Definition NS_ACCEPT : bytes := bs "knock-accept@puressh".
Definition TOKEN_INFO : bytes := bs "puressh knock open v1".
Definition ACCEPT_HEAD_LEN : Z := 3 + 32 + 32 + 2 + 2.

(** [flags & !known]. *)
Definition unknown_bits (flags known : Z) : Z := Z.land flags (Z.lxor 255 known).

Definition zeros32 : bytes := replicate 32 Byte.x00.

(** ** Signed data, fingerprints, tokens *)

Section wire.
Context {C : PureCrypto} {V : HostKeyVerify}.

Definition key_fp (blob : bytes) : bytes := sha256_digest blob.
Definition knock_hash (datagram : bytes) : bytes := key_fp datagram.

Definition signed_data (namespace message : bytes) : bytes :=
  into_vec (writer_new
    |>> write_raw (bs "SSHSIG")
    |>> write_string namespace
    |>> write_string []
    |>> write_string (bs "sha512")
    |>> write_string (sha512_digest message)).

Definition knock_id_message (user fp : bytes) : bytes :=
  [byte_of_Z (len user)] ++ user ++ fp.

Definition sign (signer : HostKey) (call : nat) (namespace message : bytes) : result bytes :=
  hk_sign signer call (signed_data namespace message).

Definition verify (key_blob namespace message sig_blob : bytes) : result unit :=
  let? (key_alg, _) := read_string (reader_new key_blob) in
  let? (sig_alg, _) := read_string (reader_new sig_blob) in
  let? sig_alg := from_utf8 BadSignature sig_alg in
  let family_ok :=
    if bytes_eqb key_alg (bs "ssh-rsa") then
      bytes_eqb sig_alg (bs "rsa-sha2-256") || bytes_eqb sig_alg (bs "rsa-sha2-512")
    else if bytes_eqb key_alg (bs "ssh-ed25519")
         || bytes_eqb key_alg (bs "ecdsa-sha2-nistp256")
         || bytes_eqb key_alg (bs "ecdsa-sha2-nistp384")
         || bytes_eqb key_alg (bs "ecdsa-sha2-nistp521") then bytes_eqb sig_alg key_alg
    else false in
  if negb family_ok then Err BadSignature
  else host_key_verify sig_alg key_blob (signed_data namespace message) sig_blob.

Definition open_token (shared hash eph_s : bytes) (port : Z) : bytes :=
  let prk := hkdf_extract_sha256 hash shared in
  let info := TOKEN_INFO ++ eph_s ++ be_bytes 2 port in
  hkdf_expand_sha256 prk info 32.

End wire.

(** ** Size bounds *)

Definition ok {A} (r : result A) : option A :=
  match r with Ok a => Some a | Err _ => None end.

Definition max_sig_blob_len (key_blob : bytes) : option Z :=
  match read_string (reader_new key_blob) with
  | Err _ => None
  | Ok (alg, r) =>
      if bytes_eqb alg (bs "ssh-ed25519") then Some (4 + 11 + 4 + 64)
      else if bytes_eqb alg (bs "ecdsa-sha2-nistp256") then Some (4 + 19 + 4 + 2 * (4 + 1 + 32))
      else if bytes_eqb alg (bs "ecdsa-sha2-nistp384") then Some (4 + 19 + 4 + 2 * (4 + 1 + 48))
      else if bytes_eqb alg (bs "ecdsa-sha2-nistp521") then Some (4 + 19 + 4 + 2 * (4 + 1 + 66))
      else if bytes_eqb alg (bs "ssh-rsa") then
        '(_, r) ← ok (read_string r);
        '(n, _) ← ok (read_string r);
        Some (4 + 12 + 4 + len (strip_zeros n))
      else None
  end.

Definition accept_len_bound (host_key_blob : bytes) (full : bool) : option Z :=
  sig ← max_sig_blob_len host_key_blob;
  let hostkey := if full then 2 + len host_key_blob else 0 in
  Some (ACCEPT_HEAD_LEN + hostkey + 2 + sig).

(** ** Primitive fields *)

Definition write_str16 (out s : bytes) : bytes := out ++ be_bytes 2 (wrap16 (len s)) ++ s.

Definition read_array (n : Z) (r : Reader) : result (bytes * Reader) := read_take n r.

Definition read_u16 (r : Reader) : result (Z * Reader) :=
  let? (b, r) := read_take 2 r in Ok (be_value b, r).

Definition read_str16 (r : Reader) : result (bytes * Reader) :=
  let? (n, r) := read_u16 r in read_take n r.

(** ** KNOCK *)

Record Knock := {
  k_flags : Z;
  k_user : bytes;
  k_key_fp : bytes;
  k_sig1 : bytes;
  k_nonce : Z;
  k_eph_c : bytes;
  k_host_fp : bytes;
  k_signed : bytes;
  k_sig2 : bytes;
}.

Definition is_zero (b : byte) : bool := Byte.eqb b Byte.x00.

(** [&buf[..buf.len() - r.remaining()]]. *)
Definition consumed (buf : bytes) (r : Reader) : bytes :=
  slice buf 0 (len buf - remaining r).

(** The head every datagram starts with: version and type, the second byte
    only read when the first one matches. *)
Definition read_head (type : Z) (err : Error) (r : Reader) : result Reader :=
  let? (v, r) := read_u8 r in
  if negb (v =? VERSION) then Err err else
  let? (t, r) := read_u8 r in
  if negb (t =? type) then Err err else Ok r.

Definition knock_parse (buf : bytes) : result Knock :=
  if MAX_DATAGRAM <? len buf then Err (Format "knock: datagram too large") else
  let? r := read_head TYPE_KNOCK (Format "knock: version/type") (reader_new buf) in
  let? (flags, r) := read_u8 r in
  if negb (unknown_bits flags FLAG_NEED_HOSTKEY =? 0) then Err (Format "knock: unknown flags") else
  let? (user_len, r) := read_u8 r in
  if (user_len =? 0) || (MAX_USER_LEN <? user_len) then Err (Format "knock: user length") else
  let? (user, r) := read_take user_len r in
  let? user := from_utf8 (Format "knock: user not UTF-8") user in
  if existsb is_zero user then Err (Format "knock: NUL in user") else
  let? (key_fp, r) := read_array 32 r in
  let? (sig1, r) := read_str16 r in
  let? (nonce, r) := read_u64 r in
  let? (eph_c, r) := read_array 32 r in
  let? (host_fp, r) := read_array 32 r in
  if negb (Z.land flags FLAG_NEED_HOSTKEY =? 0) && negb (bytes_eqb host_fp zeros32)
  then Err (Format "knock: host_fp with NEED_HOSTKEY") else
  let? (padding, r) := read_str16 r in
  if existsb (λ b, negb (is_zero b)) padding then Err (Format "knock: non-zero padding") else
  let signed := consumed buf r in
  let? (sig2, r) := read_str16 r in
  if negb (reader_is_empty r) then Err (Format "knock: trailing bytes") else
  Ok {| k_flags := flags; k_user := user; k_key_fp := key_fp; k_sig1 := sig1;
        k_nonce := nonce; k_eph_c := eph_c; k_host_fp := host_fp;
        k_signed := signed; k_sig2 := sig2 |}.

Record KnockFields := {
  kf_user : bytes;
  kf_key_fp : bytes;
  kf_sig1 : bytes;
  kf_nonce : Z;
  kf_eph_c : bytes;
  kf_host_fp : option bytes;
}.

Definition knock_flags (f : KnockFields) : Z :=
  match kf_host_fp f with None => FLAG_NEED_HOSTKEY | Some _ => 0 end.

(** The datagram up to the padding. *)
Definition knock_prefix (f : KnockFields) : bytes :=
  [byte_of_Z VERSION; byte_of_Z TYPE_KNOCK; byte_of_Z (knock_flags f);
   byte_of_Z (len (kf_user f))]
  ++ kf_user f ++ kf_key_fp f ++ write_str16 [] (kf_sig1 f)
  ++ be_bytes 8 (kf_nonce f) ++ kf_eph_c f ++ default zeros32 (kf_host_fp f).

(** The bytes sig2 covers, with [pad] bytes of padding. *)
Definition knock_padded (f : KnockFields) (pad : Z) : bytes :=
  knock_prefix f ++ be_bytes 2 (wrap16 pad) ++ replicate (Z.to_nat pad) Byte.x00.

Section build.
Context {C : PureCrypto}.

(** The [for _ in 0..4] loop: [tries] iterations left, [call] the number of
    the next signature. *)
Fixpoint build_loop (f : KnockFields) (signer : HostKey) (min_len : Z)
    (tries call : nat) (sig2_estimate : Z) : result bytes :=
  match tries with
  | O => Err (Crypto "knock: could not size the datagram")
  | S tries =>
      let unpadded := len (knock_prefix f) + 2 + 2 + sig2_estimate in
      let pad := sat_sub min_len unpadded in
      let out := knock_padded f pad in
      let? sig2 := sign signer call NS_KNOCK out in
      let out := write_str16 out sig2 in
      if MAX_DATAGRAM <? len out then
        if pad =? 0 then Err (Unsupported "knock: key too large for one datagram")
        else build_loop f signer min_len tries (S call)
               (wrap64 (sig2_estimate + (len out - MAX_DATAGRAM)))
      else if len out <? min_len then
        build_loop f signer min_len tries (S call)
          (wrap64 (sig2_estimate - (min_len - len out)))
      else Ok out
  end.

Definition knock_build (f : KnockFields) (signer : HostKey) (min_len : Z) : result bytes :=
  if (len (kf_user f) =? 0) || (MAX_USER_LEN <? len (kf_user f)) then
    Err (Config "knock: user name must be 1..=64 bytes")
  else
    let min_len := Z.min min_len MAX_DATAGRAM in
    build_loop f signer min_len 4 0 (len (kf_sig1 f)).

End build.

(** ** ACCEPT *)

Record Accept := {
  a_flags : Z;
  a_knock_hash : bytes;
  a_eph_s : bytes;
  a_port : Z;
  a_window : Z;
  a_hostkey : option bytes;
  a_signed : bytes;
  a_sig_host : bytes;
}.

Definition accept_parse (buf : bytes) : result Accept :=
  if MAX_DATAGRAM <? len buf then Err (Format "accept: datagram too large") else
  let? r := read_head TYPE_ACCEPT (Format "accept: version/type") (reader_new buf) in
  let? (flags, r) := read_u8 r in
  if negb (unknown_bits flags FLAG_HOSTKEY_FULL =? 0) then Err (Format "accept: unknown flags") else
  let? (hash, r) := read_array 32 r in
  let? (eph_s, r) := read_array 32 r in
  let? (port, r) := read_u16 r in
  let? (window, r) := read_u16 r in
  if (port =? 0) || (window =? 0) then Err (Format "accept: zero port/window") else
  let? (hostkey, r) :=
    (if negb (Z.land flags FLAG_HOSTKEY_FULL =? 0)
     then let? (h, r) := read_str16 r in Ok (Some h, r)
     else Ok (None, r)) in
  let signed := consumed buf r in
  let? (sig_host, r) := read_str16 r in
  if negb (reader_is_empty r) then Err (Format "accept: trailing bytes") else
  Ok {| a_flags := flags; a_knock_hash := hash; a_eph_s := eph_s; a_port := port;
        a_window := window; a_hostkey := hostkey; a_signed := signed;
        a_sig_host := sig_host |}.

(** The bytes [sig_host] covers. *)
Definition accept_unsigned (hostkey hash eph_s : bytes) (port window : Z) (full : bool) : bytes :=
  [byte_of_Z VERSION; byte_of_Z TYPE_ACCEPT; byte_of_Z (if full then FLAG_HOSTKEY_FULL else 0)]
  ++ hash ++ eph_s ++ be_bytes 2 port ++ be_bytes 2 window
  ++ (if full then write_str16 [] hostkey else []).

Definition build_accept `{PureCrypto} (host_key : HostKey) (call : nat) (hash eph_s : bytes)
    (port window : Z) (full_hostkey : bool) : result bytes :=
  let out := accept_unsigned (public_blob host_key) hash eph_s port window full_hostkey in
  let? sig := sign host_key call NS_ACCEPT out in
  Ok (write_str16 out sig).

(** ** Reading the primitive fields *)

Lemma read_u16_at pre v post :
  fits_mem (pre ++ be_bytes 2 v ++ post) → is_u16 v →
  read_u16 (reader_at pre (be_bytes 2 v ++ post)) = Ok (v, reader_at (pre ++ be_bytes 2 v) post).
Proof.
  intros Hm Hv. unfold read_u16. rewrite read_take_at by done.
  rewrite be_value_be_bytes_small; [done|]. change (256 ^ Z.of_nat 2) with 65536. width_lia.
Qed.

Lemma read_str16_at pre s post :
  fits_mem (pre ++ be_bytes 2 (wrap16 (len s)) ++ s ++ post) → is_u16 (len s) →
  read_str16 (reader_at pre (be_bytes 2 (wrap16 (len s)) ++ s ++ post)) =
    Ok (s, reader_at (pre ++ be_bytes 2 (wrap16 (len s)) ++ s) post).
Proof.
  intros Hm Hs. unfold read_str16. rewrite wrap16_small in * by done. rewrite read_u16_at by done.
  rewrite read_take_at; [by rewrite <- app_assoc|solve_mem|done].
Qed.

Lemma read_u16_inv pre post v r' :
  read_u16 (reader_at pre post) = Ok (v, r') →
  ∃ post', post = be_bytes 2 v ++ post' ∧ is_u16 v ∧ r' = reader_at (pre ++ be_bytes 2 v) post'.
Proof.
  unfold read_u16. destruct (read_take 2 _) as [[x r]|] eqn:E; [|done]. intros [= <- <-].
  apply read_take_inv in E as (post' & -> & Hl & ->); [|lia].
  exists post'. pose proof (be_value_range x) as Hr. rewrite Hl in Hr.
  change (256 ^ 2) with 65536 in Hr.
  rewrite be_bytes_value_len by (unfold len in Hl; lia). split_and!; [done|width_lia..|done].
Qed.

Lemma read_str16_inv pre post s r' :
  read_str16 (reader_at pre post) = Ok (s, r') →
  ∃ post', post = be_bytes 2 (wrap16 (len s)) ++ s ++ post' ∧ is_u16 (len s) ∧
    r' = reader_at (pre ++ be_bytes 2 (wrap16 (len s)) ++ s) post'.
Proof.
  unfold read_str16. destruct (read_u16 _) as [[n r]|] eqn:E; [|done].
  apply read_u16_inv in E as (post1 & -> & Hn & ->). intros E.
  apply read_take_inv in E as (post2 & -> & <- & ->); [|width_lia].
  exists post2. rewrite wrap16_small by done. by rewrite <- app_assoc.
Qed.

Lemma consumed_at pre post : consumed (pre ++ post) (reader_at pre post) = pre.
Proof.
  unfold consumed. rewrite remaining_at. rewrite len_app.
  pose proof (slice_at [] pre post) as H. cbn [app] in H. rewrite len_nil in H.
  by replace (len pre + len post - len post) with (0 + len pre) by lia.
Qed.

Lemma reader_at_end pre post : reader_is_empty (reader_at pre post) = true ↔ post = [].
Proof.
  unfold reader_is_empty. rewrite remaining_at, Z.eqb_eq. split; [apply len_0_nil|by intros ->].
Qed.

Lemma read_head_at type e pre post :
  fits_mem (pre ++ byte_of_Z VERSION :: byte_of_Z type :: post) → is_u8 type →
  read_head type e (reader_at pre (byte_of_Z VERSION :: byte_of_Z type :: post)) =
    Ok (reader_at (pre ++ [byte_of_Z VERSION; byte_of_Z type]) post).
Proof.
  intros Hm Ht. unfold read_head. rewrite read_u8_at; [|done|by vm_compute]. cbn [negb].
  rewrite Z.eqb_refl. cbn [negb]. rewrite read_u8_at; [|solve_mem|done].
  rewrite Z.eqb_refl. cbn [negb]. by rewrite <- app_assoc.
Qed.

Lemma read_head_inv type e pre post r :
  read_head type e (reader_at pre post) = Ok r →
  ∃ post', post = byte_of_Z VERSION :: byte_of_Z type :: post' ∧
    r = reader_at (pre ++ [byte_of_Z VERSION; byte_of_Z type]) post'.
Proof.
  unfold read_head. destruct (read_u8 _) as [[v r1]|] eqn:E; [|done].
  apply read_u8_inv in E as (p1 & -> & _ & ->).
  destruct (Z.eqb_spec v VERSION) as [->|]; cbn [negb]; [|done].
  destruct (read_u8 _) as [[t r2]|] eqn:E; [|done].
  apply read_u8_inv in E as (p2 & -> & _ & ->).
  destruct (Z.eqb_spec t type) as [->|]; cbn [negb]; [|done].
  intros [= <-]. exists p2. by rewrite <- app_assoc.
Qed.

Lemma known_flag flags :
  is_u8 flags → unknown_bits flags 1 = 0 ↔ flags = 0 ∨ flags = 1.
Proof.
  intros Hf. rewrite <- (u8_byte_of_Z_small flags) by done.
  generalize (byte_of_Z flags) as b. intros b. split.
  - destruct b; vm_compute; intros ?; first [by left|by right|done].
  - by intros [->| ->].
Qed.

Lemma existsb_nonzero l :
  existsb (λ b, negb (is_zero b)) l = false ↔ l = replicate (length l) Byte.x00.
Proof.
  induction l as [|b l IH]; cbn [existsb length replicate]; [done|].
  rewrite orb_false_iff, IH, negb_false_iff. unfold is_zero. split.
  - intros [->%Byte.byte_dec_bl Hl]. by rewrite <- Hl.
  - intros [= -> Hl]. by rewrite <- Hl.
Qed.

(** ** The KNOCK parser accepts exactly the canonical encodings *)

(** The bytes a parsed KNOCK stands for, with [pad] bytes of padding, up to
    sig2. *)
Definition knock_signed_bytes (k : Knock) (pad : nat) : bytes :=
  [byte_of_Z VERSION; byte_of_Z TYPE_KNOCK; byte_of_Z (k_flags k); byte_of_Z (len (k_user k))]
  ++ k_user k ++ k_key_fp k ++ write_str16 [] (k_sig1 k)
  ++ be_bytes 8 (k_nonce k) ++ k_eph_c k ++ k_host_fp k
  ++ write_str16 [] (replicate pad Byte.x00).

Record knock_wf (k : Knock) : Prop := {
  kw_flags : k_flags k = 0 ∨ k_flags k = 1;
  kw_user : 1 ≤ len (k_user k) ≤ MAX_USER_LEN;
  kw_utf8 : utf8_valid (k_user k) = true;
  kw_nul : existsb is_zero (k_user k) = false;
  kw_key_fp : len (k_key_fp k) = 32;
  kw_sig1 : is_u16 (len (k_sig1 k));
  kw_nonce : is_u64 (k_nonce k);
  kw_eph_c : len (k_eph_c k) = 32;
  kw_host_fp : len (k_host_fp k) = 32;
  kw_need : k_flags k = 1 → k_host_fp k = zeros32;
  kw_sig2 : is_u16 (len (k_sig2 k));
}.

(** [d] is an encoding of [k]. *)
Definition encodes (k : Knock) (d : bytes) : Prop :=
  len d ≤ MAX_DATAGRAM ∧
  ∃ pad, is_u16 (Z.of_nat pad) ∧ k_signed k = knock_signed_bytes k pad ∧
         d = write_str16 (k_signed k) (k_sig2 k).

Lemma knock_parse_complete k d : knock_wf k → encodes k d → knock_parse d = Ok k.
Proof.
  intros [Hf Hu Hutf Hnul Hfp Hs1 Hn He Hh Hneed Hs2] (Hlen & pad & Hpad & Hsig & ->).
  assert (is_u8 (k_flags k)) by (destruct Hf as [-> | ->]; width_lia).
  assert (is_u8 (len (k_user k))) by (unfold MAX_USER_LEN in *; width_lia).
  assert (Hmem : fits_mem (write_str16 (k_signed k) (k_sig2 k)))
    by (unfold fits_mem, MAX_DATAGRAM in *; lia).
  unfold knock_parse, FLAG_NEED_HOSTKEY. rewrite (proj2 (Z.ltb_ge _ _)) by done.
  rewrite reader_new_end. rewrite Hsig in Hmem |- *.
  unfold knock_signed_bytes, write_str16 in *. cbn [app] in *.
  revert Hmem. app_norm. intros Hmem.
  rewrite read_head_at; [|solve_mem|by vm_compute]. rewrite read_u8_at by first [solve_mem|done].
  rewrite (proj2 (known_flag (k_flags k) ltac:(done))) by done. rewrite Z.eqb_refl. cbn [negb].
  app_norm. rewrite read_u8_at by first [solve_mem|done].
  rewrite (proj2 (Z.eqb_neq _ _)), (proj2 (Z.ltb_ge _ _)) by lia. cbn [orb].
  app_norm. rewrite read_take_at by first [solve_mem|done].
  rewrite from_utf8_ok, Hnul by done.
  app_norm. unfold read_array. rewrite read_take_at by first [solve_mem|done].
  app_norm. rewrite read_str16_at by first [solve_mem|done].
  app_norm. rewrite read_u64_at by first [solve_mem|done].
  app_norm. rewrite read_take_at by first [solve_mem|done].
  app_norm. rewrite read_take_at by first [solve_mem|done].
  assert (negb (Z.land (k_flags k) 1 =? 0) &&
          negb (bytes_eqb (k_host_fp k) zeros32) = false) as ->.
  { destruct Hf as [-> | Hf1]; [done|]. rewrite (Hneed Hf1), bytes_eqb_refl, andb_false_r. done. }
  app_norm. rewrite read_str16_at; [|solve_mem|by autorewrite with lens].
  rewrite (proj2 (existsb_nonzero _)) by (by rewrite length_replicate).
  app_norm.
  match goal with |- context [consumed ?b (reader_at ?p ?q)] =>
    replace b with (p ++ q) by (rewrite ?app_nil_r; app_norm; done); rewrite (consumed_at p q) end.
  rewrite read_str16_at by first [solve_mem|done].
  rewrite (proj2 (reader_at_end _ _)) by done. cbn [negb].
  destruct k; cbn in *. rewrite Hsig. unfold knock_signed_bytes, write_str16; cbn. by app_norm.
Qed.

(** Steps through one successful read or test of a parser. *)
Ltac parse_step :=
  match goal with
  | |- context [match read_head ?t ?e (reader_at ?p ?q) with _ => _ end] =>
      let r := fresh "r" in let E := fresh "E" in
      destruct (read_head t e (reader_at p q)) as [r|] eqn:E; [|done];
      apply read_head_inv in E as (? & -> & ->)
  | |- context [match read_u8 (reader_at ?p ?q) with _ => _ end] =>
      let E := fresh "E" in
      destruct (read_u8 (reader_at p q)) as [[? ?]|] eqn:E; [|done];
      apply read_u8_inv in E as (? & -> & ? & ->)
  | |- context [match read_u16 (reader_at ?p ?q) with _ => _ end] =>
      let E := fresh "E" in
      destruct (read_u16 (reader_at p q)) as [[? ?]|] eqn:E; [|done];
      apply read_u16_inv in E as (? & -> & ? & ->)
  | |- context [match read_u64 (reader_at ?p ?q) with _ => _ end] =>
      let E := fresh "E" in
      destruct (read_u64 (reader_at p q)) as [[? ?]|] eqn:E; [|done];
      apply read_u64_inv in E as (? & -> & ? & ->)
  | |- context [match read_str16 (reader_at ?p ?q) with _ => _ end] =>
      let E := fresh "E" in
      destruct (read_str16 (reader_at p q)) as [[? ?]|] eqn:E; [|done];
      apply read_str16_inv in E as (? & -> & ? & ->)
  | |- context [match read_take ?n (reader_at ?p ?q) with _ => _ end] =>
      let E := fresh "E" in
      destruct (read_take n (reader_at p q)) as [[? ?]|] eqn:E; [|done];
      apply read_take_inv in E as (? & -> & ? & ->); [|width_lia]
  | |- context [match from_utf8 ?e ?u with _ => _ end] =>
      let E := fresh "E" in
      destruct (from_utf8 e u) as [?|] eqn:E; [|done];
      apply from_utf8_inv in E as [-> ?]
  | |- (if ?b then Err _ else _) = _ → _ => destruct b eqn:?; [done|]
  end.

Lemma knock_parse_sound k d : knock_parse d = Ok k → knock_wf k ∧ encodes k d.
Proof.
  unfold knock_parse, read_array, FLAG_NEED_HOSTKEY.
  destruct (Z.ltb_spec MAX_DATAGRAM (len d)) as [|Hlen]; [done|].
  rewrite reader_new_at. repeat parse_step.
  match goal with |- context [consumed ?b (reader_at ?p ?q)] =>
    replace b with (p ++ q) by (app_norm; done); rewrite (consumed_at p q) end.
  repeat parse_step. intros [= <-]. zbool.
  match goal with H : reader_is_empty _ = true |- _ => apply reader_at_end in H; subst end.
  match goal with H : existsb (λ b, negb _) ?l = false |- _ =>
    apply existsb_nonzero in H; rename H into Hpad; set (padding := l) in * end.
  match goal with H : unknown_bits ?f 1 = 0 |- _ =>
    apply known_flag in H; [|done]; rename H into Hflag end.
  split.
  - split; cbn -[zeros32]; try done; try (unfold MAX_USER_LEN in *; width_lia).
    intros ->. match goal with H : _ ∨ _ |- _ => destruct H as [H|H] end; zbool; done.
  - split; [app_norm; exact Hlen|]. exists (length padding). cbn [k_signed k_sig2].
    unfold knock_signed_bytes, write_str16; cbn. rewrite <- Hpad.
    split_and!; [by unfold len in *..| |].
    + app_norm. done.
    + rewrite ?app_nil_r. app_norm. done.
Qed.

(** [Knock::parse] accepts exactly the canonical encodings: a datagram
    parses to [k] if and only if [k]'s fields are in range, the datagram is
    the encoding of [k] with some zero padding, and it fits [MAX_DATAGRAM].
    In particular [signed] is everything sig2 is over, and no byte of the
    datagram is left uninterpreted. *)
Theorem knock_parse_exact k d : knock_parse d = Ok k ↔ knock_wf k ∧ encodes k d.
Proof.
  split; [apply knock_parse_sound|]. intros [Hwf He]. by apply knock_parse_complete.
Qed.

(** ** Building a KNOCK *)

Record fields_wf (f : KnockFields) : Prop := {
  fw_utf8 : utf8_valid (kf_user f) = true;
  fw_nul : existsb is_zero (kf_user f) = false;
  fw_key_fp : len (kf_key_fp f) = 32;
  fw_nonce : is_u64 (kf_nonce f);
  fw_eph_c : len (kf_eph_c f) = 32;
  fw_host_fp : ∀ h, kf_host_fp f = Some h → len h = 32;
}.

(** The KNOCK a builder call stands for. *)
Definition built_knock (f : KnockFields) (signed sig2 : bytes) : Knock :=
  {| k_flags := knock_flags f; k_user := kf_user f; k_key_fp := kf_key_fp f;
     k_sig1 := kf_sig1 f; k_nonce := kf_nonce f; k_eph_c := kf_eph_c f;
     k_host_fp := default zeros32 (kf_host_fp f); k_signed := signed; k_sig2 := sig2 |}.

Lemma write_str16_len out s : len (write_str16 out s) = len out + 2 + len s.
Proof. unfold write_str16. autorewrite with lens. lia. Qed.

Lemma knock_padded_len f pad :
  0 ≤ pad → len (knock_padded f pad) = len (knock_prefix f) + 2 + pad.
Proof. intros. unfold knock_padded. autorewrite with lens. lia. Qed.

Lemma knock_prefix_len f :
  fields_wf f → len (knock_prefix f) = 110 + len (kf_user f) + len (kf_sig1 f).
Proof.
  intros Hf. unfold knock_prefix. autorewrite with lens. rewrite write_str16_len.
  rewrite (fw_key_fp f Hf), (fw_eph_c f Hf), (len_nil (A:=byte)).
  assert (len (default zeros32 (kf_host_fp f)) = 32) as ->; [|lia].
  destruct (kf_host_fp f) eqn:E; cbn [default]; [by apply (fw_host_fp f Hf)|done].
Qed.

Lemma sat_sub_nonneg a b : 0 ≤ sat_sub a b.
Proof. width_lia. Qed.

#[export] Hint Rewrite write_str16_len : lens.

(** The padded KNOCK, signed, is an encoding of the KNOCK built. *)
Lemma knock_padded_encodes f pad sig2 :
  0 ≤ pad → len (write_str16 (knock_padded f pad) sig2) ≤ MAX_DATAGRAM →
  encodes (built_knock f (knock_padded f pad) sig2) (write_str16 (knock_padded f pad) sig2).
Proof.
  intros Hp Hl. split; [done|]. exists (Z.to_nat pad). autorewrite with lens in Hl.
  rewrite knock_padded_len in Hl by done.
  pose proof (len_nonneg (knock_prefix f)). pose proof (len_nonneg sig2). unfold MAX_DATAGRAM in Hl.
  split_and!; [width_lia..| |done].
  cbn [k_signed built_knock]. unfold knock_padded, knock_prefix, knock_signed_bytes; cbn.
  rewrite <- !app_assoc. unfold write_str16; cbn. rewrite len_replicate, Z2Nat.id by done. done.
Qed.

Lemma built_knock_wf f signed sig2 :
  fields_wf f → 1 ≤ len (kf_user f) ≤ MAX_USER_LEN → is_u16 (len (kf_sig1 f)) →
  is_u16 (len sig2) → knock_wf (built_knock f signed sig2).
Proof.
  intros [] Hu Hs1 Hs2. unfold built_knock, knock_flags.
  split; cbn -[zeros32]; try done; destruct (kf_host_fp f); cbn -[zeros32]; try done; eauto.
Qed.

Section build_facts.
Context {C : PureCrypto}.

Lemma build_loop_ok f signer min_len tries call est d :
  build_loop f signer min_len tries call est = Ok d →
  ∃ pad i sig2, 0 ≤ pad ∧ sign signer i NS_KNOCK (knock_padded f pad) = Ok sig2 ∧
    d = write_str16 (knock_padded f pad) sig2 ∧ min_len ≤ len d ≤ MAX_DATAGRAM.
Proof.
  revert call est. induction tries as [|tries IH]; intros call est; cbn [build_loop]; [done|].
  set (pad := sat_sub _ _). destruct (sign signer call _ _) as [sig2|] eqn:E; [|done].
  destruct (Z.ltb_spec MAX_DATAGRAM (len (write_str16 (knock_padded f pad) sig2))).
  - destruct (pad =? 0); [done|apply IH].
  - destruct (Z.ltb_spec (len (write_str16 (knock_padded f pad) sig2)) min_len); [apply IH|].
    intros [= <-]. exists pad, call, sig2. split; [apply sat_sub_nonneg|]. split_and!; done.
Qed.

(** One iteration with [w] bytes of room either returns, or lowers the
    estimate by at least one while keeping it at or above [lo]. *)
Lemma build_loop_step f signer min_len tries call est sig2 lo w :
  let pad := sat_sub min_len (len (knock_prefix f) + 2 + 2 + est) in
  0 ≤ lo ≤ len sig2 → 0 ≤ w ≤ 3 → lo ≤ est ≤ lo + w → len sig2 ≤ lo + w →
  min_len + w ≤ MAX_DATAGRAM → len (knock_prefix f) + 4 + (lo + w) ≤ MAX_DATAGRAM →
  sign signer call NS_KNOCK (knock_padded f pad) = Ok sig2 →
  (∃ d, build_loop f signer min_len (S tries) call est = Ok d) ∨
  (∃ est', lo ≤ est' < est ∧
     build_loop f signer min_len (S tries) call est = build_loop f signer min_len tries (S call) est').
Proof.
  intros pad Hs Hw He Hs' Hroom Hfit Hsign. cbn [build_loop]. fold pad. rewrite Hsign.
  assert (0 ≤ pad) by apply sat_sub_nonneg. pose proof (len_nonneg (knock_prefix f)).
  rewrite write_str16_len, knock_padded_len by done.
  unfold MAX_DATAGRAM in *.
  rewrite (proj2 (Z.ltb_ge _ _)) by (unfold pad; width_lia).
  destruct (Z.ltb_spec (len (knock_prefix f) + 2 + pad + 2 + len sig2) min_len) as [Hlt|]; [right|left; eauto].
  eexists. split; [|reflexivity]. rewrite wrap64_small; unfold pad in *; width_lia.
Qed.

Lemma build_loop_total f signer min_len tries call est lo w :
  (∀ i m, ∃ s, hk_sign signer i m = Ok s ∧ lo ≤ len s ≤ lo + w) → 0 ≤ lo → 0 ≤ w ≤ 3 →
  min_len + w ≤ MAX_DATAGRAM → len (knock_prefix f) + 4 + (lo + w) ≤ MAX_DATAGRAM →
  lo ≤ est ≤ lo + w → est < lo + Z.of_nat tries →
  ∃ d, build_loop f signer min_len tries call est = Ok d.
Proof.
  intros Hsign Hlo Hw Hroom Hfit. revert call est.
  induction tries as [|tries IH]; intros call est He Ht; [lia|].
  destruct (Hsign call (signed_data NS_KNOCK (knock_padded f
    (sat_sub min_len (len (knock_prefix f) + 2 + 2 + est))))) as (s & Hs & Hl).
  destruct (build_loop_step f signer min_len tries call est s lo w) as [H|(est' & He' & ->)];
    [lia|done|done|lia|done..|]. apply IH; lia.
Qed.

Lemma knock_build_spec f signer min_len d :
  fields_wf f → knock_build f signer min_len = Ok d →
  Z.min min_len MAX_DATAGRAM ≤ len d ≤ MAX_DATAGRAM ∧
  ∃ signed i sig2,
    sign signer i NS_KNOCK signed = Ok sig2 ∧
    knock_wf (built_knock f signed sig2) ∧ encodes (built_knock f signed sig2) d.
Proof.
  intros Hf. unfold knock_build.
  destruct ((_ =? 0) || _) eqn:Hu; [done|]. intros H.
  apply build_loop_ok in H as (pad & i & sig2 & Hp & Hs & -> & Hl). split; [done|].
  exists (knock_padded f pad), i, sig2. split; [done|].
  destruct Hl as [_ Hl]. split; [|by apply knock_padded_encodes].
  rewrite write_str16_len, knock_padded_len, knock_prefix_len in Hl by done.
  unfold MAX_DATAGRAM in Hl. zbool. pose proof (len_nonneg (kf_user f)).
  pose proof (len_nonneg sig2). pose proof (len_nonneg (kf_sig1 f)).
  apply built_knock_wf; [done|lia|width_lia..].
Qed.

(** What [KnockFields::build] returns: a KNOCK that parses back to the
    fields it was built from, signed by the signer over exactly the bytes the
    server will check, at least [min_len] bytes long (capped at the datagram
    limit) and never longer than one datagram. *)
Theorem knock_build_parse f signer min_len d :
  fields_wf f → knock_build f signer min_len = Ok d →
  Z.min min_len MAX_DATAGRAM ≤ len d ≤ MAX_DATAGRAM ∧
  ∃ signed i sig2,
    sign signer i NS_KNOCK signed = Ok sig2 ∧
    knock_parse d = Ok (built_knock f signed sig2).
Proof.
  intros Hf H. apply knock_build_spec in H as (Hl & signed & i & sig2 & Hs & Hwf & He); [|done].
  split; [done|]. exists signed, i, sig2. split; [done|]. by apply knock_parse_complete.
Qed.

(** [KnockFields::build] succeeds, and within its four attempts, for
    every signer whose signatures (sig1 among them) vary in length by at most
    [w <= 3] bytes, when the longest one fits the datagram and the requested
    size leaves [w] bytes of room: the size estimate never underflows and
    each retry strictly improves it.  With signatures of one length
    ([w = 0]: Ed25519, RSA) every requested size works. *)
Theorem knock_build_succeeds f signer min_len lo w :
  fields_wf f → 1 ≤ len (kf_user f) ≤ MAX_USER_LEN → 0 ≤ w ≤ 3 →
  (∀ i m, ∃ s, hk_sign signer i m = Ok s ∧ lo ≤ len s ≤ lo + w) →
  0 ≤ lo ≤ len (kf_sig1 f) → len (kf_sig1 f) ≤ lo + w →
  Z.min min_len MAX_DATAGRAM + w ≤ MAX_DATAGRAM →
  114 + len (kf_user f) + len (kf_sig1 f) + lo + w ≤ MAX_DATAGRAM →
  ∃ d, knock_build f signer min_len = Ok d.
Proof.
  intros Hf Hu Hw Hsign Hlo Hlo' Hroom Hfit. unfold knock_build.
  rewrite (proj2 (Z.eqb_neq _ _)), (proj2 (Z.ltb_ge _ _)) by lia. cbn [orb].
  apply (build_loop_total _ _ _ _ _ _ lo w); [done|lia|done|lia| |lia|lia].
  rewrite knock_prefix_len by done. lia.
Qed.

End build_facts.

(** ** ACCEPT *)

Section accept_facts.
Context {C : PureCrypto}.

(** The ACCEPT a builder call stands for. *)
Definition built_accept (blob hash eph_s : bytes) (port window : Z) (full : bool)
    (sig : bytes) : Accept :=
  {| a_flags := if full then FLAG_HOSTKEY_FULL else 0; a_knock_hash := hash; a_eph_s := eph_s;
     a_port := port; a_window := window; a_hostkey := if full then Some blob else None;
     a_signed := accept_unsigned blob hash eph_s port window full; a_sig_host := sig |}.

Lemma accept_unsigned_len blob hash eph_s port window full :
  len hash = 32 → len eph_s = 32 →
  len (accept_unsigned blob hash eph_s port window full) =
    ACCEPT_HEAD_LEN + (if full then 2 + len blob else 0).
Proof.
  intros Hh He. unfold accept_unsigned. autorewrite with lens. rewrite Hh, He.
  destruct full; autorewrite with lens; unfold ACCEPT_HEAD_LEN; lia.
Qed.

Lemma accept_parse_built blob hash eph_s port window full sig :
  len hash = 32 → len eph_s = 32 → 1 ≤ port ≤ U16_MAX → 1 ≤ window ≤ U16_MAX →
  let d := write_str16 (accept_unsigned blob hash eph_s port window full) sig in
  len d ≤ MAX_DATAGRAM →
  accept_parse d = Ok (built_accept blob hash eph_s port window full sig).
Proof.
  intros Hh He Hp Hw d Hd. pose proof Hd as Hlens. unfold d in Hlens.
  rewrite write_str16_len, accept_unsigned_len in Hlens by done.
  unfold MAX_DATAGRAM, ACCEPT_HEAD_LEN in Hlens.
  pose proof (len_nonneg sig). pose proof (len_nonneg blob).
  unfold accept_parse. rewrite (proj2 (Z.ltb_ge _ _)) by done.
  assert (Hmem : fits_mem d) by (unfold fits_mem, MAX_DATAGRAM in *; lia).
  rewrite reader_new_end. unfold d, accept_unsigned, write_str16, FLAG_HOSTKEY_FULL in *. clear d.
  revert Hmem Hd. app_norm. intros Hmem Hd.
  rewrite read_head_at; [|solve_mem|by vm_compute].
  rewrite read_u8_at; [|solve_mem|destruct full; by vm_compute].
  rewrite (proj2 (Z.eqb_eq (unknown_bits _ _) 0)) by (by destruct full). cbn [negb].
  app_norm. unfold read_array. rewrite read_take_at by first [solve_mem|done].
  app_norm. rewrite read_take_at by first [solve_mem|done].
  app_norm. rewrite read_u16_at by first [solve_mem|width_lia].
  app_norm. rewrite read_u16_at by first [solve_mem|width_lia].
  rewrite (proj2 (Z.eqb_neq port 0)), (proj2 (Z.eqb_neq window 0)) by lia. cbn [orb].
  destruct full; [change (Z.land 1 1 =? 0) with false|change (Z.land 0 1 =? 0) with true];
    cbn [negb] in *; revert Hmem Hd; app_norm; intros Hmem Hd.
  - rewrite read_str16_at by first [solve_mem|width_lia]. app_norm.
    match goal with |- context [consumed ?b (reader_at ?p ?q)] =>
      replace b with (p ++ q) by (rewrite ?app_nil_r; app_norm; done); rewrite (consumed_at p q) end.
    rewrite read_str16_at by first [solve_mem|width_lia].
    rewrite (proj2 (reader_at_end _ _)) by done. cbn [negb].
    unfold built_accept, accept_unsigned, write_str16. by app_norm.
  - match goal with |- context [consumed ?b (reader_at ?p ?q)] =>
      replace b with (p ++ q) by (rewrite ?app_nil_r; app_norm; done); rewrite (consumed_at p q) end.
    rewrite read_str16_at by first [solve_mem|width_lia].
    rewrite (proj2 (reader_at_end _ _)) by done. cbn [negb].
    unfold built_accept, accept_unsigned, write_str16. rewrite app_nil_r. by app_norm.
Qed.

(** [hk]'s signatures are within the bound the size rules use. *)
Definition sig_bounded (hk : HostKey) : Prop :=
  ∀ i m s n, hk_sign hk i m = Ok s → max_sig_blob_len (public_blob hk) = Some n → len s ≤ n.

Lemma build_accept_len hk call hash eph_s port window full d n :
  sig_bounded hk → len hash = 32 → len eph_s = 32 →
  build_accept hk call hash eph_s port window full = Ok d →
  accept_len_bound (public_blob hk) full = Some n → len d ≤ n.
Proof.
  intros Hs Hh He. unfold build_accept, accept_len_bound.
  destruct (sign hk call _ _) as [sig|] eqn:E; [|done]. intros [= <-].
  destruct (max_sig_blob_len _) as [m|] eqn:Em; cbn [mbind option_bind]; [|done]. intros [= <-].
  rewrite write_str16_len, accept_unsigned_len by done. apply (Hs _ _ _ m) in E; [|done]. lia.
Qed.

(** An ACCEPT built for a KNOCK parses back to the fields it was built
    from, signed by the host key over exactly the bytes the client checks,
    when it fits one datagram. *)
Theorem build_accept_parse hk call hash eph_s port window full d :
  len hash = 32 → len eph_s = 32 → 1 ≤ port ≤ U16_MAX → 1 ≤ window ≤ U16_MAX →
  build_accept hk call hash eph_s port window full = Ok d → len d ≤ MAX_DATAGRAM →
  ∃ sig, accept_parse d = Ok (built_accept (public_blob hk) hash eph_s port window full sig) ∧
    sign hk call NS_ACCEPT (accept_unsigned (public_blob hk) hash eph_s port window full) = Ok sig.
Proof.
  intros Hh He Hp Hw. unfold build_accept. destruct (sign hk call _ _) as [sig|] eqn:E; [|done].
  intros [= <-] Hd. exists sig. split; [by apply accept_parse_built|done].
Qed.

End accept_facts.

(** ** Concrete datagrams *)

(** An Ed25519-sized key: signatures are 83-byte blobs. *)
Definition demo_blob : bytes :=
  into_vec (writer_new |>> write_string (bs "ssh-ed25519") |>> write_string (replicate 32 Byte.x07)).
Definition demo_sig : bytes :=
  into_vec (writer_new |>> write_string (bs "ssh-ed25519") |>> write_string (replicate 64 Byte.x09)).
Definition demo_key : HostKey := {| public_blob := demo_blob; hk_sign _ _ := Ok demo_sig |}.

(** Signatures that do not depend on the message check out. *)
Definition demo_verify : HostKeyVerify :=
  {| host_key_verify _ _ _ s := if bytes_eqb s demo_sig then Ok tt else Err BadSignature |}.

Definition demo_fields (nonce : Z) : KnockFields :=
  {| kf_user := bs "alice"; kf_key_fp := @key_fp demo_crypto demo_blob; kf_sig1 := demo_sig;
     kf_nonce := nonce; kf_eph_c := replicate 32 Byte.x05; kf_host_fp := None |}.

Lemma demo_fields_wf nonce : is_u64 nonce → fields_wf (demo_fields nonce).
Proof. intros H. split; [by vm_compute..|done|by vm_compute|by vm_compute]. Qed.

Lemma demo_key_sign : ∀ i m, ∃ s, hk_sign demo_key i m = Ok s ∧ 83 ≤ len s ≤ 83 + 0.
Proof. intros i m. exists demo_sig. split; [done|]. vm_compute. split; congruence. Qed.

Definition demo_knock (nonce : Z) : bytes :=
  match @knock_build demo_crypto (demo_fields nonce) demo_key 600 with Ok d => d | Err _ => [] end.

Lemma knock_build_parse_witness :
  600 ≤ len (demo_knock 1000) ≤ MAX_DATAGRAM ∧
  ∃ signed i sig2,
    @sign demo_crypto demo_key i NS_KNOCK signed = Ok sig2 ∧
    knock_parse (demo_knock 1000) = Ok (built_knock (demo_fields 1000) signed sig2).
Proof.
  apply (@knock_build_parse demo_crypto (demo_fields 1000) demo_key 600 (demo_knock 1000)).
  - apply demo_fields_wf. vm_compute. split; congruence.
  - vm_compute. reflexivity.
Defined.

Lemma knock_build_succeeds_witness :
  ∃ d, @knock_build demo_crypto (demo_fields 1000) demo_key MAX_DATAGRAM = Ok d.
Proof.
  apply (@knock_build_succeeds demo_crypto (demo_fields 1000) demo_key MAX_DATAGRAM 83 0).
  - apply demo_fields_wf. vm_compute. split; congruence.
  - vm_compute. split; congruence.
  - lia.
  - apply demo_key_sign.
  - vm_compute. split; congruence.
  - vm_compute. congruence.
  - vm_compute. congruence.
  - vm_compute. congruence.
Defined.

(** A signer whose signatures, like ECDSA's, vary in length: 71 or 72 bytes
    in turn. *)
Definition demo_wobbly : HostKey :=
  {| public_blob := demo_blob;
     hk_sign i _ := Ok (replicate (if Nat.even i then 72 else 71) Byte.x09) |}.

(** The four attempts are not enough when the full datagram size is asked
    for, as the client does without a known host key: a signer whose
    signatures alternate between two lengths makes [build] fail although
    every signature fits, because the size must come out exact. *)
Theorem knock_build_unlucky :
  ∃ f, fields_wf f ∧ len (kf_sig1 f) = 71 ∧
    (∀ i m, ∃ s, hk_sign demo_wobbly i m = Ok s ∧ 71 ≤ len s ≤ 72) ∧
    @knock_build demo_crypto f demo_wobbly MAX_DATAGRAM =
      Err (Crypto "knock: could not size the datagram").
Proof.
  exists {| kf_user := bs "alice"; kf_key_fp := zeros32; kf_sig1 := replicate 71 Byte.x09;
     kf_nonce := 1000; kf_eph_c := replicate 32 Byte.x05; kf_host_fp := None |}.
  split_and!.
  - split; by vm_compute.
  - done.
  - intros i m. eexists. split; [reflexivity|]. rewrite len_replicate. destruct (Nat.even i); lia.
  - vm_compute. reflexivity.
Qed.

Lemma build_accept_parse_witness :
  ∃ d sig, @build_accept demo_crypto demo_key 0 zeros32 zeros32 2222 60 true = Ok d ∧
    accept_parse d = Ok (built_accept demo_blob zeros32 zeros32 2222 60 true sig).
Proof.
  destruct (@build_accept demo_crypto demo_key 0 zeros32 zeros32 2222 60 true) as [d|] eqn:E;
    [|vm_compute in E; congruence].
  destruct (@build_accept_parse demo_crypto demo_key 0 zeros32 zeros32 2222 60 true d)
    as (sig & H & _); [reflexivity|reflexivity|lia|lia|exact E| |].
  - vm_compute in E. injection E as <-. vm_compute. congruence.
  - exists d, sig. split; [reflexivity|exact H].
Defined.
