(* ===== verification/KnockState.v ===== *)
(** * Server half of the knock protocol (src/knock/state.rs)

    [KnockState] decides one datagram at a time: strict parse, clock window,
    lazily cached keys, the two signatures, replay protection, rate limits,
    the pending cap and host-key selection.  The state is a record and every
    method returns the new one.

    The key source (a trait object of the embedding program) and the random
    numbers are arguments of the calls that use them: a source answers each
    call as it likes.  A [HashMap] is a [gmap]; the order in which it is
    iterated, which decides ties among eviction candidates, is an argument of
    each call ([HashOrder]). *)
From S2P Require Import Prelude Wire Text Crypto KnockWire.

(** ** Iteration orders and iterator methods *)

Class HashOrder := {
  hash_order {X : Type} : list X → list X;
  hash_order_perm {X : Type} (l : list X) : hash_order l ≡ₚ l;
}.

(** [Iterator::position]. *)
Fixpoint position {X} (p : X → bool) (l : list X) : option nat :=
  match l with
  | [] => None
  | x :: l' => if p x then Some O else S <$> position p l'
  end.

(** [Iterator::min_by_key]: the first of the least elements. *)
Definition min_by {X} (lt : X → X → bool) (l : list X) : option X :=
  fold_left (λ acc x, match acc with
                      | None => Some x
                      | Some y => if lt x y then Some x else Some y
                      end) l None.

(** The order of [(bool, u64)] keys, [false < true]. *)
Definition key_lt (a b : bool * Z) : bool :=
  (negb a.1 && b.1) || (Bool.eqb a.1 b.1 && (a.2 <? b.2)).

(** [Vec::swap_remove]: the last element takes the place of the removed one. *)
Definition swap_remove {X} (i : nat) (l : list X) : list X :=
  match l !! pred (length l) with
  | Some x => removelast (<[i := x]> l)
  | None => l
  end.

(** [slice.sort_by_key] is a stable sort. *)
Fixpoint insert_by_key {X} (key : X → Z) (x : X) (l : list X) : list X :=
  match l with
  | [] => [x]
  | y :: l' => if key x <=? key y then x :: l else y :: insert_by_key key x l'
  end.
Definition sort_by_key {X} (key : X → Z) (l : list X) : list X :=
  foldr (insert_by_key key) [] l.

(** ** Configuration *)

Record KnockServerConfig := {
  clock_skew_ms : Z;
  window_secs : Z;
  token_timeout_secs : Z;
  max_pending : Z;
  knock_burst : Z;
  knock_refill_ms : Z;
  newsig1_burst : Z;
  newsig1_refill_ms : Z;
  verify_per_sec : Z;
  max_prefixes_per_key : Z;
  newprefix_burst : Z;
  newprefix_refill_ms : Z;
  sig1_cache_size : Z;
  key_cache_ttl_ms : Z;
  key_cache_users : Z;
  key_lookups_per_sec : Z;
  key_lookups_prefix_burst : Z;
  key_lookups_prefix_refill_ms : Z;
  key_lookup_prefixes : Z;
}.

Definition config_default : KnockServerConfig := {|
  clock_skew_ms := 30000;
  window_secs := 60;
  token_timeout_secs := 5;
  max_pending := 2;
  knock_burst := 5;
  knock_refill_ms := 10000;
  newsig1_burst := 3;
  newsig1_refill_ms := 60000;
  verify_per_sec := 1000;
  max_prefixes_per_key := 64;
  newprefix_burst := 10;
  newprefix_refill_ms := 1000;
  sig1_cache_size := 4;
  key_cache_ttl_ms := 60000;
  key_cache_users := 4096;
  key_lookups_per_sec := 50;
  key_lookups_prefix_burst := 10;
  key_lookups_prefix_refill_ms := 200;
  key_lookup_prefixes := 1024;
|}.

(** ** Key sources *)

(** The trait [KnockKeySource], as it answers during one call. *)
Record KnockKeySource := {
  keys_for : bytes → list bytes;
  may_knock : bytes → bool;
}.

Record KnockKeyTable := { users : gmap bytes (gmap bytes bytes) }.

Definition table_new : KnockKeyTable := {| users := ∅ |}.

Definition table_insert `{PureCrypto} (user key_blob : bytes) (t : KnockKeyTable) :
    bool * KnockKeyTable :=
  if (len user =? 0) || (MAX_USER_LEN <? len user) then (false, t)
  else match max_sig_blob_len key_blob with
  | None => (false, t)
  | Some _ =>
      let keys := default ∅ (users t !! user) in
      (true, {| users := <[user := <[key_fp key_blob := key_blob]> keys]> (users t) |})
  end.

Definition table_len (t : KnockKeyTable) : Z :=
  foldr Z.add 0 ((λ p : bytes * gmap bytes bytes, Z.of_nat (size p.2)) <$> map_to_list (users t)).

Definition table_is_empty (t : KnockKeyTable) : bool := table_len t =? 0.

Definition table_source `{HashOrder} (t : KnockKeyTable) : KnockKeySource := {|
  keys_for user :=
    match users t !! user with
    | Some k => (hash_order (map_to_list k)).*2
    | None => []
    end;
  may_knock user := match users t !! user with Some _ => true | None => false end;
|}.

Record CachedKeys := { loaded_ms : Z; keys : gmap bytes bytes }.

(** ** Token buckets *)

Record Bucket := { tokens : Z; burst : Z; refill_ms : Z; last_ms : Z }.

#[export] Instance Bucket_eta : Etable Bucket := fun b =>
  {| tokens := tokens b; burst := burst b; refill_ms := refill_ms b; last_ms := last_ms b |}.

Definition bucket_new (burst refill_ms now_ms : Z) : Bucket :=
  {| tokens := burst; burst := burst; refill_ms := Z.max refill_ms 1; last_ms := now_ms |}.

Definition bucket_with_tokens (burst refill_ms now_ms toks : Z) : Bucket :=
  (bucket_new burst refill_ms now_ms) <| tokens := Z.min toks burst |>.

(** The tokens gained since the bucket's clock. *)
Definition bucket_refill (b : Bucket) (now_ms : Z) : Bucket :=
  if last_ms b <? now_ms then
    let gained := (now_ms - last_ms b) / refill_ms b in
    let b :=
      if 0 <? gained then
        b <| tokens := wrap32 (Z.min (wrap64 (tokens b + gained)) (burst b)) |>
          <| last_ms := wrap64 (last_ms b + wrap64 (gained * refill_ms b)) |>
      else b in
    if tokens b =? burst b then b <| last_ms := now_ms |> else b
  else b.

Definition bucket_take (b : Bucket) (now_ms : Z) : bool * Bucket :=
  let b := bucket_refill b now_ms in
  if 0 <? tokens b then (true, b <| tokens := tokens b - 1 |>) else (false, b).

(** ** Source prefixes *)

(** [core::net::IpAddr], by its octets. *)
Inductive IpAddr := V4 (octets : bytes) | V6 (octets : bytes).

(** [IpAddr::to_canonical]: an IPv4-mapped IPv6 address becomes IPv4. *)
Definition to_canonical (ip : IpAddr) : IpAddr :=
  match ip with
  | V4 o => V4 o
  | V6 o =>
      if bytes_eqb (take 12 o) (replicate 10 Byte.x00 ++ [Byte.xff; Byte.xff])
      then V4 (drop 12 o) else V6 o
  end.

Definition source_prefix (ip : IpAddr) : bytes :=
  match to_canonical ip with
  | V4 o => [Byte.x04; Byte.x00; Byte.x00; Byte.x00] ++ take 4 o
  | V6 o => take 8 o
  end.

(** ** Per-key state *)

Record PrefixSlot := { prefix : bytes; bucket : Bucket; last_used : Z; good : bool }.

#[export] Instance PrefixSlot_eta : Etable PrefixSlot := fun s =>
  {| prefix := prefix s; bucket := bucket s; last_used := last_used s; good := good s |}.

Record Entry := {
  sig1_cache : list bytes;
  newsig1 : Bucket;
  newprefix : Bucket;
  last_nonce : Z;
  last_knock_hash : bytes;
  last_accept : option (bytes * Z);
  knock_buckets : list PrefixSlot;
  pending : Z;
}.

#[export] Instance Entry_eta : Etable Entry := fun e =>
  {| sig1_cache := sig1_cache e; newsig1 := newsig1 e; newprefix := newprefix e;
     last_nonce := last_nonce e; last_knock_hash := last_knock_hash e;
     last_accept := last_accept e; knock_buckets := knock_buckets e; pending := pending e |}.

(** The entry [or_insert_with] creates. *)
Definition entry_new (cfg : KnockServerConfig) (now_ms : Z) : Entry :=
  {| sig1_cache := [];
     newsig1 := bucket_new (newsig1_burst cfg) (newsig1_refill_ms cfg) now_ms;
     newprefix := bucket_new (newprefix_burst cfg) (newprefix_refill_ms cfg) now_ms;
     last_nonce := 0; last_knock_hash := zeros32; last_accept := None;
     knock_buckets := []; pending := 0 |}.

Inductive DropReason :=
  | Malformed | UnknownKey | Clock | BadSig1 | BadSig2 | Replay | RateLimited
  | TooManyPending | NoHostKey.

Record PendingAccept := {
  pa_user : bytes;
  pa_key_fp : bytes;
  pa_knock_hash : bytes;
  pa_host_key : nat;
  pa_full_hostkey : bool;
  pa_eph_c : bytes;
  pa_knock_len : Z;
}.

Inductive Verdict :=
  | VDrop (r : DropReason)
  | VResend (accept : bytes)
  | VAccept (p : PendingAccept).

Record CompletedAccept := { datagram : bytes; token : bytes; host_key_blob : bytes }.

Record KnockState := {
  cfg : KnockServerConfig;
  key_cache : gmap bytes CachedKeys;
  entries : gmap (bytes * bytes) Entry;
  host_keys : list (HostKey * bytes * bytes);
  verify_bucket : Bucket;
  lookups : Bucket;
  prefix_lookups : gmap bytes (Bucket * Z);
  nonce_floor : Z;
}.

#[export] Instance KnockState_eta : Etable KnockState := fun s =>
  {| cfg := cfg s; key_cache := key_cache s; entries := entries s; host_keys := host_keys s;
     verify_bucket := verify_bucket s; lookups := lookups s;
     prefix_lookups := prefix_lookups s; nonce_floor := nonce_floor s |}.

Definition starts_with (p l : bytes) : bool := bytes_eqb (take (length p) l) p.

Definition host_key_rank (blob : bytes) : Z :=
  match read_string (reader_new blob) with
  | Ok (n, _) =>
      if bytes_eqb n (bs "ssh-ed25519") then 0
      else if starts_with (bs "ecdsa-") n then 1 else 2
  | Err _ => 2
  end.

Section state.
Context {C : PureCrypto} {V : HostKeyVerify}.

Definition knock_state_new (cfg : KnockServerConfig) (hks : list HostKey) (now_ms : Z) :
    KnockState :=
  let hk := omap (λ k, let blob := public_blob k in
                       _ ← max_sig_blob_len blob; Some (k, blob, key_fp blob)) hks in
  {| cfg := cfg; key_cache := ∅; entries := ∅;
     host_keys := sort_by_key (λ p, host_key_rank p.1.2) hk;
     verify_bucket := bucket_new (Z.max (verify_per_sec cfg) 1)
       (Z.max (1000 / Z.max (verify_per_sec cfg) 1) 1) now_ms;
     lookups := bucket_new (Z.max (key_lookups_per_sec cfg) 1)
       (Z.max (1000 / Z.max (key_lookups_per_sec cfg) 1) 1) now_ms;
     prefix_lookups := ∅; nonce_floor := now_ms |}.

(** [set_key_source]; the source itself is an argument of [handle]. *)
Definition set_key_source (s : KnockState) : KnockState := s <| key_cache := ∅ |>.

Definition invalidate_keys (user : option bytes) (s : KnockState) : KnockState :=
  match user with
  | Some u => s <| key_cache := delete u (key_cache s) |>
  | None => s <| key_cache := ∅ |>
  end.

Definition take_prefix_lookup `{HashOrder} (src : IpAddr) (now_ms : Z) (s : KnockState) :
    bool * KnockState :=
  let prefix := source_prefix src in
  let c := cfg s in
  let '(slot, s) :=
    match prefix_lookups s !! prefix with
    | Some slot => (slot, s)
    | None =>
        let '(toks, s) :=
          if Z.max (key_lookup_prefixes c) 1 <=? Z.of_nat (size (prefix_lookups s)) then
            let lru := min_by (λ a b : bytes * (Bucket * Z), a.2.2 <? b.2.2)
                         (hash_order (map_to_list (prefix_lookups s))) in
            (1, match lru with
                | Some (p, _) => s <| prefix_lookups := delete p (prefix_lookups s) |>
                | None => s
                end)
          else (key_lookups_prefix_burst c, s) in
        ((bucket_with_tokens (key_lookups_prefix_burst c) (key_lookups_prefix_refill_ms c)
            now_ms toks, now_ms), s)
    end in
  let '(ok, b) := bucket_take slot.1 now_ms in
  (ok, s <| prefix_lookups := <[prefix := (b, now_ms)]> (prefix_lookups s) |>).

(** The keys of [user] as the source answers, by fingerprint. *)
Definition supported_keys (l : list bytes) : gmap bytes bytes :=
  fold_left (λ m b, <[key_fp b := b]> m)
    (List.filter (λ b, match max_sig_blob_len b with Some _ => true | None => false end) l) ∅.

(** The user whose cache entry makes room for another. *)
Definition cache_victim `{HashOrder} (s : KnockState) : option bytes :=
  fst <$> min_by (λ a b : bytes * CachedKeys,
      key_lt (negb (bool_decide (keys a.2 = ∅)), loaded_ms a.2)
             (negb (bool_decide (keys b.2 = ∅)), loaded_ms b.2))
    (hash_order (map_to_list (key_cache s))).

(** Evicts a user when a new one would exceed the cache size. *)
Definition make_room `{HashOrder} (is_cached : bool) (s : KnockState) : KnockState :=
  if negb is_cached && (Z.max (key_cache_users (cfg s)) 1 <=? Z.of_nat (size (key_cache s)))
  then match cache_victim s with
       | Some v => s <| key_cache := delete v (key_cache s) |>
       | None => s
       end
  else s.

(** Caches the keys [ks] of [user] and drops the state of keys not in [ks]. *)
Definition install_keys (user : bytes) (ks : gmap bytes bytes) (now_ms : Z) (s : KnockState) :
    KnockState :=
  s <| entries := filter (λ e : (bytes * bytes) * Entry, e.1.1 ≠ user ∨ is_Some (ks !! e.1.2))
                    (entries s) |>
    <| key_cache := <[user := {| loaded_ms := now_ms; keys := ks |}]> (key_cache s) |>.

Definition load_user_keys `{HashOrder} (source : KnockKeySource) (user : bytes) (src : IpAddr)
    (now_ms : Z) (s : KnockState) : bool * KnockState :=
  let ttl := key_cache_ttl_ms (cfg s) in
  let cached := key_cache s !! user in
  let fresh := match cached with
               | Some c => (loaded_ms c <=? now_ms) && (now_ms - loaded_ms c <? ttl)
               | None => false
               end in
  if fresh then (true, s)
  else if negb (may_knock source user) then
    match cached with
    | Some _ =>
        (true, s <| key_cache := delete user (key_cache s) |>
                 <| entries := filter (λ e : (bytes * bytes) * Entry, e.1.1 ≠ user) (entries s) |>)
    | None => (true, s)
    end
  else
    let is_cached := match cached with Some _ => true | None => false end in
    let '(ok, s) := take_prefix_lookup src now_ms s in
    if negb ok then (is_cached, s) else
    let '(ok, b) := bucket_take (lookups s) now_ms in
    let s := s <| lookups := b |> in
    if negb ok then (is_cached, s) else
    (true, install_keys user (supported_keys (keys_for source user)) now_ms
             (make_room is_cached s)).

Definition release_pending (user fp : bytes) (s : KnockState) : KnockState :=
  match entries s !! (user, fp) with
  | Some e => s <| entries := <[(user, fp) := e <| pending := sat_sub (pending e) 1 |>]> (entries s) |>
  | None => s
  end.

(** The slot of [src]'s prefix, created (evicting another one from a full
    table) if there is none: its index and the slots. *)
Definition prefix_slot (c : KnockServerConfig) (e : Entry) (src : IpAddr) (now_ms : Z) :
    nat * list PrefixSlot :=
  let p := source_prefix src in
  match position (λ s, bytes_eqb (prefix s) p) (knock_buckets e) with
  | Some i => (i, knock_buckets e)
  | None =>
      let '(toks, slots) :=
        if Z.max (max_prefixes_per_key c) 1 <=? len (knock_buckets e) then
          let lru := default O (fst <$> min_by (λ a b : nat * PrefixSlot,
              key_lt (good a.2, last_used a.2) (good b.2, last_used b.2))
            (imap pair (knock_buckets e))) in
          (2, swap_remove lru (knock_buckets e))
        else (knock_burst c, knock_buckets e) in
      let slots := slots ++ [{| prefix := p;
          bucket := bucket_with_tokens (knock_burst c) (knock_refill_ms c) now_ms toks;
          last_used := now_ms; good := false |}] in
      (pred (length slots), slots)
  end.

(** One token from the knock bucket of [src]'s prefix, and the index of that
    prefix's slot.  (The last case does not arise: the index is in range.) *)
Definition take_knock_bucket (c : KnockServerConfig) (e : Entry) (src : IpAddr) (now_ms : Z) :
    (bool * nat) * Entry :=
  let '(idx, slots) := prefix_slot c e src now_ms in
  match slots !! idx with
  | Some slot =>
      let '(ok, b) := bucket_take (bucket slot) now_ms in
      ((ok, idx), e <| knock_buckets :=
                      <[idx := slot <| last_used := now_ms |> <| bucket := b |>]> slots |>)
  | None => ((false, idx), e <| knock_buckets := slots |>)
  end.

(** Step 4 of [handle]: sig1 against the cache, verified only on a miss.
    [vb] is the global verification bucket. *)
Definition check_sig1 (c : KnockServerConfig) (key_blob : bytes) (k : Knock) (now_ms : Z)
    (e : Entry) (vb : Bucket) : option DropReason * Entry * Bucket :=
  match position (λ s, bytes_eqb s (k_sig1 k)) (sig1_cache e) with
  | Some pos =>
      let hit := default [] (sig1_cache e !! pos) in
      (None, e <| sig1_cache := hit :: delete pos (sig1_cache e) |>, vb)
  | None =>
      let '(ok, b) := bucket_take (newsig1 e) now_ms in
      let e := e <| newsig1 := b |> in
      if negb ok then (Some RateLimited, e, vb) else
      let '(ok, vb) := bucket_take vb now_ms in
      if negb ok then (Some RateLimited, e, vb) else
      let msg := knock_id_message (k_user k) (k_key_fp k) in
      if negb (is_ok (verify key_blob NS_KNOCK_ID msg (k_sig1 k))) then (Some BadSig1, e, vb)
      else (None, e <| sig1_cache :=
                      take (Z.to_nat (Z.max (sig1_cache_size c) 1)) (k_sig1 k :: sig1_cache e) |>, vb)
  end.

(** Step 5: a retransmitted KNOCK gets the cached ACCEPT while it is valid. *)
Definition retransmit (c : KnockServerConfig) (e : Entry) (src : IpAddr) (now_ms : Z) :
    Verdict * Entry :=
  match last_accept e with
  | Some (accept, expiry) =>
      if now_ms <? expiry then
        let '((ok, _), e) := take_knock_bucket c e src now_ms in
        if negb ok then (VDrop RateLimited, e) else (VResend accept, e)
      else (VDrop Replay, e)
  | None => (VDrop Replay, e)
  end.

(** Step 11: the first host key whose ACCEPT fits the datagram. *)
Definition choose_host_key (hks : list (HostKey * bytes * bytes)) (k : Knock) (need_full : bool)
    (datagram : bytes) : option nat :=
  let fits blob := match accept_len_bound blob need_full with
                   | Some n => n <=? len datagram
                   | None => false
                   end in
  if need_full then position (λ h : HostKey * bytes * bytes, fits h.1.2) hks
  else position (λ h : HostKey * bytes * bytes, bytes_eqb h.2 (k_host_fp k) && fits h.1.2) hks.

(** Step 7: the prefix's bucket, the new-prefix bucket unless the prefix is
    good, the global bucket. *)
Definition take_rate_limits (c : KnockServerConfig) (e : Entry) (vb : Bucket) (src : IpAddr)
    (now_ms : Z) : (bool * nat) * Entry * Bucket :=
  let '((ok, slot), e) := take_knock_bucket c e src now_ms in
  let is_good := match knock_buckets e !! slot with Some s => good s | None => false end in
  if negb ok then ((false, slot), e, vb) else
  let '(ok, e) :=
    if is_good then (true, e)
    else let '(ok, b) := bucket_take (newprefix e) now_ms in (ok, e <| newprefix := b |>) in
  if negb ok then ((false, slot), e, vb) else
  let '(ok, vb) := bucket_take vb now_ms in
  ((ok, slot), e, vb).

(** [entry.knock_buckets[slot].good = true]; the slot is in range. *)
Definition mark_good (slot : nat) (e : Entry) : Entry :=
  match knock_buckets e !! slot with
  | Some s => e <| knock_buckets := <[slot := s <| good := true |>]> (knock_buckets e) |>
  | None => e
  end.

(** Steps 5 to 11 of [handle] on the entry of the KNOCK's key. *)
Definition handle_entry (s : KnockState) (key_blob : bytes) (k : Knock) (now_ms : Z)
    (src : IpAddr) (datagram : bytes) (e : Entry) (vb : Bucket) : Verdict * Entry * Bucket :=
  let c := cfg s in
  let hash := knock_hash datagram in
  if (k_nonce k =? last_nonce e) && bytes_eqb hash (last_knock_hash e) then
    (retransmit c e src now_ms, vb)
  else if (k_nonce k <=? last_nonce e) || (k_nonce k <? nonce_floor s) then
    (VDrop Replay, e, vb)
  else
    let '((ok, slot), e, vb) := take_rate_limits c e vb src now_ms in
    if negb ok then (VDrop RateLimited, e, vb)
    else if negb (is_ok (verify key_blob NS_KNOCK (k_signed k) (k_sig2 k))) then
      (VDrop BadSig2, e, vb)
    else
      let e := mark_good slot e in
      let e := e <| last_nonce := k_nonce k |> <| last_knock_hash := hash |>
                 <| last_accept := None |> in
      if max_pending c <=? pending e then (VDrop TooManyPending, e, vb)
      else
        let need_full := negb (Z.land (k_flags k) FLAG_NEED_HOSTKEY =? 0) in
        match choose_host_key (host_keys s) k need_full datagram with
        | None => (VDrop NoHostKey, e, vb)
        | Some host_key =>
            (VAccept {| pa_user := k_user k; pa_key_fp := k_key_fp k; pa_knock_hash := hash;
                        pa_host_key := host_key; pa_full_hostkey := need_full;
                        pa_eph_c := k_eph_c k; pa_knock_len := len datagram |},
             e <| pending := pending e + 1 |>, vb)
        end.

Definition handle `{HashOrder} (source : KnockKeySource) (now_ms : Z) (src : IpAddr)
    (datagram : bytes) (s : KnockState) : Verdict * KnockState :=
  match knock_parse datagram with
  | Err _ => (VDrop Malformed, s)
  | Ok k =>
      if clock_skew_ms (cfg s) <? abs_diff (k_nonce k) now_ms then (VDrop Clock, s) else
      let '(loaded, s) := load_user_keys source (k_user k) src now_ms s in
      if negb loaded then (VDrop RateLimited, s) else
      match key_cache s !! k_user k ≫= (λ c, keys c !! k_key_fp k) with
      | None => (VDrop UnknownKey, s)
      | Some key_blob =>
          let key := (k_user k, k_key_fp k) in
          let e := default (entry_new (cfg s) now_ms) (entries s !! key) in
          let '(drop, e, vb) := check_sig1 (cfg s) key_blob k now_ms e (verify_bucket s) in
          let '(v, e, vb) :=
            match drop with
            | Some r => (VDrop r, e, vb)
            | None => handle_entry s key_blob k now_ms src datagram e vb
            end in
          (v, s <| entries := <[key := e]> (entries s) |> <| verify_bucket := vb |>)
      end
  end.

(** [eph] is the ephemeral key the random generator gave, [call] the number
    of the host key's signature. *)
Definition complete_inner (p : PendingAccept) (port now_ms : Z) (eph : bytes) (call : nat)
    (s : KnockState) : result CompletedAccept * KnockState :=
  match host_keys s !! pa_host_key p with
  | None => (Err (Config "knock: host key index"), s)
  | Some (host_key, blob, _) =>
      let eph_s := x25519_public_key eph in
      match x25519_diffie_hellman eph (pa_eph_c p) with
      | None => (Err (Crypto "knock: small-order client ephemeral"), s)
      | Some shared =>
          let window := Z.max (window_secs (cfg s)) 1 in
          let! dg := build_accept host_key call (pa_knock_hash p) eph_s port window
                       (pa_full_hostkey p) at s in
          if pa_knock_len p <? len dg then (Err (Protocol "knock: ACCEPT larger than KNOCK"), s)
          else
            let tok := open_token shared (pa_knock_hash p) eph_s port in
            let key := (pa_user p, pa_key_fp p) in
            let s :=
              match entries s !! key with
              | Some e =>
                  if bytes_eqb (last_knock_hash e) (pa_knock_hash p)
                  then s <| entries := <[key := e <| last_accept :=
                             Some (dg, wrap64 (now_ms + window * 1000)) |>]> (entries s) |>
                  else s
              | None => s
              end in
            (Ok {| datagram := dg; token := tok; host_key_blob := blob |}, s)
      end
  end.

Definition complete (p : PendingAccept) (port now_ms : Z) (eph : bytes) (call : nat)
    (s : KnockState) : result CompletedAccept * KnockState :=
  let '(res, s) := complete_inner p port now_ms eph call s in
  if negb (is_ok res) then (res, release_pending (pa_user p) (pa_key_fp p) s) else (res, s).

End state.
