(* ===== verification/KnockFacts.v ===== *)
(** * Properties of the knock server

    Token buckets never give out more than their rate; the tables stay within
    the configured bounds; an accepted knock was authentic, in time, fresh
    and within the limits; nonces of accepted knocks strictly increase; no
    answer is longer than the datagram it answers. *)
From S2P Require Import Prelude Wire Text Crypto KnockWire KnockState.

(** ** Token buckets *)

(** A wall clock, in milliseconds, far enough from the end of [u64] for the
    sums of [Bucket::take]. *)
Definition clock_ok (now : Z) : Prop := 0 ≤ now ≤ U64_MAX - U32_MAX.

Record bucket_wf (b : Bucket) : Prop := {
  bw_tokens : 0 ≤ tokens b ≤ burst b;
  bw_burst : is_u32 (burst b);
  bw_refill : 1 ≤ refill_ms b;
  bw_last : 0 ≤ last_ms b;
}.

Lemma bucket_new_wf n refill now :
  is_u32 n → 0 ≤ now → bucket_wf (bucket_new n refill now).
Proof. intros. split; cbn; width_lia. Qed.

Lemma bucket_with_tokens_wf n refill now toks :
  is_u32 n → 0 ≤ toks → 0 ≤ now → bucket_wf (bucket_with_tokens n refill now toks).
Proof. intros. split; unfold bucket_with_tokens, set_field; cbn; width_lia. Qed.

(** Tokens gained are paid for by the time the bucket's clock advanced. *)
Lemma bucket_refill_spec b now :
  bucket_wf b → clock_ok now →
  let b' := bucket_refill b now in
  bucket_wf b' ∧ burst b' = burst b ∧ refill_ms b' = refill_ms b ∧
  last_ms b ≤ last_ms b' ≤ Z.max (last_ms b) now ∧ tokens b ≤ tokens b' ∧
  tokens b' * refill_ms b ≤ tokens b * refill_ms b + (last_ms b' - last_ms b) ∧
  (1 ≤ burst b → last_ms b + refill_ms b ≤ now → 1 ≤ tokens b').
Proof.
  intros [Ht Hb Hr Hl] Hc. unfold bucket_refill, clock_ok in *.
  destruct (Z.ltb_spec (last_ms b) now) as [Hlt|]; [|split_and!; try lia; by split].
  pose proof (Z.mul_div_le (now - last_ms b) (refill_ms b) ltac:(lia)) as Hdiv.
  assert (Hone : last_ms b + refill_ms b ≤ now → 1 ≤ (now - last_ms b) / refill_ms b).
  { intros. apply Z.div_le_lower_bound; lia. }
  set (g := (now - last_ms b) / refill_ms b) in *.
  destruct (Z.ltb_spec 0 g) as [Hg|].
  - assert (g * 1 ≤ g * refill_ms b) by (apply Z.mul_le_mono_nonneg_l; lia).
    proj_simpl.
    rewrite (wrap64_small (g * refill_ms b)), (wrap64_small (last_ms b + _)),
      (wrap64_small (tokens b + g)), wrap32_small by width_lia.
    destruct (Z.eqb_spec (Z.min (tokens b + g) (burst b)) (burst b)); cbn; split_and!; try lia;
      try (split; cbn; width_lia); nia.
  - destruct (Z.eqb_spec (tokens b) (burst b)); proj_simpl; split_and!; try lia;
      try (split; cbn; width_lia).
Qed.

Lemma bucket_take_spec b now ok b' :
  bucket_wf b → clock_ok now → bucket_take b now = (ok, b') →
  bucket_wf b' ∧ burst b' = burst b ∧ refill_ms b' = refill_ms b ∧
  last_ms b ≤ last_ms b' ≤ Z.max (last_ms b) now ∧
  (Z.b2z ok + tokens b') * refill_ms b ≤ tokens b * refill_ms b + (last_ms b' - last_ms b).
Proof.
  intros Hwf Hc. destruct (bucket_refill_spec b now Hwf Hc) as ([] & ? & ? & ? & _ & ? & _).
  unfold bucket_take. set (b1 := bucket_refill b now) in *.
  destruct (Z.ltb_spec 0 (tokens b1)); intros [= <- <-]; proj_simpl;
    split_and!; try lia; split; cbn; width_lia.
Qed.

(** A bucket with a token, or given the time for one, gives one out; it
    loses at most that one. *)
Lemma bucket_take_has b now :
  bucket_wf b → clock_ok now → 1 ≤ burst b →
  1 ≤ tokens b ∨ last_ms b + refill_ms b ≤ now →
  ∃ b', bucket_take b now = (true, b') ∧ tokens b - 1 ≤ tokens b' ∧ bucket_wf b'.
Proof.
  intros Hwf Hc Hb Hor. destruct (bucket_refill_spec b now Hwf Hc) as ([] & ? & ? & ? & ? & ? & Hone).
  unfold bucket_take. set (b1 := bucket_refill b now) in *.
  assert (1 ≤ tokens b1) by (destruct Hor; [lia|by apply Hone]).
  rewrite (proj2 (Z.ltb_lt _ _)) by lia. eexists. split; [done|]. proj_simpl.
  split; [lia|]. split; cbn; width_lia.
Qed.

(** A sequence of calls; the number that got a token. *)
Fixpoint bucket_takes (b : Bucket) (ts : list Z) : Z * Bucket :=
  match ts with
  | [] => (0, b)
  | t :: ts' =>
      let '(ok, b) := bucket_take b t in
      let '(n, b) := bucket_takes b ts' in
      (Z.b2z ok + n, b)
  end.

Lemma bucket_takes_spec ts b n b' T :
  bucket_wf b → Forall clock_ok ts → Forall (λ t, t ≤ T) ts → bucket_takes b ts = (n, b') →
  refill_ms b' = refill_ms b ∧ last_ms b ≤ last_ms b' ≤ Z.max (last_ms b) T ∧
  (n + tokens b') * refill_ms b ≤ tokens b * refill_ms b + (last_ms b' - last_ms b) ∧ bucket_wf b'.
Proof.
  revert b n. induction ts as [|t ts IH]; intros b n Hb Hc HT; cbn [bucket_takes].
  - intros [= <- <-]. split_and!; [done|lia..|done].
  - apply Forall_cons_1 in Hc as [Hc Hcs]. apply Forall_cons_1 in HT as [HT HTs].
    destruct (bucket_take b t) as [ok b1] eqn:E1. destruct (bucket_takes b1 ts) as [m b2] eqn:E2.
    intros [= <- <-]. apply bucket_take_spec in E1 as (Hb1 & _ & Hr1 & Hl1 & Hs1); [|done..].
    destruct (IH _ _ Hb1 Hcs HTs E2) as (Hr2 & Hl2 & Hs2 & Hb2).
    rewrite Hr1 in *. split_and!; [done|lia..|lia|done].
Qed.

(** A token bucket keeps its rate, whatever the times it is asked at
    (the clock may stand still or go back): over calls up to time [T], the
    number of tokens given out is at most what it held plus one per
    [refill_ms] elapsed since its clock. *)
Theorem bucket_rate b ts T :
  bucket_wf b → Forall clock_ok ts → Forall (λ t, t ≤ T) ts → last_ms b ≤ T →
  (bucket_takes b ts).1 ≤ tokens b + (T - last_ms b) / refill_ms b.
Proof.
  intros Hb Hc HT Hl. destruct (bucket_takes b ts) as [n b'] eqn:E.
  destruct (bucket_takes_spec _ _ _ _ _ Hb Hc HT E) as (_ & Hl' & Hs & Hb'). destruct Hb, Hb'. cbn.
  assert (n - tokens b ≤ (T - last_ms b) / refill_ms b); [|lia].
  apply Z.div_le_lower_bound; nia.
Qed.

(** ** Iterators *)

Lemma position_Some {X} (p : X → bool) l i :
  position p l = Some i → ∃ x, l !! i = Some x ∧ p x = true.
Proof.
  revert i. induction l as [|x l IH]; intros i; cbn [position]; [done|].
  destruct (p x) eqn:E; [intros [= <-]; by exists x|].
  destruct (position p l) as [j|]; [|done]. intros [= <-]. by apply IH.
Qed.

Lemma position_None {X} (p : X → bool) l x : position p l = None → x ∈ l → p x = false.
Proof.
  induction l as [|y l IH]; cbn [position]; intros H Hx; [by apply elem_of_nil in Hx|].
  destruct (p y) eqn:E; [done|]. apply elem_of_cons in Hx as [->|Hx]; [done|].
  apply IH; [|done]. by destruct (position p l).
Qed.

Lemma min_by_fold_elem {X} (lt : X → X → bool) l acc x :
  fold_left (λ acc x, match acc with
                      | None => Some x
                      | Some y => if lt x y then Some x else Some y
                      end) l acc = Some x → acc = Some x ∨ x ∈ l.
Proof.
  revert acc. induction l as [|y l IH]; intros acc; cbn [fold_left]; [by left|].
  intros [H|H]%IH; [|right; by apply elem_of_cons; right].
  destruct acc as [z|]; [destruct (lt y z)|]; simplify_eq; auto; right; apply elem_of_cons; by left.
Qed.

Lemma min_by_elem {X} (lt : X → X → bool) l x : min_by lt l = Some x → x ∈ l.
Proof. intros [|]%min_by_fold_elem; done. Qed.

Lemma min_by_nonempty {X} (lt : X → X → bool) l : l ≠ [] → is_Some (min_by lt l).
Proof.
  unfold min_by. destruct l as [|x l]; [done|]. intros _. cbn [fold_left]. generalize x as y.
  induction l as [|z l IH]; intros y; cbn [fold_left]; [eauto|]. destruct (lt z y); apply IH.
Qed.

Lemma swap_remove_perm {X} i (l : list X) x : l !! i = Some x → x :: swap_remove i l ≡ₚ l.
Proof.
  intros Hi. unfold swap_remove. pose proof (lookup_lt_Some _ _ _ Hi) as Hlt.
  destruct (exists_last (l:=l)) as (l' & y & ->); [by intros ->|].
  rewrite length_app in *. cbn [length] in *. replace (pred (length l' + 1)) with (length l') by lia.
  rewrite list_lookup_middle by done.
  destruct (decide (i = length l')) as [->|Hne].
  - rewrite list_lookup_middle in Hi by done. simplify_eq.
    rewrite list_insert_id by (by apply list_lookup_middle).
    rewrite removelast_last. by rewrite Permutation_app_comm.
  - rewrite insert_app_l, removelast_last by lia. rewrite lookup_app_l in Hi by lia.
    rewrite <- (take_drop_middle l' i x Hi) at 2.
    rewrite insert_take_drop by lia. rewrite <- app_assoc, <- !app_comm_cons. solve_Permutation.
Qed.

Lemma swap_remove_length {X} i (l : list X) : length (swap_remove i l) = pred (length l).
Proof.
  unfold swap_remove. destruct (l !! pred (length l)) eqn:E.
  - rewrite removelast_firstn_len, length_firstn, !length_insert. lia.
  - apply lookup_ge_None in E. destruct l; cbn in *; [done|lia].
Qed.

(** ** The invariant of the server state *)

(** The integer widths of the configuration fields that matter. *)
Record config_wf (c : KnockServerConfig) : Prop := {
  cw_max_pending : is_u32 (max_pending c);
  cw_knock_burst : is_u32 (knock_burst c);
  cw_newsig1_burst : is_u32 (newsig1_burst c);
  cw_newprefix_burst : is_u32 (newprefix_burst c);
  cw_verify : is_u32 (verify_per_sec c);
  cw_lookups : is_u32 (key_lookups_per_sec c);
  cw_lookups_prefix : is_u32 (key_lookups_prefix_burst c);
}.

Section invariant.
(** [auth user blob]: the key source may list [blob] for [user]. *)
Context {C : PureCrypto} {V : HostKeyVerify} (auth : bytes → bytes → Prop).

Definition source_ok (source : KnockKeySource) : Prop :=
  ∀ user blob, blob ∈ keys_for source user → auth user blob.

(** [s] was verified as sig1 of [user] under an authorised key with
    fingerprint [fp]. *)
Definition sig1_valid (user fp s : bytes) : Prop :=
  ∃ blob, auth user blob ∧ key_fp blob = fp ∧
    verify blob NS_KNOCK_ID (knock_id_message user fp) s = Ok tt.

Record entry_wf (c : KnockServerConfig) (user fp : bytes) (e : Entry) : Prop := {
  ew_sig1 : Forall (sig1_valid user fp) (sig1_cache e);
  ew_sig1_len : len (sig1_cache e) ≤ Z.max (sig1_cache_size c) 1;
  ew_slots_len : len (knock_buckets e) ≤ Z.max (max_prefixes_per_key c) 1;
  ew_slots_nodup : NoDup (prefix <$> knock_buckets e);
  ew_slots : Forall (λ s, bucket_wf (bucket s) ∧ burst (bucket s) = knock_burst c) (knock_buckets e);
  ew_newsig1 : bucket_wf (newsig1 e);
  ew_newprefix : bucket_wf (newprefix e);
  ew_pending : 0 ≤ pending e ≤ max_pending c;
  ew_nonce : 0 ≤ last_nonce e;
}.

Record kstate_wf (s : KnockState) : Prop := {
  kw_cfg : config_wf (cfg s);
  kw_cache_size : Z.of_nat (size (key_cache s)) ≤ Z.max (key_cache_users (cfg s)) 1;
  kw_cache : map_Forall (λ u c, map_Forall (λ fp b, key_fp b = fp ∧ auth u b) (keys c)) (key_cache s);
  kw_entries : map_Forall (λ k e, entry_wf (cfg s) k.1 k.2 e) (entries s);
  kw_verify : bucket_wf (verify_bucket s);
  kw_lookups_bucket : bucket_wf (lookups s);
  kw_prefixes_size : Z.of_nat (size (prefix_lookups s)) ≤ Z.max (key_lookup_prefixes (cfg s)) 1;
  kw_prefixes : map_Forall (λ _ p, bucket_wf p.1) (prefix_lookups s);
}.

Lemma entry_new_wf c user fp now :
  config_wf c → clock_ok now → entry_wf c user fp (entry_new c now).
Proof.
  intros [] Hc. unfold clock_ok in Hc. split; cbn; try (autorewrite with lens; lia); try constructor;
    try (apply bucket_new_wf; [done|lia]); try width_lia.
Qed.

Lemma knock_state_new_wf c hks now :
  config_wf c → clock_ok now → kstate_wf (knock_state_new c hks now).
Proof.
  intros Hcfg Hc. pose proof Hcfg as []. unfold clock_ok in Hc.
  split; unfold knock_state_new; cbn; try done; try (rewrite map_size_empty; lia);
    try (apply bucket_new_wf; [width_lia|lia]); apply map_Forall_empty.
Qed.

(** Evicting a member of a full table and inserting a key that was not there
    keeps the table at its bound. *)
Lemma evict_size `{Countable K} {A} (m : gmap K A) k v x (bound : Z) :
  Z.of_nat (size m) ≤ bound → m !! k = Some v →
  Z.of_nat (size (<[x := v]> (delete k m))) ≤ bound.
Proof.
  intros Hs Hk. pose proof (map_size_delete_Some k m ltac:(by exists v)) as Hd.
  assert (size m ≠ 0)%nat by (intros ?%map_size_empty_inv; subst; by rewrite lookup_empty in Hk).
  destruct (delete k m !! x) eqn:E.
  - rewrite map_size_insert_Some by done. lia.
  - rewrite map_size_insert_None by done. lia.
Qed.

(** The least element of a non-empty table is a member of it. *)
Lemma min_by_map `{HashOrder, Countable K} {A} (lt : K * A → K * A → bool) (m : gmap K A) :
  (1 ≤ size m)%nat →
  ∃ k v, min_by lt (hash_order (map_to_list m)) = Some (k, v) ∧ m !! k = Some v.
Proof.
  intros Hs. destruct (min_by_nonempty lt (hash_order (map_to_list m))) as [[k v] Hkv].
  - intros Hn. pose proof (hash_order_perm (map_to_list m)) as Hp. rewrite Hn in Hp.
    apply Permutation_nil in Hp. apply map_to_list_empty_iff in Hp. subst.
    rewrite map_size_empty in Hs. lia.
  - exists k, v. split; [done|]. apply min_by_elem in Hkv. rewrite hash_order_perm in Hkv.
    by apply elem_of_map_to_list.
Qed.

Lemma evict_map_size `{HashOrder, Countable K} {A} (lt : K * A → K * A → bool) (m : gmap K A)
    x v (bound : Z) :
  1 ≤ bound → Z.of_nat (size m) ≤ bound → m !! x = None →
  Z.of_nat (size (<[x := v]>
    (if bound <=? Z.of_nat (size m) then
       match min_by lt (hash_order (map_to_list m)) with
       | Some (k, _) => delete k m
       | None => m
       end else m))) ≤ bound.
Proof.
  intros Hb Hs Hx. destruct (Z.leb_spec bound (Z.of_nat (size m))).
  - destruct (min_by_map lt m ltac:(lia)) as (k & w & -> & Hk).
    rewrite <- (insert_insert_eq (delete k m) x v w).
    rewrite map_size_insert_Some by (by rewrite lookup_insert_eq). by apply evict_size.
  - rewrite map_size_insert_None by done. lia.
Qed.

(** ** The operations preserve the invariant *)

Lemma take_prefix_lookup_wf `{HashOrder} src now s ok s' :
  kstate_wf s → clock_ok now → take_prefix_lookup src now s = (ok, s') →
  kstate_wf s' ∧ cfg s' = cfg s ∧ key_cache s' = key_cache s ∧ entries s' = entries s ∧
  host_keys s' = host_keys s ∧ verify_bucket s' = verify_bucket s ∧ nonce_floor s' = nonce_floor s.
Proof.
  intros Hwf Hc. pose proof Hwf as [Hcfg Hcs Hcache Hent Hver Hlk Hps Hpre]. pose proof Hcfg as [].
  unfold take_prefix_lookup. set (p := source_prefix src).
  destruct (prefix_lookups s !! p) as [[b u]|] eqn:Ep.
  - cbn [fst]. destruct (bucket_take b now) as [ok' b'] eqn:Eb. intros [= <- <-].
    apply bucket_take_spec in Eb as (Hb' & _); [|by apply (Hpre _ _ Ep)|done].
    split; [|done]. split; proj_simpl; try done.
    + rewrite map_size_insert_Some by done. done.
    + by apply map_Forall_insert_2.
  - set (full := _ <=? _).
    match goal with |- (let '(_, _) := (let '(_, _) := ?t in _) in _) = _ → _ =>
      assert (t = (if full then 1 else key_lookups_prefix_burst (cfg s),
                s <| prefix_lookups := if full then
                   match min_by (λ a b : bytes * (Bucket * Z), a.2.2 <? b.2.2)
                         (hash_order (map_to_list (prefix_lookups s))) with
                   | Some (k, _) => delete k (prefix_lookups s)
                   | None => prefix_lookups s
                   end else prefix_lookups s |>)) as -> end.
    { destruct full; [destruct (min_by _ _) as [[??]|]|]; destruct s; done. }
    destruct (bucket_take _ now) as [ok' b'] eqn:Eb. intros [= <- <-].
    apply bucket_take_spec in Eb as (Hb' & _);
      [|cbn [fst]; unfold clock_ok in *; apply bucket_with_tokens_wf; [done|destruct full; width_lia|lia]|done].
    split; [|done]. split; proj_simpl; try done.
    + apply evict_map_size; [lia|done..].
    + apply map_Forall_insert_2; [done|]. destruct full; [|done].
      destruct (min_by _ _) as [[k ?]|]; [by apply map_Forall_delete|done].
Qed.

Lemma kstate_wf_entries s m :
  kstate_wf s → map_Forall (λ k e, entry_wf (cfg s) k.1 k.2 e) m → kstate_wf (s <| entries := m |>).
Proof. intros [] Hm. by split. Qed.

Lemma kstate_wf_cache s m :
  kstate_wf s → Z.of_nat (size m) ≤ Z.max (key_cache_users (cfg s)) 1 →
  map_Forall (λ u c, map_Forall (λ fp b, key_fp b = fp ∧ auth u b) (keys c)) m →
  kstate_wf (s <| key_cache := m |>).
Proof. intros [] ? Hm. by split. Qed.

Lemma map_size_delete_le `{Countable K} {A} (m : gmap K A) k :
  Z.of_nat (size (delete k m)) ≤ Z.of_nat (size m).
Proof. rewrite map_size_delete. destruct (m !! k); cbn; lia. Qed.

Lemma kstate_wf_uncache s u : kstate_wf s → kstate_wf (s <| key_cache := delete u (key_cache s) |>).
Proof.
  intros Hwf. pose proof Hwf as []. apply kstate_wf_cache; [done| |by apply map_Forall_delete].
  pose proof (map_size_delete_le (key_cache s) u). lia.
Qed.

Lemma supported_keys_fp user l :
  (∀ b, b ∈ l → auth user b) → map_Forall (λ fp b, key_fp b = fp ∧ auth user b) (supported_keys l).
Proof.
  intros Hl. unfold supported_keys.
  assert (∀ b, b ∈ List.filter (λ b, match max_sig_blob_len b with Some _ => true | None => false end) l →
    auth user b) as Hl'.
  { intros b Hb%list_elem_of_In%filter_In. apply Hl, list_elem_of_In. tauto. }
  clear Hl. revert Hl'. set (l' := List.filter _ l). clearbody l'. intros Hl.
  assert (map_Forall (λ fp b, key_fp b = fp ∧ auth user b) (∅ : gmap bytes bytes)) as Hm
    by apply map_Forall_empty.
  revert Hm. generalize (∅ : gmap bytes bytes) as m.
  induction l' as [|b l' IH]; intros m Hm; cbn [fold_left]; [done|].
  apply IH; [intros; apply Hl, elem_of_cons; by right|].
  apply map_Forall_insert_2; [|done]. split; [done|]. apply Hl, elem_of_cons. by left.
Qed.

(** Entries of other keys, and of [key] while it is kept, survive a lookup. *)
Definition keeps_key (source : KnockKeySource) (user fp : bytes) : Prop :=
  may_knock source user = true ∧ is_Some (supported_keys (keys_for source user) !! fp).

Lemma map_Forall_filter_sub (m : gmap (bytes * bytes) Entry) (Q : bytes * bytes → Entry → Prop)
    (P : (bytes * bytes) * Entry → Prop) `{!∀ x, Decision (P x)} :
  map_Forall Q m → map_Forall Q (filter P m).
Proof. intros HQ k e [He _]%map_lookup_filter_Some. by apply HQ. Qed.

Lemma filter_lookup_keep (m : gmap (bytes * bytes) Entry)
    (P : (bytes * bytes) * Entry → Prop) `{!∀ x, Decision (P x)} k :
  (∀ e, P (k, e)) → filter P m !! k = m !! k.
Proof.
  intros HP. rewrite map_lookup_filter. destruct (m !! k); cbn; [|done].
  by rewrite option_guard_True by apply HP.
Qed.

Lemma make_room_size `{HashOrder} user (is_cached : bool) c s :
  kstate_wf s → is_cached = true ↔ is_Some (key_cache s !! user) →
  Z.of_nat (size (<[user := c]> (key_cache (make_room is_cached s)))) ≤
    Z.max (key_cache_users (cfg s)) 1.
Proof.
  intros Hwf Hcached. pose proof (kw_cache_size s Hwf) as Hs. unfold make_room.
  destruct is_cached; cbn [negb andb].
  - destruct Hcached as [[c' Hc] _]; [done|]. by rewrite map_size_insert_Some.
  - assert (key_cache s !! user = None) as Hn.
    { apply eq_None_not_Some. intros Hs'. by apply Hcached in Hs'. }
    set (lt := λ a b : bytes * CachedKeys, key_lt (negb (bool_decide (keys a.2 = ∅)), loaded_ms a.2)
             (negb (bool_decide (keys b.2 = ∅)), loaded_ms b.2)).
    pose proof (evict_map_size lt (key_cache s) user c (Z.max (key_cache_users (cfg s)) 1) ltac:(lia) Hs Hn) as Hev.
    unfold cache_victim. fold lt. destruct (Z.max _ 1 <=? _); [|done].
    destruct (min_by lt _) as [[v ?]|]; done.
Qed.

Lemma make_room_other `{HashOrder} is_cached s :
  kstate_wf s → kstate_wf (make_room is_cached s) ∧
  make_room is_cached s = s <| key_cache := key_cache (make_room is_cached s) |>.
Proof.
  intros Hwf. unfold make_room. destruct (_ && _); [|by destruct s].
  destruct (cache_victim s); [|by destruct s]. split; [by apply kstate_wf_uncache|done].
Qed.

Lemma load_user_keys_wf `{HashOrder} source user src now s ok s' :
  kstate_wf s → clock_ok now → source_ok source → load_user_keys source user src now s = (ok, s') →
  kstate_wf s' ∧ cfg s' = cfg s ∧ host_keys s' = host_keys s ∧
  verify_bucket s' = verify_bucket s ∧ nonce_floor s' = nonce_floor s ∧ entries s' ⊆ entries s ∧
  (∀ u fp, keeps_key source u fp → entries s' !! (u, fp) = entries s !! (u, fp)).
Proof.
  intros Hwf Hc Hsrc. unfold load_user_keys. set (fresh := match key_cache s !! user with Some _ => _ | None => _ end).
  destruct fresh; [by intros [= <- <-]|].
  destruct (may_knock source user) eqn:Emay; cbn [negb].
  2:{ destruct (key_cache s !! user) eqn:Ec; intros [= <- <-]; [|by split_and!].
      split_and!; try done.
      - apply (kstate_wf_entries (s <| key_cache := delete user (key_cache s) |>));
          [by apply kstate_wf_uncache|]. apply map_Forall_filter_sub, Hwf.
      - apply map_filter_subseteq.
      - intros u fp [Hm _]. apply filter_lookup_keep. intros e. cbn. congruence. }
  set (is_cached := match key_cache s !! user with Some _ => true | None => false end).
  destruct (take_prefix_lookup src now s) as [ok1 s1] eqn:E1.
  destruct (take_prefix_lookup_wf _ _ _ _ _ Hwf Hc E1) as (Hwf1 & Hcfg1 & Hkc1 & Hen1 & Hhk1 & Hv1 & Hf1).
  destruct ok1; cbn [negb]; [|intros [= <- <-]; by rewrite Hen1].
  destruct (bucket_take (lookups s1) now) as [ok2 b] eqn:E2.
  apply bucket_take_spec in E2 as (Hb & _); [|by apply Hwf1|done].
  assert (Hwf2 : kstate_wf (s1 <| lookups := b |>)) by (destruct Hwf1; by split).
  destruct ok2; cbn [negb]; [|intros [= <- <-]; rewrite <- Hen1; by split_and!].
  set (s2 := s1 <| lookups := b |>) in *. intros [= <- <-].
  destruct (make_room_other is_cached s2 Hwf2) as [Hwf3 Heq].
  assert (Hroom := make_room_size user is_cached
    {| loaded_ms := now; keys := supported_keys (keys_for source user) |} s2 Hwf2).
  rewrite Heq in Hwf3 |- *. clear Heq. set (m := key_cache (make_room is_cached s2)) in *.
  unfold install_keys. split_and!; try done.
  - apply kstate_wf_cache; [apply kstate_wf_entries; [done|]| |].
    + apply map_Forall_filter_sub, Hwf3.
    + apply Hroom. unfold s2, is_cached. proj_simpl. rewrite Hkc1.
      destruct (key_cache s !! user); split; [eauto|done|done|by intros []].
    + apply map_Forall_insert_2; [apply supported_keys_fp, Hsrc|apply Hwf3].
  - proj_simpl. rewrite <- Hen1. apply map_filter_subseteq.
  - intros u fp [_ Hk]. proj_simpl. rewrite <- Hen1. apply filter_lookup_keep. intros e. cbn.
    destruct (decide (u = user)) as [->|]; auto.
Qed.

(** [e'] differs from [e] in caches and buckets only. *)
Definition same_replay (e e' : Entry) : Prop :=
  last_nonce e' = last_nonce e ∧ last_knock_hash e' = last_knock_hash e ∧
  last_accept e' = last_accept e ∧ pending e' = pending e.

Lemma entry_wf_slots c user fp e slots :
  entry_wf c user fp e → len slots ≤ Z.max (max_prefixes_per_key c) 1 →
  NoDup (prefix <$> slots) →
  Forall (λ s, bucket_wf (bucket s) ∧ burst (bucket s) = knock_burst c) slots →
  entry_wf c user fp (e <| knock_buckets := slots |>).
Proof. intros [] ? ? ?. by split. Qed.

(** Making room in a full slot table. *)
Lemma evict_slot (slots : list PrefixSlot) (lt : nat * PrefixSlot → nat * PrefixSlot → bool) :
  slots ≠ [] → ∃ y, y :: swap_remove (default O (fst <$> min_by lt (imap pair slots))) slots ≡ₚ slots.
Proof.
  intros Hne. destruct (min_by_nonempty lt (imap pair slots)) as [[i y] Hi].
  { destruct slots; [done|]. by rewrite imap_cons. }
  rewrite Hi. cbn. exists y. apply swap_remove_perm.
  apply min_by_elem, elem_of_lookup_imap in Hi as (j & z & [= -> ->] & Hz). done.
Qed.

(** The prefix's slot is at the index, and the table is within its bound. *)
Lemma prefix_slot_spec c user fp e src now idx slots :
  entry_wf c user fp e → config_wf c → clock_ok now →
  prefix_slot c e src now = (idx, slots) →
  len slots ≤ Z.max (max_prefixes_per_key c) 1 ∧ NoDup (prefix <$> slots) ∧
  Forall (λ s, bucket_wf (bucket s) ∧ burst (bucket s) = knock_burst c) slots ∧
  ∃ slot, slots !! idx = Some slot ∧ prefix slot = source_prefix src.
Proof.
  intros [_ _ Hl Hnd Hf _ _ _ _] [] Hc. unfold clock_ok in Hc.
  unfold prefix_slot. destruct (position _ _) as [i|] eqn:Ep.
  { intros [= <- <-]. apply position_Some in Ep as (slot & Hs & Heq%bytes_eqb_true). eauto 10. }
  assert (Hnew : source_prefix src ∉ prefix <$> knock_buckets e).
  { intros (s & Heq & Hs)%list_elem_of_fmap. apply (position_None _ _ _ Ep) in Hs.
    by apply bytes_eqb_false in Hs. }
  set (lru := default O _). set (full := _ <=? _) in *.
  set (toks := if full then 2 else knock_burst c).
  set (old := if full then swap_remove lru (knock_buckets e) else knock_buckets e).
  assert (Hold : ∃ gone, gone ++ old ≡ₚ knock_buckets e ∧ (full = true → gone ≠ [])).
  { unfold old. destruct full eqn:Efull; [|by exists []]. apply Z.leb_le in Efull.
    destruct (evict_slot (knock_buckets e) (λ a b : nat * PrefixSlot,
                key_lt (good a.2, last_used a.2) (good b.2, last_used b.2))) as [y Hy].
    - intros Hn. rewrite Hn in Efull. rewrite (len_nil (A:=PrefixSlot)) in Efull. lia.
    - exists [y]. by split. }
  destruct Hold as (gone & Hperm & Hgone).
  match goal with |- (let '(_, _) := ?t in _) = _ → _ => assert (t = (toks, old)) as -> by (by destruct full) end.
  intros [= <- <-].
  assert (Hlen : len gone + len old = len (knock_buckets e)).
  { unfold len. rewrite <- Hperm, length_app. lia. }
  split_and!.
  - autorewrite with lens. destruct full eqn:Efull.
    + destruct gone; [by destruct Hgone|]. autorewrite with lens in *. pose proof (len_nonneg gone). lia.
    + apply Z.leb_gt in Efull. pose proof (len_nonneg gone). lia.
  - rewrite fmap_app. cbn. rewrite <- Hperm, fmap_app in Hnd, Hnew.
    apply list.NoDup_app in Hnd as (_ & _ & Hnd). apply list.NoDup_app. split_and!; [done| |apply NoDup_singleton].
    intros x Hx ->%list_elem_of_singleton. apply Hnew, elem_of_app. by right.
  - rewrite <- Hperm in Hf. apply Forall_app in Hf as [_ Hf]. apply Forall_app. split; [done|].
    constructor; [|constructor]. split; [|done].
    apply bucket_with_tokens_wf; [done|unfold toks; destruct full; width_lia|lia].
  - eexists. rewrite length_app. cbn [length]. replace (pred (length old + 1)) with (length old) by lia.
    by rewrite list_lookup_middle.
Qed.

Lemma take_knock_bucket_wf c user fp e src now ok idx e' :
  entry_wf c user fp e → config_wf c → clock_ok now →
  take_knock_bucket c e src now = ((ok, idx), e') →
  entry_wf c user fp e' ∧ same_replay e e' ∧ newprefix e' = newprefix e ∧ sig1_cache e' = sig1_cache e.
Proof.
  intros He Hcfg Hc. unfold take_knock_bucket.
  destruct (prefix_slot c e src now) as [i slots] eqn:Eslot.
  destruct (prefix_slot_spec _ _ _ _ _ _ _ _ He Hcfg Hc Eslot) as (Hl & Hnd & Hf & slot & Hi & Hp).
  rewrite Hi. destruct (bucket_take (bucket slot) now) as [ok' b] eqn:Eb. intros [= <- <- <-].
  destruct (proj1 (Forall_lookup _ _) Hf _ _ Hi) as [Hbw Hbb].
  apply bucket_take_spec in Eb as (Hb' & Hburst & _); [|done..].
  split; [|done]. apply entry_wf_slots; [done|by autorewrite with lens| |].
  - rewrite list_fmap_insert. proj_simpl. rewrite Hp.
    rewrite list_insert_id; [done|]. by rewrite list_lookup_fmap, Hi, <- Hp.
  - apply Forall_insert; [done|]. proj_simpl. split; [done|congruence].
Qed.

Lemma entry_wf_newsig1 c user fp e b :
  entry_wf c user fp e → bucket_wf b → entry_wf c user fp (e <| newsig1 := b |>).
Proof. intros [] ?. by split. Qed.

Lemma entry_wf_newprefix c user fp e b :
  entry_wf c user fp e → bucket_wf b → entry_wf c user fp (e <| newprefix := b |>).
Proof. intros [] ?. by split. Qed.

Lemma entry_wf_sig1 c user fp e l :
  entry_wf c user fp e → Forall (sig1_valid user fp) l → len l ≤ Z.max (sig1_cache_size c) 1 →
  entry_wf c user fp (e <| sig1_cache := l |>).
Proof. intros [] ? ?. by split. Qed.

Lemma delete_length_lookup {X} (l : list X) i x :
  l !! i = Some x → x :: delete i l ≡ₚ l.
Proof.
  intros Hi. rewrite <- (take_drop_middle l i x Hi) at 2. rewrite delete_take_drop. solve_Permutation.
Qed.

(** Step 4 leaves a valid entry; when it lets the KNOCK through, its sig1 is
    in the cache, hence was verified. *)
Lemma check_sig1_wf c blob k now e vb drop e' vb' :
  entry_wf c (k_user k) (k_key_fp k) e → bucket_wf vb → clock_ok now →
  key_fp blob = k_key_fp k → auth (k_user k) blob →
  check_sig1 c blob k now e vb = (drop, e', vb') →
  entry_wf c (k_user k) (k_key_fp k) e' ∧ bucket_wf vb' ∧ same_replay e e' ∧
  (drop = None → sig1_valid (k_user k) (k_key_fp k) (k_sig1 k)) ∧
  (∀ r, drop = Some r → r = RateLimited ∨ r = BadSig1).
Proof.
  intros He Hvb Hc Hfp Hauth. unfold check_sig1. destruct (position _ _) as [pos|] eqn:Ep.
  - intros [= <- <- <-]. apply position_Some in Ep as (x & Hx & Heq%bytes_eqb_true).
    rewrite Hx. cbn [default]. pose proof (delete_length_lookup _ _ _ Hx) as Hperm.
    pose proof (ew_sig1 _ _ _ _ He) as Hv. split_and!; try done.
    + apply entry_wf_sig1; [done|by rewrite Hperm|]. unfold len. rewrite Hperm. apply He.
    + intros _. rewrite <- Heq. by apply (proj1 (Forall_lookup _ _) Hv _ _ Hx).
  - destruct (bucket_take (newsig1 e) now) as [ok1 b1] eqn:E1.
    apply bucket_take_spec in E1 as (Hb1 & _); [|by apply He|done].
    pose proof (entry_wf_newsig1 _ _ _ _ _ He Hb1) as He1.
    destruct ok1; cbn [negb]; [|intros [= <- <- <-]; split_and!; try done; intros ? [= <-]; auto].
    destruct (bucket_take vb now) as [ok2 b2] eqn:E2.
    apply bucket_take_spec in E2 as (Hb2 & _); [|done..].
    destruct ok2; cbn [negb]; [|intros [= <- <- <-]; split_and!; try done; intros ? [= <-]; auto].
    destruct (verify _ _ _ _) as [[]|] eqn:Ev; cbn [is_ok negb]; [|intros [= <- <- <-]; split_and!; try done; intros ? [= <-]; auto].
    intros [= <- <- <-].
    assert (sig1_valid (k_user k) (k_key_fp k) (k_sig1 k)) as Hvalid by (by exists blob).
    split_and!; try done. apply entry_wf_sig1; [done| |].
    + apply Forall_take. constructor; [done|apply He].
    + unfold len. rewrite length_take. lia.
Qed.

Lemma take_rate_limits_wf c user fp e vb src now ok slot e' vb' :
  entry_wf c user fp e → bucket_wf vb → config_wf c → clock_ok now →
  take_rate_limits c e vb src now = ((ok, slot), e', vb') →
  entry_wf c user fp e' ∧ bucket_wf vb' ∧ same_replay e e'.
Proof.
  intros He Hvb Hcfg Hc. unfold take_rate_limits.
  destruct (take_knock_bucket c e src now) as [[ok1 i] e1] eqn:E1.
  destruct (take_knock_bucket_wf _ _ _ _ _ _ _ _ _ He Hcfg Hc E1) as (He1 & Hs1 & Hn1 & _).
  destruct ok1; cbn [negb]; [|by intros [= <- <- <- <-]].
  destruct (bucket_take (newprefix e1) now) as [ok2 b2] eqn:E2.
  apply bucket_take_spec in E2 as (Hb2 & _); [|by apply He1|done].
  pose proof (entry_wf_newprefix _ _ _ _ _ He1 Hb2) as He2.
  set (is_good := match _ with Some s => good s | None => false end).
  destruct (bucket_take vb now) as [ok3 b3] eqn:E3.
  apply bucket_take_spec in E3 as (Hb3 & _); [|done..].
  destruct is_good, ok2; cbn [negb]; intros [= <- <- <- <-]; done.
Qed.

Lemma mark_good_wf c user fp slot e :
  entry_wf c user fp e → entry_wf c user fp (mark_good slot e) ∧ same_replay e (mark_good slot e).
Proof.
  intros He. pose proof He as [_ _ Hl Hnd Hf _ _ _ _]. unfold mark_good.
  destruct (knock_buckets e !! slot) as [s|] eqn:Hs; [|done]. split; [|done].
  apply entry_wf_slots; [done|by autorewrite with lens| |].
  - rewrite list_fmap_insert. rewrite list_insert_id; [done|]. by rewrite list_lookup_fmap, Hs.
  - apply Forall_insert; [done|]. by apply (proj1 (Forall_lookup _ _) Hf _ _ Hs).
Qed.

(** The state an accepted KNOCK leaves its entry in. *)
Definition consumes (c : KnockServerConfig) (k : Knock) (d : bytes) (e e' : Entry) (p : Z) : Prop :=
  last_nonce e < k_nonce k ∧ last_nonce e' = k_nonce k ∧ last_knock_hash e' = knock_hash d ∧
  last_accept e' = None ∧ pending e' = pending e + p.

(** What steps 5 to 11 do for each verdict. *)
Definition entry_outcome (s : KnockState) (blob : bytes) (k : Knock) (d : bytes)
    (now : Z) (e e' : Entry) (v : Verdict) : Prop :=
  match v with
  | VAccept p =>
      consumes (cfg s) k d e e' 1 ∧ nonce_floor s ≤ k_nonce k ∧
      pending e < max_pending (cfg s) ∧
      verify blob NS_KNOCK (k_signed k) (k_sig2 k) = Ok tt ∧
      choose_host_key (host_keys s) k (pa_full_hostkey p) d = Some (pa_host_key p) ∧
      p = {| pa_user := k_user k; pa_key_fp := k_key_fp k; pa_knock_hash := knock_hash d;
             pa_host_key := pa_host_key p;
             pa_full_hostkey := negb (Z.land (k_flags k) FLAG_NEED_HOSTKEY =? 0);
             pa_eph_c := k_eph_c k; pa_knock_len := len d |}
  | VResend a =>
      same_replay e e' ∧ k_nonce k = last_nonce e ∧ knock_hash d = last_knock_hash e ∧
      ∃ expiry, last_accept e = Some (a, expiry) ∧ now < expiry
  | VDrop (TooManyPending | NoHostKey) =>
      consumes (cfg s) k d e e' 0 ∧ verify blob NS_KNOCK (k_signed k) (k_sig2 k) = Ok tt
  | VDrop _ => same_replay e e'
  end.

Lemma handle_entry_spec s blob k now src d e vb v e' vb' :
  entry_wf (cfg s) (k_user k) (k_key_fp k) e → bucket_wf vb → config_wf (cfg s) → clock_ok now →
  handle_entry s blob k now src d e vb = (v, e', vb') →
  entry_wf (cfg s) (k_user k) (k_key_fp k) e' ∧ bucket_wf vb' ∧ entry_outcome s blob k d now e e' v.
Proof.
  intros He Hvb Hcfg Hc. unfold handle_entry.
  destruct (_ && _) eqn:Esame.
  { zbool. unfold retransmit. destruct (last_accept e) as [[a x]|] eqn:Ea; [|by intros [= <- <- <-]].
    destruct (Z.ltb_spec now x); [|by intros [= <- <- <-]].
    destruct (take_knock_bucket _ e src now) as [[ok i] e1] eqn:E1.
    destruct (take_knock_bucket_wf _ _ _ _ _ _ _ _ _ He Hcfg Hc E1) as (He1 & Hs1 & _).
    destruct ok; cbn [negb]; intros [= <- <- <-]; split_and!; try done.
    cbn. split_and!; try done. by exists x. }
  destruct (_ || _) eqn:Eold; [by intros [= <- <- <-]|]. zbool.
  destruct (take_rate_limits _ _ _ _ _) as [[[ok slot] e1] vb1] eqn:E1.
  destruct (take_rate_limits_wf _ _ _ _ _ _ _ _ _ _ _ He Hvb Hcfg Hc E1) as (He1 & Hvb1 & Hs1).
  destruct ok; cbn [negb]; [|by intros [= <- <- <-]].
  destruct (verify _ _ _ _) as [[]|] eqn:Ev; cbn [is_ok negb]; [|by intros [= <- <- <-]].
  destruct (mark_good_wf _ _ _ slot _ He1) as [He2 Hs2].
  set (e2 := mark_good slot e1) in *.
  assert (Hsame : same_replay e e2) by (unfold same_replay in *; intuition congruence).
  clearbody e2. clear e1 E1 He1 Hs1 Hs2.
  set (e3 := e2 <| last_nonce := k_nonce k |> <| last_knock_hash := knock_hash d |> <| last_accept := None |>).
  assert (He3 : entry_wf (cfg s) (k_user k) (k_key_fp k) e3).
  { destruct He2, He. split; try done. unfold e3; proj_simpl. lia. }
  assert (Hcons : consumes (cfg s) k d e e3 0).
  { destruct Hsame as (?&?&?&?). unfold consumes, e3. proj_simpl. split_and!; [lia|done..|lia]. }
  assert (pending e3 = pending e) as Hpe by (destruct Hcons as (_&_&_&_&?); lia).
  destruct (Z.leb_spec (max_pending (cfg s)) (pending e3)); [by intros [= <- <- <-]|].
  destruct (choose_host_key _ _ _ _) as [i|] eqn:Ech; [|by intros [= <- <- <-]].
  intros [= <- <- <-]. split_and!; [|done|].
  - destruct He3. split; try done. proj_simpl. lia.
  - cbn. destruct Hcons as (?&?&?&?&?). split_and!; try done; [|lia..]. unfold consumes. proj_simpl.
    split_and!; [done..|lia].
Qed.

Lemma entry_outcome_pre s blob k d now e e0 e' v :
  same_replay e e0 → entry_outcome s blob k d now e0 e' v → entry_outcome s blob k d now e e' v.
Proof.
  intros (Hn & Hh & Ha & Hp). unfold entry_outcome, consumes, same_replay.
  rewrite Hn, Hh, Ha, Hp. done.
Qed.

(** The datagrams [handle] decides without touching a key's entry. *)
Definition early_drop (r : DropReason) : bool :=
  match r with Malformed | Clock | RateLimited | UnknownKey => true | _ => false end.

(** The case of [handle] that reaches an entry: the KNOCK parsed, is in time,
    and names a key the source lists. *)
Definition handled_entry (s s' : KnockState) (d : bytes) (now : Z) (v : Verdict)
    (k : Knock) (blob : bytes) (m : gmap (bytes * bytes) Entry) (e e' : Entry) : Prop :=
  knock_parse d = Ok k ∧ abs_diff (k_nonce k) now ≤ clock_skew_ms (cfg s) ∧
  key_fp blob = k_key_fp k ∧ auth (k_user k) blob ∧
  (key_cache s' !! k_user k ≫= (λ c, keys c !! k_key_fp k)) = Some blob ∧
  m ⊆ entries s ∧
  e = default (entry_new (cfg s) now) (m !! (k_user k, k_key_fp k)) ∧
  entries s' = <[(k_user k, k_key_fp k) := e']> m ∧
  entry_outcome s blob k d now e e' v ∧
  (∀ p, v = VAccept p → sig1_valid (k_user k) (k_key_fp k) (k_sig1 k)).

Lemma handle_spec `{HashOrder} source now src d s v s' :
  kstate_wf s → clock_ok now → source_ok source → handle source now src d s = (v, s') →
  kstate_wf s' ∧ cfg s' = cfg s ∧ host_keys s' = host_keys s ∧ nonce_floor s' = nonce_floor s ∧
  ∃ m, m ⊆ entries s ∧
    (∀ u fp, keeps_key source u fp → m !! (u, fp) = entries s !! (u, fp)) ∧
    ((∃ r, v = VDrop r ∧ early_drop r = true ∧ entries s' = m) ∨
     (∃ k blob e e', handled_entry s s' d now v k blob m e e')).
Proof.
  intros Hwf Hc Hsrc. unfold handle.
  destruct (knock_parse d) as [k|] eqn:Eparse; [|intros [= <- <-]; split_and!; try done; by eauto 10].
  destruct (Z.ltb_spec (clock_skew_ms (cfg s)) (abs_diff (k_nonce k) now)) as [|Hskew];
    [intros [= <- <-]; split_and!; try done; by eauto 10|].
  destruct (load_user_keys source (k_user k) src now s) as [loaded s1] eqn:Eload.
  destruct (load_user_keys_wf _ _ _ _ _ _ _ Hwf Hc Hsrc Eload) as (Hwf1 & Hcfg & Hhk & Hv & Hfl & Hsub & Hkeep).
  destruct loaded; cbn [negb];
    [|intros [= <- <-]; split_and!; try done; exists (entries s1); by eauto 10].
  destruct (key_cache s1 !! k_user k ≫= _) as [blob|] eqn:Eblob;
    [|intros [= <- <-]; split_and!; try done; exists (entries s1); by eauto 10].
  assert (key_fp blob = k_key_fp k ∧ auth (k_user k) blob) as [Hfp Hauth].
  { apply bind_Some in Eblob as (c & Hcache & Hk). by apply (kw_cache s1 Hwf1 _ _ Hcache _ _ Hk). }
  set (e := default (entry_new (cfg s1) now) (entries s1 !! (k_user k, k_key_fp k))).
  assert (He : entry_wf (cfg s1) (k_user k) (k_key_fp k) e).
  { unfold e. destruct (entries s1 !! _) as [e0|] eqn:Ee; cbn [default].
    - by apply (kw_entries s1 Hwf1 _ _ Ee).
    - apply entry_new_wf; [apply Hwf1|done]. }
  destruct (check_sig1 _ _ _ _ _ _) as [[drop e1] vb1] eqn:E1.
  apply check_sig1_wf in E1 as (He1 & Hvb1 & Hs1 & Hsig & Hdrop); [|done|by apply Hwf1|done..].
  assert (Hfin : ∀ v0 e2 vb2, entry_wf (cfg s1) (k_user k) (k_key_fp k) e2 → bucket_wf vb2 →
    entry_outcome s blob k d now e e2 v0 →
    (∀ p, v0 = VAccept p → sig1_valid (k_user k) (k_key_fp k) (k_sig1 k)) →
    (v0, s1 <| entries := <[(k_user k, k_key_fp k) := e2]> (entries s1) |> <| verify_bucket := vb2 |>)
      = (v, s') →
    kstate_wf s' ∧ cfg s' = cfg s ∧ host_keys s' = host_keys s ∧ nonce_floor s' = nonce_floor s ∧
    ∃ m, m ⊆ entries s ∧ (∀ u fp, keeps_key source u fp → m !! (u, fp) = entries s !! (u, fp)) ∧
    ((∃ r, v = VDrop r ∧ early_drop r = true ∧ entries s' = m) ∨
     (∃ k blob e e', handled_entry s s' d now v k blob m e e'))).
  { intros v0 e2 vb2 He2 Hvb2 Hout Hacc [= <- <-]. split_and!; try done.
    - pose proof Hwf1 as []. split; try done. by apply map_Forall_insert_2.
    - exists (entries s1). split_and!; try done. right. exists k, blob, e, e2.
      unfold handled_entry. split_and!; try done. unfold e. by rewrite Hcfg. }
  destruct drop as [r|].
  - apply Hfin; try done. by destruct (Hdrop r) as [-> | ->].
  - destruct (handle_entry _ _ _ _ _ _ _ _) as [[v0 e2] vb2] eqn:E2.
    apply handle_entry_spec in E2 as (He2 & Hvb2 & Hout); [|done..|apply Hwf1|done].
    apply Hfin; try done; [|by intros p _; apply Hsig].
    apply (entry_outcome_pre _ _ _ _ _ _ e1); [done|].
    revert Hout. unfold entry_outcome, consumes. by rewrite Hcfg, Hhk, Hfl.
Qed.
End invariant.
