(* ===== verification/KnockRun.v ===== *)
(** * The knock server over time

    A [World] is the server state with a log: the datagrams received, the
    knocks accepted (each with the datagram it came from), the datagrams sent
    (each with the KNOCK it answers).  [world_step] runs any method of the
    server; the source of keys, the clock, the peer address, the datagram and
    the order in which hash maps are iterated are free in every step. *)
From Stdlib Require Import Sorting.Sorted.
From S2P Require Import Prelude Wire Text Crypto KnockWire KnockState KnockFacts.

Record World := {
  w_state : KnockState;
  w_issued : list (PendingAccept * bytes);
  w_seen : list bytes;
  w_sent : list (bytes * bytes);
}.

Section run.
Context {C : PureCrypto} {V : HostKeyVerify} (auth : bytes → bytes → Prop).

Inductive world_step (Q : KnockKeySource → Prop) (w : World) : World → Prop :=
  | step_handle (ord : HashOrder) source now src d v s' :
      clock_ok now → source_ok auth source → Q source →
      handle source now src d (w_state w) = (v, s') →
      world_step Q w {| w_state := s';
        w_issued := match v with VAccept p => (p, d) :: w_issued w | _ => w_issued w end;
        w_seen := d :: w_seen w;
        w_sent := match v with VResend a => (a, d) :: w_sent w | _ => w_sent w end |}
  | step_complete p d port now eph call r s' :
      (p, d) ∈ w_issued w → complete p port now eph call (w_state w) = (r, s') →
      world_step Q w {| w_state := s'; w_issued := w_issued w; w_seen := w_seen w;
        w_sent := match r with Ok c => (datagram c, d) :: w_sent w | Err _ => w_sent w end |}
  | step_release user fp :
      world_step Q w {| w_state := release_pending user fp (w_state w);
        w_issued := w_issued w; w_seen := w_seen w; w_sent := w_sent w |}
  | step_invalidate user :
      world_step Q w {| w_state := invalidate_keys user (w_state w);
        w_issued := w_issued w; w_seen := w_seen w; w_sent := w_sent w |}
  | step_set_source :
      world_step Q w {| w_state := set_key_source (w_state w);
        w_issued := w_issued w; w_seen := w_seen w; w_sent := w_sent w |}.

Definition world_new (c : KnockServerConfig) (hks : list HostKey) (now : Z) : World :=
  {| w_state := knock_state_new c hks now; w_issued := []; w_seen := []; w_sent := [] |}.

Definition world_reachable (Q : KnockKeySource → Prop) c hks t0 (w : World) : Prop :=
  rtc (world_step Q) (world_new c hks t0) w.

(** ** What the other methods change *)

(** [s'] is [s] with, per entry, at most the pending count and the cached
    ACCEPT of its last knock changed. *)
Lemma release_pending_wf user fp s : kstate_wf auth s → kstate_wf auth (release_pending user fp s).
Proof.
  intros Hwf. unfold release_pending. destruct (entries s !! (user, fp)) as [e|] eqn:E; [|done].
  apply kstate_wf_entries; [done|]. apply map_Forall_insert_2; [|apply Hwf].
  destruct (kw_entries _ _ Hwf _ _ E). split; try done. proj_simpl. width_lia.
Qed.

Lemma release_pending_entries user fp s key e :
  entries (release_pending user fp s) !! key = Some e →
  ∃ e0, entries s !! key = Some e0 ∧ last_nonce e = last_nonce e0 ∧
    last_knock_hash e = last_knock_hash e0 ∧ last_accept e = last_accept e0.
Proof.
  unfold release_pending. destruct (entries s !! (user, fp)) as [e0|] eqn:E; [|eauto].
  proj_simpl. destruct (decide (key = (user, fp))) as [->|Hne].
  - rewrite lookup_insert_eq. intros [= <-]. exists e0. by split_and!.
  - rewrite lookup_insert_ne by done. eauto.
Qed.

Lemma release_pending_frame user fp s :
  let s' := release_pending user fp s in
  cfg s' = cfg s ∧ host_keys s' = host_keys s ∧ nonce_floor s' = nonce_floor s ∧
  dom (entries s') = dom (entries s).
Proof.
  unfold release_pending. destruct (entries s !! (user, fp)) as [e0|] eqn:E; [|done].
  split_and!; try done. proj_simpl. by apply dom_insert_lookup_L; eauto.
Qed.

Lemma kstate_wf_set_accept s key e a :
  kstate_wf auth s → entries s !! key = Some e →
  kstate_wf auth (s <| entries := <[key := e <| last_accept := a |>]> (entries s) |>).
Proof.
  intros Hwf He. apply kstate_wf_entries; [done|]. apply map_Forall_insert_2; [|apply Hwf].
  destruct (kw_entries _ _ Hwf _ _ He). by split.
Qed.

(** A completed ACCEPT is no longer than its KNOCK, and is cached only under
    the hash of that KNOCK. *)
Lemma complete_inner_spec p port now eph call s r s' :
  kstate_wf auth s → complete_inner p port now eph call s = (r, s') →
  kstate_wf auth s' ∧ cfg s' = cfg s ∧ host_keys s' = host_keys s ∧ nonce_floor s' = nonce_floor s ∧
  dom (entries s') = dom (entries s) ∧
  (∀ c, r = Ok c → len (datagram c) ≤ pa_knock_len p) ∧
  (∀ key e, entries s' !! key = Some e →
     ∃ e0, entries s !! key = Some e0 ∧ last_nonce e = last_nonce e0 ∧
       last_knock_hash e = last_knock_hash e0 ∧
       (last_accept e = last_accept e0 ∨
        last_knock_hash e = pa_knock_hash p ∧
        ∃ a x, last_accept e = Some (a, x) ∧ len a ≤ pa_knock_len p)).
Proof.
  intros Hwf. unfold complete_inner.
  assert (Hsame : ∀ key e, entries s !! key = Some e → ∃ e0, entries s !! key = Some e0 ∧
    last_nonce e = last_nonce e0 ∧ last_knock_hash e = last_knock_hash e0 ∧
       (last_accept e = last_accept e0 ∨
        last_knock_hash e = pa_knock_hash p ∧
        ∃ a x, last_accept e = Some (a, x) ∧ len a ≤ pa_knock_len p)) by eauto 10.
  destruct (host_keys s !! pa_host_key p) as [[[hk blob] ?]|]; [|by intros [= <- <-]].
  destruct (x25519_diffie_hellman eph _); [|by intros [= <- <-]].
  destruct (build_accept _ _ _ _ _ _ _) as [dg|]; [|by intros [= <- <-]].
  destruct (Z.ltb_spec (pa_knock_len p) (len dg)); [by intros [= <- <-]|].
  destruct (entries s !! (pa_user p, pa_key_fp p)) as [e|] eqn:Ee;
    [|intros [= <- <-]; split_and!; try done; by intros ? [= <-]].
  destruct (bytes_eqb _ _) eqn:Eh; [|intros [= <- <-]; split_and!; try done; by intros ? [= <-]].
  apply bytes_eqb_true in Eh. intros [= <- <-]. split_and!; try done.
  - by apply kstate_wf_set_accept.
  - proj_simpl. by apply dom_insert_lookup_L; eauto.
  - by intros ? [= <-].
  - intros key e'. proj_simpl. destruct (decide (key = (pa_user p, pa_key_fp p))) as [->|Hne].
    + rewrite lookup_insert_eq. intros [= <-]. exists e. split_and!; try done. right. eauto.
    + rewrite lookup_insert_ne by done. apply Hsame.
Qed.

Lemma complete_spec p port now eph call s r s' :
  kstate_wf auth s → complete p port now eph call s = (r, s') →
  kstate_wf auth s' ∧ cfg s' = cfg s ∧ host_keys s' = host_keys s ∧ nonce_floor s' = nonce_floor s ∧
  dom (entries s') = dom (entries s) ∧
  (∀ c, r = Ok c → len (datagram c) ≤ pa_knock_len p) ∧
  (∀ key e, entries s' !! key = Some e →
     ∃ e0, entries s !! key = Some e0 ∧ last_nonce e = last_nonce e0 ∧
       last_knock_hash e = last_knock_hash e0 ∧
       (last_accept e = last_accept e0 ∨
        last_knock_hash e = pa_knock_hash p ∧
        ∃ a x, last_accept e = Some (a, x) ∧ len a ≤ pa_knock_len p)).
Proof.
  intros Hwf. unfold complete. destruct (complete_inner _ _ _ _ _ _) as [r1 s1] eqn:E.
  destruct (complete_inner_spec _ _ _ _ _ _ _ _ Hwf E) as (Hwf1 & Hc & Hh & Hf & Hd & Hlen & Hent).
  destruct (is_ok r1) eqn:Eok; cbn [negb]; intros [= <- <-]; [done|].
  pose proof (release_pending_frame (pa_user p) (pa_key_fp p) s1) as (Hc2 & Hh2 & Hf2 & Hd2).
  split_and!; [by apply release_pending_wf|congruence..|done|].
  intros key e (e1 & He1 & Hn & Hk & Ha)%release_pending_entries.
  destruct (Hent _ _ He1) as (e0 & ? & ? & ? & ?). exists e0. rewrite Hn, Hk, Ha. by split_and!.
Qed.

(** ** The invariant of a run *)

(** What is known of a knock accepted from datagram [d]. *)
Definition authentic (c : KnockServerConfig) (hks : list (HostKey * bytes * bytes)) (floor : Z)
    (p : PendingAccept) (d : bytes) : Prop :=
  ∃ k blob now, knock_parse d = Ok k ∧
    pa_user p = k_user k ∧ pa_key_fp p = k_key_fp k ∧ pa_eph_c p = k_eph_c k ∧
    auth (k_user k) blob ∧ key_fp blob = k_key_fp k ∧
    verify blob NS_KNOCK (k_signed k) (k_sig2 k) = Ok tt ∧
    sig1_valid auth (k_user k) (k_key_fp k) (k_sig1 k) ∧
    abs_diff (k_nonce k) now ≤ clock_skew_ms c ∧ floor ≤ k_nonce k ∧
    pa_full_hostkey p = negb (Z.land (k_flags k) FLAG_NEED_HOSTKEY =? 0) ∧
    choose_host_key hks k (pa_full_hostkey p) d = Some (pa_host_key p).

(** [a], sent or to be sent in answer to a KNOCK with hash [h], is no longer
    than a KNOCK with that hash that was received. *)
Definition paid_for (seen : list bytes) (a h : bytes) : Prop :=
  ∃ d0, d0 ∈ seen ∧ knock_hash d0 = h ∧ len a ≤ len d0.

Record world_inv (c : KnockServerConfig) hks t0 (w : World) : Prop := {
  wi_wf : kstate_wf auth (w_state w);
  wi_cfg : cfg (w_state w) = c;
  wi_hks : host_keys (w_state w) = host_keys (knock_state_new c hks t0);
  wi_floor : nonce_floor (w_state w) = t0;
  wi_issued : Forall (λ pd, pa_knock_hash pd.1 = knock_hash pd.2 ∧ pa_knock_len pd.1 = len pd.2 ∧
    pd.2 ∈ w_seen w ∧ authentic c (host_keys (knock_state_new c hks t0)) t0 pd.1 pd.2) (w_issued w);
  wi_accept : ∀ key e a x, entries (w_state w) !! key = Some e → last_accept e = Some (a, x) →
    paid_for (w_seen w) a (last_knock_hash e);
  wi_sent : Forall (λ ad, ad.2 ∈ w_seen w ∧ paid_for (w_seen w) ad.1 (knock_hash ad.2)) (w_sent w);
}.

Lemma paid_for_seen d seen a h : paid_for seen a h → paid_for (d :: seen) a h.
Proof. intros (d0 & Hd & ?). exists d0. split; [|done]. apply elem_of_cons. by right. Qed.

Lemma world_inv_new c hks t0 :
  config_wf c → clock_ok t0 → world_inv c hks t0 (world_new c hks t0).
Proof.
  intros Hc Ht. split; cbn; try done. by apply knock_state_new_wf.
Qed.

(** A change of the state that keeps, per entry, the last knock and a paid
    ACCEPT keeps the invariant. *)
Lemma world_inv_state c hks t0 w s' sent :
  world_inv c hks t0 w → kstate_wf auth s' → cfg s' = cfg (w_state w) →
  host_keys s' = host_keys (w_state w) → nonce_floor s' = nonce_floor (w_state w) →
  (∀ key e a x, entries s' !! key = Some e → last_accept e = Some (a, x) →
    paid_for (w_seen w) a (last_knock_hash e)) →
  Forall (λ ad, ad.2 ∈ w_seen w ∧ paid_for (w_seen w) ad.1 (knock_hash ad.2)) sent →
  world_inv c hks t0 {| w_state := s'; w_issued := w_issued w; w_seen := w_seen w; w_sent := sent |}.
Proof. intros [] ? ? ? ? ? ?. split; cbn [w_state w_issued w_seen w_sent]; first [assumption|congruence]. Qed.

Lemma entry_outcome_paid s blob k d now e e' v seen a x :
  entry_outcome s blob k d now e e' v → last_accept e' = Some (a, x) →
  (∀ a x, last_accept e = Some (a, x) → paid_for seen a (last_knock_hash e)) →
  paid_for seen a (last_knock_hash e').
Proof.
  unfold entry_outcome, consumes, same_replay. intros Hout Ha Hpaid.
  destruct v as [[]| |]; destruct_and?; try congruence;
    match goal with H : last_knock_hash e' = last_knock_hash e |- _ => rewrite H end;
    apply (Hpaid a x); congruence.
Qed.

Lemma issued_seen c hks t0 d seen issued :
  Forall (λ pd : PendingAccept * bytes,
    pa_knock_hash pd.1 = knock_hash pd.2 ∧ pa_knock_len pd.1 = len pd.2 ∧
    pd.2 ∈ seen ∧ authentic c hks t0 pd.1 pd.2) issued →
  Forall (λ pd, pa_knock_hash pd.1 = knock_hash pd.2 ∧ pa_knock_len pd.1 = len pd.2 ∧
    pd.2 ∈ d :: seen ∧ authentic c hks t0 pd.1 pd.2) issued.
Proof.
  apply Forall_impl. intros [p d'] (?&?&?&?). split_and!; try done. apply elem_of_cons. by right.
Qed.

Lemma world_step_handle c hks t0 w (ord : HashOrder) source now src d v s' :
  world_inv c hks t0 w → clock_ok now → source_ok auth source →
  handle source now src d (w_state w) = (v, s') →
  world_inv c hks t0 {| w_state := s';
        w_issued := match v with VAccept p => (p, d) :: w_issued w | _ => w_issued w end;
        w_seen := d :: w_seen w;
        w_sent := match v with VResend a => (a, d) :: w_sent w | _ => w_sent w end |}.
Proof.
  intros [Hwf Hcfg Hhk Hfl Hiss Hacc Hsent] Hc Hsrc E.
  destruct (handle_spec auth _ _ _ _ _ _ _ Hwf Hc Hsrc E) as (Hwf' & Hcfg' & Hhk' & Hfl' & m & Hm & _ & Hcase).
  assert (Hm' : ∀ key e a x, m !! key = Some e → last_accept e = Some (a, x) →
    paid_for (d :: w_seen w) a (last_knock_hash e)).
  { intros key e a x He Ha. apply paid_for_seen, (Hacc key e a x); [|done].
    by apply (lookup_weaken m). }
  assert (Hsent' : Forall (λ ad, ad.2 ∈ d :: w_seen w ∧
    paid_for (d :: w_seen w) ad.1 (knock_hash ad.2)) (w_sent w)).
  { eapply Forall_impl; [|exact Hsent]. intros [a d'] [Hd' Hp]. split; [apply elem_of_cons; by right|].
    by apply paid_for_seen. }
  destruct Hcase as [(r & -> & _ & Hent)|(k & blob & e & e' & Hh)].
  { split; cbn [w_state w_issued w_seen w_sent]; try congruence; [by apply issued_seen|by rewrite Hent]. }
  destruct Hh as (Hp & Hskew & Hfp & Hauth & Hcache & _ & He & Hent & Hout & Hsig).
  assert (Hpe : ∀ a x, last_accept e = Some (a, x) → paid_for (d :: w_seen w) a (last_knock_hash e)).
  { intros a x Ha. rewrite He in Ha |- *. destruct (m !! _) as [e0|] eqn:Em; [|done]. by apply (Hm' _ _ a x Em). }
  split; cbn [w_state w_issued w_seen w_sent]; try congruence.
  - destruct v as [| |p]; [by apply issued_seen..|]. constructor; [|by apply issued_seen].
    destruct Hout as (_ & Hfloor & _ & Hv & Hch & Hpeq). specialize (Hsig p eq_refl).
    rewrite Hpeq. cbn. split_and!; [done..|apply elem_of_cons; by left|].
    exists k, blob, now. cbn. rewrite Hpeq in Hch. cbn in Hch. rewrite Hcfg, Hhk, Hfl in *. split_and!; done.
  - intros key e1 a x. rewrite Hent. destruct (decide (key = (k_user k, k_key_fp k))) as [->|Hne].
    + rewrite lookup_insert_eq. intros [= <-] Ha. by apply (entry_outcome_paid _ _ _ _ _ _ _ _ _ _ _ Hout Ha).
    + rewrite lookup_insert_ne by done. apply Hm'.
  - destruct v as [|a|]; [done| |done]. constructor; [|done]. cbn. split; [apply elem_of_cons; by left|].
    destruct Hout as (_ & _ & -> & x & Ha & _). by apply (Hpe a x).
Qed.

Lemma world_step_inv Q c hks t0 w w' :
  world_inv c hks t0 w → world_step Q w w' → world_inv c hks t0 w'.
Proof.
  intros Hinv Hstep. pose proof Hinv as [Hwf Hcfg Hhk Hfl Hiss Hacc Hsent].
  destruct Hstep as [ord source now src d v s' Hc Hsrc HQ E|p d port now eph call r s' Hpd E|u fp|u|].
  - by apply (world_step_handle _ _ _ _ ord source now src).
  - destruct (complete_spec _ _ _ _ _ _ _ _ Hwf E) as (Hwf' & Hc & Hh & Hf & _ & Hlen & Hent).
    destruct (proj1 (list.Forall_forall _ _) Hiss _ Hpd) as (Hhash & Hkl & Hseen & _); cbn in *.
    assert (Hpay : ∀ a, len a ≤ pa_knock_len p → paid_for (w_seen w) a (knock_hash d)).
    { intros a Ha. exists d. split_and!; [done..|lia]. }
    apply world_inv_state; try done.
    + intros key e a x He Ha. destruct (Hent _ _ He) as (e0 & He0 & _ & Hk & [Hsame|(Hk' & a' & x' & Ha' & Hl)]).
      * rewrite Hk. apply (Hacc key e0 a x); congruence.
      * simplify_eq. rewrite Hk', Hhash. by apply Hpay.
    + destruct r as [cm|]; [|done]. constructor; [|done]. split; [done|]. by apply Hpay, Hlen.
  - pose proof (release_pending_frame u fp (w_state w)) as (? & ? & ? & _).
    apply world_inv_state; try done; [by apply release_pending_wf|].
    intros key e a x (e0 & He0 & _ & Hk & Ha)%release_pending_entries Ha'.
    rewrite Hk. apply (Hacc key e0 a x); congruence.
  - apply world_inv_state; try done; [|by destruct u..].
    destruct u; [by apply kstate_wf_uncache|]. apply kstate_wf_cache; [done|rewrite map_size_empty; lia|].
    apply map_Forall_empty.
  - apply world_inv_state; try done. apply kstate_wf_cache; [done|rewrite map_size_empty; lia|].
    apply map_Forall_empty.
Qed.

Lemma world_reachable_inv Q c hks t0 w :
  config_wf c → clock_ok t0 → world_reachable Q c hks t0 w → world_inv c hks t0 w.
Proof.
  intros Hc Ht Hr. pose proof (world_inv_new c hks t0 Hc Ht) as Hi. revert Hi.
  unfold world_reachable in Hr. induction Hr as [|w1 w2 w3 Hs _ IH]; [done|].
  intros Hi. apply IH. by apply (world_step_inv Q _ _ _ w1).
Qed.

(** ** Replay protection *)

(** The nonces of the knocks accepted for a key, the latest first. *)
Definition accepted_nonces (user fp : bytes) (issued : list (PendingAccept * bytes)) : list Z :=
  omap (λ pd, if bytes_eqb (pa_user pd.1) user && bytes_eqb (pa_key_fp pd.1) fp
              then k_nonce <$> ok (knock_parse pd.2) else None) issued.

Definition replay_inv (user fp : bytes) (w : World) : Prop :=
  StronglySorted Z.gt (accepted_nonces user fp (w_issued w)) ∧
  ∀ n, n ∈ accepted_nonces user fp (w_issued w) →
    ∃ e, entries (w_state w) !! (user, fp) = Some e ∧ n ≤ last_nonce e.

Lemma entry_outcome_nonce s blob k d now e e' v :
  entry_outcome s blob k d now e e' v → last_nonce e ≤ last_nonce e'.
Proof.
  unfold entry_outcome, consumes, same_replay. destruct v as [[]| |]; intros; destruct_and?; lia.
Qed.

Lemma replay_inv_handle c hks t0 user fp w (ord : HashOrder) source now src d v s' :
  world_inv c hks t0 w → replay_inv user fp w → clock_ok now → source_ok auth source →
  keeps_key source user fp → handle source now src d (w_state w) = (v, s') →
  replay_inv user fp {| w_state := s';
        w_issued := match v with VAccept p => (p, d) :: w_issued w | _ => w_issued w end;
        w_seen := d :: w_seen w;
        w_sent := match v with VResend a => (a, d) :: w_sent w | _ => w_sent w end |}.
Proof.
  intros Hinv [Hsort Hle] Hc Hsrc Hkeep E.
  destruct (handle_spec auth _ _ _ _ _ _ _ (wi_wf _ _ _ _ Hinv) Hc Hsrc E)
    as (_ & _ & _ & _ & m & _ & Hm & Hcase).
  specialize (Hm _ _ Hkeep). unfold replay_inv; cbn [w_state w_issued].
  destruct Hcase as [(r & -> & _ & ->)|(k & blob & e & e' & Hh)]; [by rewrite Hm|].
  destruct Hh as (Hp & _ & _ & _ & _ & _ & He & -> & Hout & _).
  pose proof (entry_outcome_nonce _ _ _ _ _ _ _ _ Hout) as Hmono.
  destruct (decide ((k_user k, k_key_fp k) = (user, fp))) as [[= <- <-]|Hne].
  - rewrite lookup_insert_eq. rewrite Hm in He.
    assert (Hold : ∀ n, n ∈ accepted_nonces (k_user k) (k_key_fp k) (w_issued w) → n ≤ last_nonce e).
    { intros n Hn. destruct (Hle n Hn) as (e0 & He0 & Hn0). rewrite He0 in He. cbn in He. by subst. }
    destruct v as [| |p];
      [split; [done|]; intros n Hn; exists e'; split; [done|]; specialize (Hold n Hn); lia..|].
    destruct Hout as ((Hlt & Hnew & _) & _ & _ & _ & _ & Hpeq).
    assert (accepted_nonces (k_user k) (k_key_fp k) ((p, d) :: w_issued w) =
      k_nonce k :: accepted_nonces (k_user k) (k_key_fp k) (w_issued w)) as ->.
    { unfold accepted_nonces. cbn [omap list_omap fst snd]. rewrite Hpeq. cbn [pa_user pa_key_fp].
      rewrite !bytes_eqb_refl, Hp. done. }
    split.
    + constructor; [done|]. apply list.Forall_forall. intros n Hn. specialize (Hold n Hn). lia.
    + intros n [->|Hn]%elem_of_cons; exists e'; (split; [done|]); [lia|]. specialize (Hold n Hn). lia.
  - rewrite lookup_insert_ne, Hm by done.
    assert (accepted_nonces user fp (match v with VAccept p => (p, d) :: w_issued w | _ => w_issued w end) =
      accepted_nonces user fp (w_issued w)) as ->; [|done].
    destruct v as [| |p]; [done..|]. destruct Hout as (_ & _ & _ & _ & _ & Hpeq).
    unfold accepted_nonces. cbn [omap list_omap fst snd]. rewrite Hpeq. cbn [pa_user pa_key_fp].
    destruct (bytes_eqb (k_user k) user) eqn:E1, (bytes_eqb (k_key_fp k) fp) eqn:E2; cbn [andb]; try done.
    zbool. congruence.
Qed.

Lemma replay_inv_state user fp w s' sent :
  replay_inv user fp w →
  (∀ e, entries (w_state w) !! (user, fp) = Some e →
     ∃ e', entries s' !! (user, fp) = Some e' ∧ last_nonce e' = last_nonce e) →
  replay_inv user fp {| w_state := s'; w_issued := w_issued w; w_seen := w_seen w; w_sent := sent |}.
Proof.
  intros [Hsort Hle] Hs. split; [done|]. intros n Hn. destruct (Hle n Hn) as (e & He & Hne).
  destruct (Hs _ He) as (e' & He' & Heq). exists e'. split; [done|lia].
Qed.

(** An entry survives an operation that keeps the domain. *)
Lemma entry_kept (m m' : gmap (bytes * bytes) Entry) key e :
  dom m' = dom m → m !! key = Some e →
  (∀ e', m' !! key = Some e' → ∃ e0, m !! key = Some e0 ∧ last_nonce e' = last_nonce e0) →
  ∃ e', m' !! key = Some e' ∧ last_nonce e' = last_nonce e.
Proof.
  intros Hd He Hpre. assert (is_Some (m' !! key)) as [e' He'].
  { apply elem_of_dom. rewrite Hd. by apply elem_of_dom_2 in He. }
  destruct (Hpre _ He') as (e0 & He0 & Hn). exists e'. split; [done|]. congruence.
Qed.

Lemma replay_inv_step c hks t0 user fp w w' :
  world_inv c hks t0 w → replay_inv user fp w →
  world_step (λ source, keeps_key source user fp) w w' → replay_inv user fp w'.
Proof.
  intros Hinv Hrep Hstep. pose proof (wi_wf _ _ _ _ Hinv) as Hwf.
  destruct Hstep as [ord source now src d v s' Hc Hsrc HQ E|p d port now eph call r s' Hpd E|u f|u|].
  - by apply (replay_inv_handle c hks t0 _ _ _ ord source now src).
  - destruct (complete_spec _ _ _ _ _ _ _ _ Hwf E) as (_ & _ & _ & _ & Hd & _ & Hent).
    apply replay_inv_state; [done|]. intros e He. apply (entry_kept (entries (w_state w))); [done..|].
    intros e' (e0 & ? & ? & _)%Hent. eauto.
  - apply replay_inv_state; [done|]. intros e He. apply (entry_kept (entries (w_state w))); [|done|].
    + by pose proof (release_pending_frame u f (w_state w)) as (_ & _ & _ & ?).
    + intros e' (e0 & ? & ? & _)%release_pending_entries. eauto.
  - apply replay_inv_state; [done|]. destruct u; eauto.
  - apply replay_inv_state; [done|]. eauto.
Qed.

Lemma replay_reachable c hks t0 user fp w :
  config_wf c → clock_ok t0 → world_reachable (λ source, keeps_key source user fp) c hks t0 w →
  replay_inv user fp w.
Proof.
  intros Hc Ht Hr. pose proof (world_inv_new c hks t0 Hc Ht) as Hi.
  assert (replay_inv user fp (world_new c hks t0)) as Hp.
  { split; [constructor|]. intros n Hn. by apply elem_of_nil in Hn. }
  revert Hi Hp. unfold world_reachable in Hr. induction Hr as [|w1 w2 w3 Hs _ IH]; [done|].
  intros Hi Hp. apply IH; [by apply (world_step_inv _ _ _ _ w1 _ Hi Hs)|].
  by apply (replay_inv_step c hks t0 _ _ w1).
Qed.

(** The datagrams accepted for a key, the latest first. *)
Definition accepted_datagrams (user fp : bytes) (issued : list (PendingAccept * bytes)) : list bytes :=
  omap (λ pd, if bytes_eqb (pa_user pd.1) user && bytes_eqb (pa_key_fp pd.1) fp
              then Some pd.2 else None) issued.

Lemma accepted_nonces_datagrams user fp issued :
  accepted_nonces user fp issued =
  omap (λ d, k_nonce <$> ok (knock_parse d)) (accepted_datagrams user fp issued).
Proof.
  unfold accepted_nonces, accepted_datagrams.
  induction issued as [|[p d] l IH]; cbn; [done|].
  destruct (_ && _); cbn; [|done]. destruct (knock_parse d); cbn; [|done]. by f_equal.
Qed.

Lemma sorted_nonces_NoDup (l : list bytes) :
  Forall (λ d, is_ok (knock_parse d) = true) l →
  StronglySorted Z.gt (omap (λ d, k_nonce <$> ok (knock_parse d)) l) → NoDup l.
Proof.
  induction l as [|d l IH]; intros Hok Hs; [constructor|].
  apply Forall_cons_1 in Hok as [Hd Hok]. destruct (knock_parse d) as [k|] eqn:Ek; [|done].
  assert (∀ d', d' = d → k_nonce <$> ok (knock_parse d') = Some (k_nonce k)) as Hk by (by intros ? ->; rewrite Ek).
  cbn in Hs. rewrite Ek in Hs. cbn in Hs. apply StronglySorted_inv in Hs as [Hs Hall].
  constructor; [|by apply IH]. intros Hin. rewrite list.Forall_forall in Hall.
  specialize (Hall (k_nonce k)). apply (Z.lt_irrefl (k_nonce k)), Z.gt_lt, Hall.
  apply list_elem_of_omap. exists d. split; [done|by apply Hk].
Qed.

Lemma accepted_datagrams_parse c hks t0 user fp w :
  world_inv c hks t0 w →
  Forall (λ d, is_ok (knock_parse d) = true) (accepted_datagrams user fp (w_issued w)).
Proof.
  intros Hi. apply list.Forall_forall. intros d ([p d'] & Hin & Heq)%list_elem_of_omap.
  destruct (_ && _); cbn in Heq; simplify_eq.
  pose proof (wi_issued _ _ _ _ Hi) as Hiss. rewrite list.Forall_forall in Hiss.
  destruct (Hiss _ Hin) as (_ & _ & _ & k & ? & ? & Hk & _). cbn in Hk. by rewrite Hk.
Qed.

(** C12: replay protection.  As long as the key source keeps listing a key,
    the nonces of the knocks accepted for it strictly increase over any run,
    so no datagram is accepted twice, whatever else the server is asked to do
    in between. *)
Theorem no_replay c hks t0 user fp w :
  config_wf c → clock_ok t0 →
  world_reachable (λ source, keeps_key source user fp) c hks t0 w →
  StronglySorted Z.gt (accepted_nonces user fp (w_issued w)) ∧
  NoDup (accepted_datagrams user fp (w_issued w)).
Proof.
  intros Hc Ht Hr. destruct (replay_reachable _ _ _ _ _ _ Hc Ht Hr) as [Hs _].
  split; [done|]. apply sorted_nonces_NoDup; [|by rewrite <- accepted_nonces_datagrams].
  apply (accepted_datagrams_parse c hks t0). by apply (world_reachable_inv _ _ _ _ _ Hc Ht Hr).
Qed.

(** No amplification.  Whatever is received, every datagram the server
    sends is at most as long as the KNOCK it answers (given that no two of
    the datagrams received collide under SHA-256, which retransmissions are
    recognised by). *)
Theorem no_amplification Q c hks t0 w :
  config_wf c → clock_ok t0 → world_reachable Q c hks t0 w →
  (∀ d d', d ∈ w_seen w → d' ∈ w_seen w → knock_hash d = knock_hash d' → d = d') →
  Forall (λ ad, len ad.1 ≤ len ad.2) (w_sent w).
Proof.
  intros Hc Ht Hr Hcoll. pose proof (wi_sent _ _ _ _ (world_reachable_inv _ _ _ _ _ Hc Ht Hr)) as Hs.
  apply list.Forall_forall. intros [a d] Hin. rewrite list.Forall_forall in Hs.
  destruct (Hs _ Hin) as [Hd (d0 & Hd0 & Hh & Hl)]. cbn in *. by rewrite <- (Hcoll d0 d).
Qed.


(** Bounded state.  In every reachable state the key cache, the lookup
    table and, for every key, the source-prefix slots (at most one per
    prefix), the sig1 cache and the number of pending listeners are within
    the configured limits. *)
Theorem knock_state_bounded Q c hks t0 w :
  config_wf c → clock_ok t0 → world_reachable Q c hks t0 w →
  let s := w_state w in
  Z.of_nat (size (key_cache s)) ≤ Z.max (key_cache_users c) 1 ∧
  Z.of_nat (size (prefix_lookups s)) ≤ Z.max (key_lookup_prefixes c) 1 ∧
  map_Forall (λ _ e, len (knock_buckets e) ≤ Z.max (max_prefixes_per_key c) 1 ∧
    NoDup (prefix <$> knock_buckets e) ∧ len (sig1_cache e) ≤ Z.max (sig1_cache_size c) 1 ∧
    0 ≤ pending e ≤ max_pending c) (entries s).
Proof.
  intros Hc Ht Hr. destruct (world_reachable_inv _ _ _ _ _ Hc Ht Hr) as [Hwf <- _ _ _ _ _].
  destruct Hwf as [_ ? _ Hent _ _ ? _]. split_and!; [done..|].
  intros key e He. by destruct (Hent key e He).
Qed.
End run.
