(* ===== verification/KnockClient.v ===== *)
(** * Client half of the knock protocol (src/knock/client.rs)

    The part of [knock] before the socket loop (one KNOCK per distinct
    identity) and [check_accept], which decides whether a datagram received
    answers one of them.  The retransmission loop and the TCP connects are
    I/O and are not modelled. *)
From S2P Require Import Prelude Wire Text Crypto KnockWire KnockState KnockFacts KnockRun.

Record KnockIdentity := { signer : HostKey; id_sig1 : option bytes }.

#[export] Instance KnockIdentity_eta : Etable KnockIdentity := fun i =>
  {| signer := signer i; id_sig1 := id_sig1 i |}.

Record KnockRequest := {
  rq_user : bytes;
  identities : list KnockIdentity;
  known_host_keys : list bytes;
}.

Record Sent := { s_datagram : bytes; s_hash : bytes; s_eph : bytes; s_identity : nat }.

(** [expires] is the receipt time plus [ka_window] seconds. *)
Record KnockAccepted := {
  ka_target : IpAddr * Z;
  ka_host_key_blob : bytes;
  ka_host_key_known : bool;
  ka_identity : nat;
  ka_window : Z;
  ka_token : bytes;
}.

Section client.
Context {C : PureCrypto} {V : HostKeyVerify}.

(** The host key the client asks for: the preferred one on file. *)
Definition expected_host_key (known : list bytes) : option bytes :=
  head (sort_by_key host_key_rank
    (List.filter (λ b, match max_sig_blob_len b with Some _ => true | None => false end) known)).

(** [host_fp] and [min_len] of the KNOCKs. *)
Definition knock_params (expected : option bytes) : option bytes * Z :=
  match expected with
  | Some blob => (Some (key_fp blob), default 0 (accept_len_bound blob false))
  | None => (None, MAX_DATAGRAM)
  end.

(** The loop over the identities, from number [i]; [ephs i] is the ephemeral
    key drawn for identity [i].  The second component is the identities with
    the sig1 values filled in. *)
Fixpoint prepare (user : bytes) (nonce : Z) (host_fp : option bytes) (min_len : Z)
    (ephs : nat → bytes) (i : nat) (ids : list KnockIdentity) (seen_fps : list bytes) :
    result (list Sent) * list KnockIdentity :=
  match ids with
  | [] => (Ok [], [])
  | id :: ids' =>
      let next seen := prepare user nonce host_fp min_len ephs (S i) ids' seen in
      let skip id seen := let '(r, out) := next seen in (r, id :: out) in
      let blob := public_blob (signer id) in
      match max_sig_blob_len blob with
      | None => skip id seen_fps
      | Some _ =>
          let fp := key_fp blob in
          if existsb (bytes_eqb fp) seen_fps then skip id seen_fps else
          let seen := seen_fps ++ [fp] in
          let sig1 := match id_sig1 id with
                      | Some s => Ok s
                      | None => sign (signer id) 0 NS_KNOCK_ID (knock_id_message user fp)
                      end in
          match sig1 with
          | Err e => (Err e, id :: ids')
          | Ok sig1 =>
              let id := id <| id_sig1 := Some sig1 |> in
              let eph := ephs i in
              let fields := {| kf_user := user; kf_key_fp := fp; kf_sig1 := sig1; kf_nonce := nonce;
                               kf_eph_c := x25519_public_key eph; kf_host_fp := host_fp |} in
              match knock_build fields (signer id) min_len with
              | Err (Unsupported _) => skip id seen
              | Err e => (Err e, id :: ids')
              | Ok d =>
                  let '(r, out) := next seen in
                  (match r with
                   | Ok sents => Ok ({| s_datagram := d; s_hash := knock_hash d; s_eph := eph;
                                        s_identity := i |} :: sents)
                   | Err e => Err e
                   end, id :: out)
              end
          end
      end
  end.

Definition prepare_knocks (nonce : Z) (ephs : nat → bytes) (req : KnockRequest) :
    result (list Sent) * KnockRequest :=
  let '(host_fp, min_len) := knock_params (expected_host_key (known_host_keys req)) in
  let '(r, ids) := prepare (rq_user req) nonce host_fp min_len ephs 0 (identities req) [] in
  (r, {| rq_user := rq_user req; identities := ids; known_host_keys := known_host_keys req |}).

Definition check_accept (dg : bytes) (sent : list Sent) (expected : option bytes) (ip : IpAddr) :
    option KnockAccepted :=
  a ← ok (accept_parse dg);
  s ← List.find (λ s, bytes_eqb (s_hash s) (a_knock_hash a)) sent;
  '(blob, known) ←
    match expected, a_hostkey a with
    | Some exp, None => Some (exp, true)
    | Some exp, Some full => if bytes_eqb full exp then Some (exp, true) else None
    | None, Some full => Some (full, false)
    | None, None => None
    end;
  _ ← ok (verify blob NS_ACCEPT (a_signed a) (a_sig_host a));
  shared ← x25519_diffie_hellman (s_eph s) (a_eph_s a);
  let token := open_token shared (a_knock_hash a) (a_eph_s a) (a_port a) in
  Some {| ka_target := (ip, a_port a); ka_host_key_blob := blob; ka_host_key_known := known;
          ka_identity := s_identity s; ka_window := a_window a; ka_token := token |}.

End client.

(** ** The handshake *)

Section client_facts.
Context {C : PureCrypto} {V : HostKeyVerify} {L : PureCryptoLaws C}.

(** What the client keeps for each KNOCK it sends. *)
Lemma prepare_spec user nonce host_fp min_len ephs i ids seen sents out st :
  prepare user nonce host_fp min_len ephs i ids seen = (Ok sents, out) → st ∈ sents →
  s_hash st = knock_hash (s_datagram st) ∧
  ∃ f sk, kf_user f = user ∧ kf_nonce f = nonce ∧ kf_host_fp f = host_fp ∧
    kf_eph_c f = x25519_public_key (s_eph st) ∧ kf_key_fp f = key_fp (public_blob sk) ∧
    knock_build f sk min_len = Ok (s_datagram st).
Proof.
  revert i seen sents out. induction ids as [|id ids IH]; intros i seen sents out; cbn [prepare].
  { intros [= <- <-] Hst. by apply elem_of_nil in Hst. }
  assert (Hskip : ∀ id0 sn, (let '(r, out) := prepare user nonce host_fp min_len ephs (S i) ids sn in
    (r, id0 :: out)) = (Ok sents, out) → st ∈ sents →
    s_hash st = knock_hash (s_datagram st) ∧
    ∃ f sk, kf_user f = user ∧ kf_nonce f = nonce ∧ kf_host_fp f = host_fp ∧
      kf_eph_c f = x25519_public_key (s_eph st) ∧ kf_key_fp f = key_fp (public_blob sk) ∧
      knock_build f sk min_len = Ok (s_datagram st)).
  { intros id0 sn. destruct (prepare _ _ _ _ _ _ _ _) as [r o] eqn:E. intros [= -> <-].
    by apply (IH _ _ _ _ E). }
  destruct (max_sig_blob_len _); [|apply Hskip].
  destruct (existsb _ _); [apply Hskip|].
  destruct (match id_sig1 id with Some _ => _ | None => _ end) as [sig1|]; [|done].
  destruct (knock_build _ _ _) as [d|[]] eqn:Eb; try done; [|apply Hskip].
  destruct (prepare _ _ _ _ _ _ _ _) as [[sents'|] o] eqn:E; [|done]. intros [= <- <-].
  intros [->|Hst]%elem_of_cons; [|by apply (IH _ _ _ _ E)].
  split; [done|]. eexists _, _. split_and!; [..|exact Eb]; done.
Qed.

Lemma choose_host_key_spec hks k full d i :
  choose_host_key hks k full d = Some i →
  ∃ h, hks !! i = Some h ∧ (full = false → h.2 = k_host_fp k).
Proof.
  unfold choose_host_key. destruct full; intros (h & Hh & Hp)%position_Some; exists h; (split; [done|]).
  - done.
  - intros _. by zbool.
Qed.

Lemma complete_ok p port now eph call s c s' :
  complete p port now eph call s = (Ok c, s') →
  ∃ hk blob fp shared, host_keys s !! pa_host_key p = Some (hk, blob, fp) ∧
    x25519_diffie_hellman eph (pa_eph_c p) = Some shared ∧
    build_accept hk call (pa_knock_hash p) (x25519_public_key eph) port
      (Z.max (window_secs (cfg s)) 1) (pa_full_hostkey p) = Ok (datagram c) ∧
    len (datagram c) ≤ pa_knock_len p ∧
    token c = open_token shared (pa_knock_hash p) (x25519_public_key eph) port ∧
    host_key_blob c = blob.
Proof.
  unfold complete, complete_inner.
  destruct (host_keys s !! pa_host_key p) as [[[hk blob] fp]|]; [|done].
  destruct (x25519_diffie_hellman eph _) as [shared|] eqn:Edh; [|done].
  destruct (build_accept _ _ _ _ _ _ _) as [dg|] eqn:Eb; [|done].
  destruct (Z.ltb_spec (pa_knock_len p) (len dg)); [done|]. cbn [is_ok negb].
  intros [= <- _]. exists hk, blob, fp, shared. by split_and!.
Qed.

(** The host keys of a server: a key, its blob, its fingerprint. *)
Definition host_keys_ok (hks : list (HostKey * bytes * bytes)) : Prop :=
  Forall (λ h : HostKey * bytes * bytes, h.1.2 = public_blob h.1.1 ∧ h.2 = key_fp h.1.2) hks.

Lemma insert_by_key_perm {X} (key : X → Z) x l : insert_by_key key x l ≡ₚ x :: l.
Proof.
  induction l as [|y l IH]; cbn [insert_by_key]; [done|]. destruct (_ <=? _); [done|].
  rewrite IH. apply Permutation_swap.
Qed.

Lemma sort_by_key_perm {X} (key : X → Z) l : sort_by_key key l ≡ₚ l.
Proof. induction l as [|x l IH]; cbn; [done|]. by rewrite insert_by_key_perm, IH. Qed.

Lemma knock_state_new_host_keys cfg0 hks now :
  host_keys_ok (host_keys (knock_state_new cfg0 hks now)).
Proof.
  unfold host_keys_ok, knock_state_new; cbn [host_keys]. rewrite sort_by_key_perm.
  apply list.Forall_forall. intros [[hk blob] fp] (k & _ & Hk)%list_elem_of_omap.
  destruct (max_sig_blob_len (public_blob k)); cbn in Hk; [|done]. by simplify_eq.
Qed.

(** [hk]'s signatures are accepted under its own public key. *)
Definition signs_for (hk : HostKey) : Prop :=
  ∀ i ns m sig, sign hk i ns m = Ok sig → verify (public_blob hk) ns m sig = Ok tt.

Lemma find_hash (sents : list Sent) st :
  NoDup (s_hash <$> sents) → st ∈ sents →
  List.find (λ s, bytes_eqb (s_hash s) (s_hash st)) sents = Some st.
Proof.
  induction sents as [|s l IH]; intros Hnd Hst; [by apply elem_of_nil in Hst|]. cbn in *.
  apply list.NoDup_cons in Hnd as [Hs Hnd]. apply elem_of_cons in Hst as [->|Hst].
  - by rewrite bytes_eqb_refl.
  - destruct (bytes_eqb_spec (s_hash s) (s_hash st)) as [He|]; [|by apply IH].
    destruct Hs. rewrite He. by apply list_elem_of_fmap_2.
Qed.

(** The KNOCK inside a datagram the client sent. *)
Lemma prepared_knock req nonce ephs sents req' st :
  utf8_valid (rq_user req) = true → existsb is_zero (rq_user req) = false → is_u64 nonce →
  prepare_knocks nonce ephs req = (Ok sents, req') → st ∈ sents →
  s_hash st = knock_hash (s_datagram st) ∧ len (s_datagram st) ≤ MAX_DATAGRAM ∧
  ∃ k, knock_parse (s_datagram st) = Ok k ∧ k_user k = rq_user req ∧
    k_eph_c k = x25519_public_key (s_eph st) ∧
    match expected_host_key (known_host_keys req) with
    | Some exp => k_flags k = 0 ∧ k_host_fp k = key_fp exp
    | None => k_flags k = 1
    end.
Proof.
  intros Hutf Hnul Hn. unfold prepare_knocks.
  destruct (knock_params _) as [host_fp min_len] eqn:Ek.
  destruct (prepare _ _ _ _ _ _ _ _) as [r ids] eqn:Ep. intros [= -> <-] Hst.
  destruct (prepare_spec _ _ _ _ _ _ _ _ _ _ _ Ep Hst) as (Hh & f & sk & Hu & Hno & Hhf & He & Hfp & Hb).
  split; [done|].
  assert (fields_wf f) as Hf.
  { split; try congruence.
    - rewrite Hfp. apply sha256_len.
    - rewrite He. apply x25519_public_len.
    - intros h Hh'. rewrite Hhf in Hh'. unfold knock_params in Ek.
      destruct (expected_host_key _); injection Ek as <- _; [|done]. injection Hh' as <-.
      apply sha256_len. }
  apply knock_build_spec in Hb as ([_ Hl] & signed & i & sig2 & _ & Hwf & Henc); [|done].
  split; [done|]. exists (built_knock f signed sig2). split; [by apply knock_parse_complete|].
  cbn. unfold knock_flags. unfold knock_params in Ek.
  destruct (expected_host_key _) as [exp|]; injection Ek as <- _; rewrite Hhf; [by split_and!|done].
Qed.

Lemma check_accept_built hk call hash eph_s port window full dg sents expected ip st shared :
  len hash = 32 → len eph_s = 32 → 1 ≤ port ≤ U16_MAX → 1 ≤ window ≤ U16_MAX →
  build_accept hk call hash eph_s port window full = Ok dg → len dg ≤ MAX_DATAGRAM →
  signs_for hk → hash = s_hash st → NoDup (s_hash <$> sents) → st ∈ sents →
  match expected with Some exp => exp = public_blob hk | None => full = true end →
  x25519_diffie_hellman (s_eph st) eph_s = Some shared →
  check_accept dg sents expected ip = Some
    {| ka_target := (ip, port); ka_host_key_blob := public_blob hk;
       ka_host_key_known := bool_decide (is_Some expected); ka_identity := s_identity st;
       ka_window := window; ka_token := open_token shared hash eph_s port |}.
Proof.
  intros Hh He Hp Hw Hb Hl Hsig -> Hnd Hst Hexp Hdh. unfold build_accept in Hb.
  destruct (sign hk call _ _) as [sig|] eqn:Es; [|done]. injection Hb as <-.
  unfold check_accept. rewrite accept_parse_built by done. cbn [ok mbind option_bind built_accept a_knock_hash].
  rewrite find_hash by done. cbn [a_hostkey].
  assert (Hv := Hsig _ _ _ _ Es).
  destruct expected as [exp|]; [subst exp; destruct full|subst full];
    unfold built_accept; cbn -[verify accept_unsigned bytes_eqb NS_ACCEPT]; rewrite ?bytes_eqb_refl;
    cbn -[verify accept_unsigned NS_ACCEPT]; rewrite Hv; cbn; by rewrite Hdh.
Qed.

(** The knock handshake.  A KNOCK the client prepared, accepted by the
    server and completed, gives an ACCEPT the client recognises as the answer
    to that KNOCK; both sides then hold the same open token, port and host
    key.  (Given that signatures made by a host key verify under it, that
    the client's KNOCKs have distinct hashes and that the server's keys do
    not collide with the one on file.) *)
Theorem knock_handshake auth `{HashOrder} req nonce ephs sents req' st
    source now src s p s1 port now' eph call c s2 ip :
  utf8_valid (rq_user req) = true → existsb is_zero (rq_user req) = false → is_u64 nonce →
  prepare_knocks nonce ephs req = (Ok sents, req') → st ∈ sents → NoDup (s_hash <$> sents) →
  kstate_wf auth s → clock_ok now → source_ok auth source →
  host_keys_ok (host_keys s) → Forall (λ h, signs_for h.1.1) (host_keys s) →
  (∀ exp h, expected_host_key (known_host_keys req) = Some exp → h ∈ host_keys s →
     key_fp h.1.2 = key_fp exp → h.1.2 = exp) →
  1 ≤ port ≤ U16_MAX → is_u16 (window_secs (cfg s)) →
  handle source now src (s_datagram st) s = (VAccept p, s1) →
  complete p port now' eph call s1 = (Ok c, s2) →
  ∃ acc, check_accept (datagram c) sents (expected_host_key (known_host_keys req)) ip = Some acc ∧
    ka_token acc = token c ∧ ka_host_key_blob acc = host_key_blob c ∧
    ka_target acc = (ip, port) ∧ ka_identity acc = s_identity st ∧
    ka_host_key_known acc = bool_decide (is_Some (expected_host_key (known_host_keys req))).
Proof.
  intros Hutf Hnul Hn Hprep Hst Hnd Hwf Hc Hsrc Hhk Hsig Hcoll Hport Hwin Hhandle Hcomp.
  destruct (prepared_knock _ _ _ _ _ _ Hutf Hnul Hn Hprep Hst) as (Hhash & Hlen & k & Hp & Hu & Heph & Hexp).
  destruct (handle_spec auth _ _ _ _ _ _ _ Hwf Hc Hsrc Hhandle)
    as (_ & Hcfg & Hhks & _ & m & _ & _ & [(r & ? & _)|(k' & blob & e & e' & Hent)]); [done|].
  destruct Hent as (Hp' & _ & _ & _ & _ & _ & _ & _ & Hout & _).
  rewrite Hp in Hp'. injection Hp' as <-.
  destruct Hout as (_ & _ & _ & _ & Hch & Hpeq).
  apply choose_host_key_spec in Hch as (h & Hh & Hfp).
  apply complete_ok in Hcomp as (hk & hblob & hfp & shared & Hlook & Hdh & Hb & Hl & Htok & Hblob).
  rewrite Hhks, Hh in Hlook. injection Hlook as ->. cbn [fst snd] in *.
  destruct (proj1 (Forall_lookup _ _) Hhk _ _ Hh) as [Hpub Hfpk]. cbn [fst snd] in *.
  pose proof (proj1 (Forall_lookup _ _) Hsig _ _ Hh) as Hs. cbn [fst snd] in Hs.
  rewrite Hpeq in Hb, Hdh, Htok, Hl, Hfp. cbn in Hb, Hdh, Htok, Hl, Hfp. rewrite Hcfg in Hb.
  rewrite Heph, x25519_agree in Hdh.
  pose proof (check_accept_built hk call (knock_hash (s_datagram st)) (x25519_public_key eph) port
    (Z.max (window_secs (cfg s)) 1) _ (datagram c) sents (expected_host_key (known_host_keys req))
    ip st shared (sha256_len _) (x25519_public_len _) Hport ltac:(width_lia) Hb ltac:(lia) Hs
    ltac:(by rewrite Hhash) Hnd Hst) as Hacc.
  eexists. split; [apply Hacc; [|done]|cbn; rewrite Htok, Hblob; by split_and!].
  destruct (expected_host_key _) as [exp|]; [|by rewrite Hexp].
  destruct Hexp as [Hf0 Hf1]. rewrite <- Hpub. symmetry.
  refine (Hcoll exp _ eq_refl (list_elem_of_lookup_2 _ _ _ Hh) _). cbn.
  rewrite <- Hf1, <- Hfpk. apply Hfp. by rewrite Hf0.
Qed.
End client_facts.
