(* ===== verification/KnockLive.v ===== *)
(** * An honest client gets through

    A KNOCK made by a listed key, in time and with verifying signatures, is
    accepted by a server that has just started: the rate limits and tables
    that protect the server do not stop the first knock.  Over any run, the
    number of signatures the server verifies is within its budget. *)
From S2P Require Import Prelude Wire Text Crypto KnockWire KnockState KnockFacts KnockRun KnockClient.

Section live.
Context {C : PureCrypto} {V : HostKeyVerify} `{HashOrder}.

(** Limits that admit at least one knock. *)
Record config_live (c : KnockServerConfig) : Prop := {
  cl_wf : config_wf c;
  cl_prefix_burst : 1 ≤ key_lookups_prefix_burst c;
  cl_newsig1 : 1 ≤ newsig1_burst c;
  cl_newprefix : 1 ≤ newprefix_burst c;
  cl_knock : 1 ≤ knock_burst c;
  cl_verify : 2 ≤ verify_per_sec c;
  cl_pending : 1 ≤ max_pending c;
}.

Context (c : KnockServerConfig) (hks : list HostKey) (t0 now : Z).
Context (Hcfg : config_live c) (Ht0 : clock_ok t0) (Hnow : clock_ok now).

Let s0 := knock_state_new c hks t0.

Lemma take_prefix_lookup_first src :
  ∃ m, take_prefix_lookup src now s0 = (true, s0 <| prefix_lookups := m |>).
Proof.
  destruct Hcfg as [[] ? _ _ _ _ _]. unfold clock_ok in *.
  unfold take_prefix_lookup, s0, knock_state_new; cbn [prefix_lookups cfg].
  rewrite lookup_empty, map_size_empty.
  rewrite (proj2 (Z.leb_gt _ _)) by lia. cbn [fst].
  destruct (bucket_take_has (bucket_with_tokens (key_lookups_prefix_burst c)
    (key_lookups_prefix_refill_ms c) now (key_lookups_prefix_burst c)) now) as (b & -> & _).
  - apply bucket_with_tokens_wf; [done|lia..].
  - done.
  - done.
  - left. unfold bucket_with_tokens; proj_simpl. lia.
  - eexists. reflexivity.
Qed.

Lemma load_user_keys_first source user src :
  may_knock source user = true →
  ∃ m b, load_user_keys source user src now s0 =
    (true, s0 <| prefix_lookups := m |> <| lookups := b |>
      <| entries := ∅ |>
      <| key_cache := {[user := {| loaded_ms := now; keys := supported_keys (keys_for source user) |}]} |>).
Proof.
  intros Hmay. unfold load_user_keys.
  assert (key_cache s0 !! user = None) as -> by apply lookup_empty. rewrite Hmay. cbn [negb].
  destruct (take_prefix_lookup_first src) as (m & ->). cbn [negb].
  destruct Hcfg as [[] _ _ _ _ _ _]. unfold clock_ok in *.
  destruct (bucket_take_has (lookups s0) now) as (b & Hb & _).
  - apply bucket_new_wf; [width_lia|lia].
  - done.
  - cbn. lia.
  - left. cbn. lia.
  - exists m, b. change (lookups (s0 <| prefix_lookups := m |>)) with (lookups s0). rewrite Hb. cbn [negb].
    unfold make_room. cbn [negb andb]. proj_simpl. rewrite map_size_empty.
    rewrite (proj2 (Z.leb_gt _ _)) by lia. unfold install_keys. proj_simpl. by rewrite map_filter_empty.
Qed.

Lemma take_rate_limits_first e vb src :
  knock_buckets e = [] → newprefix e = bucket_new (newprefix_burst c) (newprefix_refill_ms c) now →
  bucket_wf vb → 1 ≤ tokens vb →
  ∃ slot e' vb', take_rate_limits c e vb src now = ((true, slot), e', vb') ∧ same_replay e e'.
Proof.
  intros Hslots Hnp Hvb Htok. destruct Hcfg as [[] ? ? ? ? ? ?]. unfold clock_ok in *.
  unfold take_rate_limits, take_knock_bucket, prefix_slot. rewrite Hslots. cbn [position].
  rewrite (len_nil (A:=PrefixSlot)), (proj2 (Z.leb_gt _ _)) by lia. cbn [app length pred lookup list_lookup bucket].
  destruct (bucket_take_has (bucket_with_tokens (knock_burst c) (knock_refill_ms c) now (knock_burst c)) now)
    as (b1 & -> & _); [apply bucket_with_tokens_wf; [done|lia..]|done|done|left; unfold bucket_with_tokens; proj_simpl; lia|].
  proj_simpl. rewrite Hnp.
  destruct (bucket_take_has (bucket_new (newprefix_burst c) (newprefix_refill_ms c) now) now)
    as (b2 & -> & _); [apply bucket_new_wf; [done|lia]|done|done|left; cbn; lia|]. cbn [negb].
  destruct (bucket_take_has vb now) as (b3 & -> & _); [done|done|destruct Hvb; lia|by left|].
  by eexists _, _, _.
Qed.

Lemma check_sig1_first blob k vb :
  bucket_wf vb → 2 ≤ tokens vb →
  verify blob NS_KNOCK_ID (knock_id_message (k_user k) (k_key_fp k)) (k_sig1 k) = Ok tt →
  ∃ b vb', check_sig1 c blob k now (entry_new c now) vb =
    (None, (entry_new c now) <| newsig1 := b |> <| sig1_cache :=
       take (Z.to_nat (Z.max (sig1_cache_size c) 1)) [k_sig1 k] |>, vb') ∧
    bucket_wf vb' ∧ 1 ≤ tokens vb'.
Proof.
  intros Hvb Htok Hv. destruct Hcfg as [[] ? ? ? ? ? ?]. unfold clock_ok in *.
  unfold check_sig1. cbn [sig1_cache entry_new position newsig1].
  destruct (bucket_take_has (bucket_new (newsig1_burst c) (newsig1_refill_ms c) now) now)
    as (b & -> & _); [apply bucket_new_wf; [done|lia]|done|done|left; cbn; lia|]. cbn [negb].
  destruct (bucket_take_has vb now) as (vb' & -> & Hvt & Hvw); [done|done|destruct Hvb; lia|left; lia|].
  rewrite Hv. cbn [is_ok negb]. exists b, vb'. split_and!; [done|done|lia].
Qed.

(** The first knock is accepted.  On a server that has just started,
    with limits that admit one knock, a KNOCK in the clock window made after
    the start, for a key the source lists, whose signatures verify and for
    which a host key fits, is accepted. *)
Theorem first_knock_accepted source src d k blob i :
  knock_parse d = Ok k → abs_diff (k_nonce k) now ≤ clock_skew_ms c →
  0 < k_nonce k → t0 ≤ k_nonce k →
  may_knock source (k_user k) = true →
  supported_keys (keys_for source (k_user k)) !! k_key_fp k = Some blob →
  verify blob NS_KNOCK_ID (knock_id_message (k_user k) (k_key_fp k)) (k_sig1 k) = Ok tt →
  verify blob NS_KNOCK (k_signed k) (k_sig2 k) = Ok tt →
  choose_host_key (host_keys s0) k (negb (Z.land (k_flags k) FLAG_NEED_HOSTKEY =? 0)) d = Some i →
  ∃ p s', handle source now src d s0 = (VAccept p, s').
Proof.
  intros Hp Hskew Hpos Hfloor Hmay Hkey Hv1 Hv2 Hch. unfold handle. rewrite Hp.
  change (cfg s0) with c. rewrite (proj2 (Z.ltb_ge _ _)) by done.
  destruct (load_user_keys_first source (k_user k) src Hmay) as (m & b & ->). cbn [negb].
  set (s1 := s0 <| prefix_lookups := m |> <| lookups := b |> <| entries := ∅ |> <| key_cache := _ |>).
  assert (key_cache s1 !! k_user k ≫= (λ c, keys c !! k_key_fp k) = Some blob) as ->.
  { unfold s1; proj_simpl. by rewrite lookup_singleton_eq. }
  change (entries s1) with (∅ : gmap (bytes * bytes) Entry). rewrite lookup_empty. cbn [default].
  change (cfg s1) with c. change (verify_bucket s1) with (verify_bucket s0).
  destruct Hcfg as [[] ? ? ? ? ? ?]. unfold clock_ok in *.
  destruct (check_sig1_first blob k (verify_bucket s0)) as (b1 & vb & -> & Hvw & Hvt);
    [apply bucket_new_wf; [width_lia|lia]|cbn; lia|done|].
  unfold handle_entry. change (cfg s1) with c. change (nonce_floor s1) with t0.
  set (e := set_field _ _). change (last_nonce e) with 0.
  rewrite (proj2 (Z.eqb_neq _ _)) by lia. cbn [andb].
  rewrite (proj2 (Z.leb_gt _ _)), (proj2 (Z.ltb_ge _ _)) by lia. cbn [orb].
  destruct (take_rate_limits_first e vb src) as (slot & e' & vb' & -> & _ & _ & _ & Hpend); [done..|].
  cbn [negb]. rewrite Hv2. cbn [is_ok negb].
  assert (pending (mark_good slot e') = 0) as Hp0.
  { unfold mark_good. destruct (knock_buckets e' !! slot); proj_simpl; by rewrite Hpend. }
  proj_simpl. rewrite Hp0, (proj2 (Z.leb_gt _ _)) by lia.
  change (host_keys s1) with (host_keys s0). cbn in Hch. rewrite Hch. by eexists _, _.
Qed.
End live.

(** * The verification budget of the knock server

    Public-key verifications are what an attacker can make the server spend
    time on.  Every one is paid for with a token of the global bucket, so
    their number is bounded by the bucket's rate, whatever is received. *)

(** [b'] is [b] after giving out at least [n] tokens up to time [now]. *)
Record spends (b b' : Bucket) (n now : Z) : Prop := {
  sp_wf : bucket_wf b';
  sp_refill : refill_ms b' = refill_ms b;
  sp_last : last_ms b ≤ last_ms b' ≤ Z.max (last_ms b) now;
  sp_paid : (n + tokens b') * refill_ms b ≤ tokens b * refill_ms b + (last_ms b' - last_ms b);
}.

Lemma spends_refl b now : bucket_wf b → spends b b 0 now.
Proof. intros. split; [done|done|lia|lia]. Qed.

Lemma spends_trans b b1 b2 n m now now' :
  spends b b1 n now → spends b1 b2 m now' → spends b b2 (n + m) (Z.max now now').
Proof. intros [] [? Hr ? ?]. rewrite sp_refill0 in *. split; [done|congruence|lia|lia]. Qed.

Lemma spends_less b b' n m now : spends b b' n now → bucket_wf b → m ≤ n → spends b b' m now.
Proof. intros [] [] ?. split; [done..|]. nia. Qed.

Lemma spends_take b now ok b' :
  bucket_wf b → clock_ok now → bucket_take b now = (ok, b') → spends b b' (Z.b2z ok) now.
Proof. intros Hb Hc E. destruct (bucket_take_spec _ _ _ _ Hb Hc E) as (? & _ & ? & ? & ?). by split. Qed.

Section budget.
Context {C : PureCrypto} {V : HostKeyVerify}.

(** The verdicts that are reached only after verifying a signature. *)
Definition verified (v : Verdict) : bool :=
  match v with
  | VDrop (BadSig1 | BadSig2 | TooManyPending | NoHostKey) | VAccept _ => true
  | _ => false
  end.

Lemma check_sig1_spends c blob k now e vb drop e' vb' :
  bucket_wf vb → clock_ok now → check_sig1 c blob k now e vb = (drop, e', vb') →
  spends vb vb' (Z.b2z (match drop with Some r => verified (VDrop r) | None => false end)) now.
Proof.
  intros Hvb Hc. unfold check_sig1. destruct (position _ _); [intros [= <- <- <-]; by apply spends_refl|].
  destruct (bucket_take (newsig1 e) now) as [[] ?]; cbn [negb];
    [|intros [= <- <- <-]; by apply spends_refl].
  destruct (bucket_take vb now) as [ok vb1] eqn:E. pose proof (spends_take _ _ _ _ Hvb Hc E) as Hs.
  destruct ok; cbn [negb]; [|by intros [= <- <- <-]].
  destruct (negb _); intros [= <- <- <-]; [done|]. apply (spends_less _ _ _ _ _ Hs); [done|cbn; lia].
Qed.

Lemma take_rate_limits_spends c e vb src now ok slot e' vb' :
  bucket_wf vb → clock_ok now → take_rate_limits c e vb src now = ((ok, slot), e', vb') →
  spends vb vb' (Z.b2z ok) now.
Proof.
  intros Hvb Hc. unfold take_rate_limits. destruct (take_knock_bucket _ _ _ _) as [[ok1 i] e1].
  destruct ok1; cbn [negb]; [|intros [= <- <- <- <-]; by apply spends_refl].
  destruct (bucket_take (newprefix e1) now) as [ok2 b2].
  destruct (bucket_take vb now) as [ok3 vb3] eqn:E. pose proof (spends_take _ _ _ _ Hvb Hc E).
  set (is_good := match _ with Some s => good s | None => false end).
  destruct is_good, ok2; cbn [negb]; intros [= <- <- <- <-]; first [done|by apply spends_refl].
Qed.

Lemma handle_entry_spends s blob k now src d e vb v e' vb' :
  bucket_wf vb → clock_ok now → handle_entry s blob k now src d e vb = (v, e', vb') →
  spends vb vb' (Z.b2z (verified v)) now.
Proof.
  intros Hvb Hc. unfold handle_entry. destruct (_ && _).
  { unfold retransmit. destruct (last_accept e) as [[a x]|];
      [|intros [= <- <- <-]; by apply spends_refl].
    destruct (now <? x); [|intros [= <- <- <-]; by apply spends_refl].
    destruct (take_knock_bucket _ _ _ _) as [[[] ?] ?]; intros [= <- <- <-]; by apply spends_refl. }
  destruct (_ || _); [intros [= <- <- <-]; by apply spends_refl|].
  destruct (take_rate_limits _ _ _ _ _) as [[[ok slot] e1] vb1] eqn:E.
  pose proof (take_rate_limits_spends _ _ _ _ _ _ _ _ _ Hvb Hc E) as Hs.
  destruct ok; cbn [negb]; [|by intros [= <- <- <-]].
  destruct (negb _); [by intros [= <- <- <-]|].
  destruct (_ <=? _); [by intros [= <- <- <-]|].
  destruct (choose_host_key _ _ _ _); by intros [= <- <- <-].
Qed.

Lemma handle_spends auth `{HashOrder} source now src d s v s' :
  kstate_wf auth s → source_ok auth source → clock_ok now → handle source now src d s = (v, s') →
  spends (verify_bucket s) (verify_bucket s') (Z.b2z (verified v)) now.
Proof.
  intros Hwf Hsrc Hc. pose proof (kw_verify _ _ Hwf) as Hv. unfold handle.
  destruct (knock_parse d) as [k|]; [|intros [= <- <-]; by apply spends_refl].
  destruct (_ <? _); [intros [= <- <-]; by apply spends_refl|].
  destruct (load_user_keys source (k_user k) src now s) as [loaded s1] eqn:Eload.
  destruct (load_user_keys_wf auth _ _ _ _ _ _ _ Hwf Hc Hsrc Eload) as (_ & _ & _ & Hvb & _).
  destruct loaded; cbn [negb]; [|intros [= <- <-]; rewrite Hvb; by apply spends_refl].
  destruct (_ ≫= _) as [blob|]; [|intros [= <- <-]; rewrite Hvb; by apply spends_refl].
  rewrite Hvb. destruct (check_sig1 _ _ _ _ _ _) as [[drop e1] vb1] eqn:E1.
  pose proof (check_sig1_spends _ _ _ _ _ _ _ _ _ Hv Hc E1) as Hs1.
  destruct drop as [r|]; [by intros [= <- <-]|].
  destruct (handle_entry _ _ _ _ _ _ _ _) as [[v2 e2] vb2] eqn:E2. intros [= <- <-].
  apply handle_entry_spends in E2 as Hs2; [|by apply Hs1|done].
  pose proof (spends_trans _ _ _ _ _ _ _ Hs1 Hs2) as Hs. by rewrite Z.add_0_l, Z.max_id in Hs.
Qed.

(** A sequence of datagrams: for each, the map order and the key source of
    the moment, the time, the source address and the bytes. *)
Record arrival := {
  ar_order : HashOrder; ar_source : KnockKeySource; ar_now : Z; ar_src : IpAddr; ar_data : bytes
}.

Fixpoint handle_all (l : list arrival) (s : KnockState) : list Verdict * KnockState :=
  match l with
  | [] => ([], s)
  | a :: l' =>
      let '(v, s) := @handle _ _ (ar_order a) (ar_source a) (ar_now a) (ar_src a) (ar_data a) s in
      let '(vs, s) := handle_all l' s in (v :: vs, s)
  end.

Definition count_verified (vs : list Verdict) : Z := len (List.filter verified vs).

Lemma handle_all_spends auth l s vs s' T :
  kstate_wf auth s → Forall (λ a, clock_ok (ar_now a) ∧ ar_now a ≤ T ∧ source_ok auth (ar_source a)) l →
  handle_all l s = (vs, s') →
  spends (verify_bucket s) (verify_bucket s') (count_verified vs) T.
Proof.
  revert s vs. induction l as [|a l IH]; intros s vs Hwf Hl; cbn [handle_all].
  { intros [= <- <-]. by apply spends_refl, (kw_verify auth). }
  apply Forall_cons_1 in Hl as [(Hc & HT & Hsrc) Hl].
  destruct (handle _ _ _ _ _) as [v s1] eqn:E1. destruct (handle_all l s1) as [vs2 s2] eqn:E2.
  intros [= <- <-]. pose proof (handle_spends auth _ _ _ _ _ _ _ Hwf Hsrc Hc E1) as Hs1.
  apply (handle_spec auth) in E1 as (Hwf1 & _); [|done..].
  pose proof (spends_trans _ _ _ _ _ _ _ Hs1 (IH _ _ Hwf1 Hl E2)) as [? ? ? Hp].
  unfold count_verified in *. cbn [List.filter].
  split; [done..|lia|]. destruct (verified v); autorewrite with lens; cbn in Hp; lia.
Qed.

(** The verification budget.  Whatever datagrams arrive up to time [T],
    the number of them for which a signature was verified is at most the
    burst of the global bucket plus one per refill period since the start
    (1000 plus 1000 per second with the default configuration). *)
Theorem verify_budget auth c hks t0 l T :
  config_wf c → clock_ok t0 → t0 ≤ T →
  Forall (λ a, clock_ok (ar_now a) ∧ ar_now a ≤ T ∧ source_ok auth (ar_source a)) l →
  count_verified (handle_all l (knock_state_new c hks t0)).1 ≤
    Z.max (verify_per_sec c) 1 + (T - t0) / Z.max (1000 / Z.max (verify_per_sec c) 1) 1.
Proof.
  intros Hc Ht HT Hl. destruct (handle_all _ _) as [vs s'] eqn:E. cbn [fst].
  pose proof (handle_all_spends auth _ _ _ _ T (knock_state_new_wf auth c hks t0 Hc Ht) Hl E) as [Hw _ Hla Hp].
  cbn in Hla, Hp. destruct Hw.
  set (r := Z.max (Z.max (1000 / Z.max (verify_per_sec c) 1) 1) 1) in *.
  replace (Z.max (1000 / Z.max (verify_per_sec c) 1) 1) with r by lia.
  assert (count_verified vs - Z.max (verify_per_sec c) 1 ≤ (T - t0) / r); [|lia].
  apply Z.div_le_lower_bound; nia.
Qed.

End budget.
