(* ===== verification/KnockDemo.v ===== *)
(** * The knock theorems on concrete runs

    A server with one Ed25519-sized host key and one authorised key, and a
    client that knocks twice, evaluated from the definitions; each theorem of
    the knock files is applied to this run.  Also the rate the verification
    bucket really has. *)
From Stdlib Require Import Sorting.Sorted.
From S2P Require Import Prelude Wire Text Crypto KnockWire KnockState KnockFacts KnockRun KnockClient KnockLive.

#[local] Existing Instance demo_crypto.
#[local] Existing Instance demo_crypto_laws.
#[local] Existing Instance demo_verify.

#[local] Instance demo_order : HashOrder :=
  {| hash_order X l := l; hash_order_perm X l := Permutation_refl l |}.

Definition demo_auth (user blob : bytes) : Prop := user = bs "alice" ∧ blob = demo_blob.

Definition demo_source : KnockKeySource :=
  {| keys_for user := if bytes_eqb user (bs "alice") then [demo_blob] else [];
     may_knock _ := true |}.

Lemma demo_source_ok : source_ok demo_auth demo_source.
Proof.
  intros user blob. cbn [keys_for demo_source]. destruct (bytes_eqb_spec user (bs "alice")) as [->|].
  - by intros ->%list_elem_of_singleton.
  - by intros ?%elem_of_nil.
Qed.

Lemma demo_keeps : keeps_key demo_source (bs "alice") (key_fp demo_blob).
Proof. split; [done|]. exists demo_blob. by vm_compute. Qed.

Lemma config_default_wf : config_wf config_default.
Proof. split; vm_compute; split; congruence. Qed.

Lemma clock_ok_small t : 0 ≤ t ≤ 100000 → clock_ok t.
Proof. unfold clock_ok. lia. Qed.

Definition demo_ip : IpAddr := V4 [Byte.x0a; Byte.x00; Byte.x00; Byte.x01].

(** ** A run: two knocks, the first completed *)

Definition demo_w0 : World := world_new config_default [demo_key] 500.

Definition demo_handle (nonce now : Z) (w : World) : World :=
  let '(v, s') := handle demo_source now demo_ip (demo_knock nonce) (w_state w) in
  {| w_state := s';
     w_issued := match v with VAccept p => (p, demo_knock nonce) :: w_issued w | _ => w_issued w end;
     w_seen := demo_knock nonce :: w_seen w;
     w_sent := match v with VResend a => (a, demo_knock nonce) :: w_sent w | _ => w_sent w end |}.

Lemma demo_handle_step (Q : KnockKeySource → Prop) nonce now w :
  Q demo_source → clock_ok now → world_step demo_auth Q w (demo_handle nonce now w).
Proof.
  intros HQ Hc. unfold demo_handle. destruct (handle _ _ _ _ _) as [v s'] eqn:E.
  exact (step_handle demo_auth Q w demo_order demo_source now demo_ip (demo_knock nonce) v s'
    Hc demo_source_ok HQ E).
Qed.

Definition demo_w1 : World := demo_handle 1000 1000 demo_w0.

Definition demo_pending : PendingAccept :=
  match w_issued demo_w1 with
  | (p, _) :: _ => p
  | [] => {| pa_user := []; pa_key_fp := []; pa_knock_hash := []; pa_host_key := 0;
             pa_full_hostkey := false; pa_eph_c := []; pa_knock_len := 0 |}
  end.

Definition demo_completed := complete demo_pending 2222 1000 zeros32 0 (w_state demo_w1).

Definition demo_w2 : World :=
  {| w_state := demo_completed.2; w_issued := w_issued demo_w1; w_seen := w_seen demo_w1;
     w_sent := match demo_completed.1 with
               | Ok c => (datagram c, demo_knock 1000) :: w_sent demo_w1
               | Err _ => w_sent demo_w1
               end |}.

Definition demo_w3 : World := demo_handle 1001 1100 demo_w2.

Lemma demo_issued : w_issued demo_w1 = [(demo_pending, demo_knock 1000)].
Proof. vm_compute. reflexivity. Qed.

Lemma demo_reachable2 (Q : KnockKeySource → Prop) :
  Q demo_source → world_reachable demo_auth Q config_default [demo_key] 500 demo_w2.
Proof.
  intros HQ. apply (rtc_l _ _ demo_w1); [apply demo_handle_step; [exact HQ|apply clock_ok_small; lia]|].
  apply rtc_once.
  apply (step_complete demo_auth Q demo_w1 demo_pending (demo_knock 1000) 2222 1000 zeros32 0
      demo_completed.1 demo_completed.2).
  - rewrite demo_issued. apply list_elem_of_singleton. reflexivity.
  - exact (surjective_pairing demo_completed).
Qed.

Lemma demo_reachable (Q : KnockKeySource → Prop) :
  Q demo_source → world_reachable demo_auth Q config_default [demo_key] 500 demo_w3.
Proof.
  intros HQ. apply (rtc_r _ demo_w2); [by apply demo_reachable2|].
  apply demo_handle_step; [exact HQ|apply clock_ok_small; lia].
Qed.

Lemma no_replay_witness :
  accepted_nonces (bs "alice") (key_fp demo_blob) (w_issued demo_w3) = [1001; 1000] ∧
  StronglySorted Z.gt (accepted_nonces (bs "alice") (key_fp demo_blob) (w_issued demo_w3)) ∧
  NoDup (accepted_datagrams (bs "alice") (key_fp demo_blob) (w_issued demo_w3)).
Proof.
  split; [vm_compute; reflexivity|].
  apply (no_replay demo_auth config_default [demo_key] 500 (bs "alice") (key_fp demo_blob) demo_w3).
  - apply config_default_wf.
  - apply clock_ok_small; lia.
  - apply demo_reachable, demo_keeps.
Defined.

Lemma no_amplification_witness :
  len (w_sent demo_w2) = 1 ∧ Forall (λ ad : bytes * bytes, len ad.1 ≤ len ad.2) (w_sent demo_w2).
Proof.
  split; [vm_compute; reflexivity|].
  apply (no_amplification demo_auth (λ _, True) config_default [demo_key] 500 demo_w2).
  - apply config_default_wf.
  - apply clock_ok_small; lia.
  - apply demo_reachable2. exact I.
  - intros d d' Hd Hd' _. change (w_seen demo_w2) with [demo_knock 1000] in Hd, Hd'.
    apply list_elem_of_singleton in Hd, Hd'. congruence.
Defined.


Lemma knock_state_bounded_witness :
  size (entries (w_state demo_w3)) = 1%nat ∧
  map_Forall (λ _ e, len (knock_buckets e) ≤ 64 ∧ NoDup (prefix <$> knock_buckets e) ∧
    len (sig1_cache e) ≤ 4 ∧ 0 ≤ pending e ≤ 2) (entries (w_state demo_w3)).
Proof.
  split; [vm_compute; reflexivity|].
  apply (knock_state_bounded demo_auth (λ _, True) config_default [demo_key] 500 demo_w3).
  - apply config_default_wf.
  - apply clock_ok_small; lia.
  - apply demo_reachable. exact I.
Defined.

(** ** Buckets *)

Lemma bucket_rate_witness :
  (bucket_takes (bucket_new 5 10 0) [0; 0; 0; 0; 0; 0; 3; 12; 12; 25]).1 ≤ 5 + (25 - 0) / 10.
Proof.
  apply (bucket_rate (bucket_new 5 10 0) [0; 0; 0; 0; 0; 0; 3; 12; 12; 25] 25).
  - apply bucket_new_wf; [vm_compute; split; congruence|lia].
  - repeat constructor; apply clock_ok_small; lia.
  - repeat constructor; lia.
  - cbn; lia.
Defined.

(** A server configured for 600 verifications per second, and its bucket
    after the burst is used up. *)
Definition cfg_600 : KnockServerConfig := {|
  clock_skew_ms := 30000; window_secs := 60; token_timeout_secs := 5; max_pending := 2;
  knock_burst := 5; knock_refill_ms := 10000; newsig1_burst := 3; newsig1_refill_ms := 60000;
  verify_per_sec := 600; max_prefixes_per_key := 64; newprefix_burst := 10;
  newprefix_refill_ms := 1000; sig1_cache_size := 4; key_cache_ttl_ms := 60000;
  key_cache_users := 4096; key_lookups_per_sec := 50; key_lookups_prefix_burst := 10;
  key_lookups_prefix_refill_ms := 200; key_lookup_prefixes := 1024 |}.

Definition drained_600 : Z * Bucket :=
  bucket_takes (verify_bucket (knock_state_new cfg_600 [] 0)) (replicate 601 0).

(** The global bucket is not refilled at the configured rate when 1000
    is not a multiple of it: a server configured for 600 verifications per
    second, its burst used up, admits 1000 in the following second. *)
Theorem verify_rate_exceeded :
  drained_600.1 = 600 ∧ (bucket_takes drained_600.2 (Z.of_nat <$> seq 1 1000)).1 = 1000.
Proof. vm_compute. split; reflexivity. Qed.

(** ** The handshake *)

Definition demo_req : KnockRequest :=
  {| rq_user := bs "alice"; identities := [{| signer := demo_key; id_sig1 := None |}];
     known_host_keys := [] |}.

Definition demo_prepared := prepare_knocks 1000 (λ _, replicate 32 Byte.x05) demo_req.

Definition demo_st : Sent :=
  match demo_prepared.1 with
  | Ok (st :: _) => st
  | _ => {| s_datagram := []; s_hash := []; s_eph := []; s_identity := 0 |}
  end.

Definition demo_server := knock_state_new config_default [demo_key] 500.
Definition demo_verdict := handle demo_source 1000 demo_ip (s_datagram demo_st) demo_server.
Definition demo_p : PendingAccept :=
  match demo_verdict.1 with VAccept p => p | _ => demo_pending end.
Definition demo_done := complete demo_p 2222 1000 zeros32 0 demo_verdict.2.
Definition demo_c : CompletedAccept :=
  match demo_done.1 with
  | Ok c => c
  | Err _ => {| datagram := []; token := []; host_key_blob := [] |}
  end.

Lemma demo_signs_for : signs_for demo_key.
Proof. intros i ns m sig [= <-]. vm_compute. reflexivity. Qed.

Lemma demo_prepared_eq : demo_prepared = (Ok [demo_st], demo_prepared.2).
Proof. vm_compute. reflexivity. Qed.

Lemma demo_verdict_eq : demo_verdict = (VAccept demo_p, demo_verdict.2).
Proof. vm_compute. reflexivity. Qed.

Lemma demo_done_eq : demo_done = (Ok demo_c, demo_done.2).
Proof. vm_compute. reflexivity. Qed.

Lemma demo_server_keys : Forall (λ h : HostKey * bytes * bytes, signs_for h.1.1) (host_keys demo_server).
Proof. change (host_keys demo_server) with [(demo_key, demo_blob, key_fp demo_blob)].
  repeat constructor. apply demo_signs_for. Qed.

Lemma knock_handshake_witness :
  ∃ acc, check_accept (datagram demo_c) [demo_st] None demo_ip = Some acc ∧
    ka_token acc = token demo_c ∧ ka_host_key_blob acc = host_key_blob demo_c ∧
    ka_target acc = (demo_ip, 2222) ∧ ka_identity acc = 0%nat ∧ ka_host_key_known acc = false.
Proof.
  apply (knock_handshake demo_auth demo_req 1000 (λ _, replicate 32 Byte.x05) [demo_st]
    demo_prepared.2 demo_st demo_source 1000 demo_ip demo_server demo_p demo_verdict.2 2222 1000
    zeros32 0 demo_c demo_done.2 demo_ip).
  - vm_compute. reflexivity.
  - vm_compute. reflexivity.
  - vm_compute. split; congruence.
  - exact demo_prepared_eq.
  - apply list_elem_of_singleton. reflexivity.
  - apply NoDup_singleton.
  - apply knock_state_new_wf; [apply config_default_wf|apply clock_ok_small; lia].
  - apply clock_ok_small; lia.
  - apply demo_source_ok.
  - apply knock_state_new_host_keys.
  - apply demo_server_keys.
  - intros exp h Hexp. vm_compute in Hexp. congruence.
  - lia.
  - vm_compute. split; congruence.
  - exact demo_verdict_eq.
  - exact demo_done_eq.
Defined.

Lemma config_default_live : config_live config_default.
Proof. split; [apply config_default_wf|vm_compute; congruence..]. Qed.

(** The KNOCK in the client's datagram. *)
Definition demo_k : Knock :=
  match knock_parse (s_datagram demo_st) with
  | Ok k => k
  | Err _ => built_knock (demo_fields 0) [] []
  end.

Lemma first_knock_accepted_witness :
  ∃ p s', handle demo_source 1000 demo_ip (s_datagram demo_st) demo_server = (VAccept p, s').
Proof.
  apply (first_knock_accepted config_default [demo_key] 500 1000 config_default_live
    (clock_ok_small 500 ltac:(lia)) (clock_ok_small 1000 ltac:(lia))
    demo_source demo_ip (s_datagram demo_st) demo_k demo_blob 0).
  - vm_compute. reflexivity.
  - vm_compute. congruence.
  - vm_compute. reflexivity.
  - vm_compute. congruence.
  - reflexivity.
  - vm_compute. reflexivity.
  - vm_compute. reflexivity.
  - vm_compute. reflexivity.
  - vm_compute. reflexivity.
Defined.

(** ** The budget *)

Definition demo_arrivals : list arrival :=
  [{| ar_order := demo_order; ar_source := demo_source; ar_now := 1000; ar_src := demo_ip;
      ar_data := demo_knock 1000 |};
   {| ar_order := demo_order; ar_source := demo_source; ar_now := 1100; ar_src := demo_ip;
      ar_data := demo_knock 1001 |}].

Lemma verify_budget_witness :
  count_verified (handle_all demo_arrivals demo_server).1 = 2 ∧
  count_verified (handle_all demo_arrivals demo_server).1 ≤ 1000 + (1100 - 500) / 1.
Proof.
  split; [vm_compute; reflexivity|].
  apply (verify_budget demo_auth config_default [demo_key] 500 demo_arrivals 1100).
  - apply config_default_wf.
  - apply clock_ok_small; lia.
  - lia.
  - constructor; [|constructor; [|constructor]]; cbn [ar_now ar_source];
      (split; [apply clock_ok_small; lia|split; [lia|apply demo_source_ok]]).
Defined.
